(* ===== verification/_CoqProject ===== *)
-Q . S2P
Prelude.v
RustStd.v
Core.v
CoreProto.v
Crypto.v
ReceiptTypes.v
ReceiptProto.v
Merkle.v
Preimage.v
Sealer.v
ReceiptVerify.v
ReceiptStore.v
ReplayStore.v
F64.v
Scope.v
Passport.v
PassportStore.v
Capability.v
CapabilityStore.v
Registry.v
RegistryProto.v
Envelope.v
Replay.v
Tokio.v
Transport.v
Score.v
Enforcement.v
CedarPlus.v
Procedure.v
Validate.v
Escalation.v
ConfigSpec.v
ProcedureTyping.v
Evaluator.v
EvaluatorLaws.v
Publisher.v
EnforcementLoop.v
LoopLaws.v
ReplaySession.v
ReplayLaws.v
Status.v
Auth.v
Seed.v
ControlPlane.v
EnvelopeService.v
ConstitutionService.v
Subscription.v
ServiceLaws.v
Server.v
SendLaws.v
ReplayService.v
ReplayServiceLaws.v
RustText.v
Oidc.v
OidcLaws.v
Spiffe.v
SpiffeLaws.v
Signers.v
SignersLaws.v
Startup.v
Boot.v
BootLaws.v
AnchorContract.v
Anchor.v
AnchorLaws.v
Diff.v
DiffLaws.v
DiffRender.v
DiffRenderLaws.v
OpsDiff.v
OpsDiffLaws.v
