(* ===== verification/Prelude.v ===== *)
(** * Yutha: verification development (root file)

    Yutha is a control plane for swarms of software agents: every agent holds a
    signed passport, acts under attenuable capability tokens, talks to others in
    signed envelopes, and everything that happens is recorded as a signed,
    content-addressed receipt in an append-only log whose batches are sealed by
    Merkle roots.  An enforcement engine watches the log and escalates against
    agents that keep breaking the rules.  This library models the Rust crates
    that carry that logic, and the Move contract that anchors the log on a chain,
    and proves what they promise one another.

    ** Parts, and how they interact

    - [RustStd], [RustText], [F64]: what the code uses of Rust's standard library
      and of base64 and PEM texts: byte and string order, machine integers,
      integer parsing and printing, ordered maps, trimming, splitting, UTF-8,
      [f64] parsing and comparison.
    - [Core], [CoreProto] ([crates/yutha-core]): identifiers, hashes,
      timestamps, versions, signatures, and their wire forms.  The interface of
      all wire conversions ([ToProto], [TryFromProto], [RoundTrip],
      [DecodesWf]) is in [CoreProto].
    - [Crypto] ([crates/yutha-crypto], [crates/yutha-signer]): SHA-256, Ed25519,
      content addresses, signers.
    - [ReceiptTypes], [ReceiptProto], [Merkle], [Preimage], [Sealer],
      [ReceiptVerify], [ReceiptStore] ([crates/yutha-receipt]): receipts, their
      canonical bytes, Merkle batches, the sealed preimage, signature
      verification, the store.  [ReceiptStore] is a class with the laws
      [ReceiptStoreLaws]; [MemoryStore] satisfies them, and every client below
      is proved against the class only.
    - [Scope], [Capability], [CapabilityStore] ([crates/yutha-capability]):
      scopes and their intersection, tokens, the capability store, which writes
      its receipts through [ReceiptStore].
    - [Passport], [PassportStore] ([crates/yutha-passport]): passports, the
      store and its contract [PassportStoreLaws], the adapter that resolves an
      agent's key, and the steps by which the control plane writes a receipt.
    - [Registry], [RegistryProto] ([crates/yutha-registry],
      [crates/yutha-attestor]): admission and registration, proved against the
      contracts of the passport and receipt stores and a parametric attestor.
    - [Envelope], [Replay], [Transport], [Subscription]
      ([crates/yutha-transport]): envelopes, replay protection, the in-memory
      transport over a bounded channel given by the laws [MpscLaws] and any lawful
      receipt store; subscriptions, whose two tasks, locks and notifications are
      a step relation.
    - [Score], [Enforcement] ([crates/yutha-cedar-plus]): fixed-point scores,
      durations, the enforcement engine.
    - [CedarPlus], [Procedure], [Validate], [Evaluator] (same crate): the
      constitution engine around Cedar: its errors, bounds and requests; scoring
      rules and procedures; validation and loading; the evaluator with its
      active and shadow slots.  [Escalation], [ConfigSpec], [ProcedureTyping]
      and [EvaluatorLaws] hold its specifications and their proofs.
    - [Tokio], [Publisher], [EnforcementLoop], [LoopLaws]
      ([crates/yutha-control-plane]: [receipt_publisher.rs], the two background
      tasks of [main.rs], [quarantine_adapter.rs]): the receipt store that
      publishes what is appended ([PublishingReceiptStore], itself an instance
      of [ReceiptStoreLaws]), the tasks that carry receipts to the enforcement
      engine and its effects back into the store, as functions for one iteration
      ([forward], [tick]) and as a step relation that interleaves them with
      everything else ([step]).
    - [ReplayStore], [ReplaySession], [ReplayLaws] ([crates/yutha-receipt]:
      [replay_store.rs], [crates/yutha-replay]): the sessions' metadata and
      isolated stores, and the sessions that play a window of receipts to a
      candidate constitution's engine.
    - [Status], [Auth], [ControlPlane], [EnvelopeService],
      [ConstitutionService], [ReplayService] ([crates/yutha-control-plane]:
      [auth.rs], [grpc/]): the guards on bearer tokens and the handlers of the
      gRPC services, as calls on the shared state [ControlPlaneState].  Handlers
      that give up the state between two accesses that other calls can tell apart
      are split there ([send_begin], [activate_swap], [promote_begin] and the
      rest), and [ServiceLaws], [Server], [SendLaws] and
      [ReplayServiceLaws] interleave their parts.
    - [Seed] ([main.rs] of the control plane and [crates/yutha-ops]): keys and
      ids derived from a seed, and the tokens minted with them.
    - [Oidc], [OidcLaws], [Spiffe], [SpiffeLaws] ([crates/yutha-attestor-oidc],
      [crates/yutha-attestor-spiffe]): the attestors; the key cache of the first
      with its concurrent refreshes as polled tasks.
    - [Signers], [SignersLaws] ([crates/yutha-signer-vault], [-gcp-kms],
      [-azure-kv]): the remote signers over what the services answer.
    - [Startup], [Boot], [BootLaws] ([main.rs]): the parts built from the flags,
      and the boot, which registers the control plane's own passport.
    - [AnchorContract] ([contracts/sui/receipt_anchor]), [Anchor], [AnchorLaws]
      ([backends/sui-anchor]): the contract that takes batches, the client, the
      sealer, and the driver whose rounds interleave with appends.
    - [Diff], [DiffLaws], [DiffRender], [DiffRenderLaws] ([crates/yutha-diff]):
      what changed between two constitutions, and its three renderings.
    - [OpsDiff], [OpsDiffLaws] ([crates/yutha-ops]): the diff command, which puts
      a replay session and the counts of two stores around it.

    A definition is preceded by a comment with the file (under [crates/]), the
    lines and the item it translates.

    ** How the code is rendered

    - [Result], [?] and early returns: the type [Result] with [let?]; methods on
      shared state: the state monad [M] with [let!], in which the changes made
      before an error stay made.
    - [HashMap], [BTreeMap]: [gmap]; the iteration order of a [BTreeMap] is
      [btree_iter], that of a hash set is an argument of the operation.
    - [u64], [u32], [i64]: [N] and [Z], with wrap-around, saturation, checked
      arithmetic and casts written where the code has them (release build).
    - [String]: its UTF-8 bytes; [Vec<u8>]: lists of bytes.
    - [Timestamp::now()]: an argument [clock], whose n-th value is the n-th
      reading of the call.
    - Locks: an operation takes and releases its locks inside one step.
    - Third-party code is a parameter: hashing and signatures ([CryptoOps],
      [CryptoLaws]; collision resistance is never assumed, theorems conclude
      "or there is a [Collision]"), RFC 3339 parsing ([TimeOps]) and date
      arithmetic ([OffsetDateTimeOps]), message encoding ([Encode]), channels
      ([Mpsc]), the policy engine ([Cedar]) and JSON ([SerdeJson]).  The
      witnesses instantiate them with small concrete functions (modules ending
      in [Toy]).
    - No fuel limits a result: the loops are structural, or their fuel is
      enough: the number of leaves for the levels of a Merkle tree (proved by
      [collapse_climbs] and [climbs_fuel]), the length of the text for [trim] and
      [without_space], and for the ancestor walk of capabilities the code's own
      bound, past which it answers [ChainTooDeep].  The driver's retries are
      structural in the attempts it is configured with; that a verification of an
      ID token ends within thirteen polls, not counting those in which it waits
      for the lock or for the answer of the source, is a theorem
      ([oidc_verifications_end]).
    - Requests over a network: their results are arguments.  Those of the OIDC
      attestor's key cache, which are made while a lock is held, are values of
      [Poll], so that one may stay without an answer; elsewhere a request that is
      never answered is a call that never gets to its next step.
    - Tasks that run side by side are functions for what one of them does between
      two points where others may run, and a step relation over all of them.

    ** What the theorems show

    - The log: it only grows, its keys are the content addresses of admissible
      receipts, appends and queries are exact, seals are recorded all or nothing
      ([store_append_only], [append_exact], [queries_exact],
      [seals_all_or_nothing]); what an accepted receipt was signed with
      ([receipt_signatures_accepted]).
    - Batches: every leaf's path verifies, a verifying path of the batch's depth
      is a member's or there is a collision, construction does not depend on the
      order, the preimage determines the batch ([merkle_paths_verify],
      [merkle_path_sound], [merkle_outcome], [merkle_order_independent],
      [preimage_injective], [preimage_accepts], [sealed_batch_anchors]).
    - Authority: when a check permits, exactly; attenuation cannot widen,
      revocation reaches all descendants, each check leaves a receipt
      ([capability_check_exact], [delegation_never_escalates],
      [revocation_reaches_descendants], [capability_check_recorded],
      [scope_intersect_exact]).
    - Identity: resolved keys come from self-signed passports; who is admitted,
      what registration does, refusals are logged ([resolved_keys_self_signed],
      [admission_exact], [register_exact], [attestation_denial_logged]).
    - Messages: the replay window refines a full history and lets no nonce
      through twice; what send and receive deliver and record
      ([replay_refines_history], [no_replay_in_window], [send_exact],
      [receive_exact], [send_once], [envelope_signature_exact]).
    - Enforcement: reputation and quarantine are a function of the receipts,
      detection is an exact sliding window, sanctions follow the ladder
      ([standing_exact], [detection_window_exact], [sanctions_follow_ladder],
      [poll_exact]).
    - Constitutions: validation accepts exactly the valid configurations,
      whatever order hash maps are walked in; predicates expand to the one
      reading of the text; procedures evaluate instance by instance and stay in
      their declared states; scores, decisions and their effects; the input
      digest; the shadow slot only observes and previews its promotion
      ([constitution_validation_exact], [substitute_exact], [procedures_exact],
      [instances_typed], [scoring_exact], [evaluate_exact],
      [input_digest_exact], [shadow_only_observes], [shadow_previews_promotion],
      [slots_refine]).
    - The enforcement loop: engine, publisher, tasks and store together.  Under
      every interleaving the standing of an agent is what the receipts read so
      far amount to, the loop settles although it feeds itself, an effect comes
      back as it was, quarantine reaches the capability checks; and whom denied
      checks are counted against ([loop_standing_exact], [forwarder_settles],
      [effect_comes_back], [quarantine_reaches_checks],
      [checks_counted_against_control_plane]; [forward_steps] and [tick_steps]
      tie the functions to the relation).
    - Replay: a window is a run of the engine on the window's receipts, a warm
      start on the lookback; standing comes from the replayed receipts alone;
      views agree with the live ones; sessions are isolated
      ([replay_window_exact], [warm_start_exact],
      [replay_standing_ignores_candidate], [replay_sees_live_view],
      [sessions_isolated], [replay_sessions_exact]).
    - The services: without a valid token a call has no effect; an agent sends
      only in its own name, and what is sent was checked, evaluated and recorded;
      revocation is final; what the services change they record; guards answer
      exactly as specified; evaluator and engine hold the same constitution
      unless it is changed while an activation or a promotion is under way; previews leave
      production alone
      ([no_token_no_effect], [send_mediated], [revocation_is_final],
      [control_plane_audited], [bearer_auth_exact],
      [evaluator_and_engine_agree], [preview_leaves_production]).
    - Subscriptions answer the envelopes of the inbox in their order, each with
      its receipt or the error of recording it, and a stream is closed by a
      revocation that its task sees
      ([subscription_streams], [revocation_closes_stream]).
    - Attestors accept only tokens that pass every check against keys that are
      fresh enough, verifications end as long as the source answers (a source that
      does not blocks them, [silence_blocks]), and a cache past its window never
      recovers
      ([oidc_accepts_only], [spiffe_accepts_only], [oidc_verifications_end],
      [stale_for_good]); the three remote signers sign as a local one does
      ([remote_signers_agree]).
    - The boot succeeds with the native attestor and leaves a consistent state,
      and never does with another one ([boot_starts], [idp_never_boots]); the
      keys and tokens of one seed agree on both sides
      ([seed_tools_authenticate]).
    - Anchoring: the contract takes what the sealer signs, every seal the store
      holds is backed by a commit of the chain under every interleaving, and with
      confirmed transactions what can be sealed is sealed ([sealer_meets_contract],
      [anchored_batches], [anchoring_completes]).
    - The diff of two constitutions is complete: applied to the left side by name
      it gives the right side; nothing a constitution says reaches the markup of
      the page; the rows of the behavioural diff are exact counts
      ([diff_applies], [html_markup_fixed], [behavioural_counts_exact]).
    - Wire forms: decoding inverts encoding and yields well-formed values
      ([receipt_wire_round_trip], [envelope_wire_round_trip],
      [capability_wire_round_trip], [topology_wire_round_trip]).
    - Behaviour that differs from its documentation is stated as theorems too:
      [scope_intersect_clash_broadens], [issued_child_escalates],
      [reseal_erases_anchor], [merkle_inner_node_verifies],
      [extra_actor_signatures_unchecked], [rotation_without_continuity],
      [top_epoch_locked_out], [coachless_rule_stops],
      [evict_fires_after_reverse], [textual_due_times],
      [long_window_becomes_a_minute], [default_names_never_score],
      [second_action_replaces_first], [checks_counted_against_control_plane],
      [chain_is_cut], [quiet_step_cuts_chain], [replayed_checks_name_nobody],
      [stale_for_good], [zero_window_static], [workload_window_ignored],
      [idp_never_boots], [lost_confirmation_wedges], [below_watermark_stays],
      [twice_committed], [duplicate_id_hidden],
      [enforcement_filter_silences_candidate], [candidate_never_evaluates],
      [failed_replay_hides_structural_diff],
      [other_caveats_restrict_nothing], [loose_validation], [request_moves_twice],
      [silence_blocks].

    The theorems that carry an identifier [C<n>] in their comments are the
    development's main properties; the rest of the names above are lemmas of the
    component they speak of.

    ** Not modelled

    The text of engine configurations (YAML is a parameter); the order of the
    steps of the control plane's [main], its listening sockets and its connection
    to PostgreSQL; the PostgreSQL receipt store, whose behaviour is in SQL; the S3
    and Walrus backends, which are stubs; cancellation of the anchoring driver at
    shutdown; the operator's commands other than [diff], which call one service
    each and print; the simulation and conformance harnesses; the SDKs and
    interop packages in other languages.

    ** This file

    Results and their inversion, the state monad, and list lemmas shared by the
    components. *)

From Stdlib Require Export ZArith NArith Lia.
From stdpp Require Export sorting strings pretty countable.
From stdpp Require Export base tactics gmap sets list_numbers list.

(** ** Results, the [?] operator and its inversion

    [Result A E] is Rust's [Result<A, E>].  [let? x := e in k] is the [?]
    operator: the error of [e] is returned at once. *)

Inductive Result (A E : Type) : Type :=
| Ok (a : A)
| Err (e : E).
Arguments Ok {A E} _.
Arguments Err {A E} _.

#[global] Instance Result_eq_dec `{EqDecision A, EqDecision E} : EqDecision (Result A E).
Proof. solve_decision. Defined.

Definition rbind {A B E} (r : Result A E) (k : A → Result B E) : Result B E :=
  match r with Ok a => k a | Err e => Err e end.

Definition map_err {A E F} (f : E → F) (r : Result A E) : Result A F :=
  match r with Ok a => Ok a | Err e => Err (f e) end.

Definition ok_or {A E} (o : option A) (e : E) : Result A E :=
  match o with Some a => Ok a | None => Err e end.

Definition is_ok {A E} (r : Result A E) : bool :=
  match r with Ok _ => true | Err _ => false end.

Definition result_ok {A E} (r : Result A E) : option A :=
  match r with Ok a => Some a | Err _ => None end.

(** [iter.map(f).collect::<Result<Vec<_>, _>>()] and [for x in xs { f(x)?; }]. *)
Fixpoint collect {A B E} (f : A → Result B E) (l : list A) : Result (list B) E :=
  match l with
  | [] => Ok []
  | x :: l => rbind (f x) (λ y, rbind (collect f l) (λ ys, Ok (y :: ys)))
  end.

Declare Scope rust_scope.
Delimit Scope rust_scope with rust.
Notation "'let?' x := e 'in' k" := (rbind e (λ x, k))
  (at level 10, x binder, e at level 200, k at level 200, only parsing) : rust_scope.
Notation "'require' b 'else' err 'in' k" :=
  (if b then k else Err err) (at level 10, b at level 100, err at level 100, k at level 200,
   only parsing) : rust_scope.
#[global] Open Scope rust_scope.

Lemma rbind_Ok {A B E} (r : Result A E) (k : A → Result B E) y :
  rbind r k = Ok y ↔ ∃ x, r = Ok x ∧ k x = Ok y.
Proof. destruct r; naive_solver. Qed.

Lemma rbind_Err {A B E} (r : Result A E) (k : A → Result B E) e :
  rbind r k = Err e ↔ r = Err e ∨ ∃ x, r = Ok x ∧ k x = Err e.
Proof. destruct r; naive_solver. Qed.

Lemma map_err_Ok {A E F} (f : E → F) (r : Result A E) x : map_err f r = Ok x ↔ r = Ok x.
Proof. destruct r; naive_solver. Qed.

Lemma map_err_Err {A E F} (f : E → F) (r : Result A E) e :
  map_err f r = Err e ↔ ∃ e0, r = Err e0 ∧ e = f e0.
Proof. destruct r; naive_solver. Qed.

Lemma ok_or_Ok {A E} (o : option A) (e : E) x : ok_or o e = Ok x ↔ o = Some x.
Proof. destruct o; naive_solver. Qed.

Lemma ok_or_Err {A E} (o : option A) (e e' : E) : ok_or o e = Err e' ↔ o = None ∧ e = e'.
Proof. destruct o; naive_solver. Qed.

Lemma collect_Ok {A B E} (f : A → Result B E) l ys :
  collect f l = Ok ys ↔ Forall2 (λ x y, f x = Ok y) l ys.
Proof.
  revert ys; induction l as [|x l IH]; intros ys; simpl.
  - split; [intros [= <-]; constructor|by intros ->%Forall2_nil_inv_l].
  - rewrite rbind_Ok. setoid_rewrite rbind_Ok. setoid_rewrite IH.
    split; [intros (y & ? & zs & ? & [= <-]); by constructor|].
    intros (y & zs & ? & ? & ->)%Forall2_cons_inv_l. naive_solver.
Qed.

Lemma collect_total {A B E} (f : A → Result B E) (g : A → B) l :
  (∀ x, x ∈ l → f x = Ok (g x)) → collect f l = Ok (g <$> l).
Proof.
  intros H. apply collect_Ok. induction l; constructor; [apply H; set_solver|].
  apply IHl; set_solver.
Qed.


(** Inversion of a chain of [?] in a hypothesis [... = Ok _]. *)
Ltac inv_ok H :=
  repeat first
    [ progress simplify_eq/=
    | match type of H with
      | rbind _ _ = Ok _ =>
          let x := fresh "x" in let Hx := fresh "Hx" in
          apply rbind_Ok in H as (x & Hx & H); inv_ok Hx
      | map_err _ _ = Ok _ => apply map_err_Ok in H
      | ok_or _ _ = Ok _ => apply ok_or_Ok in H
      | (if ?b then _ else Err _) = Ok _ =>
          let Hb := fresh "Hb" in destruct b eqn:Hb; [|discriminate H]
      | (if ?b then Err _ else _) = Ok _ =>
          let Hb := fresh "Hb" in destruct b eqn:Hb; [discriminate H|]
      end ].

(** ** State and errors

    [M S E A] is a computation on the state [S] that can return early with an
    error.  The state reached so far is kept when it does, as a Rust method
    that mutated [self] before a [?]. *)

Definition M (S E A : Type) : Type := S → Result A E * S.

Definition mret {S E A} (a : A) : M S E A := λ s, (Ok a, s).
Definition throw {S E A} (e : E) : M S E A := λ s, (Err e, s).
Definition gets {S E A} (f : S → A) : M S E A := λ s, (Ok (f s), s).
Definition modify {S E} (f : S → S) : M S E unit := λ s, (Ok tt, f s).
Definition lift {S E A} (r : Result A E) : M S E A := λ s, (r, s).
Definition mthen {S E A B} (m : M S E A) (k : A → M S E B) : M S E B :=
  λ s, match m s with (Ok a, s') => k a s' | (Err e, s') => (Err e, s') end.
Definition m_map_err {S E F A} (f : E → F) (m : M S E A) : M S F A :=
  λ s, let '(r, s') := m s in (map_err f r, s').
(** [match m { Ok(a) => .., Err(e) => .. }] and [let _ = m;] *)
Definition attempt {S E F A} (m : M S E A) : M S F (Result A E) :=
  λ s, let '(r, s') := m s in (Ok r, s').
(** Run a computation on a part of the state. *)
Definition zoom {S T E A} (get : S → T) (set : T → S → S) (m : M T E A) : M S E A :=
  λ s, let '(r, t) := m (get s) in (r, set t s).

Notation "'let!' x := e 'in' k" := (mthen e (λ x, k))
  (at level 10, x binder, e at level 200, k at level 200, only parsing) : rust_scope.
Notation "'do!' e 'in' k" := (mthen e (λ _, k))
  (at level 10, e at level 200, k at level 200, only parsing) : rust_scope.

Section state_lemmas.
Context {S E A B : Type}.

Lemma mthen_run (m : M S E A) (k : A → M S E B) s r s' :
  mthen m k s = (r, s') ↔
    (∃ a s1, m s = (Ok a, s1) ∧ k a s1 = (r, s')) ∨
    (∃ e, m s = (Err e, s') ∧ r = Err e).
Proof. unfold mthen. destruct (m s) as [[a|e] s1]; naive_solver. Qed.

Lemma mthen_Ok (m : M S E A) (k : A → M S E B) s b s' :
  mthen m k s = (Ok b, s') ↔ ∃ a s1, m s = (Ok a, s1) ∧ k a s1 = (Ok b, s').
Proof. rewrite mthen_run. naive_solver. Qed.

(** A predicate on states kept by every step of a computation. *)
Definition keeps (P : S → Prop) (m : M S E A) : Prop := ∀ s, P s → P (m s).2.

End state_lemmas.

Lemma keeps_mthen {S E A B} (P : S → Prop) (m : M S E A) (k : A → M S E B) :
  keeps P m → (∀ a, keeps P (k a)) → keeps P (mthen m k).
Proof.
  intros Hm Hk s Hs. unfold mthen. specialize (Hm s Hs).
  destruct (m s) as [[a|e] s1]; [by apply Hk|done].
Qed.

Lemma keeps_lift {S E A} (P : S → Prop) (r : Result A E) : keeps P (lift r).
Proof. by intros s Hs. Qed.
Lemma keeps_mret {S E A} (P : S → Prop) (a : A) : keeps (E:=E) P (mret a).
Proof. by intros s Hs. Qed.
Lemma keeps_throw {S E A} (P : S → Prop) (e : E) : keeps (A:=A) P (throw e).
Proof. by intros s Hs. Qed.
Lemma keeps_gets {S E A} (P : S → Prop) (f : S → A) : keeps (E:=E) P (gets f).
Proof. by intros s Hs. Qed.
Lemma keeps_m_map_err {S E F A} (P : S → Prop) (f : E → F) (m : M S E A) :
  keeps P m → keeps P (m_map_err f m).
Proof. intros Hm s Hs. specialize (Hm s Hs). unfold m_map_err. by destruct (m s). Qed.
Lemma keeps_attempt {S E F A} (P : S → Prop) (m : M S E A) :
  keeps P m → keeps (E:=F) P (attempt m).
Proof. intros Hm s Hs. specialize (Hm s Hs). unfold attempt. by destruct (m s). Qed.

Lemma keeps_modify {S E} (P : S → Prop) (f : S → S) : (∀ s, P s → P (f s)) → keeps (E:=E) P (modify f).
Proof. intros Hf s Hs. by apply Hf. Qed.
Lemma keeps_zoom {S T E A} (get : S → T) (set : T → S → S) (Q : T → Prop) (P : S → Prop) (m : M T E A) :
  keeps Q m → (∀ s, P s → Q (get s)) → (∀ s t, P s → Q t → P (set t s)) → keeps P (zoom get set m).
Proof. intros Hm Hg Hs s HQ. unfold zoom. specialize (Hm (get s) (Hg s HQ)). destruct (m (get s)). by apply Hs. Qed.
Lemma keeps_run {S E A} (Q : S → Prop) (m : M S E A) (s : S) r (s' : S) : keeps Q m → m s = (r, s') → Q s → Q s'.
Proof. intros Hm Heq Hs. specialize (Hm s Hs). by rewrite Heq in Hm. Qed.
(** A computation that is given a value read from the state. *)
Lemma keeps_reading {S E A T} (P : S → Prop) (f : S → T) (m : T → M S E A) :
  (∀ t, keeps P (m t)) → keeps P (λ s, m (f s) s).
Proof. intros Hm s Hs. by apply Hm. Qed.

Create HintDb keeps.
#[export] Hint Resolve keeps_mthen keeps_lift keeps_mret keeps_throw keeps_gets
  keeps_m_map_err keeps_attempt : keeps.

(** Walk over the steps and branches of a handler; what is left is closed by
    the hints. *)
Ltac walk :=
  lazymatch goal with
  | |- keeps _ (mthen _ _) => apply keeps_mthen; [walk|intros ?; walk]
  | |- keeps _ (mret _) => apply keeps_mret
  | |- keeps _ (throw _) => apply keeps_throw
  | |- keeps _ (lift _) => apply keeps_lift
  | |- keeps _ (gets _) => apply keeps_gets
  | |- keeps _ (m_map_err _ _) => apply keeps_m_map_err; walk
  | |- keeps _ (if ?b then _ else _) => destruct b; walk
  | |- keeps _ (match ?x with _ => _ end) => destruct x; walk
  | |- _ => try solve [eauto 3 with keeps nocore]
  end.

(** Inversion of a successful run, as [inv_ok] for [?]. *)
Ltac run_ok X :=
  repeat match type of X with
  | mthen _ _ _ = (Ok _, _) =>
      let x := fresh "x" in let t := fresh "t" in let Hx := fresh "Hx" in
      apply mthen_Ok in X as (x & t & Hx & X)
  | mret _ _ = _ => injection X as X; subst
  | (if ?b then _ else _) _ = _ => let Hb := fresh "Hb" in destruct b eqn:Hb; [by unfold throw in X|]
  end.

(** ** List lemmas shared by the components *)

Section list_lemmas.
Context {A : Type}.

Lemma Forall2_length_eq {B} (P : A → B → Prop) l k : Forall2 P l k → length l = length k.
Proof. apply Forall2_length. Qed.

Lemma fold_left_conj_forallb (f : A → bool) l b :
  fold_left (λ acc x, acc && f x) l b = b && forallb f l.
Proof.
  revert b; induction l as [|x l IH]; intros b; simpl; [by rewrite andb_true_r|].
  by rewrite IH, andb_assoc.
Qed.

Lemma forallb_True_elem (f : A → bool) l : forallb f l = true ↔ ∀ x, x ∈ l → f x = true.
Proof. rewrite forallb_forall. by setoid_rewrite list_elem_of_In. Qed.

Lemma existsb_True_elem (f : A → bool) l : existsb f l = true ↔ ∃ x, x ∈ l ∧ f x = true.
Proof. rewrite existsb_exists. by setoid_rewrite list_elem_of_In. Qed.

End list_lemmas.

(** [xs.contains(&x)] *)
Definition contains `{EqDecision A} (l : list A) (x : A) : bool := bool_decide (x ∈ l).

Lemma contains_true `{EqDecision A} (l : list A) x : contains l x = true ↔ x ∈ l.
Proof. apply bool_decide_eq_true. Qed.
Lemma contains_false `{EqDecision A} (l : list A) x : contains l x = false ↔ x ∉ l.
Proof. apply bool_decide_eq_false. Qed.
