(* ===== verification/RustStd.v ===== *)
(** * The parts of Rust's standard library the sources use

    Byte sequences ([Vec<u8>], [[u8; N]]), their lexicographic [Ord], big-endian
    encodings, strings as UTF-8 byte sequences, [BTreeMap] iteration order,
    integer parsing and printing, checked and wrapping 64-bit arithmetic. *)

From Stdlib Require Export Strings.Byte.
From Stdlib Require Export Strings.Ascii.
From S2P Require Import Prelude.

From S2P Require Export Prelude.

Notation bytes := (list byte) (only parsing).

(** ** Bytes *)

#[global] Instance byte_eq_dec : EqDecision byte := Byte.byte_eq_dec.
#[global] Instance byte_countable : Countable byte :=
  inj_countable Byte.to_N Byte.of_N Byte.of_to_N.
#[global] Instance byte_inhabited : Inhabited byte := populate "000"%byte.

Lemma byte_to_N_inj (a b : byte) : Byte.to_N a = Byte.to_N b → a = b.
Proof. intros H. pose proof (Byte.of_to_N a). pose proof (Byte.of_to_N b). congruence. Qed.

Lemma byte_to_N_lt (b : byte) : (Byte.to_N b < 256)%N.
Proof. pose proof (Byte.to_N_bounded b). lia. Qed.

(** The low eight bits of a number ([x as u8]). *)
Definition byte_of (x : N) : byte := default "000"%byte (Byte.of_N (x mod 256)).

Lemma byte_of_to_N (x : N) : Byte.to_N (byte_of x) = (x mod 256)%N.
Proof.
  unfold byte_of. destruct (Byte.of_N (x mod 256)) as [b|] eqn:E; simpl.
  - by apply Byte.to_of_N.
  - apply Byte.of_N_None_iff in E. pose proof (N.mod_lt x 256). lia.
Qed.

(** ** The [Ord] of byte slices: lexicographic, a proper prefix is smaller *)

Fixpoint bytes_cmp (a b : bytes) : comparison :=
  match a, b with
  | [], [] => Eq
  | [], _ :: _ => Lt
  | _ :: _, [] => Gt
  | x :: a, y :: b =>
      match N.compare (Byte.to_N x) (Byte.to_N y) with
      | Eq => bytes_cmp a b
      | c => c
      end
  end.

Definition bytes_leb (a b : bytes) : bool :=
  match bytes_cmp a b with Gt => false | _ => true end.
Definition bytes_le (a b : bytes) : Prop := bytes_leb a b = true.
#[global] Instance bytes_le_dec : RelDecision bytes_le.
Proof. intros a b. unfold bytes_le. apply _. Defined.

Lemma bytes_cmp_refl a : bytes_cmp a a = Eq.
Proof. induction a as [|x a IH]; simpl; [done|]. by rewrite N.compare_refl. Qed.

Lemma bytes_cmp_Eq a b : bytes_cmp a b = Eq ↔ a = b.
Proof.
  split; [|intros ->; apply bytes_cmp_refl].
  revert b; induction a as [|x a IH]; intros [|y b]; simpl; try done.
  destruct (N.compare_spec (Byte.to_N x) (Byte.to_N y)) as [H|H|H]; try done.
  intros ?%IH. apply byte_to_N_inj in H. by subst.
Qed.

Lemma bytes_cmp_antisym a b : bytes_cmp b a = CompOpp (bytes_cmp a b).
Proof.
  revert b; induction a as [|x a IH]; intros [|y b]; simpl; try done.
  rewrite (N.compare_antisym (Byte.to_N x)). destruct (N.compare _ _); simpl; auto.
Qed.

Lemma bytes_cmp_trans_lt a b c : bytes_cmp a b ≠ Gt → bytes_cmp b c ≠ Gt → bytes_cmp a c ≠ Gt.
Proof.
  revert b c; induction a as [|x a IH]; intros [|y b] [|z c]; simpl; try done.
  destruct (N.compare_spec (Byte.to_N x) (Byte.to_N y)),
    (N.compare_spec (Byte.to_N y) (Byte.to_N z)),
    (N.compare_spec (Byte.to_N x) (Byte.to_N z)); try done; try lia.
  apply IH.
Qed.

Lemma bytes_le_cmp a b : bytes_le a b ↔ bytes_cmp a b ≠ Gt.
Proof. unfold bytes_le, bytes_leb. destruct (bytes_cmp a b); naive_solver. Qed.

#[global] Instance bytes_le_refl : Reflexive bytes_le.
Proof. intros a. apply bytes_le_cmp. by rewrite bytes_cmp_refl. Qed.
#[global] Instance bytes_le_trans : Transitive bytes_le.
Proof. intros a b c. rewrite !bytes_le_cmp. apply bytes_cmp_trans_lt. Qed.
#[global] Instance bytes_le_antisym : AntiSymm (=) bytes_le.
Proof.
  intros a b. rewrite !bytes_le_cmp, (bytes_cmp_antisym a b).
  destruct (bytes_cmp a b) eqn:E; simpl; try done. intros. by apply bytes_cmp_Eq.
Qed.
#[global] Instance bytes_le_total : Total bytes_le.
Proof.
  intros a b. rewrite !bytes_le_cmp, (bytes_cmp_antisym a b).
  destruct (bytes_cmp a b); simpl; naive_solver.
Qed.

Lemma bytes_leb_false a b : bytes_leb a b = false → bytes_le b a.
Proof. intros H. destruct (total bytes_le a b) as [H'|H']; [|done]. unfold bytes_le in H'. congruence. Qed.

(** ** Big-endian encodings: [to_be_bytes] *)

Fixpoint be_bytes (n : nat) (x : N) : bytes :=
  match n with
  | O => []
  | S n => be_bytes n (x / 256) ++ [byte_of x]
  end.

Definition be_val (l : bytes) : N := foldl (λ acc b, (acc * 256 + Byte.to_N b)%N) 0%N l.

Lemma length_be_bytes n x : length (be_bytes n x) = n.
Proof. revert x; induction n; intros x; simpl; [done|]. rewrite length_app, IHn. simpl. lia. Qed.

Lemma be_val_bytes n x : (x < 256 ^ N.of_nat n)%N → be_val (be_bytes n x) = x.
Proof.
  revert x; induction n as [|n IH]; intros x Hx.
  - simpl in *. unfold be_val; simpl. lia.
  - unfold be_val in *. simpl. rewrite foldl_app. simpl.
    rewrite byte_of_to_N, IH.
    + pose proof (N.div_mod x 256). lia.
    + apply N.Div0.div_lt_upper_bound. rewrite Nat2N.inj_succ, N.pow_succ_r' in Hx. lia.
Qed.

Lemma be_bytes_inj n x y :
  (x < 256 ^ N.of_nat n)%N → (y < 256 ^ N.of_nat n)%N → be_bytes n x = be_bytes n y → x = y.
Proof. intros Hx Hy H. by rewrite <- (be_val_bytes n x), H, be_val_bytes. Qed.

(** ** 64-bit integers *)

Definition u64_max : N := 18446744073709551615.
Definition u32_max : N := 4294967295.
Definition u8_max : N := 255.
Definition i64_max : Z := 9223372036854775807.
Definition i64_min : Z := -9223372036854775808.

Definition is_u64 (x : N) : bool := (x <=? u64_max)%N.
Definition is_u32 (x : N) : bool := (x <=? u32_max)%N.
Definition is_i64 (x : Z) : bool := (i64_min <=? x)%Z && (x <=? i64_max)%Z.

Definition u64_checked_add (x y : N) : option N :=
  if is_u64 (x + y) then Some (x + y)%N else None.
Definition u64_checked_mul (x y : N) : option N :=
  if is_u64 (x * y) then Some (x * y)%N else None.
(** [saturating_sub] is [N]'s own subtraction. *)
Definition u64_saturating_add (x y : N) : N := N.min u64_max (x + y).
Definition u64_saturating_mul (x y : N) : N := N.min u64_max (x * y).
Definition u64_wrap (x : N) : N := (x mod 2 ^ 64)%N.
Definition u32_wrap (x : N) : N := (x mod 2 ^ 32)%N.
(** [x as i64] for a u64 *)
Definition u64_as_i64 (x : N) : Z :=
  if (Z.of_N x <=? i64_max)%Z then Z.of_N x else (Z.of_N x - 2 ^ 64)%Z.
Definition i64_saturating_add (x y : Z) : Z := Z.max i64_min (Z.min i64_max (x + y)).
(** [i64] arithmetic of a release build. *)
Definition i64_wrap (x : Z) : Z := ((x - i64_min) mod 2 ^ 64 + i64_min)%Z.
Definition clamp (x lo hi : Z) : Z := Z.max lo (Z.min hi x).

(** ** Strings as their UTF-8 bytes *)

Definition as_bytes (s : string) : bytes := String.list_byte_of_string s.

Lemma as_bytes_inj s t : as_bytes s = as_bytes t → s = t.
Proof.
  intros H. rewrite <- (String.string_of_list_byte_of_string s),
    <- (String.string_of_list_byte_of_string t). unfold as_bytes in H. by rewrite H.
Qed.

Lemma length_as_bytes s : length (as_bytes s) = String.length s.
Proof.
  unfold as_bytes, String.list_byte_of_string. rewrite length_map.
  induction s; simpl; auto.
Qed.

(** [String]'s [Ord]: by bytes. *)
Definition str_leb (s t : string) : bool := bytes_leb (as_bytes s) (as_bytes t).
Definition str_le (s t : string) : Prop := bytes_le (as_bytes s) (as_bytes t).
#[global] Instance str_le_dec : RelDecision str_le.
Proof. intros s t. unfold str_le. apply _. Defined.
#[global] Instance str_le_refl : Reflexive str_le.
Proof. intros s. unfold str_le. reflexivity. Qed.
#[global] Instance str_le_trans : Transitive str_le.
Proof. intros s t u. unfold str_le. apply transitivity. Qed.
#[global] Instance str_le_antisym : AntiSymm (=) str_le.
Proof. intros s t H1 H2. apply as_bytes_inj. by apply (anti_symm bytes_le). Qed.
#[global] Instance str_le_total : Total str_le.
Proof. intros s t. apply (total bytes_le). Qed.

Fixpoint str_forall (p : ascii → bool) (s : string) : bool :=
  match s with EmptyString => true | String c s => p c && str_forall p s end.

Definition is_digit (c : ascii) : bool :=
  (48 <=? N_of_ascii c)%N && (N_of_ascii c <=? 57)%N.
Definition digit_val (c : ascii) : N := (N_of_ascii c - 48)%N.

(** [s.split(c)]: always at least one piece. *)
Fixpoint str_split (c : ascii) (s : string) : list string :=
  match s with
  | EmptyString => [""%string]
  | String d s =>
      if decide (d = c) then ""%string :: str_split c s
      else match str_split c s with
           | p :: ps => String d p :: ps
           | [] => [String d ""]
           end
  end.

(** The text before the first character satisfying [p] ([s.split(p).next()]). *)
Fixpoint str_until (p : ascii → bool) (s : string) : string :=
  match s with
  | EmptyString => EmptyString
  | String c s => if p c then EmptyString else String c (str_until p s)
  end.

Lemma str_split_nonempty c s : str_split c s ≠ [].
Proof. induction s; simpl; [done|]. case_decide; [done|]. by destruct (str_split c s). Qed.

Fixpoint str_join (sep : string) (l : list string) : string :=
  match l with
  | [] => ""%string
  | [s] => s
  | s :: l => (s +:+ sep +:+ str_join sep l)%string
  end.

(** ** Numbers in decimal *)

(** The value of a string of digits, read from the left. *)
Fixpoint dec_val (acc : N) (s : string) : N :=
  match s with
  | EmptyString => acc
  | String c s => dec_val (acc * 10 + digit_val c) s
  end.

Definition parse_digits (s : string) : option N :=
  match s with
  | EmptyString => None
  | _ => if str_forall is_digit s then Some (dec_val 0 s) else None
  end.

(** [core::num::ParseIntError] and [str::parse] for an unsigned type with
    largest value [max]: an optional leading plus sign, at least one digit; the
    digits are scanned from the left and the first bad character or overflow
    decides the error. *)
Inductive ParseIntError := IntEmpty | IntInvalidDigit | IntPosOverflow.

Definition show_parse_int_error (e : ParseIntError) : string :=
  match e with
  | IntEmpty => "cannot parse integer from empty string"
  | IntInvalidDigit => "invalid digit found in string"
  | IntPosOverflow => "number too large to fit in target type"
  end.

Fixpoint parse_scan (max acc : N) (s : string) : Result N ParseIntError :=
  match s with
  | EmptyString => Ok acc
  | String c s =>
      if is_digit c then
        if (acc * 10 + digit_val c <=? max)%N
        then parse_scan max (acc * 10 + digit_val c)%N s
        else Err IntPosOverflow
      else Err IntInvalidDigit
  end.

Definition parse_uint (max : N) (s : string) : Result N ParseIntError :=
  match s with
  | EmptyString => Err IntEmpty
  | String c EmptyString => if is_digit c then parse_scan max 0 s else Err IntInvalidDigit
  | String c t => if decide (c = "+"%char) then parse_scan max 0 t else parse_scan max 0 s
  end.

(** [str::parse::<i64>]: as above, with an optional minus sign and a bound of
    its own for negative numbers; the error is its text. *)
Definition parse_i64 (s : string) : Result Z string :=
  let pos t := match parse_scan (Z.to_N i64_max) 0 t with
               | Ok x => Ok (Z.of_N x) | Err e => Err (show_parse_int_error e) end in
  let neg t := match parse_scan (Z.to_N (- i64_min)) 0 t with
               | Ok x => Ok (- Z.of_N x)%Z
               | Err IntPosOverflow => Err "number too small to fit in target type"%string
               | Err e => Err (show_parse_int_error e) end in
  match s with
  | EmptyString => Err (show_parse_int_error IntEmpty)
  | String c EmptyString => pos s
  | String c t => if decide (c = "-"%char) then neg t
                  else if decide (c = "+"%char) then pos t else pos s
  end.

Lemma parse_scan_bound max acc s x :
  (acc <= max)%N → parse_scan max acc s = Ok x → (x <= max)%N.
Proof.
  revert acc; induction s as [|c s IH]; intros acc Hacc; simpl; [by intros [= <-]|].
  destruct (is_digit c); [|done]. destruct (N.leb_spec (acc * 10 + digit_val c) max); [|done].
  by apply IH.
Qed.

Lemma parse_scan_value max acc s x : parse_scan max acc s = Ok x → x = dec_val acc s.
Proof.
  revert acc; induction s as [|c s IH]; intros acc; simpl; [by intros [= <-]|].
  destruct (is_digit c); [|done]. case_match; [|done]. apply IH.
Qed.

Lemma parse_uint_bound max s x : parse_uint max s = Ok x → (x <= max)%N.
Proof.
  unfold parse_uint. intros H. repeat case_match; simplify_eq;
    (eapply parse_scan_bound; [|done]; lia).
Qed.

(** [format!("{}", x)] for an unsigned integer *)
Definition show_N (x : N) : string := pretty x.
Definition show_Z (x : Z) : string := pretty x.

(** Printing then parsing. *)
Lemma pretty_N_char_digit x : (x < 10)%N →
  is_digit (pretty_N_char x) = true ∧ digit_val (pretty_N_char x) = x.
Proof.
  intros Hx. assert (x = 0 ∨ x = 1 ∨ x = 2 ∨ x = 3 ∨ x = 4 ∨ x = 5 ∨ x = 6 ∨ x = 7 ∨ x = 8 ∨ x = 9)%N
    as Hc by lia. repeat destruct Hc as [->|Hc]; [split; reflexivity..|]. subst. by split.
Qed.

Lemma parse_scan_pretty_go max x s : (x <= max)%N →
  parse_scan max 0 (pretty_N_go x s) = parse_scan max x s.
Proof.
  revert s. induction (N.lt_wf_0 x) as [x _ IH]. intros s Hx. destruct (decide (0 < x)%N) as [Hpos|Hz].
  - rewrite pretty_N_go_step by done. assert (x / 10 < x)%N as Hlt by (apply N.div_lt; lia).
    rewrite IH by lia. pose proof (N.mod_lt x 10 ltac:(lia)) as Hm.
    destruct (pretty_N_char_digit _ Hm) as [Hd Hv]. cbn [parse_scan]. rewrite Hd, Hv.
    replace (x / 10 * 10 + x mod 10)%N with x by (pose proof (N.div_mod x 10); lia).
    by destruct (N.leb_spec x max); [|lia].
  - assert (x = 0)%N as -> by lia. by rewrite pretty_N_go_0.
Qed.

Lemma parse_scan_show_N max x : (x <= max)%N → parse_scan max 0 (show_N x) = Ok x.
Proof.
  intros Hx. unfold show_N, pretty, pretty_N. case_decide as Hz; [subst; by destruct max|].
  by rewrite parse_scan_pretty_go.
Qed.

(** [{b:02x}] *)
Definition hex_digit (x : N) : ascii :=
  if (x <? 10)%N then ascii_of_N (48 + x) else ascii_of_N (87 + x).
Definition hex_byte (b : byte) : string :=
  String (hex_digit (Byte.to_N b / 16)) (String (hex_digit (Byte.to_N b mod 16)) "").
Definition hex (l : bytes) : string := foldr (λ b s, (hex_byte b +:+ s)%string) ""%string l.

Lemma length_string_app s t : String.length (s +:+ t) = (String.length s + String.length t)%nat.
Proof. induction s; simpl; auto. Qed.

Lemma length_hex l : String.length (hex l) = (2 * length l)%nat.
Proof.
  induction l as [|b l IH]; [done|]. change (hex (b :: l)) with (hex_byte b +:+ hex l)%string.
  rewrite length_string_app, IH. unfold hex_byte. simpl. lia.
Qed.

Lemma str_app_inj_length (a b c d : string) :
  String.length a = String.length c → a +:+ b = c +:+ d → a = c ∧ b = d.
Proof.
  revert c. induction a as [|x a IH]; intros [|y c]; simpl; [done|done|done|].
  intros [= Hl] [= -> He]. by destruct (IH c Hl He) as [-> ->].
Qed.
Lemma hex_digit_inj x y : (x < 16)%N → (y < 16)%N → hex_digit x = hex_digit y → x = y.
Proof.
  intros Hx Hy He. assert (forallb (λ a, forallb (λ b,
    implb (bool_decide (hex_digit (N.of_nat a) = hex_digit (N.of_nat b))) (a =? b)%nat) (seq 0 16)) (seq 0 16) = true)
    as Hall by (vm_compute; reflexivity).
  rewrite forallb_forall in Hall. specialize (Hall (N.to_nat x)). rewrite in_seq in Hall.
  specialize (Hall ltac:(lia)). rewrite forallb_forall in Hall. specialize (Hall (N.to_nat y)).
  rewrite in_seq, !N2Nat.id in Hall. rewrite bool_decide_true in Hall by done. cbn [implb] in Hall.
  assert (N.to_nat x = N.to_nat y) as Hn by (apply Nat.eqb_eq, Hall; lia). lia.
Qed.
Lemma hex_inj l k : hex l = hex k → l = k.
Proof.
  revert k. induction l as [|b l IH]; intros [|c k]; [done|discriminate|discriminate|].
  change (hex (b :: l)) with (hex_byte b +:+ hex l)%string. change (hex (c :: k)) with (hex_byte c +:+ hex k)%string.
  intros [Hb Hl]%str_app_inj_length; [|done]. f_equal; [|by apply IH].
  unfold hex_byte in Hb. pose proof (byte_to_N_lt b). pose proof (byte_to_N_lt c).
  injection Hb as Hq Hr. apply hex_digit_inj in Hq, Hr.
  - apply byte_to_N_inj. rewrite (N.div_mod (Byte.to_N b) 16), (N.div_mod (Byte.to_N c) 16) by lia. by rewrite Hq, Hr.
  - apply N.mod_lt; lia.
  - apply N.mod_lt; lia.
  - apply N.Div0.div_lt_upper_bound; lia.
  - apply N.Div0.div_lt_upper_bound; lia.
Qed.

(** [{s:?}]: quotes, backslash and the ASCII control characters are escaped;
    bytes of multi-byte characters are left as they are. *)
Definition debug_char (c : ascii) : string :=
  let n := N_of_ascii c in
  if (n =? 34)%N then String (ascii_of_N 92) (String c "")
  else if (n =? 92)%N then String c (String c "")
  else if (n =? 10)%N then "\n" else if (n =? 13)%N then "\r" else if (n =? 9)%N then "\t"
  else if (n =? 0)%N then "\0"
  else if (n <? 16)%N then "\u{" +:+ String (hex_digit n) "}"
  else if (n <? 32)%N || (n =? 127)%N then
    "\u{" +:+ String (hex_digit (n / 16)) (String (hex_digit (n mod 16)) "}")
  else String c "".
Fixpoint debug_chars (s : string) : string :=
  match s with EmptyString => "" | String c s => debug_char c +:+ debug_chars s end.
Definition quote : string := String (ascii_of_N 34) "".
Definition debug_str (s : string) : string := quote +:+ debug_chars s +:+ quote.

(** ** Slicing and trimming *)

(** [s.strip_prefix(p)] and [s.starts_with(p)] *)
Fixpoint strip_prefix (p s : string) : option string :=
  match p, s with
  | EmptyString, _ => Some s
  | String c p, String d s => if decide (c = d) then strip_prefix p s else None
  | String _ _, EmptyString => None
  end.
Definition starts_with (p s : string) : bool := bool_decide (is_Some (strip_prefix p s)).

(** The text before and after the first [c]. *)
Fixpoint split_once (c : ascii) (s : string) : option (string * string) :=
  match s with
  | EmptyString => None
  | String d s =>
      if decide (d = c) then Some (""%string, s)
      else (λ p : string * string, (String d p.1, p.2)) <$> split_once c s
  end.

Fixpoint str_rev_app (s acc : string) : string :=
  match s with EmptyString => acc | String c s => str_rev_app s (String c acc) end.
Definition str_rev (s : string) : string := str_rev_app s "".

(** The UTF-8 encodings of the characters with the White_Space property. *)
Definition of_codes (l : list N) : string := foldr (λ n, String (ascii_of_N n)) ""%string l.
Definition white_space : list string :=
  of_codes <$>
  [[9]; [10]; [11]; [12]; [13]; [32]; [194; 133]; [194; 160]; [225; 154; 128];
   [226; 128; 128]; [226; 128; 129]; [226; 128; 130]; [226; 128; 131]; [226; 128; 132];
   [226; 128; 133]; [226; 128; 134]; [226; 128; 135]; [226; 128; 136]; [226; 128; 137];
   [226; 128; 138]; [226; 128; 168]; [226; 128; 169]; [226; 128; 175]; [226; 129; 159];
   [227; 128; 128]]%N.

Fixpoint trim_start_with (ws : list string) (fuel : nat) (s : string) : string :=
  match fuel with
  | O => s
  | S fuel =>
      match head (omap (λ w, strip_prefix w s) ws) with
      | Some s => trim_start_with ws fuel s
      | None => s
      end
  end.
(** [s.trim()]; every step removes a byte, so the length is enough fuel. *)
Definition trim (s : string) : string :=
  let t := trim_start_with white_space (String.length s) s in
  str_rev (trim_start_with (str_rev <$> white_space) (String.length t) (str_rev t)).

(** ** [BTreeMap<String, V>]: a finite map, iterated in key order *)

Definition kv_le {V} (p q : string * V) : Prop := str_le p.1 q.1.
#[global] Instance kv_le_dec {V} : RelDecision (@kv_le V).
Proof. intros p q. unfold kv_le. apply _. Defined.
#[global] Instance kv_le_trans {V} : Transitive (@kv_le V).
Proof. intros p q r. unfold kv_le. apply transitivity. Qed.
#[global] Instance kv_le_total {V} : Total (@kv_le V).
Proof. intros p q. apply (total str_le). Qed.

Definition btree_iter {V} (m : gmap string V) : list (string * V) :=
  merge_sort kv_le (map_to_list m).

Section btree.
Context {V : Type}.
Implicit Types (m : gmap string V).

Lemma btree_iter_perm m : btree_iter m ≡ₚ map_to_list m.
Proof. apply merge_sort_Permutation. Qed.

Lemma elem_of_btree_iter m k v : (k, v) ∈ btree_iter m ↔ m !! k = Some v.
Proof. rewrite btree_iter_perm. apply elem_of_map_to_list. Qed.

Lemma length_btree_iter m : length (btree_iter m) = size m.
Proof. rewrite btree_iter_perm. apply length_map_to_list. Qed.

Lemma btree_iter_sorted m : StronglySorted kv_le (btree_iter m).
Proof. apply StronglySorted_merge_sort; apply _. Qed.

Lemma NoDup_btree_iter_keys m : NoDup (btree_iter m).*1.
Proof. rewrite btree_iter_perm. apply NoDup_fst_map_to_list. Qed.

Lemma btree_iter_inj m1 m2 : btree_iter m1 = btree_iter m2 → m1 = m2.
Proof.
  intros H. apply map_to_list_inj. by rewrite <- !btree_iter_perm, H.
Qed.

Lemma btree_iter_nil m : btree_iter m = [] ↔ m = ∅.
Proof.
  rewrite <- (map_to_list_empty_iff m), <- !Permutation_nil_r. by rewrite btree_iter_perm.
Qed.

Lemma list_to_map_btree_iter m : list_to_map (btree_iter m) = m.
Proof.
  rewrite <- (list_to_map_to_list m) at 2.
  apply list_to_map_proper; [apply NoDup_btree_iter_keys|apply btree_iter_perm].
Qed.
End btree.

(** ** UTF-8 *)

(** A byte in [lo..=hi]. *)
Definition byte_in (lo hi : N) (b : byte) : bool := (lo <=? Byte.to_N b)%N && (Byte.to_N b <=? hi)%N.
Definition continuation : byte → bool := byte_in 128 191.
(** Well-formed sequences of two, three and four bytes: no overlong form, no
    surrogate, nothing above U+10FFFF. *)
Definition utf8_2 (a b : byte) : bool := byte_in 194 223 a && continuation b.
Definition utf8_3 (a b c : byte) : bool :=
  (byte_in 224 224 a && byte_in 160 191 b || byte_in 225 236 a && continuation b
   || byte_in 237 237 a && byte_in 128 159 b || byte_in 238 239 a && continuation b)
  && continuation c.
Definition utf8_4 (a b c d : byte) : bool :=
  (byte_in 240 240 a && byte_in 144 191 b || byte_in 241 243 a && continuation b
   || byte_in 244 244 a && byte_in 128 143 b)
  && continuation c && continuation d.
Fixpoint utf8_valid (l : bytes) : bool :=
  match l with
  | [] => true
  | a :: l =>
      if byte_in 0 127 a then utf8_valid l
      else
        match l with
        | [] => false
        | b :: l =>
            if utf8_2 a b then utf8_valid l
            else
              match l with
              | [] => false
              | c :: l =>
                  if utf8_3 a b c then utf8_valid l
                  else match l with [] => false | d :: l => utf8_4 a b c d && utf8_valid l end
              end
        end
  end.
(** [String::from_utf8] and [str::from_utf8]. *)
Definition from_utf8 (b : bytes) : option string :=
  if utf8_valid b then Some (String.string_of_list_byte b) else None.
(** What every Rust string satisfies. *)
Definition is_utf8 (s : string) : Prop := utf8_valid (as_bytes s) = true.

Lemma from_utf8_as_bytes s : is_utf8 s → from_utf8 (as_bytes s) = Some s.
Proof. unfold from_utf8. intros ->. f_equal. apply String.string_of_list_byte_of_string. Qed.

Lemma from_utf8_Some b s : from_utf8 b = Some s → b = as_bytes s ∧ is_utf8 s.
Proof.
  unfold from_utf8. destruct (utf8_valid b) eqn:E; [|done]. intros [= <-].
  assert (as_bytes (String.string_of_list_byte b) = b) as Hb.
  { unfold as_bytes. apply String.list_byte_of_string_of_list_byte. }
  unfold is_utf8. by rewrite Hb.
Qed.

Definition is_ascii (c : ascii) : bool := (N_of_ascii c <=? 127)%N.

Lemma is_utf8_ascii s : str_forall is_ascii s = true → is_utf8 s.
Proof.
  unfold is_utf8, as_bytes, String.list_byte_of_string. induction s as [|c s IH]; simpl; [done|].
  intros [Hc Hs]%andb_true_iff. unfold byte_in.
  rewrite (proj2 (N.leb_le _ _) (N.le_0_l _)). cbn [andb].
  unfold is_ascii in Hc. replace (Byte.to_N (byte_of_ascii c)) with (N_of_ascii c); [rewrite Hc; by apply IH|].
  clear. by destruct c as [[] [] [] [] [] [] [] []].
Qed.

(** ** Reversal, and text that [trim] leaves alone *)

#[local] Arguments String.append !_ _ / : simpl nomatch.

Lemma str_app_assoc (a b c : string) : (a +:+ b) +:+ c = a +:+ b +:+ c.
Proof. induction a; simpl; congruence. Qed.
Lemma str_app_nil (a : string) : a +:+ "" = a.
Proof. induction a; simpl; congruence. Qed.
Lemma str_forall_app p a b : str_forall p (a +:+ b) = str_forall p a && str_forall p b.
Proof. induction a; simpl; [done|]. by rewrite IHa, andb_assoc. Qed.

Lemma str_rev_app_spec s acc : str_rev_app s acc = str_rev s +:+ acc.
Proof.
  unfold str_rev. revert acc. induction s as [|c s IH]; intros acc; simpl; [done|].
  by rewrite IH, (IH (String c "")), str_app_assoc.
Qed.
Lemma str_rev_cons c s : str_rev (String c s) = str_rev s +:+ String c "".
Proof. unfold str_rev at 1. simpl. apply str_rev_app_spec. Qed.
Lemma str_rev_concat a b : str_rev (a +:+ b) = str_rev b +:+ str_rev a.
Proof.
  induction a as [|c a IH]; simpl; [by rewrite str_app_nil|].
  by rewrite !str_rev_cons, IH, str_app_assoc.
Qed.
Lemma str_rev_involutive s : str_rev (str_rev s) = s.
Proof. induction s as [|c s IH]; [done|]. by rewrite str_rev_cons, str_rev_concat, IH. Qed.
Lemma str_forall_rev p s : str_forall p (str_rev s) = str_forall p s.
Proof.
  induction s as [|c s IH]; [done|]. rewrite str_rev_cons, str_forall_app, IH. simpl.
  by rewrite andb_true_r, andb_comm.
Qed.

Lemma str_forall_last p s : str_forall p s = true → s ≠ ""%string →
  ∃ t d, s = t +:+ String d "" ∧ p d = true.
Proof.
  intros Hs Hne. rewrite <- (str_rev_involutive s) in Hne |- *. rewrite <- str_forall_rev in Hs.
  destruct (str_rev s) as [|d r]; [done|]. simpl in Hs. apply andb_true_iff in Hs as [Hd _].
  exists (str_rev r), d. by rewrite str_rev_cons.
Qed.

(** ASCII that is printed and not blank. *)
Definition visible (c : ascii) : bool := (33 <=? N_of_ascii c)%N && (N_of_ascii c <=? 126)%N.
Lemma digit_visible c : is_digit c = true → visible c = true.
Proof. unfold is_digit, visible. rewrite !andb_true_iff, !N.leb_le. lia. Qed.

Lemma visible_not_space c s : visible c = true →
  head (omap (λ w, strip_prefix w (String c s)) white_space) = None ∧
  head (omap (λ w, strip_prefix w (String c s)) (str_rev <$> white_space)) = None.
Proof. destruct c as [[] [] [] [] [] [] [] []]; try discriminate; intros _; split; reflexivity. Qed.

Lemma trim_visible c s d t : String c s = t +:+ String d "" → visible c = true → visible d = true →
  trim (String c s) = String c s.
Proof.
  intros Heq Hc Hd. unfold trim.
  assert (∀ n, trim_start_with white_space n (String c s) = String c s) as ->.
  { intros [|n]; [done|]. cbn [trim_start_with]. by rewrite (proj1 (visible_not_space c s Hc)). }
  rewrite Heq at 2. rewrite str_rev_concat. change (str_rev (String d "")) with (String d "").
  assert (∀ n u, trim_start_with (str_rev <$> white_space) n (String d u) = String d u) as Htr.
  { intros [|n] u; [done|]. cbn [trim_start_with]. by rewrite (proj2 (visible_not_space d u Hd)). }
  change (String d "" +:+ str_rev t) with (String d (str_rev t)). rewrite Htr.
  rewrite str_rev_cons, str_rev_involutive. done.
Qed.

Lemma trim_all_visible s : str_forall visible s = true → trim s = s.
Proof.
  intros Hs. destruct s as [|c s]; [done|].
  destruct (str_forall_last visible (String c s) Hs) as (t & d & Heq & Hd); [done|].
  apply andb_true_iff in Hs as [Hc _]. by eapply trim_visible.
Qed.

Lemma hex_visible b : str_forall visible (hex b) = true.
Proof.
  induction b as [|x b IH]; [done|]. change (hex (x :: b)) with (hex_byte x +:+ hex b)%string.
  rewrite str_forall_app, IH, andb_true_r. by destruct x.
Qed.
