(* ===== verification/Core.v ===== *)
(** * [yutha-core]: the value types shared by every crate

    One module per Rust type.  [TimeOps] is the [time] crate's RFC 3339 parser
    and formatter; an [OffsetDateTime] is represented by the instant it denotes
    (nanoseconds since the Unix epoch), which is what its [Ord] compares. *)

From S2P Require Import Prelude RustStd.

(** The [time] crate. *)
Class TimeOps := {
  parse_rfc3339 : string → option Z;
  (** the parse error's text *)
  parse_rfc3339_error : string → string
}.

(* yutha-core/src/error.rs:14-49 CoreError *)
Module CoreError.
Inductive CoreError :=
| InvalidLength (expected actual : N)
| UnknownEnumValue (context : string)
| Validation (msg : string)
| Timestamp (msg : string)
| Version (msg : string)
| Internal (msg : string).
#[global] Instance CoreError_eq_dec : EqDecision CoreError.
Proof. solve_decision. Defined.
(* yutha-core/src/error.rs:14-49 CoreError (Display) *)
Definition to_string (e : CoreError) : string :=
  match e with
  | InvalidLength expected actual =>
      "invalid length: expected " +:+ show_N expected +:+ " bytes, got " +:+ show_N actual
  | UnknownEnumValue c => "unknown enum value: " +:+ c
  | Validation m => "validation failed: " +:+ m
  | Timestamp m => "timestamp error: " +:+ m
  | Version m => "version error: " +:+ m
  | Internal m => "internal: " +:+ m
  end.
End CoreError.
Notation CoreError := CoreError.CoreError.

(* yutha-core/src/lib.rs:35-35 MAX_BYTE_PAYLOAD *)
Definition MAX_BYTE_PAYLOAD : N := 16 * 1024 * 1024.

Definition len (l : bytes) : N := N.of_nat (length l).

(** ** hash.rs *)

Module HashAlgorithm.
(* yutha-core/src/hash.rs:21-26 HashAlgorithm *)
Inductive HashAlgorithm := Sha256 | Blake3.
#[global] Instance HashAlgorithm_eq_dec : EqDecision HashAlgorithm.
Proof. solve_decision. Defined.
(* yutha-core/src/hash.rs:30-35 HashAlgorithm::digest_len *)
Definition digest_len (a : HashAlgorithm) : N :=
  match a with Sha256 => 32 | Blake3 => 32 end.
(* yutha-core/src/hash.rs:38-46 HashAlgorithm::from_wire *)
Definition from_wire (value : Z) : Result HashAlgorithm CoreError :=
  match value with
  | 1%Z => Ok Sha256
  | 2%Z => Ok Blake3
  | _ => Err (CoreError.UnknownEnumValue "HashAlgorithm")
  end.
(* yutha-core/src/hash.rs:49-54 HashAlgorithm::to_wire *)
Definition to_wire (a : HashAlgorithm) : Z := match a with Sha256 => 1 | Blake3 => 2 end.
#[global] Instance HashAlgorithm_countable : Countable HashAlgorithm :=
  inj_countable to_wire (λ z, result_ok (from_wire z)) ltac:(by intros []).
End HashAlgorithm.
Notation HashAlgorithm := HashAlgorithm.HashAlgorithm.

Module Hash.
(* yutha-core/src/hash.rs:64-69 Hash *)
Record Hash := mk { algorithm : HashAlgorithm; digest : bytes }.
#[global] Instance Hash_eq_dec : EqDecision Hash.
Proof. solve_decision. Defined.
#[global] Instance Hash_countable : Countable Hash :=
  inj_countable' (λ h, (algorithm h, digest h)) (λ p, mk p.1 p.2) ltac:(by intros []).
(* yutha-core/src/hash.rs:74-82 Hash::new *)
Definition new (algorithm : HashAlgorithm) (digest : bytes) : Result Hash CoreError :=
  if negb (len digest =? HashAlgorithm.digest_len algorithm)%N
  then Err (CoreError.InvalidLength (HashAlgorithm.digest_len algorithm) (len digest))
  else Ok (mk algorithm digest).
(* yutha-core/src/hash.rs:86-94 Hash::validate *)
Definition validate (h : Hash) : Result unit CoreError :=
  if negb (len (digest h) =? HashAlgorithm.digest_len (algorithm h))%N
  then Err (CoreError.InvalidLength (HashAlgorithm.digest_len (algorithm h)) (len (digest h)))
  else Ok tt.
(* yutha-core/src/hash.rs:98-108 Hash::to_hex *)
Definition to_hex (h : Hash) : string :=
  match algorithm h with
  | HashAlgorithm.Sha256 => "sha256:"
  | HashAlgorithm.Blake3 => "blake3:"
  end +:+ hex (digest h).
Definition wf (h : Hash) : Prop := len (digest h) = HashAlgorithm.digest_len (algorithm h).
End Hash.
Notation Hash := Hash.Hash.

Lemma Hash_new_Ok a d h : Hash.new a d = Ok h ↔ h = Hash.mk a d ∧ Hash.wf h.
Proof.
  unfold Hash.new, Hash.wf. destruct (N.eqb_spec (len d) (HashAlgorithm.digest_len a)); simpl;
    naive_solver.
Qed.

(** ** identity.rs *)

(** [Uuid]: sixteen bytes; [Display] is hyphenated, [simple()] is plain hex. *)
Definition uuid_wf (b : bytes) : Prop := length b = 16.
Definition uuid_simple (b : bytes) : string := hex b.
Definition uuid_display (b : bytes) : string :=
  str_join "-" [hex (take 4 b); hex (take 2 (drop 4 b)); hex (take 2 (drop 6 b));
                hex (take 2 (drop 8 b)); hex (drop 10 b)].

Lemma uuid_display_inj a b : uuid_wf a → uuid_wf b → uuid_display a = uuid_display b → a = b.
Proof.
  unfold uuid_wf, uuid_display. intros Ha Hb. cbn [str_join].
  intros [H1 H]%str_app_inj_length; [|rewrite !length_hex, !length_take; lia].
  apply (str_app_inj_length "-" _ "-" _) in H as [_ H]; [|done].
  apply str_app_inj_length in H as [H2 H]; [|rewrite !length_hex, !length_take, !length_drop; lia].
  apply (str_app_inj_length "-" _ "-" _) in H as [_ H]; [|done].
  apply str_app_inj_length in H as [H3 H]; [|rewrite !length_hex, !length_take, !length_drop; lia].
  apply (str_app_inj_length "-" _ "-" _) in H as [_ H]; [|done].
  apply str_app_inj_length in H as [H4 H]; [|rewrite !length_hex, !length_take, !length_drop; lia].
  apply (str_app_inj_length "-" _ "-" _) in H as [_ H5]; [|done].
  apply hex_inj in H1, H2, H3, H4, H5.
  rewrite <- (take_drop 4 a), <- (take_drop 4 b), H1. f_equal.
  rewrite <- (take_drop 2 (drop 4 a)), <- (take_drop 2 (drop 4 b)), H2, !drop_drop. f_equal. simpl.
  rewrite <- (take_drop 2 (drop 6 a)), <- (take_drop 2 (drop 6 b)), H3, !drop_drop. f_equal. simpl.
  rewrite <- (take_drop 2 (drop 8 a)), <- (take_drop 2 (drop 8 b)), H4, !drop_drop. f_equal. done.
Qed.

Module AgentId.
(* yutha-core/src/identity.rs:20-20 AgentId (uuid_v7_id!) *)
Record AgentId := mk { uuid : bytes }.
#[global] Instance AgentId_eq_dec : EqDecision AgentId.
Proof. solve_decision. Defined.
#[global] Instance AgentId_countable : Countable AgentId :=
  inj_countable' uuid mk ltac:(by intros []).
(* yutha-core/src/identity.rs:30-40 AgentId::from_bytes *)
Definition from_bytes (b : bytes) : Result AgentId CoreError :=
  if negb (len b =? 16)%N then Err (CoreError.InvalidLength 16 (len b)) else Ok (mk b).
(* yutha-core/src/identity.rs:43-45 AgentId::as_bytes *)
Definition as_bytes (i : AgentId) : bytes := uuid i.
(* yutha-core/src/identity.rs:50-52 AgentId::to_hex *)
Definition to_hex (i : AgentId) : string := uuid_simple (uuid i).
(* yutha-core/src/identity.rs:61-65 AgentId (Display) *)
Definition to_string (i : AgentId) : string := uuid_display (uuid i).
End AgentId.
Notation AgentId := AgentId.AgentId.

Module SwarmId.
(* yutha-core/src/identity.rs:70-70 SwarmId (uuid_v7_id!) *)
Record SwarmId := mk { uuid : bytes }.
#[global] Instance SwarmId_eq_dec : EqDecision SwarmId.
Proof. solve_decision. Defined.
#[global] Instance SwarmId_countable : Countable SwarmId :=
  inj_countable' uuid mk ltac:(by intros []).
(* yutha-core/src/identity.rs:30-40 SwarmId::from_bytes *)
Definition from_bytes (b : bytes) : Result SwarmId CoreError :=
  if negb (len b =? 16)%N then Err (CoreError.InvalidLength 16 (len b)) else Ok (mk b).
(* yutha-core/src/identity.rs:43-45 SwarmId::as_bytes *)
Definition as_bytes (i : SwarmId) : bytes := uuid i.
(* yutha-core/src/identity.rs:50-52 SwarmId::to_hex *)
Definition to_hex (i : SwarmId) : string := uuid_simple (uuid i).
(* yutha-core/src/identity.rs:61-65 SwarmId (Display) *)
Definition to_string (i : SwarmId) : string := uuid_display (uuid i).
End SwarmId.
Notation SwarmId := SwarmId.SwarmId.

Module ReceiptId.
(* yutha-core/src/identity.rs:79-79 ReceiptId *)
Record ReceiptId := mk { inner : Hash }.
(* yutha-core/src/identity.rs:83-85 ReceiptId::from_hash *)
Definition from_hash (h : Hash) : ReceiptId := mk h.
(* yutha-core/src/identity.rs:88-90 ReceiptId::hash *)
Definition hash (r : ReceiptId) : Hash := inner r.
End ReceiptId.

(** ** time.rs *)

Module Timestamp.
(* yutha-core/src/time.rs:16-26 Timestamp *)
Record Timestamp := mk { wall_clock : string; monotonic_ns : N }.
#[global] Instance Timestamp_eq_dec : EqDecision Timestamp.
Proof. solve_decision. Defined.
Section ops.
Context `{TimeOps}.
(* yutha-core/src/time.rs:31-38 Timestamp::new *)
Definition new (wall_clock : string) (monotonic_ns : N) : Result Timestamp CoreError :=
  let? _ := ok_or (parse_rfc3339 wall_clock)
              (CoreError.Timestamp ("invalid RFC 3339: " +:+ parse_rfc3339_error wall_clock)) in
  Ok (mk wall_clock monotonic_ns).
(* yutha-core/src/time.rs:62-64 Timestamp::precedes *)
Definition precedes (self other : Timestamp) : bool :=
  (monotonic_ns self <? monotonic_ns other)%N.
(* yutha-core/src/time.rs:71-73 Timestamp::parsed_wall_clock *)
Definition parsed_wall_clock (self : Timestamp) : option Z := parse_rfc3339 (wall_clock self).
(* yutha-core/src/time.rs:83-88 Timestamp::wall_at_or_after *)
Definition wall_at_or_after (self other : Timestamp) : bool :=
  match parsed_wall_clock self, parsed_wall_clock other with
  | Some a, Some b => (b <=? a)%Z
  | _, _ => false
  end.
(* yutha-core/src/time.rs:93-98 Timestamp::wall_after *)
Definition wall_after (self other : Timestamp) : bool :=
  match parsed_wall_clock self, parsed_wall_clock other with
  | Some a, Some b => (b <? a)%Z
  | _, _ => false
  end.
End ops.
End Timestamp.
Notation Timestamp := Timestamp.Timestamp.

(** [expires_at.is_none_or(..)] of passports and envelopes share this shape:
    expired at or after the bound, and on any unparseable clock. *)
Section expiry.
Context `{TimeOps}.

Lemma wall_at_or_after_spec a b :
  Timestamp.wall_at_or_after a b = true ↔
    ∃ x y, Timestamp.parsed_wall_clock a = Some x ∧ Timestamp.parsed_wall_clock b = Some y ∧
           (y ≤ x)%Z.
Proof.
  unfold Timestamp.wall_at_or_after.
  destruct (Timestamp.parsed_wall_clock a), (Timestamp.parsed_wall_clock b); try naive_solver.
  rewrite Z.leb_le. naive_solver.
Qed.

Lemma wall_at_or_after_trans a b c :
  Timestamp.wall_at_or_after a b = true → Timestamp.wall_at_or_after b c = true →
  Timestamp.wall_at_or_after a c = true.
Proof. rewrite !wall_at_or_after_spec. intros (?&?&?&?&?) (?&?&?&?&?). simplify_eq. eauto 10 with lia. Qed.
End expiry.

(** ** cost.rs and causal.rs *)

Module CostAnnotation.
(* yutha-core/src/cost.rs:15-33 CostAnnotation *)
Record CostAnnotation := mk {
  input_tokens : N; output_tokens : N; tool_call_count : N; wall_time_ms : N;
  usd_cents_estimate : string; model_provider : string; model_name : string;
  model_version : string }.
#[global] Instance CostAnnotation_eq_dec : EqDecision CostAnnotation.
Proof. solve_decision. Defined.
(* yutha-core/src/cost.rs:37-46 CostAnnotation::is_empty *)
Definition is_empty (c : CostAnnotation) : bool :=
  (input_tokens c =? 0)%N && (output_tokens c =? 0)%N && (tool_call_count c =? 0)%N
  && (wall_time_ms c =? 0)%N && bool_decide (usd_cents_estimate c = ""%string)
  && bool_decide (model_provider c = ""%string) && bool_decide (model_name c = ""%string)
  && bool_decide (model_version c = ""%string).
End CostAnnotation.
Notation CostAnnotation := CostAnnotation.CostAnnotation.

Module CausalRef.
(* yutha-core/src/causal.rs:18-22 CausalRef *)
Record CausalRef := mk { predecessors : list Hash }.
#[global] Instance CausalRef_eq_dec : EqDecision CausalRef.
Proof. solve_decision. Defined.
(* yutha-core/src/causal.rs:26-28 CausalRef::empty *)
Definition empty : CausalRef := mk [].
(* yutha-core/src/causal.rs:31-33 CausalRef::len *)
Definition len (c : CausalRef) : N := N.of_nat (length (predecessors c)).
(* yutha-core/src/causal.rs:36-38 CausalRef::is_empty *)
Definition is_empty (c : CausalRef) : bool := match predecessors c with [] => true | _ => false end.
(* yutha-core/src/causal.rs:51-57 CausalRef::from_iter *)
Definition from_iter (l : list Hash) : CausalRef := mk l.
End CausalRef.
Notation CausalRef := CausalRef.CausalRef.

(** ** version.rs *)

Module SpecVersion.
(* yutha-core/src/version.rs:17-17 SpecVersion *)
Record SpecVersion := mk { inner : string }.
#[global] Instance SpecVersion_eq_dec : EqDecision SpecVersion.
Proof. solve_decision. Defined.
Definition is_suffix_mark (c : ascii) : bool := bool_decide (c = "-"%char) || bool_decide (c = "+"%char).
(* yutha-core/src/version.rs:31-34 SpecVersion::parse (each part) *)
Definition parse_part (context : string) (quote : string) (p : string) : Result N CoreError :=
  map_err (λ e, CoreError.Version
             (context +:+ quote +:+ p +:+ quote +:+ ": " +:+ show_parse_int_error e))
    (parse_uint u32_max (str_until is_suffix_mark p)).
(* yutha-core/src/version.rs:21-37 SpecVersion::parse *)
Definition parse (s : string) : Result SpecVersion CoreError :=
  let parts := str_split "." s in
  if (length parts <? 3)%nat then
    Err (CoreError.Version ("expected major.minor.patch, got " +:+ s))
  else
    let? _ := collect (parse_part "non-numeric version part " "`") (take 3 parts) in
    Ok (mk s).
(* yutha-core/src/version.rs:40-52 SpecVersion::major_minor_patch *)
Definition major_minor_patch (v : SpecVersion) : Result (N * N * N) CoreError :=
  let parts := str_split "." (inner v) in
  let part i := parse_part "invalid version component " "" (default "0"%string (parts !! i)) in
  let? a := part 0 in let? b := part 1 in let? c := part 2 in Ok (a, b, c).
End SpecVersion.
Notation SpecVersion := SpecVersion.SpecVersion.

(** ** signature.rs *)

Module SignatureAlgorithm.
(* yutha-core/src/signature.rs:15-20 SignatureAlgorithm *)
Inductive SignatureAlgorithm := Ed25519 | ReservedPq.
#[global] Instance SignatureAlgorithm_eq_dec : EqDecision SignatureAlgorithm.
Proof. solve_decision. Defined.
(* yutha-core/src/signature.rs:24-33 SignatureAlgorithm::signature_len *)
Definition signature_len (a : SignatureAlgorithm) : N :=
  match a with Ed25519 => 64 | ReservedPq => 0 end.
(* yutha-core/src/signature.rs:36-41 SignatureAlgorithm::public_key_len *)
Definition public_key_len (a : SignatureAlgorithm) : N :=
  match a with Ed25519 => 32 | ReservedPq => 0 end.
(* yutha-core/src/signature.rs:44-52 SignatureAlgorithm::from_wire *)
Definition from_wire (value : Z) : Result SignatureAlgorithm CoreError :=
  match value with
  | 1%Z => Ok Ed25519
  | 2%Z => Ok ReservedPq
  | _ => Err (CoreError.UnknownEnumValue "SignatureAlgorithm")
  end.
(* yutha-core/src/signature.rs:55-60 SignatureAlgorithm::to_wire *)
Definition to_wire (a : SignatureAlgorithm) : Z := match a with Ed25519 => 1 | ReservedPq => 2 end.
(* yutha-core/src/signature.rs:13-20 SignatureAlgorithm (Debug) *)
Definition debug (a : SignatureAlgorithm) : string :=
  match a with Ed25519 => "Ed25519" | ReservedPq => "ReservedPq" end.
End SignatureAlgorithm.
Notation SignatureAlgorithm := SignatureAlgorithm.SignatureAlgorithm.

Definition reserved_pq_error : CoreError :=
  CoreError.Validation "ReservedPq signature algorithm has no v1.0 binding".

Module Signature.
(* yutha-core/src/signature.rs:67-74 Signature *)
Record Signature := mk { algorithm : SignatureAlgorithm; value : bytes; key_fingerprint : bytes }.
#[global] Instance Signature_eq_dec : EqDecision Signature.
Proof. solve_decision. Defined.
(* yutha-core/src/signature.rs:78-105 Signature::new *)
Definition new (algorithm : SignatureAlgorithm) (value key_fingerprint : bytes)
  : Result Signature CoreError :=
  if bool_decide (algorithm = SignatureAlgorithm.ReservedPq) then Err reserved_pq_error
  else if negb (len value =? SignatureAlgorithm.signature_len algorithm)%N then
    Err (CoreError.InvalidLength (SignatureAlgorithm.signature_len algorithm) (len value))
  else if negb (len key_fingerprint =? 32)%N then
    Err (CoreError.InvalidLength 32 (len key_fingerprint))
  else Ok (mk algorithm value key_fingerprint).
Definition wf (s : Signature) : Prop :=
  algorithm s = SignatureAlgorithm.Ed25519 ∧ len (value s) = 64%N ∧ len (key_fingerprint s) = 32%N.
End Signature.
Notation Signature := Signature.Signature.

Module PublicKey.
(* yutha-core/src/signature.rs:111-116 PublicKey *)
Record PublicKey := mk { algorithm : SignatureAlgorithm; value : bytes }.
#[global] Instance PublicKey_eq_dec : EqDecision PublicKey.
Proof. solve_decision. Defined.
(* yutha-core/src/signature.rs:120-133 PublicKey::new *)
Definition new (algorithm : SignatureAlgorithm) (value : bytes) : Result PublicKey CoreError :=
  if bool_decide (algorithm = SignatureAlgorithm.ReservedPq) then Err reserved_pq_error
  else if negb (len value =? SignatureAlgorithm.public_key_len algorithm)%N then
    Err (CoreError.InvalidLength (SignatureAlgorithm.public_key_len algorithm) (len value))
  else Ok (mk algorithm value).
Definition wf (k : PublicKey) : Prop :=
  algorithm k = SignatureAlgorithm.Ed25519 ∧ len (value k) = 32%N.
End PublicKey.
Notation PublicKey := PublicKey.PublicKey.

Lemma Signature_new_Ok a v f s :
  Signature.new a v f = Ok s ↔ s = Signature.mk a v f ∧ Signature.wf s.
Proof.
  unfold Signature.new, Signature.wf. destruct a; simpl; [|naive_solver].
  destruct (N.eqb_spec (len v) 64), (N.eqb_spec (len f) 32); simpl; naive_solver.
Qed.

Lemma PublicKey_new_Ok a v k :
  PublicKey.new a v = Ok k ↔ k = PublicKey.mk a v ∧ PublicKey.wf k.
Proof.
  unfold PublicKey.new, PublicKey.wf. destruct a; simpl; [|naive_solver].
  destruct (N.eqb_spec (len v) 32); simpl; naive_solver.
Qed.

(** Every version accepted by [parse] has a numeric (major, minor, patch). *)
Lemma parse_part_any c q c' q' p x :
  SpecVersion.parse_part c q p = Ok x → SpecVersion.parse_part c' q' p = Ok x.
Proof. unfold SpecVersion.parse_part. by rewrite !map_err_Ok. Qed.

Lemma SpecVersion_parse_numeric s v :
  SpecVersion.parse s = Ok v →
  ∃ a b c, SpecVersion.major_minor_patch v = Ok (a, b, c) ∧
           (a <= u32_max)%N ∧ (b <= u32_max)%N ∧ (c <= u32_max)%N.
Proof.
  unfold SpecVersion.parse, SpecVersion.major_minor_patch. intros H.
  destruct (str_split "." s) as [|p [|q [|r rest]]] eqn:Hs; simpl in H; try done.
  apply rbind_Ok in H as (ys & Hys & [= <-]). simpl. rewrite Hs. simpl.
  apply rbind_Ok in Hys as (a & Ha & Hys). apply rbind_Ok in Hys as (ys1 & Hys & [= <-]).
  apply rbind_Ok in Hys as (b & Hb & Hys). apply rbind_Ok in Hys as (ys2 & Hys & [= <-]).
  apply rbind_Ok in Hys as (c & Hc & [= <-]).
  rewrite (parse_part_any _ _ _ _ _ _ Ha). simpl. rewrite (parse_part_any _ _ _ _ _ _ Hb). simpl.
  rewrite (parse_part_any _ _ _ _ _ _ Hc). simpl.
  exists a, b, c. split; [done|].
  unfold SpecVersion.parse_part in *. rewrite map_err_Ok in Ha, Hb, Hc.
  repeat split; eapply parse_uint_bound; eassumption.
Qed.
