(* ===== verification/CoreProto.v ===== *)
(** * [yutha-core/src/proto_conv.rs]: conversions to and from the wire messages

    The message types are the ones [prost] generates from [spec/common.proto]
    (nested messages are options, enums are [i32]).  [ToProto] is Rust's
    [From<&T> for proto::T], [TryFromProto] is [TryFrom<&proto::T> for T];
    [RoundTrip] is the law that ties the two on well-formed values. *)

From S2P Require Import Prelude RustStd Core.

Class ToProto (A P : Type) := to_proto : A → P.
Class TryFromProto (P A E : Type) := try_from : P → Result A E.
Arguments to_proto {A P _} _.
Arguments try_from {P A E _} _.

(** What a decoded value satisfies, and what an encoded one must satisfy. *)
Class WellFormed (A : Type) := wf : A → Prop.

Class RoundTrip (A P E : Type) `{!ToProto A P, !TryFromProto P A E, !WellFormed A} := {
  round_trip (a : A) : wf a → try_from (A:=A) (E:=E) (to_proto (P:=P) a) = Ok a
}.

(** A decoder only produces well-formed values. *)
Class DecodesWf (A P E : Type) `{!TryFromProto P A E, !WellFormed A} := {
  decodes_wf (p : P) (a : A) : try_from (E:=E) p = Ok a → wf a
}.

Module proto.
(* The messages of spec/common.proto. *)
Record AgentId := mkAgentId { AgentId_value : bytes }.
Record SwarmId := mkSwarmId { SwarmId_value : bytes }.
Record Hash := mkHash { Hash_algorithm : Z; Hash_digest : bytes }.
Record Signature := mkSignature {
  Signature_algorithm : Z; Signature_value : bytes; Signature_key_fingerprint : bytes }.
Record PublicKey := mkPublicKey { PublicKey_algorithm : Z; PublicKey_value : bytes }.
Record Timestamp := mkTimestamp { Timestamp_wall_clock : string; Timestamp_monotonic_ns : N }.
Record CausalRef := mkCausalRef { CausalRef_predecessors : list Hash }.
Record Version := mkVersion { Version_value : string }.
Record CostAnnotation := mkCostAnnotation {
  Cost_input_tokens : N; Cost_output_tokens : N; Cost_tool_call_count : N; Cost_wall_time_ms : N;
  Cost_usd_cents_estimate : string; Cost_model_provider : string; Cost_model_name : string;
  Cost_model_version : string }.
End proto.

(** ** Well-formed values *)

#[global] Instance AgentId_wf : WellFormed AgentId := λ i, uuid_wf (AgentId.uuid i).
#[global] Instance SwarmId_wf : WellFormed SwarmId := λ i, uuid_wf (SwarmId.uuid i).
#[global] Instance Hash_wf : WellFormed Hash := Hash.wf.
#[global] Instance Signature_wf : WellFormed Signature := Signature.wf.
#[global] Instance PublicKey_wf : WellFormed PublicKey := PublicKey.wf.
#[global] Instance Timestamp_wf `{TimeOps} : WellFormed Timestamp :=
  λ t, is_Some (Timestamp.parsed_wall_clock t).
#[global] Instance CausalRef_wf : WellFormed CausalRef := λ c, Forall wf (CausalRef.predecessors c).
#[global] Instance SpecVersion_wf : WellFormed SpecVersion :=
  λ v, is_ok (SpecVersion.parse (SpecVersion.inner v)) = true.
#[global] Instance CostAnnotation_wf : WellFormed CostAnnotation := λ _, True.
#[global] Instance option_wf `{WellFormed A} : WellFormed (option A) :=
  λ o, match o with Some a => wf a | None => True end.
#[global] Instance list_wf `{WellFormed A} : WellFormed (list A) := Forall wf.

(** ** Forward conversions *)

(* yutha-core/src/proto_conv.rs:24-30 From<&AgentId> for proto::AgentId *)
#[global] Instance AgentId_to_proto : ToProto AgentId proto.AgentId :=
  λ id, proto.mkAgentId (AgentId.as_bytes id).
(* yutha-core/src/proto_conv.rs:32-38 From<&SwarmId> for proto::SwarmId *)
#[global] Instance SwarmId_to_proto : ToProto SwarmId proto.SwarmId :=
  λ id, proto.mkSwarmId (SwarmId.as_bytes id).
(* yutha-core/src/proto_conv.rs:40-47 From<HashAlgorithm> for i32 *)
Definition HashAlgorithm_into_i32 (a : HashAlgorithm) : Z :=
  match a with HashAlgorithm.Sha256 => 1 | HashAlgorithm.Blake3 => 2 end.
(* yutha-core/src/proto_conv.rs:49-56 From<&Hash> for proto::Hash *)
#[global] Instance Hash_to_proto : ToProto Hash proto.Hash :=
  λ h, proto.mkHash (HashAlgorithm_into_i32 (Hash.algorithm h)) (Hash.digest h).
(* yutha-core/src/proto_conv.rs:58-65 From<SignatureAlgorithm> for i32 *)
Definition SignatureAlgorithm_into_i32 (a : SignatureAlgorithm) : Z :=
  match a with SignatureAlgorithm.Ed25519 => 1 | SignatureAlgorithm.ReservedPq => 2 end.
(* yutha-core/src/proto_conv.rs:67-75 From<&Signature> for proto::Signature *)
#[global] Instance Signature_to_proto : ToProto Signature proto.Signature :=
  λ s, proto.mkSignature (SignatureAlgorithm_into_i32 (Signature.algorithm s))
         (Signature.value s) (Signature.key_fingerprint s).
(* yutha-core/src/proto_conv.rs:77-84 From<&PublicKey> for proto::PublicKey *)
#[global] Instance PublicKey_to_proto : ToProto PublicKey proto.PublicKey :=
  λ k, proto.mkPublicKey (SignatureAlgorithm_into_i32 (PublicKey.algorithm k)) (PublicKey.value k).
(* yutha-core/src/proto_conv.rs:86-93 From<&Timestamp> for proto::Timestamp *)
#[global] Instance Timestamp_to_proto : ToProto Timestamp proto.Timestamp :=
  λ t, proto.mkTimestamp (Timestamp.wall_clock t) (Timestamp.monotonic_ns t).
(* yutha-core/src/proto_conv.rs:95-101 From<&CausalRef> for proto::CausalRef *)
#[global] Instance CausalRef_to_proto : ToProto CausalRef proto.CausalRef :=
  λ c, proto.mkCausalRef (to_proto <$> CausalRef.predecessors c).
(* yutha-core/src/proto_conv.rs:103-107 From<&SpecVersion> for proto::Version *)
#[global] Instance SpecVersion_to_proto : ToProto SpecVersion proto.Version :=
  λ v, proto.mkVersion (SpecVersion.inner v).
(* yutha-core/src/proto_conv.rs:109-122 From<&CostAnnotation> for proto::CostAnnotation *)
#[global] Instance CostAnnotation_to_proto : ToProto CostAnnotation proto.CostAnnotation :=
  λ c, proto.mkCostAnnotation (CostAnnotation.input_tokens c) (CostAnnotation.output_tokens c)
         (CostAnnotation.tool_call_count c) (CostAnnotation.wall_time_ms c)
         (CostAnnotation.usd_cents_estimate c) (CostAnnotation.model_provider c)
         (CostAnnotation.model_name c) (CostAnnotation.model_version c).

(** ** Reverse conversions *)

(* yutha-core/src/proto_conv.rs:136-141 TryFrom<&proto::AgentId> for AgentId *)
#[global] Instance AgentId_try_from : TryFromProto proto.AgentId AgentId CoreError :=
  λ p, AgentId.from_bytes (proto.AgentId_value p).
(* yutha-core/src/proto_conv.rs:143-148 TryFrom<&proto::SwarmId> for SwarmId *)
#[global] Instance SwarmId_try_from : TryFromProto proto.SwarmId SwarmId CoreError :=
  λ p, SwarmId.from_bytes (proto.SwarmId_value p).
(* yutha-core/src/proto_conv.rs:150-156 TryFrom<&proto::Hash> for Hash *)
#[global] Instance Hash_try_from : TryFromProto proto.Hash Hash CoreError :=
  λ p, let? algorithm := HashAlgorithm.from_wire (proto.Hash_algorithm p) in
       Hash.new algorithm (proto.Hash_digest p).
(* yutha-core/src/proto_conv.rs:158-164 TryFrom<&proto::Signature> for Signature *)
#[global] Instance Signature_try_from : TryFromProto proto.Signature Signature CoreError :=
  λ p, let? algorithm := SignatureAlgorithm.from_wire (proto.Signature_algorithm p) in
       Signature.new algorithm (proto.Signature_value p) (proto.Signature_key_fingerprint p).
(* yutha-core/src/proto_conv.rs:166-172 TryFrom<&proto::PublicKey> for PublicKey *)
#[global] Instance PublicKey_try_from : TryFromProto proto.PublicKey PublicKey CoreError :=
  λ p, let? algorithm := SignatureAlgorithm.from_wire (proto.PublicKey_algorithm p) in
       PublicKey.new algorithm (proto.PublicKey_value p).
(* yutha-core/src/proto_conv.rs:174-179 TryFrom<&proto::Timestamp> for Timestamp *)
#[global] Instance Timestamp_try_from `{TimeOps} : TryFromProto proto.Timestamp Timestamp CoreError :=
  λ p, Timestamp.new (proto.Timestamp_wall_clock p) (proto.Timestamp_monotonic_ns p).
(* yutha-core/src/proto_conv.rs:181-190 TryFrom<&proto::CausalRef> for CausalRef *)
#[global] Instance CausalRef_try_from : TryFromProto proto.CausalRef CausalRef CoreError :=
  λ p, let? predecessors := collect try_from (proto.CausalRef_predecessors p) in
       Ok (CausalRef.from_iter predecessors).
(* yutha-core/src/proto_conv.rs:192-197 TryFrom<&proto::Version> for SpecVersion *)
#[global] Instance SpecVersion_try_from : TryFromProto proto.Version SpecVersion CoreError :=
  λ p, SpecVersion.parse (proto.Version_value p).
(* yutha-core/src/proto_conv.rs:199-213 TryFrom<&proto::CostAnnotation> for CostAnnotation *)
#[global] Instance CostAnnotation_try_from : TryFromProto proto.CostAnnotation CostAnnotation CoreError :=
  λ p, Ok (CostAnnotation.mk (proto.Cost_input_tokens p) (proto.Cost_output_tokens p)
             (proto.Cost_tool_call_count p) (proto.Cost_wall_time_ms p)
             (proto.Cost_usd_cents_estimate p) (proto.Cost_model_provider p)
             (proto.Cost_model_name p) (proto.Cost_model_version p)).

(** ** Laws *)

Lemma uuid_len (b : bytes) : (len b =? 16)%N = true ↔ uuid_wf b.
Proof. unfold uuid_wf, len. rewrite N.eqb_eq. lia. Qed.

#[global] Instance AgentId_round_trip : RoundTrip AgentId proto.AgentId CoreError.
Proof.
  constructor. intros [b] Hb. unfold try_from, AgentId_try_from, AgentId.from_bytes. simpl.
  by rewrite (proj2 (uuid_len b) Hb).
Qed.
#[global] Instance AgentId_decodes : DecodesWf AgentId proto.AgentId CoreError.
Proof.
  constructor. intros p a. unfold try_from, AgentId_try_from, AgentId.from_bytes.
  destruct (len _ =? 16)%N eqn:E; simpl; [|done]. intros [= <-]. by apply uuid_len.
Qed.
#[global] Instance SwarmId_round_trip : RoundTrip SwarmId proto.SwarmId CoreError.
Proof.
  constructor. intros [b] Hb. unfold try_from, SwarmId_try_from, SwarmId.from_bytes. simpl.
  by rewrite (proj2 (uuid_len b) Hb).
Qed.
#[global] Instance SwarmId_decodes : DecodesWf SwarmId proto.SwarmId CoreError.
Proof.
  constructor. intros p a. unfold try_from, SwarmId_try_from, SwarmId.from_bytes.
  destruct (len _ =? 16)%N eqn:E; simpl; [|done]. intros [= <-]. by apply uuid_len.
Qed.
#[global] Instance Hash_round_trip : RoundTrip Hash proto.Hash CoreError.
Proof.
  constructor. intros [a d] Hw. unfold try_from, Hash_try_from. simpl.
  destruct a; simpl; apply Hash_new_Ok; done.
Qed.
#[global] Instance Hash_decodes : DecodesWf Hash proto.Hash CoreError.
Proof. constructor. intros p h H. apply rbind_Ok in H as (a & _ & H). by apply Hash_new_Ok in H as [_ ?]. Qed.
#[global] Instance Signature_round_trip : RoundTrip Signature proto.Signature CoreError.
Proof.
  constructor. intros [a v f] Hw. unfold try_from, Signature_try_from. simpl.
  destruct a; [|by destruct Hw]. simpl. apply Signature_new_Ok; done.
Qed.
#[global] Instance Signature_decodes : DecodesWf Signature proto.Signature CoreError.
Proof. constructor. intros p s H. apply rbind_Ok in H as (a & _ & H). by apply Signature_new_Ok in H as [_ ?]. Qed.
#[global] Instance PublicKey_round_trip : RoundTrip PublicKey proto.PublicKey CoreError.
Proof.
  constructor. intros [a v] Hw. unfold try_from, PublicKey_try_from. simpl.
  destruct a; [|by destruct Hw]. simpl. apply PublicKey_new_Ok; done.
Qed.
#[global] Instance PublicKey_decodes : DecodesWf PublicKey proto.PublicKey CoreError.
Proof. constructor. intros p s H. apply rbind_Ok in H as (a & _ & H). by apply PublicKey_new_Ok in H as [_ ?]. Qed.
#[global] Instance Timestamp_round_trip `{TimeOps} : RoundTrip Timestamp proto.Timestamp CoreError.
Proof. constructor. intros [w n] [x Hx]. unfold try_from, Timestamp_try_from, Timestamp.new. simpl. unfold Timestamp.parsed_wall_clock in Hx. simpl in Hx. by rewrite Hx. Qed.
#[global] Instance Timestamp_decodes `{TimeOps} : DecodesWf Timestamp proto.Timestamp CoreError.
Proof.
  constructor. intros p t H1. apply rbind_Ok in H1 as (x & Hx & [= <-]).
  apply ok_or_Ok in Hx. unfold wf, Timestamp_wf, Timestamp.parsed_wall_clock. simpl. by rewrite Hx.
Qed.
#[global] Instance SpecVersion_round_trip : RoundTrip SpecVersion proto.Version CoreError.
Proof.
  constructor. intros [s] Hw. unfold try_from, SpecVersion_try_from. simpl.
  unfold wf, SpecVersion_wf in Hw. simpl in Hw.
  destruct (SpecVersion.parse s) as [v|] eqn:E; [|done]. f_equal.
  unfold SpecVersion.parse in E. case_match; [done|]. by apply rbind_Ok in E as (? & _ & [= <-]).
Qed.
#[global] Instance SpecVersion_decodes : DecodesWf SpecVersion proto.Version CoreError.
Proof.
  constructor. intros [s] v H. unfold try_from, SpecVersion_try_from in H. simpl in H.
  unfold wf, SpecVersion_wf.
  assert (SpecVersion.inner v = s) as ->; [|by rewrite H].
  unfold SpecVersion.parse in H. case_match; [done|]. by apply rbind_Ok in H as (? & _ & [= <-]).
Qed.
#[global] Instance CostAnnotation_round_trip : RoundTrip CostAnnotation proto.CostAnnotation CoreError.
Proof. constructor. by intros []. Qed.
#[global] Instance CostAnnotation_decodes : DecodesWf CostAnnotation proto.CostAnnotation CoreError.
Proof. done. Qed.

(** Lists of messages: [iter().map(Into::into).collect()] and the loop back. *)
Lemma collect_round_trip {A P E} `{RoundTrip A P E} (l : list A) :
  wf l → collect try_from (to_proto <$> l) = Ok l.
Proof.
  intros Hl. apply collect_Ok. apply Forall2_fmap_l. induction Hl; constructor; [|done].
  by apply round_trip.
Qed.
Lemma collect_decodes {A P E} `{DecodesWf A P E} (ps : list P) (l : list A) :
  collect try_from ps = Ok l → wf l.
Proof.
  rewrite collect_Ok. unfold wf, list_wf. induction 1; constructor; [|done].
  by eapply decodes_wf.
Qed.

#[global] Instance CausalRef_round_trip : RoundTrip CausalRef proto.CausalRef CoreError.
Proof.
  constructor. intros [l] Hw. unfold try_from, CausalRef_try_from. simpl.
  by rewrite collect_round_trip.
Qed.
#[global] Instance CausalRef_decodes : DecodesWf CausalRef proto.CausalRef CoreError.
Proof. constructor. intros p c H. apply rbind_Ok in H as (l & H & [= <-]). by apply collect_decodes in H. Qed.

(** ** Helpers the other crates' conversions share *)

(** [CoreError::validation("required field missing: ..")] *)
Definition missing_field (field : string) : CoreError :=
  CoreError.Validation ("required field missing: " +:+ field).

(** [opt.as_ref().map(T::try_from).transpose()] *)
Definition try_from_opt {P A E} `{!TryFromProto P A E} (o : option P) : Result (option A) E :=
  match o with
  | Some p => let? a := try_from p in Ok (Some a)
  | None => Ok None
  end.

Lemma try_from_opt_round_trip {A P E} `{RoundTrip A P E} (o : option A) :
  wf o → try_from_opt (to_proto <$> o) = Ok o.
Proof. destruct o as [a|]; simpl; [|done]. intros Hw. by rewrite round_trip. Qed.

Lemma try_from_opt_decodes {A P E} `{DecodesWf A P E} (p : option P) (o : option A) :
  try_from_opt p = Ok o → wf o.
Proof.
  destruct p as [p|]; simpl; [|by intros [= <-]].
  intros H1. apply rbind_Ok in H1 as (a & Ha & [= <-]). exact (decodes_wf p a Ha).
Qed.

(** A decoder whose error is wrapped into a crate's own error type. *)
Definition try_from_core {P A E} `{!TryFromProto P A CoreError} (wrap : CoreError → E) (p : P)
  : Result A E := map_err wrap (try_from p).

(** [T::try_from(p.f.as_ref().ok_or_else(|| missing("f"))?)?] *)
Definition try_from_required {P A E} `{!TryFromProto P A CoreError} (wrap : CoreError → E)
  (field : string) (o : option P) : Result A E :=
  let? p := ok_or o (wrap (missing_field field)) in map_err wrap (try_from p).

Lemma try_from_required_round_trip {A P E} `{RoundTrip A P CoreError} (wrap : CoreError → E) f a :
  wf a → try_from_required wrap f (Some (to_proto a)) = Ok a.
Proof. intros Hw. unfold try_from_required. simpl. by rewrite round_trip. Qed.

Lemma try_from_required_Ok {A P E} `{!TryFromProto P A CoreError} (wrap : CoreError → E) f o a :
  try_from_required wrap f o = Ok a ↔ ∃ p, o = Some p ∧ try_from p = Ok a.
Proof.
  unfold try_from_required. rewrite rbind_Ok. setoid_rewrite ok_or_Ok.
  by setoid_rewrite map_err_Ok.
Qed.

Lemma try_from_required_decodes {A P E} `{DecodesWf A P CoreError} (wrap : CoreError → E) f o a :
  try_from_required wrap f o = Ok a → wf a.
Proof. rewrite try_from_required_Ok. intros (p & _ & Hp). exact (decodes_wf p a Hp). Qed.

Lemma try_from_required_missing {A P E} `{!TryFromProto P A CoreError} (wrap : CoreError → E) f :
  try_from_required (A:=A) (P:=P) wrap f None = Err (wrap (missing_field f)).
Proof. done. Qed.

Lemma wf_default {A} `{!WellFormed A} (a : A) (o : option A) : wf a → wf o → wf (default a o).
Proof. by destruct o. Qed.

(** Turn every successful decoding in the context into well-formedness. *)
Ltac decode_wf :=
  repeat match goal with
  | H : try_from_required _ _ _ = Ok _ |- _ => apply try_from_required_decodes in H
  | H : try_from_opt _ = Ok _ |- _ => apply try_from_opt_decodes in H
  | H : collect try_from _ = Ok _ |- _ => apply collect_decodes in H
  | H : try_from _ = Ok _ |- _ => apply decodes_wf in H
  end.
