(* ===== verification/Crypto.v ===== *)
(** * [yutha-crypto] and [yutha-signer]: hashing, Ed25519, canonical bytes

    [CryptoOps] collects the primitives of the [sha2] and [ed25519-dalek]
    crates and [Encode] is [prost]'s [encode_to_vec]; they are parameters.
    [CryptoLaws] states their documented behaviour: output lengths and that a
    signature verifies under the key that made it.  Nothing here assumes that
    SHA-256 is injective: a [Collision] is a witness of the contrary. *)

From S2P Require Import Prelude RustStd Core.

Class CryptoOps := {
  sha256_digest : bytes → bytes;
  (** the public key of a 32-byte secret *)
  ed25519_public : bytes → bytes;
  ed25519_sign : bytes → bytes → bytes;
  (** [VerifyingKey::from_bytes]: the error's text, if the bytes are not a point *)
  ed25519_key_error : bytes → option string;
  ed25519_verify : bytes → bytes → bytes → bool
}.

Class CryptoLaws `{CryptoOps} : Prop := {
  sha256_digest_length b : length (sha256_digest b) = 32;
  ed25519_public_length sk : length (ed25519_public sk) = 32;
  ed25519_public_valid sk : ed25519_key_error (ed25519_public sk) = None;
  ed25519_sign_length sk m : length (ed25519_sign sk m) = 64;
  ed25519_sign_verify sk m : ed25519_verify (ed25519_public sk) m (ed25519_sign sk m) = true
}.

Definition Collision `{CryptoOps} : Prop :=
  ∃ x y : bytes, x ≠ y ∧ sha256_digest x = sha256_digest y.

(** [prost::Message::encode_to_vec]. *)
Class Encode (P : Type) := encode_to_vec : P → bytes.

Module CryptoError.
(* yutha-crypto/src/error.rs:11-31 CryptoError *)
Inductive CryptoError :=
| InvalidKey (msg : string)
| InvalidSignature (msg : string)
| VerificationFailed
| HashError (msg : string)
| Core (e : CoreError).
#[global] Instance CryptoError_eq_dec : EqDecision CryptoError.
Proof. solve_decision. Defined.
(* yutha-crypto/src/error.rs:11-31 CryptoError (Display) *)
Definition to_string (e : CryptoError) : string :=
  match e with
  | InvalidKey m => "invalid key: " +:+ m
  | InvalidSignature m => "invalid signature format: " +:+ m
  | VerificationFailed => "signature verification failed"
  | HashError m => "hash error: " +:+ m
  | Core e => CoreError.to_string e
  end.
End CryptoError.
Notation CryptoError := CryptoError.CryptoError.

Section crypto.
Context `{CryptoOps}.

(** ** hash.rs *)

(* yutha-crypto/src/hash.rs:11-17 sha256 *)
Definition sha256 (b : bytes) : Hash := Hash.mk HashAlgorithm.Sha256 (sha256_digest b).

(* yutha-crypto/src/hash.rs:23-27 fingerprint_public_key *)
Definition fingerprint_public_key (public_key_bytes : bytes) : bytes :=
  sha256_digest public_key_bytes.

(** The [expect] of [sha256] never fires. *)
Lemma sha256_new `{!CryptoLaws} b : Hash.new HashAlgorithm.Sha256 (sha256_digest b) = Ok (sha256 b).
Proof.
  apply Hash_new_Ok. split; [done|]. unfold Hash.wf, len. simpl.
  by rewrite sha256_digest_length.
Qed.

Lemma sha256_length `{!CryptoLaws} b : length (Hash.digest (sha256 b)) = 32.
Proof. apply sha256_digest_length. Qed.

Lemma sha256_eq_collision x y : sha256 x = sha256 y → x = y ∨ Collision.
Proof. intros [=]. destruct (decide (x = y)); [by left|right]. by exists x, y. Qed.

End crypto.

(** ** canonical.rs *)

Class Canonical (T : Type) := canonical_bytes : T → Result bytes CryptoError.

Section canonical.
Context `{CryptoOps} `{Canonical T}.

(* yutha-crypto/src/canonical.rs:36-39 content_address *)
Definition content_address (value : T) : Result Hash CryptoError :=
  let? b := canonical_bytes value in Ok (sha256 b).

(* yutha-crypto/src/canonical.rs:43-50 verify_content_address *)
Definition verify_content_address (value : T) (expected : Hash) : Result unit CryptoError :=
  let? computed := content_address value in
  if bool_decide (computed = expected) then Ok tt else Err CryptoError.VerificationFailed.

End canonical.

(** ** sign.rs *)

Module SigningKey.
(* yutha-crypto/src/sign.rs:16-18 SigningKey *)
Record SigningKey := mk { secret : bytes }.
Section ops.
Context `{CryptoOps}.
(* yutha-crypto/src/sign.rs:22-26 SigningKey::from_bytes *)
Definition from_bytes (secret : bytes) : SigningKey := mk secret.
(* yutha-crypto/src/sign.rs:29-31 SigningKey::to_bytes *)
Definition to_bytes (k : SigningKey) : bytes := secret k.
(* yutha-crypto/src/sign.rs:34-38 SigningKey::public *)
Definition public (k : SigningKey) : PublicKey :=
  PublicKey.mk SignatureAlgorithm.Ed25519 (ed25519_public (secret k)).
(* yutha-crypto/src/sign.rs:41-43 SigningKey::public_fingerprint *)
Definition public_fingerprint (k : SigningKey) : bytes :=
  fingerprint_public_key (ed25519_public (secret k)).
(* yutha-crypto/src/sign.rs:47-56 SigningKey::sign_message *)
Definition sign_message (k : SigningKey) (message : bytes) : Signature :=
  Signature.mk SignatureAlgorithm.Ed25519 (ed25519_sign (secret k) message) (public_fingerprint k).
End ops.
End SigningKey.
Notation SigningKey := SigningKey.SigningKey.

Module VerifyingKey.
(* yutha-crypto/src/sign.rs:60-62 VerifyingKey *)
Record VerifyingKey := mk { inner : bytes }.
Section ops.
Context `{CryptoOps}.
(* yutha-crypto/src/sign.rs:68-82 VerifyingKey::from_public_key *)
Definition from_public_key (pk : PublicKey) : Result VerifyingKey CryptoError :=
  if negb (bool_decide (PublicKey.algorithm pk = SignatureAlgorithm.Ed25519)) then
    Err (CryptoError.InvalidKey
           ("expected Ed25519, got " +:+ SignatureAlgorithm.debug (PublicKey.algorithm pk)))
  else if negb (length (PublicKey.value pk) =? 32)%nat then
    Err (CryptoError.InvalidKey "ed25519 public key must be 32 bytes")
  else match ed25519_key_error (PublicKey.value pk) with
       | Some e => Err (CryptoError.InvalidKey ("invalid ed25519 public key: " +:+ e))
       | None => Ok (mk (PublicKey.value pk))
       end.
(* yutha-crypto/src/sign.rs:86-101 VerifyingKey::verify_message *)
Definition verify_message (k : VerifyingKey) (message : bytes) (signature : Signature)
  : Result unit CryptoError :=
  if negb (bool_decide (Signature.algorithm signature = SignatureAlgorithm.Ed25519)) then
    Err (CryptoError.InvalidSignature
           ("expected Ed25519, got " +:+ SignatureAlgorithm.debug (Signature.algorithm signature)))
  else if negb (length (Signature.value signature) =? 64)%nat then
    Err (CryptoError.InvalidSignature "ed25519 sig must be 64 bytes")
  else if ed25519_verify (inner k) message (Signature.value signature) then Ok tt
  else Err CryptoError.VerificationFailed.
End ops.
End VerifyingKey.
Notation VerifyingKey := VerifyingKey.VerifyingKey.

Section sign.
Context `{CryptoOps}.

(* yutha-crypto/src/sign.rs:114-116 sign *)
Definition sign (signing_key : SigningKey) (message : bytes) : Signature :=
  SigningKey.sign_message signing_key message.

(* yutha-crypto/src/sign.rs:121-124 verify *)
Definition verify (public_key : PublicKey) (message : bytes) (signature : Signature)
  : Result unit CryptoError :=
  let? vk := VerifyingKey.from_public_key public_key in
  VerifyingKey.verify_message vk message signature.

(** What an accepted signature means. *)
Definition signature_valid (pk : PublicKey) (message : bytes) (sig : Signature) : Prop :=
  PublicKey.algorithm pk = SignatureAlgorithm.Ed25519 ∧ length (PublicKey.value pk) = 32 ∧
  ed25519_key_error (PublicKey.value pk) = None ∧
  Signature.algorithm sig = SignatureAlgorithm.Ed25519 ∧ length (Signature.value sig) = 64 ∧
  ed25519_verify (PublicKey.value pk) message (Signature.value sig) = true.

Lemma verify_Ok pk m s : verify pk m s = Ok tt ↔ signature_valid pk m s.
Proof.
  unfold verify, VerifyingKey.from_public_key, VerifyingKey.verify_message, signature_valid.
  destruct (PublicKey.algorithm pk); simpl; [|naive_solver].
  destruct (Nat.eqb_spec (length (PublicKey.value pk)) 32); simpl; [|naive_solver].
  destruct (ed25519_key_error (PublicKey.value pk)); simpl; [naive_solver|].
  destruct (Signature.algorithm s); simpl; [|naive_solver].
  destruct (Nat.eqb_spec (length (Signature.value s)) 64); simpl; [|naive_solver].
  destruct (ed25519_verify _ _ _); naive_solver.
Qed.

Lemma verify_sign `{!CryptoLaws} sk m : verify (SigningKey.public sk) m (sign sk m) = Ok tt.
Proof.
  apply verify_Ok. unfold signature_valid. simpl.
  rewrite ed25519_public_length, ed25519_public_valid, ed25519_sign_length, ed25519_sign_verify.
  done.
Qed.

Lemma sign_wf `{!CryptoLaws} sk m : Signature.wf (sign sk m).
Proof.
  unfold Signature.wf, sign, len. simpl. unfold SigningKey.public_fingerprint, fingerprint_public_key.
  by rewrite ed25519_sign_length, sha256_digest_length.
Qed.

End sign.

(** ** [yutha-signer]: the [Signer] trait and the in-process signer *)

Module SignerError.
(* yutha-signer/src/error.rs:12-38 SignerError *)
Inductive SignerError :=
| BackendRejected (msg : string)
| BackendUnavailable (msg : string)
| UnsupportedAlgorithm (msg : string)
| Internal (msg : string).
#[global] Instance SignerError_eq_dec : EqDecision SignerError.
Proof. solve_decision. Defined.
(* yutha-signer/src/error.rs:12-38 SignerError (Display) *)
Definition to_string (e : SignerError) : string :=
  match e with
  | BackendRejected m => "signer backend rejected: " +:+ m
  | BackendUnavailable m => "signer backend unavailable: " +:+ m
  | UnsupportedAlgorithm m => "unsupported algorithm: " +:+ m
  | Internal m => "internal signer error: " +:+ m
  end.
End SignerError.
Notation SignerError := SignerError.SignerError.

Module Signer.
(* yutha-signer/src/traits.rs:52-75 Signer *)
Record Signer := mk {
  public_key : PublicKey;
  sign_message : bytes → Result Signature SignerError }.
End Signer.
Notation Signer := Signer.Signer.

(* yutha-signer/src/inprocess.rs:117-128 Signer for InProcessSigner *)
Definition in_process_signer `{CryptoOps} (sk : SigningKey) : Signer :=
  Signer.mk (SigningKey.public sk) (λ message, Ok (SigningKey.sign_message sk message)).

(** A signer keeps its contract when what it signs verifies under its key. *)
Definition signer_sound `{CryptoOps} (s : Signer) : Prop :=
  ∀ m sig, Signer.sign_message s m = Ok sig → verify (Signer.public_key s) m sig = Ok tt.

Lemma in_process_signer_sound `{CryptoOps, !CryptoLaws} sk : signer_sound (in_process_signer sk).
Proof. intros m sig [= <-]. apply verify_sign. Qed.

(** ** A toy instance, used by the witnesses *)

Module Toy.
Definition pad (n : nat) (b : bytes) : bytes := take n (b ++ replicate n "000"%byte).
Lemma pad_length n b : length (pad n b) = n.
Proof. unfold pad. rewrite length_take, length_app, length_replicate. lia. Qed.
(** A checksum in the first byte and the prefix: enough to tell small inputs apart. *)
Definition digest (b : bytes) : bytes :=
  pad 32 (byte_of (N.of_nat (length b)) :: byte_of (foldl (λ a c, (a * 31 + Byte.to_N c) mod 251)%N 7%N b)
          :: rev b).
#[global] Instance ops : CryptoOps := {|
  sha256_digest := digest;
  ed25519_public sk := pad 32 sk;
  ed25519_sign sk m := pad 64 (digest (pad 32 sk ++ m));
  ed25519_key_error _ := None;
  ed25519_verify pk m s := bool_decide (s = pad 64 (digest (pad 32 pk ++ m)))
|}.
Lemma pad_idemp n b : pad n (pad n b) = pad n b.
Proof.
  unfold pad at 1. rewrite take_app_le by (rewrite pad_length; lia).
  rewrite take_ge; [done|]. rewrite pad_length. lia.
Qed.
#[global] Instance laws : @CryptoLaws ops.
Proof.
  split.
  - intros b. exact (pad_length 32 _).
  - intros sk. exact (pad_length 32 _).
  - done.
  - intros sk m. exact (pad_length 64 _).
  - intros sk m. apply bool_decide_eq_true. unfold ed25519_sign, ed25519_public, ops.
    by rewrite pad_idemp.
Qed.
#[global] Instance time_ops : TimeOps := {|
  parse_rfc3339 s := match parse_uint u64_max s with Ok x => Some (Z.of_N x) | Err _ => None end;
  parse_rfc3339_error _ := "parse error"
|}.
End Toy.
