(* ===== verification/ReceiptTypes.v ===== *)
(** * [yutha-receipt]: the receipt's data, its wire form and its canonical bytes

    [evidence.rs], [seal.rs], [signing.rs], [receipt.rs], [error.rs],
    [query.rs], [passport.rs] and [proto_conv.rs]. *)

From S2P Require Import Prelude RustStd Core CoreProto Crypto.

Module SignatureRole.
(* yutha-receipt/src/signing.rs:18-29 SignatureRole *)
Inductive SignatureRole := Actor | ControlPlane | Supervisor | Attestation | BatchRoot.
#[global] Instance SignatureRole_eq_dec : EqDecision SignatureRole.
Proof. solve_decision. Defined.
(* yutha-receipt/src/signing.rs:33-41 SignatureRole::rank *)
Definition rank (r : SignatureRole) : N :=
  match r with Actor => 0 | ControlPlane => 1 | Supervisor => 2 | Attestation => 3 | BatchRoot => 4 end.
(* yutha-receipt/src/signing.rs:16-29 SignatureRole (Debug) *)
Definition debug (r : SignatureRole) : string :=
  match r with
  | Actor => "Actor" | ControlPlane => "ControlPlane" | Supervisor => "Supervisor"
  | Attestation => "Attestation" | BatchRoot => "BatchRoot"
  end.
#[global] Instance SignatureRole_countable : Countable SignatureRole :=
  inj_countable rank
    (λ n, match n with 0 => Some Actor | 1 => Some ControlPlane | 2 => Some Supervisor
                  | 3 => Some Attestation | 4 => Some BatchRoot | _ => None end%N)
    ltac:(by intros []).
End SignatureRole.
Notation SignatureRole := SignatureRole.SignatureRole.

Module SignedBy.
(* yutha-receipt/src/signing.rs:47-54 SignedBy *)
Record SignedBy := mk { role : SignatureRole; signature : Signature; signed_at : Timestamp }.
#[global] Instance SignedBy_eq_dec : EqDecision SignedBy.
Proof. solve_decision. Defined.
(* yutha-receipt/src/signing.rs:58-64 SignedBy::new *)
Definition new (role : SignatureRole) (signature : Signature) (signed_at : Timestamp) : SignedBy :=
  mk role signature signed_at.
End SignedBy.
Notation SignedBy := SignedBy.SignedBy.

Module Evidence.
(* yutha-receipt/src/evidence.rs:13-25 Evidence *)
Record Evidence := mk { key : string; type_url : string; value : bytes; is_sensitive : bool }.
#[global] Instance Evidence_eq_dec : EqDecision Evidence.
Proof. solve_decision. Defined.
(* yutha-receipt/src/evidence.rs:29-36 Evidence::new *)
Definition new (key type_url : string) (value : bytes) : Evidence := mk key type_url value false.
(* yutha-receipt/src/evidence.rs:40-47 Evidence::sensitive *)
Definition sensitive (key type_url : string) (value : bytes) : Evidence := mk key type_url value true.
End Evidence.
Notation Evidence := Evidence.Evidence.

Module SealState.
(* yutha-receipt/src/seal.rs:13-18 SealState *)
Inductive SealState := Unsealed | Sealed.
#[global] Instance SealState_eq_dec : EqDecision SealState.
Proof. solve_decision. Defined.
End SealState.
Notation SealState := SealState.SealState.

Module SealStatus.
(* yutha-receipt/src/seal.rs:23-46 SealStatus *)
Record SealStatus := mk {
  state : SealState; batch_root : option Hash; merkle_path : list Hash;
  sealed_at : option Timestamp; on_chain_tx_digest : option bytes;
  swarm_anchor_object_id : option bytes }.
#[global] Instance SealStatus_eq_dec : EqDecision SealStatus.
Proof. solve_decision. Defined.
(* yutha-receipt/src/seal.rs:50-59 SealStatus::unsealed *)
Definition unsealed : SealStatus := mk SealState.Unsealed None [] None None None.
(* yutha-receipt/src/seal.rs:63-72 SealStatus::sealed *)
Definition sealed (batch_root : Hash) (merkle_path : list Hash) (sealed_at : Timestamp)
  : SealStatus := mk SealState.Sealed (Some batch_root) merkle_path (Some sealed_at) None None.
(* yutha-receipt/src/seal.rs:76-91 SealStatus::sealed_with_anchor *)
Definition sealed_with_anchor (batch_root : Hash) (merkle_path : list Hash)
  (sealed_at : Timestamp) (on_chain_tx_digest swarm_anchor_object_id : bytes) : SealStatus :=
  mk SealState.Sealed (Some batch_root) merkle_path (Some sealed_at) (Some on_chain_tx_digest)
    (Some swarm_anchor_object_id).
End SealStatus.
Notation SealStatus := SealStatus.SealStatus.

Module Receipt.
(* yutha-receipt/src/receipt.rs:25-60 Receipt *)
Record Receipt := mk {
  spec_version : SpecVersion; swarm_id : SwarmId; actor : AgentId; action_kind : string;
  causal : CausalRef; evidence : list Evidence; constitution_version : string;
  cost : option CostAnnotation; occurred_at : Timestamp; seal : SealStatus;
  signatures : list SignedBy }.
#[global] Instance Receipt_eq_dec : EqDecision Receipt.
Proof. solve_decision. Defined.
(* yutha-receipt/src/receipt.rs:69-71 Receipt::is_sealed *)
Definition is_sealed (r : Receipt) : bool :=
  bool_decide (SealStatus.state (seal r) = SealState.Sealed).
Definition with_signatures (f : list SignedBy → list SignedBy) (r : Receipt) : Receipt :=
  mk (spec_version r) (swarm_id r) (actor r) (action_kind r) (causal r) (evidence r)
    (constitution_version r) (cost r) (occurred_at r) (seal r) (f (signatures r)).
Definition with_seal (s : SealStatus) (r : Receipt) : Receipt :=
  mk (spec_version r) (swarm_id r) (actor r) (action_kind r) (causal r) (evidence r)
    (constitution_version r) (cost r) (occurred_at r) s (signatures r).
End Receipt.
Notation Receipt := Receipt.Receipt.

Module ReceiptBuilder.
(* yutha-receipt/src/receipt.rs:103-115 ReceiptBuilder *)
Record ReceiptBuilder := mk {
  spec_version : option SpecVersion; swarm_id : option SwarmId; actor : option AgentId;
  action_kind : option string; causal : option CausalRef; evidence : list Evidence;
  constitution_version : option string; cost : option CostAnnotation;
  occurred_at : option Timestamp; seal : option SealStatus; signatures : list SignedBy }.
(* yutha-receipt/src/receipt.rs:185-201 ReceiptBuilder::build *)
Definition build (b : ReceiptBuilder) : Result Receipt string :=
  let? spec_version := ok_or (spec_version b) "spec_version required"%string in
  let? swarm_id := ok_or (swarm_id b) "swarm_id required"%string in
  let? actor := ok_or (actor b) "actor required"%string in
  let? action_kind := ok_or (action_kind b) "action_kind required"%string in
  let? constitution_version := ok_or (constitution_version b) "constitution_version required"%string in
  let? occurred_at := ok_or (occurred_at b) "occurred_at required"%string in
  Ok (Receipt.mk spec_version swarm_id actor action_kind (default CausalRef.empty (causal b))
        (evidence b) constitution_version (cost b) occurred_at
        (default SealStatus.unsealed (seal b)) (signatures b)).
End ReceiptBuilder.

Module ReceiptError.
(* yutha-receipt/src/error.rs:12-89 ReceiptError *)
Inductive ReceiptError :=
| ContentAddressMismatch (claimed recomputed : Hash)
| SignatureFailed (detail : string)
| MissingSignatureRole (role : SignatureRole)
| SignatureOrderInvalid (detail : string)
| AppendOnly
| NotFound (h : Hash)
| ActorNotResolvable (a : AgentId)
| PassportResolver (msg : string)
| InvalidQuery (msg : string)
| Backend (msg : string)
| BatchInvalid (msg : string)
| Crypto (e : CryptoError)
| Core (e : CoreError).
#[global] Instance ReceiptError_eq_dec : EqDecision ReceiptError.
Proof. solve_decision. Defined.
(* yutha-receipt/src/error.rs:12-89 ReceiptError (Display) *)
Definition to_string (e : ReceiptError) : string :=
  match e with
  | ContentAddressMismatch c r =>
      "content-address mismatch: claimed " +:+ Hash.to_hex c +:+ " but recomputed " +:+ Hash.to_hex r
  | SignatureFailed d => "signature verification failed: " +:+ d
  | MissingSignatureRole r => "required signature role missing: " +:+ SignatureRole.debug r
  | SignatureOrderInvalid d => "signature ordering invalid: " +:+ d
  | AppendOnly => "operation forbidden: receipt store is append-only"
  | NotFound h => "receipt not found: " +:+ Hash.to_hex h
  | ActorNotResolvable a => "actor not resolvable: " +:+ AgentId.to_string a
  | PassportResolver m => "passport resolver error: " +:+ m
  | InvalidQuery m => "invalid query: " +:+ m
  | Backend m => "backend error: " +:+ m
  | BatchInvalid m => "invalid batch: " +:+ m
  | Crypto e => CryptoError.to_string e
  | Core e => CoreError.to_string e
  end.
End ReceiptError.
Notation ReceiptError := ReceiptError.ReceiptError.

Module Query.
(* yutha-receipt/src/query.rs:15-26 Query *)
Inductive Query :=
| ByReceiptId (id : Hash)
| ByPredecessor (predecessor : Hash)
| ByAgent (agent_id : AgentId)
| ByActionKind (action_kind : string)
| ByTimeRange (from to : Timestamp).
End Query.
Notation Query := Query.Query.

Module Page.
(* yutha-receipt/src/query.rs:62-67 Page *)
Record Page := mk { receipts : list Receipt; next_page_token : option bytes }.
End Page.
Notation Page := Page.Page.

Module AppendOptions.
(* yutha-receipt/src/query.rs:71-79 AppendOptions *)
Record AppendOptions := mk { wait_for_seal : bool; page_limit : option N }.
(* yutha-receipt/src/query.rs:70-79 AppendOptions (Default) *)
Definition default : AppendOptions := mk false None.
End AppendOptions.
Notation AppendOptions := AppendOptions.AppendOptions.

(** ** passport.rs: the resolver the store is handed *)

Module PassportResolver.
(* yutha-receipt/src/passport.rs:35-50 PassportResolver *)
Record PassportResolver := mk {
  resolve_actor : AgentId → Result (option PublicKey) ReceiptError;
  resolve_role : SignatureRole → bytes → Result (option PublicKey) ReceiptError }.
(* yutha-receipt/src/passport.rs:43-49 PassportResolver::resolve_role (default) *)
Definition no_roles : SignatureRole → bytes → Result (option PublicKey) ReceiptError :=
  λ _ _, Ok None.
End PassportResolver.
Notation PassportResolver := PassportResolver.PassportResolver.

Module StaticPassportResolver.
(* yutha-receipt/src/passport.rs:62-65 StaticPassportResolver *)
Record StaticPassportResolver := mk {
  actors : gmap AgentId PublicKey; roles : gmap (SignatureRole * bytes) PublicKey }.
(* yutha-receipt/src/passport.rs:69-71 StaticPassportResolver::new *)
Definition new : StaticPassportResolver := mk ∅ ∅.
(* yutha-receipt/src/passport.rs:74-77 StaticPassportResolver::with_actor *)
Definition with_actor (agent_id : AgentId) (key : PublicKey) (r : StaticPassportResolver) :=
  mk (<[agent_id := key]> (actors r)) (roles r).
(* yutha-receipt/src/passport.rs:80-88 StaticPassportResolver::with_role *)
Definition with_role (role : SignatureRole) (key_fingerprint : bytes) (key : PublicKey)
  (r : StaticPassportResolver) := mk (actors r) (<[(role, key_fingerprint) := key]> (roles r)).
(* yutha-receipt/src/passport.rs:97-109 PassportResolver for StaticPassportResolver *)
Definition resolver (r : StaticPassportResolver) : PassportResolver :=
  PassportResolver.mk (λ agent_id, Ok (actors r !! agent_id))
    (λ role key_fingerprint, Ok (roles r !! (role, key_fingerprint))).
End StaticPassportResolver.
