(* ===== verification/ReceiptProto.v ===== *)
(** * [yutha-receipt/src/proto_conv.rs] and the canonical bytes of a receipt

    Conversions to and from the messages of [spec/receipt/receipt-v1.proto],
    the canonical form that is hashed and signed, and the decoding of query
    requests.  The round trip holds for every well-formed receipt; decoding
    only produces well-formed receipts. *)

From S2P Require Import Prelude RustStd Core CoreProto Crypto ReceiptTypes.

Module rproto.
(* The messages of spec/receipt/receipt-v1.proto (and common.proto's Extensions). *)
Record Any := mkAny { Any_type_url : string; Any_value : bytes }.
Record Extensions := mkExtensions { Extensions_entries : gmap string Any }.
Record Evidence := mkEvidence {
  Evidence_key : string; Evidence_type_url : string; Evidence_value : bytes;
  Evidence_sensitive : bool }.
Record SignedBy := mkSignedBy {
  SignedBy_role : Z; SignedBy_signature : option proto.Signature;
  SignedBy_signed_at : option proto.Timestamp }.
Record SealStatus := mkSealStatus {
  Seal_state : Z; Seal_batch_root : option proto.Hash; Seal_merkle_path : list proto.Hash;
  Seal_sealed_at : option proto.Timestamp; Seal_on_chain_tx_digest : bytes;
  Seal_swarm_anchor_object_id : bytes }.
Record Receipt := mkReceipt {
  Receipt_spec_version : option proto.Version; Receipt_swarm_id : option proto.SwarmId;
  Receipt_actor : option proto.AgentId; Receipt_action_kind : string;
  Receipt_causal : option proto.CausalRef; Receipt_evidence : list Evidence;
  Receipt_constitution_version : string; Receipt_cost : option proto.CostAnnotation;
  Receipt_occurred_at : option proto.Timestamp; Receipt_seal : option SealStatus;
  Receipt_extensions : option Extensions; Receipt_signatures : list SignedBy }.
Inductive By :=
| ByReceiptId (h : proto.Hash)
| ByPredecessor (predecessor : option proto.Hash)
| ByAgent (agent_id : option proto.AgentId)
| ByActionKind (action_kind : string)
| ByTime (from to : option proto.Timestamp).
Record QueryRequest := mkQueryRequest { Query_by : option By; Query_limit : N; Query_page_token : bytes }.
End rproto.

(** ** Forward conversions *)

(* yutha-receipt/src/proto_conv.rs:41-51 From<SignatureRole> for i32 *)
Definition SignatureRole_into_i32 (r : SignatureRole) : Z :=
  match r with
  | SignatureRole.Actor => 1 | SignatureRole.ControlPlane => 2 | SignatureRole.Supervisor => 3
  | SignatureRole.Attestation => 4 | SignatureRole.BatchRoot => 5
  end.
(* yutha-receipt/src/proto_conv.rs:57-65 From<&SignedBy> for proto::SignedBy *)
#[global] Instance SignedBy_to_proto : ToProto SignedBy rproto.SignedBy :=
  λ s, rproto.mkSignedBy (SignatureRole_into_i32 (SignedBy.role s))
         (Some (to_proto (SignedBy.signature s))) (Some (to_proto (SignedBy.signed_at s))).
(* yutha-receipt/src/proto_conv.rs:71-80 From<&Evidence> for proto::Evidence *)
#[global] Instance Evidence_to_proto : ToProto Evidence rproto.Evidence :=
  λ e, rproto.mkEvidence (Evidence.key e) (Evidence.type_url e) (Evidence.value e)
         (Evidence.is_sensitive e).
(* yutha-receipt/src/proto_conv.rs:86-99 From<SealState> for i32 *)
Definition SealState_into_i32 (s : SealState) : Z :=
  match s with SealState.Unsealed => 1 | SealState.Sealed => 2 end.
(* yutha-receipt/src/proto_conv.rs:101-116 From<&SealStatus> for proto::SealStatus *)
#[global] Instance SealStatus_to_proto : ToProto SealStatus rproto.SealStatus :=
  λ s, rproto.mkSealStatus (SealState_into_i32 (SealStatus.state s))
         (to_proto <$> SealStatus.batch_root s) (to_proto <$> SealStatus.merkle_path s)
         (to_proto <$> SealStatus.sealed_at s) (default [] (SealStatus.on_chain_tx_digest s))
         (default [] (SealStatus.swarm_anchor_object_id s)).
(* yutha-receipt/src/proto_conv.rs:122-145 From<&Receipt> for proto::Receipt *)
#[global] Instance Receipt_to_proto : ToProto Receipt rproto.Receipt :=
  λ r, rproto.mkReceipt (Some (to_proto (Receipt.spec_version r)))
         (Some (to_proto (Receipt.swarm_id r))) (Some (to_proto (Receipt.actor r)))
         (Receipt.action_kind r) (Some (to_proto (Receipt.causal r)))
         (to_proto <$> Receipt.evidence r) (Receipt.constitution_version r)
         (to_proto <$> Receipt.cost r) (Some (to_proto (Receipt.occurred_at r)))
         (Some (to_proto (Receipt.seal r))) None (to_proto <$> Receipt.signatures r).
(* yutha-receipt/src/proto_conv.rs:164-170 Receipt::to_canonical_proto *)
Definition to_canonical_proto (r : Receipt) : rproto.Receipt :=
  let p : rproto.Receipt := to_proto r in
  rproto.mkReceipt (rproto.Receipt_spec_version p) (rproto.Receipt_swarm_id p)
    (rproto.Receipt_actor p) (rproto.Receipt_action_kind p) (rproto.Receipt_causal p)
    (rproto.Receipt_evidence p) (rproto.Receipt_constitution_version p) (rproto.Receipt_cost p)
    (rproto.Receipt_occurred_at p) None None [].

(* yutha-receipt/src/receipt.rs:92-94 Receipt::canonical_bytes *)
#[global] Instance Receipt_canonical `{Encode rproto.Receipt} : Canonical Receipt :=
  λ r, Ok (encode_to_vec (to_canonical_proto r)).

(** ** Reverse conversions *)

(* yutha-receipt/src/proto_conv.rs:192-196 missing *)
Definition missing (field : string) : ReceiptError := ReceiptError.Core (missing_field field).

(* yutha-receipt/src/proto_conv.rs:202-224 TryFrom<i32> for SignatureRole *)
Definition SignatureRole_try_from (v : Z) : Result SignatureRole ReceiptError :=
  match v with
  | 0%Z => Err (ReceiptError.SignatureFailed "signature role unset (UNKNOWN)")
  | 1%Z => Ok SignatureRole.Actor
  | 2%Z => Ok SignatureRole.ControlPlane
  | 3%Z => Ok SignatureRole.Supervisor
  | 4%Z => Ok SignatureRole.Attestation
  | 5%Z => Ok SignatureRole.BatchRoot
  | _ => Err (ReceiptError.SignatureFailed ("unknown signature role: " +:+ show_Z v))
  end.

Section reverse.
Context `{TimeOps}.

(* yutha-receipt/src/proto_conv.rs:230-245 TryFrom<&proto::SignedBy> for SignedBy *)
#[global] Instance SignedBy_try_from : TryFromProto rproto.SignedBy SignedBy ReceiptError :=
  λ p, let? role := SignatureRole_try_from (rproto.SignedBy_role p) in
       let? signature := try_from_required ReceiptError.Core "signature" (rproto.SignedBy_signature p) in
       let? signed_at := try_from_required ReceiptError.Core "signed_at" (rproto.SignedBy_signed_at p) in
       Ok (SignedBy.mk role signature signed_at).
(* yutha-receipt/src/proto_conv.rs:251-262 From<&proto::Evidence> for Evidence *)
Definition Evidence_from (p : rproto.Evidence) : Evidence :=
  Evidence.mk (rproto.Evidence_key p) (rproto.Evidence_type_url p) (rproto.Evidence_value p)
    (rproto.Evidence_sensitive p).
(* yutha-receipt/src/proto_conv.rs:268-284 TryFrom<i32> for SealState *)
Definition SealState_try_from (v : Z) : Result SealState ReceiptError :=
  match v with
  | 0%Z => Ok SealState.Unsealed
  | 1%Z => Ok SealState.Unsealed
  | 2%Z => Ok SealState.Sealed
  | _ => Err (ReceiptError.InvalidQuery ("unknown seal state: " +:+ show_Z v))
  end.
Definition none_if_empty (b : bytes) : option bytes := match b with [] => None | _ => Some b end.
(* yutha-receipt/src/proto_conv.rs:286-320 TryFrom<&proto::SealStatus> for SealStatus *)
#[global] Instance SealStatus_try_from : TryFromProto rproto.SealStatus SealStatus ReceiptError :=
  λ p, let? state := SealState_try_from (rproto.Seal_state p) in
       let? batch_root := map_err ReceiptError.Core (try_from_opt (rproto.Seal_batch_root p)) in
       let? merkle_path := map_err ReceiptError.Core (collect try_from (rproto.Seal_merkle_path p)) in
       let? sealed_at := map_err ReceiptError.Core (try_from_opt (rproto.Seal_sealed_at p)) in
       Ok (SealStatus.mk state batch_root merkle_path sealed_at
             (none_if_empty (rproto.Seal_on_chain_tx_digest p))
             (none_if_empty (rproto.Seal_swarm_anchor_object_id p))).
(* yutha-receipt/src/proto_conv.rs:326-377 TryFrom<&proto::Receipt> for Receipt *)
#[global] Instance Receipt_try_from : TryFromProto rproto.Receipt Receipt ReceiptError :=
  λ p, let? spec_version := try_from_required ReceiptError.Core "spec_version" (rproto.Receipt_spec_version p) in
       let? swarm_id := try_from_required ReceiptError.Core "swarm_id" (rproto.Receipt_swarm_id p) in
       let? actor := try_from_required ReceiptError.Core "actor" (rproto.Receipt_actor p) in
       let? causal := map_err ReceiptError.Core (try_from_opt (rproto.Receipt_causal p)) in
       let? cost := map_err ReceiptError.Core (try_from_opt (rproto.Receipt_cost p)) in
       let? occurred_at := try_from_required ReceiptError.Core "occurred_at" (rproto.Receipt_occurred_at p) in
       let? seal := try_from_opt (rproto.Receipt_seal p) in
       let? signatures := collect try_from (rproto.Receipt_signatures p) in
       Ok (Receipt.mk spec_version swarm_id actor (rproto.Receipt_action_kind p)
             (default CausalRef.empty causal) (Evidence_from <$> rproto.Receipt_evidence p)
             (rproto.Receipt_constitution_version p) cost occurred_at
             (default SealStatus.unsealed seal) signatures).
(* yutha-receipt/src/proto_conv.rs:424-447 TryFrom<&proto::QueryRequest> for Query *)
#[global] Instance Query_try_from : TryFromProto rproto.QueryRequest Query ReceiptError :=
  λ p, let? by_ := ok_or (rproto.Query_by p) (ReceiptError.InvalidQuery "query selector not set") in
       match by_ with
       | rproto.ByReceiptId h => let? h := try_from_core ReceiptError.Core h in Ok (Query.ByReceiptId h)
       | rproto.ByPredecessor q =>
           let? h := try_from_required ReceiptError.Core "predecessor" q in Ok (Query.ByPredecessor h)
       | rproto.ByAgent q =>
           let? a := try_from_required ReceiptError.Core "agent_id" q in Ok (Query.ByAgent a)
       | rproto.ByActionKind k => Ok (Query.ByActionKind k)
       | rproto.ByTime from to =>
           let? from := try_from_required ReceiptError.Core "from" from in
           let? to := try_from_required ReceiptError.Core "to" to in
           Ok (Query.ByTimeRange from to)
       end.

(** ** Well-formed receipts and the laws *)

#[global] Instance SignedBy_wf : WellFormed SignedBy :=
  λ s, wf (SignedBy.signature s) ∧ wf (SignedBy.signed_at s).
Definition anchor_wf (o : option bytes) : Prop := o ≠ Some [].
#[global] Instance SealStatus_wf : WellFormed SealStatus :=
  λ s, wf (SealStatus.batch_root s) ∧ wf (SealStatus.merkle_path s) ∧ wf (SealStatus.sealed_at s) ∧
       anchor_wf (SealStatus.on_chain_tx_digest s) ∧ anchor_wf (SealStatus.swarm_anchor_object_id s).
#[global] Instance Receipt_wf : WellFormed Receipt :=
  λ r, wf (Receipt.spec_version r) ∧ wf (Receipt.swarm_id r) ∧ wf (Receipt.actor r) ∧
       wf (Receipt.causal r) ∧ wf (Receipt.occurred_at r) ∧ wf (Receipt.seal r) ∧
       wf (Receipt.signatures r).

Lemma none_if_empty_default o : anchor_wf o → none_if_empty (default [] o) = o.
Proof. by destruct o as [[]|]. Qed.
Lemma none_if_empty_wf b : anchor_wf (none_if_empty b).
Proof. by destruct b. Qed.

Lemma Evidence_from_to (l : list Evidence) : Evidence_from <$> (to_proto <$> l) = l.
Proof. rewrite <- list_fmap_compose. induction l as [|[] l IH]; csimpl; by rewrite ?IH. Qed.

#[global] Instance SignedBy_round_trip : RoundTrip SignedBy rproto.SignedBy ReceiptError.
Proof.
  constructor. intros [ro sg at_] [Hs Ht]. unfold try_from, SignedBy_try_from. simpl in *.
  destruct ro; simpl; rewrite !try_from_required_round_trip by done; done.
Qed.
#[global] Instance SealStatus_round_trip : RoundTrip SealStatus rproto.SealStatus ReceiptError.
Proof.
  constructor. intros [st ro mp sa tx ob] (Hr & Hm & Hs & Ht & Ho). simpl in *.
  unfold try_from, SealStatus_try_from. simpl.
  rewrite !try_from_opt_round_trip, collect_round_trip, !none_if_empty_default by done.
  by destruct st.
Qed.
#[global] Instance Receipt_round_trip : RoundTrip Receipt rproto.Receipt ReceiptError.
Proof.
  constructor. intros [sv sw ac ak ca ev cv co oc se si] (Hsv & Hsw & Hac & Hca & Hoc & Hse & Hsi).
  unfold try_from, Receipt_try_from. simpl in *.
  rewrite !try_from_required_round_trip by done. simpl.
  rewrite (try_from_opt_round_trip co) by (by destruct co). simpl.
  rewrite !round_trip, collect_round_trip by done. simpl.
  by rewrite Evidence_from_to.
Qed.

#[global] Instance SignedBy_decodes : DecodesWf SignedBy rproto.SignedBy ReceiptError.
Proof.
  constructor. intros p s H1. unfold try_from, SignedBy_try_from in H1. inv_ok H1. decode_wf. done.
Qed.
#[global] Instance SealStatus_decodes : DecodesWf SealStatus rproto.SealStatus ReceiptError.
Proof.
  constructor. intros p s H1. unfold try_from, SealStatus_try_from in H1. inv_ok H1. decode_wf.
  repeat split; simpl; auto using none_if_empty_wf.
Qed.
#[global] Instance Receipt_decodes : DecodesWf Receipt rproto.Receipt ReceiptError.
Proof.
  constructor. intros p r H1. unfold try_from, Receipt_try_from in H1. inv_ok H1. decode_wf.
  unfold wf, Receipt_wf; simpl. do 3 (split; [done|]).
  split; [apply wf_default; [by constructor|done]|]. split; [done|].
  split; [apply wf_default; [by repeat split; try constructor|done]|done].
Qed.

(** ** Properties *)

(** [C23] Every receipt that is decoded is well-formed (sixteen-byte ids, digests
    and signatures of the declared length, parseable clocks and versions, no
    empty anchor field), and every well-formed receipt is decoded from its own
    encoding unchanged: so what a store or a peer decodes and re-encodes keeps
    its content address. *)
Theorem receipt_wire_round_trip (r : Receipt) (p : rproto.Receipt) :
  (wf r → try_from (E:=ReceiptError) (to_proto (P:=rproto.Receipt) r) = Ok r) ∧
  (try_from (E:=ReceiptError) p = Ok r →
   wf r ∧ try_from (E:=ReceiptError) (to_proto (P:=rproto.Receipt) r) = Ok r).
Proof.
  split; [apply round_trip|]. intros Hp. assert (wf r) by by eapply decodes_wf.
  split; [done|by apply round_trip].
Qed.

End reverse.

(** ** Witnesses *)

Module ReceiptToy.
Definition receipt : Receipt :=
  Receipt.mk (SpecVersion.mk "1.0.0") (SwarmId.mk (replicate 16 "001"%byte))
    (AgentId.mk (replicate 16 "002"%byte)) "agent.register"
    (CausalRef.mk [Hash.mk HashAlgorithm.Sha256 (replicate 32 "003"%byte)])
    [Evidence.new "k" "t" [Byte.x01]] "1.0.0" None (Timestamp.mk "5" 7) SealStatus.unsealed
    [SignedBy.mk SignatureRole.Actor
       (Signature.mk SignatureAlgorithm.Ed25519 (replicate 64 "004"%byte) (replicate 32 "005"%byte))
       (Timestamp.mk "6" 8)].
End ReceiptToy.

Lemma receipt_wire_round_trip_witness :
  wf ReceiptToy.receipt ∧
  try_from (E:=ReceiptError) (to_proto (P:=rproto.Receipt) ReceiptToy.receipt) = Ok ReceiptToy.receipt.
Proof.
  apply (receipt_wire_round_trip (H:=Toy.time_ops) ReceiptToy.receipt (to_proto ReceiptToy.receipt)).
  vm_compute. reflexivity.
Defined.
