(* ===== verification/Merkle.v ===== *)
(** * [yutha-receipt/src/merkle.rs]: the sorted-pair Merkle tree over a batch

    [build_merkle] is the code's loop, level by level, with the leaf positions
    and the paths it extends; [collapse] runs it with the number of leaves as
    fuel, which [climbs_fuel] and [collapse_climbs] show is enough.  Theorems:
    every emitted path reconstructs the root; the leaves are the batch in canonical order; the
    result does not depend on the input order; a path of the batch's depth only
    verifies for a leaf of the batch, up to a SHA-256 collision; an inner node
    verifies with a shorter path. *)

From S2P Require Import Prelude RustStd Core CoreProto Crypto ReceiptTypes ReceiptProto.

Module LeafProof.
(* yutha-receipt/src/merkle.rs:41-46 LeafProof *)
Record LeafProof := mk { leaf : Hash; path : list Hash }.
#[global] Instance LeafProof_eq_dec : EqDecision LeafProof.
Proof. solve_decision. Defined.
End LeafProof.
Notation LeafProof := LeafProof.LeafProof.

Module MerkleBatch.
(* yutha-receipt/src/merkle.rs:50-57 MerkleBatch *)
Record MerkleBatch := mk { root : Hash; leaves : list LeafProof }.
End MerkleBatch.
Notation MerkleBatch := MerkleBatch.MerkleBatch.

(** [sort_by(|a, b| a.0.cmp(&b.0).then_with(|| a.1.digest.cmp(&b.1.digest)))] *)
Definition entry_le (a b : N * Hash) : Prop :=
  (a.1 < b.1)%N ∨ a.1 = b.1 ∧ bytes_le (Hash.digest a.2) (Hash.digest b.2).
#[global] Instance entry_le_dec : RelDecision entry_le.
Proof. intros a b. unfold entry_le. apply _. Defined.
#[global] Instance entry_le_trans : Transitive entry_le.
Proof.
  intros [n1 h1] [n2 h2] [n3 h3]. unfold entry_le; simpl.
  intros [?|[-> ?]] [?|[-> ?]]; try (left; lia). right. split; [done|by etrans].
Qed.
#[global] Instance entry_le_total : Total entry_le.
Proof.
  intros [n1 h1] [n2 h2]. unfold entry_le; simpl.
  destruct (N.lt_trichotomy n1 n2) as [?|[->|?]]; [by left; left| |by right; left].
  destruct (total bytes_le (Hash.digest h1) (Hash.digest h2)); [left|right]; by right.
Qed.

(** [for pair in entries.windows(2)]: the first adjacent pair with one id. *)
Fixpoint adjacent_duplicate (l : list (N * Hash)) : option Hash :=
  match l with
  | a :: (b :: _) as t => if bool_decide (a.2 = b.2) then Some a.2 else adjacent_duplicate t
  | _ => None
  end.

Section merkle.
Context `{CryptoOps} `{Encode rproto.Receipt}.

(* yutha-receipt/src/merkle.rs:196-212 sorted_pair_hash *)
Definition sorted_pair_hash (a b : Hash) : Hash :=
  if bytes_leb (Hash.digest a) (Hash.digest b)
  then sha256 (Hash.digest a ++ Hash.digest b)
  else sha256 (Hash.digest b ++ Hash.digest a).

(* yutha-receipt/src/merkle.rs:184-190 verify_path *)
Definition verify_path (leaf : Hash) (path : list Hash) (expected_root : Hash) : bool :=
  bool_decide (foldl sorted_pair_hash leaf path = expected_root).

(* yutha-receipt/src/merkle.rs:142-148 build_merkle (pushing the siblings of one pair) *)
Definition push_siblings (chunk_start : nat) (left_ right_ : Hash) (leaf_positions : list nat)
  (paths : list (list Hash)) : list (list Hash) :=
  zip_with (λ pos path, if (pos =? chunk_start)%nat then path ++ [right_]
                        else if (pos =? chunk_start + 1)%nat then path ++ [left_] else path)
    leaf_positions paths.

(* yutha-receipt/src/merkle.rs:129-152 build_merkle (one level) *)
Fixpoint scan_level (chunk_start : nat) (current_level : list Hash) (leaf_positions : list nat)
  (paths : list (list Hash)) : list (list Hash) * list Hash :=
  match current_level with
  | [] => (paths, [])
  | [left_] =>
      (push_siblings chunk_start left_ left_ leaf_positions paths, [sorted_pair_hash left_ left_])
  | left_ :: right_ :: rest =>
      let '(paths, next_level) :=
        scan_level (chunk_start + 2) rest leaf_positions
          (push_siblings chunk_start left_ right_ leaf_positions paths) in
      (paths, sorted_pair_hash left_ right_ :: next_level)
  end.

(* yutha-receipt/src/merkle.rs:128-159 build_merkle (while current_level.len() > 1) *)
Fixpoint collapse (fuel : nat) (current_level : list Hash) (leaf_positions : list nat)
  (paths : list (list Hash)) : option (list Hash * list (list Hash)) :=
  if (1 <? length current_level)%nat then
    match fuel with
    | O => None
    | S fuel =>
        let '(paths, next_level) := scan_level 0 current_level leaf_positions paths in
        collapse fuel next_level ((λ pos, pos / 2) <$> leaf_positions) paths
    end
  else Some (current_level, paths).

(* yutha-receipt/src/merkle.rs:80-86 build_merkle (entries) *)
Definition merkle_entry (r : Receipt) : Result (N * Hash) ReceiptError :=
  let? id := map_err ReceiptError.Crypto (content_address r) in
  Ok (Timestamp.monotonic_ns (Receipt.occurred_at r), id).

(* yutha-receipt/src/merkle.rs:71-176 build_merkle *)
Definition build_merkle (receipts : list Receipt) : Result MerkleBatch ReceiptError :=
  match receipts with
  | [] => Err (ReceiptError.BatchInvalid "merkle batch must be non-empty")
  | _ =>
      let? entries := collect merkle_entry receipts in
      let entries := merge_sort entry_le entries in
      match adjacent_duplicate entries with
      | Some id => Err (ReceiptError.BatchInvalid
                          ("duplicate receipt_id in batch: " +:+ hex (Hash.digest id)))
      | None =>
          match entries.*2 with
          | [leaf] => Ok (MerkleBatch.mk leaf [LeafProof.mk leaf []])
          | leaves =>
              let n := length leaves in
              match collapse n leaves (seq 0 n) (replicate n []) with
              | Some (root :: _, paths) =>
                  Ok (MerkleBatch.mk root (zip_with LeafProof.mk leaves paths))
              | _ => (* unreachable: the [expect] on the root, see [build_merkle_total] *)
                  Err (ReceiptError.BatchInvalid "")
              end
          end
      end
  end.

(** ** The level step *)

Lemma sorted_pair_hash_comm a b : sorted_pair_hash a b = sorted_pair_hash b a.
Proof.
  unfold sorted_pair_hash.
  destruct (bytes_leb (Hash.digest a) (Hash.digest b)) eqn:E1,
    (bytes_leb (Hash.digest b) (Hash.digest a)) eqn:E2; try done.
  - by rewrite (anti_symm bytes_le (Hash.digest a) (Hash.digest b) E1 E2).
  - apply bytes_leb_false in E1. unfold bytes_le in E1. congruence.
Qed.

Fixpoint pair_up (l : list Hash) : list Hash :=
  match l with
  | [] => []
  | [x] => [sorted_pair_hash x x]
  | x :: y :: l => sorted_pair_hash x y :: pair_up l
  end.

(** Two-step induction on lists. *)
Lemma list_ind2 {A} (P : list A → Prop) :
  P [] → (∀ x, P [x]) → (∀ x y l, P l → P (x :: y :: l)) → ∀ l, P l.
Proof.
  intros Hn Hs Hc. enough (∀ l, P l ∧ ∀ x, P (x :: l)) by firstorder.
  induction l as [|y l [IH1 IH2]]; split; auto.
Qed.

Lemma scan_level_next cs l pos paths : (scan_level cs l pos paths).2 = pair_up l.
Proof.
  revert cs paths; induction l as [|x|x y l IH] using list_ind2; intros cs paths; [done..|].
  simpl. specialize (IH (cs + 2) (push_siblings cs x y pos paths)).
  destruct (scan_level _ _ _ _); simpl in *. by rewrite IH.
Qed.

#[local] Arguments Nat.div : simpl never.

Lemma half_SS k : S (S k) / 2 = S (k / 2).
Proof. pose proof (Nat.div_add k 1 2). replace (S (S k)) with (k + 1 * 2) by lia. lia. Qed.

Lemma push_siblings_lookup cs x y pos paths i p pa :
  pos !! i = Some p → paths !! i = Some pa →
  push_siblings cs x y pos paths !! i =
    Some (if (p =? cs)%nat then pa ++ [y] else if (p =? cs + 1)%nat then pa ++ [x] else pa).
Proof.
  intros Hp Hpa. unfold push_siblings. rewrite lookup_zip_with, Hp, Hpa. done.
Qed.

Lemma scan_level_lookup l : ∀ cs pos paths i p pa,
  pos !! i = Some p → paths !! i = Some pa →
  (p < cs → (scan_level cs l pos paths).1 !! i = Some pa) ∧
  (∀ k x, p = cs + k → l !! k = Some x →
     ∃ s, (scan_level cs l pos paths).1 !! i = Some (pa ++ [s]) ∧
          pair_up l !! (k / 2) = Some (sorted_pair_hash x s)).
Proof.
  induction l as [|x|x y l IH] using list_ind2; intros cs pos paths i p pa Hp Hpa.
  - done.
  - simpl. rewrite (push_siblings_lookup _ _ _ _ _ _ _ _ Hp Hpa).
    split; [intros; destruct (Nat.eqb_spec p cs), (Nat.eqb_spec p (cs + 1)); by try lia|].
    intros [|k] z -> Hz; [|done]. simpl in Hz. simplify_eq.
    replace (cs + 0 =? cs)%nat with true by (symmetry; apply Nat.eqb_eq; lia). eauto.
  - pose proof (push_siblings_lookup cs x y _ _ _ _ _ Hp Hpa) as Hpush.
    destruct (IH (cs + 2) _ _ _ _ _ Hp Hpush) as [IH1 IH2].
    simpl. destruct (scan_level (cs + 2) l pos _) as [paths' next] eqn:Hs; simpl in *.
    split.
    + intros Hlt. rewrite IH1 by lia.
      destruct (Nat.eqb_spec p cs), (Nat.eqb_spec p (cs + 1)); by try lia.
    + intros [|[|k]] z -> Hz; simpl in Hz.
      * simplify_eq. exists y. split; [|done]. rewrite IH1 by lia.
        by replace (cs + 0 =? cs)%nat with true by (symmetry; apply Nat.eqb_eq; lia).
      * simplify_eq. exists x. split; [|by rewrite sorted_pair_hash_comm]. rewrite IH1 by lia.
        replace (cs + 1 =? cs)%nat with false by (symmetry; apply Nat.eqb_neq; lia).
        by rewrite Nat.eqb_refl.
      * destruct (IH2 k z) as (s & Hs1 & Hs2); [lia|done|]. exists s.
        replace (cs + S (S k) =? cs)%nat with false in Hs1 by (symmetry; apply Nat.eqb_neq; lia).
        replace (cs + S (S k) =? cs + 1)%nat with false in Hs1 by (symmetry; apply Nat.eqb_neq; lia).
        split; [done|]. by rewrite half_SS.
Qed.

Lemma length_push_siblings cs x y pos paths :
  length pos = length paths → length (push_siblings cs x y pos paths) = length paths.
Proof. intros Hl. unfold push_siblings. rewrite length_zip_with. lia. Qed.

Lemma length_scan_level cs l pos paths :
  length pos = length paths → length (scan_level cs l pos paths).1 = length paths.
Proof.
  revert cs paths; induction l as [|x|x y l IH] using list_ind2; intros cs paths Hl; simpl.
  - done.
  - by apply length_push_siblings.
  - specialize (IH (cs + 2) (push_siblings cs x y pos paths)).
    rewrite length_push_siblings in IH by done. specialize (IH Hl).
    by destruct (scan_level _ _ _ _).
Qed.

Lemma length_pair_up l : length (pair_up l) = (length l + 1) / 2.
Proof.
  induction l as [|x|x y l IH] using list_ind2; [done..|]. cbn [pair_up length]. rewrite IH.
  replace (S (S (length l)) + 1) with (S (S (length l + 1))) by lia. by rewrite half_SS.
Qed.

Lemma pair_up_shrinks l n : 1 < length l → length l ≤ S n → length (pair_up l) ≤ n ∧ 0 < length (pair_up l).
Proof.
  intros H1 H2. rewrite length_pair_up. split.
  - apply Nat.lt_succ_r. apply Nat.Div0.div_lt_upper_bound. lia.
  - apply Nat.div_str_pos. lia.
Qed.

(** ** The loop *)

(** The loop invariant: the path collected so far for leaf [i] folds to the
    node of the current level at the leaf's position. *)
Definition paths_ok (leaves level : list Hash) (pos : list nat) (paths : list (list Hash)) (d : nat)
  : Prop :=
  length pos = length leaves ∧ length paths = length leaves ∧
  ∀ i leaf, leaves !! i = Some leaf →
    ∃ p pa, pos !! i = Some p ∧ paths !! i = Some pa ∧ length pa = d ∧
            level !! p = Some (foldl sorted_pair_hash leaf pa).

Lemma paths_ok_step leaves level pos paths d :
  paths_ok leaves level pos paths d →
  paths_ok leaves (pair_up level) ((λ p, p / 2) <$> pos) (scan_level 0 level pos paths).1 (S d).
Proof.
  intros (Hpos & Hpaths & Hok). split; [|split].
  - by rewrite length_fmap.
  - rewrite length_scan_level; lia.
  - intros i leaf Hleaf. destruct (Hok i leaf Hleaf) as (p & pa & Hp & Hpa & Hd & Hlev).
    destruct (scan_level_lookup level 0 pos paths i p pa Hp Hpa) as [_ Hscan].
    destruct (Hscan p _ eq_refl Hlev) as (s & Hs1 & Hs2).
    exists (p / 2), (pa ++ [s]). rewrite list_lookup_fmap, Hp, length_app, foldl_app. simpl.
    repeat split; [done|lia|done].
Qed.

(** How many levels are left above a level, as the loop counts them. *)
Fixpoint climbs (fuel : nat) (level : list Hash) : option (Hash * nat) :=
  match level, fuel with
  | [r], _ => Some (r, 0)
  | _ :: _ :: _, S fuel => match climbs fuel (pair_up level) with
                           | Some (r, d) => Some (r, S d) | None => None end
  | _, _ => None
  end.

Lemma climbs_fuel fuel level :
  0 < length level → length level ≤ S fuel → is_Some (climbs fuel level).
Proof.
  revert level; induction fuel as [|fuel IH]; intros [|x [|y l]] H1 H2; simpl in *; try lia; eauto.
  assert (is_Some (climbs fuel (sorted_pair_hash x y :: pair_up l))) as [[r d] ->]; [|eauto].
  destruct (pair_up_shrinks (x :: y :: l) (S fuel)) as [Hs _]; simpl in *; [lia..|]. apply IH; simpl; lia.
Qed.

Lemma collapse_climbs fuel level root d :
  climbs fuel level = Some (root, d) →
  ∀ leaves pos paths d0, paths_ok leaves level pos paths d0 →
  ∃ paths', collapse fuel level pos paths = Some ([root], paths') ∧
    length paths' = length leaves ∧
    ∀ i leaf, leaves !! i = Some leaf →
      ∃ pa, paths' !! i = Some pa ∧ length pa = d0 + d ∧ foldl sorted_pair_hash leaf pa = root.
Proof.
  revert level root d; induction fuel as [|fuel IH]; intros [|x [|y l]] root d Hc leaves pos paths d0 Hok;
    simpl in Hc; try done.
  1,2: simplify_eq; exists paths; destruct Hok as (_ & Hl & Hok); split_and!; [done..|];
    intros i leaf (p & pa & Hp & Hpa & Hd & Hlev)%Hok; exists pa;
    destruct p; simpl in Hlev; simplify_eq; split_and!; [done|lia|done].
  destruct (climbs fuel _) as [[r d']|] eqn:Hc'; [|done]. simplify_eq.
  pose proof (paths_ok_step _ _ _ _ _ Hok) as Hok'.
  destruct (IH _ _ _ Hc' _ _ _ _ Hok') as (paths' & Hcol & Hl & Hpa).
  exists paths'. split_and!; [|done|].
  - pose proof (scan_level_next 0 (x :: y :: l) pos paths) as Hn.
    unfold collapse; fold collapse. cbn [length Nat.ltb Nat.leb].
    destruct (scan_level 0 _ _ _) as [ps nx]. simpl in Hn, Hcol. by subst nx.
  - intros i leaf (pa & ? & ? & ?)%Hpa. exists pa. split_and!; [done|lia|done].
Qed.

Lemma paths_ok_init leaves :
  paths_ok leaves leaves (seq 0 (length leaves)) (replicate (length leaves) []) 0.
Proof.
  split; [by rewrite length_seq|]. split; [by rewrite length_replicate|].
  intros i leaf Hi. pose proof (lookup_lt_Some _ _ _ Hi). exists i, [].
  rewrite lookup_seq_lt, lookup_replicate_2 by done. simpl. done.
Qed.

(** ** The whole construction *)

Definition receipt_id (r : Receipt) : Hash := sha256 (encode_to_vec (to_canonical_proto r)).
Definition entry_of (r : Receipt) : N * Hash :=
  (Timestamp.monotonic_ns (Receipt.occurred_at r), receipt_id r).
(** The batch in canonical order. *)
Definition canonical_entries (rs : list Receipt) : list (N * Hash) :=
  merge_sort entry_le (entry_of <$> rs).

Lemma content_address_receipt (r : Receipt) : content_address r = Ok (receipt_id r).
Proof. done. Qed.

Lemma collect_entries rs : collect merkle_entry rs = Ok (entry_of <$> rs).
Proof. by apply collect_total. Qed.

Lemma length_canonical_entries rs : length (canonical_entries rs) = length rs.
Proof. unfold canonical_entries. by rewrite merge_sort_Permutation, length_fmap. Qed.

Lemma leaf_of_zip (leaves : list Hash) (paths : list (list Hash)) :
  length paths = length leaves → LeafProof.leaf <$> zip_with LeafProof.mk leaves paths = leaves.
Proof.
  revert paths; induction leaves as [|x l IH]; intros [|p ps] Hl; simpl in *; try done.
  f_equal. apply IH. lia.
Qed.

(** What a successful construction returns: the leaves in canonical order, and
    one depth for all the paths, each folding to the root. *)
Definition batch_spec (leaves : list Hash) (b : MerkleBatch) : Prop :=
  LeafProof.leaf <$> MerkleBatch.leaves b = leaves ∧
  ∃ d, climbs (length leaves) leaves = Some (MerkleBatch.root b, d) ∧
    ∀ lp, lp ∈ MerkleBatch.leaves b →
      length (LeafProof.path lp) = d ∧
      foldl sorted_pair_hash (LeafProof.leaf lp) (LeafProof.path lp) = MerkleBatch.root b.

Lemma build_merkle_spec rs :
  rs ≠ [] →
  match adjacent_duplicate (canonical_entries rs) with
  | Some id => build_merkle rs =
      Err (ReceiptError.BatchInvalid ("duplicate receipt_id in batch: " +:+ hex (Hash.digest id)))
  | None => ∃ b, build_merkle rs = Ok b ∧ batch_spec (canonical_entries rs).*2 b
  end.
Proof.
  intros Hne. unfold build_merkle. rewrite collect_entries. cbn [rbind].
  fold (canonical_entries rs). pose proof (length_canonical_entries rs) as Hlen.
  destruct rs as [|r0 rs]; [done|].
  destruct (adjacent_duplicate _); [done|].
  remember (canonical_entries (r0 :: rs)).*2 as leaves eqn:Hleaves.
  assert (0 < length leaves) as Hpos.
  { rewrite Hleaves, length_fmap, Hlen. simpl. lia. }
  destruct (climbs_fuel (length leaves) leaves Hpos ltac:(lia)) as [[root d] Hc].
  destruct (collapse_climbs _ _ _ _ Hc _ _ _ _ (paths_ok_init leaves)) as (paths & Hcol & Hl & Hpa).
  assert (∀ lp, lp ∈ zip_with LeafProof.mk leaves paths → length (LeafProof.path lp) = d ∧
            foldl sorted_pair_hash (LeafProof.leaf lp) (LeafProof.path lp) = root) as Hall.
  { intros lp (i & Hi)%list_elem_of_lookup. rewrite lookup_zip_with in Hi.
    destruct (leaves !! i) as [leaf|] eqn:El; simplify_eq/=.
    destruct (Hpa i leaf El) as (pa & Hp & ? & ?). rewrite Hp in Hi. by simplify_eq/=. }
  destruct leaves as [|x [|y l]]; [simpl in Hpos; lia| |].
  - eexists; split; [done|]. simpl in Hc. simplify_eq.
    split; [done|]. exists 0. split; [done|].
    intros lp ->%list_elem_of_singleton. done.
  - rewrite Hcol. eexists; split; [done|]. split; [by apply leaf_of_zip|].
    exists d. split; [done|]. done.
Qed.

Lemma build_merkle_Ok rs b :
  build_merkle rs = Ok b →
  rs ≠ [] ∧ adjacent_duplicate (canonical_entries rs) = None ∧ batch_spec (canonical_entries rs).*2 b.
Proof.
  intros Hb. assert (rs ≠ []) as Hne by (by intros ->).
  pose proof (build_merkle_spec rs Hne) as Hs.
  destruct (adjacent_duplicate _); [by rewrite Hs in Hb|].
  destruct Hs as (b' & Hb' & ?). rewrite Hb' in Hb. by simplify_eq.
Qed.

(** *** Duplicates *)

Lemma entry_of_inj_digest r1 r2 :
  Hash.digest (entry_of r1).2 = Hash.digest (entry_of r2).2 → (entry_of r1).2 = (entry_of r2).2.
Proof. unfold entry_of, receipt_id, sha256. simpl. by intros ->. Qed.

Lemma canonical_entries_sorted rs : StronglySorted entry_le (canonical_entries rs).
Proof. apply StronglySorted_merge_sort; apply _. Qed.

Lemma canonical_entries_elem rs e : e ∈ canonical_entries rs ↔ ∃ r, e = entry_of r ∧ r ∈ rs.
Proof. unfold canonical_entries. rewrite merge_sort_Permutation. apply list_elem_of_fmap. Qed.

(** On the entries of receipts the canonical order is antisymmetric. *)
Lemma entry_le_antisym rs a b :
  a ∈ canonical_entries rs → b ∈ canonical_entries rs → entry_le a b → entry_le b a → a = b.
Proof.
  rewrite !canonical_entries_elem. intros (r1 & -> & _) (r2 & -> & _) H1 H2.
  assert (Hash.digest (entry_of r1).2 = Hash.digest (entry_of r2).2 ∧ (entry_of r1).1 = (entry_of r2).1)
    as [Hd Hn].
  { destruct H1 as [?|[? ?]], H2 as [?|[? ?]]; try lia. split; [by apply (anti_symm bytes_le)|done]. }
  rewrite (surjective_pairing (entry_of r1)), (surjective_pairing (entry_of r2)), Hn.
  by rewrite (entry_of_inj_digest _ _ Hd).
Qed.

Lemma no_adjacent_duplicate_NoDup l :
  (∀ a b, a ∈ l → b ∈ l → entry_le a b → entry_le b a → a = b) →
  StronglySorted entry_le l → adjacent_duplicate l = None → NoDup l.
Proof.
  induction l as [|a [|b l] IH]; intros Hanti Hs Hd; [constructor|by repeat constructor; set_solver|].
  simpl in Hd. case_bool_decide; [done|].
  apply StronglySorted_inv in Hs as [Hs Ha]. constructor.
  - intros Hin. rewrite Forall_forall in Ha.
    assert (a = b) as ->; [|done].
    apply Hanti; [set_solver..|apply Ha; set_solver|].
    apply StronglySorted_inv in Hs as [_ Hb]. rewrite Forall_forall in Hb.
    apply elem_of_cons in Hin as [->|Hin]; [by destruct (total entry_le b b)|by apply Hb].
  - apply IH; [set_solver|done|]. done.
Qed.

Lemma adjacent_duplicate_Some l id :
  adjacent_duplicate l = Some id → ∃ a b, a ∈ l ∧ b ∈ l ∧ a.2 = id ∧ b.2 = id ∧ ¬ NoDup l.*2.
Proof.
  induction l as [|a [|b l] IH]; simpl; try done. case_bool_decide as Hab.
  - intros [= <-]. exists a, b. split_and!; try set_solver.
    intros [Hn _]%NoDup_cons. apply Hn. csimpl. set_solver.
  - intros (x & y & ? & ? & ? & ? & Hn)%IH. exists x, y. split_and!; try set_solver.
    intros [_ Hd]%NoDup_cons. done.
Qed.

(** ** Soundness *)

Lemma app_eq_same_length (a b c d : bytes) :
  length a = length c → a ++ b = c ++ d → a = c ∧ b = d.
Proof. intros Hl Heq. by apply app_inj_1. Qed.

Definition digest32 (h : Hash) : Prop := length (Hash.digest h) = 32.

(** Two pairs with one hash are the same pair, up to a collision. *)
Lemma sorted_pair_hash_inj x s y z :
  digest32 x → digest32 s → digest32 y → digest32 z →
  Hash.digest (sorted_pair_hash x s) = Hash.digest (sorted_pair_hash y z) →
  Hash.digest x = Hash.digest y ∨ Hash.digest x = Hash.digest z ∨ Collision.
Proof.
  unfold digest32, sorted_pair_hash. intros Hx Hs Hy Hz Heq.
  assert (∀ u v, Hash.digest (sha256 u) = Hash.digest (sha256 v) → u = v ∨ Collision) as Hinj.
  { intros u v Huv. apply sha256_eq_collision. unfold sha256 in *. simpl in Huv. by rewrite Huv. }
  destruct (bytes_leb (Hash.digest x) _), (bytes_leb (Hash.digest y) _);
    apply Hinj in Heq as [Heq|]; try (by right; right);
    apply app_eq_same_length in Heq as [? ?]; try lia; auto.
Qed.

Lemma pair_up_elem l h :
  h ∈ pair_up l → ∃ y z, y ∈ l ∧ z ∈ l ∧ h = sorted_pair_hash y z.
Proof.
  induction l as [|x|x y l IH] using list_ind2; simpl; [set_solver| |].
  - intros ->%list_elem_of_singleton. exists x, x. set_solver.
  - intros [->|(u & v & ? & ? & ->)%IH]%elem_of_cons; [exists x, y|exists u, v]; set_solver.
Qed.

Lemma pair_up_digest32 `{!CryptoLaws} l : Forall digest32 (pair_up l).
Proof.
  apply Forall_forall. intros h (y & z & _ & _ & ->)%pair_up_elem.
  unfold sorted_pair_hash, digest32. case_match; apply sha256_length.
Qed.

Lemma climbs_sound `{!CryptoLaws} fuel level root d x path :
  climbs fuel level = Some (root, d) → Forall digest32 level → digest32 x → Forall digest32 path →
  length path = d → foldl sorted_pair_hash x path = root →
  (∃ y, y ∈ level ∧ Hash.digest x = Hash.digest y) ∨ Collision.
Proof.
  revert level root d x path; induction fuel as [|fuel IH];
    intros [|u [|v l]] root d x path Hc Hlev Hx Hpath Hd Hf; simpl in Hc; try done.
  1,2: injection Hc as -> <-; destruct path; [|done]; simpl in Hf; subst; left; exists root; set_solver.
  destruct (climbs fuel _) as [[r d']|] eqn:Hc'; [|done]. injection Hc as -> <-.
  destruct path as [|s path]; [done|]. simpl in Hf. apply Forall_cons in Hpath as [Hs Hpath].
  destruct (IH _ _ _ (sorted_pair_hash x s) path Hc') as [(h & Hh & Heq)|]; [| | | |done| |by right].
  - apply (pair_up_digest32 (u :: v :: l)).
  - unfold sorted_pair_hash, digest32. case_match; apply sha256_length.
  - done.
  - by simplify_eq/=.
  - apply (pair_up_elem (u :: v :: l)) in Hh as (y & z & Hy & Hz & ->).
    rewrite Forall_forall in Hlev.
    destruct (sorted_pair_hash_inj x s y z) as [?|[?|?]]; auto; left; eauto.
Qed.

Lemma receipt_id_digest32 `{!CryptoLaws} r : digest32 (receipt_id r).
Proof. apply sha256_length. Qed.

Lemma canonical_leaves_ids rs : (canonical_entries rs).*2 ≡ₚ receipt_id <$> rs.
Proof. unfold canonical_entries. rewrite merge_sort_Permutation. by rewrite <- list_fmap_compose. Qed.

(** ** Properties *)

(** [C7] Every inclusion proof that [build_merkle] returns verifies: the
    leaf's path folds to the batch's root under [verify_path]. *)
Theorem merkle_paths_verify (rs : list Receipt) (b : MerkleBatch) (lp : LeafProof) :
  build_merkle rs = Ok b → lp ∈ MerkleBatch.leaves b →
  verify_path (LeafProof.leaf lp) (LeafProof.path lp) (MerkleBatch.root b) = true.
Proof.
  intros (_ & _ & _ & d & _ & Hall)%build_merkle_Ok Hlp. apply bool_decide_eq_true.
  by apply Hall.
Qed.

(** A batch is accepted exactly when it should be: a non-empty batch of
    receipts with distinct ids yields a tree (the loop ends and the root
    exists); and whenever a tree is returned, the batch was non-empty, no
    receipt occurred twice, and the leaves are the receipts' content addresses
    sorted by (monotonic_ns, digest). *)
Lemma merkle_outcome (rs : list Receipt) :
  (rs ≠ [] → NoDup (receipt_id <$> rs) → ∃ b, build_merkle rs = Ok b) ∧
  (∀ b, build_merkle rs = Ok b →
     rs ≠ [] ∧ NoDup (entry_of <$> rs) ∧
     (LeafProof.leaf <$> MerkleBatch.leaves b) ≡ₚ receipt_id <$> rs ∧
     ∃ es, (LeafProof.leaf <$> MerkleBatch.leaves b) = es.*2 ∧ es ≡ₚ entry_of <$> rs ∧
           StronglySorted entry_le es).
Proof.
  split.
  - intros Hne Hnd. pose proof (build_merkle_spec rs Hne) as Hs.
    destruct (adjacent_duplicate _) as [id|] eqn:Hd; [|naive_solver].
    apply adjacent_duplicate_Some in Hd as (? & ? & _ & _ & _ & _ & Hn).
    destruct Hn. by rewrite canonical_leaves_ids.
  - intros b (Hne & Hd & Hl & _)%build_merkle_Ok. split; [done|].
    split; [|split; [rewrite Hl; apply canonical_leaves_ids|]].
    + assert (entry_of <$> rs ≡ₚ canonical_entries rs) as -> by (symmetry; apply merge_sort_Permutation).
      apply no_adjacent_duplicate_NoDup; [apply entry_le_antisym|apply canonical_entries_sorted|done].
    + exists (canonical_entries rs). split; [done|].
      split; [apply merge_sort_Permutation|apply canonical_entries_sorted].
Qed.

(** The tree does not depend on the order in which the receipts are
    handed over: root, leaf order, paths and even the error are the same for
    every permutation of the batch. *)
Lemma merkle_order_independent (rs rs' : list Receipt) :
  rs ≡ₚ rs' → build_merkle rs = build_merkle rs'.
Proof.
  intros Hp.
  assert (canonical_entries rs = canonical_entries rs') as Heq.
  { apply (StronglySorted_unique_strong entry_le); try apply canonical_entries_sorted.
    - intros a b Ha Hb. apply (entry_le_antisym rs); [done|].
      unfold canonical_entries in *. rewrite merge_sort_Permutation in *. by rewrite Hp.
    - unfold canonical_entries. by rewrite !merge_sort_Permutation, Hp. }
  unfold build_merkle. rewrite !collect_entries. cbn [rbind].
  change (merge_sort entry_le (entry_of <$> rs)) with (canonical_entries rs).
  change (merge_sort entry_le (entry_of <$> rs')) with (canonical_entries rs').
  rewrite Heq. destruct rs as [|r rs], rs' as [|r' rs']; try done.
  - by apply Permutation_nil_l in Hp.
  - by apply Permutation_nil_r in Hp.
Qed.

(** A path of the batch's depth convinces [verify_path] only for a
    receipt of the batch: if any 32-byte hash verifies against the root with a
    path as long as the batch's own paths, its digest is the digest of one of
    the leaves, or two different inputs with one SHA-256 digest exist. *)
Lemma merkle_path_sound `{!CryptoLaws} (rs : list Receipt) (b : MerkleBatch) (lp : LeafProof)
  (x : Hash) (path : list Hash) :
  build_merkle rs = Ok b → lp ∈ MerkleBatch.leaves b →
  length path = length (LeafProof.path lp) →
  digest32 x → Forall digest32 path →
  verify_path x path (MerkleBatch.root b) = true →
  (∃ r, r ∈ rs ∧ Hash.digest x = Hash.digest (receipt_id r)) ∨ Collision.
Proof.
  intros (_ & _ & _ & d & Hc & Hall)%build_merkle_Ok Hlp Hlen Hx Hpath Hv%bool_decide_eq_true.
  destruct (Hall lp Hlp) as [Hd _].
  assert (∀ h, h ∈ (canonical_entries rs).*2 → ∃ r, h = receipt_id r ∧ r ∈ rs) as Hids.
  { intros h. rewrite canonical_leaves_ids. apply list_elem_of_fmap. }
  assert (Forall digest32 (canonical_entries rs).*2) as Hlev.
  { apply Forall_forall. intros h (r & -> & _)%Hids. apply receipt_id_digest32. }
  destruct (climbs_sound _ _ _ _ x path Hc Hlev Hx Hpath) as [(y & Hy & Heq)|];
    [lia|done| |by right].
  - left. destruct (Hids y Hy) as (r & -> & ?). eauto.
Qed.

(** Leaves and inner nodes are hashed alike: in a batch of four, the hash
    of the first two leaves, which is the id of no receipt, also verifies
    against the root, with the one-element path of its sibling node. *)
Lemma merkle_inner_node_verifies (rs : list Receipt) (b : MerkleBatch) (l0 l1 l2 l3 : Hash) :
  build_merkle rs = Ok b →
  (LeafProof.leaf <$> MerkleBatch.leaves b) = [l0; l1; l2; l3] →
  verify_path (sorted_pair_hash l0 l1) [sorted_pair_hash l2 l3] (MerkleBatch.root b) = true.
Proof.
  intros (_ & _ & Hl & d & Hc & _)%build_merkle_Ok Hleaves.
  rewrite <- Hl, Hleaves in Hc. simpl in Hc. injection Hc as Hr _.
  apply bool_decide_eq_true. by rewrite <- Hr.
Qed.

End merkle.

(** ** Witnesses *)

Module MerkleToy.
#[global] Instance encode : Encode rproto.Receipt :=
  λ p, be_bytes 8 (match rproto.Receipt_occurred_at p with
                   | Some t => proto.Timestamp_monotonic_ns t | None => 0%N end)
       ++ as_bytes (rproto.Receipt_action_kind p)
       ++ match rproto.Receipt_actor p with Some a => proto.AgentId_value a | None => [] end.
Definition swarm : SwarmId := SwarmId.mk (replicate 16 "001"%byte).
Definition agent (n : N) : AgentId := AgentId.mk (byte_of n :: replicate 15 "000"%byte).
Definition receipt (ns seed : N) (kind : string) : Receipt :=
  Receipt.mk (SpecVersion.mk "1.0.0") swarm (agent seed) kind CausalRef.empty
    [Evidence.new "k" "test/type" [byte_of seed]] "1.0.0" None (Timestamp.mk "0" ns)
    SealStatus.unsealed [].
Definition batch4 : list Receipt :=
  [receipt 300 3 "a"; receipt 100 1 "b"; receipt 200 2 "a"; receipt 100 4 "b"].
Definition batch3 : list Receipt := take 3 batch4.
Definition built (rs : list Receipt) : MerkleBatch :=
  match build_merkle rs with Ok b => b | Err _ => MerkleBatch.mk (sha256 []) [] end.
Definition proof (i : nat) (rs : list Receipt) : LeafProof :=
  default (LeafProof.mk (sha256 []) []) (MerkleBatch.leaves (built rs) !! i).
End MerkleToy.

Lemma built_Ok rs : is_ok (build_merkle rs) = true → build_merkle rs = Ok (MerkleToy.built rs).
Proof. unfold MerkleToy.built. by destruct (build_merkle rs). Qed.

Lemma merkle_paths_verify_witness :
  verify_path (LeafProof.leaf (MerkleToy.proof 1 MerkleToy.batch3))
    (LeafProof.path (MerkleToy.proof 1 MerkleToy.batch3))
    (MerkleBatch.root (MerkleToy.built MerkleToy.batch3)) = true.
Proof.
  apply (merkle_paths_verify MerkleToy.batch3).
  - vm_compute. reflexivity.
  - apply list_elem_of_lookup. exists 1. vm_compute. reflexivity.
Defined.

Lemma merkle_order_independent_witness :
  build_merkle MerkleToy.batch4 = build_merkle (reverse MerkleToy.batch4).
Proof. apply merkle_order_independent. symmetry. apply reverse_Permutation. Defined.

Lemma merkle_path_sound_witness :
  (∃ r, r ∈ MerkleToy.batch4 ∧
     Hash.digest (LeafProof.leaf (MerkleToy.proof 2 MerkleToy.batch4)) = Hash.digest (receipt_id r))
  ∨ Collision.
Proof.
  apply (merkle_path_sound MerkleToy.batch4 (MerkleToy.built MerkleToy.batch4)
           (MerkleToy.proof 2 MerkleToy.batch4)
           (LeafProof.leaf (MerkleToy.proof 2 MerkleToy.batch4))
           (LeafProof.path (MerkleToy.proof 2 MerkleToy.batch4))).
  - vm_compute. reflexivity.
  - apply list_elem_of_lookup. exists 2. vm_compute. reflexivity.
  - reflexivity.
  - vm_compute. reflexivity.
  - vm_compute. repeat constructor.
  - vm_compute. reflexivity.
Defined.

Lemma merkle_inner_node_verifies_witness :
  let l i := LeafProof.leaf (MerkleToy.proof i MerkleToy.batch4) in
  verify_path (sorted_pair_hash (l 0) (l 1)) [sorted_pair_hash (l 2) (l 3)]
    (MerkleBatch.root (MerkleToy.built MerkleToy.batch4)) = true
  ∧ sorted_pair_hash (l 0) (l 1) ∉ receipt_id <$> MerkleToy.batch4.
Proof.
  split.
  - apply (merkle_inner_node_verifies MerkleToy.batch4); vm_compute; reflexivity.
  - apply (bool_decide_unpack _). vm_compute. exact I.
Defined.
