(* ===== verification/Preimage.v ===== *)
(** * [yutha-receipt/src/preimage.rs]: the byte string an anchor signature covers

    The encoder with its checks in the code's order.  It accepts exactly the
    documented inputs, and no two different inputs have the same bytes. *)

From S2P Require Import Prelude RustStd Core CoreProto Crypto ReceiptTypes.

(* yutha-receipt/src/preimage.rs:46-46 MAX_ACTION_KIND_LEN *)
Definition MAX_ACTION_KIND_LEN : N := 255.

Definition str_len (s : string) : N := N.of_nat (String.length s).

(* yutha-receipt/src/preimage.rs:84-107 canonical_preimage (checking the entries) *)
Fixpoint histogram_sum (acc : N) (entries : list (string * N)) : Result N ReceiptError :=
  match entries with
  | [] => Ok acc
  | (kind, k_count) :: entries =>
      if (str_len kind =? 0)%N then
        Err (ReceiptError.BatchInvalid "action_kind keys must be non-empty")
      else if (MAX_ACTION_KIND_LEN <? str_len kind)%N then
        Err (ReceiptError.BatchInvalid
               ("action_kind " +:+ debug_str kind +:+ " exceeds " +:+ show_N MAX_ACTION_KIND_LEN
                +:+ "-byte limit (got " +:+ show_N (str_len kind) +:+ " bytes)"))
      else if (k_count =? 0)%N then
        Err (ReceiptError.BatchInvalid
               ("histogram value for action_kind " +:+ debug_str kind
                +:+ " is zero; zero-count entries MUST NOT be encoded"))
      else
        let? acc := ok_or (u64_checked_add acc k_count)
                      (ReceiptError.BatchInvalid "histogram sum overflows u64") in
        histogram_sum acc entries
  end.

(* yutha-receipt/src/preimage.rs:141-147 canonical_preimage (one entry) *)
Definition entry_bytes (e : string * N) : bytes :=
  [byte_of (str_len e.1)] ++ as_bytes e.1 ++ be_bytes 8 e.2.

(* yutha-receipt/src/preimage.rs:61-150 canonical_preimage *)
Definition canonical_preimage (swarm_id : SwarmId) (batch_root : Hash)
  (count ns_range_start ns_range_end : N) (histogram : gmap string N)
  : Result bytes ReceiptError :=
  let? _ := map_err ReceiptError.Core (Hash.validate batch_root) in
  if (ns_range_end <? ns_range_start)%N then
    Err (ReceiptError.BatchInvalid
           ("ns_range_start (" +:+ show_N ns_range_start +:+ ") > ns_range_end ("
            +:+ show_N ns_range_end +:+ ")"))
  else if bool_decide (histogram = ∅) then
    Err (ReceiptError.BatchInvalid "histogram must be non-empty")
  else
    let? sum := histogram_sum 0 (btree_iter histogram) in
    if negb (sum =? count)%N then
      Err (ReceiptError.BatchInvalid
             ("histogram values sum to " +:+ show_N sum +:+ " but count is " +:+ show_N count))
    else
      let n := N.of_nat (size histogram) in
      let? entry_count := ok_or (if is_u32 n then Some n else None)
          (ReceiptError.BatchInvalid
             ("histogram has more than u32::MAX entries (" +:+ show_N n +:+ ")")) in
      Ok (SwarmId.as_bytes swarm_id ++ Hash.digest batch_root ++ be_bytes 8 count
          ++ be_bytes 8 ns_range_start ++ be_bytes 8 ns_range_end ++ be_bytes 4 entry_count
          ++ mjoin (entry_bytes <$> btree_iter histogram)).

#[local] Arguments be_bytes : simpl never.

(** ** Lemmas *)

Definition entry_ok (e : string * N) : Prop :=
  (0 < str_len e.1 <= MAX_ACTION_KIND_LEN)%N ∧ (0 < e.2)%N.
Definition sum_counts (l : list (string * N)) : N := foldr (λ e acc, e.2 + acc)%N 0%N l.

Lemma u64_checked_add_Some x y z :
  u64_checked_add x y = Some z ↔ z = (x + y)%N ∧ (x + y <= u64_max)%N.
Proof.
  unfold u64_checked_add, is_u64. destruct (N.leb_spec (x + y) u64_max).
  - split; [by intros [= <-]|by intros [-> _]].
  - split; [done|]. intros [_ ?]. lia.
Qed.

Lemma histogram_sum_Ok acc l s :
  (acc <= u64_max)%N →
  histogram_sum acc l = Ok s ↔
    Forall entry_ok l ∧ s = (acc + sum_counts l)%N ∧ (acc + sum_counts l <= u64_max)%N.
Proof.
  revert acc; induction l as [|[k c] l IH]; intros acc Hacc; simpl.
  - split; [intros [= <-]; split_and!; [constructor|lia..]|intros (_ & -> & _); f_equal; lia].
  - rewrite Forall_cons. unfold entry_ok at 1; simpl. unfold MAX_ACTION_KIND_LEN.
    destruct (N.eqb_spec (str_len k) 0); [split; [done|lia]|].
    destruct (N.ltb_spec 255 (str_len k)); [split; [done|lia]|].
    destruct (N.eqb_spec c 0); [split; [done|lia]|].
    rewrite rbind_Ok. setoid_rewrite ok_or_Ok. setoid_rewrite u64_checked_add_Some. split.
    + intros (z & [-> Hz] & HR). apply IH in HR as (? & -> & ?); [|lia].
      split_and!; try lia; done.
    + intros ((_ & ?) & -> & ?). exists (acc + c)%N. split; [lia|].
      apply IH; [lia|]. split_and!; [done|lia|lia].
Qed.

Lemma entry_bytes_app_inj (e1 e2 : string * N) (t1 t2 : bytes) :
  entry_ok e1 → entry_ok e2 → (e1.2 <= u64_max)%N → (e2.2 <= u64_max)%N →
  entry_bytes e1 ++ t1 = entry_bytes e2 ++ t2 → e1 = e2 ∧ t1 = t2.
Proof.
  destruct e1 as [k1 c1], e2 as [k2 c2]. unfold entry_ok, entry_bytes, MAX_ACTION_KIND_LEN; simpl.
  intros [Hk1 _] [Hk2 _] Hc1 Hc2 Heq. injection Heq as Hb Heq.
  apply (f_equal Byte.to_N) in Hb. rewrite !byte_of_to_N, !N.mod_small in Hb by lia.
  rewrite <- !app_assoc in Heq.
  apply app_inj_1 in Heq as [Hk Heq]; [|rewrite !length_as_bytes; unfold str_len in Hb; lia].
  apply app_inj_1 in Heq as [Hc ->]; [|by rewrite !length_be_bytes].
  apply as_bytes_inj in Hk as ->. split; [|done]. f_equal.
  apply (be_bytes_inj 8); [..|done]; unfold u64_max in *; lia.
Qed.

Lemma sum_counts_elem l e : e ∈ l → (e.2 <= sum_counts l)%N.
Proof. induction 1; simpl; lia. Qed.

Lemma entries_bytes_inj l1 l2 :
  Forall entry_ok l1 → Forall entry_ok l2 →
  Forall (λ e, (e.2 <= u64_max)%N) l1 → Forall (λ e, (e.2 <= u64_max)%N) l2 →
  length l1 = length l2 → mjoin (entry_bytes <$> l1) = mjoin (entry_bytes <$> l2) → l1 = l2.
Proof.
  intros H1. revert l2; induction H1 as [|e1 l1 He1 Hl1 IH]; intros [|e2 l2] H2 Hb1 Hb2 Hlen Heq;
    simpl in Hlen; try done.
  apply Forall_cons in H2 as [He2 H2], Hb1 as [? Hb1], Hb2 as [? Hb2].
  apply (entry_bytes_app_inj e1 e2) in Heq as [-> Heq]; [|done..]. f_equal.
  apply IH; auto.
Qed.

Lemma histogram_bounds (histogram : gmap string N) s :
  histogram_sum 0 (btree_iter histogram) = Ok s →
  Forall entry_ok (btree_iter histogram) ∧
  Forall (λ e, (e.2 <= u64_max)%N) (btree_iter histogram) ∧
  s = sum_counts (btree_iter histogram) ∧ (s <= u64_max)%N.
Proof.
  intros Hs. apply histogram_sum_Ok in Hs as (Hok & -> & Hmax); [|unfold u64_max; lia].
  split_and!; [done| |lia|lia]. apply Forall_forall. intros e He.
  pose proof (sum_counts_elem _ _ He). lia.
Qed.

Lemma hash_validate_Ok h : Hash.validate h = Ok tt ↔ Hash.wf h.
Proof.
  unfold Hash.validate, Hash.wf. destruct (N.eqb_spec (len (Hash.digest h))
    (HashAlgorithm.digest_len (Hash.algorithm h))); simpl; naive_solver.
Qed.

(** The conditions under which a preimage exists, and what it then is. *)
Definition preimage_ok (batch_root : Hash) (count ns_start ns_end : N) (histogram : gmap string N)
  : Prop :=
  Hash.wf batch_root ∧ (ns_start <= ns_end)%N ∧ histogram ≠ ∅ ∧
  Forall entry_ok (btree_iter histogram) ∧ count = sum_counts (btree_iter histogram) ∧
  (count <= u64_max)%N ∧ (N.of_nat (size histogram) <= u32_max)%N.

Definition preimage_bytes (swarm_id : SwarmId) (batch_root : Hash) (count ns_start ns_end : N)
  (histogram : gmap string N) : bytes :=
  SwarmId.as_bytes swarm_id ++ Hash.digest batch_root ++ be_bytes 8 count
  ++ be_bytes 8 ns_start ++ be_bytes 8 ns_end ++ be_bytes 4 (N.of_nat (size histogram))
  ++ mjoin (entry_bytes <$> btree_iter histogram).

Lemma canonical_preimage_Ok sw root count s e h b :
  canonical_preimage sw root count s e h = Ok b ↔
  preimage_ok root count s e h ∧ b = preimage_bytes sw root count s e h.
Proof.
  unfold canonical_preimage, preimage_ok. rewrite rbind_Ok. setoid_rewrite map_err_Ok.
  split.
  - intros ([] & Hv%hash_validate_Ok & H).
    destruct (N.ltb_spec e s); [done|]. case_bool_decide as Hne; [done|].
    apply rbind_Ok in H as (sum & Hsum & H).
    destruct (N.eqb_spec sum count) as [->|]; [|done]. simpl in H.
    apply rbind_Ok in H as (n & Hn%ok_or_Ok & [= <-]).
    unfold is_u32 in Hn. destruct (N.leb_spec (N.of_nat (size h)) u32_max); [|done].
    injection Hn as <-. apply histogram_bounds in Hsum as (? & _ & ? & ?). naive_solver.
  - intros ((Hv & Hse & Hne & Hok & -> & Hmax & Hsz) & ->).
    exists tt. split; [by apply hash_validate_Ok|].
    destruct (N.ltb_spec e s); [lia|]. rewrite bool_decide_eq_false_2 by done.
    rewrite (proj2 (histogram_sum_Ok 0 _ (sum_counts (btree_iter h)) ltac:(unfold u64_max; lia)))
      by (split_and!; [done|lia|lia]).
    cbn [rbind]. rewrite N.eqb_refl. simpl. unfold is_u32.
    destruct (N.leb_spec (N.of_nat (size h)) u32_max); [done|lia].
Qed.

(** ** Properties *)

(** [C18] The signed preimage is an injective encoding: two batches (with
    16-byte swarm ids and u64 range bounds) that encode to the same bytes have
    the same swarm, the same root digest, the same count and range, and the
    same histogram. *)
Theorem preimage_injective (sw1 sw2 : SwarmId) (r1 r2 : Hash) (c1 c2 s1 s2 e1 e2 : N)
  (h1 h2 : gmap string N) (b : bytes) :
  uuid_wf (SwarmId.uuid sw1) → uuid_wf (SwarmId.uuid sw2) →
  (e1 <= u64_max)%N → (e2 <= u64_max)%N →
  canonical_preimage sw1 r1 c1 s1 e1 h1 = Ok b →
  canonical_preimage sw2 r2 c2 s2 e2 h2 = Ok b →
  sw1 = sw2 ∧ Hash.digest r1 = Hash.digest r2 ∧ c1 = c2 ∧ s1 = s2 ∧ e1 = e2 ∧ h1 = h2.
Proof.
  intros Hu1 Hu2 He1 He2 [P1 ->]%canonical_preimage_Ok [P2 Heq]%canonical_preimage_Ok.
  destruct P1 as (Hr1 & Hse1 & _ & Hok1 & Hc1 & Hm1 & Hz1), P2 as (Hr2 & Hse2 & _ & Hok2 & Hc2 & Hm2 & Hz2).
  assert (∀ r, Hash.wf r → length (Hash.digest r) = 32) as Hlen.
  { intros [[] d]; unfold Hash.wf, len; simpl; lia. }
  assert (∀ x, (x <= u64_max)%N → (x < 256 ^ N.of_nat 8)%N) as H8 by (unfold u64_max; lia).
  assert (∀ x, (x <= u32_max)%N → (x < 256 ^ N.of_nat 4)%N) as H4 by (unfold u32_max; lia).
  unfold preimage_bytes in Heq.
  apply app_inj_1 in Heq as [Hsw Heq]; [|unfold SwarmId.as_bytes, uuid_wf in *; congruence].
  apply app_inj_1 in Heq as [Hd Heq]; [|rewrite !Hlen; done].
  do 4 (apply app_inj_1 in Heq as [?Hx Heq]; [|by rewrite !length_be_bytes]).
  apply be_bytes_inj in Hx; [|apply H8; lia..]. apply be_bytes_inj in Hx0; [|apply H8; lia..].
  apply be_bytes_inj in Hx1; [|apply H8; lia..]. apply be_bytes_inj in Hx2; [|apply H4; lia..].
  split; [by destruct sw1, sw2; simpl in *; f_equal|].
  split_and!; [done..|]. apply btree_iter_inj.
  apply entries_bytes_inj; [done|done| | |rewrite !length_btree_iter; lia|done];
    apply Forall_forall; intros x Hx'; apply sum_counts_elem in Hx'; lia.
Qed.

(** A preimage is produced exactly for the inputs the encoder documents:
    a digest of the declared length, an ordered range, a non-empty histogram
    whose kinds are 1 to 255 bytes long with non-zero counts that sum, without
    overflowing 64 bits, to the count.  It is then 76 bytes plus 9 bytes and
    the kind for each entry. *)
Lemma preimage_accepts (sw : SwarmId) (root : Hash) (count s e : N) (h : gmap string N) :
  (is_ok (canonical_preimage sw root count s e h) = true ↔ preimage_ok root count s e h) ∧
  (∀ b, canonical_preimage sw root count s e h = Ok b → uuid_wf (SwarmId.uuid sw) →
        len b = foldr (λ x acc, (9 + str_len x.1 + acc)%N) 76%N (btree_iter h)).
Proof.
  split.
  - split; [|intros Hok; by rewrite (proj2 (canonical_preimage_Ok _ _ _ _ _ _ _) (conj Hok eq_refl))].
    destruct (canonical_preimage _ _ _ _ _ _) eqn:E; [|done]. by apply canonical_preimage_Ok in E as [? _].
  - intros b [Hok ->]%canonical_preimage_Ok Hu. unfold preimage_bytes, len.
    destruct Hok as (Hr & _). assert (length (Hash.digest root) = 32) as Hd.
    { destruct root as [[] d]; unfold Hash.wf, len in Hr; simpl in *; lia. }
    rewrite !length_app, !length_be_bytes, Hd. unfold SwarmId.as_bytes. rewrite Hu.
    induction (btree_iter h) as [|x l IH]; [done|]. csimpl.
    rewrite !length_app, length_as_bytes, length_be_bytes. unfold str_len in *. lia.
Qed.

Lemma preimage_injective_witness :
  let sw := SwarmId.mk (replicate 16 "001"%byte) in
  let root := Hash.mk HashAlgorithm.Sha256 (replicate 32 "002"%byte) in
  let h := <["envelope.send":=2%N]> (<["agent.register":=1%N]> ∅) : gmap string N in
  sw = sw ∧ Hash.digest root = Hash.digest root ∧ 3%N = 3%N ∧ 5%N = 5%N ∧ 9%N = 9%N ∧ h = h.
Proof.
  intros sw root h.
  refine (preimage_injective sw sw root root 3 3 5 5 9 9 h h
    (preimage_bytes sw root 3 5 9 h) _ _ _ _ _ _); vm_compute; done.
Defined.
