(* ===== verification/Sealer.v ===== *)
(** * [yutha-receipt/src/sealer.rs]: sealing a batch of receipts

    [LocalSealer] builds the Merkle batch, the histogram of action kinds and
    the range of occurrence times.  [compute_histogram_sum] and
    [sealed_batch_preimage] tie the sealer to the preimage encoder: what the
    sealer reports is what [canonical_preimage] accepts. *)

From S2P Require Import Prelude RustStd Core CoreProto Crypto ReceiptTypes ReceiptProto Merkle Preimage.

Module SealedBatch.
(* yutha-receipt/src/sealer.rs:42-69 SealedBatch *)
Record SealedBatch := mk {
  batch_root : Hash; leaves : list LeafProof; sealed_at : Timestamp;
  action_kind_histogram : gmap string N; ns_range : N * N; commitment_id : bytes }.
End SealedBatch.
Notation SealedBatch := SealedBatch.SealedBatch.

Module SealError.
(* yutha-receipt/src/sealer.rs:78-108 SealError *)
Inductive SealError :=
| EmptyBatch
| Merkle (msg : string)
| Preimage (msg : string)
| Transient (msg : string)
| Permanent (msg : string)
| Signing (msg : string).
#[global] Instance SealError_eq_dec : EqDecision SealError.
Proof. solve_decision. Defined.
(* yutha-receipt/src/sealer.rs:110-122 From<ReceiptError> for SealError *)
Definition from (e : ReceiptError) : SealError :=
  match e with
  | ReceiptError.BatchInvalid msg => Merkle msg
  | other => Permanent (ReceiptError.to_string other)
  end.
End SealError.
Notation SealError := SealError.SealError.

(** [*hist.entry(kind).or_insert(0) += 1] on a [u64]. *)
Definition bump (kind : string) (hist : gmap string N) : gmap string N :=
  <[kind := u64_wrap (default 0%N (hist !! kind) + 1)]> hist.

(* yutha-receipt/src/sealer.rs:215-221 compute_histogram *)
Definition compute_histogram (receipts : list Receipt) : gmap string N :=
  foldl (λ hist r, bump (Receipt.action_kind r) hist) ∅ receipts.

Definition ns_of (r : Receipt) : N := Timestamp.monotonic_ns (Receipt.occurred_at r).

Definition earlier (a b : Receipt) : Prop := (ns_of a <= ns_of b)%N.
#[global] Instance earlier_dec : RelDecision earlier.
Proof. intros a b. unfold earlier. apply _. Defined.
(** [receipts.sort_by_key(|r| r.occurred_at.monotonic_ns)], which is stable. *)
Definition sort_by_ns (l : list Receipt) : list Receipt := merge_sort earlier l.

Lemma sort_by_ns_sorted l : StronglySorted earlier (sort_by_ns l).
Proof.
  assert (Transitive earlier) by (intros x y z; unfold earlier; lia).
  assert (Total earlier) by (intros x y; unfold earlier; lia).
  apply StronglySorted_merge_sort; apply _.
Qed.

(* yutha-receipt/src/sealer.rs:227-233 compute_ns_range *)
Definition compute_ns_range (receipts : list Receipt) : option (N * N) :=
  match receipts with
  | [] => None (* the [expect] panics; the only caller checks first *)
  | first :: rest =>
      Some (foldl (λ '(lo, hi) v, (N.min lo v, N.max hi v)) (ns_of first, ns_of first)
              (ns_of <$> rest))
  end.

Section sealer.
Context `{CryptoOps} `{Encode rproto.Receipt}.

(* yutha-receipt/src/sealer.rs:185-205 LocalSealer::seal_batch *)
Definition seal_batch (now : Timestamp) (receipts : list Receipt) : Result SealedBatch SealError :=
  match receipts with
  | [] => Err SealError.EmptyBatch
  | _ =>
      let? batch := map_err SealError.from (build_merkle receipts) in
      let histogram := compute_histogram receipts in
      match compute_ns_range receipts with
      | Some ns_range =>
          Ok (SealedBatch.mk (MerkleBatch.root batch) (MerkleBatch.leaves batch) now histogram
                ns_range [])
      | None => Err SealError.EmptyBatch (* not reached: the batch is non-empty *)
      end
  end.

(** ** The histogram *)

Definition count_kind (k : string) (rs : list Receipt) : N :=
  N.of_nat (length (filter (λ r, Receipt.action_kind r = k) rs)).

Lemma count_kind_cons k r rs :
  count_kind k (r :: rs) =
    ((if decide (Receipt.action_kind r = k) then 1 else 0) + count_kind k rs)%N.
Proof. unfold count_kind. rewrite filter_cons. case_decide; simpl; lia. Qed.

Lemma count_kind_le k rs : (count_kind k rs <= N.of_nat (length rs))%N.
Proof. unfold count_kind. pose proof (length_filter (λ r, Receipt.action_kind r = k) rs). lia. Qed.

Lemma histogram_fold rs (m : gmap string N) k :
  (default 0 (m !! k) + N.of_nat (length rs) <= u64_max)%N →
  foldl (λ hist r, bump (Receipt.action_kind r) hist) m rs !! k =
    if (count_kind k rs =? 0)%N then m !! k else Some (default 0 (m !! k) + count_kind k rs)%N.
Proof.
  revert m; induction rs as [|r rs IH]; intros m Hb; [done|]. simpl.
  rewrite count_kind_cons. simpl in Hb. pose proof (count_kind_le k rs) as Hle.
  unfold u64_max in *.
  assert (default 0 (bump (Receipt.action_kind r) m !! k) =
    default 0 (m !! k) + if decide (Receipt.action_kind r = k) then 1 else 0)%N as Hd.
  { unfold bump. case_decide as Hk; [|rewrite lookup_insert_ne by done; lia].
    subst. rewrite lookup_insert_eq. simpl. unfold u64_wrap. rewrite N.mod_small; lia. }
  rewrite IH; [|rewrite Hd; case_decide; lia]. rewrite Hd.
  destruct (decide (Receipt.action_kind r = k)) as [->|Hk].
  - unfold bump. rewrite lookup_insert_eq.
    destruct (N.eqb_spec (count_kind k rs) 0) as [Hz|].
    + rewrite Hz. simpl. f_equal. unfold u64_wrap. rewrite N.mod_small; lia.
    + destruct (N.eqb_spec (1 + count_kind k rs) 0); [lia|]. f_equal. lia.
  - rewrite !N.add_0_r, !N.add_0_l. destruct (N.eqb_spec (count_kind k rs) 0); [|done].
    unfold bump. by rewrite lookup_insert_ne.
Qed.

(** The histogram maps a kind to its number of receipts, and only kinds that occur. *)
Lemma histogram_lookup rs k :
  (N.of_nat (length rs) <= u64_max)%N →
  compute_histogram rs !! k = if (count_kind k rs =? 0)%N then None else Some (count_kind k rs).
Proof.
  intros Hb. unfold compute_histogram. rewrite histogram_fold by (rewrite lookup_empty; simpl; lia).
  rewrite lookup_empty. by destruct (_ =? _)%N.
Qed.

Lemma sum_counts_perm l1 l2 : l1 ≡ₚ l2 → sum_counts l1 = sum_counts l2.
Proof. unfold sum_counts. induction 1; simpl; lia. Qed.

Lemma sum_counts_insert (m : gmap string N) k v :
  (sum_counts (map_to_list (<[k:=v]> m)) + default 0 (m !! k) =
   sum_counts (map_to_list m) + v)%N.
Proof.
  destruct (m !! k) as [w|] eqn:E; simpl.
  - rewrite <- (insert_delete_id m k w E) at 2. rewrite <- insert_delete_eq.
    rewrite !(sum_counts_perm _ _ (map_to_list_insert (delete k m) k _ (lookup_delete_eq m k))).
    simpl. lia.
  - rewrite (sum_counts_perm _ _ (map_to_list_insert m k v E)). simpl. lia.
Qed.

Lemma histogram_sum_fold rs (m : gmap string N) :
  (sum_counts (map_to_list m) + N.of_nat (length rs) <= u64_max)%N →
  sum_counts (map_to_list (foldl (λ hist r, bump (Receipt.action_kind r) hist) m rs)) =
    (sum_counts (map_to_list m) + N.of_nat (length rs))%N.
Proof.
  revert m; induction rs as [|r rs IH]; intros m Hb; simpl; [lia|]. simpl in Hb.
  assert (sum_counts (map_to_list (bump (Receipt.action_kind r) m)) =
          sum_counts (map_to_list m) + 1)%N as Hs; [|rewrite IH; lia].
  assert (default 0 (m !! Receipt.action_kind r) <= sum_counts (map_to_list m))%N as Hle.
  { destruct (m !! Receipt.action_kind r) as [w|] eqn:E; simpl; [|lia].
    apply (sum_counts_elem _ (Receipt.action_kind r, w)). by apply elem_of_map_to_list. }
  unfold bump, u64_max, u64_wrap in *. rewrite N.mod_small by lia.
  pose proof (sum_counts_insert m (Receipt.action_kind r)
                (default 0 (m !! Receipt.action_kind r) + 1)%N). lia.
Qed.

Lemma compute_histogram_sum rs :
  (N.of_nat (length rs) <= u64_max)%N →
  sum_counts (btree_iter (compute_histogram rs)) = N.of_nat (length rs).
Proof.
  intros Hb. rewrite (sum_counts_perm _ _ (btree_iter_perm _)). unfold compute_histogram.
  rewrite histogram_sum_fold; rewrite map_to_list_empty; simpl; lia.
Qed.

(** ** The range of occurrence times *)

Lemma ns_range_fold (l : list N) lo hi :
  (lo <= hi)%N →
  let '(lo', hi') := foldl (λ '(lo, hi) v, (N.min lo v, N.max hi v)) (lo, hi) l in
  (lo' <= lo)%N ∧ (hi <= hi')%N ∧ Forall (λ v, lo' <= v <= hi')%N l ∧
  (lo' = lo ∨ lo' ∈ l) ∧ (hi' = hi ∨ hi' ∈ l).
Proof.
  revert lo hi; induction l as [|v l IH]; intros lo hi Hle; simpl.
  - split_and!; [lia..|constructor|by left|by left].
  - specialize (IH (N.min lo v) (N.max hi v) ltac:(lia)).
    destruct (foldl _ _ l) as [lo' hi']. destruct IH as (? & ? & ? & Hlo & Hhi).
    split_and!; [lia|lia|constructor; [lia|done]| |]; rewrite elem_of_cons.
    + destruct Hlo as [->|?]; [|auto]. destruct (N.min_spec lo v) as [[_ ->]|[_ ->]]; auto.
    + destruct Hhi as [->|?]; [|auto]. destruct (N.max_spec hi v) as [[_ ->]|[_ ->]]; auto.
Qed.

(** The bounds are attained by receipts of the batch and bound all of them. *)
Lemma compute_ns_range_spec rs lo hi :
  compute_ns_range rs = Some (lo, hi) →
  Forall (λ r, lo <= ns_of r <= hi)%N rs ∧ (∃ r, r ∈ rs ∧ ns_of r = lo) ∧
  (∃ r, r ∈ rs ∧ ns_of r = hi).
Proof.
  destruct rs as [|r rs]; simpl; [done|]. intros [= Hf].
  pose proof (ns_range_fold (ns_of <$> rs) (ns_of r) (ns_of r) ltac:(lia)) as Hspec.
  rewrite Hf in Hspec. destruct Hspec as (? & ? & Hall & Hlo & Hhi).
  assert (∀ x, x = ns_of r ∨ x ∈ ns_of <$> rs → ∃ r', r' ∈ r :: rs ∧ ns_of r' = x) as Hat.
  { intros x [->|(r' & -> & ?)%list_elem_of_fmap]; [exists r|exists r']; set_solver. }
  split_and!; [|by apply Hat..]. constructor; [lia|]. by apply Forall_fmap in Hall.
Qed.

Lemma histogram_kinds rs e :
  (N.of_nat (length rs) <= u64_max)%N → e ∈ btree_iter (compute_histogram rs) →
  (∃ r, r ∈ rs ∧ Receipt.action_kind r = e.1) ∧ (0 < e.2)%N.
Proof.
  intros Hb He. destruct e as [k c]. apply elem_of_btree_iter in He.
  rewrite histogram_lookup in He by done.
  destruct (N.eqb_spec (count_kind k rs) 0) as [|Hk]; simplify_eq/=. split; [|lia].
  unfold count_kind in Hk. destruct (filter _ rs) as [|r l] eqn:Hf; [done|].
  exists r. assert (r ∈ filter (λ r, Receipt.action_kind r = k) rs) as Hr by (rewrite Hf; set_solver).
  apply list_elem_of_filter in Hr. naive_solver.
Qed.

Lemma size_compute_histogram rs :
  (N.of_nat (length rs) <= u64_max)%N → size (compute_histogram rs) ≤ length rs.
Proof.
  intros Hb. rewrite <- length_btree_iter.
  assert (∀ l, Forall (λ e, (0 < e.2)%N) l → (N.of_nat (length l) <= sum_counts l)%N) as Hl.
  { induction 1; simpl; lia. }
  pose proof (compute_histogram_sum rs Hb). assert (Forall (λ e, (0 < e.2)%N)
    (btree_iter (compute_histogram rs))) as Hp%Hl; [|lia].
  apply Forall_forall. intros e He. by destruct (histogram_kinds rs e Hb He).
Qed.

Lemma compute_histogram_nonempty rs :
  rs ≠ [] → (N.of_nat (length rs) <= u64_max)%N → compute_histogram rs ≠ ∅.
Proof.
  intros Hne Hb He. pose proof (compute_histogram_sum rs Hb) as Hs.
  rewrite He in Hs. replace (btree_iter (∅ : gmap string N)) with (@nil (string * N)) in Hs by done.
  destruct rs; simpl in *; [done|lia].
Qed.

Lemma seal_batch_Ok now rs b :
  seal_batch now rs = Ok b ↔
  ∃ m range, build_merkle rs = Ok m ∧ compute_ns_range rs = Some range ∧
    b = SealedBatch.mk (MerkleBatch.root m) (MerkleBatch.leaves m) now (compute_histogram rs) range [].
Proof.
  unfold seal_batch. destruct rs as [|r rs]; [split; [done|]; intros (?&?&?&?&?); done|].
  rewrite rbind_Ok. setoid_rewrite map_err_Ok. split.
  - intros (m & Hm & Heq). destruct (compute_ns_range (r :: rs)) eqn:E; simplify_eq. eauto.
  - intros (m & range & Hm & Hr & ->). exists m. by rewrite Hr.
Qed.

Lemma sha256_wf `{!CryptoLaws} x : Hash.wf (sha256 x).
Proof. unfold Hash.wf, len. simpl. by rewrite sha256_digest_length. Qed.

Lemma climbs_wf `{!CryptoLaws} fuel level root d :
  Forall Hash.wf level → climbs fuel level = Some (root, d) → Hash.wf root.
Proof.
  revert level root d; induction fuel as [|fuel IH]; intros [|x [|y l]] root d Hlev Hc;
    simpl in Hc; try done.
  1,2: simplify_eq; by apply Forall_cons in Hlev as [? _].
  destruct (climbs fuel _) as [[root' d']|] eqn:E; [|done]. simplify_eq.
  eapply IH, E. apply (Forall_forall _ (pair_up (x :: y :: l))).
  intros h (u & v & _ & _ & ->)%pair_up_elem. unfold sorted_pair_hash.
  case_match; apply sha256_wf.
Qed.

(** The root a seal carries passes [Hash::validate]. *)
Lemma build_merkle_root_wf `{!CryptoLaws} rs m :
  build_merkle rs = Ok m → Hash.wf (MerkleBatch.root m).
Proof.
  intros (Hne & _ & Hl & d & Hc & _)%build_merkle_Ok. eapply climbs_wf, Hc.
  apply Forall_forall. intros h. rewrite canonical_leaves_ids.
  intros (r & -> & _)%list_elem_of_fmap. apply sha256_wf.
Qed.

(** What a sealer reports satisfies the preimage's conditions. *)
Lemma sealed_preimage_ok `{!CryptoLaws} rs m range :
  build_merkle rs = Ok m → compute_ns_range rs = Some range → (N.of_nat (length rs) <= u32_max)%N →
  Forall (λ r, 0 < str_len (Receipt.action_kind r) <= MAX_ACTION_KIND_LEN)%N rs →
  preimage_ok (MerkleBatch.root m) (N.of_nat (length rs)) range.1 range.2 (compute_histogram rs).
Proof.
  destruct range as [lo hi]. intros Hm Hr Hb Hkinds. simpl.
  assert (N.of_nat (length rs) <= u64_max)%N as Hb64 by (unfold u64_max, u32_max in *; lia).
  pose proof (compute_ns_range_spec _ _ _ Hr) as (Hrange & (r0 & Hr0 & Hlo) & _).
  pose proof (build_merkle_Ok _ _ Hm) as (Hne & _).
  rewrite Forall_forall in Hrange, Hkinds.
  split_and!; [by eapply build_merkle_root_wf|specialize (Hrange r0 Hr0); lia| | | |done|].
  - by apply compute_histogram_nonempty.
  - apply Forall_forall. intros e He. destruct (histogram_kinds rs e Hb64 He) as [(r & Hr' & Hk) ?].
    split; [rewrite <- Hk; by apply Hkinds|done].
  - by rewrite compute_histogram_sum.
  - pose proof (size_compute_histogram rs Hb64). lia.
Qed.

(** ** Properties *)

(** [C13] What [LocalSealer] reports about a batch is exactly what the anchor
    preimage accepts: for at most [u32::MAX] receipts whose action kinds are 1
    to 255 bytes long, the root, the number of receipts, the range and the
    histogram of the sealed batch encode without error; the histogram counts every kind, the range bounds
    every receipt, and every receipt has a leaf whose path verifies. *)
Theorem sealed_batch_anchors `{!CryptoLaws} (now : Timestamp) (rs : list Receipt) (b : SealedBatch)
  (swarm : SwarmId) :
  seal_batch now rs = Ok b →
  (N.of_nat (length rs) <= u32_max)%N →
  Forall (λ r, 0 < str_len (Receipt.action_kind r) <= MAX_ACTION_KIND_LEN)%N rs →
  is_ok (canonical_preimage swarm (SealedBatch.batch_root b) (N.of_nat (length rs))
           (SealedBatch.ns_range b).1 (SealedBatch.ns_range b).2
           (SealedBatch.action_kind_histogram b)) = true ∧
  (∀ r, r ∈ rs →
     SealedBatch.action_kind_histogram b !! Receipt.action_kind r
       = Some (count_kind (Receipt.action_kind r) rs) ∧
     ((SealedBatch.ns_range b).1 <= ns_of r <= (SealedBatch.ns_range b).2)%N ∧
     ∃ lp, lp ∈ SealedBatch.leaves b ∧ LeafProof.leaf lp = receipt_id r ∧
           verify_path (LeafProof.leaf lp) (LeafProof.path lp) (SealedBatch.batch_root b) = true).
Proof.
  intros (m & [lo hi] & Hm & Hr & ->)%seal_batch_Ok Hb Hkinds. simpl.
  assert (N.of_nat (length rs) <= u64_max)%N as Hb64 by (unfold u64_max, u32_max in *; lia).
  pose proof (compute_ns_range_spec _ _ _ Hr) as (Hrange & _).
  pose proof (build_merkle_Ok _ _ Hm) as (_ & _ & Hl & d & _ & Hall).
  rewrite Forall_forall in Hrange. split.
  - by rewrite (proj2 (canonical_preimage_Ok _ _ _ _ _ _ _)
      (conj (sealed_preimage_ok _ _ (lo, hi) Hm Hr Hb Hkinds) eq_refl)).
  - intros r Hin. split; [|split; [by apply Hrange|]].
    + rewrite histogram_lookup by done.
      destruct (N.eqb_spec (count_kind (Receipt.action_kind r) rs) 0) as [Hz|]; [|done].
      unfold count_kind in Hz.
      assert (r ∈ filter (λ r', Receipt.action_kind r' = Receipt.action_kind r) rs) as Hf.
      { by apply list_elem_of_filter. }
      destruct (filter _ rs); [by apply elem_of_nil in Hf|simpl in Hz; lia].
    + assert (receipt_id r ∈ LeafProof.leaf <$> MerkleBatch.leaves m) as Hleaf.
      { rewrite Hl, canonical_leaves_ids. apply list_elem_of_fmap. eauto. }
      apply list_elem_of_fmap in Hleaf as (lp & -> & Hlp). exists lp.
      split_and!; [done..|]. apply bool_decide_eq_true. by apply Hall.
Qed.

End sealer.

(** ** Witnesses *)

Lemma sealed_batch_anchors_witness :
  let b := SealedBatch.mk (MerkleBatch.root (MerkleToy.built MerkleToy.batch3))
    (MerkleBatch.leaves (MerkleToy.built MerkleToy.batch3)) (Timestamp.mk "9" 9)
    (compute_histogram MerkleToy.batch3) (100, 300)%N [] in
  is_ok (canonical_preimage MerkleToy.swarm (SealedBatch.batch_root b) 3 100 300
           (SealedBatch.action_kind_histogram b)) = true.
Proof.
  intros b. refine (proj1 (sealed_batch_anchors (Timestamp.mk "9" 9) MerkleToy.batch3 b
    MerkleToy.swarm _ _ _)).
  - vm_compute. reflexivity.
  - vm_compute. discriminate.
  - repeat (constructor; [split; vm_compute; [reflexivity|discriminate]|]). constructor.
Defined.
