(* ===== verification/ReceiptVerify.v ===== *)
(** * [yutha-receipt/src/verify.rs]: signature order, signatures, content address *)

From S2P Require Import Prelude RustStd Core CoreProto Crypto ReceiptTypes ReceiptProto Merkle.

Module VerificationOutcome.
(* yutha-receipt/src/verify.rs:21-26 VerificationOutcome *)
Record VerificationOutcome := mk { content_address : Hash; verified_roles : list SignatureRole }.
End VerificationOutcome.
Notation VerificationOutcome := VerificationOutcome.VerificationOutcome.

Definition role_rank (s : SignedBy) : N := SignatureRole.rank (SignedBy.role s).
Definition is_actor (s : SignedBy) : bool := bool_decide (SignedBy.role s = SignatureRole.Actor).

Section verify.
Context `{CryptoOps} `{Encode rproto.Receipt}.

(* yutha-receipt/src/verify.rs:110-124 enforce_canonical_order (loop) *)
Fixpoint order_loop (last : option N) (sigs : list SignedBy) : Result unit ReceiptError :=
  match sigs with
  | [] => Ok tt
  | s :: sigs =>
      match last with
      | Some prev =>
          if (role_rank s <? prev)%N then
            Err (ReceiptError.SignatureOrderInvalid
                   (SignatureRole.debug (SignedBy.role s) +:+ " (rank " +:+ show_N (role_rank s)
                    +:+ ") appears after rank " +:+ show_N prev))
          else order_loop (Some (role_rank s)) sigs
      | None => order_loop (Some (role_rank s)) sigs
      end
  end.

(* yutha-receipt/src/verify.rs:108-126 enforce_canonical_order *)
Definition enforce_canonical_order (sigs : list SignedBy) : Result unit ReceiptError :=
  order_loop None sigs.

(* yutha-receipt/src/verify.rs:82-98 verify_receipt_signatures (optional roles) *)
Fixpoint verify_optional (message : bytes) (keys : SignatureRole → bytes → option PublicKey)
  (verified : list SignatureRole) (sigs : list SignedBy)
  : Result (list SignatureRole) ReceiptError :=
  match sigs with
  | [] => Ok verified
  | s :: sigs =>
      if is_actor s then verify_optional message keys verified sigs
      else
        match keys (SignedBy.role s) (Signature.key_fingerprint (SignedBy.signature s)) with
        | Some pk =>
            let? _ := map_err (λ e, ReceiptError.SignatureFailed
                        (SignatureRole.debug (SignedBy.role s) +:+ ": " +:+ CryptoError.to_string e))
                        (verify pk message (SignedBy.signature s)) in
            verify_optional message keys (verified ++ [SignedBy.role s]) sigs
        | None => verify_optional message keys verified sigs
        end
  end.

(* yutha-receipt/src/verify.rs:40-104 verify_receipt_signatures *)
Definition verify_receipt_signatures (receipt : Receipt) (actor_public_key : PublicKey)
  (additional_keys : SignatureRole → bytes → option PublicKey)
  : Result VerificationOutcome ReceiptError :=
  let? canonical := map_err ReceiptError.Crypto (content_address receipt) in
  let? message_bytes := map_err ReceiptError.Crypto (canonical_bytes receipt) in
  let? _ := enforce_canonical_order (Receipt.signatures receipt) in
  let? actor_sig := ok_or (list_find is_actor (Receipt.signatures receipt))
                      (ReceiptError.MissingSignatureRole SignatureRole.Actor) in
  let? _ := map_err (λ e, ReceiptError.SignatureFailed ("actor: " +:+ CryptoError.to_string e))
              (verify actor_public_key message_bytes (SignedBy.signature actor_sig.2)) in
  let? verified := verify_optional message_bytes additional_keys [SignatureRole.Actor]
                     (Receipt.signatures receipt) in
  Ok (VerificationOutcome.mk canonical verified).

(* yutha-receipt/src/verify.rs:132-144 verify_address *)
Definition verify_address (receipt : Receipt) (claimed : Hash) : Result unit ReceiptError :=
  match verify_content_address receipt claimed with
  | Ok u => Ok u
  | Err CryptoError.VerificationFailed =>
      let? recomputed := map_err ReceiptError.Crypto (content_address receipt) in
      Err (ReceiptError.ContentAddressMismatch claimed recomputed)
  | Err other => Err (ReceiptError.Crypto other)
  end.

(** ** What acceptance means *)

Definition message_of (r : Receipt) : bytes := encode_to_vec (to_canonical_proto r).

(** Ranks never decrease along the signatures. *)
Definition ranks_sorted (sigs : list SignedBy) : Prop := Sorted (λ a b, role_rank a <= role_rank b)%N sigs.

Definition optional_ok (message : bytes) (keys : SignatureRole → bytes → option PublicKey)
  (s : SignedBy) : Prop :=
  SignedBy.role s = SignatureRole.Actor ∨
  ∀ pk, keys (SignedBy.role s) (Signature.key_fingerprint (SignedBy.signature s)) = Some pk →
        signature_valid pk message (SignedBy.signature s).

(** The roles whose signatures were checked, in wire order. *)
Definition checked (keys : SignatureRole → bytes → option PublicKey) (s : SignedBy) : bool :=
  negb (is_actor s) &&
  bool_decide (is_Some (keys (SignedBy.role s) (Signature.key_fingerprint (SignedBy.signature s)))).

Definition first_actor (sigs : list SignedBy) (s : SignedBy) : Prop :=
  ∃ before after, sigs = before ++ s :: after ∧ SignedBy.role s = SignatureRole.Actor ∧
                  Forall (λ t, SignedBy.role t ≠ SignatureRole.Actor) before.

Lemma order_loop_Ok last sigs :
  order_loop last sigs = Ok tt ↔
  match last, sigs with
  | Some prev, s :: _ => (prev <= role_rank s)%N
  | _, _ => True
  end ∧ ranks_sorted sigs.
Proof.
  unfold ranks_sorted. revert last; induction sigs as [|s sigs IH]; intros last; simpl.
  { destruct last; naive_solver. }
  assert (order_loop (Some (role_rank s)) sigs = Ok tt ↔
          Sorted (λ a b, role_rank a <= role_rank b)%N (s :: sigs)) as Hs.
  { rewrite IH. split.
    - intros [Hh Hs]. constructor; [done|]. destruct sigs; constructor; done.
    - intros Hs. apply Sorted_inv in Hs as [Hs Hh]. split; [|done].
      destruct sigs; [done|by inversion Hh]. }
  destruct last as [prev|]; [|naive_solver].
  destruct (N.ltb_spec (role_rank s) prev); [split; [done|intros [? _]; lia]|]. naive_solver.
Qed.

Lemma enforce_canonical_order_Ok sigs : enforce_canonical_order sigs = Ok tt ↔ ranks_sorted sigs.
Proof. unfold enforce_canonical_order. rewrite order_loop_Ok. naive_solver. Qed.

Lemma verify_optional_Ok message keys verified sigs out :
  verify_optional message keys verified sigs = Ok out ↔
  Forall (optional_ok message keys) sigs ∧
  out = verified ++ (SignedBy.role <$> filter (λ s, checked keys s = true) sigs).
Proof.
  revert verified; induction sigs as [|s sigs IH]; intros verified; simpl.
  { rewrite app_nil_r. split; [intros [= ->]; by split|by intros [_ ->]]. }
  rewrite Forall_cons, filter_cons. unfold checked, is_actor, optional_ok at 1.
  case_bool_decide as Hr; simpl.
  { rewrite IH. naive_solver. }
  destruct (keys _ _) as [pk|]; simpl.
  - rewrite rbind_Ok. setoid_rewrite map_err_Ok. setoid_rewrite IH. rewrite <- app_assoc. simpl. split.
    + intros ([] & Hv%verify_Ok & Hs & ->). split; [split; [right; by intros ? [= <-]|done]|done].
    + intros [[[|Hv] Hs] ->]; [done|]. exists tt. split; [by apply verify_Ok, Hv|done].
  - rewrite IH. naive_solver.
Qed.

Lemma find_actor sigs i s :
  list_find is_actor sigs = Some (i, s) → first_actor sigs s ∧ s ∈ sigs.
Proof.
  intros (Hi & Hs & Hbefore)%list_find_Some. split; [|by eapply list_elem_of_lookup_2].
  exists (take i sigs), (drop (S i) sigs). split; [by rewrite take_drop_middle|].
  split; [by apply bool_decide_unpack in Hs|]. apply Forall_forall.
  intros t (j & Ht)%list_elem_of_lookup Hr. apply lookup_take_Some in Ht as [Ht Hj].
  eapply Hbefore; [exact Ht|lia|]. by apply bool_decide_pack.
Qed.

Lemma first_actor_find sigs s :
  first_actor sigs s → ∃ i, list_find is_actor sigs = Some (i, s).
Proof.
  intros (before & after & -> & Hs & Hb). exists (length before). apply list_find_Some.
  split; [by rewrite lookup_app_r, Nat.sub_diag by lia|]. split; [by apply bool_decide_pack|].
  intros j t Ht Hj Hr. rewrite lookup_app_l in Ht by lia. rewrite Forall_forall in Hb.
  apply bool_decide_unpack in Hr. eapply Hb; [|done]. by eapply list_elem_of_lookup_2.
Qed.

Lemma verify_receipt_Ok r pk keys out :
  verify_receipt_signatures r pk keys = Ok out ↔
  ranks_sorted (Receipt.signatures r) ∧
  (∃ s, first_actor (Receipt.signatures r) s ∧
        signature_valid pk (message_of r) (SignedBy.signature s)) ∧
  Forall (optional_ok (message_of r) keys) (Receipt.signatures r) ∧
  out = VerificationOutcome.mk (receipt_id r)
          (SignatureRole.Actor ::
             (SignedBy.role <$> filter (λ s, checked keys s = true) (Receipt.signatures r))).
Proof.
  unfold verify_receipt_signatures. rewrite content_address_receipt. cbn [map_err rbind].
  change (canonical_bytes r) with (@Ok bytes CryptoError (message_of r)). cbn [map_err rbind].
  split.
  - intros Hv. apply rbind_Ok in Hv as ([] & Ho%enforce_canonical_order_Ok & Hv).
    apply rbind_Ok in Hv as ([i s] & Hf%ok_or_Ok & Hv).
    apply rbind_Ok in Hv as ([] & Hs%map_err_Ok%verify_Ok & Hv).
    apply rbind_Ok in Hv as (v & [Hall ->]%verify_optional_Ok & [= <-]).
    apply find_actor in Hf as [Hf _]. split_and!; [done|by exists s|done|done].
  - intros (Ho & (s & Hf & Hs) & Hall & ->).
    rewrite (proj2 (enforce_canonical_order_Ok _) Ho). cbn [rbind].
    destruct (first_actor_find _ _ Hf) as [i ->]. cbn [ok_or rbind snd].
    rewrite (proj2 (verify_Ok _ _ _) Hs). cbn [map_err rbind].
    by rewrite (proj2 (verify_optional_Ok _ _ _ _ _) (conj Hall eq_refl)).
Qed.

(** Neither the seal nor the signatures enter the signed message or the id. *)
Lemma message_of_with_seal s r : message_of (Receipt.with_seal s r) = message_of r.
Proof. done. Qed.
Lemma message_of_with_signatures f r : message_of (Receipt.with_signatures f r) = message_of r.
Proof. done. Qed.

(** ** Properties *)

(** A receipt's signatures are accepted exactly when the roles appear in
    rank order, the first Actor signature is valid for the actor's key over
    the canonical bytes, and every other role's signature whose key is known
    is valid too; the reported roles are those and no others, and the reported
    id is the content address. *)
Lemma receipt_signatures_accepted (r : Receipt) (pk : PublicKey)
  (keys : SignatureRole → bytes → option PublicKey) (out : VerificationOutcome) :
  verify_receipt_signatures r pk keys = Ok out ↔
  ranks_sorted (Receipt.signatures r) ∧
  (∃ s, first_actor (Receipt.signatures r) s ∧
        signature_valid pk (message_of r) (SignedBy.signature s)) ∧
  Forall (optional_ok (message_of r) keys) (Receipt.signatures r) ∧
  out = VerificationOutcome.mk (receipt_id r)
          (SignatureRole.Actor ::
             (SignedBy.role <$> filter (λ s, checked keys s = true) (Receipt.signatures r))).
Proof. apply verify_receipt_Ok. Qed.

(** Only the first Actor signature is checked: an accepted receipt is
    still accepted, with the same outcome, after any further Actor signatures
    are inserted behind the first one, whatever bytes they hold. *)
Lemma extra_actor_signatures_unchecked (r : Receipt) (pk : PublicKey)
  (keys : SignatureRole → bytes → option PublicKey) (out : VerificationOutcome)
  (first : SignedBy) (extra rest : list SignedBy) :
  verify_receipt_signatures r pk keys = Ok out →
  Receipt.signatures r = first :: rest →
  Forall (λ s, SignedBy.role s = SignatureRole.Actor) extra →
  verify_receipt_signatures (Receipt.with_signatures (λ _, first :: extra ++ rest) r) pk keys = Ok out.
Proof.
  rewrite !verify_receipt_Ok. intros (Ho & (s & Hf & Hs) & Hall & ->) Hsigs Hex.
  rewrite Hsigs in *. rewrite message_of_with_signatures. simpl.
  assert (SignedBy.role first = SignatureRole.Actor ∧ s = first) as [Hfirst ->].
  { destruct Hf as ([|t before] & after & Heq & Ha & Hb); simplify_eq/=; [done|].
    apply Forall_cons in Hb as [Ht _]. unfold ranks_sorted in Ho.
    apply Sorted_StronglySorted in Ho; [|intros ???; lia].
    apply StronglySorted_inv in Ho as [_ Ho]. rewrite Forall_forall in Ho.
    specialize (Ho s ltac:(set_solver)). unfold role_rank in Ho. rewrite Ha in Ho. simpl in Ho.
    destruct Ht. destruct (SignedBy.role t); simpl in Ho; (done || lia). }
  split_and!.
  - assert (Forall (λ s, role_rank s = 0%N) (first :: extra)) as Hz.
    { apply Forall_forall. unfold role_rank. rewrite Forall_forall in Hex.
      intros t [->|Ht]%elem_of_cons; [by rewrite Hfirst|by rewrite Hex]. }
    unfold ranks_sorted in *. apply Sorted_inv in Ho as [Hrest _].
    change (Sorted (λ a b, (role_rank a <= role_rank b)%N) ((first :: extra) ++ rest)).
    induction Hz as [|t l Ht Hl IH]; [done|]. simpl. constructor; [done|].
    destruct (l ++ rest); constructor. lia.
  - exists first. split; [|done]. exists [], (extra ++ rest). by split_and!.
  - apply Forall_cons in Hall as [H1 H2]. constructor; [done|]. apply Forall_app. split; [|done].
    eapply Forall_impl; [exact Hex|]. intros t Ht. by left.
  - f_equal. f_equal. rewrite !filter_cons, filter_app.
    replace (filter (λ s, checked keys s = true) extra) with (@nil SignedBy); [done|].
    symmetry. induction Hex as [|t l Ht Hl IH]; [done|]. rewrite filter_cons_False; [done|].
    unfold checked, is_actor. by rewrite Ht.
Qed.

(** [verify_address] accepts exactly the receipt's own content address,
    and otherwise reports both the claimed and the recomputed one. *)
Lemma verify_address_exact (r : Receipt) (claimed : Hash) :
  verify_address r claimed =
    if bool_decide (receipt_id r = claimed) then Ok tt
    else Err (ReceiptError.ContentAddressMismatch claimed (receipt_id r)).
Proof.
  unfold verify_address, verify_content_address. rewrite content_address_receipt. simpl.
  by case_bool_decide.
Qed.

End verify.

(** ** Witnesses *)

Module VerifyToy.
Import MerkleToy.
Definition key : SigningKey := SigningKey.mk [Byte.x07].
Definition bare : Receipt := receipt 100 1 "agent.register".
Definition sign_as (role : SignatureRole) (r : Receipt) : SignedBy :=
  SignedBy.mk role (sign key (message_of r)) (Timestamp.mk "0" 100).
Definition signed : Receipt :=
  Receipt.with_signatures
    (λ _, [sign_as SignatureRole.Actor bare; sign_as SignatureRole.ControlPlane bare]) bare.
Definition garbage : SignedBy :=
  SignedBy.mk SignatureRole.Actor (Signature.mk SignatureAlgorithm.Ed25519 [] []) (Timestamp.mk "0" 0).
End VerifyToy.

Lemma extra_actor_signatures_unchecked_witness :
  verify_receipt_signatures
    (Receipt.with_signatures (λ _, VerifyToy.sign_as SignatureRole.Actor VerifyToy.bare ::
        [VerifyToy.garbage] ++ [VerifyToy.sign_as SignatureRole.ControlPlane VerifyToy.bare])
       VerifyToy.signed)
    (SigningKey.public VerifyToy.key) (λ _ _, None)
  = Ok (VerificationOutcome.mk (receipt_id VerifyToy.bare) [SignatureRole.Actor]).
Proof.
  apply extra_actor_signatures_unchecked.
  - vm_compute. reflexivity.
  - reflexivity.
  - repeat constructor.
Defined.
