(* ===== verification/ReceiptStore.v ===== *)
(** * [yutha-receipt/src/store.rs] and [memory.rs]: the append-only receipt store

    [ReceiptStore] is the trait, with [ReceiptStoreLaws] the contract its
    documentation states: on an abstract store, a finite map from content
    addresses to receipts.  [MemoryStore] is the in-memory implementation and
    is proved to satisfy it; the other components use the interface only.  The
    Merkle seals ([SealStore]) are kept beside the receipts. *)

From S2P Require Import Prelude RustStd Core CoreProto Crypto ReceiptTypes ReceiptProto Merkle.
From S2P Require Import Preimage Sealer ReceiptVerify.

Module AppendKind.
(* yutha-receipt/src/store.rs:88-94 AppendKind *)
Inductive AppendKind := Inserted | AlreadyPresent.
End AppendKind.
Notation AppendKind := AppendKind.AppendKind.

Module AppendOutcome.
(* yutha-receipt/src/store.rs:75-84 AppendOutcome *)
Record AppendOutcome := mk { receipt_id : Hash; kind : AppendKind; seal : SealStatus }.
End AppendOutcome.
Notation AppendOutcome := AppendOutcome.AppendOutcome.

(* yutha-receipt/src/store.rs:29-71 ReceiptStore *)
Class ReceiptStore (S : Type) := {
  append : Receipt → AppendOptions → PassportResolver → M S ReceiptError AppendOutcome;
  get : Hash → S → Result (option Receipt) ReceiptError;
  query : Query → option bytes → S → Result Page ReceiptError;
  count : S → Result N ReceiptError
}.

(** ** The contract *)

(** The keys of the non-actor roles on a receipt that the resolver knows. *)
Definition keys_of (resolver : PassportResolver) (role : SignatureRole) (fp : bytes)
  : option PublicKey :=
  match PassportResolver.resolve_role resolver role fp with Ok o => o | Err _ => None end.

(** A receipt the store must accept: the resolver answers, knows the actor,
    and the signatures verify. *)
Definition admissible `{CryptoOps, Encode rproto.Receipt} (r : Receipt) (resolver : PassportResolver)
  : Prop :=
  (∃ pk out, PassportResolver.resolve_actor resolver (Receipt.actor r) = Ok (Some pk) ∧
             verify_receipt_signatures r pk (keys_of resolver) = Ok out) ∧
  Forall (λ s, is_actor s = false →
            is_ok (PassportResolver.resolve_role resolver (SignedBy.role s)
                     (Signature.key_fingerprint (SignedBy.signature s))) = true)
         (Receipt.signatures r).

(** Which stored receipts a query asks for. *)
Definition selects (view : gmap Hash Receipt) (q : Query) (id : Hash) (r : Receipt) : Prop :=
  view !! id = Some r ∧
  match q with
  | Query.ByReceiptId i => id = i
  | Query.ByPredecessor p => p ∈ CausalRef.predecessors (Receipt.causal r)
  | Query.ByAgent a => Receipt.actor r = a
  | Query.ByActionKind k => Receipt.action_kind r = k
  | Query.ByTimeRange from to =>
      (Timestamp.monotonic_ns from <= ns_of r <= Timestamp.monotonic_ns to)%N
  end.

Class ReceiptStoreLaws (S : Type) `{CryptoOps, Encode rproto.Receipt, ReceiptStore S} := {
  view : S → gmap Hash Receipt;
  store_inv : S → Prop;
  append_inv r o res s : store_inv s → store_inv (append r o res s).2;
  append_Ok r o res s out s' :
    store_inv s → append r o res s = (Ok out, s') →
    admissible r res ∧ AppendOutcome.receipt_id out = receipt_id r ∧
    match AppendOutcome.kind out with
    | AppendKind.Inserted => view s !! receipt_id r = None ∧ view s' = <[receipt_id r := r]> (view s)
    | AppendKind.AlreadyPresent => is_Some (view s !! receipt_id r) ∧ view s' = view s
    end;
  append_Err r o res s e s' : append r o res s = (Err e, s') → view s' = view s ∧ ¬ admissible r res;
  get_spec id s : get id s = Ok (view s !! id);
  query_spec q tok s r : store_inv s →
    (∃ page, query q tok s = Ok page ∧
       (r ∈ Page.receipts page ↔ ∃ id, selects (view s) q id r));
  count_spec s : count s = Ok (N.of_nat (size (view s)))
}.

(** What every client relies on: the view only grows. *)
Lemma append_monotone {S} `{ReceiptStoreLaws S} r o res s :
  store_inv s → view s ⊆ view (append r o res s).2.
Proof.
  intros Hinv. destruct (append r o res s) as [[out|e] s'] eqn:Ha; simpl.
  - apply append_Ok in Ha as (_ & _ & Hk); [|done].
    destruct (AppendOutcome.kind out); destruct Hk as [Hv ->]; [|done]. by apply insert_subseteq.
  - apply append_Err in Ha as [-> _]. done.
Qed.

(** ** The in-memory store *)

Module MemoryStore.
(* yutha-receipt/src/memory.rs:43-50 MemoryStoreInner *)
Record MemoryStore := mk {
  by_id : gmap Hash Receipt;
  by_predecessor : gmap Hash (list Hash);
  seals : gmap Hash SealStatus }.
(* yutha-receipt/src/memory.rs:54-56 MemoryStore::new *)
Definition new : MemoryStore := mk ∅ ∅ ∅.

Section ops.
Context `{CryptoOps} `{Encode rproto.Receipt}.

(* yutha-receipt/src/memory.rs:76-87 MemoryStore::append (role keys) *)
Fixpoint role_keys (resolver : PassportResolver) (keys : gmap (SignatureRole * bytes) PublicKey)
  (sigs : list SignedBy) : Result (gmap (SignatureRole * bytes) PublicKey) ReceiptError :=
  match sigs with
  | [] => Ok keys
  | s :: sigs =>
      if is_actor s then role_keys resolver keys sigs
      else
        let fp := Signature.key_fingerprint (SignedBy.signature s) in
        let? o := PassportResolver.resolve_role resolver (SignedBy.role s) fp in
        role_keys resolver
          (match o with Some pk => <[(SignedBy.role s, fp) := pk]> keys | None => keys end) sigs
  end.

(* yutha-receipt/src/memory.rs:110-116 MemoryStore::append (causal index) *)
Definition index_predecessors (id : Hash) (predecessors : list Hash)
  (index : gmap Hash (list Hash)) : gmap Hash (list Hash) :=
  foldl (λ m p, <[p := default [] (m !! p) ++ [id]]> m) index predecessors.

(* yutha-receipt/src/memory.rs:61-125 MemoryStore::append *)
Definition append (receipt : Receipt) (_ : AppendOptions) (resolver : PassportResolver)
  : M MemoryStore ReceiptError AppendOutcome :=
  let! o := lift (PassportResolver.resolve_actor resolver (Receipt.actor receipt)) in
  let! actor_pk := lift (ok_or o (ReceiptError.ActorNotResolvable (Receipt.actor receipt))) in
  let! keys := lift (role_keys resolver ∅ (Receipt.signatures receipt)) in
  do! lift (verify_receipt_signatures receipt actor_pk (λ role fp, keys !! (role, fp))) in
  let! id := lift (map_err ReceiptError.Crypto (content_address receipt)) in
  let! present := gets (λ s, bool_decide (is_Some (by_id s !! id))) in
  if present : bool then
    mret (AppendOutcome.mk id AppendKind.AlreadyPresent SealStatus.unsealed)
  else
    do! modify (λ s, mk (<[id := receipt]> (by_id s))
                       (index_predecessors id (CausalRef.predecessors (Receipt.causal receipt))
                          (by_predecessor s)) (seals s)) in
    mret (AppendOutcome.mk id AppendKind.Inserted SealStatus.unsealed).

(* yutha-receipt/src/memory.rs:127-130 MemoryStore::get *)
Definition get (id : Hash) (s : MemoryStore) : Result (option Receipt) ReceiptError :=
  Ok (by_id s !! id).

(** [by_id.values()]: the order of a [HashMap] is unspecified; no theorem
    depends on the one chosen here. *)
Definition values (s : MemoryStore) : list Receipt := (map_to_list (by_id s)).*2.

(* yutha-receipt/src/memory.rs:132-171 MemoryStore::query *)
Definition query (q : Query) (_ : option bytes) (s : MemoryStore) : Result Page ReceiptError :=
  let receipts :=
    match q with
    | Query.ByReceiptId id => option_list (by_id s !! id)
    | Query.ByPredecessor p =>
        match by_predecessor s !! p with
        | Some ids => omap (λ id, by_id s !! id) ids
        | None => []
        end
    | Query.ByAgent agent_id => filter (λ r, Receipt.actor r = agent_id) (values s)
    | Query.ByActionKind kind => filter (λ r, Receipt.action_kind r = kind) (values s)
    | Query.ByTimeRange from to =>
        filter (λ r, (Timestamp.monotonic_ns from <= ns_of r)%N ∧
                     (ns_of r <= Timestamp.monotonic_ns to)%N) (values s)
    end in
  Ok (Page.mk receipts None).

(* yutha-receipt/src/memory.rs:173-176 MemoryStore::count *)
Definition count (s : MemoryStore) : Result N ReceiptError := Ok (N.of_nat (size (by_id s))).

(** *** Seals *)

(* yutha-receipt/src/memory.rs:261-271 hex_short *)
Definition hex_short (b : bytes) : string :=
  hex (take 8 b) +:+ (if (8 <? length b)%nat then "..." else "").

(* yutha-receipt/src/memory.rs:194-213 MemoryStore::record_sealed_batch (conflicts) *)
Fixpoint check_conflicts (seals : gmap Hash SealStatus) (batch_root : Hash)
  (leaves : list LeafProof) : Result unit ReceiptError :=
  match leaves with
  | [] => Ok tt
  | l :: leaves =>
      match seals !! LeafProof.leaf l with
      | Some existing =>
          if bool_decide (SealStatus.batch_root existing = Some batch_root)
          then check_conflicts seals batch_root leaves
          else Err (ReceiptError.BatchInvalid
                      ("receipt " +:+ hex_short (Hash.digest (LeafProof.leaf l))
                       +:+ " already sealed in a different batch"))
      | None => check_conflicts seals batch_root leaves
      end
  end.

(* yutha-receipt/src/memory.rs:218-244 MemoryStore::record_sealed_batch (one status) *)
Definition status_of (batch : SealedBatch) (l : LeafProof) : SealStatus :=
  match SealedBatch.commitment_id batch with
  | [] => SealStatus.sealed (SealedBatch.batch_root batch) (LeafProof.path l)
            (SealedBatch.sealed_at batch)
  | tx_digest => SealStatus.sealed_with_anchor (SealedBatch.batch_root batch) (LeafProof.path l)
            (SealedBatch.sealed_at batch) tx_digest []
  end.

(* yutha-receipt/src/memory.rs:181-248 MemoryStore::record_sealed_batch *)
Definition record_sealed_batch (batch : SealedBatch) : M MemoryStore ReceiptError unit :=
  match SealedBatch.leaves batch with
  | [] => throw (ReceiptError.BatchInvalid "sealed batch must contain at least one leaf")
  | leaves =>
      let! seals0 := gets seals in
      do! lift (check_conflicts seals0 (SealedBatch.batch_root batch) leaves) in
      modify (λ s, mk (by_id s) (by_predecessor s)
                (foldl (λ m l, <[LeafProof.leaf l := status_of batch l]> m) (seals s) leaves))
  end.

(* yutha-receipt/src/memory.rs:250-257 MemoryStore::seal_status *)
Definition seal_status (receipt_id : Hash) (s : MemoryStore) : Result SealStatus ReceiptError :=
  Ok (default SealStatus.unsealed (seals s !! receipt_id)).

#[global] Instance store : ReceiptStore MemoryStore :=
  {| ReceiptStore.append := append; ReceiptStore.get := get;
     ReceiptStore.query := query; ReceiptStore.count := count |}.
End ops.
End MemoryStore.
Notation MemoryStore := MemoryStore.MemoryStore.

(** ** The in-memory store keeps the contract *)

Section laws.
Context `{CryptoOps} `{Encode rproto.Receipt}.
Implicit Types (s : MemoryStore) (res : PassportResolver).

Definition sig_key (sg : SignedBy) : SignatureRole * bytes :=
  (SignedBy.role sg, Signature.key_fingerprint (SignedBy.signature sg)).
Definition resolves res (sg : SignedBy) : Prop :=
  is_actor sg = false → is_ok (PassportResolver.resolve_role res (sig_key sg).1 (sig_key sg).2) = true.

Lemma role_keys_Ok res sigs keys :
  Forall (resolves res) sigs →
  ∃ m, MemoryStore.role_keys res keys sigs = Ok m ∧
    ∀ k, m !! k = if bool_decide (k ∈ sig_key <$> filter (λ sg, is_actor sg = false) sigs)
                  then match keys_of res k.1 k.2 with Some pk => Some pk | None => keys !! k end
                  else keys !! k.
Proof.
  intros Hs. revert keys; induction Hs as [|sg sigs Hsg Hs IH]; intros keys; simpl; [by exists keys|].
  destruct (is_actor sg) eqn:Ha.
  { rewrite filter_cons_False by congruence. apply IH. }
  rewrite filter_cons_True by done. specialize (Hsg Ha). cbn [sig_key fst snd] in Hsg.
  destruct (PassportResolver.resolve_role res _ _) as [o|] eqn:Hr; simpl in Hsg; [|done]. cbn [rbind].
  assert (keys_of res (sig_key sg).1 (sig_key sg).2 = o) as Ho by (unfold keys_of; simpl; by rewrite Hr).
  destruct (IH (match o with Some pk => <[sig_key sg := pk]> keys | None => keys end)) as (m & Hm & Hk).
  exists m. split; [exact Hm|]. intros k. rewrite Hk. rewrite fmap_cons.
  destruct (decide (k = sig_key sg)) as [->|Hne].
  - rewrite (bool_decide_eq_true_2 (sig_key sg ∈ sig_key sg :: _)) by set_solver.
    rewrite Ho. destruct o; case_bool_decide; by rewrite ?lookup_insert_eq.
  - rewrite (bool_decide_ext (k ∈ sig_key sg :: _) (k ∈ sig_key <$> filter (λ sg, is_actor sg = false) sigs))
      by set_solver.
    destruct o; by rewrite ?lookup_insert_ne by done.
Qed.

Lemma role_keys_resolves res sigs keys m :
  MemoryStore.role_keys res keys sigs = Ok m → Forall (resolves res) sigs.
Proof.
  revert keys; induction sigs as [|sg sigs IH]; intros keys; simpl; [constructor|].
  destruct (is_actor sg) eqn:Ha.
  - intros Hm. constructor; [intros Hf; congruence|by eapply IH].
  - intros (o & Ho & Hm)%rbind_Ok. constructor; [|by eapply IH].
    intros _. simpl. by rewrite Ho.
Qed.

Lemma verify_optional_ext msg k1 k2 vs sigs :
  Forall (λ sg, is_actor sg = false →
            k1 (sig_key sg).1 (sig_key sg).2 = k2 (sig_key sg).1 (sig_key sg).2) sigs →
  verify_optional msg k1 vs sigs = verify_optional msg k2 vs sigs.
Proof.
  intros Hk. revert vs; induction Hk as [|sg sigs Hsg Hk IH]; intros vs; simpl; [done|].
  destruct (is_actor sg) eqn:Ha; [apply IH|]. specialize (Hsg eq_refl). simpl in Hsg. rewrite Hsg.
  destruct (k2 _ _); [|apply IH]. destruct (verify _ _ _); simpl; [apply IH|done].
Qed.

Lemma verify_receipt_keys_ext r pk k1 k2 :
  Forall (λ sg, is_actor sg = false →
            k1 (sig_key sg).1 (sig_key sg).2 = k2 (sig_key sg).1 (sig_key sg).2)
         (Receipt.signatures r) →
  verify_receipt_signatures r pk k1 = verify_receipt_signatures r pk k2.
Proof.
  intros Hk. unfold verify_receipt_signatures.
  repeat (match goal with |- rbind ?x _ = _ => destruct x; [cbn [rbind]|done] end).
  by rewrite (verify_optional_ext _ k1 k2).
Qed.

(** The signatures as the store checks them. *)
Lemma verify_with_role_keys r pk res m :
  MemoryStore.role_keys res ∅ (Receipt.signatures r) = Ok m →
  verify_receipt_signatures r pk (λ role fp, m !! (role, fp)) =
  verify_receipt_signatures r pk (keys_of res).
Proof.
  intros Hm. destruct (role_keys_Ok res _ ∅ (role_keys_resolves _ _ _ _ Hm)) as (m' & Hm' & Hk).
  rewrite Hm in Hm'. injection Hm' as <-. apply verify_receipt_keys_ext. apply Forall_forall. intros sg Hin Ha.
  specialize (Hk (sig_key sg)). destruct (sig_key sg) as [role fp] eqn:Hs; simpl.
  simpl in Hk. rewrite Hk, bool_decide_eq_true_2.
  - simpl. rewrite lookup_empty. by destruct (keys_of _ _ _).
  - apply list_elem_of_fmap. exists sg. split; [done|]. by apply list_elem_of_filter.
Qed.

(** [append] in one equation: rejected, already present, or inserted. *)
Lemma append_cases r o res s :
  (∃ e, MemoryStore.append r o res s = (Err e, s) ∧ ¬ admissible r res) ∨
  (admissible r res ∧
   MemoryStore.append r o res s =
     if decide (is_Some (MemoryStore.by_id s !! receipt_id r)) then
       (Ok (AppendOutcome.mk (receipt_id r) AppendKind.AlreadyPresent SealStatus.unsealed), s)
     else
       (Ok (AppendOutcome.mk (receipt_id r) AppendKind.Inserted SealStatus.unsealed),
        MemoryStore.mk (<[receipt_id r := r]> (MemoryStore.by_id s))
          (MemoryStore.index_predecessors (receipt_id r)
             (CausalRef.predecessors (Receipt.causal r)) (MemoryStore.by_predecessor s))
          (MemoryStore.seals s))).
Proof.
  unfold MemoryStore.append, mthen, lift, gets, modify, mret.
  destruct (PassportResolver.resolve_actor res (Receipt.actor r)) as [[pk|]|e] eqn:Hpk; simpl.
  2,3: left; eexists; split; [done|]; intros [(? & ? & ? & _) _]; congruence.
  destruct (MemoryStore.role_keys res ∅ (Receipt.signatures r)) as [m|e] eqn:Hm.
  2: { left; eexists; split; [done|]; intros [_ Hall].
       destruct (role_keys_Ok res (Receipt.signatures r) ∅) as (m & Hm' & _); [|congruence].
       eapply Forall_impl; [exact Hall|]. done. }
  rewrite (verify_with_role_keys _ _ _ _ Hm).
  destruct (verify_receipt_signatures r pk (keys_of res)) as [out|e] eqn:Hv.
  2: { left; eexists; split; [done|]. intros [(pk' & ? & ? & ?) _]. congruence. }
  right. split; [split; [by eauto|]; exact (role_keys_resolves _ _ _ _ Hm)|].
  fold (message_of r). change (sha256 (message_of r)) with (receipt_id r).
  case_decide as Hp; [by rewrite bool_decide_eq_true_2|by rewrite bool_decide_eq_false_2].
Qed.

(** *** The invariant: content addresses and the causal index *)

Definition times_in (id : Hash) (l : list Hash) : nat := length (filter (λ x, x = id) l).

Definition inv s : Prop :=
  (∀ id r, MemoryStore.by_id s !! id = Some r → id = receipt_id r) ∧
  (∀ p id, times_in id (default [] (MemoryStore.by_predecessor s !! p)) =
     match MemoryStore.by_id s !! id with
     | Some r => times_in p (CausalRef.predecessors (Receipt.causal r))
     | None => 0
     end).

Lemma times_in_cons id x l : times_in id (x :: l) = (if decide (x = id) then 1 else 0) + times_in id l.
Proof. unfold times_in. rewrite filter_cons. by case_decide. Qed.

Lemma times_in_app id l k : times_in id (l ++ k) = times_in id l + times_in id k.
Proof. unfold times_in. by rewrite filter_app, length_app. Qed.

Lemma times_in_pos id l : 0 < times_in id l ↔ id ∈ l.
Proof.
  unfold times_in. split.
  - destruct (filter _ l) as [|x k] eqn:Hf; simpl; [lia|]. intros _.
    assert (x ∈ filter (λ x, x = id) l) as [-> ?]%list_elem_of_filter by (rewrite Hf; set_solver). done.
  - intros Hin. assert (id ∈ filter (λ x, x = id) l) as Hf by by apply list_elem_of_filter.
    destruct (filter _ l); [by apply elem_of_nil in Hf|simpl; lia].
Qed.

Lemma index_predecessors_times id ps (m : gmap Hash (list Hash)) p id' :
  times_in id' (default [] (MemoryStore.index_predecessors id ps m !! p)) =
  times_in id' (default [] (m !! p)) + if decide (id' = id) then times_in p ps else 0.
Proof.
  unfold MemoryStore.index_predecessors. revert m; induction ps as [|q ps IH]; intros m; simpl.
  { case_decide; unfold times_in; simpl; lia. }
  rewrite IH, times_in_cons. destruct (decide (q = p)) as [->|Hne].
  - rewrite lookup_insert_eq. simpl. rewrite times_in_app, times_in_cons.
    change (times_in id' []) with 0. destruct (decide (id' = id)), (decide (id = id')); subst; try done; lia.
  - rewrite lookup_insert_ne by done. done.
Qed.

Lemma inv_new : inv MemoryStore.new.
Proof.
  split; intros *; simpl.
  - by rewrite lookup_empty.
  - by rewrite !lookup_empty.
Qed.

Lemma inv_append r o res s : inv s → inv (MemoryStore.append r o res s).2.
Proof.
  intros [Hid Hidx]. destruct (append_cases r o res s) as [(e & -> & _)|[_ ->]]; [done|].
  case_decide as Hp; [done|]. apply eq_None_not_Some in Hp. split; simpl.
  - intros id r'. rewrite lookup_insert_Some. intros [[<- <-]|[_ ?]]; [done|by apply Hid].
  - intros p id. rewrite index_predecessors_times, Hidx.
    destruct (decide (id = receipt_id r)) as [->|Hne].
    + by rewrite Hp, lookup_insert_eq.
    + rewrite lookup_insert_ne by done. lia.
Qed.

Lemma values_elem s r : r ∈ MemoryStore.values s ↔ ∃ id, MemoryStore.by_id s !! id = Some r.
Proof.
  unfold MemoryStore.values. rewrite list_elem_of_fmap. split.
  - intros ([id r'] & -> & Hin). apply elem_of_map_to_list in Hin. eauto.
  - intros (id & Hin). exists (id, r). by rewrite elem_of_map_to_list.
Qed.

Lemma query_selects q tok s r :
  inv s → ∃ page, MemoryStore.query q tok s = Ok page ∧
    (r ∈ Page.receipts page ↔ ∃ id, selects (MemoryStore.by_id s) q id r).
Proof.
  intros [Hid Hidx]. eexists; split; [done|]. unfold selects; simpl. destruct q; simpl.
  - destruct (MemoryStore.by_id s !! id) as [r0|] eqn:Hr; simpl.
    + rewrite list_elem_of_singleton. naive_solver.
    + split; [by intros ?%elem_of_nil|naive_solver].
  - pose proof (Hidx predecessor) as Hp. destruct (MemoryStore.by_predecessor s !! predecessor) as [ids|];
      simpl in Hp.
    + rewrite list_elem_of_omap. split.
      * intros (id & Hin & Hr). exists id. split; [done|]. apply times_in_pos.
        specialize (Hp id). rewrite Hr in Hp. rewrite <- Hp. by apply times_in_pos.
      * intros (id & Hr & Hin). exists id. split; [|done]. apply times_in_pos.
        specialize (Hp id). rewrite Hr in Hp. rewrite Hp. by apply times_in_pos.
    + split; [by intros ?%elem_of_nil|]. intros (id & Hr & Hin%times_in_pos).
      specialize (Hp id). rewrite Hr in Hp. unfold times_in in *. simpl in Hp. lia.
  - rewrite list_elem_of_filter, values_elem. naive_solver.
  - rewrite list_elem_of_filter, values_elem. naive_solver.
  - rewrite list_elem_of_filter, values_elem. naive_solver.
Qed.

(** [MemoryStore] keeps the store's contract. *)
#[global] Program Instance memory_store_laws : ReceiptStoreLaws MemoryStore := {|
  view := MemoryStore.by_id; store_inv := inv |}.
Next Obligation. intros. by apply inv_append. Qed.
Next Obligation.
  intros r o res s out s' _ Ha. unfold append, MemoryStore.store in Ha.
  destruct (append_cases r o res s) as [(e & He & _)|[Had Hc]]; [congruence|].
  rewrite Hc in Ha. case_decide as Hp; injection Ha as <- <-; simpl.
  - done.
  - apply eq_None_not_Some in Hp. done.
Qed.
Next Obligation.
  intros r o res s e s' Ha. unfold append, MemoryStore.store in Ha.
  destruct (append_cases r o res s) as [(e' & He & ?)|[Had Hc]]; [|rewrite Hc in Ha; by case_decide].
  rewrite He in Ha. by injection Ha as <- <-.
Qed.
Next Obligation. done. Qed.
Next Obligation. intros. by apply query_selects. Qed.
Next Obligation. done. Qed.

(** *** Seals *)

Lemma check_conflicts_Ok seals root leaves :
  MemoryStore.check_conflicts seals root leaves = Ok tt ↔
  Forall (λ l, ∀ st, seals !! LeafProof.leaf l = Some st →
            SealStatus.batch_root st = Some root) leaves.
Proof.
  induction leaves as [|l leaves IH]; simpl; [split; [constructor|done]|].
  rewrite Forall_cons. destruct (seals !! LeafProof.leaf l) as [st|] eqn:E.
  - case_bool_decide as Hb; [rewrite IH; naive_solver|]. split; [done|].
    intros [Hst _]. by destruct Hb; apply Hst.
  - rewrite IH. naive_solver.
Qed.

Lemma insert_leaves_lookup (f : LeafProof → SealStatus) leaves (m : gmap Hash SealStatus) id :
  (id ∉ LeafProof.leaf <$> leaves ∧
     foldl (λ m l, <[LeafProof.leaf l := f l]> m) m leaves !! id = m !! id) ∨
  ∃ l, l ∈ leaves ∧ LeafProof.leaf l = id ∧
     foldl (λ m l, <[LeafProof.leaf l := f l]> m) m leaves !! id = Some (f l).
Proof.
  revert m; induction leaves as [|l leaves IH]; intros m; simpl; [left; set_solver|].
  destruct (IH (<[LeafProof.leaf l := f l]> m)) as [[Hn ->]|(l' & Hl & Hid & ->)]; [|right; set_solver].
  destruct (decide (LeafProof.leaf l = id)) as [<-|Hne].
  - right. exists l. rewrite lookup_insert_eq. set_solver.
  - left. rewrite lookup_insert_ne by done. set_solver.
Qed.

(** [record_sealed_batch]: refused with the store as it was, or recorded. *)
Lemma record_sealed_batch_cases batch s :
  (∃ e, MemoryStore.record_sealed_batch batch s = (Err e, s)) ∨
  SealedBatch.leaves batch ≠ [] ∧
  Forall (λ l, ∀ st, MemoryStore.seals s !! LeafProof.leaf l = Some st →
            SealStatus.batch_root st = Some (SealedBatch.batch_root batch)) (SealedBatch.leaves batch) ∧
  MemoryStore.record_sealed_batch batch s =
    (Ok tt, MemoryStore.mk (MemoryStore.by_id s) (MemoryStore.by_predecessor s)
       (foldl (λ m l, <[LeafProof.leaf l := MemoryStore.status_of batch l]> m)
          (MemoryStore.seals s) (SealedBatch.leaves batch))).
Proof.
  unfold MemoryStore.record_sealed_batch.
  destruct (SealedBatch.leaves batch) as [|l leaves] eqn:E; [left; by eexists|].
  unfold mthen, gets, lift, modify.
  destruct (MemoryStore.check_conflicts _ _ _) as [[]|e] eqn:Hc; [|left; by eexists].
  right. split; [done|]. split; [by apply check_conflicts_Ok|done].
Qed.

Lemma status_of_root batch l :
  SealStatus.batch_root (MemoryStore.status_of batch l) = Some (SealedBatch.batch_root batch).
Proof. unfold MemoryStore.status_of. by destruct (SealedBatch.commitment_id batch). Qed.

(** ** Histories *)

(** The mutating operations of the two traits; readers do not change the store. *)
Inductive Op :=
| Append (r : Receipt) (o : AppendOptions) (res : PassportResolver)
| RecordSealedBatch (batch : SealedBatch).

Definition step s (op : Op) : MemoryStore :=
  match op with
  | Append r o res => (MemoryStore.append r o res s).2
  | RecordSealedBatch batch => (MemoryStore.record_sealed_batch batch s).2
  end.
Definition run (ops : list Op) s : MemoryStore := foldl step s ops.

Lemma step_inv s op : inv s → inv (step s op).
Proof.
  destruct op as [r o res|batch]; simpl; [apply inv_append|].
  intros Hs. destruct (record_sealed_batch_cases batch s) as [(e & ->)|(_ & _ & ->)]; [done|].
  destruct Hs. by split.
Qed.

Lemma run_inv ops s : inv s → inv (run ops s).
Proof. revert s; induction ops as [|op ops IH]; intros s Hs; [done|]. by apply IH, step_inv. Qed.

Lemma step_by_id s op id r :
  MemoryStore.by_id (step s op) !! id = Some r →
  MemoryStore.by_id s !! id = Some r ∨
  ∃ o res, op = Append r o res ∧ id = receipt_id r ∧ admissible r res.
Proof.
  destruct op as [r' o res|batch]; simpl.
  - destruct (append_cases r' o res s) as [(e & -> & _)|[Had ->]]; [auto|].
    case_decide; simpl; [auto|]. rewrite lookup_insert_Some. intros [[<- <-]|[_ ?]]; [|auto].
    right. eauto.
  - destruct (record_sealed_batch_cases batch s) as [(e & ->)|(_ & _ & ->)]; simpl; auto.
Qed.

Lemma step_grows s op : MemoryStore.by_id s ⊆ MemoryStore.by_id (step s op).
Proof.
  destruct op as [r o res|batch]; simpl.
  - destruct (append_cases r o res s) as [(e & -> & _)|[Had ->]]; [done|].
    case_decide as Hp; simpl; [done|]. apply insert_subseteq. by apply eq_None_not_Some.
  - destruct (record_sealed_batch_cases batch s) as [(e & ->)|(_ & _ & ->)]; done.
Qed.

Lemma run_grows ops s : MemoryStore.by_id s ⊆ MemoryStore.by_id (run ops s).
Proof.
  revert s; induction ops as [|op ops IH]; intros s; [done|]. simpl.
  etrans; [apply (step_grows s op)|apply IH].
Qed.

Lemma run_origin ops s id r :
  MemoryStore.by_id (run ops s) !! id = Some r →
  MemoryStore.by_id s !! id = Some r ∨
  ∃ o res, Append r o res ∈ ops ∧ id = receipt_id r ∧ admissible r res.
Proof.
  revert s; induction ops as [|op ops IH]; intros s; simpl; [auto|].
  intros [Hs|(o & res & Hin & ? & ?)]%IH; [|right; set_solver].
  apply step_by_id in Hs as [?|(o & res & -> & ? & ?)]; [auto|right; set_solver].
Qed.

(** A seal, once recorded, keeps its batch root. *)
Lemma step_seal_root s op id st root :
  MemoryStore.seals s !! id = Some st → SealStatus.batch_root st = Some root →
  ∃ st', MemoryStore.seals (step s op) !! id = Some st' ∧ SealStatus.batch_root st' = Some root.
Proof.
  intros Hst Hroot. destruct op as [r o res|batch]; simpl.
  - destruct (append_cases r o res s) as [(e & -> & _)|[_ ->]]; [by exists st|].
    case_decide; by exists st.
  - destruct (record_sealed_batch_cases batch s) as [(e & ->)|(_ & Hall & ->)]; [by exists st|].
    simpl. destruct (insert_leaves_lookup (MemoryStore.status_of batch) (SealedBatch.leaves batch)
      (MemoryStore.seals s) id) as [[_ ->]|(l & Hl & <- & ->)]; [by exists st|].
    eexists; split; [done|]. rewrite status_of_root. rewrite Forall_forall in Hall.
    specialize (Hall l Hl st Hst). congruence.
Qed.

Lemma run_seal_root ops s id st root :
  MemoryStore.seals s !! id = Some st → SealStatus.batch_root st = Some root →
  ∃ st', MemoryStore.seals (run ops s) !! id = Some st' ∧ SealStatus.batch_root st' = Some root.
Proof.
  revert s st; induction ops as [|op ops IH]; intros s st Hst Hroot; [by exists st|].
  destruct (step_seal_root s op id st root Hst Hroot) as (st' & ? & ?). by eapply IH.
Qed.

Lemma record_status batch s s1 id :
  MemoryStore.record_sealed_batch batch s = (Ok tt, s1) →
  id ∈ LeafProof.leaf <$> SealedBatch.leaves batch →
  ∃ l, l ∈ SealedBatch.leaves batch ∧ LeafProof.leaf l = id ∧
       MemoryStore.seals s1 !! id = Some (MemoryStore.status_of batch l).
Proof.
  destruct (record_sealed_batch_cases batch s) as [(e & ->)|(_ & _ & ->)]; [done|].
  intros [= <-] Hid. simpl.
  destruct (insert_leaves_lookup (MemoryStore.status_of batch) (SealedBatch.leaves batch)
    (MemoryStore.seals s) id) as [[Hn _]|(l & ? & ? & ?)]; [done|eauto].
Qed.

Lemma record_again_Ok b1 b2 s s1 :
  MemoryStore.record_sealed_batch b1 s = (Ok tt, s1) →
  SealedBatch.leaves b2 = SealedBatch.leaves b1 → SealedBatch.batch_root b2 = SealedBatch.batch_root b1 →
  ∃ s2, MemoryStore.record_sealed_batch b2 s1 = (Ok tt, s2).
Proof.
  intros H1 Hl Hr. unfold MemoryStore.record_sealed_batch, mthen, gets, lift, modify. rewrite Hl.
  destruct (SealedBatch.leaves b1) as [|l1 ls] eqn:El.
  { unfold MemoryStore.record_sealed_batch in H1. by rewrite El in H1. }
  rewrite <- El in *. rewrite (proj2 (check_conflicts_Ok _ _ _)); [by eexists|].
  apply Forall_forall. intros l Hin st Hst.
  destruct (record_status _ _ _ (LeafProof.leaf l) H1) as (l2 & _ & _ & Hst2).
  - apply list_elem_of_fmap. eauto.
  - rewrite Hst in Hst2. injection Hst2 as ->. by rewrite Hr, status_of_root.
Qed.

(** ** Properties *)

(** [C5] The store is an append-only, content-addressed log.  After any
    sequence of appends and seals on an empty store, a later sequence never
    removes or replaces a stored receipt; every stored receipt sits under its
    own content address, and was handed to an [append] that resolved its actor
    and verified its signatures. *)
Theorem store_append_only (ops1 ops2 : list Op) :
  MemoryStore.by_id (run ops1 MemoryStore.new) ⊆ MemoryStore.by_id (run (ops1 ++ ops2) MemoryStore.new) ∧
  ∀ id r, MemoryStore.by_id (run ops1 MemoryStore.new) !! id = Some r →
    id = receipt_id r ∧ ∃ o res, Append r o res ∈ ops1 ∧ admissible r res.
Proof.
  split.
  - unfold run. rewrite foldl_app. apply run_grows.
  - intros id r Hr. destruct (run_origin _ _ _ _ Hr) as [Hn|(o & res & ? & ? & ?)]; [|eauto].
    simpl in Hn. by apply lookup_empty_Some in Hn.
Qed.

(** [append] is idempotent on content and total on admissible receipts:
    a receipt is stored exactly when it is admissible and its address is new;
    a second append of the same address reports [AlreadyPresent] and leaves
    the whole store unchanged; a rejected receipt leaves it unchanged too. *)
Lemma append_exact (r : Receipt) (o : AppendOptions) (res : PassportResolver) (s : MemoryStore) :
  (is_ok (MemoryStore.append r o res s).1 = true ↔ admissible r res) ∧
  (∀ out, (MemoryStore.append r o res s).1 = Ok out →
     AppendOutcome.receipt_id out = receipt_id r ∧
     (AppendOutcome.kind out = AppendKind.AlreadyPresent ↔
        is_Some (MemoryStore.by_id s !! receipt_id r))) ∧
  (¬ admissible r res ∨ is_Some (MemoryStore.by_id s !! receipt_id r) →
     (MemoryStore.append r o res s).2 = s) ∧
  (admissible r res → MemoryStore.by_id s !! receipt_id r = None →
     MemoryStore.by_id (MemoryStore.append r o res s).2
       = <[receipt_id r := r]> (MemoryStore.by_id s)).
Proof.
  destruct (append_cases r o res s) as [(e & -> & Hn)|[Had ->]]; simpl; [naive_solver|].
  case_decide as Hp; simpl.
  - split_and!; [done| |done|]; [by intros ? [= <-]|]. intros _ Hnone. rewrite Hnone in Hp. by destruct Hp.
  - split_and!; [done| | |done]; [by intros ? [= <-]|]. intros []; done.
Qed.

(** Every query of a reachable store returns exactly the receipts it
    selects; in particular the causal index never misses or invents a
    successor.  A successor appears in it as often as it names the predecessor. *)
Lemma queries_exact (ops : list Op) (q : Query) (tok : option bytes) (r : Receipt) :
  let s := run ops MemoryStore.new in
  (∃ page, MemoryStore.query q tok s = Ok page ∧
     (r ∈ Page.receipts page ↔ ∃ id, selects (MemoryStore.by_id s) q id r)) ∧
  (∀ p id, times_in id (default [] (MemoryStore.by_predecessor s !! p)) =
     match MemoryStore.by_id s !! id with
     | Some r => times_in p (CausalRef.predecessors (Receipt.causal r))
     | None => 0
     end).
Proof.
  intros s. assert (inv s) as Hs by apply run_inv, inv_new.
  split; [by apply query_selects|by destruct Hs].
Qed.

(** Seals are recorded all or nothing, and never move to another batch:
    a refused batch changes nothing; an accepted one gives every leaf a seal
    with the batch's root and its own path, touches no other receipt's seal,
    and no receipt at all; and whatever happens later, a sealed receipt keeps
    its batch root. *)
Lemma seals_all_or_nothing (s : MemoryStore) (batch : SealedBatch) :
  let '(res, s') := MemoryStore.record_sealed_batch batch s in
  (is_ok res = false → s' = s) ∧
  MemoryStore.by_id s' = MemoryStore.by_id s ∧
  (is_ok res = true →
     (∀ id, id ∈ LeafProof.leaf <$> SealedBatch.leaves batch →
        ∃ l, l ∈ SealedBatch.leaves batch ∧ LeafProof.leaf l = id ∧
             MemoryStore.seal_status id s' = Ok (MemoryStore.status_of batch l)) ∧
     (∀ id, id ∉ LeafProof.leaf <$> SealedBatch.leaves batch →
        MemoryStore.seal_status id s' = MemoryStore.seal_status id s)) ∧
  (∀ ops id st root, MemoryStore.seals s' !! id = Some st → SealStatus.batch_root st = Some root →
     ∃ st', MemoryStore.seals (run ops s') !! id = Some st' ∧ SealStatus.batch_root st' = Some root).
Proof.
  destruct (record_sealed_batch_cases batch s) as [(e & ->)|(_ & _ & ->)].
  - split_and!; [done|done|done|]. intros. by eapply run_seal_root.
  - split_and!; [done|done| |].
    + intros _. unfold MemoryStore.seal_status. simpl.
      split; intros id Hid;
        destruct (insert_leaves_lookup (MemoryStore.status_of batch) (SealedBatch.leaves batch)
          (MemoryStore.seals s) id) as [[Hn ->]|(l & Hl & <- & ->)]; try done; [by exists l|].
      destruct Hid. apply list_elem_of_fmap. eauto.
    + intros. by eapply run_seal_root.
Qed.

(** Recording a batch again under the same root is not a no-op: the
    statuses are written anew, so re-recording an anchored batch without its
    commitment id erases the on-chain transaction digest of its receipts. *)
Lemma reseal_erases_anchor (s s1 : MemoryStore) (b1 b2 : SealedBatch) (id : Hash) :
  MemoryStore.record_sealed_batch b1 s = (Ok tt, s1) →
  SealedBatch.commitment_id b1 ≠ [] →
  SealedBatch.leaves b2 = SealedBatch.leaves b1 → SealedBatch.batch_root b2 = SealedBatch.batch_root b1 →
  SealedBatch.commitment_id b2 = [] →
  id ∈ LeafProof.leaf <$> SealedBatch.leaves b1 →
  ∃ s2 st1 st2, MemoryStore.record_sealed_batch b2 s1 = (Ok tt, s2) ∧
    MemoryStore.seal_status id s1 = Ok st1 ∧
    SealStatus.on_chain_tx_digest st1 = Some (SealedBatch.commitment_id b1) ∧
    MemoryStore.seal_status id s2 = Ok st2 ∧ SealStatus.on_chain_tx_digest st2 = None.
Proof.
  intros H1 Hc1 Hl Hr Hc2 Hid. destruct (record_again_Ok _ _ _ _ H1 Hl Hr) as [s2 H2].
  destruct (record_status _ _ _ _ H1 Hid) as (l1 & _ & _ & Hst1).
  rewrite <- Hl in Hid. destruct (record_status _ _ _ _ H2 Hid) as (l2 & _ & _ & Hst2).
  do 3 eexists. split; [exact H2|]. unfold MemoryStore.seal_status. rewrite Hst1, Hst2. simpl.
  split_and!; [done| |done|]; unfold MemoryStore.status_of; [|by rewrite Hc2].
  by destruct (SealedBatch.commitment_id b1).
Qed.

End laws.

(** ** Witnesses *)

Module StoreToy.
Import MerkleToy.
Definition batch (commitment : bytes) : SealedBatch :=
  let m := built batch3 in
  SealedBatch.mk (MerkleBatch.root m) (MerkleBatch.leaves m) (Timestamp.mk "9" 9) ∅ (0, 0)%N commitment.
Definition anchored : MemoryStore :=
  (MemoryStore.record_sealed_batch (batch (replicate 32 "007"%byte)) MemoryStore.new).2.
Definition first_leaf : Hash := LeafProof.leaf (proof 0 batch3).
End StoreToy.

Lemma reseal_erases_anchor_witness :
  ∃ s2 st1 st2, MemoryStore.record_sealed_batch (StoreToy.batch []) StoreToy.anchored = (Ok tt, s2) ∧
    MemoryStore.seal_status StoreToy.first_leaf StoreToy.anchored = Ok st1 ∧
    SealStatus.on_chain_tx_digest st1
      = Some (SealedBatch.commitment_id (StoreToy.batch (replicate 32 "007"%byte))) ∧
    MemoryStore.seal_status StoreToy.first_leaf s2 = Ok st2 ∧ SealStatus.on_chain_tx_digest st2 = None.
Proof.
  apply (reseal_erases_anchor MemoryStore.new StoreToy.anchored
           (StoreToy.batch (replicate 32 "007"%byte)) (StoreToy.batch [])).
  - vm_compute. reflexivity.
  - discriminate.
  - reflexivity.
  - reflexivity.
  - reflexivity.
  - apply (bool_decide_unpack _). vm_compute. exact I.
Defined.
