(* ===== verification/ReplayStore.v ===== *)
(** * [yutha-receipt/src/replay_store.rs]: the stores of replay sessions

    The in-memory replay store: a map from session ids to their metadata and
    their own receipt store.  [session_store] hands out a shared reference, so
    the stores live on a heap, and a reference outlives its session. *)

From S2P Require Import Prelude RustStd Core CoreProto Crypto ReceiptTypes ReceiptProto Merkle.
From S2P Require Import ReceiptVerify ReceiptStore.

Module ReplaySessionId.
(* yutha-receipt/src/replay_store.rs:65-65 ReplaySessionId *)
Record ReplaySessionId := mk { uuid : bytes }.
#[global] Instance eq_dec : EqDecision ReplaySessionId.
Proof. solve_decision. Defined.
#[global] Instance countable : Countable ReplaySessionId := inj_countable' uuid mk ltac:(by intros []).
(* yutha-receipt/src/replay_store.rs:96-103 ReplaySessionId::fmt *)
Definition to_string (i : ReplaySessionId) : string := uuid_display (uuid i).
(* yutha-receipt/src/replay_store.rs:74-76 ReplaySessionId::as_bytes *)
Definition as_bytes (i : ReplaySessionId) : bytes := uuid i.
(** The derived order: by bytes. *)
Definition le (i j : ReplaySessionId) : Prop := bytes_le (uuid i) (uuid j).
End ReplaySessionId.
Notation ReplaySessionId := ReplaySessionId.ReplaySessionId.

(* yutha-receipt/src/replay_store.rs:108-115 ReplayMode *)
Inductive ReplayMode := Cold | Warm.

Module ReplaySessionWindow.
(* yutha-receipt/src/replay_store.rs:123-132 ReplaySessionWindow *)
Record ReplaySessionWindow := mk {
  from_unix_ns : N; to_unix_ns : N; action_kind_filter : list string }.
End ReplaySessionWindow.
Notation ReplaySessionWindow := ReplaySessionWindow.ReplaySessionWindow.

Module Metadata.
(* yutha-receipt/src/replay_store.rs:139-161 ReplaySessionMetadata *)
Record ReplaySessionMetadata := mk {
  session_id : ReplaySessionId; candidate_constitution_hash : Hash;
  candidate_constitution_version : string; window : ReplaySessionWindow; mode : ReplayMode;
  warm_lookback_hours : N; created_at : Timestamp; last_active_at : Timestamp;
  receipts_replayed : N }.
(** The two fields a touch changes. *)
Definition touched (delta : N) (now : Timestamp) (m : ReplaySessionMetadata) : ReplaySessionMetadata :=
  mk (session_id m) (candidate_constitution_hash m) (candidate_constitution_version m) (window m) (mode m)
    (warm_lookback_hours m) (created_at m) now (u64_saturating_add (receipts_replayed m) delta).
Definition le (a b : ReplaySessionMetadata) : Prop := ReplaySessionId.le (session_id a) (session_id b).
#[global] Instance le_dec : RelDecision le.
Proof. intros a b. unfold le, ReplaySessionId.le. apply _. Defined.
#[global] Instance le_total : Total le.
Proof. intros a b. unfold le, ReplaySessionId.le. apply (total bytes_le). Qed.
#[global] Instance le_trans : Transitive le.
Proof. intros a b c. unfold le, ReplaySessionId.le. apply transitivity. Qed.
End Metadata.
Notation ReplaySessionMetadata := Metadata.ReplaySessionMetadata.

Module MemoryReplayStore.
(** A store is named by its place on the heap. *)
(* yutha-receipt/src/replay_store.rs:252-255 SessionSlot *)
Record SessionSlot := mkSlot { store : nat; metadata : ReplaySessionMetadata }.
(* yutha-receipt/src/replay_store.rs:240-249 MemoryReplayStore, MemoryReplayStoreInner *)
Record MemoryReplayStore := mk { heap : list MemoryStore; sessions : gmap ReplaySessionId SessionSlot }.
(* yutha-receipt/src/replay_store.rs:259-261 MemoryReplayStore::new *)
Definition new : MemoryReplayStore := mk [] ∅.
Implicit Types (s : MemoryReplayStore).

(** [contended]: a writer holds the lock, so that [try_read] fails. *)
(* yutha-receipt/src/replay_store.rs:266-294 MemoryReplayStore::session_store *)
Definition session_store (contended : bool) (session_id : ReplaySessionId) s : nat * MemoryReplayStore :=
  match (if contended then None else sessions s !! session_id) with
  | Some slot => (store slot, s)
  | None => (length (heap s), mk (heap s ++ [MemoryStore.new]) (sessions s))
  end.

(* yutha-receipt/src/replay_store.rs:296-314 MemoryReplayStore::create_session *)
Definition create_session (m : ReplaySessionMetadata) : M MemoryReplayStore ReceiptError unit :=
  let! present := gets (λ s, bool_decide (is_Some (sessions s !! Metadata.session_id m))) in
  if present : bool then
    throw (ReceiptError.Backend
             ("replay session " +:+ ReplaySessionId.to_string (Metadata.session_id m) +:+ " already exists"))
  else
    modify (λ s, mk (heap s ++ [MemoryStore.new])
                   (<[Metadata.session_id m := mkSlot (length (heap s)) m]> (sessions s))).

(* yutha-receipt/src/replay_store.rs:316-320 MemoryReplayStore::delete_session *)
Definition delete_session (session_id : ReplaySessionId) : M MemoryReplayStore ReceiptError unit :=
  modify (λ s, mk (heap s) (delete session_id (sessions s))).

(** The order of a hash map's values does not matter: they are sorted by their
    ids, which are distinct. *)
(* yutha-receipt/src/replay_store.rs:322-334 MemoryReplayStore::list_sessions *)
Definition list_sessions s : Result (list ReplaySessionMetadata) ReceiptError :=
  Ok (merge_sort Metadata.le (metadata <$> (map_to_list (sessions s)).*2)).

(* yutha-receipt/src/replay_store.rs:336-342 MemoryReplayStore::get_session *)
Definition get_session (session_id : ReplaySessionId) s
  : Result (option ReplaySessionMetadata) ReceiptError :=
  Ok (metadata <$> sessions s !! session_id).

(* yutha-receipt/src/replay_store.rs:344-359 MemoryReplayStore::touch_session *)
Definition touch_session (session_id : ReplaySessionId) (receipts_replayed_delta : N) (now : Timestamp)
  : M MemoryReplayStore ReceiptError unit :=
  modify (λ s, mk (heap s)
    (alter (λ slot, mkSlot (store slot) (Metadata.touched receipts_replayed_delta now (metadata slot)))
       session_id (sessions s))).

(** A call of the receipt store a reference leads to. *)
Definition via {A} (handle : nat) (m : M MemoryStore ReceiptError A) : M MemoryReplayStore ReceiptError A :=
  λ s, match heap s !! handle with
       | Some st => let '(r, st') := m st in (r, mk (<[handle := st']> (heap s)) (sessions s))
       | None => (Err (ReceiptError.Backend "no such store"), s)
       end.
End MemoryReplayStore.
Notation MemoryReplayStore := MemoryReplayStore.MemoryReplayStore.

(** ** What the replay store keeps *)

Section proofs.
Context `{CryptoOps} `{Encode rproto.Receipt}.
Import MemoryReplayStore.
Implicit Types (s : MemoryReplayStore).

Inductive ReplayOp :=
| Create (m : ReplaySessionMetadata)
| Delete (id : ReplaySessionId)
| Touch (id : ReplaySessionId) (delta : N) (now : Timestamp)
| Handle (contended : bool) (id : ReplaySessionId)
| AppendVia (handle : nat) (r : Receipt) (o : AppendOptions) (res : PassportResolver).

Definition replay_step s (op : ReplayOp) : MemoryReplayStore :=
  match op with
  | Create m => (create_session m s).2
  | Delete id => (delete_session id s).2
  | Touch id delta now => (touch_session id delta now s).2
  | Handle contended id => (session_store contended id s).2
  | AppendVia h r o res => (via h (append r o res) s).2
  end.
Definition replay_run (ops : list ReplayOp) s : MemoryReplayStore := foldl replay_step s ops.

(** The specification: a map of metadata. *)
Definition spec_step (m : gmap ReplaySessionId ReplaySessionMetadata) (op : ReplayOp)
  : gmap ReplaySessionId ReplaySessionMetadata :=
  match op with
  | Create d => match m !! Metadata.session_id d with Some _ => m | None => <[Metadata.session_id d := d]> m end
  | Delete id => delete id m
  | Touch id delta now => alter (Metadata.touched delta now) id m
  | _ => m
  end.
Definition spec_sessions (ops : list ReplayOp) : gmap ReplaySessionId ReplaySessionMetadata :=
  foldl spec_step ∅ ops.

(** Sessions are filed under their own ids, each has a store of its own, and
    every store keeps its contract. *)
Record replay_inv s : Prop := {
  inv_filed id slot : sessions s !! id = Some slot → Metadata.session_id (metadata slot) = id;
  inv_own id id' slot slot' : sessions s !! id = Some slot → sessions s !! id' = Some slot' →
    store slot = store slot' → id = id';
  inv_alloc id slot : sessions s !! id = Some slot → store slot < length (heap s);
  inv_stores : Forall store_inv (heap s)
}.

Lemma sessions_via {A} h (m : M MemoryStore ReceiptError A) s : sessions (via h m s).2 = sessions s.
Proof. unfold via. destruct (heap s !! h); [|done]. by destruct (m _). Qed.

Lemma create_session_eq m s :
  (create_session m s).2 =
  if bool_decide (is_Some (sessions s !! Metadata.session_id m)) then s
  else mk (heap s ++ [MemoryStore.new])
         (<[Metadata.session_id m := mkSlot (length (heap s)) m]> (sessions s)).
Proof. unfold create_session, mthen, gets. by case_bool_decide. Qed.

Lemma sessions_handle c id s : sessions (session_store c id s).2 = sessions s.
Proof. unfold session_store. by destruct (if c then None else _). Qed.

Lemma replay_step_spec s op :
  metadata <$> sessions (replay_step s op) = spec_step (metadata <$> sessions s) op.
Proof.
  destruct op as [m|id|id delta now|c id|h r o res]; simpl.
  - rewrite create_session_eq, lookup_fmap. destruct (sessions s !! Metadata.session_id m) eqn:E; simpl.
    + done.
    + by rewrite fmap_insert.
  - by rewrite fmap_delete.
  - apply map_eq. intros i. rewrite lookup_fmap. destruct (decide (i = id)) as [->|Hne].
    + rewrite !lookup_alter_eq, lookup_fmap. by destruct (sessions s !! id).
    + by rewrite !lookup_alter_ne, lookup_fmap.
  - by rewrite sessions_handle.
  - by rewrite sessions_via.
Qed.

Lemma replay_run_spec ops s :
  metadata <$> sessions (replay_run ops s) = foldl spec_step (metadata <$> sessions s) ops.
Proof.
  revert s; induction ops as [|op ops IH]; intros s; [done|]. simpl. by rewrite IH, replay_step_spec.
Qed.

Lemma heap_via {A} h (m : M MemoryStore ReceiptError A) s h' :
  heap (via h m s).2 !! h' = if decide (h' = h) then (λ st, (m st).2) <$> heap s !! h else heap s !! h'.
Proof.
  unfold via. case_decide as Hh; [subst h'|]; destruct (heap s !! h) as [st|] eqn:E; simpl; try done.
  - destruct (m st) as [r st']. simpl. apply list_lookup_insert_eq. by eapply lookup_lt_Some.
  - destruct (m st) as [r st']. simpl. by apply list_lookup_insert_ne.
Qed.

Lemma replay_inv_new : replay_inv new.
Proof. split; simpl; try (intros *; rewrite lookup_empty; done). constructor. Qed.

Lemma stores_snoc l : Forall store_inv l → Forall store_inv (l ++ [MemoryStore.new]).
Proof. intros Hl. apply Forall_app. split; [done|]. constructor; [exact inv_new|constructor]. Qed.

Lemma replay_step_inv s op : replay_inv s → replay_inv (replay_step s op).
Proof.
  intros [Hf Ho Ha Hs]. destruct op as [m|id|id delta now|c id|h r o res]; cbn [replay_step].
  - rewrite create_session_eq. case_bool_decide as Hp; [by split|].
    split; simpl; [| | |by apply stores_snoc].
    + intros id slot. rewrite lookup_insert_Some. intros [[<- <-]|[_ ?]]; [done|by apply Hf].
    + intros id id' slot slot'. rewrite !lookup_insert_Some.
      intros [[<- <-]|[_ H1]] [[<- <-]|[_ H2]]; simpl; try done.
      * intros He. apply Ha in H2. lia.
      * intros He. apply Ha in H1. lia.
      * by apply Ho.
    + intros id slot. rewrite length_app, lookup_insert_Some. simpl.
      intros [[_ <-]|[_ H1%Ha]]; simpl; lia.
  - split; simpl; [| | |done]; intros id1; intros *; rewrite ?lookup_delete_Some;
      [intros [_ ?]; by apply Hf|intros [_ ?] [_ ?]; by apply Ho|intros [_ ?]; by eapply Ha].
  - split; simpl; [| | |done].
    + intros i slot. rewrite lookup_alter_Some. intros [(-> & sl & Hl & ->)|[_ ?]]; simpl; by apply Hf.
    + intros i i' slot slot'. rewrite !lookup_alter_Some.
      intros [(-> & sl & Hl & ->)|[_ ?]] [(-> & sl' & Hl' & ->)|[_ ?]]; simpl; try done; by eapply Ho.
    + intros i slot. rewrite lookup_alter_Some. intros [(-> & sl & Hl & ->)|[_ ?]]; simpl; by eapply Ha.
  - unfold session_store. destruct (if c then None else _); [by split|]. split; simpl; [done|done| |by apply stores_snoc].
    intros i slot ?%Ha. rewrite length_app. lia.
  - unfold via. destruct (heap s !! h) as [st|] eqn:E; [|by split].
    assert (store_inv (append r o res st).2) as Hst.
    { apply append_inv. rewrite Forall_lookup in Hs. by eapply Hs. }
    destruct (append r o res st) as [out st']. split; simpl; try done.
    + intros i slot ?%Ha. by rewrite length_insert.
    + by apply Forall_insert.
Qed.

Lemma replay_run_inv ops s : replay_inv s → replay_inv (replay_run ops s).
Proof. revert s; induction ops as [|op ops IH]; intros s Hs; [done|]. by apply IH, replay_step_inv. Qed.

Definition strictly_before (a b : ReplaySessionMetadata) : Prop :=
  Metadata.le a b ∧ Metadata.session_id a ≠ Metadata.session_id b.

(** The sessions of the in-memory replay store, after any sequence of
    calls, are what the calls amount to: a session id is taken until it is
    deleted, touching adds to the count without overflow and sets the time of
    the last activity, and nothing else changes the metadata; [get] looks it up,
    and [list] gives exactly the live sessions, strictly in the order of their
    ids. *)
Lemma replay_sessions_exact ops :
  let s := replay_run ops new in
  (∀ id, get_session id s = Ok (spec_sessions ops !! id)) ∧
  ∃ l, list_sessions s = Ok l ∧ StronglySorted strictly_before l ∧
    ∀ m, m ∈ l ↔ spec_sessions ops !! Metadata.session_id m = Some m.
Proof.
  intros s. pose proof (replay_run_spec ops new) as Hspec.
  change (metadata <$> sessions new) with (∅ : gmap ReplaySessionId ReplaySessionMetadata) in Hspec.
  fold s in Hspec. change (foldl spec_step ∅ ops) with (spec_sessions ops) in Hspec.
  pose proof (replay_run_inv ops new replay_inv_new) as Hinv. fold s in Hinv. clearbody s.
  split.
  - intros id. unfold get_session. by rewrite <- Hspec, lookup_fmap.
  - eexists. split; [reflexivity|]. set (l := metadata <$> _).
    assert (∀ m, m ∈ l ↔ spec_sessions ops !! Metadata.session_id m = Some m) as Hl.
    { intros m. unfold l. rewrite list_elem_of_fmap. rewrite <- Hspec, lookup_fmap, fmap_Some. split.
      - intros (slot & -> & Hin). apply list_elem_of_fmap in Hin as ([id slot'] & -> & Hin).
        apply elem_of_map_to_list in Hin. exists slot'. split; [|done]. cbn [snd]. by rewrite (inv_filed _ Hinv _ _ Hin).
      - intros (slot & Hin & ->). exists slot. split; [done|]. apply list_elem_of_fmap.
        eexists (_, slot). split; [done|]. by apply elem_of_map_to_list. }
    split; [|intros m; by rewrite merge_sort_Permutation].
    assert (NoDup (Metadata.session_id <$> l)) as Hnd.
    { unfold l. rewrite <- !list_fmap_compose.
      erewrite (list_fmap_ext _ fst); [apply NoDup_fst_map_to_list|].
      intros i [id slot] Hi. apply list_elem_of_lookup_2, elem_of_map_to_list in Hi.
      exact (inv_filed _ Hinv _ _ Hi). }
    rewrite <- (merge_sort_Permutation Metadata.le l) in Hnd.
    pose proof (StronglySorted_merge_sort Metadata.le l) as Hsort.
    clear -Hnd Hsort. induction Hsort as [|m l' _ IH Hall]; [constructor|].
    rewrite fmap_cons, NoDup_cons in Hnd. destruct Hnd as [Hn Hnd]. constructor; [by apply IH|].
    rewrite Forall_forall in Hall |- *. intros b Hb. split; [by apply Hall|].
    intros He. apply Hn. rewrite He. by apply list_elem_of_fmap_2.
Qed.

(** Sessions are isolated: after any sequence of calls, what is appended
    through a session's store reaches that store alone, and a new session starts
    on an empty store that no reference handed out before leads to, even under
    the id of a deleted session. *)
Lemma sessions_isolated ops :
  let s := replay_run ops new in
  (∀ id slot r o res, sessions s !! id = Some slot →
     let s' := replay_step s (AppendVia (store slot) r o res) in
     sessions s' = sessions s ∧
     heap s' !! store slot = (λ st, (append r o res st).2) <$> heap s !! store slot ∧
     ∀ id' slot', id' ≠ id → sessions s !! id' = Some slot' → heap s' !! store slot' = heap s !! store slot') ∧
  (∀ m, sessions s !! Metadata.session_id m = None →
     let s' := replay_step s (Create m) in
     ∃ slot, sessions s' !! Metadata.session_id m = Some slot ∧ heap s' !! store slot = Some MemoryStore.new ∧
       ∀ h r o res, h < length (heap s) →
         heap (replay_step s' (AppendVia h r o res)) !! store slot = Some MemoryStore.new).
Proof.
  intros s. pose proof (replay_run_inv ops new replay_inv_new) as Hinv. fold s in Hinv. clearbody s. split.
  - intros id slot r o res Hs s'. unfold s'. simpl. rewrite sessions_via, heap_via, decide_True by done.
    split; [done|]. split; [done|]. intros id' slot' Hne Hs'. rewrite heap_via, decide_False; [done|].
    intros He. apply Hne. by apply (inv_own _ Hinv _ _ _ _ Hs' Hs).
  - intros m Hm s'. assert (s' = mk (heap s ++ [MemoryStore.new])
      (<[Metadata.session_id m := mkSlot (length (heap s)) m]> (sessions s))) as ->.
    { unfold s'. simpl. rewrite create_session_eq, Hm. by rewrite bool_decide_eq_false_2 by (intros []; congruence). }
    exists (mkSlot (length (heap s)) m). simpl. split; [by rewrite lookup_insert_eq|].
    assert ((heap s ++ [MemoryStore.new]) !! length (heap s) = Some MemoryStore.new) as Hnew.
    { rewrite lookup_app_r, Nat.sub_diag by lia. done. }
    split; [done|]. intros h r o res Hh. rewrite heap_via, decide_False by lia. done.
Qed.
End proofs.
