(* ===== verification/F64.v ===== *)
(** * [f64] as the sources use it: [str::parse] and comparison

    [core]'s decimal parser returns the binary64 number nearest to the decimal
    (ties to even); the Standard Library's [SpecFloat] gives rounding and
    comparison.  The grammar is the documented one of [f64::from_str]. *)

From Stdlib Require Export Floats.SpecFloat.
From S2P Require Import Prelude RustStd.

Definition prec : Z := 53.
Definition emax : Z := 1024.
Definition f64 : Type := spec_float.

Definition infinity : f64 := S754_infinity false.
Definition neg_infinity : f64 := S754_infinity true.

(** The correctly rounded value of [(-1)^neg * m * 10^e]. *)
Definition round_decimal (neg : bool) (m : N) (e : Z) : f64 :=
  match m with
  | N0 => S754_zero neg
  | Npos p =>
      if (0 <=? e)%Z then
        binary_normalize prec emax (cond_Zopp neg (Zpos p * 10 ^ e)) 0 neg
      else
        let '(q, e', l) := SFdiv_core_binary prec emax (Zpos p) 0 (10 ^ (- e)) 0 in
        binary_round_aux prec emax neg q e' l
  end.

(** A run of digits: its value from [acc], how many there were, and the rest. *)
Fixpoint digits (acc : N) (n : nat) (s : string) : N * nat * string :=
  match s with
  | String c t => if is_digit c then digits (acc * 10 + digit_val c)%N (S n) t else (acc, n, s)
  | EmptyString => (acc, n, s)
  end.

Definition lower (c : ascii) : ascii :=
  if (65 <=? N_of_ascii c)%N && (N_of_ascii c <=? 90)%N then ascii_of_N (N_of_ascii c + 32) else c.
Fixpoint lowercase (s : string) : string :=
  match s with EmptyString => EmptyString | String c s => String (lower c) (lowercase s) end.

Definition parse_inf_nan (neg : bool) (s : string) : option f64 :=
  let l := lowercase s in
  if bool_decide (l = "inf") || bool_decide (l = "infinity") then Some (S754_infinity neg)
  else if bool_decide (l = "nan") then Some S754_nan else None.

(** [e], a sign, digits, to the end of the string. *)
Definition parse_exponent (s : string) : option Z :=
  match s with
  | EmptyString => Some 0%Z
  | String c t =>
      if bool_decide (lower c = "e"%char) then
        let '(neg, t) := match t with
                         | String d u => if bool_decide (d = "-"%char) then (true, u)
                                         else if bool_decide (d = "+"%char) then (false, u) else (false, t)
                         | EmptyString => (false, t) end in
        let '(v, n, rest) := digits 0 0 t in
        if bool_decide (n = 0) then None
        else if bool_decide (rest = EmptyString) then Some (if neg : bool then - Z.of_N v else Z.of_N v)%Z
        else None
      else None
  end.

Definition parse_number (neg : bool) (s : string) : option f64 :=
  let '(v, n, rest) := digits 0 0 s in
  let '(v, k, rest) :=
    match rest with
    | String c t => if bool_decide (c = "."%char) then digits v 0 t else (v, 0, rest)
    | EmptyString => (v, 0, rest)
    end in
  if bool_decide (n + k = 0) then None
  else match parse_exponent rest with
       | Some e => Some (round_decimal neg v (e - Z.of_nat k))
       | None => None
       end.

(** [s.parse::<f64>().ok()] *)
Definition parse_f64 (s : string) : option f64 :=
  match s with
  | EmptyString => None
  | String c t =>
      let neg := bool_decide (c = "-"%char) in
      let body := if neg || bool_decide (c = "+"%char) then t else s in
      match body with
      | EmptyString => None
      | _ => match parse_number neg body with
             | Some x => Some x
             | None => parse_inf_nan neg body
             end
      end
  end.

Example parse_f64_500 : parse_f64 "500" = parse_f64 "500.00".
Proof. vm_compute. reflexivity. Qed.
Example parse_f64_exp : parse_f64 "-1.5e2" = parse_f64 "-150".
Proof. vm_compute. reflexivity. Qed.
Example parse_f64_tenth : parse_f64 "0.1" = Some (S754_finite false 7205759403792794 (-56)).
Proof. vm_compute. reflexivity. Qed.
Example parse_f64_bad : parse_f64 "1e" = None /\ parse_f64 "." = None /\ parse_f64 "+" = None.
Proof. vm_compute. done. Qed.

(** ** The order: [<=] is transitive, and total away from NaN *)

Definition is_nan (x : f64) : bool := match x with S754_nan => true | _ => false end.

Lemma SFleb_spec x y :
  SFleb x y = true ↔ ∃ c, SFcompare x y = Some c ∧ c ≠ Gt.
Proof. unfold SFleb. destruct (SFcompare x y) as [[]|]; naive_solver. Qed.

(** Every non-NaN number as a point of a lexicographic order. *)
Definition f64_key (x : f64) : Z * Z * Z :=
  match x with
  | S754_infinity true => (-2, 0, 0)%Z
  | S754_finite true m e => (-1, - e, Zneg m)%Z
  | S754_zero _ => (0, 0, 0)%Z
  | S754_finite false m e => (1, e, Zpos m)%Z
  | S754_infinity false => (2, 0, 0)%Z
  | S754_nan => (0, 0, 0)%Z
  end.
Definition key_le (a b : Z * Z * Z) : Prop :=
  let '(a1, a2, a3) := a in let '(b1, b2, b3) := b in
  (a1 < b1 ∨ a1 = b1 ∧ (a2 < b2 ∨ a2 = b2 ∧ a3 <= b3))%Z.

Lemma SFleb_key x y :
  SFleb x y = true ↔ is_nan x = false ∧ is_nan y = false ∧ key_le (f64_key x) (f64_key y).
Proof.
  unfold SFleb, SFcompare.
  destruct x as [[]|[]| |[] m1 e1], y as [[]|[]| |[] m2 e2]; simpl;
    try (split; [by intros; split_and!; try lia|by intros (_ & _ & ?); try lia]);
    try (split; [done|intros (? & ? & ?); try done; lia]).
  - destruct (Z.compare_spec e1 e2) as [->|?|?].
    + rewrite Pos.compare_cont_spec. destruct (Pos.compare_spec m1 m2); simpl;
        (split; [intros; split_and!; try done; lia|intros (_ & _ & ?); try done; lia]).
    + split; [done|]. intros (_ & _ & ?). lia.
    + split; [|done]. intros _. split_and!; try done. lia.
  - destruct (Z.compare_spec e1 e2) as [->|?|?].
    + rewrite Pos.compare_cont_spec. destruct (Pos.compare_spec m1 m2); simpl;
        (split; [intros; split_and!; try done; lia|intros (_ & _ & ?); try done; lia]).
    + split; [|done]. intros _. split_and!; try done. lia.
    + split; [done|]. intros (_ & _ & ?). lia.
Qed.

Lemma SFleb_trans x y z : SFleb x y = true → SFleb y z = true → SFleb x z = true.
Proof.
  rewrite !SFleb_key. intros (? & ? & H1) (_ & ? & H2). split_and!; [done..|].
  unfold key_le in *. destruct (f64_key x) as [[]], (f64_key y) as [[]], (f64_key z) as [[]]. lia.
Qed.

Lemma SFleb_total x y : is_nan x = false → is_nan y = false → SFleb x y = false → SFleb y x = true.
Proof.
  intros Hx Hy Hf. apply SFleb_key. split_and!; [done..|].
  assert (¬ key_le (f64_key x) (f64_key y)) as Hn.
  { intros Hk. assert (SFleb x y = true) by (by apply SFleb_key). congruence. }
  unfold key_le in *. destruct (f64_key x) as [[]], (f64_key y) as [[]]. lia.
Qed.

Lemma SFleb_refl x : is_nan x = false → SFleb x x = true.
Proof.
  intros Hx. apply SFleb_key. split_and!; [done..|]. unfold key_le.
  destruct (f64_key x) as [[]]. lia.
Qed.

Lemma SFleb_infinity_l y : SFleb infinity y = true ↔ y = infinity.
Proof. rewrite SFleb_key. split; [|by intros ->; simpl; split_and!; [..|lia]]. destruct y as [[]|[]| |[]]; simpl; intros (_ & ? & ?); try done; lia. Qed.

Lemma SFleb_neg_infinity_r x : SFleb x neg_infinity = true ↔ x = neg_infinity.
Proof. rewrite SFleb_key. split; [|by intros ->; simpl; split_and!; [..|lia]]. destruct x as [[]|[]| |[]]; simpl; intros (? & _ & ?); try done; lia. Qed.

Lemma SFleb_infinity_r x : is_nan x = false → SFleb x infinity = true.
Proof. intros Hx. apply SFleb_key. split_and!; [done..|]. destruct x as [[]|[]| |[]]; simpl; try done; lia. Qed.
