(* ===== verification/Scope.v ===== *)
(** * [yutha-capability]: [scope.rs], [caveat.rs], [check.rs]

    What a capability permits, and how scopes combine along a chain of
    attenuations.  [admits] reads a scope as a predicate on actions; the
    theorems compare [intersect] with the conjunction of predicates. *)

From S2P Require Import Prelude RustStd Core F64.

Module ActionDescriptor.
(* yutha-capability/src/check.rs:9-21 ActionDescriptor *)
Record ActionDescriptor := mk {
  action_kind : string; resource_tags : list string; numeric_values : gmap string string;
  recipient : option string; memory_scope : option string }.
End ActionDescriptor.
Notation ActionDescriptor := ActionDescriptor.ActionDescriptor.

Module CheckOutcome.
(* yutha-capability/src/check.rs:25-37 CheckOutcome *)
Record CheckOutcome := mk {
  permitted : bool; deny_reason : string; matched_caveats : list string;
  unmet_caveats : list string; capability : option Hash }.
(* yutha-capability/src/check.rs:41-49 CheckOutcome::permit *)
Definition permit (capability : option Hash) (matched : list string) : CheckOutcome :=
  mk true "" matched [] capability.
(* yutha-capability/src/check.rs:52-60 CheckOutcome::deny *)
Definition deny (capability : option Hash) (reason : string) (unmet : list string) : CheckOutcome :=
  mk false reason [] unmet capability.
End CheckOutcome.
Notation CheckOutcome := CheckOutcome.CheckOutcome.

(* yutha-capability/src/scope.rs:180-184 decimal_le *)
Definition decimal_le (a b : string) : bool :=
  let av := default infinity (parse_f64 a) in
  let bv := default neg_infinity (parse_f64 b) in
  SFleb av bv.

(* yutha-capability/src/scope.rs:133-141 intersect_or_take_one *)
Definition intersect_or_take_one (lhs rhs : list string) : list string :=
  match lhs, rhs with
  | [], _ => rhs
  | _, [] => lhs
  | _, _ => filter (λ x, contains rhs x = true) lhs
  end.

(* yutha-capability/src/scope.rs:143-145 empty_or_contains *)
Definition empty_or_contains (scope_dim : list string) (needle : string) : bool :=
  match scope_dim with [] => true | _ => existsb (λ s, bool_decide (s = needle)) scope_dim end.

(* yutha-capability/src/scope.rs:149-174 intersect_bounds (one key) *)
Definition smaller_bound (v rhs_v : option string) : option string :=
  match v, rhs_v with
  | Some v, Some rhs_v => Some (if decimal_le rhs_v v then rhs_v else v)
  | Some v, None => Some v
  | None, o => o
  end.

(* yutha-capability/src/scope.rs:149-174 intersect_bounds *)
Definition intersect_bounds (lhs rhs : gmap string string) : gmap string string :=
  merge smaller_bound lhs rhs.

Module Scope.
(* yutha-capability/src/scope.rs:15-28 Scope *)
Record Scope := mk {
  permitted_actions : list string; resource_tags : list string; bounds : gmap string string;
  permitted_recipients : list string; memory_scopes : list string }.
#[global] Instance Scope_eq_dec : EqDecision Scope.
Proof. solve_decision. Defined.
(* yutha-capability/src/scope.rs:33-35 Scope::empty *)
Definition empty : Scope := mk [] [] ∅ [] [].
(* yutha-capability/src/scope.rs:39-44 Scope::for_action *)
Definition for_action (kind : string) : Scope := mk [kind] [] ∅ [] [].
(* yutha-capability/src/scope.rs:47-50 Scope::with_tag *)
Definition with_tag (tag : string) (s : Scope) : Scope :=
  mk (permitted_actions s) (resource_tags s ++ [tag]) (bounds s) (permitted_recipients s)
    (memory_scopes s).
(* yutha-capability/src/scope.rs:53-56 Scope::with_bound *)
Definition with_bound (key value : string) (s : Scope) : Scope :=
  mk (permitted_actions s) (resource_tags s) (<[key := value]> (bounds s))
    (permitted_recipients s) (memory_scopes s).
(* yutha-capability/src/scope.rs:59-62 Scope::with_recipient *)
Definition with_recipient (recipient : string) (s : Scope) : Scope :=
  mk (permitted_actions s) (resource_tags s) (bounds s) (permitted_recipients s ++ [recipient])
    (memory_scopes s).
(* yutha-capability/src/scope.rs:75-89 Scope::intersect *)
Definition intersect (self other : Scope) : Scope :=
  mk (intersect_or_take_one (permitted_actions self) (permitted_actions other))
     (intersect_or_take_one (resource_tags self) (resource_tags other))
     (intersect_bounds (bounds self) (bounds other))
     (intersect_or_take_one (permitted_recipients self) (permitted_recipients other))
     (intersect_or_take_one (memory_scopes self) (memory_scopes other)).
(* yutha-capability/src/scope.rs:108-114 Scope::permits (bounds) *)
Definition bounds_ok (s : Scope) (values : list (string * string)) : bool :=
  forallb (λ '(key, val), match bounds s !! key with
                          | Some scope_bound => decimal_le val scope_bound
                          | None => true
                          end) values.
(* yutha-capability/src/scope.rs:93-128 Scope::permits *)
Definition permits (s : Scope) (d : ActionDescriptor) : bool :=
  if negb (empty_or_contains (permitted_actions s) (ActionDescriptor.action_kind d)) then false
  else if negb (match resource_tags s with
                | [] => true
                | tags => forallb (contains tags) (ActionDescriptor.resource_tags d)
                end) then false
  else if negb (bounds_ok s (btree_iter (ActionDescriptor.numeric_values d))) then false
  else if negb (match ActionDescriptor.recipient d with
                | Some recipient => empty_or_contains (permitted_recipients s) recipient
                | None => true
                end) then false
  else if negb (match ActionDescriptor.memory_scope d with
                | Some mscope => empty_or_contains (memory_scopes s) mscope
                | None => true
                end) then false
  else true.
End Scope.
Notation Scope := Scope.Scope.

Module Caveat.
(* yutha-capability/src/caveat.rs:42-47 TimeOfDay *)
Record TimeOfDay := mkTimeOfDay { from_utc : string; to_utc : string }.
(* yutha-capability/src/caveat.rs:52-57 RateLimit *)
Record RateLimit := mkRateLimit { max_actions : N; window_seconds : N }.
(* yutha-capability/src/caveat.rs:10-37 Caveat *)
Inductive Caveat :=
| TimeOfDayC (t : TimeOfDay)
| ConstitutionVersion (min_version : string) (max_version : option string)
| SupervisorRequired (supervisor_role : string)
| RateLimitC (r : RateLimit)
| OnlyIfTagged (required_tags : list string)
| NeverIfTagged (forbidden_tags : list string).
#[global] Instance Caveat_eq_dec : EqDecision Caveat.
Proof. intros a b. unfold Decision. repeat (decide equality; try apply N.eq_dec). Defined.
(* yutha-capability/src/caveat.rs:68-88 Caveat::permits *)
Definition permits (c : Caveat) (d : ActionDescriptor) : bool :=
  match c with
  | OnlyIfTagged required_tags => forallb (contains (ActionDescriptor.resource_tags d)) required_tags
  | NeverIfTagged forbidden_tags =>
      negb (existsb (contains (ActionDescriptor.resource_tags d)) forbidden_tags)
  | TimeOfDayC _ => true
  | RateLimitC _ => true
  | ConstitutionVersion _ _ => true
  | SupervisorRequired _ => true
  end.
(* yutha-capability/src/capability.rs:94-103 caveat_label *)
Definition caveat_label (c : Caveat) : string :=
  match c with
  | TimeOfDayC _ => "time_of_day"
  | ConstitutionVersion _ _ => "constitution_version"
  | SupervisorRequired _ => "supervisor_required"
  | RateLimitC _ => "rate_limit"
  | OnlyIfTagged _ => "only_if_tagged"
  | NeverIfTagged _ => "never_if_tagged"
  end.
End Caveat.
Notation Caveat := Caveat.Caveat.

(** What a caveat asks of an action: the two tag caveats look at the tags of its
    resources; the other four, whose context the check does not have, ask for
    nothing. *)
Definition caveat_holds (c : Caveat) (d : ActionDescriptor) : Prop :=
  match c with
  | Caveat.OnlyIfTagged required_tags => ∀ t, t ∈ required_tags → t ∈ ActionDescriptor.resource_tags d
  | Caveat.NeverIfTagged forbidden_tags => ∀ t, t ∈ forbidden_tags → t ∉ ActionDescriptor.resource_tags d
  | Caveat.TimeOfDayC _ | Caveat.RateLimitC _ | Caveat.ConstitutionVersion _ _ | Caveat.SupervisorRequired _ => True
  end.
Definition looks_at_tags (c : Caveat) : bool :=
  match c with Caveat.OnlyIfTagged _ | Caveat.NeverIfTagged _ => true | _ => false end.

(** ** A scope as a predicate on actions *)

(** One dimension: an empty list stands for every value. *)
Definition dim_allows (dim : list string) (x : string) : Prop := dim = [] ∨ x ∈ dim.

Definition admits (s : Scope) (d : ActionDescriptor) : Prop :=
  dim_allows (Scope.permitted_actions s) (ActionDescriptor.action_kind d) ∧
  Forall (dim_allows (Scope.resource_tags s)) (ActionDescriptor.resource_tags d) ∧
  (∀ key val bound, ActionDescriptor.numeric_values d !! key = Some val →
     Scope.bounds s !! key = Some bound → decimal_le val bound = true) ∧
  (∀ r, ActionDescriptor.recipient d = Some r → dim_allows (Scope.permitted_recipients s) r) ∧
  (∀ m, ActionDescriptor.memory_scope d = Some m → dim_allows (Scope.memory_scopes s) m).

Lemma empty_or_contains_allows dim x : empty_or_contains dim x = true ↔ dim_allows dim x.
Proof.
  unfold empty_or_contains, dim_allows. destruct dim as [|y dim]; [naive_solver|].
  rewrite existsb_True_elem. setoid_rewrite bool_decide_eq_true. naive_solver.
Qed.

Lemma caveat_permits_holds c d : Caveat.permits c d = true ↔ caveat_holds c d.
Proof.
  destruct c; simpl; try done.
  - rewrite forallb_True_elem. by setoid_rewrite contains_true.
  - rewrite negb_true_iff, <-not_true_iff_false, existsb_True_elem. setoid_rewrite contains_true. naive_solver.
Qed.

Lemma permits_admits s d : Scope.permits s d = true ↔ admits s d.
Proof.
  unfold Scope.permits, admits.
  assert (∀ b c : bool, (if negb b then false else c) = true ↔ b = true ∧ c = true) as Hif.
  { intros [] []; simpl; naive_solver. }
  rewrite !Hif. rewrite empty_or_contains_allows.
  assert (match Scope.resource_tags s with [] => true
          | tags => forallb (contains tags) (ActionDescriptor.resource_tags d) end = true ↔
          Forall (dim_allows (Scope.resource_tags s)) (ActionDescriptor.resource_tags d)) as ->.
  { unfold dim_allows. destruct (Scope.resource_tags s) as [|t tags] eqn:E.
    - split; [|done]. intros _. apply Forall_forall. auto.
    - rewrite forallb_True_elem, Forall_forall. setoid_rewrite contains_true. naive_solver. }
  assert (Scope.bounds_ok s (btree_iter (ActionDescriptor.numeric_values d)) = true ↔
    ∀ key val bound, ActionDescriptor.numeric_values d !! key = Some val →
     Scope.bounds s !! key = Some bound → decimal_le val bound = true) as ->.
  { unfold Scope.bounds_ok. rewrite forallb_True_elem. split.
    - intros Hall key val bound Hv Hb. specialize (Hall (key, val)).
      rewrite elem_of_btree_iter, Hb in Hall. by apply Hall.
    - intros Hall [key val] Hin%elem_of_btree_iter. destruct (Scope.bounds s !! key) eqn:E; eauto. }
  assert (∀ o dim, match o with Some r => empty_or_contains dim r | None => true end = true ↔
     ∀ r, o = Some r → dim_allows dim r) as Hopt.
  { intros [r|] dim; [rewrite empty_or_contains_allows|]; naive_solver. }
  rewrite !Hopt. naive_solver.
Qed.

(** *** Bounds *)

Lemma decimal_le_trans a b c :
  decimal_le a b = true → decimal_le b c = true → decimal_le a c = true.
Proof.
  unfold decimal_le. intros H1 H2. destruct (parse_f64 b) as [vb|]; simpl in *.
  - by eapply SFleb_trans.
  - apply SFleb_neg_infinity_r in H1 as ->. apply SFleb_infinity_l in H2 as ->. done.
Qed.

(** A bound that parses to a number (not NaN). *)
Definition numeric (b : string) : Prop := ∃ x, parse_f64 b = Some x ∧ is_nan x = false.

Lemma decimal_le_total a b : numeric a → numeric b → decimal_le a b = false → decimal_le b a = true.
Proof. intros (x & Hx & ?) (y & Hy & ?). unfold decimal_le. rewrite Hx, Hy. simpl. by apply SFleb_total. Qed.

Lemma intersect_bounds_lookup l r k :
  intersect_bounds l r !! k = smaller_bound (l !! k) (r !! k).
Proof. unfold intersect_bounds. rewrite lookup_merge. by destruct (l !! k), (r !! k). Qed.

(** *** Dimensions *)

(** Two lists clash when neither is empty and they share no value. *)
Definition clash (l r : list string) : Prop := l ≠ [] ∧ r ≠ [] ∧ ∀ x, x ∈ l → x ∉ r.

Lemma intersect_dim l r x :
  ¬ clash l r → dim_allows (intersect_or_take_one l r) x ↔ dim_allows l x ∧ dim_allows r x.
Proof.
  unfold dim_allows, clash. intros Hc. destruct l as [|a l]; [naive_solver|].
  destruct r as [|b r]; [naive_solver|]. unfold intersect_or_take_one.
  rewrite list_elem_of_filter, contains_true. split; [|naive_solver].
  intros [Hnil|?]; [|naive_solver]. destruct Hc. split_and!; [done..|].
  intros y Hy Hr. assert (y ∈ filter (λ x, contains (b :: r) x = true) (a :: l)) as Hf.
  { apply list_elem_of_filter. by rewrite contains_true. }
  rewrite Hnil in Hf. by apply elem_of_nil in Hf.
Qed.

Lemma intersect_dim_clash l r x : clash l r → dim_allows (intersect_or_take_one l r) x.
Proof.
  intros (Hl & Hr & Hdis). left. unfold intersect_or_take_one. destruct l as [|a l]; [done|].
  destruct r as [|b r]; [done|]. destruct (filter _ _) as [|y k] eqn:Hf; [done|].
  assert (y ∈ filter (λ x, contains (b :: r) x = true) (a :: l)) as Hy by (rewrite Hf; set_solver).
  apply list_elem_of_filter in Hy as [Hy%contains_true Hin]. by destruct (Hdis y).
Qed.

(** Where two scopes clash, the intersection lifts the restriction. *)
Definition compatible (s t : Scope) : Prop :=
  ¬ clash (Scope.permitted_actions s) (Scope.permitted_actions t) ∧
  ¬ clash (Scope.resource_tags s) (Scope.resource_tags t) ∧
  ¬ clash (Scope.permitted_recipients s) (Scope.permitted_recipients t) ∧
  ¬ clash (Scope.memory_scopes s) (Scope.memory_scopes t) ∧
  ∀ k v w, Scope.bounds s !! k = Some v → Scope.bounds t !! k = Some w → numeric v ∧ numeric w.

Lemma intersect_bounds_admit (ls rs : gmap string string) key val :
  (∀ v w, ls !! key = Some v → rs !! key = Some w → numeric v ∧ numeric w) →
  (∀ b, intersect_bounds ls rs !! key = Some b → decimal_le val b = true) ↔
  (∀ b, ls !! key = Some b → decimal_le val b = true) ∧
  (∀ b, rs !! key = Some b → decimal_le val b = true).
Proof.
  rewrite intersect_bounds_lookup. intros Hn.
  destruct (ls !! key) as [v|], (rs !! key) as [w|]; simpl; [|naive_solver..].
  destruct (Hn v w eq_refl eq_refl) as [Hv Hw].
  destruct (decimal_le w v) eqn:E; split.
  - intros Hb. pose proof (Hb w eq_refl). split; intros ? [= <-]; [by eapply decimal_le_trans|done].
  - intros [_ Hw']. naive_solver.
  - intros Hb. pose proof (Hb v eq_refl). apply decimal_le_total in E; [|done..].
    split; intros ? [= <-]; [done|by eapply decimal_le_trans].
  - intros [Hv' _]. naive_solver.
Qed.

Lemma intersect_admits s t d :
  compatible s t → admits (Scope.intersect s t) d ↔ admits s d ∧ admits t d.
Proof.
  intros (Ha & Ht & Hr & Hm & Hb). unfold admits. simpl.
  rewrite (intersect_dim _ _ _ Ha).
  assert (Forall (dim_allows (intersect_or_take_one (Scope.resource_tags s) (Scope.resource_tags t)))
            (ActionDescriptor.resource_tags d) ↔
          Forall (dim_allows (Scope.resource_tags s)) (ActionDescriptor.resource_tags d) ∧
          Forall (dim_allows (Scope.resource_tags t)) (ActionDescriptor.resource_tags d)) as ->.
  { rewrite !Forall_forall. setoid_rewrite (λ x, intersect_dim _ _ x Ht). naive_solver. }
  setoid_rewrite (λ x, intersect_dim _ _ x Hr). setoid_rewrite (λ x, intersect_dim _ _ x Hm).
  assert ((∀ key val bound, ActionDescriptor.numeric_values d !! key = Some val →
            intersect_bounds (Scope.bounds s) (Scope.bounds t) !! key = Some bound →
            decimal_le val bound = true) ↔
          (∀ key val bound, ActionDescriptor.numeric_values d !! key = Some val →
            Scope.bounds s !! key = Some bound → decimal_le val bound = true) ∧
          (∀ key val bound, ActionDescriptor.numeric_values d !! key = Some val →
            Scope.bounds t !! key = Some bound → decimal_le val bound = true)) as ->.
  { pose proof (λ key val, intersect_bounds_admit (Scope.bounds s) (Scope.bounds t) key val (Hb key))
      as Hk. split.
    - intros Hall. split; intros key val b Hv;
        [apply (proj1 (proj1 (Hk key val) (λ b', Hall key val b' Hv)))
        |apply (proj2 (proj1 (Hk key val) (λ b', Hall key val b' Hv)))].
    - intros [H1 H2] key val b Hv. apply (proj2 (Hk key val)). split; eauto. }
  naive_solver.
Qed.

(** [attenuate]'s test [parent.intersect(child) == child]. *)
Definition narrows (parent child : Scope) : Prop := Scope.intersect parent child = child.

Lemma intersect_dim_narrow l r x : intersect_or_take_one l r = r → dim_allows r x → dim_allows l x.
Proof.
  unfold dim_allows. intros Heq Hr. destruct l as [|a l]; [by left|right].
  destruct r as [|b r]; [done|]. destruct Hr as [|Hx]; [done|].
  rewrite <- Heq in Hx. unfold intersect_or_take_one in Hx. by apply list_elem_of_filter in Hx as [_ ?].
Qed.

Lemma narrows_admits parent child d : narrows parent child → admits child d → admits parent d.
Proof.
  intros Hn (Ha & Ht & Hb & Hr & Hm). unfold narrows in Hn.
  pose proof (f_equal Scope.permitted_actions Hn) as Na. pose proof (f_equal Scope.resource_tags Hn) as Nt.
  pose proof (f_equal Scope.permitted_recipients Hn) as Nr.
  pose proof (f_equal Scope.memory_scopes Hn) as Nm. pose proof (f_equal Scope.bounds Hn) as Nb.
  simpl in *. split_and!.
  - by eapply intersect_dim_narrow.
  - eapply Forall_impl; [exact Ht|]. intros x. by apply intersect_dim_narrow.
  - intros key val b Hv Hpb. assert (intersect_bounds (Scope.bounds parent) (Scope.bounds child) !! key
        = Scope.bounds child !! key) as Hk by by rewrite Nb.
    rewrite intersect_bounds_lookup, Hpb in Hk. simpl in Hk.
    destruct (Scope.bounds child !! key) as [w|] eqn:Hw; [|done].
    pose proof (Hb key val w Hv Hw) as Hle. destruct (decimal_le w b) eqn:E.
    + by eapply decimal_le_trans.
    + injection Hk as ->. done.
  - intros r Hd. by eapply intersect_dim_narrow, Hr.
  - intros m Hd. by eapply intersect_dim_narrow, Hm.
Qed.

(** ** Properties *)

(** Where no dimension of the two scopes clashes and the bounds they share
    are numbers, [intersect] is exact: the intersection permits an action if
    and only if both scopes do. *)
Lemma scope_intersect_exact (s t : Scope) (d : ActionDescriptor) :
  compatible s t →
  Scope.permits (Scope.intersect s t) d = Scope.permits s d && Scope.permits t d.
Proof.
  intros Hc. apply eq_true_iff_eq. rewrite andb_true_iff, !permits_admits. by apply intersect_admits.
Qed.

(** Where a dimension does clash (both scopes list action kinds, and none
    in common), the intersection is not narrower but wider than both: it
    permits every action kind that satisfies the other dimensions, although
    neither scope does. *)
Lemma scope_intersect_clash_broadens (s t : Scope) (kind : string) :
  clash (Scope.permitted_actions s) (Scope.permitted_actions t) →
  kind ∉ Scope.permitted_actions s → kind ∉ Scope.permitted_actions t →
  let d := ActionDescriptor.mk kind [] ∅ None None in
  Scope.permits (Scope.intersect s t) d = true ∧
  Scope.permits s d = false ∧ Scope.permits t d = false.
Proof.
  intros Hc Hs Ht d. split.
  - apply permits_admits. unfold admits, d; simpl. split; [by apply intersect_dim_clash|].
    split_and!; done.
  - destruct Hc as (Hl & Hr & _). split; apply not_true_is_false; rewrite permits_admits;
      intros ([?|?] & _); done.
Qed.

(** ** Witnesses *)

Module ScopeToy.
Definition spend : Scope := Scope.with_bound "usd" "500" (Scope.for_action "pay").
Definition spend_less : Scope := Scope.with_bound "usd" "99.5" (Scope.for_action "pay").
Definition pay (usd : string) : ActionDescriptor :=
  ActionDescriptor.mk "pay" [] {["usd" := usd]} None None.
End ScopeToy.

Lemma scope_intersect_exact_witness :
  Scope.permits (Scope.intersect ScopeToy.spend ScopeToy.spend_less) (ScopeToy.pay "100")
  = Scope.permits ScopeToy.spend (ScopeToy.pay "100") && Scope.permits ScopeToy.spend_less (ScopeToy.pay "100")
  ∧ Scope.permits ScopeToy.spend (ScopeToy.pay "100") = true.
Proof.
  split; [|vm_compute; reflexivity]. apply scope_intersect_exact. split_and!.
  - intros (_ & _ & Hx). apply (Hx "pay"); apply (bool_decide_unpack _); vm_compute; exact I.
  - by intros [? _].
  - by intros [? _].
  - by intros [? _].
  - intros k v w Hv Hw. unfold ScopeToy.spend, ScopeToy.spend_less in *. simpl in *.
    apply lookup_insert_Some in Hv as [[<- <-]|[_ Hv]]; [|by apply lookup_empty_Some in Hv].
    apply lookup_insert_Some in Hw as [[_ <-]|[Hk _]]; [|done].
    split; (eexists; split; [vm_compute; reflexivity|reflexivity]).
Defined.

Lemma scope_intersect_clash_broadens_witness :
  let d := ActionDescriptor.mk "transfer" [] ∅ None None in
  Scope.permits (Scope.intersect (Scope.for_action "pay") (Scope.for_action "read")) d = true ∧
  Scope.permits (Scope.for_action "pay") d = false ∧ Scope.permits (Scope.for_action "read") d = false.
Proof.
  apply scope_intersect_clash_broadens.
  - split_and!; [done..|]. intros x. simpl. rewrite !list_elem_of_singleton. congruence.
  - apply (bool_decide_unpack _). vm_compute. exact I.
  - apply (bool_decide_unpack _). vm_compute. exact I.
Defined.
