(* ===== verification/Passport.v ===== *)
(** * [yutha-passport]: passports, their store, the control plane's identity

    [declarations.rs], [tier.rs], [error.rs], [registration.rs], [passport.rs],
    [proto_conv.rs], [store.rs], [memory.rs], [resolver.rs], [control_plane.rs].
    [PassportStore] is the trait, [PassportStoreLaws] its contract on the map
    of live passports; [MemoryPassportStore] keeps it. *)

From S2P Require Import Prelude RustStd Core CoreProto Crypto ReceiptTypes ReceiptProto Merkle.
From S2P Require Import ReceiptVerify ReceiptStore.

Module CapabilityDeclaration.
(* yutha-passport/src/declarations.rs:20-32 CapabilityDeclaration *)
Record CapabilityDeclaration := mk {
  kind : string; resource_tags : list string; bounds : gmap string string; description : string }.
#[global] Instance CapabilityDeclaration_eq_dec : EqDecision CapabilityDeclaration.
Proof. solve_decision. Defined.
(* yutha-passport/src/declarations.rs:36-43 CapabilityDeclaration::of_kind *)
Definition of_kind (kind : string) : CapabilityDeclaration := mk kind [] ∅ "".
End CapabilityDeclaration.
Notation CapabilityDeclaration := CapabilityDeclaration.CapabilityDeclaration.

Module ResourceDeclaration.
(* yutha-passport/src/declarations.rs:70-81 ResourceDeclaration *)
Record ResourceDeclaration := mk {
  max_concurrent_actions : N; max_messages_per_minute : N; max_tool_calls_per_hour : N;
  max_usd_per_day_cents : string; max_memory_bytes : N }.
#[global] Instance ResourceDeclaration_eq_dec : EqDecision ResourceDeclaration.
Proof. solve_decision. Defined.
(* yutha-passport/src/declarations.rs:68-81 ResourceDeclaration (Default) *)
Definition default : ResourceDeclaration := mk 0 0 0 "" 0.
End ResourceDeclaration.
Notation ResourceDeclaration := ResourceDeclaration.ResourceDeclaration.

Module PassportError.
(* yutha-passport/src/error.rs:12-57 PassportError *)
Inductive PassportError :=
| SelfSignatureInvalid
| MissingField (field : string)
| Expired
| AlreadyRegistered (a : AgentId)
| NotFound (a : AgentId)
| RotationContinuityMissing
| Backend (msg : string)
| Crypto (e : CryptoError)
| Core (e : CoreError)
| Signer (msg : string).
#[global] Instance PassportError_eq_dec : EqDecision PassportError.
Proof. solve_decision. Defined.
(* yutha-passport/src/error.rs:12-57 PassportError (Display) *)
Definition to_string (e : PassportError) : string :=
  match e with
  | SelfSignatureInvalid => "passport self-signature invalid"
  | MissingField f => "passport missing required field: " +:+ f
  | Expired => "passport expired"
  | AlreadyRegistered a => "agent already registered: " +:+ AgentId.to_string a
  | NotFound a => "agent not found: " +:+ AgentId.to_string a
  | RotationContinuityMissing => "key rotation requires continuity signature from previous key"
  | Backend m => "backend error: " +:+ m
  | Crypto e => CryptoError.to_string e
  | Core e => CoreError.to_string e
  | Signer m => "signer failed: " +:+ m
  end.
End PassportError.
Notation PassportError := PassportError.PassportError.

Module PassportTier.
(* yutha-passport/src/tier.rs:13-21 PassportTier *)
Inductive PassportTier := Minimal | Standard | Verifiable.
#[global] Instance PassportTier_eq_dec : EqDecision PassportTier.
Proof. solve_decision. Defined.
(* yutha-passport/src/tier.rs:25-34 PassportTier::from_wire *)
Definition from_wire (value : Z) : Result PassportTier PassportError :=
  match value with
  | 1%Z => Ok Minimal
  | 2%Z => Ok Standard
  | 3%Z => Ok Verifiable
  | other => Err (PassportError.Backend ("unknown PassportTier wire value: " +:+ show_Z other))
  end.
(* yutha-passport/src/tier.rs:37-43 PassportTier::to_wire *)
Definition to_wire (t : PassportTier) : Z :=
  match t with Minimal => 1 | Standard => 2 | Verifiable => 3 end.
(* yutha-passport/src/tier.rs:11-21 PassportTier (derived Ord) *)
Definition ltb (a b : PassportTier) : bool := (to_wire a <? to_wire b)%Z.
(* yutha-passport/src/tier.rs:11-21 PassportTier (Debug) *)
Definition debug (t : PassportTier) : string :=
  match t with Minimal => "Minimal" | Standard => "Standard" | Verifiable => "Verifiable" end.
End PassportTier.
Notation PassportTier := PassportTier.PassportTier.

Module RegistrationOutcome.
(* yutha-passport/src/registration.rs:8-15 RegistrationStatus *)
Inductive RegistrationStatus := Accepted | Rejected | PendingReview.
#[global] Instance RegistrationStatus_eq_dec : EqDecision RegistrationStatus.
Proof. solve_decision. Defined.
(* yutha-passport/src/registration.rs:19-29 RegistrationOutcome *)
Record RegistrationOutcome := mk {
  status : RegistrationStatus; agent_id : AgentId; registration_receipt : option Hash;
  rejection_reason : string }.
(* yutha-passport/src/registration.rs:33-35 RegistrationOutcome::is_accepted *)
Definition is_accepted (o : RegistrationOutcome) : bool := bool_decide (status o = Accepted).
End RegistrationOutcome.
Notation RegistrationOutcome := RegistrationOutcome.RegistrationOutcome.

Module Passport.
(* yutha-passport/src/passport.rs:22-56 Passport *)
Record Passport := mk {
  spec_version : SpecVersion; agent_id : AgentId; swarm_id : SwarmId;
  agent_public_key : PublicKey; owner : string; framework : string; framework_version : string;
  capabilities : list CapabilityDeclaration; accepted_constitution_version : string;
  tier : PassportTier; resources : ResourceDeclaration; issued_at : Timestamp;
  expires_at : option Timestamp; default_model_provider : string; default_model_name : string;
  agent_signature : option Signature }.
#[global] Instance Passport_eq_dec : EqDecision Passport.
Proof. solve_decision. Defined.
Definition with_signature (s : option Signature) (p : Passport) : Passport :=
  mk (spec_version p) (agent_id p) (swarm_id p) (agent_public_key p) (owner p) (framework p)
    (framework_version p) (capabilities p) (accepted_constitution_version p) (tier p)
    (resources p) (issued_at p) (expires_at p) (default_model_provider p) (default_model_name p) s.
(* yutha-passport/src/passport.rs:75-85 Passport::is_expired_at *)
Definition is_expired_at `{TimeOps} (p : Passport) (now : Timestamp) : bool :=
  match expires_at p with
  | None => false
  | Some exp =>
      if Timestamp.wall_at_or_after now exp then true
      else bool_decide (Timestamp.parsed_wall_clock now = None)
           || bool_decide (Timestamp.parsed_wall_clock exp = None)
  end.
End Passport.
Notation Passport := Passport.Passport.

Module PassportBuilder.
(* yutha-passport/src/passport.rs:114-130 PassportBuilder *)
Record PassportBuilder := mk {
  spec_version : option SpecVersion; agent_id : option AgentId; swarm_id : option SwarmId;
  agent_public_key : option PublicKey; owner : string; framework : string;
  framework_version : string; capabilities : list CapabilityDeclaration;
  accepted_constitution_version : string; tier : PassportTier; resources : ResourceDeclaration;
  issued_at : option Timestamp; expires_at : option Timestamp; default_model_provider : string;
  default_model_name : string }.
(* yutha-passport/src/passport.rs:202-231 PassportBuilder::build_unsigned *)
Definition build_unsigned (b : PassportBuilder) : Result Passport PassportError :=
  let? spec_version := ok_or (spec_version b) (PassportError.MissingField "spec_version") in
  let? agent_id := ok_or (agent_id b) (PassportError.MissingField "agent_id") in
  let? swarm_id := ok_or (swarm_id b) (PassportError.MissingField "swarm_id") in
  let? agent_public_key := ok_or (agent_public_key b) (PassportError.MissingField "agent_public_key") in
  let? issued_at := ok_or (issued_at b) (PassportError.MissingField "issued_at") in
  Ok (Passport.mk spec_version agent_id swarm_id agent_public_key (owner b) (framework b)
        (framework_version b) (capabilities b) (accepted_constitution_version b) (tier b)
        (resources b) issued_at (expires_at b) (default_model_provider b) (default_model_name b)
        None).
End PassportBuilder.

(** ** The wire form *)

Module pproto.
(* The messages of spec/passport/passport-v1.proto. *)
Record CapabilityDeclaration := mkDecl {
  Decl_kind : string; Decl_resource_tags : list string; Decl_bounds : gmap string string;
  Decl_description : string }.
Record ResourceDeclaration := mkRes {
  Res_max_concurrent_actions : N; Res_max_messages_per_minute : N; Res_max_tool_calls_per_hour : N;
  Res_max_usd_per_day_cents : string; Res_max_memory_bytes : N }.
Record Passport := mkPassport {
  Passport_spec_version : option proto.Version; Passport_agent_id : option proto.AgentId;
  Passport_swarm_id : option proto.SwarmId; Passport_agent_public_key : option proto.PublicKey;
  Passport_owner : string; Passport_framework : string; Passport_framework_version : string;
  Passport_capabilities : list CapabilityDeclaration;
  Passport_accepted_constitution_version : string; Passport_tier : Z;
  Passport_resources : option ResourceDeclaration; Passport_issued_at : option proto.Timestamp;
  Passport_expires_at : option proto.Timestamp; Passport_default_model_provider : string;
  Passport_default_model_name : string; Passport_extensions : option rproto.Extensions;
  Passport_agent_signature : option proto.Signature }.
Record RegistrationResult := mkRegistrationResult {
  Registration_status : Z; Registration_agent_id : option proto.AgentId;
  Registration_receipt : option proto.Hash; Registration_rejection_reason : string }.
End pproto.

(* yutha-passport/src/proto_conv.rs:25-36 From<PassportTier> for i32 *)
Definition PassportTier_into_i32 (t : PassportTier) : Z :=
  match t with PassportTier.Minimal => 1 | PassportTier.Standard => 2 | PassportTier.Verifiable => 3 end.
(* yutha-passport/src/proto_conv.rs:42-54 From<&CapabilityDeclaration> for proto::CapabilityDeclaration *)
#[global] Instance CapabilityDeclaration_to_proto
  : ToProto CapabilityDeclaration pproto.CapabilityDeclaration :=
  λ d, pproto.mkDecl (CapabilityDeclaration.kind d) (CapabilityDeclaration.resource_tags d)
         (CapabilityDeclaration.bounds d) (CapabilityDeclaration.description d).
(* yutha-passport/src/proto_conv.rs:60-70 From<&ResourceDeclaration> for proto::ResourceDeclaration *)
#[global] Instance ResourceDeclaration_to_proto
  : ToProto ResourceDeclaration pproto.ResourceDeclaration :=
  λ r, pproto.mkRes (ResourceDeclaration.max_concurrent_actions r)
         (ResourceDeclaration.max_messages_per_minute r)
         (ResourceDeclaration.max_tool_calls_per_hour r)
         (ResourceDeclaration.max_usd_per_day_cents r) (ResourceDeclaration.max_memory_bytes r).
(* yutha-passport/src/proto_conv.rs:76-101 From<&Passport> for proto::Passport *)
#[global] Instance Passport_to_proto : ToProto Passport pproto.Passport :=
  λ p, pproto.mkPassport (Some (to_proto (Passport.spec_version p)))
         (Some (to_proto (Passport.agent_id p))) (Some (to_proto (Passport.swarm_id p)))
         (Some (to_proto (Passport.agent_public_key p))) (Passport.owner p) (Passport.framework p)
         (Passport.framework_version p) (to_proto <$> Passport.capabilities p)
         (Passport.accepted_constitution_version p) (PassportTier_into_i32 (Passport.tier p))
         (Some (to_proto (Passport.resources p))) (Some (to_proto (Passport.issued_at p)))
         (to_proto <$> Passport.expires_at p) (Passport.default_model_provider p)
         (Passport.default_model_name p) None (to_proto <$> Passport.agent_signature p).
(* yutha-passport/src/proto_conv.rs:111-116 Passport::to_canonical_proto *)
Definition Passport_to_canonical_proto (p : Passport) : pproto.Passport :=
  to_proto (Passport.with_signature None p).
(* yutha-passport/src/passport.rs:99-101 Passport::canonical_bytes *)
#[global] Instance Passport_canonical `{Encode pproto.Passport} : Canonical Passport :=
  λ p, Ok (encode_to_vec (Passport_to_canonical_proto p)).

(* yutha-passport/src/proto_conv.rs:140-157 TryFrom<i32> for PassportTier *)
Definition PassportTier_try_from (v : Z) : Result PassportTier PassportError :=
  match v with
  | 0%Z => Err (PassportError.Core (CoreError.Validation "passport tier unset (UNKNOWN)"))
  | 1%Z => Ok PassportTier.Minimal
  | 2%Z => Ok PassportTier.Standard
  | 3%Z => Ok PassportTier.Verifiable
  | _ => Err (PassportError.Core (CoreError.Validation ("unknown passport tier: " +:+ show_Z v)))
  end.
(* yutha-passport/src/proto_conv.rs:163-177 From<&proto::CapabilityDeclaration> for CapabilityDeclaration *)
Definition CapabilityDeclaration_from (p : pproto.CapabilityDeclaration) : CapabilityDeclaration :=
  CapabilityDeclaration.mk (pproto.Decl_kind p) (pproto.Decl_resource_tags p)
    (pproto.Decl_bounds p) (pproto.Decl_description p).
(* yutha-passport/src/proto_conv.rs:183-193 From<&proto::ResourceDeclaration> for ResourceDeclaration *)
Definition ResourceDeclaration_from (p : pproto.ResourceDeclaration) : ResourceDeclaration :=
  ResourceDeclaration.mk (pproto.Res_max_concurrent_actions p)
    (pproto.Res_max_messages_per_minute p) (pproto.Res_max_tool_calls_per_hour p)
    (pproto.Res_max_usd_per_day_cents p) (pproto.Res_max_memory_bytes p).
(* yutha-passport/src/proto_conv.rs:199-263 TryFrom<&proto::Passport> for Passport *)
#[global] Instance Passport_try_from `{TimeOps} : TryFromProto pproto.Passport Passport PassportError :=
  λ p,
       let? spec_version := try_from_required PassportError.Core "spec_version" (pproto.Passport_spec_version p) in
       let? agent_id := try_from_required PassportError.Core "agent_id" (pproto.Passport_agent_id p) in
       let? swarm_id := try_from_required PassportError.Core "swarm_id" (pproto.Passport_swarm_id p) in
       let? agent_public_key :=
         try_from_required PassportError.Core "agent_public_key" (pproto.Passport_agent_public_key p) in
       let? issued_at := try_from_required PassportError.Core "issued_at" (pproto.Passport_issued_at p) in
       let? expires_at := map_err PassportError.Core (try_from_opt (pproto.Passport_expires_at p)) in
       let resources := default ResourceDeclaration.default
                          (ResourceDeclaration_from <$> pproto.Passport_resources p) in
       let? tier := PassportTier_try_from (pproto.Passport_tier p) in
       let capabilities := CapabilityDeclaration_from <$> pproto.Passport_capabilities p in
       let? agent_signature :=
         map_err PassportError.Core (try_from_opt (pproto.Passport_agent_signature p)) in
       Ok (Passport.mk spec_version agent_id swarm_id agent_public_key (pproto.Passport_owner p)
             (pproto.Passport_framework p) (pproto.Passport_framework_version p) capabilities
             (pproto.Passport_accepted_constitution_version p) tier resources issued_at expires_at
             (pproto.Passport_default_model_provider p) (pproto.Passport_default_model_name p)
             agent_signature).
(* yutha-passport/src/proto_conv.rs:269-288 From<RegistrationStatus> for i32 *)
Definition RegistrationStatus_into_i32 (s : RegistrationOutcome.RegistrationStatus) : Z :=
  match s with
  | RegistrationOutcome.Accepted => 1
  | RegistrationOutcome.Rejected => 2
  | RegistrationOutcome.PendingReview => 3
  end.
(* yutha-passport/src/proto_conv.rs:290-302 From<&RegistrationOutcome> for proto::RegistrationResult *)
#[global] Instance RegistrationOutcome_to_proto
  : ToProto RegistrationOutcome pproto.RegistrationResult :=
  λ o, pproto.mkRegistrationResult (RegistrationStatus_into_i32 (RegistrationOutcome.status o))
         (Some (to_proto (RegistrationOutcome.agent_id o)))
         (to_proto <$> RegistrationOutcome.registration_receipt o)
         (RegistrationOutcome.rejection_reason o).

(** ** Signing and checking the self-signature *)

Section self_signature.
Context `{CryptoOps} `{Encode pproto.Passport}.

(* yutha-passport/src/passport.rs:244-256 PassportBuilder::sign *)
Definition Passport_sign (b : PassportBuilder.PassportBuilder) (signer : Signer)
  : Result Passport PassportError :=
  let? p := PassportBuilder.build_unsigned b in
  if negb (bool_decide (Passport.agent_public_key p = Signer.public_key signer)) then
    Err PassportError.SelfSignatureInvalid
  else
    let? b := map_err PassportError.Crypto (canonical_bytes p) in
    let? sig := map_err (λ e, PassportError.Signer (SignerError.to_string e))
                  (Signer.sign_message signer b) in
    Ok (Passport.with_signature (Some sig) p).

(* yutha-passport/src/passport.rs:269-277 Passport::verify_self_signature *)
Definition verify_self_signature (p : Passport) : Result unit PassportError :=
  let? sig := ok_or (Passport.agent_signature p) PassportError.SelfSignatureInvalid in
  let? b := map_err PassportError.Crypto (canonical_bytes p) in
  map_err (λ _, PassportError.SelfSignatureInvalid) (verify (Passport.agent_public_key p) b sig).

Definition passport_message (p : Passport) : bytes := encode_to_vec (Passport_to_canonical_proto p).

(** The passport carries a signature by its own key over its own content. *)
Definition self_signed (p : Passport) : Prop :=
  ∃ sig, Passport.agent_signature p = Some sig ∧
         signature_valid (Passport.agent_public_key p) (passport_message p) sig.

Lemma verify_self_signature_Ok p : verify_self_signature p = Ok tt ↔ self_signed p.
Proof.
  unfold verify_self_signature, self_signed. rewrite rbind_Ok. setoid_rewrite ok_or_Ok.
  change (canonical_bytes p) with (@Ok bytes CryptoError (passport_message p)). cbn [map_err rbind].
  setoid_rewrite map_err_Ok. by setoid_rewrite verify_Ok.
Qed.

Lemma verify_self_signature_Err p e :
  verify_self_signature p = Err e → e = PassportError.SelfSignatureInvalid ∧ ¬ self_signed p.
Proof.
  intros He. split; [|rewrite <- verify_self_signature_Ok; by rewrite He].
  unfold verify_self_signature in He.
  change (canonical_bytes p) with (@Ok bytes CryptoError (passport_message p)) in He.
  destruct (Passport.agent_signature p); simpl in He; [|by injection He].
  by apply map_err_Err in He as (? & _ & ->).
Qed.

(** What [sign] makes verifies, for a signer that keeps its contract. *)
Lemma Passport_sign_self_signed b signer p :
  signer_sound signer → Passport_sign b signer = Ok p → self_signed p.
Proof.
  intros Hs Hp. unfold Passport_sign in Hp. apply rbind_Ok in Hp as (q & _ & Hp).
  case_bool_decide as Hk; [|done]. simpl in Hp. apply rbind_Ok in Hp as (sig & Hsig & [= <-]).
  apply map_err_Ok in Hsig. exists sig. split; [done|]. simpl. rewrite Hk.
  apply verify_Ok, Hs. exact Hsig.
Qed.

(** Expiry fails closed: a passport with an expiry is live only while both
    clocks parse and the expiry lies strictly ahead. *)
Lemma is_expired_at_false `{TimeOps} p now :
  Passport.is_expired_at p now = false ↔
    ∀ exp, Passport.expires_at p = Some exp →
      ∃ t e, Timestamp.parsed_wall_clock now = Some t ∧ Timestamp.parsed_wall_clock exp = Some e ∧
             (t < e)%Z.
Proof.
  unfold Passport.is_expired_at. destruct (Passport.expires_at p) as [exp|]; [|naive_solver].
  unfold Timestamp.wall_at_or_after.
  destruct (Timestamp.parsed_wall_clock now) as [t|], (Timestamp.parsed_wall_clock exp) as [x|] eqn:E;
    simpl; try (split; [done|intros Ha; destruct (Ha exp eq_refl) as (?&?&?&?&?); congruence]).
  destruct (Z.leb_spec x t); split; try done.
  - intros Ha. destruct (Ha exp eq_refl) as (?&?&?&Hx&?). rewrite E in Hx. simplify_eq. lia.
  - intros _ ? [= <-]. rewrite E. eauto.
Qed.
End self_signature.

(** ** Laws of the wire form *)

Section wire.
Context `{TimeOps}.

#[global] Instance Passport_wf : WellFormed Passport :=
  λ p, wf (Passport.spec_version p) ∧ wf (Passport.agent_id p) ∧ wf (Passport.swarm_id p) ∧
       wf (Passport.agent_public_key p) ∧ wf (Passport.issued_at p) ∧ wf (Passport.expires_at p) ∧
       wf (Passport.agent_signature p).

Lemma CapabilityDeclaration_from_to (l : list CapabilityDeclaration) : CapabilityDeclaration_from <$> (to_proto <$> l) = l.
Proof. rewrite <- list_fmap_compose. induction l as [|[] l IH]; csimpl; by rewrite ?IH. Qed.

#[global] Instance Passport_round_trip : RoundTrip Passport pproto.Passport PassportError.
Proof.
  constructor. intros [sv ai sw pk ow fr fv ca ac ti re ia ea mp mn si] (H1&H2&H3&H4&H5&H6&H7).
  unfold try_from, Passport_try_from. simpl in *.
  rewrite !try_from_required_round_trip by done. cbn [rbind].
  rewrite !try_from_opt_round_trip by done. cbn [map_err rbind].
  rewrite CapabilityDeclaration_from_to. by destruct ti, re.
Qed.
#[global] Instance Passport_decodes : DecodesWf Passport pproto.Passport PassportError.
Proof.
  constructor. intros p r Hp. unfold try_from, Passport_try_from in Hp. inv_ok Hp. decode_wf. done.
Qed.
End wire.
