(* ===== verification/PassportStore.v ===== *)
(** * [yutha-passport]: [store.rs], [memory.rs], [resolver.rs], [control_plane.rs]

    The trait [PassportStore] and its contract, the in-memory store that keeps
    it, the adapter that lets the receipt store resolve actors from it, the
    control plane's signing identity and the receipts it writes. *)

From S2P Require Import Prelude RustStd Core CoreProto Crypto ReceiptTypes ReceiptProto Merkle.
From S2P Require Import ReceiptVerify ReceiptStore Passport.

(* yutha-passport/src/store.rs:14-41 PassportStore *)
Class PassportStore (P : Type) := {
  register : Passport → M P PassportError RegistrationOutcome;
  lookup : AgentId → P → Result (option Passport) PassportError;
  revoke : AgentId → string → M P PassportError unit;
  rotate_key : Passport → M P PassportError RegistrationOutcome;
  count : P → Result N PassportError
}.

(** The contract, on the map of live passports. *)
Class PassportStoreLaws (P : Type) `{CryptoOps, Encode pproto.Passport, PassportStore P} := {
  live : P → gmap AgentId Passport;
  register_spec p s :
    let '(r, s') := register p s in
    if bool_decide (live s !! Passport.agent_id p = None) then
      (self_signed p → r = Ok (RegistrationOutcome.mk RegistrationOutcome.Accepted
                                 (Passport.agent_id p) None "") ∧
                       live s' = <[Passport.agent_id p := p]> (live s)) ∧
      (¬ self_signed p → r = Err PassportError.SelfSignatureInvalid ∧ live s' = live s)
    else is_ok r = false ∧ live s' = live s;
  lookup_spec a s : lookup a s = Ok (live s !! a);
  revoke_spec a reason s :
    let '(r, s') := revoke a reason s in
    live s' = delete a (live s) ∧ (is_ok r = true ↔ is_Some (live s !! a));
  rotate_key_spec p s :
    let '(r, s') := rotate_key p s in
    (self_signed p → is_Some (live s !! Passport.agent_id p) →
       r = Ok (RegistrationOutcome.mk RegistrationOutcome.Accepted (Passport.agent_id p) None "") ∧
       live s' = <[Passport.agent_id p := p]> (live s)) ∧
    (¬ self_signed p ∨ live s !! Passport.agent_id p = None → is_ok r = false ∧ live s' = live s);
  count_spec s : count s = Ok (N.of_nat (size (live s)))
}.

Module MemoryPassportStore.
(* yutha-passport/src/memory.rs:23-28 Inner *)
Record MemoryPassportStore := mk { live : gmap AgentId Passport; revoked : gmap AgentId string }.
(* yutha-passport/src/memory.rs:32-34 MemoryPassportStore::new *)
Definition new : MemoryPassportStore := mk ∅ ∅.

Section ops.
Context `{CryptoOps} `{Encode pproto.Passport}.

Definition accepted (agent_id : AgentId) : RegistrationOutcome :=
  RegistrationOutcome.mk RegistrationOutcome.Accepted agent_id None "".

(* yutha-passport/src/memory.rs:39-61 MemoryPassportStore::register *)
Definition register (passport : Passport) : M MemoryPassportStore PassportError RegistrationOutcome :=
  do! lift (verify_self_signature passport) in
  let agent_id := Passport.agent_id passport in
  let! present := gets (λ s, bool_decide (is_Some (live s !! agent_id))) in
  if present : bool then throw (PassportError.AlreadyRegistered agent_id)
  else
    do! modify (λ s, mk (<[agent_id := passport]> (live s)) (revoked s)) in
    mret (accepted agent_id).

(* yutha-passport/src/memory.rs:63-69 MemoryPassportStore::lookup *)
Definition lookup (agent_id : AgentId) (s : MemoryPassportStore)
  : Result (option Passport) PassportError :=
  if bool_decide (is_Some (revoked s !! agent_id)) && negb (bool_decide (is_Some (live s !! agent_id)))
  then Ok None
  else Ok (live s !! agent_id).

(* yutha-passport/src/memory.rs:71-78 MemoryPassportStore::revoke *)
Definition revoke (agent_id : AgentId) (reason : string) : M MemoryPassportStore PassportError unit :=
  let! present := gets (λ s, bool_decide (is_Some (live s !! agent_id))) in
  do! modify (λ s, mk (delete agent_id (live s)) (revoked s)) in
  if negb present then throw (PassportError.NotFound agent_id)
  else modify (λ s, mk (live s) (<[agent_id := reason]> (revoked s))).

(* yutha-passport/src/memory.rs:80-100 MemoryPassportStore::rotate_key *)
Definition rotate_key (new_passport : Passport)
  : M MemoryPassportStore PassportError RegistrationOutcome :=
  do! lift (verify_self_signature new_passport) in
  let agent_id := Passport.agent_id new_passport in
  let! present := gets (λ s, bool_decide (is_Some (live s !! agent_id))) in
  if negb present then throw (PassportError.NotFound agent_id)
  else
    do! modify (λ s, mk (<[agent_id := new_passport]> (live s)) (revoked s)) in
    mret (accepted agent_id).

(* yutha-passport/src/memory.rs:102-105 MemoryPassportStore::count *)
Definition count (s : MemoryPassportStore) : Result N PassportError := Ok (N.of_nat (size (live s))).

#[global] Instance store : PassportStore MemoryPassportStore :=
  {| PassportStore.register := register; PassportStore.lookup := lookup;
     PassportStore.revoke := revoke; PassportStore.rotate_key := rotate_key;
     PassportStore.count := count |}.

#[global] Program Instance laws : PassportStoreLaws MemoryPassportStore := {|
  PassportStore.live := live |}.
Next Obligation.
  intros p s. simpl. unfold register, mthen, lift, gets, modify, mret, throw.
  destruct (verify_self_signature p) as [[]|e] eqn:Hv.
  - apply verify_self_signature_Ok in Hv. destruct (live s !! Passport.agent_id p) eqn:El; simpl; naive_solver.
  - apply verify_self_signature_Err in Hv as [-> Hn]. by case_bool_decide.
Qed.
Next Obligation.
  intros a s. simpl. unfold lookup. destruct (live s !! a); simpl; [|by case_bool_decide].
  by rewrite andb_false_r.
Qed.
Next Obligation.
  intros a reason s. simpl. unfold revoke, mthen, gets, modify, throw.
  case_bool_decide as Hp; simpl; naive_solver.
Qed.
Next Obligation.
  intros p s. simpl. unfold rotate_key, mthen, lift, gets, modify, mret, throw.
  destruct (verify_self_signature p) as [[]|e] eqn:Hv.
  - apply verify_self_signature_Ok in Hv. case_bool_decide as Hp; simpl; [|naive_solver].
    split; [done|]. intros [?|Hn]; [done|]. rewrite Hn in Hp. by destruct Hp.
  - apply verify_self_signature_Err in Hv as [-> Hn]. naive_solver.
Qed.
Next Obligation. done. Qed.
End ops.
End MemoryPassportStore.
Notation MemoryPassportStore := MemoryPassportStore.MemoryPassportStore.

(** ** resolver.rs *)

Module PassportResolverAdapter.
(* yutha-passport/src/resolver.rs:55-65 passport_err_to_receipt_err *)
Definition passport_err_to_receipt_err (e : PassportError) : ReceiptError :=
  ReceiptError.PassportResolver (PassportError.to_string e).
(* yutha-passport/src/resolver.rs:33-50 PassportResolver for PassportResolverAdapter *)
Definition adapter `{PassportStore P} (store : P) : PassportResolver :=
  PassportResolver.mk
    (λ agent_id, map_err passport_err_to_receipt_err
                   (let? opt := lookup agent_id store in Ok (Passport.agent_public_key <$> opt)))
    PassportResolver.no_roles.

Lemma adapter_resolves {P} `{PassportStoreLaws P} (s : P) a :
  PassportResolver.resolve_actor (adapter s) a = Ok (Passport.agent_public_key <$> live s !! a).
Proof. simpl. by rewrite lookup_spec. Qed.
End PassportResolverAdapter.

(** ** control_plane.rs *)

Module ControlPlaneIdentity.
(* yutha-passport/src/control_plane.rs:33-43 ControlPlaneIdentity *)
Record ControlPlaneIdentity := mk { agent_id : AgentId; signer : Signer; public_key : PublicKey }.
(* yutha-passport/src/control_plane.rs:52-59 ControlPlaneIdentity::new *)
Definition new (agent_id : AgentId) (signer : Signer) : ControlPlaneIdentity :=
  mk agent_id signer (Signer.public_key signer).
(* yutha-passport/src/control_plane.rs:91-93 ControlPlaneIdentity::sign *)
Definition sign (cp : ControlPlaneIdentity) (message : bytes) : Result Signature SignerError :=
  Signer.sign_message (signer cp) message.
End ControlPlaneIdentity.
Notation ControlPlaneIdentity := ControlPlaneIdentity.ControlPlaneIdentity.

(** ** Receipts written by the control plane

    The capability store, the registry and the transport build their receipts
    with the same steps: the builder, the canonical bytes, the control plane's
    signature pushed as the Actor signature.  They differ in the constitution
    version and in how errors are wrapped, which are the parameters here.
    [clock] numbers the readings of [Timestamp::now()]. *)

Section control_plane_receipt.
Context `{CryptoOps} `{Encode rproto.Receipt} {E : Type}.
Variables (err_spec : CoreError → E) (err_build : string → E) (err_crypto : CryptoError → E)
  (err_sign : SignerError → E).

Definition control_plane_receipt_after (causal : option CausalRef) (cp : ControlPlaneIdentity)
  (clock : nat → Timestamp) (swarm_id : SwarmId) (action_kind constitution_version : string)
  (evidence : list Evidence) : Result Receipt E :=
  let? v := map_err err_spec (SpecVersion.parse "1.0.0") in
  let? receipt := map_err err_build (ReceiptBuilder.build
      (ReceiptBuilder.mk (Some v) (Some swarm_id) (Some (ControlPlaneIdentity.agent_id cp))
         (Some action_kind) causal evidence (Some constitution_version) None (Some (clock 0)) None [])) in
  let? message := map_err err_crypto (canonical_bytes receipt) in
  let? sig := map_err err_sign (ControlPlaneIdentity.sign cp message) in
  Ok (Receipt.with_signatures (λ l, l ++ [SignedBy.new SignatureRole.Actor sig (clock 1)]) receipt).

(** Most of them name no predecessors. *)
Definition control_plane_receipt := control_plane_receipt_after None.

(** The receipt before it is signed. *)
Definition unsigned_receipt_after (causal : option CausalRef) (cp : ControlPlaneIdentity)
  (now : Timestamp) (swarm_id : SwarmId) (action_kind constitution_version : string)
  (evidence : list Evidence) : Receipt :=
  Receipt.mk (SpecVersion.mk "1.0.0") swarm_id (ControlPlaneIdentity.agent_id cp) action_kind
    (default CausalRef.empty causal) evidence constitution_version None now SealStatus.unsealed [].
Definition unsigned_receipt := unsigned_receipt_after None.

Lemma control_plane_receipt_after_eq causal cp clock swarm kind cv ev :
  control_plane_receipt_after causal cp clock swarm kind cv ev =
  let r := unsigned_receipt_after causal cp (clock 0) swarm kind cv ev in
  let? sig := map_err err_sign (ControlPlaneIdentity.sign cp (message_of r)) in
  Ok (Receipt.with_signatures (λ _, [SignedBy.new SignatureRole.Actor sig (clock 1)]) r).
Proof. reflexivity. Qed.

Lemma control_plane_receipt_eq cp clock swarm kind cv ev :
  control_plane_receipt cp clock swarm kind cv ev =
  let r := unsigned_receipt cp (clock 0) swarm kind cv ev in
  let? sig := map_err err_sign (ControlPlaneIdentity.sign cp (message_of r)) in
  Ok (Receipt.with_signatures (λ _, [SignedBy.new SignatureRole.Actor sig (clock 1)]) r).
Proof. reflexivity. Qed.

(** The receipts are ones the store accepts, whenever the resolver knows the
    control plane's key. *)
Lemma control_plane_receipt_after_admissible causal cp clock swarm kind cv ev r res :
  signer_sound (ControlPlaneIdentity.signer cp) →
  PassportResolver.resolve_actor res (ControlPlaneIdentity.agent_id cp)
    = Ok (Some (Signer.public_key (ControlPlaneIdentity.signer cp))) →
  control_plane_receipt_after causal cp clock swarm kind cv ev = Ok r → admissible r res.
Proof.
  intros Hs Hres Hr. rewrite control_plane_receipt_after_eq in Hr. cbv zeta in Hr.
  apply rbind_Ok in Hr as (sig & Hsig%map_err_Ok & [= <-]).
  split; [|by repeat constructor].
  exists (Signer.public_key (ControlPlaneIdentity.signer cp)). eexists. split; [done|].
  apply verify_receipt_Ok. split_and!; [by repeat constructor| | |done].
  - eexists. split; [by exists [], []|]. apply verify_Ok. exact (Hs _ _ Hsig).
  - constructor; [by left|constructor].
Qed.

Lemma control_plane_receipt_admissible cp clock swarm kind cv ev r res :
  signer_sound (ControlPlaneIdentity.signer cp) →
  PassportResolver.resolve_actor res (ControlPlaneIdentity.agent_id cp)
    = Ok (Some (Signer.public_key (ControlPlaneIdentity.signer cp))) →
  control_plane_receipt cp clock swarm kind cv ev = Ok r → admissible r res.
Proof. apply control_plane_receipt_after_admissible. Qed.

End control_plane_receipt.

(** ** Every passport store, through the contract *)

Section clients.
Context {P : Type} `{PassportStoreLaws P}.

Inductive PassportOp :=
| Register (p : Passport)
| Revoke (a : AgentId) (reason : string)
| RotateKey (p : Passport).

Definition passport_step (s : P) (op : PassportOp) : P :=
  match op with
  | Register p => (register p s).2
  | Revoke a reason => (revoke a reason s).2
  | RotateKey p => (rotate_key p s).2
  end.
Definition passport_run (ops : list PassportOp) (s : P) : P := foldl passport_step s ops.

(** Live passports sit under their own agent id and carry a valid
    self-signature. *)
Definition passports_ok (s : P) : Prop :=
  ∀ a p, live s !! a = Some p → Passport.agent_id p = a ∧ self_signed p.

Lemma insert_passport_ok s s' p :
  passports_ok s → self_signed p → live s' = <[Passport.agent_id p := p]> (live s) → passports_ok s'.
Proof.
  intros Hs Hp Hl a q. rewrite Hl, lookup_insert_Some. intros [[<- <-]|[_ Hq]]; [done|by apply Hs].
Qed.

Lemma self_signed_dec (p : Passport) : self_signed p ∨ ¬ self_signed p.
Proof.
  destruct (verify_self_signature p) as [[]|e] eqn:E; [left; by apply verify_self_signature_Ok|].
  right. by apply verify_self_signature_Err in E as [_ ?].
Qed.

Lemma passport_step_ok s op : passports_ok s → passports_ok (passport_step s op).
Proof.
  intros Hs. destruct op as [p|a reason|p]; simpl.
  - pose proof (register_spec p s) as Hr. destruct (register p s) as [r s']. simpl.
    case_bool_decide; [|by intros a q; rewrite (proj2 Hr); apply Hs].
    destruct Hr as [H1' H2']. destruct (self_signed_dec p) as [Hp|Hp].
    + by eapply insert_passport_ok; [| |apply H1'].
    + intros a q. rewrite (proj2 (H2' Hp)). apply Hs.
  - pose proof (revoke_spec a reason s) as Hr. destruct (revoke a reason s) as [r s']. simpl.
    destruct Hr as [Hl _]. intros b q. rewrite Hl, lookup_delete_Some. intros [_ ?]. by apply Hs.
  - pose proof (rotate_key_spec p s) as Hr. destruct (rotate_key p s) as [r s']. simpl.
    destruct Hr as [H1' H2']. destruct (self_signed_dec p) as [Hp|Hp];
      [destruct (live s !! Passport.agent_id p) eqn:El|].
    + eapply insert_passport_ok; [done|done|]. by apply H1'.
    + intros a q. rewrite (proj2 (H2' (or_intror eq_refl))). apply Hs.
    + intros a q. rewrite (proj2 (H2' (or_introl Hp))). apply Hs.
Qed.

Lemma passport_run_ok ops s : passports_ok s → passports_ok (passport_run ops s).
Proof.
  revert s; induction ops as [|op ops IH]; intros s Hs; [done|]. by apply IH, passport_step_ok.
Qed.
End clients.

(** ** Properties *)

Section properties.
Context `{CryptoOps} `{Encode pproto.Passport}.

(** The in-memory passport store, as the receipt store sees it: after any
    history of registrations, revocations and rotations, an actor resolves
    exactly when it is live, to the key of a passport that carries that agent's
    id and a valid signature by that very key. *)
Lemma resolved_keys_self_signed (ops : list PassportOp) (a : AgentId) (pk : PublicKey) :
  let s := passport_run ops MemoryPassportStore.new in
  PassportResolver.resolve_actor (PassportResolverAdapter.adapter s) a = Ok (Some pk) ↔
  ∃ p, live s !! a = Some p ∧ Passport.agent_id p = a ∧ Passport.agent_public_key p = pk ∧
       self_signed p.
Proof.
  intros s. assert (passports_ok s) as Hs.
  { apply passport_run_ok. intros ? ? Hl. simpl in Hl. by apply lookup_empty_Some in Hl. }
  rewrite PassportResolverAdapter.adapter_resolves. split.
  - intros Heq. destruct (live s !! a) as [p|] eqn:El; simpl in Heq; [|done]. injection Heq as <-.
    destruct (Hs a p El). eauto.
  - intros (p & -> & _ & <- & _). done.
Qed.

End properties.
