(* ===== verification/Capability.v ===== *)
(** * [yutha-capability]: [issuer.rs], [capability.rs], [error.rs], [proto_conv.rs]

    The capability token, its stand-alone check, its wire form and canonical
    bytes. *)

From S2P Require Import Prelude RustStd Core CoreProto Crypto ReceiptTypes ReceiptProto.
From S2P Require Import Scope.

Module Issuer.
(* yutha-capability/src/issuer.rs:27-32 ControlPlaneIssuer *)
Record ControlPlaneIssuer := mkControlPlane {
  control_plane_key_fingerprint : bytes; instance_id : string }.
(* yutha-capability/src/issuer.rs:13-20 Issuer *)
Inductive Issuer :=
| Agent (a : AgentId)
| Operator (key_fingerprint : bytes)
| ControlPlane (c : ControlPlaneIssuer).
#[global] Instance ControlPlaneIssuer_eq_dec : EqDecision ControlPlaneIssuer.
Proof. solve_decision. Defined.
#[global] Instance Issuer_eq_dec : EqDecision Issuer.
Proof. solve_decision. Defined.
End Issuer.
Notation Issuer := Issuer.Issuer.

Module CapabilityError.
(* yutha-capability/src/error.rs:12-75 CapabilityError *)
Inductive CapabilityError :=
| IssuerSignatureInvalid
| MissingField (field : string)
| OutOfValidityWindow
| ChainTooDeep (actual max : N)
| AttenuationBroadens (detail : string)
| ParentNotFound (h : Hash)
| Revoked
| SubjectQuarantined (a : AgentId)
| Backend (msg : string)
| Crypto (e : CryptoError)
| Core (e : CoreError)
| Signer (msg : string).
#[global] Instance CapabilityError_eq_dec : EqDecision CapabilityError.
Proof. solve_decision. Defined.
(* yutha-capability/src/error.rs:12-75 CapabilityError (Display) *)
Definition to_string (e : CapabilityError) : string :=
  match e with
  | IssuerSignatureInvalid => "issuer signature invalid"
  | MissingField f => "capability missing required field: " +:+ f
  | OutOfValidityWindow => "capability expired or not yet valid"
  | ChainTooDeep actual max =>
      "attenuation chain depth " +:+ show_N actual +:+ " exceeds maximum " +:+ show_N max
  | AttenuationBroadens d => "attenuation cannot broaden parent scope: " +:+ d
  | ParentNotFound h => "parent capability not found: " +:+ Hash.to_hex h
  | Revoked => "capability revoked"
  | SubjectQuarantined a => "capability subject is quarantined: " +:+ AgentId.to_string a
  | Backend m => "backend error: " +:+ m
  | Crypto e => CryptoError.to_string e
  | Core e => CoreError.to_string e
  | Signer m => "signer failed: " +:+ m
  end.
End CapabilityError.
Notation CapabilityError := CapabilityError.CapabilityError.

Module Capability.
(* yutha-capability/src/capability.rs:16-41 Capability *)
Record Capability := mk {
  spec_version : SpecVersion; capability_id : bytes; swarm_id : SwarmId; issuer : Issuer;
  subject : AgentId; scope : Scope; parent : option Hash; valid_from : Timestamp;
  valid_until : Timestamp; caveats : list Caveat; revocation_endpoint : string;
  issuer_signature : option Signature }.
#[global] Instance Capability_eq_dec : EqDecision Capability.
Proof. solve_decision. Defined.
Definition with_signature (s : option Signature) (c : Capability) : Capability :=
  mk (spec_version c) (capability_id c) (swarm_id c) (issuer c) (subject c) (scope c) (parent c)
    (valid_from c) (valid_until c) (caveats c) (revocation_endpoint c) s.
(* yutha-capability/src/capability.rs:59-61 Capability::is_within_window *)
Definition is_within_window `{TimeOps} (c : Capability) (now : Timestamp) : bool :=
  Timestamp.wall_at_or_after now (valid_from c) && Timestamp.wall_at_or_after (valid_until c) now.
End Capability.
Notation Capability := Capability.Capability.

Module CapabilityBuilder.
(* yutha-capability/src/capability.rs:124-136 CapabilityBuilder *)
Record CapabilityBuilder := mk {
  spec_version : option SpecVersion; capability_id : option bytes; swarm_id : option SwarmId;
  issuer : option Issuer; subject : option AgentId; scope : Scope; parent : option Hash;
  valid_from : option Timestamp; valid_until : option Timestamp; caveats : list Caveat;
  revocation_endpoint : string }.
(* yutha-capability/src/capability.rs:197-224 CapabilityBuilder::build *)
Definition build (b : CapabilityBuilder) : Result Capability CapabilityError :=
  let? spec_version := ok_or (spec_version b) (CapabilityError.MissingField "spec_version") in
  let? capability_id := ok_or (capability_id b) (CapabilityError.MissingField "capability_id") in
  let? swarm_id := ok_or (swarm_id b) (CapabilityError.MissingField "swarm_id") in
  let? issuer := ok_or (issuer b) (CapabilityError.MissingField "issuer") in
  let? subject := ok_or (subject b) (CapabilityError.MissingField "subject") in
  let? valid_from := ok_or (valid_from b) (CapabilityError.MissingField "valid_from") in
  let? valid_until := ok_or (valid_until b) (CapabilityError.MissingField "valid_until") in
  Ok (Capability.mk spec_version capability_id swarm_id issuer subject (scope b) (parent b)
        valid_from valid_until (caveats b) (revocation_endpoint b) None).
End CapabilityBuilder.

(** ** The wire form *)

Module cproto.
(* The messages of spec/capability/capability-v1.proto. *)
Record ControlPlaneIssuer := mkControlPlaneIssuer { Cp_fingerprint : bytes; Cp_instance_id : string }.
Inductive IssuerKind :=
| Agent (id : proto.AgentId) | OperatorKeyFingerprint (b : bytes) | ControlPlane (c : ControlPlaneIssuer).
Record Issuer := mkIssuer { Issuer_kind : option IssuerKind }.
Record Scope := mkScope {
  Scope_permitted_actions : list string; Scope_resource_tags : list string;
  Scope_bounds : gmap string string; Scope_permitted_recipients : list string;
  Scope_memory_scopes : list string }.
Inductive CaveatKind :=
| TimeOfDay (from_utc to_utc : string)
| ConstitutionVersion (min_version max_version : string)
| SupervisorRequired (supervisor_role : string)
| RateLimit (max_actions window_seconds : N)
| OnlyIfTagged (required_tags : list string)
| NeverIfTagged (forbidden_tags : list string).
Record Caveat := mkCaveat { Caveat_kind : option CaveatKind }.
Record CapabilitySignature := mkCapabilitySignature {
  Sig_role : Z; Sig_signature : option proto.Signature; Sig_signed_at : option proto.Timestamp }.
Record Capability := mkCapability {
  Cap_spec_version : option proto.Version; Cap_capability_id : bytes;
  Cap_swarm_id : option proto.SwarmId; Cap_issuer : option Issuer;
  Cap_subject : option proto.AgentId; Cap_scope : option Scope; Cap_parent : option proto.Hash;
  Cap_valid_from : option proto.Timestamp; Cap_valid_until : option proto.Timestamp;
  Cap_caveats : list Caveat; Cap_revocation_endpoint : string;
  Cap_extensions : option rproto.Extensions; Cap_signatures : list CapabilitySignature }.
Record ActionDescriptor := mkActionDescriptor {
  Action_kind : string; Action_resource_tags : list string; Action_numeric_values : gmap string string;
  Action_recipient : string; Action_memory_scope : string }.
Record CheckResponse := mkCheckResponse {
  Check_permitted : bool; Check_deny_reason : string; Check_matched : list string;
  Check_unmet : list string; Check_receipt : option proto.Hash }.
End cproto.

(** [CapabilitySignatureRole::Issuer as i32] *)
Definition ROLE_ISSUER : Z := 1.

(* yutha-capability/src/proto_conv.rs:39-57 From<&Issuer> for proto::Issuer *)
#[global] Instance Issuer_to_proto : ToProto Issuer cproto.Issuer :=
  λ i, cproto.mkIssuer (Some
         match i with
         | Issuer.Agent id => cproto.Agent (to_proto id)
         | Issuer.Operator fp => cproto.OperatorKeyFingerprint fp
         | Issuer.ControlPlane c =>
             cproto.ControlPlane (cproto.mkControlPlaneIssuer
               (Issuer.control_plane_key_fingerprint c) (Issuer.instance_id c))
         end).
(* yutha-capability/src/proto_conv.rs:63-76 From<&Scope> for proto::Scope *)
#[global] Instance Scope_to_proto : ToProto Scope cproto.Scope :=
  λ s, cproto.mkScope (Scope.permitted_actions s) (Scope.resource_tags s) (Scope.bounds s)
         (Scope.permitted_recipients s) (Scope.memory_scopes s).
(* yutha-capability/src/proto_conv.rs:82-131 From<&Caveat> for proto::Caveat *)
#[global] Instance Caveat_to_proto : ToProto Caveat cproto.Caveat :=
  λ c, cproto.mkCaveat (Some
         match c with
         | Caveat.TimeOfDayC t => cproto.TimeOfDay (Caveat.from_utc t) (Caveat.to_utc t)
         | Caveat.ConstitutionVersion min_version max_version =>
             cproto.ConstitutionVersion min_version (default ""%string max_version)
         | Caveat.SupervisorRequired supervisor_role => cproto.SupervisorRequired supervisor_role
         | Caveat.RateLimitC r => cproto.RateLimit (Caveat.max_actions r) (Caveat.window_seconds r)
         | Caveat.OnlyIfTagged required_tags => cproto.OnlyIfTagged required_tags
         | Caveat.NeverIfTagged forbidden_tags => cproto.NeverIfTagged forbidden_tags
         end).
(* yutha-capability/src/proto_conv.rs:137-172 From<&Capability> for proto::Capability *)
#[global] Instance Capability_to_proto : ToProto Capability cproto.Capability :=
  λ c, let signatures :=
         match Capability.issuer_signature c with
         | None => []
         | Some sig => [cproto.mkCapabilitySignature ROLE_ISSUER (Some (to_proto sig))
                          (Some (proto.mkTimestamp "" 0))]
         end in
       cproto.mkCapability (Some (to_proto (Capability.spec_version c))) (Capability.capability_id c)
         (Some (to_proto (Capability.swarm_id c))) (Some (to_proto (Capability.issuer c)))
         (Some (to_proto (Capability.subject c))) (Some (to_proto (Capability.scope c)))
         (to_proto <$> Capability.parent c) (Some (to_proto (Capability.valid_from c)))
         (Some (to_proto (Capability.valid_until c))) (to_proto <$> Capability.caveats c)
         (Capability.revocation_endpoint c) None signatures.
(* yutha-capability/src/proto_conv.rs:181-186 Capability::to_canonical_proto *)
Definition Capability_to_canonical_proto (c : Capability) : cproto.Capability :=
  let p : cproto.Capability := to_proto c in
  cproto.mkCapability (cproto.Cap_spec_version p) (cproto.Cap_capability_id p)
    (cproto.Cap_swarm_id p) (cproto.Cap_issuer p) (cproto.Cap_subject p) (cproto.Cap_scope p)
    (cproto.Cap_parent p) (cproto.Cap_valid_from p) (cproto.Cap_valid_until p)
    (cproto.Cap_caveats p) (cproto.Cap_revocation_endpoint p) None [].
(* yutha-capability/src/capability.rs:113-115 Capability::canonical_bytes *)
#[global] Instance Capability_canonical `{Encode cproto.Capability} : Canonical Capability :=
  λ c, Ok (encode_to_vec (Capability_to_canonical_proto c)).

(* yutha-capability/src/proto_conv.rs:219-230 TryFrom<&proto::Issuer> for Issuer *)
#[global] Instance Issuer_try_from : TryFromProto cproto.Issuer Issuer CapabilityError :=
  λ p, let? kind := ok_or (cproto.Issuer_kind p) (CapabilityError.Core (missing_field "issuer.kind")) in
       match kind with
       | cproto.Agent id => let? a := try_from_core CapabilityError.Core id in Ok (Issuer.Agent a)
       | cproto.OperatorKeyFingerprint b => Ok (Issuer.Operator b)
       | cproto.ControlPlane c =>
           Ok (Issuer.ControlPlane (Issuer.mkControlPlane (cproto.Cp_fingerprint c)
                                      (cproto.Cp_instance_id c)))
       end.
(* yutha-capability/src/proto_conv.rs:236-249 From<&proto::Scope> for Scope *)
Definition Scope_from (p : cproto.Scope) : Scope :=
  Scope.mk (cproto.Scope_permitted_actions p) (cproto.Scope_resource_tags p) (cproto.Scope_bounds p)
    (cproto.Scope_permitted_recipients p) (cproto.Scope_memory_scopes p).
Definition none_if_blank (s : string) : option string := match s with EmptyString => None | _ => Some s end.
(* yutha-capability/src/proto_conv.rs:255-302 TryFrom<&proto::Caveat> for Caveat *)
#[global] Instance Caveat_try_from : TryFromProto cproto.Caveat Caveat CapabilityError :=
  λ p, let? kind := ok_or (cproto.Caveat_kind p) (CapabilityError.Core (missing_field "caveat.kind")) in
       Ok match kind with
          | cproto.TimeOfDay from_utc to_utc => Caveat.TimeOfDayC (Caveat.mkTimeOfDay from_utc to_utc)
          | cproto.ConstitutionVersion min_version max_version =>
              Caveat.ConstitutionVersion min_version (none_if_blank max_version)
          | cproto.SupervisorRequired supervisor_role => Caveat.SupervisorRequired supervisor_role
          | cproto.RateLimit max_actions window_seconds =>
              Caveat.RateLimitC (Caveat.mkRateLimit max_actions window_seconds)
          | cproto.OnlyIfTagged required_tags => Caveat.OnlyIfTagged required_tags
          | cproto.NeverIfTagged forbidden_tags => Caveat.NeverIfTagged forbidden_tags
          end.
(* yutha-capability/src/proto_conv.rs:308-374 TryFrom<&proto::Capability> for Capability *)
#[global] Instance Capability_try_from `{TimeOps}
  : TryFromProto cproto.Capability Capability CapabilityError :=
  λ p, let? spec_version := try_from_required CapabilityError.Core "spec_version" (cproto.Cap_spec_version p) in
       let? swarm_id := try_from_required CapabilityError.Core "swarm_id" (cproto.Cap_swarm_id p) in
       let? issuer_p := ok_or (cproto.Cap_issuer p) (CapabilityError.Core (missing_field "issuer")) in
       let? issuer := try_from issuer_p in
       let? subject := try_from_required CapabilityError.Core "subject" (cproto.Cap_subject p) in
       let scope := default Scope.empty (Scope_from <$> cproto.Cap_scope p) in
       let? parent := map_err CapabilityError.Core (try_from_opt (cproto.Cap_parent p)) in
       let? valid_from := try_from_required CapabilityError.Core "valid_from" (cproto.Cap_valid_from p) in
       let? valid_until := try_from_required CapabilityError.Core "valid_until" (cproto.Cap_valid_until p) in
       let? caveats := collect try_from (cproto.Cap_caveats p) in
       let issuer_sig := list_find (λ s, cproto.Sig_role s = ROLE_ISSUER) (cproto.Cap_signatures p) in
       let? issuer_signature :=
         map_err CapabilityError.Core
           (try_from_opt (issuer_sig ≫= λ s, cproto.Sig_signature s.2)) in
       Ok (Capability.mk spec_version (cproto.Cap_capability_id p) swarm_id issuer subject scope
             parent valid_from valid_until caveats (cproto.Cap_revocation_endpoint p)
             issuer_signature).
(* yutha-capability/src/proto_conv.rs:380-390 From<&ActionDescriptor> for proto::ActionDescriptor *)
#[global] Instance ActionDescriptor_to_proto : ToProto ActionDescriptor cproto.ActionDescriptor :=
  λ d, cproto.mkActionDescriptor (ActionDescriptor.action_kind d) (ActionDescriptor.resource_tags d)
         (ActionDescriptor.numeric_values d) (default ""%string (ActionDescriptor.recipient d))
         (default ""%string (ActionDescriptor.memory_scope d)).
(* yutha-capability/src/proto_conv.rs:392-413 From<&proto::ActionDescriptor> for ActionDescriptor *)
Definition ActionDescriptor_from (p : cproto.ActionDescriptor) : ActionDescriptor :=
  ActionDescriptor.mk (cproto.Action_kind p) (cproto.Action_resource_tags p)
    (cproto.Action_numeric_values p) (none_if_blank (cproto.Action_recipient p))
    (none_if_blank (cproto.Action_memory_scope p)).
(* yutha-capability/src/proto_conv.rs:424-432 CheckOutcome::to_proto_with_receipt *)
Definition to_proto_with_receipt (o : CheckOutcome) (check_receipt : option Hash)
  : cproto.CheckResponse :=
  cproto.mkCheckResponse (CheckOutcome.permitted o) (CheckOutcome.deny_reason o)
    (CheckOutcome.matched_caveats o) (CheckOutcome.unmet_caveats o) (to_proto <$> check_receipt).

(** ** Operations on a single capability *)

Section ops.
Context `{CryptoOps} `{Encode cproto.Capability}.

(* yutha-capability/src/capability.rs:75-84 Capability::check (caveats) *)
Fixpoint eval_caveats (d : ActionDescriptor) (matched unmet : list string) (caveats : list Caveat)
  : list string * list string :=
  match caveats with
  | [] => (matched, unmet)
  | caveat :: caveats =>
      let label := Caveat.caveat_label caveat in
      if Caveat.permits caveat d then eval_caveats d (matched ++ [label]) unmet caveats
      else eval_caveats d matched (unmet ++ [label]) caveats
  end.

(* yutha-capability/src/capability.rs:66-90 Capability::check *)
Definition check (c : Capability) (d : ActionDescriptor) : CheckOutcome :=
  let cap_id := result_ok (content_address c) in
  if negb (Scope.permits (Capability.scope c) d) then
    CheckOutcome.deny cap_id "scope does not permit action" []
  else
    let '(matched, unmet) := eval_caveats d [] [] (Capability.caveats c) in
    match unmet with
    | [] => CheckOutcome.permit cap_id matched
    | _ => CheckOutcome.deny cap_id "caveat(s) not met" unmet
    end.

(* yutha-capability/src/capability.rs:231-240 CapabilityBuilder::sign *)
Definition Capability_sign (b : CapabilityBuilder.CapabilityBuilder) (signer : Signer)
  : Result Capability CapabilityError :=
  let? c := CapabilityBuilder.build b in
  let? message := map_err CapabilityError.Crypto (canonical_bytes c) in
  let? sig := map_err (λ e, CapabilityError.Signer (SignerError.to_string e))
                (Signer.sign_message signer message) in
  Ok (Capability.with_signature (Some sig) c).

Definition capability_hash (c : Capability) : Hash := sha256 (encode_to_vec (Capability_to_canonical_proto c)).

Lemma content_address_capability c : content_address c = Ok (capability_hash c).
Proof. done. Qed.

Lemma eval_caveats_spec d matched unmet cs :
  eval_caveats d matched unmet cs =
  (matched ++ (Caveat.caveat_label <$> filter (λ c, Caveat.permits c d = true) cs),
   unmet ++ (Caveat.caveat_label <$> filter (λ c, Caveat.permits c d = false) cs)).
Proof.
  revert matched unmet; induction cs as [|c cs IH]; intros matched unmet; simpl.
  { by rewrite !app_nil_r. }
  rewrite !filter_cons. destruct (Caveat.permits c d) eqn:E; rewrite IH;
    repeat (case_decide; try congruence); csimpl; by rewrite <- app_assoc.
Qed.

Lemma no_unmet_caveats d cs :
  filter (λ c, Caveat.permits c d = false) cs = [] ↔ Forall (λ c, Caveat.permits c d = true) cs.
Proof.
  induction cs as [|c cs IH]; simpl; [split; [constructor|done]|].
  rewrite filter_cons, Forall_cons. destruct (Caveat.permits c d) eqn:E; case_decide; naive_solver.
Qed.

Lemma check_permitted c d :
  CheckOutcome.permitted (check c d) = true ↔
  Scope.permits (Capability.scope c) d = true ∧
  Forall (λ cv, Caveat.permits cv d = true) (Capability.caveats c).
Proof.
  unfold check. destruct (Scope.permits (Capability.scope c) d); simpl; [|naive_solver].
  rewrite eval_caveats_spec, <- (no_unmet_caveats d). simpl.
  destruct (filter (λ c0, Caveat.permits c0 d = false) (Capability.caveats c)); simpl; naive_solver.
Qed.

End ops.

(** ** Laws of the wire form *)

Section wire.
Context `{TimeOps}.

#[global] Instance Issuer_wf : WellFormed Issuer :=
  λ i, match i with Issuer.Agent a => wf a | _ => True end.
#[global] Instance Caveat_wf : WellFormed Caveat :=
  λ c, match c with Caveat.ConstitutionVersion _ (Some v) => v ≠ ""%string | _ => True end.
#[global] Instance Capability_wf : WellFormed Capability :=
  λ c, wf (Capability.spec_version c) ∧ wf (Capability.swarm_id c) ∧ wf (Capability.issuer c) ∧
       wf (Capability.subject c) ∧ wf (Capability.parent c) ∧ wf (Capability.valid_from c) ∧
       wf (Capability.valid_until c) ∧ wf (Capability.caveats c) ∧ wf (Capability.issuer_signature c).

Lemma none_if_blank_default o : o ≠ Some ""%string → none_if_blank (default ""%string o) = o.
Proof. by destruct o as [[]|]. Qed.

#[global] Instance Issuer_round_trip : RoundTrip Issuer cproto.Issuer CapabilityError.
Proof.
  constructor. intros [a|fp|[f i]] Hw; [|done..]. unfold try_from, Issuer_try_from, try_from_core. simpl.
  by rewrite round_trip.
Qed.
#[global] Instance Caveat_round_trip : RoundTrip Caveat cproto.Caveat CapabilityError.
Proof.
  constructor. intros [[]|mi ma|r|[]|ts|ts] Hw; try done. unfold try_from, Caveat_try_from. simpl.
  rewrite none_if_blank_default; [done|]. by intros ->.
Qed.
#[global] Instance Capability_round_trip : RoundTrip Capability cproto.Capability CapabilityError.
Proof.
  constructor. intros [sv ci sw iss su sc pa vf vu ca re si] (H1&H2&H3&H4&H5&H6&H7&H8&H9).
  unfold try_from, Capability_try_from. simpl in *.
  rewrite !try_from_required_round_trip by done. cbn [rbind].
  rewrite round_trip by done. cbn [rbind]. rewrite try_from_opt_round_trip by done. cbn [map_err rbind].
  rewrite collect_round_trip by done. cbn [rbind].
  destruct si as [sig|]; simpl; [|by destruct sc].
  rewrite round_trip by done. by destruct sc.
Qed.

Lemma none_if_blank_nonempty s v : none_if_blank s = Some v → v ≠ ""%string.
Proof. destruct s; [done|]. by intros [= <-]. Qed.

#[global] Instance Issuer_decodes : DecodesWf Issuer cproto.Issuer CapabilityError.
Proof.
  constructor. intros p i Hp. unfold try_from, Issuer_try_from in Hp. inv_ok Hp.
  destruct x; simplify_eq/=; try done. apply rbind_Ok in Hp as (a & Ha & [= <-]).
  apply map_err_Ok in Ha. by apply decodes_wf in Ha.
Qed.
#[global] Instance Caveat_decodes : DecodesWf Caveat cproto.Caveat CapabilityError.
Proof.
  constructor. intros p c Hp. unfold try_from, Caveat_try_from in Hp. inv_ok Hp.
  destruct x; try done. unfold wf, Caveat_wf. destruct (none_if_blank max_version) eqn:E; [|done].
  by eapply none_if_blank_nonempty.
Qed.
#[global] Instance Capability_decodes : DecodesWf Capability cproto.Capability CapabilityError.
Proof.
  constructor. intros p c Hp. unfold try_from, Capability_try_from in Hp. inv_ok Hp. decode_wf. done.
Qed.

(** ** Properties *)

(** Capabilities survive the wire: encoding a well-formed capability and
    decoding it gives the same capability, and whatever is decoded is
    well-formed, so that a second trip changes nothing. *)
Lemma capability_wire_round_trip :
  (∀ c : Capability, wf c → try_from (E:=CapabilityError) (to_proto (P:=cproto.Capability) c) = Ok c) ∧
  (∀ (p : cproto.Capability) (c : Capability), try_from (E:=CapabilityError) p = Ok c →
     wf c ∧ try_from (E:=CapabilityError) (to_proto (P:=cproto.Capability) c) = Ok c).
Proof.
  split; [apply round_trip|]. intros p c Hc. assert (wf c) by by eapply decodes_wf.
  split; [done|by apply round_trip].
Qed.
End wire.
