(* ===== verification/CapabilityStore.v ===== *)
(** * [yutha-capability]: [store.rs], [quarantine.rs], [memory.rs]

    The in-memory capability store: issue, attenuate, revoke, look up, and the
    check that walks the parent chain.  The receipts go through the
    [ReceiptStore] interface.  [Chain] describes what the walk accepts;
    [check_inner_permitted] is the exact condition for a permit. *)

From S2P Require Import Prelude RustStd Core CoreProto Crypto ReceiptTypes ReceiptProto Merkle.
From S2P Require Import ReceiptVerify ReceiptStore PassportStore Scope Capability.

(* yutha-capability/src/lib.rs:34-34 DEFAULT_MAX_CHAIN_DEPTH *)
Definition DEFAULT_MAX_CHAIN_DEPTH : N := 8.

Module IssuanceOutcome.
(* yutha-capability/src/store.rs:17-23 IssuanceOutcome *)
Record IssuanceOutcome := mk { capability_id : Hash; issuance_receipt : Hash }.
End IssuanceOutcome.
Notation IssuanceOutcome := IssuanceOutcome.IssuanceOutcome.

Module CheckEvaluation.
(* yutha-capability/src/store.rs:28-34 CheckEvaluation *)
Record CheckEvaluation := mk { outcome : CheckOutcome; check_receipt : Hash }.
End CheckEvaluation.
Notation CheckEvaluation := CheckEvaluation.CheckEvaluation.

(* yutha-capability/src/quarantine.rs:34-44 QuarantineSource *)
Definition QuarantineSource : Type := AgentId → bool.
(* yutha-capability/src/quarantine.rs:55-63 AlwaysAllowed *)
Definition always_allowed : QuarantineSource := λ _, false.

(* yutha-capability/src/store.rs:38-88 CapabilityStore *)
Class CapabilityStore (C : Type) := {
  issue : (nat → Timestamp) → Capability → M C CapabilityError IssuanceOutcome;
  attenuate : (nat → Timestamp) → Capability → M C CapabilityError IssuanceOutcome;
  revoke : (nat → Timestamp) → Hash → string → M C CapabilityError Hash;
  lookup : Hash → C → Result (option Capability) CapabilityError;
  check : (nat → Timestamp) → Hash → ActionDescriptor → M C CapabilityError CheckEvaluation;
  list_for_subject : AgentId → C → Result (list Hash) CapabilityError
}.

Module MemoryCapabilityStore.
(* yutha-capability/src/memory.rs:28-57 MemoryCapabilityStore, Inner *)
Record MemoryCapabilityStore (R : Type) := mk {
  by_id : gmap Hash Capability; revoked : gmap Hash string; receipts : R }.
Arguments mk {R} _ _ _.
Arguments by_id {R} _.
Arguments revoked {R} _.
Arguments receipts {R} _.

Section store.
Context `{TimeOps} `{CryptoOps} `{Encode rproto.Receipt} `{Encode cproto.Capability}.
Context {R : Type} `{!ReceiptStore R}.
(** The store's configuration, and [Uuid::now_v7()] for [SwarmId::default()]. *)
Context (max_depth : N) (resolver : PassportResolver) (control_plane : ControlPlaneIdentity)
  (quarantine : QuarantineSource) (fresh_swarm : SwarmId).
Implicit Types (s : MemoryCapabilityStore R) (clock : nat → Timestamp).

(* yutha-capability/src/memory.rs:109-156 MemoryCapabilityStore::record_event *)
Definition record_event clock (action_kind : string) (swarm_id : SwarmId) (evidence : list Evidence)
  : M (MemoryCapabilityStore R) CapabilityError Hash :=
  match evidence with
  | [] => throw (CapabilityError.Backend "capability receipts require at least one evidence entry")
  | _ =>
      let! receipt := lift (control_plane_receipt
          (λ e, CapabilityError.Backend ("spec version: " +:+ CoreError.to_string e))
          (λ e, CapabilityError.Backend ("build receipt: " +:+ e)) CapabilityError.Crypto
          (λ e, CapabilityError.Signer (SignerError.to_string e))
          control_plane clock swarm_id action_kind "" evidence) in
      let! outcome := m_map_err (λ e, CapabilityError.Backend ("append: " +:+ ReceiptError.to_string e))
          (zoom receipts (λ r s, mk (by_id s) (revoked s) r)
             (append receipt AppendOptions.default resolver)) in
      mret (AppendOutcome.receipt_id outcome)
  end.

Definition string_evidence (key value : string) : Evidence :=
  Evidence.new key "type.yutha.dev/v1/String" (as_bytes value).
Definition hash_evidence (key : string) (h : Hash) : Evidence :=
  Evidence.new key "type.yutha.dev/v1/Hash" (Hash.digest h).
Definition agent_evidence (key : string) (a : AgentId) : Evidence :=
  Evidence.new key "type.yutha.dev/v1/AgentId" (AgentId.as_bytes a).

(* yutha-capability/src/memory.rs:173-198 MemoryCapabilityStore::record_check (evidence) *)
Definition check_evidence (outcome : CheckOutcome) (descriptor : ActionDescriptor) : list Evidence :=
  [string_evidence "action_kind_checked" (ActionDescriptor.action_kind descriptor)]
  ++ match CheckOutcome.capability outcome with
     | Some cap_id => [hash_evidence "capability_hash" cap_id]
     | None => []
     end
  ++ (if CheckOutcome.permitted outcome then []
      else string_evidence "deny_reason" (CheckOutcome.deny_reason outcome)
           :: (string_evidence "unmet_caveat" <$> CheckOutcome.unmet_caveats outcome)).

(* yutha-capability/src/memory.rs:161-201 MemoryCapabilityStore::record_check *)
Definition record_check clock (outcome : CheckOutcome) (descriptor : ActionDescriptor)
  (swarm_id : SwarmId) : M (MemoryCapabilityStore R) CapabilityError Hash :=
  record_event clock
    (if CheckOutcome.permitted outcome then "capability.check.pass" else "capability.check.deny")
    swarm_id (check_evidence outcome descriptor).

(* yutha-capability/src/memory.rs:203-221 MemoryCapabilityStore::record_issue *)
Definition record_issue clock (cap_id : Hash) (capability : Capability) :=
  record_event clock "capability.issue" (Capability.swarm_id capability)
    [hash_evidence "capability_hash" cap_id; agent_evidence "subject" (Capability.subject capability)].

(* yutha-capability/src/memory.rs:223-251 MemoryCapabilityStore::record_attenuate *)
Definition record_attenuate clock (child_id parent_id : Hash) (child : Capability) :=
  record_event clock "capability.attenuate" (Capability.swarm_id child)
    [hash_evidence "child_capability_hash" child_id; hash_evidence "parent_capability_hash" parent_id;
     agent_evidence "subject" (Capability.subject child)].

(* yutha-capability/src/memory.rs:253-276 MemoryCapabilityStore::record_revoke *)
Definition record_revoke clock (cap_id : Hash) (swarm_id : SwarmId) (reason : string) :=
  record_event clock "capability.revoke" swarm_id
    [hash_evidence "capability_hash" cap_id; string_evidence "reason" reason].

Definition insert_cap (id : Hash) (c : Capability) s : MemoryCapabilityStore R :=
  mk (<[id := c]> (by_id s)) (revoked s) (receipts s).

(* yutha-capability/src/memory.rs:281-309 MemoryCapabilityStore::issue *)
Definition issue clock (capability : Capability)
  : M (MemoryCapabilityStore R) CapabilityError IssuanceOutcome :=
  if quarantine (Capability.subject capability) then
    throw (CapabilityError.SubjectQuarantined (Capability.subject capability))
  else
    let! capability_id := lift (map_err CapabilityError.Crypto (content_address capability)) in
    do! modify (insert_cap capability_id capability) in
    let! issuance_receipt := record_issue clock capability_id capability in
    mret (IssuanceOutcome.mk capability_id issuance_receipt).

(* yutha-capability/src/memory.rs:311-350 MemoryCapabilityStore::attenuate *)
Definition attenuate clock (child : Capability)
  : M (MemoryCapabilityStore R) CapabilityError IssuanceOutcome :=
  if quarantine (Capability.subject child) then
    throw (CapabilityError.SubjectQuarantined (Capability.subject child))
  else
    let! parent_hash := lift (ok_or (Capability.parent child) (CapabilityError.MissingField "parent")) in
    let! found := gets (λ s, by_id s !! parent_hash) in
    let! parent := lift (ok_or found (CapabilityError.ParentNotFound parent_hash)) in
    let intersected := Scope.intersect (Capability.scope parent) (Capability.scope child) in
    if negb (bool_decide (intersected = Capability.scope child)) then
      throw (CapabilityError.AttenuationBroadens "child scope is not a subset of parent's")
    else
      let! capability_id := lift (map_err CapabilityError.Crypto (content_address child)) in
      do! modify (insert_cap capability_id child) in
      let! issuance_receipt := record_attenuate clock capability_id parent_hash child in
      mret (IssuanceOutcome.mk capability_id issuance_receipt).

(* yutha-capability/src/memory.rs:352-375 MemoryCapabilityStore::revoke *)
Definition revoke clock (capability_id : Hash) (reason : string)
  : M (MemoryCapabilityStore R) CapabilityError Hash :=
  let! found := gets (λ s, by_id s !! capability_id) in
  let! cap := lift (ok_or found (CapabilityError.Backend
                      ("capability not found: " +:+ Hash.to_hex capability_id))) in
  let swarm_id := Capability.swarm_id cap in
  do! modify (λ s, mk (by_id s) (<[capability_id := reason]> (revoked s)) (receipts s)) in
  record_revoke clock capability_id swarm_id reason.

(* yutha-capability/src/memory.rs:377-383 MemoryCapabilityStore::lookup *)
Definition lookup (capability_id : Hash) s : Result (option Capability) CapabilityError :=
  if bool_decide (is_Some (revoked s !! capability_id)) then Ok None
  else Ok (by_id s !! capability_id).

(* yutha-capability/src/memory.rs:385-399 MemoryCapabilityStore::list_for_subject *)
Definition list_for_subject (agent_id : AgentId) s : Result (list Hash) CapabilityError :=
  Ok (filter (λ p, Capability.subject p.2 = agent_id ∧ ¬ is_Some (revoked s !! p.1))
        (map_to_list (by_id s))).*1.

(** What the walk up the chain ends with. *)
Inductive Walk := Links (chain : list Capability) | Refused (o : CheckOutcome) (swarm_id : SwarmId).

(** [chain.first().map(|c| c.swarm_id).unwrap_or_else(..)] *)
Definition leaf_swarm (chain : list Capability) (or_else : SwarmId) : SwarmId :=
  match chain with c :: _ => Capability.swarm_id c | [] => or_else end.

(** [remaining] is [max_depth - depth]: the test [depth > max_depth] first
    holds at [depth = max_depth + 1]. *)
(* yutha-capability/src/memory.rs:470-514 MemoryCapabilityStore::check_inner (walking the chain) *)
Fixpoint walk (remaining : nat) (now : Timestamp) s (capability_id : Hash)
  (chain : list Capability) (cursor : option Hash) : Result Walk CapabilityError :=
  match cursor with
  | None => Ok (Links chain)
  | Some id =>
      match remaining with
      | O => Err (CapabilityError.ChainTooDeep (max_depth + 1) max_depth)
      | S remaining =>
          if bool_decide (is_Some (revoked s !! id)) then
            Ok (Refused (CheckOutcome.deny (Some capability_id) "capability revoked in chain" [])
                  (leaf_swarm chain (default fresh_swarm (Capability.swarm_id <$> by_id s !! id))))
          else
            let? cap := ok_or (by_id s !! id)
                          (CapabilityError.Backend ("missing chain link: " +:+ Hash.to_hex id)) in
            if negb (Capability.is_within_window cap now) then
              Ok (Refused (CheckOutcome.deny (Some capability_id) "capability outside validity window" [])
                    (leaf_swarm chain (Capability.swarm_id cap)))
            else walk remaining now s capability_id (chain ++ [cap]) (Capability.parent cap)
      end
  end.

(* yutha-capability/src/memory.rs:518-528 MemoryCapabilityStore::check_inner (effective scope) *)
Definition effective_scope (root_first : list Capability) : Scope :=
  match root_first with
  | [] => Scope.empty
  | cap :: caps => foldl (λ acc c, Scope.intersect acc (Capability.scope c)) (Capability.scope cap) caps
  end.

(* yutha-capability/src/memory.rs:516-567 MemoryCapabilityStore::check_inner (after the walk) *)
Definition decide_chain (capability_id : Hash) (descriptor : ActionDescriptor)
  (chain : list Capability) : CheckOutcome * SwarmId :=
  let swarm_id := leaf_swarm chain fresh_swarm in
  let chain := rev chain in
  if negb (Scope.permits (effective_scope chain) descriptor) then
    (CheckOutcome.deny (Some capability_id)
       "effective scope (after chain intersection) does not permit action" [], swarm_id)
  else
    let '(matched, unmet) := eval_caveats descriptor [] [] (chain ≫= Capability.caveats) in
    match unmet with
    | [] => (CheckOutcome.permit (Some capability_id) matched, swarm_id)
    | _ => (CheckOutcome.deny (Some capability_id) "caveat(s) in chain not met" unmet, swarm_id)
    end.

(* yutha-capability/src/memory.rs:420-568 MemoryCapabilityStore::check_inner *)
Definition check_inner (now : Timestamp) (capability_id : Hash) (descriptor : ActionDescriptor) s
  : Result (CheckOutcome * SwarmId) CapabilityError :=
  let leaf_meta :=
    if bool_decide (is_Some (revoked s !! capability_id)) then None
    else (λ leaf, (Capability.subject leaf, Capability.swarm_id leaf)) <$> by_id s !! capability_id in
  let quarantined :=
    match leaf_meta with
    | Some (subject, swarm_id) => if quarantine subject then Some swarm_id else None
    | None => None
    end in
  match quarantined with
  | Some swarm_id => Ok (CheckOutcome.deny (Some capability_id) "subject_quarantined" [], swarm_id)
  | None =>
      let? w := walk (N.to_nat max_depth) now s capability_id [] (Some capability_id) in
      match w with
      | Refused o swarm_id => Ok (o, swarm_id)
      | Links chain => Ok (decide_chain capability_id descriptor chain)
      end
  end.

(* yutha-capability/src/memory.rs:401-412 MemoryCapabilityStore::check *)
Definition check clock (capability_id : Hash) (descriptor : ActionDescriptor)
  : M (MemoryCapabilityStore R) CapabilityError CheckEvaluation :=
  let! checked := (λ s, (check_inner (clock 0) capability_id descriptor s, s)) in
  let! check_receipt := record_check (λ n, clock (S n)) checked.1 descriptor checked.2 in
  mret (CheckEvaluation.mk checked.1 check_receipt).

#[global] Instance capability_store : CapabilityStore (MemoryCapabilityStore R) :=
  {| CapabilityStore.issue := issue; CapabilityStore.attenuate := attenuate;
     CapabilityStore.revoke := revoke; CapabilityStore.lookup := lookup;
     CapabilityStore.check := check; CapabilityStore.list_for_subject := list_for_subject |}.
End store.
End MemoryCapabilityStore.
Notation MemoryCapabilityStore := MemoryCapabilityStore.MemoryCapabilityStore.

(** ** The walk and its verdict *)

Import MemoryCapabilityStore.

Section proofs.
Context `{TimeOps} `{CryptoOps} `{Encode rproto.Receipt} `{Encode cproto.Capability}.
Context {R : Type} `{!ReceiptStore R}.
Context (max_depth : N) (resolver : PassportResolver) (control_plane : ControlPlaneIdentity)
  (quarantine : QuarantineSource) (fresh_swarm : SwarmId).
Implicit Types (s : MemoryCapabilityStore R) (clock : nat → Timestamp).

Notation check_inner := (check_inner max_depth quarantine fresh_swarm).
Notation walk := (walk max_depth fresh_swarm).

(** A link the walk accepts: stored, not revoked, inside its window. *)
Definition link (now : Timestamp) s (id : Hash) (c : Capability) : Prop :=
  by_id s !! id = Some c ∧ revoked s !! id = None ∧ Capability.is_within_window c now = true.

(** [Chain now s id cs]: [cs] are the capabilities from [id] up to a root. *)
Inductive Chain (now : Timestamp) s : Hash → list Capability → Prop :=
| chain_root id c : link now s id c → Capability.parent c = None → Chain now s id [c]
| chain_link id c p cs : link now s id c → Capability.parent c = Some p → Chain now s p cs →
    Chain now s id (c :: cs).

Lemma Chain_functional now s id cs cs' : Chain now s id cs → Chain now s id cs' → cs = cs'.
Proof.
  intros Hc; revert cs'. induction Hc as [id c [Hc _] Hp|id c p cs [Hc _] Hp _ IH]; intros cs' Hc';
    inversion Hc' as [? ? [Hd _]|? ? ? ? [Hd _]]; simplify_eq; [done|]. f_equal. by apply IH.
Qed.

Lemma walk_Links n now s cid acc id out :
  walk n now s cid acc (Some id) = Ok (Links out) ↔
  ∃ cs, out = acc ++ cs ∧ Chain now s id cs ∧ length cs ≤ n.
Proof.
  revert acc id; induction n as [|n IH]; intros acc id.
  { split; [done|]. intros (cs & _ & Hc & Hl). destruct Hc; simpl in Hl; lia. }
  simpl. case_bool_decide as Hr.
  { split; [done|]. intros (cs & _ & Hc & _).
    assert (∃ c, link now s id c) as (c & _ & Hn & _) by (inversion Hc; eauto).
    rewrite Hn in Hr. by destruct Hr. }
  apply eq_None_not_Some in Hr. destruct (by_id s !! id) as [c|] eqn:Hid; simpl.
  2: { split; [done|]. intros (cs & _ & Hc & _).
       assert (∃ c, link now s id c) as (c & Hn & _) by (inversion Hc; eauto). congruence. }
  destruct (Capability.is_within_window c now) eqn:Hw; simpl.
  2: { split; [done|]. intros (cs & _ & Hc & _).
       assert (∃ c, link now s id c) as (c' & ? & _ & ?) by (inversion Hc; eauto). congruence. }
  destruct (Capability.parent c) as [p|] eqn:Hp.
  - rewrite IH. split; intros (cs & Hout & Hc & Hl).
    + exists (c :: cs). subst. rewrite <- app_assoc. split_and!; [done| |simpl; lia].
      by eapply chain_link.
    + inversion Hc as [? ? [Hd _]|? ? ? cs' [Hd _] ? Hc']; simplify_eq/=.
      exists cs'. rewrite <- app_assoc. split_and!; [done|done|lia].
  - destruct n; simpl; (split; [intros [= <-]; exists [c]; split_and!;
      [done|by apply chain_root|simpl; lia]|]); intros (cs & -> & Hc & _);
      inversion Hc as [? ? [Hd _]|? ? ? cs' [Hd _] ? Hc']; by simplify_eq/=.
Qed.

Lemma walk_Refused n now s cid acc id o sw :
  walk n now s cid acc id = Ok (Refused o sw) → CheckOutcome.permitted o = false.
Proof.
  revert acc id; induction n as [|n IH]; intros acc [id|]; simpl; try done.
  case_bool_decide; [by intros [= <- _]|]. destruct (by_id s !! id) as [c|]; simpl; [|done].
  destruct (Capability.is_within_window c now); simpl; [apply IH|by intros [= <- _]].
Qed.

(** What the chain allows, leaf first. *)
Definition chain_allows (cs : list Capability) (d : ActionDescriptor) : Prop :=
  Scope.permits (effective_scope (rev cs)) d = true ∧
  Forall (λ c, Forall (λ cv, Caveat.permits cv d = true) (Capability.caveats c)) cs.

Lemma caveats_of_chain d cs :
  Forall (λ cv, Caveat.permits cv d = true) (rev cs ≫= Capability.caveats) ↔
  Forall (λ c, Forall (λ cv, Caveat.permits cv d = true) (Capability.caveats c)) cs.
Proof.
  rewrite Forall_bind. rewrite !Forall_forall.
  split; intros Hall c Hc; apply Hall; apply list_elem_of_In; apply list_elem_of_In in Hc;
    [by apply in_rev in Hc|by apply in_rev].
Qed.

Lemma caveats_hold cs d :
  Forall (λ c, Forall (λ cv, Caveat.permits cv d = true) (Capability.caveats c)) cs ↔
  Forall (λ c, Forall (λ cv, caveat_holds cv d) (Capability.caveats c)) cs.
Proof.
  apply Forall_proper; [|done]. intros c. apply Forall_proper; [|done].
  intros cv. apply caveat_permits_holds.
Qed.

Lemma decide_chain_permitted cid d cs :
  CheckOutcome.permitted (decide_chain fresh_swarm cid d cs).1 = true ↔ chain_allows cs d.
Proof.
  unfold decide_chain, chain_allows. destruct (Scope.permits _ _); simpl; [|naive_solver].
  rewrite eval_caveats_spec, <- caveats_of_chain, <- no_unmet_caveats. simpl.
  destruct (filter _ _); simpl; naive_solver.
Qed.

(** [check_inner] permits exactly the actions allowed by a live chain that is
    no deeper than the limit, for a subject that is not quarantined. *)
Lemma check_inner_permitted now id d s :
  (∃ o sw, check_inner now id d s = Ok (o, sw) ∧ CheckOutcome.permitted o = true) ↔
  ∃ leaf cs, Chain now s id (leaf :: cs) ∧ (N.of_nat (length (leaf :: cs)) <= max_depth)%N ∧
    quarantine (Capability.subject leaf) = false ∧ chain_allows (leaf :: cs) d.
Proof.
  unfold MemoryCapabilityStore.check_inner. split.
  - intros (o & sw & Ho & Hp).
    match type of Ho with match ?q with _ => _ end = _ => destruct q as [sw0|] eqn:Hq end; [by simplify_eq|].
    apply rbind_Ok in Ho as ([cs|o' sw'] & Hw & Ho); [|by injection Ho as <- <-; apply walk_Refused in Hw; congruence].
    apply walk_Links in Hw as (cs' & -> & Hc & Hl). injection Ho as Ho. simpl in Ho.
    assert (∃ leaf rest, cs' = leaf :: rest ∧ link now s id leaf) as (leaf & rest & -> & Hlink).
    { inversion Hc; eauto. }
    exists leaf, rest. split; [done|]. split; [lia|]. split.
    + destruct Hlink as (Hid & Hr & _). rewrite Hid, Hr in Hq. rewrite bool_decide_eq_false_2 in Hq by by intros [].
      simpl in Hq. by destruct (quarantine (Capability.subject leaf)).
    + rewrite <- (decide_chain_permitted id d), Ho. done.
  - intros (leaf & cs & Hc & Hl & Hq & Hal).
    assert (link now s id leaf) as (Hid & Hr & _) by by inversion Hc.
    rewrite Hid, Hr, bool_decide_eq_false_2 by by intros []. simpl. rewrite Hq.
    rewrite (proj2 (walk_Links _ _ _ _ [] _ (leaf :: cs))); [|exists (leaf :: cs); split_and!; [done|done|lia]].
    cbn [rbind]. destruct (decide_chain fresh_swarm id d (leaf :: cs)) as [o sw] eqn:E.
    exists o, sw. split; [done|]. apply (decide_chain_permitted id d) in Hal. by rewrite E in Hal.
Qed.

(** ** Histories *)

Notation record_event := (record_event resolver control_plane).
Notation issue := (issue resolver control_plane quarantine).
Notation attenuate := (attenuate resolver control_plane quarantine).
Notation revoke := (revoke resolver control_plane).
Notation check := (check max_depth resolver control_plane quarantine fresh_swarm).

(** Recording a receipt leaves the capabilities alone. *)
Definition caps s : gmap Hash Capability * gmap Hash string := (by_id s, revoked s).

Lemma record_event_caps clock kind swarm ev s : caps (record_event clock kind swarm ev s).2 = caps s.
Proof.
  unfold MemoryCapabilityStore.record_event. destruct ev; [done|].
  unfold mthen, lift, m_map_err, zoom, mret.
  destruct (control_plane_receipt _ _ _ _ _ _ _ _ _ _); [|done].
  destruct (append _ _ _ _) as [[]]; done.
Qed.

Lemma mthen_mret_snd {St E A B} (m : M St E A) (k : A → B) (s : St) :
  (mthen m (λ a, mret (k a)) s).2 = (m s).2.
Proof. unfold mthen. by destruct (m s) as [[]]. Qed.

Lemma issue_caps clock c s :
  caps (issue clock c s).2 =
  if quarantine (Capability.subject c) then caps s
  else (<[capability_hash c := c]> (by_id s), revoked s).
Proof.
  unfold MemoryCapabilityStore.issue. destruct (quarantine _); [done|].
  rewrite content_address_capability. cbn [map_err].
  unfold mthen at 1 2, lift, modify. rewrite mthen_mret_snd. apply record_event_caps.
Qed.

(** The capability [attenuate] stores, if it stores one. *)
Definition attenuates s (c : Capability) : Prop :=
  quarantine (Capability.subject c) = false ∧
  ∃ p pc, Capability.parent c = Some p ∧ by_id s !! p = Some pc ∧
          narrows (Capability.scope pc) (Capability.scope c).

Lemma attenuate_caps clock c s :
  caps (attenuate clock c s).2 = caps s ∧ is_ok (attenuate clock c s).1 = false ∨
  attenuates s c ∧ caps (attenuate clock c s).2 = (<[capability_hash c := c]> (by_id s), revoked s).
Proof.
  unfold MemoryCapabilityStore.attenuate, attenuates, mthen, lift, gets, modify.
  destruct (quarantine _); [by left|]. destruct (Capability.parent c) as [p|]; [|by left]. cbn [ok_or].
  destruct (by_id s !! p) as [pc|] eqn:Hpc; [|by left]. cbn [ok_or].
  case_bool_decide as Hn; simpl; [|by left]. right.
  split; [split; [done|]; by exists p, pc|].
  trans (caps (insert_cap (capability_hash c) c s)); [|done].
  rewrite <- (record_event_caps clock "capability.attenuate" (Capability.swarm_id c)
    [hash_evidence "child_capability_hash" (capability_hash c); hash_evidence "parent_capability_hash" p;
     agent_evidence "subject" (Capability.subject c)] (insert_cap (capability_hash c) c s)).
  unfold record_attenuate. change (sha256 _) with (capability_hash c).
  by destruct (record_event _ _ _ _ _) as [[]].
Qed.

Lemma revoke_caps clock id reason s :
  caps (revoke clock id reason s).2 =
  if bool_decide (is_Some (by_id s !! id)) then (by_id s, <[id := reason]> (revoked s)) else caps s.
Proof.
  unfold MemoryCapabilityStore.revoke. unfold mthen at 1, gets. unfold mthen at 1, lift at 1.
  destruct (by_id s !! id) as [c|] eqn:Hid; [|done]. cbn [ok_or].
  unfold mthen at 1, modify. apply record_event_caps.
Qed.

Lemma check_caps clock id d s : caps (check clock id d s).2 = caps s.
Proof.
  unfold MemoryCapabilityStore.check. unfold mthen at 1.
  destruct (check_inner _ _ _ _) as [[o sw]|]; [|done]. rewrite mthen_mret_snd.
  apply record_event_caps.
Qed.

Inductive CapOp :=
| Issue clock (c : Capability)
| Attenuate clock (c : Capability)
| Revoke clock (id : Hash) (reason : string)
| Check clock (id : Hash) (d : ActionDescriptor).

Definition cap_step s (op : CapOp) : MemoryCapabilityStore R :=
  match op with
  | Issue clock c => (issue clock c s).2
  | Attenuate clock c => (attenuate clock c s).2
  | Revoke clock id reason => (revoke clock id reason s).2
  | Check clock id d => (check clock id d s).2
  end.
Definition cap_run (ops : list CapOp) s : MemoryCapabilityStore R := foldl cap_step s ops.

(** A step leaves the capabilities alone, stores one under its content
    address, or revokes one that is stored. *)
Lemma cap_step_cases s op :
  let s' := cap_step s op in
  caps s' = caps s ∨
  (∃ clock c, (op = Issue clock c ∨ op = Attenuate clock c ∧ attenuates s c) ∧
     caps s' = (<[capability_hash c := c]> (by_id s), revoked s)) ∨
  (∃ clock id reason, op = Revoke clock id reason ∧ caps s' = (by_id s, <[id := reason]> (revoked s))).
Proof.
  destruct op as [clock c|clock c|clock id reason|clock id d]; simpl.
  - rewrite issue_caps. destruct (quarantine _); eauto 10.
  - destruct (attenuate_caps clock c s) as [[? _]|[? ?]]; eauto 10.
  - rewrite revoke_caps. case_bool_decide; eauto 10.
  - left. apply check_caps.
Qed.

Lemma cap_step_revoked s op id : is_Some (revoked s !! id) → is_Some (revoked (cap_step s op) !! id).
Proof.
  intros Hr. destruct (cap_step_cases s op) as [Hc|[(cl & c & _ & Hc)|(cl & i & re & _ & Hc)]];
    apply (f_equal snd) in Hc; simpl in Hc; rewrite Hc; [done..|].
  destruct (decide (i = id)) as [->|]; [by rewrite lookup_insert_eq|by rewrite lookup_insert_ne].
Qed.

Lemma cap_run_revoked ops s id : is_Some (revoked s !! id) → is_Some (revoked (cap_run ops s) !! id).
Proof.
  revert s; induction ops as [|op ops IH]; intros s Hr; [done|]. by apply IH, cap_step_revoked.
Qed.

(** *** Delegation only narrows *)

(** Two capabilities with different canonical messages under one content
    address: a collision of SHA-256 or of the wire encoding. *)
Definition AddressClash : Prop :=
  ∃ c1 c2, Capability_to_canonical_proto c1 ≠ Capability_to_canonical_proto c2 ∧
           capability_hash c1 = capability_hash c2.

Lemma capability_hash_scope c1 c2 :
  capability_hash c1 = capability_hash c2 → Capability.scope c1 = Capability.scope c2 ∨ AddressClash.
Proof.
  intros Heq. destruct (decide (Capability.scope c1 = Capability.scope c2)) as [|Hne]; [by left|right].
  exists c1, c2. split; [|done]. intros Hp. destruct Hne. apply (f_equal cproto.Cap_scope) in Hp.
  simpl in Hp. injection Hp as ?????.
  destruct (Capability.scope c1), (Capability.scope c2); simpl in *; by subst.
Qed.

Definition delegation_ok s : Prop :=
  (∀ id c, by_id s !! id = Some c → id = capability_hash c) ∧
  (∀ id c p, by_id s !! id = Some c → Capability.parent c = Some p →
     ∃ pc, by_id s !! p = Some pc ∧ (narrows (Capability.scope pc) (Capability.scope c) ∨ AddressClash)).

Lemma delegation_insert s s' c :
  delegation_ok s → by_id s' = <[capability_hash c := c]> (by_id s) →
  (Capability.parent c = None ∨ attenuates s c) → delegation_ok s'.
Proof.
  intros [Hkey Hdel] Hs' Hc.
  (* the parent that was stored may be stored again, with the same scope *)
  assert (∀ p pc, by_id s !! p = Some pc →
    ∃ pc', by_id s' !! p = Some pc' ∧ (Capability.scope pc' = Capability.scope pc ∨ AddressClash)) as Hsame.
  { intros p pc Hp. rewrite Hs'. destruct (decide (capability_hash c = p)) as [<-|Hne].
    - rewrite lookup_insert_eq. exists c. split; [done|]. apply capability_hash_scope.
      by apply Hkey in Hp.
    - rewrite lookup_insert_ne by done. eauto. }
  split; intros id c0.
  - rewrite Hs'. intros [[<- <-]|[_ ?]]%lookup_insert_Some; [done|by apply Hkey].
  - intros p Hid Hp. rewrite Hs' in Hid. apply lookup_insert_Some in Hid as [[<- <-]|[_ Hid]].
    + destruct Hc as [Hnone|(_ & p' & pc & Hp' & Hpc & Hn)]; [congruence|]. simplify_eq.
      destruct (Hsame _ _ Hpc) as (pc' & ? & [Heq|?]); [|by eauto].
      exists pc'. rewrite Heq. eauto.
    + destruct (Hdel id c0 p Hid Hp) as (pc & Hpc & [Hn|?]);
        destruct (Hsame _ _ Hpc) as (pc' & ? & [Heq|?]); eauto.
      exists pc'. rewrite Heq. eauto.
Qed.

(** A root-only issuer: every capability handed to [issue] has no parent. *)
Definition issues_roots (ops : list CapOp) : Prop :=
  ∀ clock c, Issue clock c ∈ ops → Capability.parent c = None.

Lemma cap_run_delegation ops s :
  issues_roots ops → delegation_ok s → delegation_ok (cap_run ops s).
Proof.
  revert s; induction ops as [|op ops IH]; intros s Hops Hs; [done|]. simpl.
  apply IH; [intros clock c Hin; apply (Hops clock c); set_solver|].
  destruct (cap_step_cases s op) as [Hc|[(cl & c & Hop & Hc)|(cl & i & re & _ & Hc)]];
    apply (f_equal fst) in Hc; simpl in Hc.
  - unfold delegation_ok. by rewrite Hc.
  - eapply delegation_insert; [done|exact Hc|].
    destruct Hop as [->|[_ ?]]; [left; apply (Hops cl c); set_solver|by right].
  - unfold delegation_ok. by rewrite Hc.
Qed.

(** Along a chain of narrowings the effective scope is the leaf's own. *)
Lemma chain_narrows now s id cs :
  delegation_ok s → Chain now s id cs →
  AddressClash ∨ ∃ leaf rest, cs = leaf :: rest ∧ by_id s !! id = Some leaf ∧
    effective_scope (rev cs) = Capability.scope leaf ∧
    ∀ d, admits (Capability.scope leaf) d → Forall (λ c, admits (Capability.scope c) d) cs.
Proof.
  intros [_ Hdel]. induction 1 as [id c [Hid _] Hp|id c p cs [Hid _] Hp Hc IH].
  - right. exists c, []. split_and!; [done..|]. intros d Hd. by constructor.
  - destruct IH as [?|(leaf & rest & -> & Hleaf & Heff & Hall)]; [by left|].
    destruct (Hdel id c p Hid Hp) as (pc & Hpc & [Hn|?]); [|by left].
    rewrite Hleaf in Hpc. injection Hpc as ->. right. exists c, (pc :: rest). split_and!; [done..| |].
    + change (rev (c :: pc :: rest)) with (rev (pc :: rest) ++ [c]).
      unfold effective_scope in *. destruct (rev (pc :: rest)) as [|r l] eqn:Er.
      { assert (length (rev (pc :: rest)) = S (length rest)) as Hlen by apply length_rev.
        by rewrite Er in Hlen. }
      simpl. rewrite foldl_app, Heff. exact Hn.
    + intros d Hd. constructor; [done|]. apply Hall. by eapply narrows_admits.
Qed.

(** ** Properties *)

(** [C8] [check] permits an action exactly when the parent chain of the
    capability reaches a root within the depth limit, every link is stored, not
    revoked and inside its validity window now, the leaf's subject is not
    quarantined, the scope intersected along the chain permits the action, and the
    action's resources have every tag that an [OnlyIfTagged] caveat of a link
    requires and none that a [NeverIfTagged] caveat forbids.  The other four kinds
    of caveats - time of day, rate limit, constitution version, supervisor - are
    never evaluated and restrict nothing. *)
Theorem capability_check_exact (now : Timestamp) (id : Hash) (d : ActionDescriptor)
  (s : MemoryCapabilityStore R) :
  (∃ o sw, check_inner now id d s = Ok (o, sw) ∧ CheckOutcome.permitted o = true) ↔
  ∃ leaf cs, Chain now s id (leaf :: cs) ∧ (N.of_nat (length (leaf :: cs)) <= max_depth)%N ∧
    quarantine (Capability.subject leaf) = false ∧
    Scope.permits (effective_scope (rev (leaf :: cs))) d = true ∧
    Forall (λ c, Forall (λ cv, caveat_holds cv d) (Capability.caveats c)) (leaf :: cs).
Proof.
  rewrite check_inner_permitted. unfold chain_allows. by setoid_rewrite caveats_hold.
Qed.

(** Whatever such caveats say, the scope alone decides. *)
Lemma other_caveats_restrict_nothing (now : Timestamp) (id : Hash) (d : ActionDescriptor)
  (s : MemoryCapabilityStore R) (leaf : Capability) (cs : list Capability) :
  Chain now s id (leaf :: cs) → (N.of_nat (length (leaf :: cs)) <= max_depth)%N →
  quarantine (Capability.subject leaf) = false → Scope.permits (effective_scope (rev (leaf :: cs))) d = true →
  Forall (λ c, Forall (λ cv, looks_at_tags cv = false) (Capability.caveats c)) (leaf :: cs) →
  ∃ o sw, check_inner now id d s = Ok (o, sw) ∧ CheckOutcome.permitted o = true.
Proof.
  intros Hc Hd Hq Hs Hno. apply check_inner_permitted. exists leaf, cs. split_and!; try done.
  split; [done|]. apply caveats_hold. apply (Forall_impl _ _ _ Hno). intros c Hcv.
  apply (Forall_impl _ _ _ Hcv). by intros [].
Qed.

(** [C6] Delegation never escalates when only roots are issued: after any
    history in which every capability handed to [issue] has no parent, a
    permitted check means that every capability on the chain, up to the root,
    permits the action by its own scope; otherwise two different capabilities
    share a content address. *)
Theorem delegation_never_escalates (ops : list CapOp) (receipts0 : R) (now : Timestamp) (id : Hash)
  (d : ActionDescriptor) (o : CheckOutcome) (sw : SwarmId) :
  issues_roots ops →
  let s := cap_run ops (mk ∅ ∅ receipts0) in
  check_inner now id d s = Ok (o, sw) → CheckOutcome.permitted o = true →
  AddressClash ∨ ∃ cs, Chain now s id cs ∧ Forall (λ c, Scope.permits (Capability.scope c) d = true) cs.
Proof.
  intros Hops s Ho Hp.
  destruct (proj1 (check_inner_permitted now id d s)) as (leaf & cs & Hc & _ & _ & Hperm & _); [eauto|].
  assert (delegation_ok s) as Hs.
  { apply cap_run_delegation; [done|]. split; intros *; simpl; by intros ?%lookup_empty_Some. }
  destruct (chain_narrows now s id _ Hs Hc) as [|(leaf' & rest & Heq & _ & Heff & Hall)]; [by left|].
  right. exists (leaf :: cs). split; [done|]. rewrite Heff, permits_admits in Hperm.
  eapply Forall_impl; [by apply Hall|]. intros c. by rewrite permits_admits.
Qed.

(** [C22] Revocation is final and reaches every descendant: once a stored
    capability has been revoked (even if recording the receipt failed), then
    after any further history no check of a capability whose chain contains it
    is permitted. *)
Theorem revocation_reaches_descendants (s : MemoryCapabilityStore R) (clock : nat → Timestamp)
  (reason : string) (ops : list CapOp) (revoked_id id : Hash) (c : Capability) (now : Timestamp)
  (d : ActionDescriptor) (o : CheckOutcome) (sw : SwarmId) :
  by_id s !! revoked_id = Some c →
  let s' := cap_run ops (revoke clock revoked_id reason s).2 in
  check_inner now id d s' = Ok (o, sw) → CheckOutcome.permitted o = true →
  revoked_id ≠ id ∧ ∃ cs, Chain now s' id cs ∧ Forall (λ c', Capability.parent c' ≠ Some revoked_id) cs.
Proof.
  intros Hid s' Ho Hp.
  destruct (proj1 (check_inner_permitted now id d s')) as (leaf & cs & Hc & _); [eauto|].
  assert (is_Some (revoked s' !! revoked_id)) as [re Hre].
  { apply cap_run_revoked. pose proof (f_equal snd (revoke_caps clock revoked_id reason s)) as Hr.
    rewrite bool_decide_eq_true_2 in Hr by eauto. simpl in Hr. rewrite Hr. by rewrite lookup_insert_eq. }
  clear Ho Hp. split.
  - intros ->. assert (link now s' id leaf) as (_ & Hn & _) by by inversion Hc. congruence.
  - exists (leaf :: cs). split; [done|]. clear Hid.
    induction Hc as [i c' _ Hpar|i c' p cs' _ Hpar Hc IH]; constructor; try done.
    + by rewrite Hpar.
    + rewrite Hpar. intros [= ->]. assert (∃ c'', link now s' revoked_id c'') as (? & _ & Hn & _)
        by (inversion Hc; eauto). congruence.
Qed.

(** [issue] takes a capability with a parent without comparing it to the
    parent, and where the two scopes list different action kinds the effective
    scope lifts the restriction: the subject of the issued child may perform
    every action kind, although neither capability permits it. *)
Lemma issued_child_escalates (now : Timestamp) (clock : nat → Timestamp)
  (s : MemoryCapabilityStore R) (parent_id : Hash) (parent child : Capability) (kind : string) :
  link now s parent_id parent → Capability.parent parent = None → Capability.caveats parent = [] →
  Capability.parent child = Some parent_id → Capability.caveats child = [] →
  capability_hash child ≠ parent_id → revoked s !! capability_hash child = None →
  Capability.is_within_window child now = true →
  quarantine (Capability.subject child) = false → (2 <= max_depth)%N →
  clash (Scope.permitted_actions (Capability.scope parent)) (Scope.permitted_actions (Capability.scope child)) →
  kind ∉ Scope.permitted_actions (Capability.scope parent) →
  kind ∉ Scope.permitted_actions (Capability.scope child) →
  let d := ActionDescriptor.mk kind [] ∅ None None in
  Scope.permits (Capability.scope parent) d = false ∧ Scope.permits (Capability.scope child) d = false ∧
  ∃ o sw, check_inner now (capability_hash child) d (issue clock child s).2 = Ok (o, sw) ∧
          CheckOutcome.permitted o = true.
Proof.
  intros (Hpid & Hpr & Hpw) Hpp Hpc Hcp Hcc Hne Hcr Hcw Hq Hmax Hclash Hkp Hkc d.
  assert (∀ sc, Scope.permitted_actions sc ≠ [] → kind ∉ Scope.permitted_actions sc →
            Scope.permits sc d = false) as Hno.
  { intros sc Hsc Hk. apply not_true_is_false. rewrite permits_admits. by intros ([?|?] & _). }
  destruct (id Hclash) as (Hpa & Hca & _). split; [by apply Hno|]. split; [by apply Hno|].
  pose proof (issue_caps clock child s) as Hs. rewrite Hq in Hs. injection Hs as Hb Hr.
  apply check_inner_permitted. exists child, [parent]. split; [|split_and!].
  - eapply chain_link; [split_and!; [by rewrite Hb, lookup_insert_eq|by rewrite Hr|done]|done|].
    apply chain_root; [|done]. split_and!; [by rewrite Hb, lookup_insert_ne|by rewrite Hr|done].
  - simpl. lia.
  - done.
  - split.
    + simpl. apply permits_admits. unfold admits, d; simpl. split; [by apply intersect_dim_clash|].
      split_and!; done.
    + rewrite !Forall_cons, Hpc, Hcc. by repeat constructor.
Qed.

(** Every answered check leaves an audit receipt: when [check] returns,
    the receipt it names is in the receipt store, was written by the control
    plane, and says [capability.check.pass] exactly when the check permitted;
    the capabilities themselves are untouched. *)
Lemma capability_check_recorded `{!ReceiptStoreLaws R} (clock : nat → Timestamp) (id : Hash)
  (d : ActionDescriptor) (s s' : MemoryCapabilityStore R) (ev : CheckEvaluation) :
  store_inv (receipts s) → check clock id d s = (Ok ev, s') →
  caps s' = caps s ∧
  ∃ r r', view (receipts s') !! CheckEvaluation.check_receipt ev = Some r' ∧
    CheckEvaluation.check_receipt ev = receipt_id r ∧
    Receipt.actor r = ControlPlaneIdentity.agent_id control_plane ∧
    Receipt.action_kind r =
      (if CheckOutcome.permitted (CheckEvaluation.outcome ev)
       then "capability.check.pass" else "capability.check.deny")%string.
Proof.
  intros Hinv Hc. split.
  { pose proof (check_caps clock id d s) as Hcaps. by rewrite Hc in Hcaps. }
  unfold MemoryCapabilityStore.check in Hc.
  apply mthen_Ok in Hc as ([o sw] & s1 & Heq & Hc). injection Heq as Ho <-.
  apply mthen_Ok in Hc as (h & s2 & Hrec & [= <- <-]). simpl in *.
  unfold record_check, MemoryCapabilityStore.record_event in Hrec. simpl in Hrec.
  apply mthen_Ok in Hrec as (r & s3 & Hr & Hrec). injection Hr as Hr <-.
  rewrite control_plane_receipt_eq in Hr. cbv zeta in Hr.
  apply rbind_Ok in Hr as (sig & _ & [= <-]).
  apply mthen_Ok in Hrec as (out & s4 & Happ & [= <- <-]).
  unfold m_map_err, zoom in Happ. destruct (append _ _ _ _) as [[out'|e] rs] eqn:Ha; [|done].
  injection Happ as <- <-. apply append_Ok in Ha as (_ & Hid & Hk); [|done]. rewrite Hid.
  set (r := Receipt.with_signatures _ _) in *. exists r. simpl.
  destruct (AppendOutcome.kind out'); destruct Hk as [Hv1 Hv2].
  - exists r. split_and!; [|done..]. by rewrite Hv2, lookup_insert_eq.
  - destruct Hv1 as [r' Hr']. exists r'. split_and!; [|done..]. by rewrite Hv2.
Qed.

End proofs.

(** ** Witnesses *)

Module CapToy.
Import MerkleToy.
#[global] Instance encode : Encode cproto.Capability := λ p, cproto.Cap_capability_id p.
Definition key : SigningKey := SigningKey.mk [Byte.x07].
Definition cp : ControlPlaneIdentity := ControlPlaneIdentity.new (agent 9) (in_process_signer key).
Definition resolver : PassportResolver :=
  StaticPassportResolver.resolver
    (StaticPassportResolver.with_actor (agent 9) (SigningKey.public key) StaticPassportResolver.new).
Definition clock (n : nat) : Timestamp := Timestamp.mk "50" (N.of_nat n).
Definition cap (name : string) (parent : option Hash) (sc : Scope) : Capability :=
  Capability.mk (SpecVersion.mk "1.0.0") (as_bytes name) swarm (Issuer.Operator []) (agent 1) sc parent
    (Timestamp.mk "0" 0) (Timestamp.mk "100" 0) [] "" None.
Definition root : Capability := cap "root" None (Scope.for_action "pay").
Definition child (sc : Scope) : Capability := cap "child" (Some (capability_hash root)) sc.
Definition narrow : Scope := Scope.with_bound "usd" "5" (Scope.for_action "pay").
Definition pay : ActionDescriptor := ActionDescriptor.mk "pay" [] ∅ None None.
Definition empty : MemoryCapabilityStore MemoryStore := mk ∅ ∅ MemoryStore.new.
Definition run (ops : list CapOp) : MemoryCapabilityStore MemoryStore :=
  cap_run DEFAULT_MAX_CHAIN_DEPTH resolver cp always_allowed swarm ops empty.
Definition delegated : list CapOp := [Issue clock root; Attenuate clock (child narrow)].
Definition verdict (ops : list CapOp) (id : Hash) (d : ActionDescriptor)
  : Result (CheckOutcome * SwarmId) CapabilityError :=
  check_inner DEFAULT_MAX_CHAIN_DEPTH always_allowed swarm (clock 0) id d (run ops).
Definition stored : MemoryCapabilityStore MemoryStore :=
  mk {[capability_hash root := root]} ∅ MemoryStore.new.
Definition checked : Result CheckEvaluation CapabilityError * MemoryCapabilityStore MemoryStore :=
  check DEFAULT_MAX_CHAIN_DEPTH resolver cp always_allowed swarm clock (capability_hash root) pay stored.
Definition evaluation : CheckEvaluation :=
  match checked.1 with
  | Ok ev => ev
  | Err _ => CheckEvaluation.mk (CheckOutcome.deny None "" []) (sha256 [])
  end.
End CapToy.

Lemma delegation_never_escalates_witness :
  CapToy.verdict CapToy.delegated (capability_hash (CapToy.child CapToy.narrow)) CapToy.pay
    = Ok (CheckOutcome.permit (Some (capability_hash (CapToy.child CapToy.narrow))) [], MerkleToy.swarm) ∧
  (AddressClash ∨ ∃ cs, Chain (CapToy.clock 0) (CapToy.run CapToy.delegated)
      (capability_hash (CapToy.child CapToy.narrow)) cs ∧
    Forall (λ c, Scope.permits (Capability.scope c) CapToy.pay = true) cs).
Proof.
  split; [vm_compute; reflexivity|].
  apply (delegation_never_escalates DEFAULT_MAX_CHAIN_DEPTH CapToy.resolver CapToy.cp always_allowed
           MerkleToy.swarm CapToy.delegated MemoryStore.new (CapToy.clock 0)
           (capability_hash (CapToy.child CapToy.narrow)) CapToy.pay
           (CheckOutcome.permit (Some (capability_hash (CapToy.child CapToy.narrow))) [])
           MerkleToy.swarm).
  - intros clock c Hin. apply elem_of_cons in Hin as [Heq|Hin]; [by injection Heq as -> ->|].
    apply list_elem_of_singleton in Hin. discriminate.
  - vm_compute. reflexivity.
  - reflexivity.
Defined.

(** The sibling issued after the root's child is revoked is still permitted. *)
Lemma revocation_reaches_descendants_witness :
  capability_hash (CapToy.child CapToy.narrow) ≠ capability_hash CapToy.root ∧
  ∃ cs, Chain (CapToy.clock 0)
          (cap_run DEFAULT_MAX_CHAIN_DEPTH CapToy.resolver CapToy.cp always_allowed MerkleToy.swarm []
             (revoke CapToy.resolver CapToy.cp CapToy.clock (capability_hash (CapToy.child CapToy.narrow))
                "lost" (CapToy.run CapToy.delegated)).2)
          (capability_hash CapToy.root) cs ∧
        Forall (λ c', Capability.parent c' ≠ Some (capability_hash (CapToy.child CapToy.narrow))) cs.
Proof.
  apply (revocation_reaches_descendants DEFAULT_MAX_CHAIN_DEPTH CapToy.resolver CapToy.cp always_allowed
           MerkleToy.swarm (CapToy.run CapToy.delegated) CapToy.clock "lost" []
           (capability_hash (CapToy.child CapToy.narrow)) (capability_hash CapToy.root)
           (CapToy.child CapToy.narrow) (CapToy.clock 0) CapToy.pay
           (CheckOutcome.permit (Some (capability_hash CapToy.root)) []) MerkleToy.swarm);
    vm_compute; reflexivity.
Defined.

Lemma issued_child_escalates_witness :
  let child := CapToy.child (Scope.for_action "read") in
  let d := ActionDescriptor.mk "transfer" [] ∅ None None in
  Scope.permits (Capability.scope CapToy.root) d = false ∧ Scope.permits (Capability.scope child) d = false ∧
  ∃ o sw, check_inner DEFAULT_MAX_CHAIN_DEPTH always_allowed MerkleToy.swarm (CapToy.clock 0)
            (capability_hash child) d
            (issue CapToy.resolver CapToy.cp always_allowed CapToy.clock child
               (CapToy.run [Issue CapToy.clock CapToy.root])).2 = Ok (o, sw) ∧
          CheckOutcome.permitted o = true.
Proof.
  apply (issued_child_escalates DEFAULT_MAX_CHAIN_DEPTH CapToy.resolver CapToy.cp always_allowed
           MerkleToy.swarm (CapToy.clock 0) CapToy.clock (CapToy.run [Issue CapToy.clock CapToy.root])
           (capability_hash CapToy.root) CapToy.root (CapToy.child (Scope.for_action "read")) "transfer");
    try (vm_compute; reflexivity).
  - split_and!; vm_compute; reflexivity.
  - vm_compute. discriminate.
  - vm_compute. discriminate.
  - split_and!; [discriminate|discriminate|]. intros x. simpl. rewrite !list_elem_of_singleton. congruence.
  - apply (bool_decide_unpack _). vm_compute. exact I.
  - apply (bool_decide_unpack _). vm_compute. exact I.
Defined.

Lemma capability_check_recorded_witness :
  caps CapToy.checked.2 = caps CapToy.stored ∧
  ∃ r r', view (receipts CapToy.checked.2) !! CheckEvaluation.check_receipt CapToy.evaluation = Some r' ∧
    CheckEvaluation.check_receipt CapToy.evaluation = receipt_id r ∧
    Receipt.actor r = ControlPlaneIdentity.agent_id CapToy.cp ∧
    Receipt.action_kind r =
      (if CheckOutcome.permitted (CheckEvaluation.outcome CapToy.evaluation)
       then "capability.check.pass" else "capability.check.deny")%string.
Proof.
  apply (capability_check_recorded DEFAULT_MAX_CHAIN_DEPTH CapToy.resolver CapToy.cp always_allowed
           MerkleToy.swarm CapToy.clock (capability_hash CapToy.root) CapToy.pay CapToy.stored
           CapToy.checked.2 CapToy.evaluation).
  - exact inv_new.
  - vm_compute. reflexivity.
Defined.
