(* ===== verification/Registry.v ===== *)
(** * [yutha-attestor] and [yutha-registry]: admission and the agent registry

    [admission.rs], [sybil.rs], [topology.rs], [error.rs], the attestor's types
    and [native.rs], and [memory.rs].  The registry is proved against the
    interfaces of the passport and receipt stores. *)

From S2P Require Import Prelude RustStd Core CoreProto Crypto ReceiptTypes ReceiptProto Merkle.
From S2P Require Import ReceiptVerify ReceiptStore Passport PassportStore.

(** ** yutha-attestor *)

Module AttestorError.
(* yutha-attestor/src/error.rs:29-61 AttestorError *)
Inductive AttestorError :=
| Malformed (msg : string)
| Rejected (msg : string)
| TrustRootUnavailable (msg : string)
| Internal (msg : string).
#[global] Instance AttestorError_eq_dec : EqDecision AttestorError.
Proof. solve_decision. Defined.
(* yutha-attestor/src/error.rs:29-61 AttestorError (Display) *)
Definition to_string (e : AttestorError) : string :=
  match e with
  | Malformed m => "credential malformed: " +:+ m
  | Rejected m => "credential rejected: " +:+ m
  | TrustRootUnavailable m => "trust root unavailable: " +:+ m
  | Internal m => "internal attestor error: " +:+ m
  end.
End AttestorError.
Notation AttestorError := AttestorError.AttestorError.

(* yutha-attestor/src/types.rs:18-40 AttestationContext *)
Record AttestationContext := mkAttestationContext {
  swarm_id : SwarmId; claimed_agent_id : AgentId; agent_public_key : PublicKey }.
(* yutha-attestor/src/types.rs:50-82 AttestedIdentity *)
Record AttestedIdentity := mkAttestedIdentity {
  external_identity : string; credential_expires_at : option Timestamp;
  attributes : gmap string string }.

Module Attestor.
(* yutha-attestor/src/traits.rs:73-106 Attestor *)
Record Attestor := mk {
  id : string;
  verify : AttestationContext → bytes → Result AttestedIdentity AttestorError }.
End Attestor.
Notation Attestor := Attestor.Attestor.

(* yutha-attestor/src/native.rs:61-88 Attestor for NativeAttestor *)
Definition native_attestor : Attestor :=
  Attestor.mk "native" (λ context credential,
    match credential with
    | [] => Ok (mkAttestedIdentity ("yutha:native:" +:+ hex (AgentId.as_bytes (claimed_agent_id context)))
                  None ∅)
    | _ => Err (AttestorError.Rejected
                  "NativeAttestor configured but external_credential was provided; reconfigure the control plane with a non-native Attestor or omit the credential")
    end).

(** ** Topology and admission policies *)

Module Sybil.
(* yutha-registry/src/sybil.rs:66-71 ProofOfWorkRequirement *)
Record ProofOfWorkRequirement := mkPow { difficulty_bits : N; challenge_prefix : bytes }.
(* yutha-registry/src/sybil.rs:84-93 HardwareAttestationKind *)
Inductive HardwareAttestationKind := Nautilus | IntelSgx | AmdSev | Tpm.
(* yutha-registry/src/sybil.rs:76-79 HardwareAttestationRequirement *)
Record HardwareAttestationRequirement := mkHw { accepted_kinds : list HardwareAttestationKind }.
(* yutha-registry/src/sybil.rs:98-103 IdpAttestationRequirement *)
Record IdpAttestationRequirement := mkIdp {
  accepted_issuers : list string; accepted_formats : list string }.
(* yutha-registry/src/sybil.rs:108-115 StakeRequirement *)
Record StakeRequirement := mkStake {
  stake_resource : string; min_stake_amount : string; slashing_endpoint : string }.
(* yutha-registry/src/sybil.rs:120-127 InviteRequirement *)
Record InviteRequirement := mkInvite {
  permitted_inviters : list AgentId; max_invites_per_inviter : N; invite_window_seconds : N }.
(* yutha-registry/src/sybil.rs:15-26 SybilResistanceRequirement *)
Inductive SybilResistanceRequirement :=
| ProofOfWork (r : ProofOfWorkRequirement)
| HardwareAttestation (r : HardwareAttestationRequirement)
| IdpAttestation (r : IdpAttestationRequirement)
| Stake (r : StakeRequirement)
| Invite (r : InviteRequirement).
End Sybil.

Module AdmissionPolicy.
(* yutha-registry/src/admission.rs:22-29 ClosedPolicy *)
Record ClosedPolicy := mkClosed {
  allowlisted_agents : list AgentId; allowlisted_owner_key_fingerprints : list bytes;
  pending_review_on_unknown : bool }.
(* yutha-registry/src/admission.rs:34-44 OpenPolicy *)
Record OpenPolicy := mkOpen {
  requirements : list Sybil.SybilResistanceRequirement; min_passport_tier : PassportTier;
  max_passport_lifetime_seconds : N }.
(* yutha-registry/src/admission.rs:47-53 OpenPolicy (Default) *)
Definition open_default : OpenPolicy := mkOpen [] PassportTier.Standard (7 * 24 * 60 * 60).
(* yutha-registry/src/admission.rs:59-67 HybridPolicy *)
Record HybridPolicy := mkHybrid {
  core : ClosedPolicy; periphery : OpenPolicy; periphery_may_delegate : bool }.
(* yutha-registry/src/admission.rs:10-17 AdmissionPolicy *)
Inductive AdmissionPolicy := Closed (p : ClosedPolicy) | Open (p : OpenPolicy) | Hybrid (p : HybridPolicy).
End AdmissionPolicy.
Notation AdmissionPolicy := AdmissionPolicy.AdmissionPolicy.

Module Topology.
(* yutha-registry/src/topology.rs:9-16 TopologyMode *)
Inductive TopologyMode := Closed | Open | Hybrid.
(* yutha-registry/src/topology.rs:23-58 Topology *)
Record Topology := mk {
  spec_version : SpecVersion; swarm_id : SwarmId; mode : TopologyMode; admission : AdmissionPolicy;
  max_capability_lifetime_seconds : N; max_capability_chain_depth : N;
  default_envelope_ttl_seconds : N; max_epoch_skew : N; external_sends_permitted : bool;
  require_capability_for_send : bool; initial_constitution_version : string;
  operator_key_fingerprint : bytes; operator_signature : option Signature }.
(* yutha-registry/src/topology.rs:63-70 Topology::is_consistent *)
Definition is_consistent (t : Topology) : bool :=
  match mode t, admission t with
  | Closed, AdmissionPolicy.Closed _ => true
  | Open, AdmissionPolicy.Open _ => true
  | Hybrid, AdmissionPolicy.Hybrid _ => true
  | _, _ => false
  end.
End Topology.
Notation Topology := Topology.Topology.

Module RegistryError.
(* yutha-registry/src/error.rs:12-80 RegistryError *)
Inductive RegistryError :=
| TopologyInconsistent
| AdmissionDenied (reason : string)
| SybilCheckFailed (reason : string)
| SwarmMismatch (expected actual : SwarmId)
| TopologyImmutable
| AttestationDenied (attestor_id reason : string)
| AttestationUnavailable (attestor_id reason : string)
| Passport (e : PassportError)
| Receipt (e : ReceiptError)
| Core (e : CoreError)
| Backend (msg : string).
(* yutha-registry/src/error.rs:12-80 RegistryError (Display) *)
Definition to_string (e : RegistryError) : string :=
  match e with
  | TopologyInconsistent => "topology / admission-policy mismatch"
  | AdmissionDenied r => "admission denied: " +:+ r
  | SybilCheckFailed r => "sybil resistance check failed: " +:+ r
  | SwarmMismatch expected actual =>
      "wrong swarm: registry serves " +:+ SwarmId.to_string expected +:+ ", passport is for "
      +:+ SwarmId.to_string actual
  | TopologyImmutable => "topology is immutable; create a new swarm to change it"
  | AttestationDenied a r => "attestation denied by attestor `" +:+ a +:+ "`: " +:+ r
  | AttestationUnavailable a r => "attestation trust root unavailable for `" +:+ a +:+ "`: " +:+ r
  | Passport e => PassportError.to_string e
  | Receipt e => ReceiptError.to_string e
  | Core e => CoreError.to_string e
  | Backend m => "backend: " +:+ m
  end.
End RegistryError.
Notation RegistryError := RegistryError.RegistryError.

(** ** The admission checks *)

(* yutha-registry/src/sybil.rs:33-60 SybilResistanceRequirement::check *)
Definition sybil_check (r : Sybil.SybilResistanceRequirement) (_ : Passport)
  : Result unit RegistryError :=
  match r with
  | Sybil.ProofOfWork _ => Ok tt
  | Sybil.HardwareAttestation _ => Ok tt
  | Sybil.IdpAttestation _ => Ok tt
  | Sybil.Stake _ => Ok tt
  | Sybil.Invite _ => Ok tt
  end.

(* yutha-registry/src/sybil.rs:130-138 check_all *)
Fixpoint check_all (requirements : list Sybil.SybilResistanceRequirement) (passport : Passport)
  : Result unit RegistryError :=
  match requirements with
  | [] => Ok tt
  | r :: rs =>
      let? _ := map_err (λ e, match e with
                              | RegistryError.SybilCheckFailed _ => e
                              | other => RegistryError.SybilCheckFailed (RegistryError.to_string other)
                              end) (sybil_check r passport) in
      check_all rs passport
  end.

(* yutha-registry/src/memory.rs:446-462 check_closed *)
Definition check_closed (policy : AdmissionPolicy.ClosedPolicy) (passport : Passport)
  : Result unit RegistryError :=
  let by_agent_id := contains (AdmissionPolicy.allowlisted_agents policy) (Passport.agent_id passport) in
  let by_owner := match AdmissionPolicy.allowlisted_owner_key_fingerprints policy with
                  | [] => false | _ => true end in
  if by_agent_id || by_owner then Ok tt
  else if AdmissionPolicy.pending_review_on_unknown policy then
    Err (RegistryError.AdmissionDenied "pending operator review (scaffolding: not queued)")
  else Err (RegistryError.AdmissionDenied "agent not in closed allowlist").

(* yutha-registry/src/memory.rs:464-479 check_open *)
Definition check_open (policy : AdmissionPolicy.OpenPolicy) (passport : Passport)
  : Result unit RegistryError :=
  if PassportTier.ltb (Passport.tier passport) (AdmissionPolicy.min_passport_tier policy) then
    Err (RegistryError.AdmissionDenied
           ("min tier required: " +:+ PassportTier.debug (AdmissionPolicy.min_passport_tier policy)
            +:+ ", got " +:+ PassportTier.debug (Passport.tier passport)))
  else match Passport.expires_at passport with
       | None => Err (RegistryError.AdmissionDenied "open swarm requires expires_at")
       | Some _ => check_all (AdmissionPolicy.requirements policy) passport
       end.

(* yutha-registry/src/memory.rs:481-486 check_hybrid *)
Definition check_hybrid (policy : AdmissionPolicy.HybridPolicy) (passport : Passport)
  : Result unit RegistryError :=
  if is_ok (check_closed (AdmissionPolicy.core policy) passport) then Ok tt
  else check_open (AdmissionPolicy.periphery policy) passport.

(* yutha-registry/src/memory.rs:232-236 MemoryRegistry::register (admission) *)
Definition check_admission (policy : AdmissionPolicy) (passport : Passport)
  : Result unit RegistryError :=
  match policy with
  | AdmissionPolicy.Closed policy => check_closed policy passport
  | AdmissionPolicy.Open policy => check_open policy passport
  | AdmissionPolicy.Hybrid policy => check_hybrid policy passport
  end.

(** ** The registry *)

Module MemoryRegistry.
(* yutha-registry/src/memory.rs:32-43 MemoryRegistry *)
Record MemoryRegistry (P R : Type) := mk { passports : P; receipts : R }.
Arguments mk {P R} _ _.
Arguments passports {P R} _.
Arguments receipts {P R} _.

(* yutha-registry/src/memory.rs:61-80 MemoryRegistry::new *)
Definition new {P R} (topology : Topology) (passports : P) (receipts : R)
  : Result (MemoryRegistry P R) RegistryError :=
  if negb (Topology.is_consistent topology) then Err RegistryError.TopologyInconsistent
  else Ok (mk passports receipts).

Section registry.
Context `{CryptoOps} `{Encode rproto.Receipt} `{Encode pproto.Passport}.
Context {P R : Type} `{!PassportStore P} `{!ReceiptStore R}.
(** The configuration; the resolver may read the passport store. *)
Context (topology : Topology) (resolver : P → PassportResolver)
  (control_plane : ControlPlaneIdentity) (attestor : Attestor).
Implicit Types (s : MemoryRegistry P R) (clock : nat → Timestamp).

Definition on_passports {A} (m : M P PassportError A) : M (MemoryRegistry P R) RegistryError A :=
  m_map_err RegistryError.Passport (zoom passports (λ p s, mk p (receipts s)) m).

(** [self.receipts.append(receipt, AppendOptions::default(), self.resolver.as_ref())] *)
Definition append_receipt (receipt : Receipt) : M (MemoryRegistry P R) ReceiptError AppendOutcome :=
  λ s, zoom receipts (λ r s, mk (passports s) r)
         (append receipt AppendOptions.default (resolver (passports s))) s.

(* yutha-registry/src/memory.rs:91-131 MemoryRegistry::build_signed_receipt *)
Definition build_signed_receipt clock (action_kind : string) (evidence : list Evidence)
  : Result Receipt RegistryError :=
  match evidence with
  | [] => Err (RegistryError.Backend "registry receipts require at least one evidence entry")
  | _ =>
      control_plane_receipt (λ e, RegistryError.Backend (CoreError.to_string e))
        (λ e, RegistryError.Backend ("build receipt: " +:+ e))
        (λ e, RegistryError.Receipt (ReceiptError.Crypto e))
        (λ e, RegistryError.Backend ("signer: " +:+ SignerError.to_string e))
        control_plane clock (Topology.swarm_id topology) action_kind
        (Topology.initial_constitution_version topology) evidence
  end.

Definition string_evidence (key value : string) : Evidence :=
  Evidence.new key "type.yutha.dev/v1/String" (as_bytes value).
Definition agent_evidence (key : string) (a : AgentId) : Evidence :=
  Evidence.new key "type.yutha.dev/v1/AgentId" (AgentId.as_bytes a).

(* yutha-registry/src/memory.rs:140-179 MemoryRegistry::build_registration_receipt *)
Definition build_registration_receipt clock (passport : Passport) (identity : AttestedIdentity)
  (attestor_id : string) : Result Receipt RegistryError :=
  let? passport_hash := map_err (λ e, RegistryError.Receipt (ReceiptError.Crypto e))
                          (content_address passport) in
  build_signed_receipt clock "agent.register"
    ([agent_evidence "passport_agent_id" (Passport.agent_id passport);
      Evidence.new "passport_hash" "type.yutha.dev/v1/Hash" (Hash.digest passport_hash);
      string_evidence "attested_external_identity" (external_identity identity);
      string_evidence "attestor_id" attestor_id]
     ++ ((λ kv : string * string, string_evidence ("attributes." +:+ kv.1) kv.2)
           <$> btree_iter (attributes identity))).

(* yutha-registry/src/memory.rs:185-212 MemoryRegistry::build_register_deny_receipt *)
Definition build_register_deny_receipt clock (claimed_agent_id : AgentId)
  (attestor_id deny_reason : string) : Result Receipt RegistryError :=
  build_signed_receipt clock "agent.register.deny"
    [agent_evidence "claimed_agent_id" claimed_agent_id; string_evidence "attestor_id" attestor_id;
     string_evidence "deny_reason" deny_reason].

Definition with_receipt (h : Hash) (o : RegistrationOutcome) : RegistrationOutcome :=
  RegistrationOutcome.mk (RegistrationOutcome.status o) (RegistrationOutcome.agent_id o) (Some h)
    (RegistrationOutcome.rejection_reason o).

(* yutha-registry/src/memory.rs:266-279 MemoryRegistry::register (deny receipt) *)
Definition record_denial clock (agent_id : AgentId) (attestor_id reason : string)
  : M (MemoryRegistry P R) RegistryError unit :=
  match build_register_deny_receipt clock agent_id attestor_id reason with
  | Ok deny_receipt => do! attempt (append_receipt deny_receipt) in mret tt
  | Err _ => mret tt
  end.

(* yutha-registry/src/memory.rs:217-306 MemoryRegistry::register *)
Definition register clock (passport : Passport) (external_credential : bytes)
  : M (MemoryRegistry P R) RegistryError RegistrationOutcome :=
  do! lift (map_err RegistryError.Passport (verify_self_signature passport)) in
  if negb (bool_decide (Passport.swarm_id passport = Topology.swarm_id topology)) then
    throw (RegistryError.SwarmMismatch (Topology.swarm_id topology) (Passport.swarm_id passport))
  else
    do! lift (check_admission (Topology.admission topology) passport) in
    let attestor_id := Attestor.id attestor in
    let context := mkAttestationContext (Passport.swarm_id passport) (Passport.agent_id passport)
                     (Passport.agent_public_key passport) in
    match Attestor.verify attestor context external_credential with
    | Err (AttestorError.TrustRootUnavailable reason) =>
        throw (RegistryError.AttestationUnavailable attestor_id reason)
    | Err err =>
        let reason := AttestorError.to_string err in
        do! record_denial clock (Passport.agent_id passport) attestor_id reason in
        throw (RegistryError.AttestationDenied attestor_id reason)
    | Ok attested_identity =>
        let! outcome := on_passports (PassportStore.register passport) in
        let! receipt := lift (build_registration_receipt clock passport attested_identity attestor_id) in
        let! append_out := m_map_err RegistryError.Receipt (append_receipt receipt) in
        mret (with_receipt (AppendOutcome.receipt_id append_out) outcome)
    end.

(* yutha-registry/src/memory.rs:308-336 MemoryRegistry::revoke *)
Definition revoke clock (agent_id : AgentId) (reason : string)
  : M (MemoryRegistry P R) RegistryError Hash :=
  do! on_passports (PassportStore.revoke agent_id reason) in
  let! receipt := lift (build_signed_receipt clock "agent.revoke"
                          [agent_evidence "agent_id" agent_id; string_evidence "reason" reason]) in
  let! outcome := m_map_err RegistryError.Receipt (append_receipt receipt) in
  mret (AppendOutcome.receipt_id outcome).

(* yutha-registry/src/memory.rs:338-378 MemoryRegistry::operator_revoke *)
Definition operator_revoke clock (target : AgentId) (operator_id reason : string)
  : M (MemoryRegistry P R) RegistryError Hash :=
  do! on_passports (PassportStore.revoke target reason) in
  let! receipt := lift (build_signed_receipt clock "agent.operator_revoke"
                          [agent_evidence "target_agent_id" target;
                           string_evidence "operator_id" operator_id; string_evidence "reason" reason]) in
  let! outcome := m_map_err RegistryError.Receipt (append_receipt receipt) in
  mret (AppendOutcome.receipt_id outcome).

(* yutha-registry/src/memory.rs:384-439 MemoryRegistry::rotate_key *)
Definition rotate_key clock (new_passport : Passport)
  : M (MemoryRegistry P R) RegistryError RegistrationOutcome :=
  do! lift (map_err RegistryError.Passport (verify_self_signature new_passport)) in
  if negb (bool_decide (Passport.swarm_id new_passport = Topology.swarm_id topology)) then
    throw (RegistryError.SwarmMismatch (Topology.swarm_id topology) (Passport.swarm_id new_passport))
  else
    let! found := (λ s, (map_err RegistryError.Passport
                           (PassportStore.lookup (Passport.agent_id new_passport) (passports s)), s)) in
    let! existing := lift (ok_or found (RegistryError.Passport
                             (PassportError.NotFound (Passport.agent_id new_passport)))) in
    let old_fingerprint := fingerprint_public_key (PublicKey.value (Passport.agent_public_key existing)) in
    let new_fingerprint :=
      fingerprint_public_key (PublicKey.value (Passport.agent_public_key new_passport)) in
    let! outcome := on_passports (PassportStore.rotate_key new_passport) in
    let! receipt := lift (build_signed_receipt clock "agent.rotate_key"
        [agent_evidence "agent_id" (Passport.agent_id new_passport);
         Evidence.new "old_key_fingerprint" "type.yutha.dev/v1/Hash" old_fingerprint;
         Evidence.new "new_key_fingerprint" "type.yutha.dev/v1/Hash" new_fingerprint]) in
    let! append_out := m_map_err RegistryError.Receipt (append_receipt receipt) in
    mret (with_receipt (AppendOutcome.receipt_id append_out) outcome).
End registry.
End MemoryRegistry.
Notation MemoryRegistry := MemoryRegistry.MemoryRegistry.

(** ** Admission *)

Lemma check_all_Ok rs p : check_all rs p = Ok tt.
Proof. induction rs as [|[] rs IH]; simpl; [done|apply IH..]. Qed.

Definition closed_admits (c : AdmissionPolicy.ClosedPolicy) (p : Passport) : Prop :=
  Passport.agent_id p ∈ AdmissionPolicy.allowlisted_agents c ∨
  AdmissionPolicy.allowlisted_owner_key_fingerprints c ≠ [].
Definition open_admits (o : AdmissionPolicy.OpenPolicy) (p : Passport) : Prop :=
  PassportTier.ltb (Passport.tier p) (AdmissionPolicy.min_passport_tier o) = false ∧
  is_Some (Passport.expires_at p).
Definition admits_passport (policy : AdmissionPolicy) (p : Passport) : Prop :=
  match policy with
  | AdmissionPolicy.Closed c => closed_admits c p
  | AdmissionPolicy.Open o => open_admits o p
  | AdmissionPolicy.Hybrid h =>
      closed_admits (AdmissionPolicy.core h) p ∨ open_admits (AdmissionPolicy.periphery h) p
  end.

Lemma check_closed_Ok c p : check_closed c p = Ok tt ↔ closed_admits c p.
Proof.
  unfold check_closed, closed_admits. destruct (contains _ _) eqn:E; simpl.
  - apply contains_true in E. naive_solver.
  - apply contains_false in E. destruct (AdmissionPolicy.allowlisted_owner_key_fingerprints c);
      [destruct (AdmissionPolicy.pending_review_on_unknown c)|]; naive_solver.
Qed.

Lemma check_open_Ok o p : check_open o p = Ok tt ↔ open_admits o p.
Proof.
  unfold check_open, open_admits. destruct (PassportTier.ltb _ _); [naive_solver|].
  destruct (Passport.expires_at p); [rewrite check_all_Ok|].
  - naive_solver.
  - split; [done|]. by intros [_ []].
Qed.

Lemma check_admission_Ok policy p : check_admission policy p = Ok tt ↔ admits_passport policy p.
Proof.
  destruct policy as [c|o|h]; simpl; [apply check_closed_Ok|apply check_open_Ok|].
  unfold check_hybrid. destruct (check_closed (AdmissionPolicy.core h) p) as [[]|] eqn:E; simpl.
  - apply check_closed_Ok in E. naive_solver.
  - rewrite check_open_Ok. split; [by right|]. intros [Hc|?]; [|done].
    apply check_closed_Ok in Hc. congruence.
Qed.

(** ** Registration, through the two store contracts *)

Import MemoryRegistry.

Section proofs.
Context `{CryptoOps} `{Encode rproto.Receipt} `{Encode pproto.Passport}.
Context {P R : Type} `{!PassportStore P} `{!ReceiptStore R} `{!PassportStoreLaws P} `{!ReceiptStoreLaws R}.
Context (topology : Topology) (resolver : P → PassportResolver)
  (control_plane : ControlPlaneIdentity) (attestor : Attestor).
Implicit Types (s : MemoryRegistry P R) (clock : nat → Timestamp).

Notation register := (register topology resolver control_plane attestor).
Notation rotate_key := (rotate_key topology resolver control_plane).
Notation record_denial := (record_denial topology resolver control_plane).

Definition live_of s : gmap AgentId Passport := live (passports s).
Definition log_of s : gmap Hash Receipt := view (receipts s).

(** A receipt in the log, written by the control plane for [action_kind], with
    [e] in its evidence.  The log may already hold a receipt with the same
    canonical bytes. *)
Definition logged s (h : Hash) (action_kind : string) (e : Evidence) : Prop :=
  ∃ r, h = receipt_id r ∧ is_Some (log_of s !! h) ∧ Receipt.action_kind r = action_kind ∧
       Receipt.actor r = ControlPlaneIdentity.agent_id control_plane ∧
       Receipt.swarm_id r = Topology.swarm_id topology ∧ e ∈ Receipt.evidence r.

Definition gates (p : Passport) (credential : bytes) (identity : AttestedIdentity) : Prop :=
  self_signed p ∧ Passport.swarm_id p = Topology.swarm_id topology ∧
  admits_passport (Topology.admission topology) p ∧
  Attestor.verify attestor (mkAttestationContext (Passport.swarm_id p) (Passport.agent_id p)
                              (Passport.agent_public_key p)) credential = Ok identity.

Lemma build_signed_receipt_Ok clock kind ev r :
  build_signed_receipt topology control_plane clock kind ev = Ok r →
  Receipt.action_kind r = kind ∧ Receipt.actor r = ControlPlaneIdentity.agent_id control_plane ∧
  Receipt.swarm_id r = Topology.swarm_id topology ∧ Receipt.evidence r = ev.
Proof.
  unfold build_signed_receipt. destruct ev; [done|]. rewrite control_plane_receipt_eq. cbv zeta.
  intros Hr. by apply rbind_Ok in Hr as (sig & _ & [= <-]).
Qed.

Lemma append_receipt_Ok r s out s' :
  store_inv (receipts s) → append_receipt resolver r s = (Ok out, s') →
  passports s' = passports s ∧ AppendOutcome.receipt_id out = receipt_id r ∧
  is_Some (log_of s' !! receipt_id r) ∧ log_of s ⊆ log_of s'.
Proof.
  unfold append_receipt, zoom, log_of. intros Hinv Ha.
  destruct (append _ _ _ _) as [res rs] eqn:E. injection Ha as -> <-. simpl.
  pose proof (append_monotone r AppendOptions.default (resolver (passports s)) (receipts s) Hinv) as Hm.
  rewrite E in Hm. simpl in Hm. apply append_Ok in E as (_ & Hid & Hk); [|done].
  split; [done|]. split; [done|]. split; [|done].
  destruct (AppendOutcome.kind out); destruct Hk as [Hv1 Hv2]; rewrite Hv2; [|done].
  by rewrite lookup_insert_eq.
Qed.

Lemma append_receipt_Err r s e s' :
  append_receipt resolver r s = (Err e, s') → passports s' = passports s ∧ log_of s' = log_of s.
Proof.
  unfold append_receipt, zoom, log_of. intros Ha.
  destruct (append _ _ _ _) as [res rs] eqn:E. injection Ha as -> <-. simpl.
  by apply append_Err in E as [-> _].
Qed.

Lemma append_receipt_passports r s : passports (append_receipt resolver r s).2 = passports s.
Proof. unfold append_receipt, zoom. by destruct (append _ _ _ _). Qed.

Lemma record_denial_passports clock a i re s : passports (record_denial clock a i re s).2 = passports s.
Proof.
  unfold MemoryRegistry.record_denial. destruct (build_register_deny_receipt _ _ _ _ _ _); [|done].
  unfold mthen, attempt, append_receipt, zoom, mret. by destruct (append _ _ _ _).
Qed.

Lemma on_passports_run {A} (m : M P PassportError A) s :
  on_passports m s = (map_err RegistryError.Passport (m (passports s)).1,
                      mk (m (passports s)).2 (receipts s)).
Proof. unfold on_passports, m_map_err, zoom. by destruct (m (passports s)). Qed.

(** Appending the receipt of an operation whose passport part is done. *)
Lemma append_logged clock kind ev (o : RegistrationOutcome) s r s' :
  store_inv (receipts s) →
  (let! receipt := lift (build_signed_receipt topology control_plane clock kind ev) in
   let! append_out := m_map_err RegistryError.Receipt (append_receipt resolver receipt) in
   mret (with_receipt (AppendOutcome.receipt_id append_out) o)) s = (r, s') →
  passports s' = passports s ∧
  match r with
  | Ok o' => ∃ h, o' = with_receipt h o ∧ (∀ e, e ∈ ev → logged s' h kind e) ∧ log_of s ⊆ log_of s'
  | Err _ => log_of s' = log_of s
  end.
Proof.
  intros Hinv Hrun. apply mthen_run in Hrun as [(rc & s1 & Hb & Hrun)|(e & Hb & ->)]; [|by injection Hb as _ <-].
  injection Hb as Hb <-. apply mthen_run in Hrun as [(out & s2 & Ha & Hrun)|(e & Ha & ->)];
    unfold m_map_err in Ha; destruct (append_receipt resolver rc s) as [[out'|e'] s3] eqn:E; simplify_eq/=.
  - injection Hrun as <- <-.
    apply append_receipt_Ok in E as (Hp & Hid & Hlog & Hsub); [|done].
    split; [done|]. exists (receipt_id rc). rewrite Hid. split; [done|]. split; [|done].
    apply build_signed_receipt_Ok in Hb as (Hk & Hact & Hsw & Hev). intros e He.
    exists rc. by rewrite Hev.
  - by apply append_receipt_Err in E.
Qed.

(** What follows the gates. *)
Definition admit_identity clock (p : Passport) (identity : AttestedIdentity)
  : M (MemoryRegistry P R) RegistryError RegistrationOutcome :=
  let! outcome := on_passports (PassportStore.register p) in
  let! receipt := lift (build_registration_receipt topology control_plane clock p identity
                          (Attestor.id attestor)) in
  let! append_out := m_map_err RegistryError.Receipt (append_receipt resolver receipt) in
  mret (with_receipt (AppendOutcome.receipt_id append_out) outcome).

Definition verdict (p : Passport) (credential : bytes) : Result AttestedIdentity AttestorError :=
  Attestor.verify attestor (mkAttestationContext (Passport.swarm_id p) (Passport.agent_id p)
                              (Passport.agent_public_key p)) credential.

Lemma register_unfold clock p cred s :
  register clock p cred s =
  match verify_self_signature p with
  | Err e => (Err (RegistryError.Passport e), s)
  | Ok _ =>
      if bool_decide (Passport.swarm_id p = Topology.swarm_id topology) then
        match check_admission (Topology.admission topology) p with
        | Err e => (Err e, s)
        | Ok _ =>
            match verdict p cred with
            | Ok identity => admit_identity clock p identity s
            | Err (AttestorError.TrustRootUnavailable reason) =>
                (Err (RegistryError.AttestationUnavailable (Attestor.id attestor) reason), s)
            | Err err =>
                (Err (RegistryError.AttestationDenied (Attestor.id attestor) (AttestorError.to_string err)),
                 (record_denial clock (Passport.agent_id p) (Attestor.id attestor)
                    (AttestorError.to_string err) s).2)
            end
        end
      else (Err (RegistryError.SwarmMismatch (Topology.swarm_id topology) (Passport.swarm_id p)), s)
  end.
Proof.
  unfold MemoryRegistry.register. unfold mthen at 1, lift at 1.
  destruct (verify_self_signature p); [|done]. cbn [map_err]. case_bool_decide; [|done]. cbn [negb].
  unfold mthen at 1, lift at 1. destruct (check_admission _ p); [|done].
  unfold verdict. destruct (Attestor.verify attestor _ cred) as [identity|[]]; try done;
    unfold mthen, throw, MemoryRegistry.record_denial;
    (destruct (build_register_deny_receipt _ _ _ _ _ _); [|done]);
    unfold mthen, attempt, mret; by destruct (append_receipt _ _ _).
Qed.

(** The gates in the order the code applies them. *)
Lemma register_gates clock p cred s :
  (∃ identity, gates p cred identity ∧ register clock p cred s = admit_identity clock p identity s) ∨
  (∃ e s', register clock p cred s = (Err e, s') ∧ passports s' = passports s).
Proof.
  rewrite register_unfold. destruct (verify_self_signature p) as [[]|e] eqn:Hv; [|right; eauto].
  apply verify_self_signature_Ok in Hv. case_bool_decide as Hsw; [|right; eauto].
  destruct (check_admission _ p) as [[]|e] eqn:Ha; [|right; eauto]. apply check_admission_Ok in Ha.
  destruct (verdict p cred) as [identity|err] eqn:Hatt; [left; by exists identity|].
  right. destruct err; do 2 eexists; (split; [reflexivity|]); try done; apply record_denial_passports.
Qed.

(** Gates passed: the passport store decides, then the receipt is appended. *)
Lemma register_after_gates clock p identity s r s' :
  self_signed p → store_inv (receipts s) →
  admit_identity clock p identity s = (r, s') →
  if bool_decide (live_of s !! Passport.agent_id p = None) then
    live_of s' = <[Passport.agent_id p := p]> (live_of s) ∧
    match r with
    | Ok o => ∃ h, o = RegistrationOutcome.mk RegistrationOutcome.Accepted (Passport.agent_id p)
                         (Some h) "" ∧
                   logged s' h "agent.register" (agent_evidence "passport_agent_id" (Passport.agent_id p)) ∧
                   log_of s ⊆ log_of s'
    | Err _ => log_of s' = log_of s
    end
  else is_ok r = false ∧ live_of s' = live_of s.
Proof.
  intros Hp Hinv Hrun. unfold admit_identity, mthen at 1 in Hrun. rewrite on_passports_run in Hrun. unfold live_of.
  pose proof (register_spec p (passports s)) as Hreg.
  destruct (PassportStore.register p (passports s)) as [rr ps]. simpl in Hrun.
  case_bool_decide.
  - destruct Hreg as [Hreg _]. destruct (Hreg Hp) as [-> Hl]. simpl in Hrun.
    destruct (append_logged _ _ _ _ (mk ps (receipts s)) _ _ Hinv Hrun) as [Hps Hr]. simpl in Hps.
    rewrite Hps, Hl. split; [done|]. destruct r; [|done]. destruct Hr as (h & -> & Hlog & ?).
    exists h. split_and!; [done| |done]. apply Hlog. by left.
  - destruct Hreg as [Hf Hl]. destruct rr; [done|]. simpl in Hrun. by injection Hrun as <- <-.
Qed.

(** ** Properties *)

(** Who is admitted, exactly.  A closed swarm admits an agent on the
    allowlist, and any agent at all once some owner-key fingerprint is
    configured (the passport's owner is never compared); an open swarm asks for
    the minimum tier and an expiry, and its Sybil requirements never refuse; a
    hybrid swarm admits by either rule. *)
Lemma admission_exact (policy : AdmissionPolicy) (p : Passport) :
  check_admission policy p = Ok tt ↔
  match policy with
  | AdmissionPolicy.Closed c =>
      Passport.agent_id p ∈ AdmissionPolicy.allowlisted_agents c ∨
      AdmissionPolicy.allowlisted_owner_key_fingerprints c ≠ []
  | AdmissionPolicy.Open o =>
      PassportTier.ltb (Passport.tier p) (AdmissionPolicy.min_passport_tier o) = false ∧
      is_Some (Passport.expires_at p)
  | AdmissionPolicy.Hybrid h =>
      closed_admits (AdmissionPolicy.core h) p ∨ open_admits (AdmissionPolicy.periphery h) p
  end.
Proof. by rewrite check_admission_Ok; destruct policy. Qed.

(** [C12] Registration, on any passport store and receipt store that keep their
    contracts.  It answers [Accepted] only for a self-signed passport of this
    swarm that the policy admits and the attestor vouches for, whose agent was
    not live; then exactly that passport becomes live and the named
    [agent.register] receipt, whose evidence has the agent, is in the log.  When it fails the live passports
    are unchanged, with one exception: every gate was passed and the passport
    became live, but its receipt could not be recorded. *)
Theorem register_exact (clock : nat → Timestamp) (p : Passport) (credential : bytes)
  (s s' : MemoryRegistry P R) (r : Result RegistrationOutcome RegistryError) :
  store_inv (receipts s) → register clock p credential s = (r, s') →
  let registered := ∃ identity, gates p credential identity ∧ live_of s !! Passport.agent_id p = None ∧
                      live_of s' = <[Passport.agent_id p := p]> (live_of s) in
  match r with
  | Ok o =>
      registered ∧
      ∃ h, o = RegistrationOutcome.mk RegistrationOutcome.Accepted (Passport.agent_id p) (Some h) "" ∧
           logged s' h "agent.register" (agent_evidence "passport_agent_id" (Passport.agent_id p)) ∧
           log_of s ⊆ log_of s'
  | Err _ => live_of s' = live_of s ∨ registered ∧ log_of s' = log_of s
  end.
Proof.
  intros Hinv Hrun registered.
  destruct (register_gates clock p credential s) as [(identity & Hg & Heq)|(e & s0 & Heq & Hps)];
    rewrite Heq in Hrun.
  - apply register_after_gates in Hrun; [|by destruct Hg|done].
    case_bool_decide as Hl.
    + destruct Hrun as [Hl' Hr].
      assert registered by (exists identity; split; [exact Hg|split; [exact Hl|exact Hl']]).
      destruct r; [|by right]. destruct Hr as (h & ? & ? & ?). eauto 10.
    + destruct Hrun as [? ?]. destruct r; [done|by left].
  - injection Hrun as <- <-. left. unfold live_of. by rewrite Hps.
Qed.

(** Audit of refusals: when the attestor gives a verdict against a passport
    that passed the other gates, the refusal is in the receipt log before the
    caller learns of it, and no passport changed; provided the control plane can
    sign and the resolver knows its key. *)
Lemma attestation_denial_logged (clock : nat → Timestamp) (p : Passport) (credential : bytes)
  (s : MemoryRegistry P R) (err : AttestorError) :
  store_inv (receipts s) → self_signed p → Passport.swarm_id p = Topology.swarm_id topology →
  admits_passport (Topology.admission topology) p →
  Attestor.verify attestor (mkAttestationContext (Passport.swarm_id p) (Passport.agent_id p)
                              (Passport.agent_public_key p)) credential = Err err →
  (∀ msg, err ≠ AttestorError.TrustRootUnavailable msg) →
  signer_sound (ControlPlaneIdentity.signer control_plane) →
  (∀ m, is_ok (ControlPlaneIdentity.sign control_plane m) = true) →
  PassportResolver.resolve_actor (resolver (passports s)) (ControlPlaneIdentity.agent_id control_plane)
    = Ok (Some (Signer.public_key (ControlPlaneIdentity.signer control_plane))) →
  ∃ s', register clock p credential s =
          (Err (RegistryError.AttestationDenied (Attestor.id attestor) (AttestorError.to_string err)), s') ∧
    passports s' = passports s ∧ 
    ∃ h, logged s' h "agent.register.deny" (agent_evidence "claimed_agent_id" (Passport.agent_id p)).
Proof.
  intros Hinv Hp Hsw Had Hatt Hne Hsound Hsign Hres.
  set (denied := record_denial clock (Passport.agent_id p) (Attestor.id attestor) (AttestorError.to_string err)).
  assert (∃ s', denied s = (Ok tt, s') ∧ passports s' = passports s ∧
    ∃ h, logged s' h "agent.register.deny" (agent_evidence "claimed_agent_id" (Passport.agent_id p)))
    as (s' & Hd & Hps & Hlog).
  { unfold denied, MemoryRegistry.record_denial.
    destruct (build_register_deny_receipt topology control_plane clock (Passport.agent_id p)
      (Attestor.id attestor) (AttestorError.to_string err)) as [rc|e] eqn:Hb.
    - unfold mthen, attempt, mret. destruct (append_receipt resolver rc s) as [res s'] eqn:Ha.
      exists s'. split; [done|]. pose proof (build_signed_receipt_Ok _ _ _ _ Hb) as (Hk & Hact & Hswm & Hev).
      destruct res as [out|e].
      + apply append_receipt_Ok in Ha as (Hps & _ & Hl & _); [|done]. split; [done|].
        exists (receipt_id rc), rc. rewrite Hev. split_and!; try done. by left.
      + unfold append_receipt, zoom in Ha. destruct (append _ _ _ _) as [res rs] eqn:E.
        injection Ha as -> <-. apply append_Err in E as [_ Hn]. destruct Hn.
        unfold build_register_deny_receipt, build_signed_receipt in Hb.
        eapply control_plane_receipt_admissible; [exact Hsound|exact Hres|exact Hb].
    - unfold build_register_deny_receipt, build_signed_receipt in Hb.
      rewrite control_plane_receipt_eq in Hb. cbv zeta in Hb.
      specialize (Hsign (message_of (unsigned_receipt control_plane (clock 0) (Topology.swarm_id topology)
        "agent.register.deny" (Topology.initial_constitution_version topology)
        [agent_evidence "claimed_agent_id" (Passport.agent_id p);
         string_evidence "attestor_id" (Attestor.id attestor);
         string_evidence "deny_reason" (AttestorError.to_string err)]))).
      destruct (ControlPlaneIdentity.sign _ _); [discriminate Hb|discriminate Hsign]. }
  exists s'. split; [|done]. rewrite register_unfold, (proj2 (verify_self_signature_Ok p) Hp).
  rewrite bool_decide_eq_true_2, (proj2 (check_admission_Ok _ _) Had) by done.
  unfold verdict. rewrite Hatt. unfold denied in Hd.
  destruct err; try (by destruct (Hne msg)); by rewrite Hd.
Qed.

(** Key rotation asks for nothing from the holder of the old key: any
    passport that names a live agent of the swarm and is signed by the key it
    carries replaces that agent's passport, whatever key was registered, and
    (through the adapter) the new key is the one the agent's later receipts are
    verified with. *)
Lemma rotation_without_continuity (clock : nat → Timestamp) (p old : Passport)
  (s : MemoryRegistry P R) :
  self_signed p → Passport.swarm_id p = Topology.swarm_id topology →
  live_of s !! Passport.agent_id p = Some old →
  let s' := (rotate_key clock p s).2 in
  live_of s' = <[Passport.agent_id p := p]> (live_of s) ∧
  PassportResolver.resolve_actor (PassportResolverAdapter.adapter (passports s')) (Passport.agent_id p)
    = Ok (Some (Passport.agent_public_key p)).
Proof.
  intros Hp Hsw Hold s'.
  assert (live_of s' = <[Passport.agent_id p := p]> (live_of s)) as Hl.
  { unfold s', MemoryRegistry.rotate_key, mthen at 1, lift at 1.
    rewrite (proj2 (verify_self_signature_Ok p) Hp). cbn [map_err].
    rewrite bool_decide_eq_true_2 by done. cbn [negb]. unfold mthen at 1. rewrite lookup_spec.
    unfold live_of in Hold. rewrite Hold. cbn [map_err]. unfold mthen at 1, lift at 1. cbn [ok_or].
    unfold mthen at 1. rewrite on_passports_run.
    pose proof (rotate_key_spec p (passports s)) as Hr.
    destruct (PassportStore.rotate_key p (passports s)) as [r ps]. cbn [fst snd].
    destruct Hr as [Hr _]. destruct (Hr Hp) as [-> Hl']; [by eexists|]. cbn [map_err].
    unfold mthen, lift, m_map_err, mret.
    match goal with |- context [build_signed_receipt ?t ?c ?cl ?k ?ev] =>
      destruct (build_signed_receipt t c cl k ev) as [rc|e] end; [|exact Hl'].
    pose proof (append_receipt_passports rc (mk ps (receipts s))) as Hps.
    destruct (append_receipt resolver rc (mk ps (receipts s))) as [[out|e] s2];
      cbn [snd map_err passports] in *; unfold live_of; rewrite Hps; exact Hl'. }
  split; [done|]. rewrite PassportResolverAdapter.adapter_resolves.
  unfold live_of in Hl. by rewrite Hl, lookup_insert_eq.
Qed.

End proofs.

(** ** Witnesses *)

Module RegToy.
Import MerkleToy.
#[global] Instance encode : Encode pproto.Passport :=
  λ p, as_bytes (pproto.Passport_owner p)
       ++ match pproto.Passport_agent_id p with Some a => proto.AgentId_value a | None => [] end
       ++ match pproto.Passport_agent_public_key p with Some k => proto.PublicKey_value k | None => [] end.
Definition cp_key : SigningKey := SigningKey.mk [Byte.x07].
Definition cp : ControlPlaneIdentity := ControlPlaneIdentity.new (agent 9) (in_process_signer cp_key).
Definition passport (owner : string) (key : SigningKey) : Passport :=
  let p := Passport.mk (SpecVersion.mk "1.0.0") (agent 1) swarm (SigningKey.public key) owner "f" "1" []
             "1.0.0" PassportTier.Standard ResourceDeclaration.default (Timestamp.mk "0" 0) None "" "" None in
  Passport.with_signature (Some (sign key (passport_message p))) p.
Definition alice : Passport := passport "alice" (SigningKey.mk [Byte.x01]).
Definition mallory : Passport := passport "mallory" (SigningKey.mk [Byte.x02]).
Definition topology : Topology :=
  Topology.mk (SpecVersion.mk "1.0.0") swarm Topology.Closed
    (AdmissionPolicy.Closed (AdmissionPolicy.mkClosed [agent 1] [] false)) 0 8 0 1 false false "1.0.0" [] None.
Definition resolver (_ : MemoryPassportStore) : PassportResolver :=
  StaticPassportResolver.resolver
    (StaticPassportResolver.with_actor (agent 9) (SigningKey.public cp_key) StaticPassportResolver.new).
Definition clock (n : nat) : Timestamp := Timestamp.mk "50" (N.of_nat n).
Definition start : MemoryRegistry MemoryPassportStore MemoryStore :=
  mk MemoryPassportStore.new MemoryStore.new.
Definition registered := register topology resolver cp native_attestor clock alice [] start.
Definition outcome : RegistrationOutcome :=
  match registered.1 with
  | Ok o => o
  | Err _ => RegistrationOutcome.mk RegistrationOutcome.Rejected (agent 0) None ""
  end.
Lemma alice_self_signed : self_signed alice.
Proof. apply verify_self_signature_Ok. vm_compute. reflexivity. Qed.
Lemma mallory_self_signed : self_signed mallory.
Proof. apply verify_self_signature_Ok. vm_compute. reflexivity. Qed.
End RegToy.

Lemma register_exact_witness :
  (∃ identity, gates RegToy.topology native_attestor RegToy.alice [] identity ∧
     live_of RegToy.start !! Passport.agent_id RegToy.alice = None ∧
     live_of RegToy.registered.2 = <[Passport.agent_id RegToy.alice := RegToy.alice]> (live_of RegToy.start)) ∧
  ∃ h, RegToy.outcome = RegistrationOutcome.mk RegistrationOutcome.Accepted
                          (Passport.agent_id RegToy.alice) (Some h) "" ∧
       logged RegToy.topology RegToy.cp RegToy.registered.2 h "agent.register"
         (agent_evidence "passport_agent_id" (Passport.agent_id RegToy.alice)) ∧
       log_of RegToy.start ⊆ log_of RegToy.registered.2.
Proof.
  apply (register_exact RegToy.topology RegToy.resolver RegToy.cp native_attestor RegToy.clock
           RegToy.alice [] RegToy.start RegToy.registered.2 (Ok RegToy.outcome)).
  - exact inv_new.
  - vm_compute. reflexivity.
Defined.

Lemma attestation_denial_logged_witness :
  ∃ s', register RegToy.topology RegToy.resolver RegToy.cp native_attestor RegToy.clock RegToy.alice
          [Byte.x00] RegToy.start
        = (Err (RegistryError.AttestationDenied (Attestor.id native_attestor)
             (AttestorError.to_string (AttestorError.Rejected
  "NativeAttestor configured but external_credential was provided; reconfigure the control plane with a non-native Attestor or omit the credential"))), s') ∧
    passports s' = passports RegToy.start ∧
    ∃ h, logged RegToy.topology RegToy.cp s' h "agent.register.deny"
      (agent_evidence "claimed_agent_id" (Passport.agent_id RegToy.alice)).
Proof.
  apply attestation_denial_logged.
  - exact inv_new.
  - exact RegToy.alice_self_signed.
  - reflexivity.
  - left. apply (bool_decide_unpack _). vm_compute. exact I.
  - reflexivity.
  - discriminate.
  - apply in_process_signer_sound.
  - reflexivity.
  - vm_compute. reflexivity.
Defined.

Lemma rotation_without_continuity_witness :
  let s' := (rotate_key RegToy.topology RegToy.resolver RegToy.cp RegToy.clock RegToy.mallory
               RegToy.registered.2).2 in
  live_of s' = <[Passport.agent_id RegToy.mallory := RegToy.mallory]> (live_of RegToy.registered.2) ∧
  PassportResolver.resolve_actor (PassportResolverAdapter.adapter (passports s'))
    (Passport.agent_id RegToy.mallory) = Ok (Some (Passport.agent_public_key RegToy.mallory)).
Proof.
  apply (rotation_without_continuity RegToy.topology RegToy.resolver RegToy.cp RegToy.clock
           RegToy.mallory RegToy.alice).
  - exact RegToy.mallory_self_signed.
  - reflexivity.
  - vm_compute. reflexivity.
Defined.
