(* ===== verification/RegistryProto.v ===== *)
(** * [yutha-registry/src/proto_conv.rs]: the wire form of a topology *)

From S2P Require Import Prelude RustStd Core CoreProto ReceiptTypes ReceiptProto Passport Registry.

Module tproto.
(* The messages of spec/topology/topology-v1.proto. *)
Record ProofOfWorkRequirement := mkPow { Pow_difficulty_bits : N; Pow_challenge_prefix : bytes }.
Record HardwareAttestationRequirement := mkHw { Hw_accepted_kinds : list Z }.
Record IdpAttestationRequirement := mkIdp {
  Idp_accepted_issuers : list string; Idp_accepted_formats : list string }.
Record StakeRequirement := mkStake {
  Stake_resource : string; Stake_min_amount : string; Stake_slashing_endpoint : string }.
Record InviteRequirement := mkInvite {
  Invite_permitted : list proto.AgentId; Invite_max : N; Invite_window : N }.
Inductive SybilKind :=
| ProofOfWork (r : ProofOfWorkRequirement)
| HardwareAttestation (r : HardwareAttestationRequirement)
| IdpAttestation (r : IdpAttestationRequirement)
| Stake (r : StakeRequirement)
| Invite (r : InviteRequirement).
Record SybilResistanceRequirement := mkSybil { Sybil_kind : option SybilKind }.
Record PassportTierRequirement := mkTier { Tier_required : Z }.
Record ClosedPolicy := mkClosed {
  Closed_agents : list proto.AgentId; Closed_owner_fingerprints : list bytes; Closed_pending : bool }.
Record OpenPolicy := mkOpen {
  Open_requirements : list SybilResistanceRequirement;
  Open_min_tier : option PassportTierRequirement; Open_max_lifetime : N }.
Record HybridPolicy := mkHybrid {
  Hybrid_core : option ClosedPolicy; Hybrid_periphery : option OpenPolicy;
  Hybrid_may_delegate : bool }.
Inductive Variant := Closed (p : ClosedPolicy) | Open (p : OpenPolicy) | Hybrid (p : HybridPolicy).
Record AdmissionPolicy := mkAdmission { Admission_variant : option Variant }.
Record Topology := mkTopology {
  Topo_spec_version : option proto.Version; Topo_swarm_id : option proto.SwarmId; Topo_mode : Z;
  Topo_admission : option AdmissionPolicy; Topo_max_cap_lifetime : N; Topo_max_chain_depth : N;
  Topo_envelope_ttl : N; Topo_max_epoch_skew : N; Topo_external_sends : bool;
  Topo_require_capability : bool; Topo_initial_constitution : string;
  Topo_operator_fingerprint : bytes; Topo_operator_signature : option proto.Signature }.
End tproto.

(** ** Forward conversions *)

(* yutha-registry/src/proto_conv.rs:59-67 From<TopologyMode> for i32 *)
Definition TopologyMode_into_i32 (m : Topology.TopologyMode) : Z :=
  match m with Topology.Closed => 1 | Topology.Open => 2 | Topology.Hybrid => 3 end.
(* yutha-registry/src/proto_conv.rs:73-83 From<HardwareAttestationKind> for i32 *)
Definition HardwareAttestationKind_into_i32 (k : Sybil.HardwareAttestationKind) : Z :=
  match k with Sybil.Nautilus => 1 | Sybil.IntelSgx => 2 | Sybil.AmdSev => 3 | Sybil.Tpm => 4 end.
(* yutha-registry/src/proto_conv.rs:89-149 From<&SybilResistanceRequirement> for proto::SybilResistanceRequirement *)
#[global] Instance SybilResistanceRequirement_to_proto
  : ToProto Sybil.SybilResistanceRequirement tproto.SybilResistanceRequirement :=
  λ s, tproto.mkSybil (Some
         match s with
         | Sybil.ProofOfWork r =>
             tproto.ProofOfWork (tproto.mkPow (Sybil.difficulty_bits r) (Sybil.challenge_prefix r))
         | Sybil.HardwareAttestation r =>
             tproto.HardwareAttestation
               (tproto.mkHw (HardwareAttestationKind_into_i32 <$> Sybil.accepted_kinds r))
         | Sybil.IdpAttestation r =>
             tproto.IdpAttestation (tproto.mkIdp (Sybil.accepted_issuers r) (Sybil.accepted_formats r))
         | Sybil.Stake r =>
             tproto.Stake (tproto.mkStake (Sybil.stake_resource r) (Sybil.min_stake_amount r)
                             (Sybil.slashing_endpoint r))
         | Sybil.Invite r =>
             tproto.Invite (tproto.mkInvite (to_proto <$> Sybil.permitted_inviters r)
                              (Sybil.max_invites_per_inviter r) (Sybil.invite_window_seconds r))
         end).
(* yutha-registry/src/proto_conv.rs:166-176 tier_to_requirement *)
Definition tier_to_requirement (t : PassportTier) : tproto.PassportTierRequirement :=
  tproto.mkTier match t with
                | PassportTier.Minimal => 1 | PassportTier.Standard => 2 | PassportTier.Verifiable => 3
                end.
(* yutha-registry/src/proto_conv.rs:199-207 From<&ClosedPolicy> for proto::ClosedPolicy *)
#[global] Instance ClosedPolicy_to_proto : ToProto AdmissionPolicy.ClosedPolicy tproto.ClosedPolicy :=
  λ c, tproto.mkClosed (to_proto <$> AdmissionPolicy.allowlisted_agents c)
         (AdmissionPolicy.allowlisted_owner_key_fingerprints c)
         (AdmissionPolicy.pending_review_on_unknown c).
(* yutha-registry/src/proto_conv.rs:209-219 From<&OpenPolicy> for proto::OpenPolicy *)
#[global] Instance OpenPolicy_to_proto : ToProto AdmissionPolicy.OpenPolicy tproto.OpenPolicy :=
  λ o, tproto.mkOpen (to_proto <$> AdmissionPolicy.requirements o)
         (Some (tier_to_requirement (AdmissionPolicy.min_passport_tier o)))
         (AdmissionPolicy.max_passport_lifetime_seconds o).
(* yutha-registry/src/proto_conv.rs:221-230 From<&HybridPolicy> for proto::HybridPolicy *)
#[global] Instance HybridPolicy_to_proto : ToProto AdmissionPolicy.HybridPolicy tproto.HybridPolicy :=
  λ h, tproto.mkHybrid (Some (to_proto (AdmissionPolicy.core h)))
         (Some (to_proto (AdmissionPolicy.periphery h))) (AdmissionPolicy.periphery_may_delegate h).
(* yutha-registry/src/proto_conv.rs:232-244 From<&AdmissionPolicy> for proto::AdmissionPolicy *)
#[global] Instance AdmissionPolicy_to_proto : ToProto AdmissionPolicy tproto.AdmissionPolicy :=
  λ a, tproto.mkAdmission (Some
         match a with
         | AdmissionPolicy.Closed p => tproto.Closed (to_proto p)
         | AdmissionPolicy.Open p => tproto.Open (to_proto p)
         | AdmissionPolicy.Hybrid p => tproto.Hybrid (to_proto p)
         end).
(* yutha-registry/src/proto_conv.rs:250-275 From<&Topology> for proto::Topology *)
#[global] Instance Topology_to_proto : ToProto Topology tproto.Topology :=
  λ t, tproto.mkTopology (Some (to_proto (Topology.spec_version t)))
         (Some (to_proto (Topology.swarm_id t))) (TopologyMode_into_i32 (Topology.mode t))
         (Some (to_proto (Topology.admission t))) (Topology.max_capability_lifetime_seconds t)
         (Topology.max_capability_chain_depth t) (Topology.default_envelope_ttl_seconds t)
         (Topology.max_epoch_skew t) (Topology.external_sends_permitted t)
         (Topology.require_capability_for_send t) (Topology.initial_constitution_version t)
         (Topology.operator_key_fingerprint t) (to_proto <$> Topology.operator_signature t).

(** ** Reverse conversions *)

Definition reg_missing (field : string) : RegistryError := RegistryError.Core (missing_field field).
Definition reg_invalid (msg : string) : RegistryError := RegistryError.Core (CoreError.Validation msg).

(* yutha-registry/src/proto_conv.rs:178-193 requirement_to_tier *)
Definition requirement_to_tier (r : tproto.PassportTierRequirement) : Result PassportTier RegistryError :=
  match tproto.Tier_required r with
  | 0%Z => Err (reg_invalid "passport-tier-requirement unset (UNKNOWN)")
  | 1%Z => Ok PassportTier.Minimal
  | 2%Z => Ok PassportTier.Standard
  | 3%Z => Ok PassportTier.Verifiable
  | v => Err (reg_invalid ("unknown passport-tier-requirement: " +:+ show_Z v))
  end.
(* yutha-registry/src/proto_conv.rs:281-296 TryFrom<i32> for TopologyMode *)
Definition TopologyMode_try_from (v : Z) : Result Topology.TopologyMode RegistryError :=
  match v with
  | 0%Z => Err (reg_invalid "topology mode unset (UNKNOWN)")
  | 1%Z => Ok Topology.Closed
  | 2%Z => Ok Topology.Open
  | 3%Z => Ok Topology.Hybrid
  | _ => Err (reg_invalid ("unknown topology mode: " +:+ show_Z v))
  end.
(* yutha-registry/src/proto_conv.rs:298-317 TryFrom<i32> for HardwareAttestationKind *)
Definition HardwareAttestationKind_try_from (v : Z)
  : Result Sybil.HardwareAttestationKind RegistryError :=
  match v with
  | 0%Z => Err (reg_invalid "attestation kind unset (UNKNOWN)")
  | 1%Z => Ok Sybil.Nautilus
  | 2%Z => Ok Sybil.IntelSgx
  | 3%Z => Ok Sybil.AmdSev
  | 4%Z => Ok Sybil.Tpm
  | _ => Err (reg_invalid ("unknown attestation kind: " +:+ show_Z v))
  end.
(* yutha-registry/src/proto_conv.rs:319-394 TryFrom<&proto::SybilResistanceRequirement> for SybilResistanceRequirement *)
#[global] Instance SybilResistanceRequirement_try_from
  : TryFromProto tproto.SybilResistanceRequirement Sybil.SybilResistanceRequirement RegistryError :=
  λ p, let? kind := ok_or (tproto.Sybil_kind p) (reg_missing "sybil_resistance_requirement.kind") in
       match kind with
       | tproto.ProofOfWork r =>
           Ok (Sybil.ProofOfWork (Sybil.mkPow (tproto.Pow_difficulty_bits r) (tproto.Pow_challenge_prefix r)))
       | tproto.HardwareAttestation r =>
           let? kinds := collect HardwareAttestationKind_try_from (tproto.Hw_accepted_kinds r) in
           Ok (Sybil.HardwareAttestation (Sybil.mkHw kinds))
       | tproto.IdpAttestation r =>
           Ok (Sybil.IdpAttestation (Sybil.mkIdp (tproto.Idp_accepted_issuers r)
                                       (tproto.Idp_accepted_formats r)))
       | tproto.Stake r =>
           Ok (Sybil.Stake (Sybil.mkStake (tproto.Stake_resource r) (tproto.Stake_min_amount r)
                              (tproto.Stake_slashing_endpoint r)))
       | tproto.Invite r =>
           let? permitted := map_err RegistryError.Core (collect try_from (tproto.Invite_permitted r)) in
           Ok (Sybil.Invite (Sybil.mkInvite permitted (tproto.Invite_max r) (tproto.Invite_window r)))
       end.
(* yutha-registry/src/proto_conv.rs:396-410 TryFrom<&proto::ClosedPolicy> for ClosedPolicy *)
#[global] Instance ClosedPolicy_try_from
  : TryFromProto tproto.ClosedPolicy AdmissionPolicy.ClosedPolicy RegistryError :=
  λ p, let? agents := map_err RegistryError.Core (collect try_from (tproto.Closed_agents p)) in
       Ok (AdmissionPolicy.mkClosed agents (tproto.Closed_owner_fingerprints p) (tproto.Closed_pending p)).
(* yutha-registry/src/proto_conv.rs:412-431 TryFrom<&proto::OpenPolicy> for OpenPolicy *)
#[global] Instance OpenPolicy_try_from
  : TryFromProto tproto.OpenPolicy AdmissionPolicy.OpenPolicy RegistryError :=
  λ p, let? requirements := collect try_from (tproto.Open_requirements p) in
       let? min := ok_or (tproto.Open_min_tier p) (reg_missing "open_policy.min_passport_tier") in
       let? min_passport_tier := requirement_to_tier min in
       Ok (AdmissionPolicy.mkOpen requirements min_passport_tier (tproto.Open_max_lifetime p)).
(* yutha-registry/src/proto_conv.rs:433-452 TryFrom<&proto::HybridPolicy> for HybridPolicy *)
#[global] Instance HybridPolicy_try_from
  : TryFromProto tproto.HybridPolicy AdmissionPolicy.HybridPolicy RegistryError :=
  λ p, let? core := ok_or (tproto.Hybrid_core p) (reg_missing "hybrid_policy.core") in
       let? core := try_from core in
       let? periphery := ok_or (tproto.Hybrid_periphery p) (reg_missing "hybrid_policy.periphery") in
       let? periphery := try_from periphery in
       Ok (AdmissionPolicy.mkHybrid core periphery (tproto.Hybrid_may_delegate p)).
(* yutha-registry/src/proto_conv.rs:454-468 TryFrom<&proto::AdmissionPolicy> for AdmissionPolicy *)
#[global] Instance AdmissionPolicy_try_from
  : TryFromProto tproto.AdmissionPolicy AdmissionPolicy RegistryError :=
  λ p, let? variant := ok_or (tproto.Admission_variant p) (reg_missing "admission_policy.variant") in
       match variant with
       | tproto.Closed c => let? c := try_from c in Ok (AdmissionPolicy.Closed c)
       | tproto.Open o => let? o := try_from o in Ok (AdmissionPolicy.Open o)
       | tproto.Hybrid h => let? h := try_from h in Ok (AdmissionPolicy.Hybrid h)
       end.
(* yutha-registry/src/proto_conv.rs:470-504 TryFrom<&proto::Topology> for Topology *)
#[global] Instance Topology_try_from : TryFromProto tproto.Topology Topology RegistryError :=
  λ p, let? spec_version := try_from_required RegistryError.Core "spec_version" (tproto.Topo_spec_version p) in
       let? swarm_id := try_from_required RegistryError.Core "swarm_id" (tproto.Topo_swarm_id p) in
       let? mode := TopologyMode_try_from (tproto.Topo_mode p) in
       let? admission := ok_or (tproto.Topo_admission p) (reg_missing "admission") in
       let? admission := try_from admission in
       let? operator_signature :=
         map_err RegistryError.Core (try_from_opt (tproto.Topo_operator_signature p)) in
       Ok (Topology.mk spec_version swarm_id mode admission (tproto.Topo_max_cap_lifetime p)
             (tproto.Topo_max_chain_depth p) (tproto.Topo_envelope_ttl p)
             (tproto.Topo_max_epoch_skew p) (tproto.Topo_external_sends p)
             (tproto.Topo_require_capability p) (tproto.Topo_initial_constitution p)
             (tproto.Topo_operator_fingerprint p) operator_signature).

(** ** Laws *)

#[global] Instance Sybil_wf : WellFormed Sybil.SybilResistanceRequirement :=
  λ s, match s with Sybil.Invite r => wf (Sybil.permitted_inviters r) | _ => True end.
#[global] Instance ClosedPolicy_wf : WellFormed AdmissionPolicy.ClosedPolicy :=
  λ c, wf (AdmissionPolicy.allowlisted_agents c).
#[global] Instance OpenPolicy_wf : WellFormed AdmissionPolicy.OpenPolicy :=
  λ o, wf (AdmissionPolicy.requirements o).
#[global] Instance AdmissionPolicy_wf : WellFormed AdmissionPolicy :=
  λ a, match a with
       | AdmissionPolicy.Closed c => wf c
       | AdmissionPolicy.Open o => wf o
       | AdmissionPolicy.Hybrid h => wf (AdmissionPolicy.core h) ∧ wf (AdmissionPolicy.periphery h)
       end.
#[global] Instance Topology_wf : WellFormed Topology :=
  λ t, wf (Topology.spec_version t) ∧ wf (Topology.swarm_id t) ∧ wf (Topology.admission t) ∧
       wf (Topology.operator_signature t).

Lemma kinds_round_trip l :
  collect HardwareAttestationKind_try_from (HardwareAttestationKind_into_i32 <$> l) = Ok l.
Proof.
  apply collect_Ok, Forall2_fmap_l. induction l as [|[] l IH]; by constructor.
Qed.

#[global] Instance Sybil_round_trip
  : RoundTrip Sybil.SybilResistanceRequirement tproto.SybilResistanceRequirement RegistryError.
Proof.
  constructor. intros [[]|[k]|[]|[]|[l m w]] Hw; try done; unfold try_from, SybilResistanceRequirement_try_from;
    simpl.
  - by rewrite kinds_round_trip.
  - by rewrite collect_round_trip.
Qed.
#[global] Instance ClosedPolicy_round_trip
  : RoundTrip AdmissionPolicy.ClosedPolicy tproto.ClosedPolicy RegistryError.
Proof.
  constructor. intros [a f p] Hw. unfold try_from, ClosedPolicy_try_from. simpl.
  by rewrite collect_round_trip.
Qed.
#[global] Instance OpenPolicy_round_trip
  : RoundTrip AdmissionPolicy.OpenPolicy tproto.OpenPolicy RegistryError.
Proof.
  constructor. intros [r t m] Hw. unfold try_from, OpenPolicy_try_from. simpl.
  rewrite collect_round_trip by done. by destruct t.
Qed.
#[global] Instance AdmissionPolicy_round_trip
  : RoundTrip AdmissionPolicy tproto.AdmissionPolicy RegistryError.
Proof.
  constructor. intros [c|o|[c o d]] Hw; unfold try_from, AdmissionPolicy_try_from; simpl.
  - by rewrite round_trip.
  - by rewrite round_trip.
  - destruct Hw as [Hc Ho]. unfold try_from at 1, HybridPolicy_try_from. simpl in *.
    by rewrite !round_trip.
Qed.
#[global] Instance Topology_round_trip : RoundTrip Topology tproto.Topology RegistryError.
Proof.
  constructor. intros [sv sw mo ad a b c d e f g h si] (H1 & H2 & H3 & H4).
  unfold try_from, Topology_try_from. simpl in *. rewrite !try_from_required_round_trip by done.
  destruct mo; cbn [rbind TopologyMode_into_i32 TopologyMode_try_from];
    rewrite round_trip by done; cbn [rbind]; by rewrite try_from_opt_round_trip.
Qed.

(** ** Properties *)

(** A topology survives the wire, with every admission policy, tier, Sybil
    requirement and enum it can hold; only ids, the version and the operator's
    signature need to be well-formed. *)
Lemma topology_wire_round_trip (t : Topology) :
  wf t → try_from (E:=RegistryError) (to_proto (P:=tproto.Topology) t) = Ok t.
Proof. apply round_trip. Qed.

Lemma topology_wire_round_trip_witness :
  try_from (E:=RegistryError) (to_proto (P:=tproto.Topology) RegToy.topology) = Ok RegToy.topology.
Proof.
  apply topology_wire_round_trip. split_and!; [reflexivity|reflexivity| |exact I].
  apply Forall_singleton. reflexivity.
Defined.
