(* ===== verification/Envelope.v ===== *)
(** * [yutha-transport]: envelopes and their wire form

    [performative.rs], [recipient.rs], [error.rs], [envelope.rs] and
    [proto_conv.rs]: what an envelope is, its canonical bytes, how it is signed
    and checked, and its conversion to and from the messages of
    [spec/envelope/envelope-v1.proto]. *)

From S2P Require Import Prelude RustStd Core CoreProto Crypto ReceiptTypes ReceiptProto.

(** ** performative.rs and recipient.rs *)

Module Performative.
(* yutha-transport/src/performative.rs:11-37 Performative *)
Inductive Performative :=
| Propose | Counter | Commit | Abort | Release | Query | Inform | Error
| RequestAction | Confirm | Decline.
#[global] Instance Performative_eq_dec : EqDecision Performative.
Proof. solve_decision. Defined.
(* yutha-transport/src/performative.rs:41-56 Performative::from_wire *)
Definition from_wire (value : Z) : option Performative :=
  match value with
  | 1%Z => Some Propose | 2%Z => Some Counter | 3%Z => Some Commit | 4%Z => Some Abort
  | 5%Z => Some Release | 6%Z => Some Query | 7%Z => Some Inform | 8%Z => Some Error
  | 9%Z => Some RequestAction | 10%Z => Some Confirm | 11%Z => Some Decline
  | _ => None
  end.
(* yutha-transport/src/performative.rs:59-73 Performative::to_wire *)
Definition to_wire (p : Performative) : Z :=
  match p with
  | Propose => 1 | Counter => 2 | Commit => 3 | Abort => 4 | Release => 5 | Query => 6
  | Inform => 7 | Error => 8 | RequestAction => 9 | Confirm => 10 | Decline => 11
  end.
Lemma from_to_wire p : from_wire (to_wire p) = Some p.
Proof. by destruct p. Qed.
End Performative.
Notation Performative := Performative.Performative.

Module Recipient.
(* yutha-transport/src/recipient.rs:23-26 SwarmBroadcast *)
Record SwarmBroadcast := mkSwarm { filter_tags : list string }.
(* yutha-transport/src/recipient.rs:31-38 ExternalEndpoint *)
Record ExternalEndpoint := mkExternal { scheme : string; authority : string; path_hint : string }.
(* yutha-transport/src/recipient.rs:9-18 Recipient *)
Inductive Recipient :=
| Agent (id : AgentId)
| Role (role : string)
| Swarm (b : SwarmBroadcast)
| External (e : ExternalEndpoint).
End Recipient.
Notation Recipient := Recipient.Recipient.

(** ** error.rs *)

Module EnvelopeError.
(* yutha-transport/src/error.rs:13-30 EnvelopeError *)
Inductive EnvelopeError :=
| SignatureInvalid | UnknownSpecVersion | ReplayDetected | Expired | Malformed
| UnknownPerformative | RecipientUnknown | CapabilityDenied.
(* yutha-transport/src/error.rs:32-36 Display for EnvelopeError *)
Definition to_string (e : EnvelopeError) : string :=
  match e with
  | SignatureInvalid => "SignatureInvalid" | UnknownSpecVersion => "UnknownSpecVersion"
  | ReplayDetected => "ReplayDetected" | Expired => "Expired" | Malformed => "Malformed"
  | UnknownPerformative => "UnknownPerformative" | RecipientUnknown => "RecipientUnknown"
  | CapabilityDenied => "CapabilityDenied"
  end.
End EnvelopeError.
Notation EnvelopeError := EnvelopeError.EnvelopeError.

Module TransportError.
(* yutha-transport/src/error.rs:40-73 TransportError *)
Inductive TransportError :=
| EnvelopeRejected (e : EnvelopeError)
| Delivery (msg : string)
| Timeout
| Backpressure
| Backend (msg : string)
| Receipt (e : ReceiptError)
| Crypto (e : CryptoError)
| Core (e : CoreError).
(* yutha-transport/src/error.rs:40-73 TransportError (Display) *)
Definition to_string (e : TransportError) : string :=
  match e with
  | EnvelopeRejected e => "envelope rejected: " +:+ EnvelopeError.to_string e
  | Delivery m => "delivery failed: " +:+ m
  | Timeout => "receive timeout"
  | Backpressure => "backpressure"
  | Backend m => "backend: " +:+ m
  | Receipt e => ReceiptError.to_string e
  | Crypto e => CryptoError.to_string e
  | Core e => CoreError.to_string e
  end.
End TransportError.
Notation TransportError := TransportError.TransportError.

(** ** envelope.rs *)

Module Envelope.
(* yutha-transport/src/envelope.rs:14-47 Envelope *)
Record Envelope := mk {
  spec_version : SpecVersion; swarm_id : SwarmId; envelope_id : bytes; from_agent : AgentId;
  recipient : Recipient; performative : Performative; payload : bytes;
  payload_schema_id : string; tags : list string; causal : CausalRef; nonce : bytes;
  epoch : N; sent_at : Timestamp; expires_at : option Timestamp; in_reply_to : option Hash;
  agent_signature : option Signature }.
Definition with_signature (sig : option Signature) (e : Envelope) : Envelope :=
  mk (spec_version e) (swarm_id e) (envelope_id e) (from_agent e) (recipient e) (performative e)
    (payload e) (payload_schema_id e) (tags e) (causal e) (nonce e) (epoch e) (sent_at e)
    (expires_at e) (in_reply_to e) sig.
(* yutha-transport/src/envelope.rs:62-70 Envelope::is_expired_at *)
Definition is_expired_at `{TimeOps} (e : Envelope) (now : Timestamp) : bool :=
  match expires_at e with
  | None => false
  | Some exp =>
      if Timestamp.wall_at_or_after now exp then true
      else negb (bool_decide (is_Some (Timestamp.parsed_wall_clock now)))
           || negb (bool_decide (is_Some (Timestamp.parsed_wall_clock exp)))
  end.
End Envelope.
Notation Envelope := Envelope.Envelope.

Module EnvelopeBuilder.
(* yutha-transport/src/envelope.rs:109-125 EnvelopeBuilder *)
Record EnvelopeBuilder := mk {
  spec_version : option SpecVersion; swarm_id : option SwarmId; envelope_id : option bytes;
  from_agent : option AgentId; recipient : option Recipient; performative : option Performative;
  payload : bytes; payload_schema_id : string; tags : list string; causal : option CausalRef;
  nonce : option bytes; epoch : option N; sent_at : option Timestamp;
  expires_at : option Timestamp; in_reply_to : option Hash }.
(* yutha-transport/src/envelope.rs:205-224 EnvelopeBuilder::build *)
Definition build (b : EnvelopeBuilder) : Result Envelope string :=
  let? spec_version := ok_or (spec_version b) "spec_version required"%string in
  let? swarm_id := ok_or (swarm_id b) "swarm_id required"%string in
  let? envelope_id := ok_or (envelope_id b) "envelope_id required"%string in
  let? from_agent := ok_or (from_agent b) "from_agent required"%string in
  let? recipient := ok_or (recipient b) "recipient required"%string in
  let? performative := ok_or (performative b) "performative required"%string in
  let? nonce := ok_or (nonce b) "nonce required"%string in
  let? epoch := ok_or (epoch b) "epoch required"%string in
  let? sent_at := ok_or (sent_at b) "sent_at required"%string in
  Ok (Envelope.mk spec_version swarm_id envelope_id from_agent recipient performative (payload b)
        (payload_schema_id b) (tags b) (default CausalRef.empty (causal b)) nonce epoch sent_at
        (expires_at b) (in_reply_to b) None).
End EnvelopeBuilder.
Notation EnvelopeBuilder := EnvelopeBuilder.EnvelopeBuilder.

(** ** proto_conv.rs *)

Module eproto.
(* The messages of spec/envelope/envelope-v1.proto. *)
Record SwarmBroadcast := mkSwarm { Swarm_filter_tags : list string }.
Record ExternalEndpoint := mkExternal {
  External_scheme : string; External_authority : string; External_path_hint : string }.
Inductive To :=
| Agent (id : proto.AgentId)
| Role (role : string)
| Swarm (b : SwarmBroadcast)
| External (e : ExternalEndpoint).
Record Recipient := mkRecipient { Recipient_to : option To }.
Record Envelope := mkEnvelope {
  Env_spec_version : option proto.Version; Env_swarm_id : option proto.SwarmId;
  Env_envelope_id : bytes; Env_from_agent : option proto.AgentId;
  Env_recipient : option Recipient; Env_performative : Z; Env_payload : bytes;
  Env_payload_schema_id : string; Env_tags : list string; Env_causal : option proto.CausalRef;
  Env_nonce : bytes; Env_epoch : N; Env_sent_at : option proto.Timestamp;
  Env_expires_at : option proto.Timestamp; Env_in_reply_to : option proto.Hash;
  Env_extensions : option rproto.Extensions; Env_agent_signature : option proto.Signature }.
End eproto.

(* yutha-transport/src/proto_conv.rs:21-27 From<Performative> for i32 *)
Definition Performative_into_i32 (p : Performative) : Z := Performative.to_wire p.
(* yutha-transport/src/proto_conv.rs:33-39 From<&SwarmBroadcast> for proto::SwarmBroadcast *)
Definition SwarmBroadcast_into (b : Recipient.SwarmBroadcast) : eproto.SwarmBroadcast :=
  eproto.mkSwarm (Recipient.filter_tags b).
(* yutha-transport/src/proto_conv.rs:41-49 From<&ExternalEndpoint> for proto::ExternalEndpoint *)
Definition ExternalEndpoint_into (e : Recipient.ExternalEndpoint) : eproto.ExternalEndpoint :=
  eproto.mkExternal (Recipient.scheme e) (Recipient.authority e) (Recipient.path_hint e).
(* yutha-transport/src/proto_conv.rs:55-68 From<&Recipient> for proto::Recipient *)
#[global] Instance Recipient_to_proto : ToProto Recipient eproto.Recipient :=
  λ r, eproto.mkRecipient (Some
         match r with
         | Recipient.Agent id => eproto.Agent (to_proto id)
         | Recipient.Role role => eproto.Role role
         | Recipient.Swarm b => eproto.Swarm (SwarmBroadcast_into b)
         | Recipient.External e => eproto.External (ExternalEndpoint_into e)
         end).
(* yutha-transport/src/proto_conv.rs:74-96 From<&Envelope> for proto::Envelope *)
#[global] Instance Envelope_to_proto : ToProto Envelope eproto.Envelope :=
  λ e, eproto.mkEnvelope (Some (to_proto (Envelope.spec_version e)))
         (Some (to_proto (Envelope.swarm_id e))) (Envelope.envelope_id e)
         (Some (to_proto (Envelope.from_agent e))) (Some (to_proto (Envelope.recipient e)))
         (Performative_into_i32 (Envelope.performative e)) (Envelope.payload e)
         (Envelope.payload_schema_id e) (Envelope.tags e) (Some (to_proto (Envelope.causal e)))
         (Envelope.nonce e) (Envelope.epoch e) (Some (to_proto (Envelope.sent_at e)))
         (to_proto <$> Envelope.expires_at e) (to_proto <$> Envelope.in_reply_to e) None
         (to_proto <$> Envelope.agent_signature e).
(* yutha-transport/src/proto_conv.rs:104-109 Envelope::to_canonical_proto *)
Definition envelope_canonical_proto (e : Envelope) : eproto.Envelope :=
  let p : eproto.Envelope := to_proto e in
  eproto.mkEnvelope (eproto.Env_spec_version p) (eproto.Env_swarm_id p) (eproto.Env_envelope_id p)
    (eproto.Env_from_agent p) (eproto.Env_recipient p) (eproto.Env_performative p)
    (eproto.Env_payload p) (eproto.Env_payload_schema_id p) (eproto.Env_tags p)
    (eproto.Env_causal p) (eproto.Env_nonce p) (eproto.Env_epoch p) (eproto.Env_sent_at p)
    (eproto.Env_expires_at p) (eproto.Env_in_reply_to p) None None.
(* yutha-transport/src/envelope.rs:90-101 Canonical for Envelope *)
#[global] Instance Envelope_canonical `{Encode eproto.Envelope} : Canonical Envelope :=
  λ e, Ok (encode_to_vec (envelope_canonical_proto e)).

(* yutha-transport/src/proto_conv.rs:119-123 missing *)
Definition env_missing (field : string) : TransportError := TransportError.Core (missing_field field).
(* yutha-transport/src/proto_conv.rs:129-150 TryFrom<i32> for Performative *)
Definition Performative_try_from (v : Z) : Result Performative TransportError :=
  ok_or (Performative.from_wire v)
    (TransportError.Core (CoreError.Validation ("unknown performative wire value: " +:+ show_Z v))).
(* yutha-transport/src/proto_conv.rs:156-162 From<&proto::SwarmBroadcast> for SwarmBroadcast *)
Definition SwarmBroadcast_from (p : eproto.SwarmBroadcast) : Recipient.SwarmBroadcast :=
  Recipient.mkSwarm (eproto.Swarm_filter_tags p).
(* yutha-transport/src/proto_conv.rs:164-172 From<&proto::ExternalEndpoint> for ExternalEndpoint *)
Definition ExternalEndpoint_from (p : eproto.ExternalEndpoint) : Recipient.ExternalEndpoint :=
  Recipient.mkExternal (eproto.External_scheme p) (eproto.External_authority p)
    (eproto.External_path_hint p).
(* yutha-transport/src/proto_conv.rs:178-190 TryFrom<&proto::Recipient> for Recipient *)
#[global] Instance Recipient_try_from : TryFromProto eproto.Recipient Recipient TransportError :=
  λ p, let? to := ok_or (eproto.Recipient_to p) (env_missing "recipient.to") in
       match to with
       | eproto.Agent id => let? id := try_from_core TransportError.Core id in Ok (Recipient.Agent id)
       | eproto.Role role => Ok (Recipient.Role role)
       | eproto.Swarm b => Ok (Recipient.Swarm (SwarmBroadcast_from b))
       | eproto.External e => Ok (Recipient.External (ExternalEndpoint_from e))
       end.

Section envelope.
Context `{TimeOps}.

(* yutha-transport/src/proto_conv.rs:196-250 TryFrom<&proto::Envelope> for Envelope *)
#[global] Instance Envelope_try_from : TryFromProto eproto.Envelope Envelope TransportError :=
  λ p, let? spec_version := try_from_required TransportError.Core "spec_version" (eproto.Env_spec_version p) in
       let? swarm_id := try_from_required TransportError.Core "swarm_id" (eproto.Env_swarm_id p) in
       let? from_agent := try_from_required TransportError.Core "from_agent" (eproto.Env_from_agent p) in
       let? r := ok_or (eproto.Env_recipient p) (env_missing "recipient") in
       let? recipient := try_from r in
       let? performative := Performative_try_from (eproto.Env_performative p) in
       let? causal := map_err TransportError.Core (try_from_opt (eproto.Env_causal p)) in
       let? sent_at := try_from_required TransportError.Core "sent_at" (eproto.Env_sent_at p) in
       let? expires_at := map_err TransportError.Core (try_from_opt (eproto.Env_expires_at p)) in
       let? in_reply_to := map_err TransportError.Core (try_from_opt (eproto.Env_in_reply_to p)) in
       let? agent_signature := map_err TransportError.Core (try_from_opt (eproto.Env_agent_signature p)) in
       Ok (Envelope.mk spec_version swarm_id (eproto.Env_envelope_id p) from_agent recipient
             performative (eproto.Env_payload p) (eproto.Env_payload_schema_id p) (eproto.Env_tags p)
             (default CausalRef.empty causal) (eproto.Env_nonce p) (eproto.Env_epoch p) sent_at
             expires_at in_reply_to agent_signature).

Context `{CryptoOps} `{Encode eproto.Envelope}.

(* yutha-transport/src/envelope.rs:73-87 Envelope::verify_signature *)
Definition verify_signature (e : Envelope) (sender_public_key : PublicKey) : Result unit TransportError :=
  let? sig := ok_or (Envelope.agent_signature e)
                (TransportError.EnvelopeRejected EnvelopeError.SignatureInvalid) in
  let? bytes := map_err TransportError.Crypto (canonical_bytes e) in
  map_err (λ _, TransportError.EnvelopeRejected EnvelopeError.SignatureInvalid)
    (verify sender_public_key bytes sig).

(* yutha-transport/src/envelope.rs:231-243 EnvelopeBuilder::sign *)
Definition sign_envelope (b : EnvelopeBuilder) (signer : Signer) : Result Envelope string :=
  let? e := EnvelopeBuilder.build b in
  let? bytes := map_err (λ _, "canonical bytes failed"%string) (canonical_bytes e) in
  let? sig := map_err (λ _, "signer failed"%string) (Signer.sign_message signer bytes) in
  Ok (Envelope.with_signature (Some sig) e).

(** ** Laws *)

#[global] Instance Recipient_wf : WellFormed Recipient :=
  λ r, match r with Recipient.Agent id => wf id | _ => True end.
#[global] Instance Envelope_wf : WellFormed Envelope :=
  λ e, wf (Envelope.spec_version e) ∧ wf (Envelope.swarm_id e) ∧ wf (Envelope.from_agent e) ∧
       wf (Envelope.recipient e) ∧ wf (Envelope.causal e) ∧ wf (Envelope.sent_at e) ∧
       wf (Envelope.expires_at e) ∧ wf (Envelope.in_reply_to e) ∧ wf (Envelope.agent_signature e).

#[global] Instance Recipient_round_trip : RoundTrip Recipient eproto.Recipient TransportError.
Proof.
  constructor. intros [id|r|[]|[]] Hw; unfold try_from, Recipient_try_from; simpl; try done.
  unfold try_from_core. by rewrite round_trip.
Qed.
#[global] Instance Recipient_decodes : DecodesWf Recipient eproto.Recipient TransportError.
Proof.
  constructor. intros [[[id|r|b|e]|]] x Hx; unfold try_from, Recipient_try_from in Hx; simpl in Hx;
    [|by injection Hx as <-..|done].
  unfold try_from_core in Hx. inv_ok Hx. exact (decodes_wf id _ Hx0).
Qed.
#[global] Instance Envelope_round_trip : RoundTrip Envelope eproto.Envelope TransportError.
Proof.
  constructor. intros [sv sw id fr re pe pa ps ta ca no ep se ex ir si] (?&?&?&?&?&?&?&?&?).
  unfold try_from, Envelope_try_from. simpl in *. rewrite !try_from_required_round_trip by done.
  simpl. rewrite round_trip by done. simpl. unfold Performative_try_from, Performative_into_i32.
  rewrite Performative.from_to_wire. simpl. by rewrite !try_from_opt_round_trip, round_trip by done.
Qed.
#[global] Instance Envelope_decodes : DecodesWf Envelope eproto.Envelope TransportError.
Proof.
  constructor. intros p e He. unfold try_from, Envelope_try_from in He. inv_ok He. decode_wf.
  unfold wf, Envelope_wf; simpl. split_and!; try done. apply wf_default; [constructor|done].
Qed.

Lemma is_expired_at_spec e now :
  Envelope.is_expired_at e now = false ↔
  ∀ exp, Envelope.expires_at e = Some exp →
    ∃ x y, Timestamp.parsed_wall_clock now = Some x ∧ Timestamp.parsed_wall_clock exp = Some y ∧ (x < y)%Z.
Proof.
  unfold Envelope.is_expired_at, Timestamp.wall_at_or_after.
  destruct (Envelope.expires_at e) as [exp|]; [|naive_solver].
  destruct (Timestamp.parsed_wall_clock now) as [x|] eqn:Hn, (Timestamp.parsed_wall_clock exp) as [y|] eqn:He;
    simpl; try (split; [done|]; intros Hx; destruct (Hx _ eq_refl) as (?&?&?&?&?); congruence).
  destruct (Z.leb_spec y x); split; try done; intros Hx.
  - destruct (Hx _ eq_refl) as (?&?&?&?&?). simplify_eq. lia.
  - intros ? [= <-]. eauto.
Qed.

(** ** Properties *)

(** Every envelope the control plane decodes is well-formed, and every
    well-formed envelope, whatever its recipient, performative, tags and
    optional fields, is decoded from its own encoding unchanged: so a relay
    that decodes and re-encodes changes nothing. *)
Lemma envelope_wire_round_trip (e : Envelope) (p : eproto.Envelope) :
  (wf e → try_from (E:=TransportError) (to_proto (P:=eproto.Envelope) e) = Ok e) ∧
  (try_from (E:=TransportError) p = Ok e →
   wf e ∧ try_from (E:=TransportError) (to_proto (P:=eproto.Envelope) e) = Ok e).
Proof.
  split; [apply round_trip|]. intros Hp. assert (wf e) by by eapply decodes_wf.
  split; [done|by apply round_trip].
Qed.

(** The canonical message is the envelope without its signature. *)
Lemma envelope_canonical_eq (e : Envelope) :
  envelope_canonical_proto e = to_proto (Envelope.with_signature None e).
Proof. by destruct e. Qed.

Lemma envelope_canonical_inj (e1 e2 : Envelope) :
  wf e1 → wf e2 → envelope_canonical_proto e1 = envelope_canonical_proto e2 →
  Envelope.with_signature None e1 = Envelope.with_signature None e2.
Proof.
  intros H1' H2' Heq. rewrite !envelope_canonical_eq in Heq.
  assert (∀ e : Envelope, wf e → wf (Envelope.with_signature None e)) as Hwf
    by (intros e (?&?&?&?&?&?&?&?&?); by repeat split).
  apply Hwf, round_trip in H1', H2'. congruence.
Qed.

Lemma verify_signature_Ok (e : Envelope) pk :
  verify_signature e pk = Ok tt ↔
  ∃ sig, Envelope.agent_signature e = Some sig ∧
         signature_valid pk (encode_to_vec (envelope_canonical_proto e)) sig.
Proof.
  unfold verify_signature. rewrite rbind_Ok. setoid_rewrite ok_or_Ok.
  unfold canonical_bytes, Envelope_canonical. cbn [map_err rbind].
  by setoid_rewrite map_err_Ok; setoid_rewrite verify_Ok.
Qed.

(** Envelope signatures.  An envelope is accepted under a key exactly when
    it carries a valid Ed25519 signature of its canonical message; what a sound
    signer signed is accepted under the signer's key; and the message covers
    every field but the signature itself: if the encoding of messages is
    injective, a signature made for one envelope is a signature of no message
    of an envelope that differs in any other field. *)
Lemma envelope_signature_exact (e : Envelope) (pk : PublicKey) :
  (verify_signature e pk = Ok tt ↔
     ∃ sig, Envelope.agent_signature e = Some sig ∧
            signature_valid pk (encode_to_vec (envelope_canonical_proto e)) sig) ∧
  (∀ b signer, signer_sound signer → sign_envelope b signer = Ok e →
     verify_signature e (Signer.public_key signer) = Ok tt) ∧
  (∀ e', Inj (=) (=) (encode_to_vec (P:=eproto.Envelope)) → wf e → wf e' →
     canonical_bytes e = canonical_bytes e' →
     Envelope.with_signature None e = Envelope.with_signature None e').
Proof.
  split; [apply verify_signature_Ok|]. split.
  - intros b signer Hs Hb. unfold sign_envelope in Hb.
    apply rbind_Ok in Hb as (e0 & _ & Hb). cbn [canonical_bytes Envelope_canonical map_err rbind] in Hb.
    apply rbind_Ok in Hb as (sig & Hsig%map_err_Ok & [= <-]).
    apply verify_signature_Ok. exists sig. split; [done|]. apply verify_Ok. by apply Hs.
  - intros e' Hinj He He' [= Heq%Hinj]. by apply envelope_canonical_inj.
Qed.

End envelope.

(** ** A toy envelope, used by the witnesses *)

Module EnvToy.
#[global] Instance encode : Encode eproto.Envelope :=
  λ p, eproto.Env_envelope_id p ++ eproto.Env_nonce p ++ eproto.Env_payload p.
Definition builder : EnvelopeBuilder :=
  EnvelopeBuilder.mk (Some (SpecVersion.mk "1.0.0")) (Some (SwarmId.mk (replicate 16 "001"%byte)))
    (Some [Byte.x01]) (Some (AgentId.mk (replicate 16 "002"%byte)))
    (Some (Recipient.Agent (AgentId.mk (replicate 16 "003"%byte)))) (Some Performative.Inform)
    [Byte.x68] "text" [] None (Some [Byte.x09]) (Some 1%N) (Some (Timestamp.mk "5" 7)) None None.
Definition key : SigningKey := SigningKey.mk [Byte.x01].
Definition envelope : Envelope :=
  match sign_envelope builder (in_process_signer key) with
  | Ok e => e
  | Err _ => Envelope.mk (SpecVersion.mk "") (SwarmId.mk []) [] (AgentId.mk []) (Recipient.Role "")
               Performative.Error [] "" [] CausalRef.empty [] 0 (Timestamp.mk "" 0) None None None
  end.
End EnvToy.

Lemma envelope_signature_exact_witness :
  verify_signature EnvToy.envelope (Signer.public_key (in_process_signer EnvToy.key)) = Ok tt.
Proof.
  apply (envelope_signature_exact EnvToy.envelope (SigningKey.public EnvToy.key)) with (b:=EnvToy.builder).
  - apply in_process_signer_sound.
  - vm_compute. reflexivity.
Defined.

Lemma envelope_wire_round_trip_witness :
  try_from (E:=TransportError) (to_proto (P:=eproto.Envelope) EnvToy.envelope) = Ok EnvToy.envelope.
Proof.
  apply (envelope_wire_round_trip EnvToy.envelope (to_proto EnvToy.envelope)).
  vm_compute. reflexivity.
Defined.
