(* ===== verification/Replay.v ===== *)
(** * [yutha-transport/src/replay.rs]: replay protection

    Per sender, a bounded window of recent nonces (a queue and a set kept
    together) and the highest epoch seen.  The bounded state is proved to
    answer as a reference that keeps the whole history does, and the window's
    guarantee is derived from that. *)

From S2P Require Import Prelude RustStd Core Crypto Envelope.

Module SenderState.
(* yutha-transport/src/replay.rs:36-42 SenderState *)
Record SenderState := mk { nonces_queue : list bytes; nonces_set : gset bytes; max_epoch : N }.
Definition default : SenderState := mk [] ∅ 0.
End SenderState.
Notation SenderState := SenderState.SenderState.

Module ReplayProtection.
(* yutha-transport/src/replay.rs:22-33 ReplayProtection *)
Record ReplayProtection := mk {
  per_sender : gmap AgentId SenderState; window_size : nat; max_epoch_skew : N }.
(* yutha-transport/src/replay.rs:51-57 ReplayProtection::with_params *)
Definition with_params (window_size : nat) (max_epoch_skew : N) : ReplayProtection :=
  mk ∅ window_size max_epoch_skew.
(* yutha-transport/src/replay.rs:46-48 ReplayProtection::new *)
Definition new : ReplayProtection := with_params 1024 256.

(* yutha-transport/src/replay.rs:88-92 ReplayProtection::admit (eviction) *)
Fixpoint evict (window : nat) (queue : list bytes) (set : gset bytes) : list bytes * gset bytes :=
  match queue with
  | [] => (queue, set)
  | oldest :: queue' =>
      if (window <? length queue)%nat then evict window queue' (set ∖ {[oldest]}) else (queue, set)
  end.

(** The entry of a sender, put back with a new state. *)
Definition set_sender (a : AgentId) (st : SenderState) (rp : ReplayProtection) : ReplayProtection :=
  mk (<[a := st]> (per_sender rp)) (window_size rp) (max_epoch_skew rp).

Definition rejected (e : EnvelopeError) : TransportError := TransportError.EnvelopeRejected e.

(** The addition of the epoch and the skew is a [u64] addition: it wraps in a
    release build (and panics in a debug build). *)
(* yutha-transport/src/replay.rs:62-98 ReplayProtection::admit *)
Definition admit_envelope `{TimeOps} (envelope : Envelope) (now : Timestamp)
  : M ReplayProtection TransportError unit :=
  if Envelope.is_expired_at envelope now then throw (rejected EnvelopeError.Expired)
  else
    let from := Envelope.from_agent envelope in
    let nonce := Envelope.nonce envelope in
    let! state := gets (λ rp, default SenderState.default (per_sender rp !! from)) in
    do! modify (set_sender from state) in
    let! skew := gets max_epoch_skew in
    if (u64_wrap (Envelope.epoch envelope + skew) <? SenderState.max_epoch state)%N then
      throw (rejected EnvelopeError.ReplayDetected)
    else if bool_decide (nonce ∈ SenderState.nonces_set state) then
      throw (rejected EnvelopeError.ReplayDetected)
    else
      let! window := gets window_size in
      let '(queue, set) := evict window (SenderState.nonces_queue state ++ [nonce])
                             (SenderState.nonces_set state ∪ {[nonce]}) in
      modify (set_sender from
        (SenderState.mk queue set
           (if (SenderState.max_epoch state <? Envelope.epoch envelope)%N then Envelope.epoch envelope
            else SenderState.max_epoch state))).
End ReplayProtection.
Notation ReplayProtection := ReplayProtection.ReplayProtection.

(** ** The reference: the whole history of admitted envelopes *)

Section reference.
Context `{TimeOps}.
Implicit Types (e : Envelope) (h : list Envelope) (trace : list (Envelope * Timestamp)).

Definition from_sender (a : AgentId) h : list Envelope := filter (λ e, Envelope.from_agent e = a) h.
Definition last_n {A} (n : nat) (l : list A) : list A := drop (length l - n) l.
Definition top_epoch h : N := foldr (λ e, N.max (Envelope.epoch e)) 0%N h.

(** The verdict on an envelope, from everything admitted before it. *)
Definition spec_admit (window : nat) (skew : N) h e now : Result unit TransportError :=
  let mine := from_sender (Envelope.from_agent e) h in
  if Envelope.is_expired_at e now then Err (ReplayProtection.rejected EnvelopeError.Expired)
  else if (u64_wrap (Envelope.epoch e + skew) <? top_epoch mine)%N
          || contains (last_n window (Envelope.nonce <$> mine)) (Envelope.nonce e)
  then Err (ReplayProtection.rejected EnvelopeError.ReplayDetected)
  else Ok tt.

(** The verdicts on a sequence of envelopes, and the envelopes admitted. *)
Fixpoint spec_run (window : nat) (skew : N) h trace : list (Result unit TransportError) * list Envelope :=
  match trace with
  | [] => ([], h)
  | (e, now) :: trace =>
      let r := spec_admit window skew h e now in
      let '(rs, h') := spec_run window skew (if is_ok r then h ++ [e] else h) trace in
      (r :: rs, h')
  end.

Fixpoint run (rp : ReplayProtection) trace : list (Result unit TransportError) :=
  match trace with
  | [] => []
  | (e, now) :: trace =>
      let '(r, rp') := ReplayProtection.admit_envelope e now rp in r :: run rp' trace
  end.

(** The envelopes a run let through, in order. *)
Definition admitted (rs : list (Result unit TransportError)) trace : list Envelope :=
  omap (λ p : Result unit TransportError * (Envelope * Timestamp),
          if is_ok p.1 then Some p.2.1 else None) (zip rs trace).
End reference.

(** ** Lemmas *)

Section lemmas.
Context `{TimeOps}.
Implicit Types (e : Envelope) (h : list Envelope) (trace : list (Envelope * Timestamp)).

Lemma last_n_app {A} n (l k : list A) : last_n n (last_n n l ++ k) = last_n n (l ++ k).
Proof.
  unfold last_n. rewrite !length_app, length_drop, drop_app, drop_app, drop_drop.
  f_equal; f_equal.
  all: rewrite ?length_drop; lia.
Qed.

Lemma last_n_elem {A} n (l : list A) i x :
  l !! i = Some x → length l ≤ i + n → x ∈ last_n n l.
Proof.
  intros Hi Hn. unfold last_n. apply list_elem_of_lookup. exists (i - (length l - n)).
  rewrite lookup_drop. by replace (length l - n + (i - (length l - n))) with i by lia.
Qed.

Lemma NoDup_last_n {A} n (l : list A) : NoDup l → NoDup (last_n n l).
Proof.
  unfold last_n. rewrite <- (take_drop (length l - n) l) at 1. by intros (_ & _ & ?)%NoDup_app.
Qed.

Lemma evict_spec w q : NoDup q →
  ReplayProtection.evict w q (list_to_set q) = (last_n w q, list_to_set (last_n w q)).
Proof.
  induction q as [|x q IH]; intros Hq; [by unfold last_n; destruct w|].
  apply NoDup_cons in Hq as [Hx Hq]. cbn [ReplayProtection.evict].
  destruct (Nat.ltb_spec w (length (x :: q))) as [Hw|Hw].
  - replace (list_to_set (x :: q) ∖ {[x]} : gset bytes) with (list_to_set q : gset bytes).
    + rewrite IH by done. unfold last_n. simpl length in *.
      by replace (S (length q) - w) with (S (length q - w)) by lia.
    + apply set_eq. intros y. rewrite elem_of_difference, list_to_set_cons, elem_of_union, elem_of_singleton.
      split; [|set_solver]. intros Hy. split; [by right|]. intros ->. by apply Hx, (elem_of_list_to_set (C:=gset bytes)).
  - unfold last_n. by replace (length (x :: q) - w) with 0 by lia.
Qed.

(** The bounded state of a sender and its full history. *)
Definition matches (w : nat) (mine : list Envelope) (st : SenderState) : Prop :=
  SenderState.nonces_queue st = last_n w (Envelope.nonce <$> mine) ∧
  NoDup (SenderState.nonces_queue st) ∧
  SenderState.nonces_set st = list_to_set (SenderState.nonces_queue st) ∧
  SenderState.max_epoch st = top_epoch mine.

Definition represents (w : nat) (skew : N) h (rp : ReplayProtection) : Prop :=
  ReplayProtection.window_size rp = w ∧ ReplayProtection.max_epoch_skew rp = skew ∧
  ∀ a, matches w (from_sender a h)
         (default SenderState.default (ReplayProtection.per_sender rp !! a)).

Lemma represents_new w skew : represents w skew [] (ReplayProtection.with_params w skew).
Proof.
  split_and!; [done..|]. intros a. simpl. rewrite lookup_empty. split_and!; try done; by constructor.
Qed.

Lemma matches_queue_bound w mine st : matches w mine st → length (SenderState.nonces_queue st) ≤ w.
Proof. intros (-> & _). unfold last_n. rewrite length_drop. lia. Qed.

Lemma from_sender_snoc_same e h :
  from_sender (Envelope.from_agent e) (h ++ [e]) = from_sender (Envelope.from_agent e) h ++ [e].
Proof. unfold from_sender. by rewrite filter_app, filter_cons_True. Qed.
Lemma from_sender_snoc_other a e h :
  Envelope.from_agent e ≠ a → from_sender a (h ++ [e]) = from_sender a h.
Proof. intros Ha. unfold from_sender. by rewrite filter_app, filter_cons_False, app_nil_r. Qed.
Lemma top_epoch_snoc e h : top_epoch (h ++ [e]) = N.max (top_epoch h) (Envelope.epoch e).
Proof. unfold top_epoch. induction h as [|x h IH]; simpl; [lia|]. rewrite IH. lia. Qed.
Lemma top_epoch_elem e h : e ∈ h → (Envelope.epoch e ≤ top_epoch h)%N.
Proof. unfold top_epoch. induction 1 as [e h|e x h _ IH]; simpl; [lia|]. lia. Qed.

(** Setting a sender to a state that matches keeps the representation. *)
Lemma represents_set w skew h h' rp a st :
  represents w skew h rp → matches w (from_sender a h') st →
  (∀ b, b ≠ a → from_sender b h' = from_sender b h) →
  represents w skew h' (ReplayProtection.set_sender a st rp).
Proof.
  intros (? & ? & Hm) Hst Hb. split_and!; [done..|]. intros b. simpl.
  destruct (decide (b = a)) as [->|]; [by rewrite lookup_insert_eq|].
  rewrite lookup_insert_ne, Hb by done. apply Hm.
Qed.

(** Admission of a nonce outside the window. *)
Lemma matches_admit w mine e st :
  matches w mine st → Envelope.nonce e ∉ SenderState.nonces_set st →
  let '(queue, set) := ReplayProtection.evict w (SenderState.nonces_queue st ++ [Envelope.nonce e])
                         (SenderState.nonces_set st ∪ {[Envelope.nonce e]}) in
  matches w (mine ++ [e])
    (SenderState.mk queue set
       (if (SenderState.max_epoch st <? Envelope.epoch e)%N then Envelope.epoch e
        else SenderState.max_epoch st)).
Proof.
  intros (Hq & Hnd & Hs & He) Hn. rewrite Hs in *.
  assert (NoDup (SenderState.nonces_queue st ++ [Envelope.nonce e])) as Hnd'.
  { apply NoDup_app. split; [done|]. split; [|apply NoDup_singleton].
    intros x Hx ->%list_elem_of_singleton. by apply Hn, elem_of_list_to_set. }
  replace (list_to_set (SenderState.nonces_queue st) ∪ {[Envelope.nonce e]} : gset bytes)
    with (list_to_set (SenderState.nonces_queue st ++ [Envelope.nonce e]) : gset bytes)
    by (rewrite list_to_set_app_L; simpl; by rewrite union_empty_r_L).
  rewrite evict_spec by done. split_and!; simpl; [|by apply NoDup_last_n|done|].
  - by rewrite Hq, last_n_app, fmap_app.
  - rewrite top_epoch_snoc, He. destruct (N.ltb_spec (top_epoch mine) (Envelope.epoch e)); lia.
Qed.

(** One admission simulates one step of the reference. *)
Lemma admit_simulates w skew h rp e now :
  represents w skew h rp →
  ∃ rp', ReplayProtection.admit_envelope e now rp = (spec_admit w skew h e now, rp') ∧
         represents w skew (if is_ok (spec_admit w skew h e now) then h ++ [e] else h) rp'.
Proof.
  intros Hr. pose proof Hr as (<- & <- & Hm). specialize (Hm (Envelope.from_agent e)).
  unfold ReplayProtection.admit_envelope, spec_admit. destruct (Envelope.is_expired_at e now); [by exists rp|].
  unfold mthen, gets, modify, throw.
  set (st := default SenderState.default (ReplayProtection.per_sender rp !! Envelope.from_agent e)) in *.
  pose proof (represents_set _ _ _ h _ (Envelope.from_agent e) st Hr Hm (λ _ _, eq_refl)) as Hr'.
  pose proof Hm as (Hq & _ & Hs & He). cbn [ReplayProtection.set_sender ReplayProtection.max_epoch_skew
    ReplayProtection.window_size] in *. rewrite <- He, <- Hq.
  destruct (u64_wrap _ <? _)%N; cbn [orb]; [by eexists|].
  replace (contains (SenderState.nonces_queue st) (Envelope.nonce e))
    with (bool_decide (Envelope.nonce e ∈ SenderState.nonces_set st))
    by (unfold contains; apply bool_decide_ext; rewrite Hs; apply elem_of_list_to_set).
  case_bool_decide as Hn; [by eexists|].
  pose proof (matches_admit _ _ e _ Hm Hn) as Hadm.
  destruct (ReplayProtection.evict _ _ _) as [q qs]. eexists. split; [done|]. cbn [is_ok].
  eapply represents_set; [exact Hr'| |].
  - by rewrite from_sender_snoc_same.
  - intros b Hb. by apply from_sender_snoc_other.
Qed.

Lemma run_simulates w skew h rp trace :
  represents w skew h rp → run rp trace = (spec_run w skew h trace).1.
Proof.
  revert h rp; induction trace as [|[e now] trace IH]; intros h rp Hr; [done|]. cbn [run spec_run].
  destruct (admit_simulates w skew h rp e now Hr) as (rp' & -> & Hr').
  rewrite (IH _ _ Hr'). by destruct (spec_run _ _ _ trace).
Qed.

Lemma spec_run_admitted w skew h trace :
  (spec_run w skew h trace).2 = h ++ admitted (spec_run w skew h trace).1 trace.
Proof.
  revert h; induction trace as [|[e now] trace IH]; intros h; [by rewrite app_nil_r|]. cbn [spec_run].
  specialize (IH (if is_ok (spec_admit w skew h e now) then h ++ [e] else h)).
  destruct (spec_run _ _ _ trace) as [rs h']. cbn [fst snd] in *. rewrite IH. unfold admitted.
  cbn [zip zip_with omap list_omap fst snd]. destruct (is_ok _); [by rewrite <- app_assoc|done].
Qed.

(** No nonce twice within the window, no epoch far behind the highest. *)
Definition fresh (w : nat) (skew : N) h : Prop :=
  ∀ a i j x y, from_sender a h !! i = Some x → from_sender a h !! j = Some y → i < j →
    (Envelope.nonce x = Envelope.nonce y → w < j - i) ∧
    (Envelope.epoch x ≤ u64_wrap (Envelope.epoch y + skew))%N.

Lemma fresh_snoc w skew h e now :
  fresh w skew h → is_ok (spec_admit w skew h e now) = true → fresh w skew (h ++ [e]).
Proof.
  intros Hf Hok a i j x y Hx Hy Hij.
  destruct (decide (Envelope.from_agent e = a)) as [<-|Hne];
    [|rewrite from_sender_snoc_other in Hx, Hy by done; by eapply Hf].
  rewrite from_sender_snoc_same in Hx, Hy.
  apply lookup_snoc_Some in Hy as [[Hj Hy]|[Hj Hy]].
  { apply lookup_snoc_Some in Hx as [[? Hx]|[? _]]; [by eapply Hf|lia]. }
  apply lookup_snoc_Some in Hx as [[Hi Hx]|[? _]]; [|lia]. subst y j.
  unfold spec_admit in Hok. destruct (Envelope.is_expired_at e now); [done|].
  set (mine := from_sender (Envelope.from_agent e) h) in *.
  destruct (N.ltb_spec (u64_wrap (Envelope.epoch e + skew)) (top_epoch mine)) as [|Hle]; [done|].
  cbn [orb] in Hok. destruct (contains _ _) eqn:Hc; [done|]. apply contains_false in Hc.
  split.
  - intros Hn. apply dec_stable. intros Hw. apply Hc. rewrite <- Hn.
    apply last_n_elem with i; [by rewrite list_lookup_fmap, Hx|]. rewrite length_fmap. lia.
  - apply list_elem_of_lookup_2, top_epoch_elem in Hx. lia.
Qed.

Lemma spec_run_fresh w skew h trace : fresh w skew h → fresh w skew (spec_run w skew h trace).2.
Proof.
  revert h; induction trace as [|[e now] trace IH]; intros h Hf; [done|]. cbn [spec_run].
  specialize (IH (if is_ok (spec_admit w skew h e now) then h ++ [e] else h)).
  destruct (spec_run _ _ _ trace) as [rs h']. apply IH.
  destruct (is_ok _) eqn:Hok; [by eapply fresh_snoc|done].
Qed.

(** ** Properties *)

(** The replay window is exact: whatever is sent, the bounded per-sender
    state gives the verdicts of a reference that remembers every envelope it
    ever admitted, refusing an expired envelope, an epoch that (after the
    wrapping addition of the skew) is below the sender's highest, and a nonce
    among the sender's last [window] admitted ones. *)
Lemma replay_refines_history (window : nat) (skew : N) (trace : list (Envelope * Timestamp)) :
  run (ReplayProtection.with_params window skew) trace = (spec_run window skew [] trace).1.
Proof. apply run_simulates, represents_new. Qed.

(** [C11] No replay: of the envelopes a replay guard lets through, two of one
    sender with the same nonce have at least [window] other envelopes of that
    sender admitted between them, and none has an epoch more than the skew
    below an earlier one of its sender. *)
Theorem no_replay_in_window (window : nat) (skew : N) (trace : list (Envelope * Timestamp))
  (sender : AgentId) (i j : nat) (x y : Envelope) :
  let through := from_sender sender
                   (admitted (run (ReplayProtection.with_params window skew) trace) trace) in
  through !! i = Some x → through !! j = Some y → i < j →
  (Envelope.nonce x = Envelope.nonce y → window < j - i) ∧
  (Envelope.epoch x ≤ u64_wrap (Envelope.epoch y + skew))%N.
Proof.
  intros through Hx Hy Hij. assert (fresh window skew []) as Hf by (by intros ? []).
  apply (spec_run_fresh window skew [] trace) in Hf. rewrite spec_run_admitted in Hf.
  simpl in Hf. rewrite <- (run_simulates _ _ _ _ trace (represents_new window skew)) in Hf.
  exact (Hf sender i j x y Hx Hy Hij).
Qed.

(** The wrap-around: once a sender has used the highest epoch, an envelope
    whose epoch is among the [skew] highest is refused, its own included. *)
Lemma top_epoch_locked_out w skew h rp e now :
  represents w skew h rp → (0 < skew ≤ u32_max)%N →
  top_epoch (from_sender (Envelope.from_agent e) h) = u64_max →
  (u64_max - skew < Envelope.epoch e ≤ u64_max)%N →
  is_ok (ReplayProtection.admit_envelope e now rp).1 = false.
Proof.
  intros Hr Hs Ht He. destruct (admit_simulates w skew h rp e now Hr) as (rp' & -> & _). simpl.
  unfold spec_admit. destruct (Envelope.is_expired_at e now); [done|]. rewrite Ht.
  unfold u64_wrap, u64_max, u32_max in *.
  destruct (N.ltb_spec ((Envelope.epoch e + skew) mod 2 ^ 64) 18446744073709551615) as [|Hle]; [done|].
  exfalso. replace (Envelope.epoch e + skew)%N
    with ((Envelope.epoch e + skew - 2 ^ 64) + 1 * 2 ^ 64)%N in Hle by lia.
  rewrite N.Div0.mod_add, N.mod_small in Hle; lia.
Qed.
End lemmas.

(** A window of one: a nonce is accepted again after one other envelope. *)
Module ReplayToy.
Definition e (n : byte) : Envelope :=
  match EnvelopeBuilder.build
          (EnvelopeBuilder.mk (Some (SpecVersion.mk "1.0.0")) (Some (SwarmId.mk [])) (Some [n])
             (Some (AgentId.mk [])) (Some (Recipient.Role "r")) (Some Performative.Inform) [] "" []
             None (Some [n]) (Some 1%N) (Some (Timestamp.mk "5" 7)) None None) with
  | Ok e => e
  | Err _ => EnvToy.envelope
  end.
Definition now : Timestamp := Timestamp.mk "6" 8.
Definition trace : list (Envelope * Timestamp) :=
  [(e Byte.x01, now); (e Byte.x01, now); (e Byte.x02, now); (e Byte.x01, now)].
Example verdicts :
  map is_ok (run (ReplayProtection.with_params 1 256) trace) = [true; false; true; true].
Proof. vm_compute. reflexivity. Qed.
End ReplayToy.

Lemma no_replay_in_window_witness :
  (Envelope.nonce (ReplayToy.e Byte.x01) = Envelope.nonce (ReplayToy.e Byte.x01) → 1 < 2 - 0) ∧
  (Envelope.epoch (ReplayToy.e Byte.x01) ≤ u64_wrap (Envelope.epoch (ReplayToy.e Byte.x01) + 256))%N.
Proof.
  apply (no_replay_in_window 1 256 ReplayToy.trace (AgentId.mk [])).
  - vm_compute. reflexivity.
  - vm_compute. reflexivity.
  - lia.
Defined.
