(* ===== verification/Tokio.v ===== *)
(** * [tokio::sync::mpsc], as the source uses it

    The bounded channel of the [tokio] crate: an interface with its documented
    behaviour as laws, and a queue that has it. *)

From S2P Require Import Prelude.

Inductive TrySendError := Full | Closed.

(** A channel of messages: creation with a capacity, [try_send], and [recv],
    which is [None] while it has to wait and [Some (None, _)] once every
    sender is gone. *)
Class Mpsc (T C : Type) := {
  mpsc_channel : nat → C;
  try_send : T → C → Result unit TrySendError * C;
  recv : C → option (option T * C)
}.

(** A FIFO queue of at most [capacity] messages.  [is_open]: the receiver and a
    sender still exist. *)
Class MpscLaws (T C : Type) `{Mpsc T C} := {
  contents : C → list T;
  capacity : C → nat;
  is_open : C → Prop;
  mpsc_channel_spec n :
    contents (mpsc_channel n) = [] ∧ capacity (mpsc_channel n) = n ∧ is_open (mpsc_channel n);
  try_send_spec e c : is_open c →
    if (length (contents c) <? capacity c)%nat
    then ∃ c', try_send e c = (Ok tt, c') ∧ contents c' = contents c ++ [e] ∧
               capacity c' = capacity c ∧ is_open c'
    else try_send e c = (Err Full, c);
  recv_spec c : is_open c →
    match contents c with
    | [] => recv c = None
    | e :: l => ∃ c', recv c = Some (Some e, c') ∧ contents c' = l ∧
                      capacity c' = capacity c ∧ is_open c'
    end
}.

Module QueueToy.
#[global] Instance mpsc T : Mpsc T (nat * list T) := {|
  mpsc_channel n := (n, []);
  try_send e c := if (length c.2 <? c.1)%nat then (Ok tt, (c.1, c.2 ++ [e])) else (Err Full, c);
  recv c := match c.2 with [] => None | e :: l => Some (Some e, (c.1, l)) end |}.
#[global] Instance mpsc_laws T : MpscLaws T (nat * list T).
Proof.
  refine (Build_MpscLaws _ _ _ (λ c, c.2) (λ c, c.1) (λ _, True) _ _ _).
  - done.
  - intros e [n l] _. simpl. destruct (_ <? _)%nat; [by eexists|done].
  - intros [n [|e l]] _; simpl; [done|by eexists].
Defined.
End QueueToy.
