(* ===== verification/Transport.v ===== *)
(** * [yutha-transport/src/memory.rs]: the in-memory transport

    [MemoryTransport] with its recipients, roles and tags, [send] to one agent,
    to a role and to the swarm, and [receive].  The bounded channel of the
    [tokio] crate is an interface ([Mpsc]) with its documented behaviour as
    laws; the receipt store is used through its contract.  Each operation is
    one step: the locks of the source are taken and released inside it. *)

From S2P Require Import Prelude RustStd Core Crypto ReceiptTypes ReceiptProto Merkle ReceiptVerify.
From S2P Require Import Tokio ReceiptStore Passport PassportStore Envelope Replay.

Module MemoryTransport.
(** Senders and receivers name their channel by its index in [channels]. *)
(* yutha-transport/src/memory.rs:34-67 MemoryTransport, Inner *)
Record MemoryTransport (C R : Type) := mk {
  inboxes : gmap AgentId nat; senders : gmap AgentId nat; channels : list C;
  roles : gmap string (gset AgentId); tags : gmap AgentId (gset string);
  replay : ReplayProtection; receipts : R }.
Arguments mk {C R} _ _ _ _ _ _ _.
Arguments inboxes {C R} _.
Arguments senders {C R} _.
Arguments channels {C R} _.
Arguments roles {C R} _.
Arguments tags {C R} _.
Arguments replay {C R} _.
Arguments receipts {C R} _.

(* yutha-transport/src/memory.rs:88-106 MemoryTransport::new *)
Definition new {C R} (receipts : R) : MemoryTransport C R := mk ∅ ∅ [] ∅ ∅ ReplayProtection.new receipts.

(* yutha-transport/src/memory.rs:206-213 MemoryTransport::recipient_kind *)
Definition recipient_kind (r : Recipient) : string :=
  match r with
  | Recipient.Agent _ => "agent" | Recipient.Role _ => "role"
  | Recipient.Swarm _ => "swarm" | Recipient.External _ => "external"
  end.

Definition string_evidence (key value : string) : Evidence :=
  Evidence.new key "type.yutha.dev/v1/String" (as_bytes value).
Definition to_agent_evidence (a : AgentId) : Evidence :=
  Evidence.new "to_agent" "type.yutha.dev/v1/AgentId" (AgentId.as_bytes a).

(* yutha-transport/src/memory.rs:285-307 broadcast_evidence *)
Definition broadcast_evidence (recipient_kind recipient_value : string) (fanout_count : N)
  : list Evidence :=
  [string_evidence "recipient_kind" recipient_kind;
   string_evidence "recipient_value" recipient_value;
   Evidence.new "fanout_count" "type.yutha.dev/v1/Long" (as_bytes (show_N fanout_count))].

Section transport.
Context `{TimeOps} `{CryptoOps} `{Encode rproto.Receipt} `{Encode eproto.Envelope}.
Context {C R : Type} `{!Mpsc Envelope C} `{!ReceiptStore R}.
Context (resolver : PassportResolver) (control_plane : ControlPlaneIdentity).
Implicit Types (s : MemoryTransport C R) (clock : nat → Timestamp) (order : gset AgentId → list AgentId).

Definition with_channels (f : list C → list C) s : MemoryTransport C R :=
  mk (inboxes s) (senders s) (f (channels s)) (roles s) (tags s) (replay s) (receipts s).

(* yutha-transport/src/memory.rs:109-115 MemoryTransport::register_recipient *)
Definition register_recipient (recipient : AgentId) s : MemoryTransport C R :=
  let id := length (channels s) in
  mk (<[recipient := id]> (inboxes s)) (<[recipient := id]> (senders s))
    (channels s ++ [mpsc_channel 64]) (roles s) (tags s) (replay s) (receipts s).
(* yutha-transport/src/memory.rs:120-124 MemoryTransport::register_role_member *)
Definition register_role_member (role : string) (agent : AgentId) s : MemoryTransport C R :=
  mk (inboxes s) (senders s) (channels s)
    (<[role := default ∅ (roles s !! role) ∪ {[agent]}]> (roles s)) (tags s) (replay s) (receipts s).
(* yutha-transport/src/memory.rs:130-133 MemoryTransport::set_agent_tags *)
Definition set_agent_tags (agent : AgentId) (l : list string) s : MemoryTransport C R :=
  mk (inboxes s) (senders s) (channels s) (roles s) (<[agent := list_to_set l]> (tags s))
    (replay s) (receipts s).

Definition on_replay {A} (m : M ReplayProtection TransportError A)
  : M (MemoryTransport C R) TransportError A :=
  zoom replay (λ rp s, mk (inboxes s) (senders s) (channels s) (roles s) (tags s) rp (receipts s)) m.
Definition on_receipts {A} (m : M R ReceiptError A) : M (MemoryTransport C R) TransportError A :=
  m_map_err TransportError.Receipt
    (zoom receipts (λ r s, mk (inboxes s) (senders s) (channels s) (roles s) (tags s) (replay s) r) m).

(* yutha-transport/src/memory.rs:145-162 MemoryTransport::record (evidence) *)
Definition record_evidence (envelope : Envelope) (envelope_hash : Hash) (extra : list Evidence)
  : list Evidence :=
  [Evidence.new "envelope_id" "type.yutha.dev/v1/Bytes" (Envelope.envelope_id envelope);
   Evidence.new "envelope_hash" "type.yutha.dev/v1/Hash" (Hash.digest envelope_hash);
   Evidence.new "from_agent" "type.yutha.dev/v1/AgentId" (AgentId.as_bytes (Envelope.from_agent envelope))]
  ++ extra.

(* yutha-transport/src/memory.rs:138-204 MemoryTransport::record *)
Definition record clock (action_kind : string) (envelope : Envelope) (extra_evidence : list Evidence)
  : M (MemoryTransport C R) TransportError Hash :=
  let! envelope_hash := lift (map_err TransportError.Crypto (content_address envelope)) in
  let! receipt := lift (control_plane_receipt
      (λ e, TransportError.Backend ("spec version parse: " +:+ CoreError.to_string e))
      (λ e, TransportError.Backend ("build receipt: " +:+ e))
      TransportError.Crypto
      (λ e, TransportError.Backend ("signer: " +:+ SignerError.to_string e))
      control_plane clock (Envelope.swarm_id envelope) action_kind ""
      (record_evidence envelope envelope_hash extra_evidence)) in
  let! outcome := on_receipts (append receipt AppendOptions.default resolver) in
  mret (AppendOutcome.receipt_id outcome).

(** [tx.try_send(envelope)] on a channel of the heap. *)
Definition try_send_to (closed : TransportError) (id : nat) (envelope : Envelope)
  : M (MemoryTransport C R) TransportError unit :=
  λ s, match channels s !! id with
       | None => (Err closed, s)
       | Some c =>
           let '(r, c') := try_send envelope c in
           (map_err (λ e, match e with Full => TransportError.Backpressure | Closed => closed end) r,
            with_channels (<[id := c']>) s)
       end.

(** The iteration order of a hash set or of the keys of a hash map is an
    argument. *)
(* yutha-transport/src/memory.rs:219-225 MemoryTransport::role_members *)
Definition role_members order (role : string) s : list AgentId :=
  default [] (order <$> roles s !! role).
(* yutha-transport/src/memory.rs:231-248 MemoryTransport::swarm_targets *)
Definition swarm_targets order (filter_tags : list string) s : list AgentId :=
  let keys := order (dom (senders s)) in
  match filter_tags with
  | [] => keys
  | _ =>
      List.filter (λ agent,
        match tags s !! agent with
        | None => false
        | Some agent_tags => forallb (λ t, bool_decide (t ∈ agent_tags)) filter_tags
        end) keys
  end.

(* yutha-transport/src/memory.rs:258-279 MemoryTransport::fanout_to *)
Fixpoint fanout_to (targets : list AgentId) (envelope : Envelope) (label : string) (delivered : N)
  : M (MemoryTransport C R) TransportError N :=
  match targets with
  | [] => mret delivered
  | agent :: targets =>
      let! tx := gets (λ s, senders s !! agent) in
      match tx with
      | None => fanout_to targets envelope label delivered
      | Some id =>
          do! try_send_to (TransportError.Delivery
                (label +:+ " fanout: recipient " +:+ AgentId.to_string agent +:+ " channel closed"))
                id envelope in
          fanout_to targets envelope label (delivered + 1)
      end
  end.

Definition swarm_scope (filter_tags : list string) : string :=
  match filter_tags with [] => "*" | _ => str_join "," filter_tags end.

Definition not_registered (a : AgentId) : TransportError :=
  TransportError.Delivery ("recipient not registered: " +:+ AgentId.to_string a).

(* yutha-transport/src/memory.rs:311-401 MemoryTransport::send *)
Definition send order clock (envelope : Envelope) : M (MemoryTransport C R) TransportError Hash :=
  do! on_replay (ReplayProtection.admit_envelope envelope (clock 0)) in
  let kind := recipient_kind (Envelope.recipient envelope) in
  let record_send := record (λ n, clock (S n)) "envelope.send" envelope in
  match Envelope.recipient envelope with
  | Recipient.Agent id =>
      let! o := gets (λ s, senders s !! id) in
      let! tx := lift (ok_or o (not_registered id)) in
      do! try_send_to (TransportError.Delivery "recipient channel closed") tx envelope in
      record_send [to_agent_evidence id; string_evidence "recipient_kind" kind]
  | Recipient.Role role =>
      let! targets := gets (role_members order role) in
      let! fanout_count := fanout_to targets envelope "Role" 0 in
      record_send (broadcast_evidence kind role fanout_count)
  | Recipient.Swarm b =>
      let! targets := gets (swarm_targets order (Recipient.filter_tags b)) in
      let! fanout_count := fanout_to targets envelope "Swarm" 0 in
      record_send (broadcast_evidence kind (swarm_scope (Recipient.filter_tags b)) fanout_count)
  | Recipient.External _ =>
      throw (TransportError.Backend "External endpoints not implemented in MemoryTransport")
  end.

(** [None]: the call waits for a message. *)
(* yutha-transport/src/memory.rs:403-426 MemoryTransport::receive *)
Definition receive clock (recipient : AgentId) s
  : option (Result Envelope TransportError * MemoryTransport C R) :=
  match inboxes s !! recipient with
  | None => Some (Err (not_registered recipient), s)
  | Some id =>
      match channels s !! id with
      | None => Some (Err (TransportError.Delivery "inbox closed"), s)
      | Some c =>
          match recv c with
          | None => None
          | Some (None, c') =>
              Some (Err (TransportError.Delivery "inbox closed"), with_channels (<[id := c']>) s)
          | Some (Some envelope, c') =>
              Some ((do! record clock "envelope.deliver" envelope [to_agent_evidence recipient] in
                     mret envelope) (with_channels (<[id := c']>) s))
          end
      end
  end.
End transport.
End MemoryTransport.
Notation MemoryTransport := MemoryTransport.MemoryTransport.
Export MemoryTransport (inboxes, senders, channels, receipts).

(** ** The invariant and the effect of each operation *)

Section proofs.
Context `{TimeOps} `{CryptoOps} `{Encode rproto.Receipt} `{Encode eproto.Envelope}.
Context {C R : Type} `{!Mpsc Envelope C} `{!MpscLaws Envelope C} `{!ReceiptStore R} `{!ReceiptStoreLaws R}.
Context (resolver : PassportResolver) (control_plane : ControlPlaneIdentity).
Implicit Types (s : MemoryTransport C R) (clock : nat → Timestamp) (order : gset AgentId → list AgentId).
Implicit Types (e : Envelope) (T : gset AgentId).

(** The messages waiting for an agent; [None] if it is not registered. *)
Definition inbox s (a : AgentId) : option (list Envelope) :=
  id ← inboxes s !! a; contents <$> channels s !! id.

(** Every registered agent has a channel of its own, open and within its
    bound, known to senders and receivers alike. *)
Definition transport_inv s : Prop :=
  senders s = inboxes s ∧
  (∀ a b id, senders s !! a = Some id → senders s !! b = Some id → a = b) ∧
  (∀ a id, senders s !! a = Some id →
     ∃ c, channels s !! id = Some c ∧ is_open c ∧ capacity c = 64 ∧ length (contents c) ≤ 64) ∧
  store_inv (receipts s).

(** [e] was put at the end of the inboxes of [T] and nowhere else. *)
Definition delivered_to T e s s' : Prop :=
  ∀ a, inbox s' a = if decide (a ∈ T) then (λ q, q ++ [e]) <$> inbox s a else inbox s a.

(** Everything but the queues is as before. *)
Definition frame s s' : Prop :=
  inboxes s' = inboxes s ∧ senders s' = senders s ∧ MemoryTransport.roles s' = MemoryTransport.roles s ∧
  MemoryTransport.tags s' = MemoryTransport.tags s ∧ MemoryTransport.replay s' = MemoryTransport.replay s ∧
  receipts s' = receipts s.

Lemma frame_refl s : frame s s.
Proof. done. Qed.
Lemma frame_trans s1 s2 s3 : frame s1 s2 → frame s2 s3 → frame s1 s3.
Proof. unfold frame. intros (->&->&->&->&->&->) (->&->&->&->&->&->). done. Qed.
Lemma delivered_nobody e s : delivered_to ∅ e s s.
Proof. intros a. by rewrite decide_False by set_solver. Qed.
Lemma delivered_trans T1 T2 e s1 s2 s3 :
  T1 ## T2 → delivered_to T1 e s1 s2 → delivered_to T2 e s2 s3 → delivered_to (T1 ∪ T2) e s1 s3.
Proof.
  intros Hd H12 H23 a. rewrite (H23 a), (H12 a).
  destruct (decide (a ∈ T2)), (decide (a ∈ T1)), (decide (a ∈ T1 ∪ T2)); set_solver.
Qed.

Lemma inbox_registered s a : transport_inv s → is_Some (senders s !! a) → is_Some (inbox s a).
Proof.
  intros (Heq & _ & Hc & _) [id Hid]. destruct (Hc _ _ Hid) as (c & Hch & _).
  unfold inbox. rewrite <- Heq, Hid. simpl. rewrite Hch. by eexists.
Qed.

(** Replacing the channel of one agent. *)
Lemma with_channel s a id c c' :
  transport_inv s → senders s !! a = Some id → channels s !! id = Some c →
  is_open c' → capacity c' = 64 → length (contents c') ≤ 64 →
  let s' := MemoryTransport.with_channels (<[id := c']>) s in
  transport_inv s' ∧ frame s s' ∧
  ∀ b, inbox s' b = if decide (b = a) then Some (contents c') else inbox s b.
Proof.
  intros (Heq & Hinj & Hc & Hst) Hid Hch Ho Hcap Hlen s'.
  pose proof (lookup_lt_Some _ _ _ Hch) as Hlt.
  split; [|split; [done|]].
  - split_and!; simpl; try done. intros b id' Hb. destruct (decide (id' = id)) as [->|Hne].
    + exists c'. rewrite list_lookup_insert_eq by done. done.
    + rewrite list_lookup_insert_ne by done. eauto.
  - intros b. unfold inbox. simpl. rewrite <- Heq. case_decide as Hb.
    + subst b. rewrite Hid. simpl. by rewrite list_lookup_insert_eq by done.
    + destruct (senders s !! b) as [id'|] eqn:Hid'; simpl; [|done].
      rewrite list_lookup_insert_ne; [done|]. intros <-. by apply Hb, (Hinj _ _ id).
Qed.

Lemma try_send_to_spec closed a id e s :
  transport_inv s → senders s !! a = Some id →
  ∃ r s', MemoryTransport.try_send_to closed id e s = (r, s') ∧ transport_inv s' ∧ frame s s' ∧
    match r with
    | Ok _ => delivered_to {[a]} e s s'
    | Err x => x = TransportError.Backpressure ∧ delivered_to ∅ e s s'
    end.
Proof.
  intros Hinv Hid. pose proof Hinv as (Heq & _ & Hc & _). destruct (Hc _ _ Hid) as (c & Hch & Ho & Hcap & Hlen).
  unfold MemoryTransport.try_send_to. rewrite Hch.
  pose proof (try_send_spec e c Ho) as Hs. rewrite Hcap in Hs.
  destruct (Nat.ltb_spec (length (contents c)) 64) as [Hlt|Hge].
  - destruct Hs as (c' & -> & Hcont & Hcap' & Ho'). do 2 eexists. split; [done|].
    destruct (with_channel s a id c c' Hinv Hid Hch Ho') as (Hinv' & Hf & Hi);
      [congruence|rewrite Hcont, length_app; simpl; lia|].
    split; [done|]. split; [done|]. intros b. rewrite Hi.
    destruct (decide (b = a)) as [->|Hb]; [|by rewrite decide_False by set_solver].
    rewrite decide_True by set_solver.
    unfold inbox. rewrite <- Heq, Hid. simpl. by rewrite Hch, Hcont.
  - rewrite Hs. do 2 eexists. split; [done|].
    destruct (with_channel s a id c c Hinv Hid Hch Ho Hcap Hlen) as (Hinv' & Hf & Hi).
    split; [done|]. split; [done|]. split; [done|]. intros b. rewrite Hi.
    rewrite (decide_False (P:=b ∈ (∅:gset AgentId))) by set_solver.
    destruct (decide (b = a)) as [->|]; [|done]. unfold inbox. rewrite <- Heq, Hid. simpl. by rewrite Hch.
Qed.

(** The targets of a fan-out that are registered. *)
Definition live_targets s (l : list AgentId) : gset AgentId := list_to_set l ∩ dom (senders s).

Lemma fanout_to_spec l e label n s : NoDup l → transport_inv s →
  ∃ r s' T, MemoryTransport.fanout_to l e label n s = (r, s') ∧ transport_inv s' ∧ frame s s' ∧
    delivered_to T e s s' ∧ T ⊆ live_targets s l ∧
    match r with
    | Ok m => T = live_targets s l ∧ m = (n + N.of_nat (size (live_targets s l)))%N
    | Err x => x = TransportError.Backpressure
    end.
Proof.
  intros Hl. revert n s; induction Hl as [|a l Ha Hl IH]; intros n s Hinv.
  - exists (Ok n), s, ∅. assert (live_targets s [] = ∅) as -> by (unfold live_targets; set_solver).
    rewrite size_empty. split_and!; try done; try apply delivered_nobody; lia.
  - cbn [MemoryTransport.fanout_to]. unfold mthen at 1, gets at 1.
    assert (∀ s', senders s' = senders s → live_targets s' l = live_targets s l) as Hlive
      by (unfold live_targets; by intros s' ->).
    destruct (senders s !! a) as [id|] eqn:Hid.
    + assert (live_targets s (a :: l) = {[a]} ∪ live_targets s l) as ->.
      { unfold live_targets. apply set_eq. intros x. apply elem_of_dom_2 in Hid. set_solver. }
      assert (a ∉ live_targets s l) as Hnot by (unfold live_targets; set_solver).
      unfold mthen at 1.
      destruct (try_send_to_spec (TransportError.Delivery (label +:+ " fanout: recipient " +:+
        AgentId.to_string a +:+ " channel closed")) a id e s Hinv Hid)
        as (r1 & s1 & -> & Hinv1 & Hf1 & Hd1).
      destruct r1 as [[]|x]; [|destruct Hd1 as [-> Hd1]; eexists _, s1, ∅; split_and!; [done..|set_solver|done]].
      destruct (IH (n + 1)%N s1 Hinv1) as (r & s' & T & -> & Hinv' & Hf' & Hd & HT & Hr).
      rewrite Hlive in HT, Hr by apply Hf1.
      exists r, s', ({[a]} ∪ T). split_and!; [done|done|by eapply frame_trans| |set_solver|].
      { eapply delivered_trans; [|done..]. set_solver. }
      destruct r; [|done]. destruct Hr as [-> ->]. split; [done|].
      rewrite size_union by set_solver. rewrite size_singleton. lia.
    + assert (live_targets s (a :: l) = live_targets s l) as ->.
      { unfold live_targets. apply set_eq. intros x. apply not_elem_of_dom in Hid. set_solver. }
      by apply IH.
Qed.

(** A receipt of the control plane about [e] is in the log under [h]. *)
Definition logged s (h : Hash) (kind : string) e (extra : list Evidence) : Prop :=
  ∃ rc, h = receipt_id rc ∧ is_Some (view (receipts s) !! h) ∧ Receipt.action_kind rc = kind ∧
        Receipt.actor rc = ControlPlaneIdentity.agent_id control_plane ∧
        Receipt.swarm_id rc = Envelope.swarm_id e ∧
        Receipt.evidence rc =
          MemoryTransport.record_evidence e (sha256 (encode_to_vec (envelope_canonical_proto e))) extra.

(** Recording changes the log only. *)
Lemma record_spec clock kind e extra s r s' :
  transport_inv s → MemoryTransport.record resolver control_plane clock kind e extra s = (r, s') →
  transport_inv s' ∧ (∀ a, inbox s' a = inbox s a) ∧ MemoryTransport.replay s' = MemoryTransport.replay s ∧
  match r with
  | Ok h => logged s' h kind e extra ∧ view (receipts s) ⊆ view (receipts s')
  | Err _ => view (receipts s') = view (receipts s)
  end.
Proof.
  intros Hinv. unfold MemoryTransport.record, content_address, canonical_bytes, Envelope_canonical.
  unfold mthen at 1, lift at 1. cbn [rbind map_err]. unfold mthen at 1, lift at 1.
  rewrite control_plane_receipt_eq. cbv zeta.
  destruct (ControlPlaneIdentity.sign _ _) as [sig|err]; [|by intros [= <- <-]]. cbn [rbind map_err].
  set (rc := Receipt.with_signatures _ _).
  unfold mthen, MemoryTransport.on_receipts, m_map_err, zoom, mret.
  pose proof Hinv as (Heq & Hinj & Hc & Hst).
  pose proof (append_inv rc AppendOptions.default resolver _ Hst) as Hst'.
  pose proof (append_monotone rc AppendOptions.default resolver _ Hst) as Hmono.
  destruct (append rc AppendOptions.default resolver (receipts s)) as [[out|err] rs] eqn:Ha;
    intros [= <- <-]; cbn [snd] in *; split_and!; try done.
  - apply append_Ok in Ha as (_ & Hid & Hk); [|done]. exists rc. rewrite Hid. split_and!; try done.
    cbn [receipts]. destruct (AppendOutcome.kind out); destruct Hk as [Hp Hv]; rewrite Hv; [|done].
    by rewrite lookup_insert_eq.
  - cbn [receipts]. by apply append_Err in Ha as [-> _].
Qed.

(** Who an envelope is for, among the registered agents. *)
Definition addressed s (r : Recipient) : gset AgentId :=
  match r with
  | Recipient.Agent a => {[a]} ∩ dom (senders s)
  | Recipient.Role role => default ∅ (MemoryTransport.roles s !! role) ∩ dom (senders s)
  | Recipient.Swarm b =>
      filter (λ a, list_to_set (Recipient.filter_tags b) ⊆ default ∅ (MemoryTransport.tags s !! a))
        (dom (senders s))
  | Recipient.External _ => ∅
  end.

(** What the receipt of a send says besides the envelope. *)
Definition send_evidence s e : list Evidence :=
  let kind := MemoryTransport.recipient_kind (Envelope.recipient e) in
  let count := N.of_nat (size (addressed s (Envelope.recipient e))) in
  match Envelope.recipient e with
  | Recipient.Agent a =>
      [MemoryTransport.to_agent_evidence a; MemoryTransport.string_evidence "recipient_kind" kind]
  | Recipient.Role role => MemoryTransport.broadcast_evidence kind role count
  | Recipient.Swarm b =>
      MemoryTransport.broadcast_evidence kind (MemoryTransport.swarm_scope (Recipient.filter_tags b)) count
  | Recipient.External _ => []
  end.

Definition iterates order : Prop := ∀ X, order X ≡ₚ elements X.

Lemma iterates_NoDup order X : iterates order → NoDup (order X).
Proof. intros Ho. rewrite (Ho X). apply NoDup_elements. Qed.
Lemma iterates_set order X : iterates order → list_to_set (order X) = X.
Proof. intros Ho. apply set_eq. intros x. rewrite elem_of_list_to_set, (Ho X). apply elem_of_elements. Qed.

Lemma role_targets order role s : iterates order →
  NoDup (MemoryTransport.role_members order role s) ∧
  live_targets s (MemoryTransport.role_members order role s) = addressed s (Recipient.Role role).
Proof.
  intros Ho. unfold MemoryTransport.role_members, live_targets. simpl.
  destruct (MemoryTransport.roles s !! role) as [X|]; simpl; [|split; [constructor|done]].
  split; [by apply iterates_NoDup|]. by rewrite iterates_set.
Qed.

Lemma swarm_targets_spec order b s : iterates order →
  NoDup (MemoryTransport.swarm_targets order (Recipient.filter_tags b) s) ∧
  live_targets s (MemoryTransport.swarm_targets order (Recipient.filter_tags b) s)
    = addressed s (Recipient.Swarm b).
Proof.
  intros Ho. unfold MemoryTransport.swarm_targets, live_targets. simpl.
  pose proof (iterates_NoDup order (dom (senders s)) Ho) as Hnd.
  pose proof (iterates_set order (dom (senders s)) Ho) as Hset.
  destruct (Recipient.filter_tags b) as [|t ts]; [|].
  { split; [done|]. rewrite Hset. apply set_eq. intros a.
    rewrite elem_of_intersection, elem_of_filter. pose proof (empty_subseteq (C:=gset string)). naive_solver. }
  split; [by apply NoDup_ListNoDup, List.NoDup_filter, NoDup_ListNoDup|].
  apply set_eq. intros a. rewrite elem_of_intersection, elem_of_filter, elem_of_list_to_set.
  rewrite list_elem_of_In, List.filter_In, <- list_elem_of_In.
  assert (a ∈ order (dom (senders s)) ↔ a ∈ dom (senders s)) as ->
    by (rewrite <- Hset at 2; by rewrite elem_of_list_to_set).
  enough (match MemoryTransport.tags s !! a with
          | Some agent_tags => forallb (λ t0, bool_decide (t0 ∈ agent_tags)) (t :: ts)
          | None => false
          end = true ↔ list_to_set (t :: ts) ⊆ default ∅ (MemoryTransport.tags s !! a)) as ->
    by naive_solver.
  destruct (MemoryTransport.tags s !! a) as [X|]; cbn [from_option].
  - rewrite forallb_True_elem. setoid_rewrite bool_decide_eq_true. unfold id.
    split; intros Hall x Hx; [apply elem_of_list_to_set in Hx|]; apply Hall; [done|].
    by apply elem_of_list_to_set.
  - split; [done|]. intros Hsub. specialize (Hsub t). rewrite elem_of_list_to_set in Hsub.
    destruct (not_elem_of_empty (C:=gset string) t). apply Hsub, list_elem_of_here.
Qed.

(** The state after the replay guard answered. *)
Definition with_replay (rp : ReplayProtection) s : MemoryTransport C R :=
  MemoryTransport.mk (inboxes s) (senders s) (channels s) (MemoryTransport.roles s)
    (MemoryTransport.tags s) rp (receipts s).

(** The effect of the part of [send] that follows the guard. *)
Definition dispatched s e (r : Result Hash TransportError) s' : Prop :=
  transport_inv s' ∧ MemoryTransport.replay s' = MemoryTransport.replay s ∧
  match r with
  | Ok h =>
      delivered_to (addressed s (Envelope.recipient e)) e s s' ∧
      logged s' h "envelope.send" e (send_evidence s e) ∧ view (receipts s) ⊆ view (receipts s')
  | Err _ =>
      (∃ T, T ⊆ addressed s (Envelope.recipient e) ∧ delivered_to T e s s') ∧
      view (receipts s') = view (receipts s)
  end.

Lemma dispatched_nothing s e err : transport_inv s → dispatched s e (Err err) s.
Proof.
  intros Hinv. split_and!; try done. exists ∅. split; [apply empty_subseteq|apply delivered_nobody].
Qed.

(** A delivery, then the receipt. *)
Lemma dispatched_record s s1 e clock r s' :
  transport_inv s1 → frame s s1 → delivered_to (addressed s (Envelope.recipient e)) e s s1 →
  MemoryTransport.record resolver control_plane clock "envelope.send" e (send_evidence s e) s1 = (r, s') →
  dispatched s e r s'.
Proof.
  intros Hinv (_ & _ & _ & _ & Hrp & Hrc) Hd Hrun. apply record_spec in Hrun as (Hinv' & Hi & Hrp' & Hr); [|done].
  rewrite Hrc in Hr. split; [done|]. split; [congruence|].
  assert (delivered_to (addressed s (Envelope.recipient e)) e s s') by (intros a; by rewrite Hi).
  destruct r; [done|]. split; [by eexists|done].
Qed.

Lemma dispatched_failed s s1 e err T :
  transport_inv s1 → frame s s1 → T ⊆ addressed s (Envelope.recipient e) → delivered_to T e s s1 →
  dispatched s e (Err err) s1.
Proof. intros Hinv (_ & _ & _ & _ & Hrp & Hrc) HT Hd. split_and!; [done..|by exists T|by rewrite Hrc]. Qed.

(** The fan-out of a role or swarm broadcast, then the receipt. *)
Lemma dispatched_fanout s e clock l label extra r s' :
  transport_inv s → NoDup l → live_targets s l = addressed s (Envelope.recipient e) →
  (∀ m, m = N.of_nat (size (addressed s (Envelope.recipient e))) → extra m = send_evidence s e) →
  (let! fanout_count := MemoryTransport.fanout_to l e label 0 in
   MemoryTransport.record resolver control_plane clock "envelope.send" e (extra fanout_count)) s = (r, s') →
  dispatched s e r s'.
Proof.
  intros Hinv Hnd Hlive Hex. unfold mthen.
  destruct (fanout_to_spec l e label 0 s Hnd Hinv) as (r1 & s1 & T & -> & Hinv1 & Hf & Hd & HT & Hr).
  rewrite Hlive in *. destruct r1 as [m|err].
  - destruct Hr as [-> ->]. rewrite Hex by done. by apply dispatched_record.
  - intros [= <- <-]. by eapply dispatched_failed.
Qed.

Lemma send_dispatch order clock e s r s' :
  iterates order → transport_inv s →
  MemoryTransport.send resolver control_plane order clock e s = (r, s') →
  let '(verdict, rp) := ReplayProtection.admit_envelope e (clock 0) (MemoryTransport.replay s) in
  match verdict with
  | Ok _ => dispatched (with_replay rp s) e r s'
  | Err err => r = Err err ∧ s' = with_replay rp s
  end.
Proof.
  intros Ho Hinv. unfold MemoryTransport.send. unfold mthen at 1, MemoryTransport.on_replay, zoom.
  destruct (ReplayProtection.admit_envelope _ _ _) as [[[]|err] rp]; [|by intros [= <- <-]]. cbv zeta.
  change (MemoryTransport.mk _ _ _ _ _ rp _) with (with_replay rp s).
  assert (transport_inv (with_replay rp s)) as Hinv1 by exact Hinv. revert Hinv1. clear Hinv.
  generalize (with_replay rp s) as s1. clear s. intros s Hinv.
  destruct (Envelope.recipient e) as [a|role|b|x] eqn:He.
  - unfold mthen at 1, gets at 1. unfold mthen at 1, lift at 1.
    destruct (senders s !! a) as [id|] eqn:Hid; cbn [ok_or];
      [|intros [= <- <-]; by apply dispatched_nothing].
    unfold mthen at 1.
    destruct (try_send_to_spec (TransportError.Delivery "recipient channel closed") a id e s Hinv Hid)
      as (r1 & s1 & -> & Hinv1 & Hf1 & Hd1).
    destruct r1 as [[]|err].
    + assert (addressed s (Envelope.recipient e) = {[a]}) as Hadd.
      { rewrite He. simpl. apply elem_of_dom_2 in Hid. set_solver. }
      intros Hrun. apply dispatched_record with s1 (λ n, clock (S n)); [done|done|by rewrite Hadd|].
      unfold send_evidence. by rewrite He.
    + destruct Hd1 as [-> Hd1]. intros [= <- <-].
      eapply dispatched_failed; [done|done|apply empty_subseteq|done].
  - unfold mthen at 1, gets at 1. destruct (role_targets order role s Ho) as [Hnd Hlive].
    apply dispatched_fanout; [done|done|by rewrite He|].
    intros m ->. unfold send_evidence. by rewrite He.
  - unfold mthen at 1, gets at 1. destruct (swarm_targets_spec order b s Ho) as [Hnd Hlive].
    apply dispatched_fanout; [done|done|by rewrite He|].
    intros m ->. unfold send_evidence. by rewrite He.
  - intros [= <- <-]. by apply dispatched_nothing.
Qed.

Lemma receive_spec clock a s :
  transport_inv s →
  match MemoryTransport.receive resolver control_plane clock a s with
  | None => inbox s a = Some []
  | Some (r, s') =>
      transport_inv s' ∧ MemoryTransport.replay s' = MemoryTransport.replay s ∧
      (inbox s a = None ∧ s' = s ∧ r = Err (MemoryTransport.not_registered a) ∨
       ∃ e l, inbox s a = Some (e :: l) ∧
         (∀ b, inbox s' b = if decide (b = a) then Some l else inbox s b) ∧
         match r with
         | Ok e' => e' = e ∧ view (receipts s) ⊆ view (receipts s') ∧
                    ∃ h, logged s' h "envelope.deliver" e [MemoryTransport.to_agent_evidence a]
         | Err _ => view (receipts s') = view (receipts s)
         end)
  end.
Proof.
  intros Hinv. pose proof Hinv as (Heq & _ & Hc & _). unfold MemoryTransport.receive.
  destruct (inboxes s !! a) as [id|] eqn:Hid.
  2:{ split; [done|]. split; [done|]. left. unfold inbox. by rewrite Hid. }
  rewrite <- Heq in Hid. destruct (Hc _ _ Hid) as (c & Hch & Hop & Hcap & Hlen). rewrite Hch.
  assert (inbox s a = Some (contents c)) as Hin by (unfold inbox; rewrite <- Heq, Hid; simpl; by rewrite Hch).
  pose proof (recv_spec c Hop) as Hrecv. destruct (contents c) as [|e l] eqn:Hcont; [by rewrite Hrecv|].
  destruct Hrecv as (c' & -> & Hl & Hcap' & Hop').
  destruct (with_channel s a id c c' Hinv Hid Hch Hop') as (Hinv1 & Hf1 & Hi1);
    [congruence|rewrite Hl; simpl in Hlen; lia|].
  set (s1 := MemoryTransport.with_channels _ s) in *. unfold mthen, mret.
  destruct (MemoryTransport.record resolver control_plane clock "envelope.deliver" e
    [MemoryTransport.to_agent_evidence a] s1) as [r s'] eqn:Hrec.
  apply record_spec in Hrec as (Hinv' & Hi' & Hrp & Hr); [|done].
  assert (∀ b, inbox s' b = if decide (b = a) then Some l else inbox s b) as Hbox
    by (intros b; rewrite Hi', Hi1, Hl; done).
  destruct r as [h|err]; (split; [done|]; split; [by rewrite Hrp|]; right; exists e, l; split_and!; try done).
  - by destruct Hr.
  - exists h. by destruct Hr.
Qed.

(** ** Reachable states *)

Inductive reachable : MemoryTransport C R → Prop :=
| reachable_new rs : store_inv rs → reachable (MemoryTransport.new rs)
| reachable_register a s : reachable s → reachable (MemoryTransport.register_recipient a s)
| reachable_role role a s : reachable s → reachable (MemoryTransport.register_role_member role a s)
| reachable_tags a ts s : reachable s → reachable (MemoryTransport.set_agent_tags a ts s)
| reachable_send order clock e s r s' :
    reachable s → iterates order →
    MemoryTransport.send resolver control_plane order clock e s = (r, s') → reachable s'
| reachable_receive clock a s r s' :
    reachable s → MemoryTransport.receive resolver control_plane clock a s = Some (r, s') → reachable s'.

Definition replay_inv (rp : ReplayProtection) : Prop := ∃ h, represents 1024 256 h rp.

Lemma register_inv a s : transport_inv s → transport_inv (MemoryTransport.register_recipient a s).
Proof.
  intros (Heq & Hinj & Hc & Hst). pose proof (mpsc_channel_spec (C:=C) 64) as (Hcont & Hcap & Hop).
  assert (∀ b id, senders s !! b = Some id → id < length (channels s)) as Hlt.
  { intros b id Hb. destruct (Hc _ _ Hb) as (c & Hch & _). by eapply lookup_lt_Some. }
  split_and!; simpl; [by rewrite Heq| | |done].
  - intros x y id [[<- <-]|[Hx Hx']]%lookup_insert_Some [[<- Hy]|[Hy Hy']]%lookup_insert_Some; try done.
    + apply Hlt in Hy'. lia.
    + subst id. apply Hlt in Hx'. lia.
    + by eapply Hinj.
  - intros b id [[<- <-]|[_ Hb]]%lookup_insert_Some.
    + exists (mpsc_channel 64). rewrite lookup_app_r, Nat.sub_diag by lia. simpl. rewrite Hcont.
      split_and!; [done..|simpl; lia].
    + rewrite lookup_app_l by eauto. eauto.
Qed.

Lemma reachable_inv s :
  reachable s → transport_inv s ∧ replay_inv (MemoryTransport.replay s).
Proof.
  induction 1 as [rs Hrs|a s _ [IH IHr]|role a s _ [IH IHr]|a ts s _ [IH IHr]
                 |order clock e s r s' _ [IH IHr] Ho Hs|clock a s r s' _ [IH IHr] Hr].
  - split; [split_and!; try done; by intros ?|]. exists []. apply represents_new.
  - split; [by apply register_inv|done].
  - split; [exact IH|done].
  - split; [exact IH|done].
  - apply send_dispatch in Hs; [|done..]. destruct IHr as [h Hh].
    destruct (admit_simulates _ _ _ _ e (clock 0) Hh) as (rp' & Hadm & Hh'). rewrite Hadm in Hs.
    destruct (spec_admit _ _ _ _ _).
    + destruct Hs as (? & -> & _). split; [done|]. by eexists.
    + destruct Hs as [_ ->]. split; [exact IH|]. by eexists.
  - pose proof (receive_spec clock a s IH) as Hsp. rewrite Hr in Hsp.
    destruct Hsp as (? & Hrp & _). split; [done|]. by rewrite Hrp.
Qed.

(** What the guard refused once it refuses again. *)
Lemma admit_once e e' now now' rp rp1 :
  replay_inv rp → ReplayProtection.admit_envelope e now rp = (Ok tt, rp1) →
  Envelope.from_agent e' = Envelope.from_agent e → Envelope.nonce e' = Envelope.nonce e →
  is_ok (ReplayProtection.admit_envelope e' now' rp1).1 = false.
Proof.
  intros [h Hh] Ha Hfrom Hn. destruct (admit_simulates _ _ _ _ e now Hh) as (rp' & Hadm & Hh').
  rewrite Ha in Hadm. injection Hadm as Hok <-. rewrite <- Hok in Hh'. cbn [is_ok] in Hh'.
  destruct (admit_simulates _ _ _ _ e' now' Hh') as (rp' & -> & _). simpl. unfold spec_admit.
  destruct (Envelope.is_expired_at e' now'); [done|].
  rewrite Hfrom, from_sender_snoc_same, (proj2 (contains_true _ _)); [by rewrite orb_true_r|].
  rewrite Hn, fmap_app. apply last_n_elem with (length (from_sender (Envelope.from_agent e) h)).
  - rewrite lookup_app_r, length_fmap, Nat.sub_diag by (rewrite length_fmap; lia). done.
  - rewrite length_app, length_fmap. simpl. lia.
Qed.

(** ** Properties *)

(** [C10] Sending, from every reachable state, on any receipt store and channel
    that keep their contracts and for any iteration order of the hash sets.
    A successful send was let through by the replay guard, put the envelope at
    the end of the inbox of every registered addressee (the agent, the members
    of the role, the agents holding all the tags) exactly once and nowhere
    else, and its [envelope.send] receipt, with the number of recipients, is in
    the log under the returned id.  A failed one reached no one but addressees,
    at most once each, and left the log as it was. *)
Theorem send_exact order clock e s r s' :
  reachable s → iterates order →
  MemoryTransport.send resolver control_plane order clock e s = (r, s') →
  match r with
  | Ok h =>
      (ReplayProtection.admit_envelope e (clock 0) (MemoryTransport.replay s)).1 = Ok tt ∧
      delivered_to (addressed s (Envelope.recipient e)) e s s' ∧
      logged s' h "envelope.send" e (send_evidence s e) ∧ view (receipts s) ⊆ view (receipts s')
  | Err _ =>
      (∃ T, T ⊆ addressed s (Envelope.recipient e) ∧ delivered_to T e s s') ∧
      view (receipts s') = view (receipts s)
  end.
Proof.
  intros [Hinv _]%reachable_inv Ho Hs. apply send_dispatch in Hs; [|done..].
  destruct (ReplayProtection.admit_envelope _ _ _) as [[[]|err] rp].
  - destruct Hs as (_ & _ & Hr). by destruct r.
  - destruct Hs as [-> ->]. split; [|done]. exists ∅.
    split; [apply empty_subseteq|exact (delivered_nobody e (with_replay rp s))].
Qed.

(** Receiving, from every reachable state: a registered agent gets the
    messages of its inbox first in, first out, and waits exactly when it is
    empty; a message is returned with its [envelope.deliver] receipt in the
    log.  When that receipt cannot be recorded the call fails and the message
    is gone all the same; no other inbox is touched and no inbox ever holds
    more than 64 messages. *)
Lemma receive_exact clock a s :
  reachable s →
  (∀ l, inbox s a = Some l → length l ≤ 64) ∧
  match MemoryTransport.receive resolver control_plane clock a s with
  | None => inbox s a = Some []
  | Some (r, s') =>
      inbox s a = None ∧ s' = s ∧ r = Err (MemoryTransport.not_registered a) ∨
      ∃ e l, inbox s a = Some (e :: l) ∧
        (∀ b, inbox s' b = if decide (b = a) then Some l else inbox s b) ∧
        match r with
        | Ok e' => e' = e ∧ view (receipts s) ⊆ view (receipts s') ∧
                   ∃ h, logged s' h "envelope.deliver" e [MemoryTransport.to_agent_evidence a]
        | Err _ => view (receipts s') = view (receipts s)
        end
  end.
Proof.
  intros [Hinv _]%reachable_inv. split.
  - intros l Hl. destruct Hinv as (Heq & _ & Hc & _). unfold inbox in Hl. rewrite <- Heq in Hl.
    destruct (senders s !! a) as [id|] eqn:Hid; [|done]. destruct (Hc _ _ Hid) as (c & Hch & _ & _ & Hlen).
    simpl in Hl. rewrite Hch in Hl. by injection Hl as <-.
  - pose proof (receive_spec clock a s Hinv) as Hr.
    destruct (MemoryTransport.receive _ _ _ _ _) as [[r s']|]; [|done]. by destruct Hr as (_ & _ & Hr).
Qed.

(** One chance per nonce: once the replay guard let an envelope through,
    the next send of that sender with the same nonce is refused and reaches no
    one, whether the first was delivered or failed on a full inbox, an unknown
    recipient, an external endpoint or the receipt log; a retry needs a new
    nonce and so a new signature. *)
Lemma send_once order order' clock clock' e e' s r s1 :
  reachable s → iterates order → iterates order' →
  (ReplayProtection.admit_envelope e (clock 0) (MemoryTransport.replay s)).1 = Ok tt →
  MemoryTransport.send resolver control_plane order clock e s = (r, s1) →
  Envelope.from_agent e' = Envelope.from_agent e → Envelope.nonce e' = Envelope.nonce e →
  ∃ err s2, MemoryTransport.send resolver control_plane order' clock' e' s1 = (Err err, s2) ∧
            (∀ a, inbox s2 a = inbox s1 a) ∧ receipts s2 = receipts s1.
Proof.
  intros [Hinv Hrp]%reachable_inv Ho Ho' Ha Hs Hfrom Hn. apply send_dispatch in Hs; [|done..].
  destruct (ReplayProtection.admit_envelope e _ _) as [x rp] eqn:Hadm. simpl in Ha. subst x.
  destruct Hs as (Hinv1 & Hrp1 & _). simpl in Hrp1.
  pose proof (admit_once _ e' _ (clock' 0) _ _ Hrp Hadm Hfrom Hn) as Hrej.
  destruct (MemoryTransport.send resolver control_plane order' clock' e' s1) as [r2 s2] eqn:Hs2.
  apply send_dispatch in Hs2; [|done..]. rewrite Hrp1 in Hs2.
  destruct (ReplayProtection.admit_envelope e' _ rp) as [[?|err] rp2]; [done|]. destruct Hs2 as [-> ->].
  by exists err, (with_replay rp2 s1).
Qed.
End proofs.

(** ** A toy channel and the witnesses *)

Module TransportToy.
Import MerkleToy QueueToy.
Definition cp_key : SigningKey := SigningKey.mk [Byte.x07].
Definition cp : ControlPlaneIdentity := ControlPlaneIdentity.new (agent 9) (in_process_signer cp_key).
Definition resolver : PassportResolver :=
  StaticPassportResolver.resolver
    (StaticPassportResolver.with_actor (agent 9) (SigningKey.public cp_key) StaticPassportResolver.new).
Definition clock (n : nat) : Timestamp := Timestamp.mk "50" (N.of_nat n).
Definition order (X : gset AgentId) : list AgentId := elements X.
Lemma order_iterates : iterates order.
Proof. intros X. reflexivity. Qed.
Definition to (r : Recipient) (nonce : byte) : Envelope :=
  Envelope.mk (SpecVersion.mk "1.0.0") swarm [Byte.x01] (agent 1) r Performative.Inform [Byte.x68] "text"
    [] CausalRef.empty [nonce] 1 (Timestamp.mk "5" 7) None None None.
Definition hello : Envelope := to (Recipient.Agent (agent 2)) Byte.x01.
Definition lost : Envelope := to (Recipient.Agent (agent 3)) Byte.x02.
Definition start : MemoryTransport (nat * list Envelope) MemoryStore :=
  MemoryTransport.register_recipient (agent 2) (MemoryTransport.new MemoryStore.new).
Lemma start_reachable : reachable resolver cp start.
Proof. apply reachable_register, reachable_new. exact inv_new. Qed.
Definition sent := MemoryTransport.send resolver cp order clock hello start.
Definition id : Hash := match sent.1 with Ok h => h | Err _ => Hash.mk HashAlgorithm.Sha256 [] end.
Lemma sent_reachable : reachable resolver cp sent.2.
Proof.
  eapply reachable_send; [exact start_reachable|exact order_iterates|]. apply surjective_pairing.
Qed.
End TransportToy.

Lemma send_exact_witness :
  (ReplayProtection.admit_envelope TransportToy.hello (TransportToy.clock 0)
     (MemoryTransport.replay TransportToy.start)).1 = Ok tt ∧
  delivered_to (addressed TransportToy.start (Envelope.recipient TransportToy.hello)) TransportToy.hello
    TransportToy.start TransportToy.sent.2 ∧
  logged TransportToy.cp TransportToy.sent.2 TransportToy.id "envelope.send" TransportToy.hello
    (send_evidence TransportToy.start TransportToy.hello) ∧
  view (receipts TransportToy.start) ⊆ view (receipts TransportToy.sent.2).
Proof.
  apply (send_exact TransportToy.resolver TransportToy.cp TransportToy.order TransportToy.clock
           TransportToy.hello TransportToy.start (Ok TransportToy.id) TransportToy.sent.2).
  - exact TransportToy.start_reachable.
  - exact TransportToy.order_iterates.
  - vm_compute. reflexivity.
Defined.

Lemma receive_exact_witness :
  (∀ l, inbox TransportToy.sent.2 (MerkleToy.agent 2) = Some l → length l ≤ 64) ∧
  match MemoryTransport.receive TransportToy.resolver TransportToy.cp TransportToy.clock
          (MerkleToy.agent 2) TransportToy.sent.2 with
  | None => inbox TransportToy.sent.2 (MerkleToy.agent 2) = Some []
  | Some (r, s') =>
      inbox TransportToy.sent.2 (MerkleToy.agent 2) = None ∧ s' = TransportToy.sent.2 ∧
      r = Err (MemoryTransport.not_registered (MerkleToy.agent 2)) ∨
      ∃ e l, inbox TransportToy.sent.2 (MerkleToy.agent 2) = Some (e :: l) ∧
        (∀ b, inbox s' b = if decide (b = MerkleToy.agent 2) then Some l else inbox TransportToy.sent.2 b) ∧
        match r with
        | Ok e' => e' = e ∧ view (receipts TransportToy.sent.2) ⊆ view (receipts s') ∧
                   ∃ h, logged TransportToy.cp s' h "envelope.deliver" e
                          [MemoryTransport.to_agent_evidence (MerkleToy.agent 2)]
        | Err _ => view (receipts s') = view (receipts TransportToy.sent.2)
        end
  end.
Proof. exact (receive_exact _ _ TransportToy.clock _ _ TransportToy.sent_reachable). Defined.

(** The addressee is not registered: the send fails, the nonce is used up. *)
Lemma send_once_witness :
  let failed := MemoryTransport.send TransportToy.resolver TransportToy.cp TransportToy.order
                  TransportToy.clock TransportToy.lost TransportToy.start in
  is_ok failed.1 = false ∧
  ∃ err s2,
    MemoryTransport.send TransportToy.resolver TransportToy.cp TransportToy.order TransportToy.clock
      TransportToy.lost failed.2 = (Err err, s2) ∧
    (∀ a, inbox s2 a = inbox failed.2 a) ∧ receipts s2 = receipts failed.2.
Proof.
  intros failed. split; [vm_compute; reflexivity|].
  apply (send_once TransportToy.resolver TransportToy.cp TransportToy.order TransportToy.order
           TransportToy.clock TransportToy.clock TransportToy.lost TransportToy.lost TransportToy.start
           failed.1 failed.2).
  - exact TransportToy.start_reachable.
  - exact TransportToy.order_iterates.
  - exact TransportToy.order_iterates.
  - vm_compute. reflexivity.
  - apply surjective_pairing.
  - reflexivity.
  - reflexivity.
Defined.
