(* ===== verification/Score.v ===== *)
(** * [yutha-cedar-plus]: fixed-point scores and duration strings

    [parse_score_scaled] and [render_score_scaled] of [layer_b.rs], the decimal
    strings of four fractional digits that reputations and scoring rules use;
    the duration parsers of [enforcement.rs] and [validate.rs]. *)

From S2P Require Import Prelude RustStd Core.

(** ** Scores *)

Definition zero : ascii := "0"%char.
Definition dot : ascii := "."%char.

(** The bytes of the character a string starts with. *)
Definition first_char (s : string) : string :=
  match s with
  | EmptyString => EmptyString
  | String c _ =>
      let n := N_of_ascii c in
      String.substring 0 (if (n <? 128)%N then 1 else if (n <? 224)%N then 2
                          else if (n <? 240)%N then 3 else 4) s
  end.

(** The first [n] characters, which must be digits, padded with zeros to [n]. *)
(* yutha-cedar-plus/src/layer_b.rs:292-301 parse_score_scaled (fraction) *)
Fixpoint frac_digits (n : nat) (s : string) : Result string string :=
  match n, s with
  | O, _ => Ok ""%string
  | S n, EmptyString => let? r := frac_digits n "" in Ok (String zero r)
  | S n, String c t =>
      if is_digit c then let? r := frac_digits n t in Ok (String c r)
      else Err ("fractional part contains non-digit: " +:+ first_char s)
  end.

(* yutha-cedar-plus/src/layer_b.rs:275-307 parse_score_scaled *)
Definition parse_score_scaled (score : string) : Result Z string :=
  let s := trim score in
  if bool_decide (s = ""%string) then Err "empty score string"%string
  else
    let '(sign, rest) := match strip_prefix "-" s with
                         | Some t => ((-1)%Z, t) | None => (1%Z, s) end in
    let '(int_part, frac_part) := default (rest, ""%string) (split_once dot rest) in
    let? int_val := map_err (λ e, "integer part " +:+ debug_str int_part +:+ " not parseable: " +:+ e)
                      (parse_i64 int_part) in
    let? frac_padded := frac_digits 4 frac_part in
    let? frac_val := map_err (λ e, "fractional part " +:+ debug_str frac_padded +:+ " not parseable: " +:+ e)
                       (parse_i64 frac_padded) in
    let scaled := i64_wrap (i64_wrap (int_val * 10000) + frac_val) in
    Ok (i64_wrap (sign * scaled)).

(** [format!("{x:04}")] *)
Definition pad4 (x : N) : string :=
  let s := show_N x in
  String.string_of_list_ascii (replicate (4 - String.length s) zero) +:+ s.

(** [while s.ends_with('0') && s.len() > 1 { s.pop(); }] *)
Fixpoint strip_zeros (s : string) : string :=
  match s with
  | EmptyString => EmptyString
  | String c EmptyString => s
  | String c t =>
      match strip_zeros t with
      | String d EmptyString => if decide (d = zero) then String c "" else String c (String d "")
      | t => String c t
      end
  end.

(* yutha-cedar-plus/src/layer_b.rs:315-330 render_score_scaled *)
Definition render_score_scaled (scaled : Z) : string :=
  let sign := if (scaled <? 0)%Z then "-"%string else ""%string in
  let abs := Z.abs_N scaled in
  let int_part := (abs / 10000)%N in
  let frac_part := (abs mod 10000)%N in
  if (frac_part =? 0)%N then sign +:+ show_N int_part +:+ ".0"
  else sign +:+ show_N int_part +:+ "." +:+ strip_zeros (pad4 frac_part).

(** ** Durations *)

(** Split after the last ASCII digit ([rfind(is_ascii_digit)? + 1]). *)
Fixpoint split_last_digit (s : string) : option (string * string) :=
  match s with
  | EmptyString => None
  | String c s =>
      match split_last_digit s with
      | Some (a, b) => Some (String c a, b)
      | None => if is_digit c then Some (String c "", s) else None
      end
  end.

(* yutha-cedar-plus/src/validate.rs:471-478 split_suffix *)
Definition split_suffix (s : string) : option (string * string) :=
  match split_last_digit s with
  | Some (num, unit) => if bool_decide (unit = ""%string) then None else Some (num, unit)
  | None => None
  end.

(* yutha-cedar-plus/src/enforcement.rs:709-726 parse_window_ns *)
Definition parse_window_ns (s : string) : option N :=
  '(num, unit) ← split_suffix (trim s);
  num ← result_ok (parse_uint u64_max num);
  if bool_decide (unit = "ms"%string) then u64_checked_mul num 1000000
  else
    secs ← (if bool_decide (unit = "s"%string) then Some num
            else if bool_decide (unit = "m"%string) then u64_checked_mul num 60
            else if bool_decide (unit = "h"%string) then u64_checked_mul num (60 * 60)
            else if bool_decide (unit = "d"%string) then u64_checked_mul num (60 * 60 * 24)
            else None);
    u64_checked_mul secs 1000000000.

(** A [Duration] as its number of nanoseconds; the products are [u64] products
    of a release build. *)
(* yutha-cedar-plus/src/validate.rs:452-469 parse_duration *)
Definition parse_duration (s : string) : option N :=
  let s := trim s in
  if bool_decide (s = ""%string) then None
  else
    '(num, unit) ← split_suffix s;
    n ← result_ok (parse_uint u64_max num);
    if bool_decide (unit = "ms"%string) then Some (n * 1000000)%N
    else if bool_decide (unit = "s"%string) then Some (n * 1000000000)%N
    else if bool_decide (unit = "m"%string) then Some (u64_wrap (n * 60) * 1000000000)%N
    else if bool_decide (unit = "h"%string) then Some (u64_wrap (n * (60 * 60)) * 1000000000)%N
    else if bool_decide (unit = "d"%string) then Some (u64_wrap (n * (60 * 60 * 24)) * 1000000000)%N
    else None.

Example durations :
  (parse_window_ns " 10m ", parse_window_ns "2h30m", parse_window_ns "300000d",
   parse_duration "300000d")
  = (Some 600000000000%N, None, None, Some 25920000000000000000%N).
Proof. vm_compute. reflexivity. Qed.
Example scores :
  (parse_score_scaled "-0.25", parse_score_scaled "1.23456", parse_score_scaled "--1.5",
   render_score_scaled 10000, render_score_scaled (-500))
  = (Ok (-2500)%Z, Ok 12345%Z, Ok 5000%Z, "1.0"%string, "-0.05"%string).
Proof. vm_compute. reflexivity. Qed.

(** ** Rendering then parsing *)

#[local] Arguments String.append !_ _ / : simpl nomatch.

Lemma show_N_digits x : str_forall is_digit (show_N x) = true.
Proof.
  assert (∀ s, str_forall is_digit s = true → str_forall is_digit (pretty_N_go x s) = true) as Hgo.
  { induction (N.lt_wf_0 x) as [x _ IH]. intros s Hs. destruct (decide (0 < x)%N).
    - rewrite pretty_N_go_step by done. apply IH; [apply N.div_lt; lia|]. simpl. rewrite Hs, andb_true_r.
      by apply pretty_N_char_digit, N.mod_lt.
    - assert (x = 0)%N as -> by lia. by rewrite pretty_N_go_0. }
  unfold show_N, pretty, pretty_N. case_decide; [done|]. by apply Hgo.
Qed.
Lemma show_N_nonempty x : show_N x ≠ ""%string.
Proof.
  intros Hx. pose proof (parse_scan_show_N x x ltac:(lia)) as Hp. rewrite Hx in Hp.
  simpl in Hp. injection Hp as <-. discriminate Hx.
Qed.

Lemma parse_i64_digits s x : str_forall is_digit s = true → s ≠ ""%string →
  parse_scan (Z.to_N i64_max) 0 s = Ok x → parse_i64 s = Ok (Z.of_N x).
Proof.
  intros Hs Hne Hp. unfold parse_i64. destruct s as [|c [|d s]]; [done|by rewrite Hp|].
  simpl in Hs. apply andb_true_iff in Hs as [Hc _].
  rewrite !decide_False by (intros ->; discriminate Hc). by rewrite Hp.
Qed.

Lemma split_once_digits a f : str_forall is_digit a = true →
  split_once dot (a +:+ String dot f) = Some (a, f).
Proof.
  induction a as [|c a IH]; simpl; [done|]. intros [Hc Ha]%andb_true_iff.
  rewrite decide_False by (intros ->; discriminate Hc). by rewrite IH.
Qed.

(** The four digits of a fraction, for all ten thousand of them. *)
Definition frac_text (x : N) : string :=
  if (x =? 0)%N then "0"%string else strip_zeros (pad4 x).
Definition frac_ok (x : N) : bool :=
  bool_decide (frac_digits 4 (frac_text x) = Ok (pad4 x)) &&
  bool_decide (parse_i64 (pad4 x) = Ok (Z.of_N x)) &&
  str_forall is_digit (frac_text x) && negb (bool_decide (frac_text x = ""%string)).
Lemma frac_all : forallb (λ n, frac_ok (N.of_nat n)) (seq 0 (N.to_nat 10000)) = true.
Proof. vm_compute. reflexivity. Qed.
Lemma frac_facts x : (x < 10000)%N →
  frac_digits 4 (frac_text x) = Ok (pad4 x) ∧ parse_i64 (pad4 x) = Ok (Z.of_N x) ∧
  str_forall is_digit (frac_text x) = true ∧ frac_text x ≠ ""%string.
Proof.
  intros Hx. pose proof (proj1 (forallb_True_elem _ _) frac_all (N.to_nat x)) as Hf.
  specialize (Hf ltac:(apply elem_of_seq; lia)). cbv beta in Hf. rewrite N2Nat.id in Hf.
  unfold frac_ok in Hf.
  rewrite !andb_true_iff, negb_true_iff, !bool_decide_eq_true, bool_decide_eq_false in Hf. naive_solver.
Qed.

Lemma render_score_eq x :
  render_score_scaled x =
  (if (x <? 0)%Z then "-" else "") +:+ show_N (Z.abs_N x / 10000) +:+ String dot (frac_text (Z.abs_N x mod 10000)).
Proof. unfold render_score_scaled, frac_text. by destruct (_ =? 0)%N. Qed.

Lemma render_shape x : ∃ c s d t, render_score_scaled x = String c s ∧ String c s = t +:+ String d "" ∧
  visible c = true ∧ visible d = true.
Proof.
  rewrite render_score_eq.
  set (i := show_N _). set (f := frac_text _).
  destruct (frac_facts (Z.abs_N x mod 10000)) as (_ & _ & Hf & Hfn); [by apply N.mod_lt|].
  destruct (str_forall_last _ f Hf Hfn) as (t & d & Hfd & Hd).
  assert (str_forall is_digit i = true) as Hi by apply show_N_digits.
  assert (i ≠ ""%string) as Hin by apply show_N_nonempty.
  destruct i as [|c i']; [done|]. simpl in Hi. apply andb_true_iff in Hi as [Hc _].
  destruct (x <? 0)%Z.
  - exists "-"%char, (String c i' +:+ String dot f), d, (String "-" (String c i' +:+ String dot t)).
    split_and!; [done| |done|by apply digit_visible]. rewrite Hfd. simpl. by rewrite str_app_assoc.
  - exists c, (i' +:+ String dot f), d, (String c i' +:+ String dot t).
    split_and!; [done| |by apply digit_visible|by apply digit_visible].
    rewrite Hfd. simpl. by rewrite str_app_assoc.
Qed.

Lemma i64_wrap_id x : is_i64 x = true → i64_wrap x = x.
Proof.
  unfold is_i64, i64_wrap, i64_min, i64_max. intros [H1 H2]%andb_true_iff. apply Z.leb_le in H1, H2.
  rewrite Z.mod_small by lia. lia.
Qed.

Lemma scaled_parts a : (a ≤ 9223372036854775808)%N →
  i64_wrap (i64_wrap (Z.of_N (a / 10000) * 10000) + Z.of_N (a mod 10000)) = i64_wrap (Z.of_N a).
Proof.
  intros Ha. pose proof (N.div_mod a 10000 ltac:(done)). pose proof (N.mod_lt a 10000 ltac:(done)).
  set (q := (a / 10000)%N) in *. set (r := (a mod 10000)%N) in *. clearbody q r.
  rewrite (i64_wrap_id (Z.of_N q * 10000)); [f_equal; lia|].
  unfold is_i64, i64_min, i64_max. apply andb_true_iff. rewrite !Z.leb_le.
  assert (q ≤ 922337203685477)%N by lia. lia.
Qed.

Lemma i64_wrap_abs x : is_i64 x = true →
  i64_wrap ((if (x <? 0)%Z then -1 else 1) * i64_wrap (Z.of_N (Z.abs_N x))) = x.
Proof.
  intros Hx. destruct (decide (x = i64_min)) as [->|Hne]; [reflexivity|].
  assert (Hx' := Hx). unfold is_i64, i64_min, i64_max in Hx', Hne.
  apply andb_true_iff in Hx' as [H1 H2]. apply Z.leb_le in H1, H2.
  rewrite N2Z.inj_abs_N. assert (is_i64 (Z.abs x) = true) as Ha.
  { unfold is_i64, i64_min, i64_max. apply andb_true_iff. rewrite !Z.leb_le. lia. }
  rewrite (i64_wrap_id _ Ha). destruct (Z.ltb_spec x 0);
    (rewrite i64_wrap_id; [lia|]); unfold is_i64, i64_min, i64_max; apply andb_true_iff; rewrite !Z.leb_le; lia.
Qed.

(** Parsing a sign-free text of digits. *)
Lemma parse_unsigned q r (sign : Z) : (q ≤ Z.to_N i64_max)%N → (r < 10000)%N →
  (let '(int_part, frac_part) := default (show_N q +:+ String dot (frac_text r), ""%string)
                                   (split_once dot (show_N q +:+ String dot (frac_text r))) in
   let? int_val := map_err (λ e, "integer part " +:+ debug_str int_part +:+ " not parseable: " +:+ e)
                      (parse_i64 int_part) in
   let? frac_padded := frac_digits 4 frac_part in
   let? frac_val := map_err (λ e, "fractional part " +:+ debug_str frac_padded +:+ " not parseable: " +:+ e)
                       (parse_i64 frac_padded) in
   let scaled := i64_wrap (i64_wrap (int_val * 10000) + frac_val) in
   Ok (E:=string) (i64_wrap (sign * scaled)))
  = Ok (i64_wrap (sign * i64_wrap (i64_wrap (Z.of_N q * 10000) + Z.of_N r))).
Proof.
  intros Hq Hr. destruct (frac_facts r Hr) as (Hf & Hp & _ & _).
  rewrite split_once_digits by apply show_N_digits. cbn [default from_option id].
  rewrite (parse_i64_digits (show_N q) q);
    [|apply show_N_digits|apply show_N_nonempty|by apply parse_scan_show_N].
  cbn [map_err rbind]. rewrite Hf. cbn [rbind]. rewrite Hp. done.
Qed.

(** The text of a score denotes the score: what [render_score_scaled] prints,
    [parse_score_scaled] reads back, for every [i64]. *)
Lemma score_render_parse (x : Z) : is_i64 x = true → parse_score_scaled (render_score_scaled x) = Ok x.
Proof.
  intros Hx. destruct (render_shape x) as (c & s & d & t & Hr & Heq & Hc & Hd).
  unfold parse_score_scaled. rewrite Hr, (trim_visible c s d t Heq Hc Hd), bool_decide_eq_false_2 by done.
  rewrite <- Hr, render_score_eq. clear c s d t Hr Heq Hc Hd.
  assert ((Z.abs_N x ≤ 9223372036854775808)%N) as Ha.
  { unfold is_i64, i64_min, i64_max in Hx. apply andb_true_iff in Hx as [H1 H2]. apply Z.leb_le in H1, H2. lia. }
  rewrite <- (i64_wrap_abs x Hx) at 4. rewrite <- (scaled_parts _ Ha).
  set (q := (Z.abs_N x / 10000)%N). set (r := (Z.abs_N x mod 10000)%N).
  assert (q ≤ Z.to_N i64_max)%N as Hq.
  { unfold q. pose proof (N.div_mod (Z.abs_N x) 10000 ltac:(done)). unfold i64_max. lia. }
  assert (r < 10000)%N as Hrr by (by apply N.mod_lt).
  destruct (x <? 0)%Z.
  - exact (parse_unsigned q r (-1) Hq Hrr).
  - rewrite <- (parse_unsigned q r 1 Hq Hrr). change ("" +:+ ?t) with t.
    destruct (show_N q) as [|c i] eqn:Hi; [by destruct (show_N_nonempty q)|].
    pose proof (show_N_digits q) as Hd. rewrite Hi in Hd. simpl in Hd. apply andb_true_iff in Hd as [Hd _].
    assert (strip_prefix "-" (String c i +:+ String dot (frac_text r)) = None) as ->; [|done].
    simpl. rewrite decide_False; [done|]. intros <-. discriminate Hd.
Qed.
