(* ===== verification/Enforcement.v ===== *)
(** * [yutha-cedar-plus/src/enforcement.rs]: the enforcement engine

    The engine configuration of [engine_config.rs] and the engine that watches
    the receipt stream: sliding-window detection, reputation and quarantine per
    agent, and the scheduled escalation from detect to coach, quarantine, evict
    and reverse. *)

From S2P Require Import Prelude RustStd Core Score.

(** [time::OffsetDateTime] with the RFC 3339 format: parsing, [checked_add] of a
    number of nanoseconds, formatting. *)
Class OffsetDateTimeOps := {
  odt : Type;
  odt_parse : string → option odt;
  odt_checked_add : odt → Z → option odt;
  odt_format : odt → option string
}.

(** ** engine_config.rs *)

Module EngineConfig.
(* yutha-cedar-plus/src/engine_config.rs:76-81 NamedPredicate *)
Record NamedPredicate := mkPredicate { pred_name : string; pred_expr : string }.
(* yutha-cedar-plus/src/engine_config.rs:107-120 ScoringHead *)
Record ScoringHead := mkHead {
  head_principal : option string; head_action : option string; head_resource : option string }.
(* yutha-cedar-plus/src/engine_config.rs:90-103 ScoringRule *)
Record ScoringRule := mkScoring {
  scoring_name : string; score : string; head : ScoringHead; scoring_when : string }.
(* yutha-cedar-plus/src/engine_config.rs:153-161 ProcedureTrigger *)
Record ProcedureTrigger := mkTrigger { trigger_action : string; trigger_when : option string }.
(* yutha-cedar-plus/src/engine_config.rs:165-183 ProcedureTransition *)
Record ProcedureTransition := mkTransition {
  from : string; to : string; transition_action : option string; actor_when : option string;
  on_timeout : option string }.
(* yutha-cedar-plus/src/engine_config.rs:130-149 Procedure *)
Record Procedure := mkProcedure {
  proc_name : string; initial_state : string; states : list string; terminal_states : list string;
  trigger : ProcedureTrigger; transitions : list ProcedureTransition;
  on_timeout_escalate : gmap string string }.
(* yutha-cedar-plus/src/engine_config.rs:247-258 DetectTrigger *)
Record DetectTrigger := mkDetectTrigger {
  receipt_kind : string; want_deny_reason : option string; want_forbid_rule_id : option string }.
(* yutha-cedar-plus/src/engine_config.rs:221-239 DetectConfig *)
Record DetectConfig := mkDetect {
  detect_trigger : DetectTrigger; count_threshold : N; time_window : string; group_by : string;
  historical : bool }.
(* yutha-cedar-plus/src/engine_config.rs:262-270 CoachConfig *)
Record CoachConfig := mkCoach { cooldown : string; guidance_template : string }.
(* yutha-cedar-plus/src/engine_config.rs:289-295 ComplianceCheck *)
Record ComplianceCheck := mkCompliance { no_more_of : string; for_duration : string }.
(* yutha-cedar-plus/src/engine_config.rs:274-285 QuarantineConfig *)
Record QuarantineConfig := mkQuarantine {
  quarantine_after : string; expires_after : option string;
  compliance_check : option ComplianceCheck }.
(* yutha-cedar-plus/src/engine_config.rs:299-307 EvictConfig *)
Record EvictConfig := mkEvict { evict_after : string; require_countersign : bool }.
(* yutha-cedar-plus/src/engine_config.rs:316-320 ReverseConfig *)
Record ReverseConfig := mkReverse { auto_when : list string }.
(* yutha-cedar-plus/src/engine_config.rs:192-217 EnforcementRule *)
Record EnforcementRule := mkRule {
  name : string; detect : DetectConfig; coach : option CoachConfig;
  quarantine : option QuarantineConfig; evict : option EvictConfig;
  reputation_delta : gmap string string; reverse : ReverseConfig; severity : option string }.
(* yutha-cedar-plus/src/engine_config.rs:34-61 EngineConfig *)
Record EngineConfig := mk {
  schema_version : string; predicates : list NamedPredicate; scoring_rules : list ScoringRule;
  procedures : list Procedure; enforcement_rules : list EnforcementRule }.
End EngineConfig.
Notation EngineConfig := EngineConfig.EngineConfig.
Notation EnforcementRule := EngineConfig.EnforcementRule.

(** ** enforcement.rs: receipts in, effects out *)

(** The part of [serde_json::Value] the engine builds. *)
Inductive Value := VString (s : string) | VArray (l : list Value).

Module ReceiptView.
(* yutha-cedar-plus/src/enforcement.rs:61-83 ReceiptView *)
Record ReceiptView := mk {
  action_kind : string; principal_id : option string; deny_reason : option string;
  forbid_rule_id : option string; occurred_at_unix_ns : N; occurred_at_wall_clock : string;
  reputation_delta : option string }.
End ReceiptView.
Notation ReceiptView := ReceiptView.ReceiptView.

Module Effect.
(* yutha-cedar-plus/src/enforcement.rs:88-105 EnforcementEffect *)
Record EnforcementEffect := mk {
  action_kind : string; target_agent_id : string; enforcement_rule_id : string;
  reputation_delta : string; additional_evidence : gmap string Value }.
End Effect.
Notation EnforcementEffect := Effect.EnforcementEffect.

(* yutha-cedar-plus/src/enforcement.rs:113-113 INITIAL_REPUTATION_SCALED *)
Definition INITIAL_REPUTATION_SCALED : Z := 10000.
(* yutha-cedar-plus/src/enforcement.rs:115-115 MIN_REPUTATION_SCALED *)
Definition MIN_REPUTATION_SCALED : Z := 0.
(* yutha-cedar-plus/src/enforcement.rs:116-116 MAX_REPUTATION_SCALED *)
Definition MAX_REPUTATION_SCALED : Z := 10000.

Module Stage.
(* yutha-cedar-plus/src/enforcement.rs:147-160 Stage *)
Inductive Stage := Detect | Coach | Quarantine | Evict | Reverse.
#[global] Instance Stage_eq_dec : EqDecision Stage.
Proof. solve_decision. Defined.
(* yutha-cedar-plus/src/enforcement.rs:163-171 Stage::action_kind *)
Definition action_kind (s : Stage) : string :=
  match s with
  | Detect => "enforcement.detect" | Coach => "enforcement.coach"
  | Quarantine => "enforcement.quarantine" | Evict => "enforcement.evict"
  | Reverse => "enforcement.reverse"
  end.
End Stage.
Notation Stage := Stage.Stage.

Module AgentStage.
(* yutha-cedar-plus/src/enforcement.rs:180-202 AgentStage *)
Inductive AgentStage := Detect | Coach | Quarantine | Evict | Reverse.
(* yutha-cedar-plus/src/enforcement.rs:205-213 AgentStage::from_internal *)
Definition from_internal (s : Stage) : AgentStage :=
  match s with
  | Stage.Detect => Detect | Stage.Coach => Coach | Stage.Quarantine => Quarantine
  | Stage.Evict => Evict | Stage.Reverse => Reverse
  end.
End AgentStage.
Notation AgentStage := AgentStage.AgentStage.

Module AgentState.
(* yutha-cedar-plus/src/enforcement.rs:120-129 AgentState *)
Record AgentState := mk {
  reputation_scaled : Z; current_stage : option Stage; quarantined : bool }.
(* yutha-cedar-plus/src/enforcement.rs:132-138 AgentState::initial *)
Definition initial : AgentState := mk INITIAL_REPUTATION_SCALED None false.
End AgentState.
Notation AgentState := AgentState.AgentState.

(* yutha-cedar-plus/src/enforcement.rs:264-283 AgentSnapshot *)
Record AgentSnapshot := mkSnapshot {
  snap_agent_id : string; snap_reputation : string; snap_quarantined : bool;
  snap_stage : option AgentStage; snap_budgets : option (Z * Z * Z) }.

(* yutha-cedar-plus/src/enforcement.rs:308-313 ScheduledAction *)
Record ScheduledAction := mkAction {
  fire_at_wall_clock : string; target_agent_id : string; enforcement_rule_id : string;
  stage : Stage }.

Module Engine.
(** The active constitution is its resolved engine configuration, the only part
    of it the engine reads. *)
(* yutha-cedar-plus/src/enforcement.rs:330-345 EngineState *)
Record EngineState := mk {
  active : option EngineConfig; agents : gmap string AgentState;
  counters : gmap (string * string) (list N); scheduled : list ScheduledAction }.
(* yutha-cedar-plus/src/enforcement.rs:348-355 EngineState::fresh *)
Definition fresh : EngineState := mk None ∅ ∅ [].

Definition with_agents (f : gmap string AgentState → gmap string AgentState) (s : EngineState) :=
  mk (active s) (f (agents s)) (counters s) (scheduled s).
Definition with_counters (f : gmap (string * string) (list N) → gmap (string * string) (list N))
  (s : EngineState) := mk (active s) (agents s) (f (counters s)) (scheduled s).
Definition with_scheduled (f : list ScheduledAction → list ScheduledAction) (s : EngineState) :=
  mk (active s) (agents s) (counters s) (f (scheduled s)).
(** [state.agents.entry(a).or_insert_with(AgentState::initial)], then a change. *)
Definition on_agent (a : string) (f : AgentState → AgentState) : EngineState → EngineState :=
  with_agents (λ m, <[a := f (default AgentState.initial (m !! a))]> m).

(* yutha-cedar-plus/src/enforcement.rs:295-302 CounterBucket::prune *)
Definition prune (now_ns window_ns : N) (timestamps_ns : list N) : list N :=
  if (now_ns <? window_ns)%N then timestamps_ns
  else List.filter (λ t, (now_ns - window_ns <=? t)%N) timestamps_ns.

(* yutha-cedar-plus/src/enforcement.rs:378-382 EnforcementEngine::activate *)
Definition activate (constitution : EngineConfig) (s : EngineState) : EngineState :=
  mk (Some constitution) (agents s) ∅ (scheduled s).

(* yutha-cedar-plus/src/enforcement.rs:554-563 apply_reputation_delta *)
Definition apply_reputation_delta (agent_id delta : string) : EngineState → EngineState :=
  on_agent agent_id (λ a,
    match parse_score_scaled delta with
    | Ok delta_scaled =>
        AgentState.mk
          (clamp (i64_saturating_add (AgentState.reputation_scaled a) delta_scaled)
             MIN_REPUTATION_SCALED MAX_REPUTATION_SCALED)
          (AgentState.current_stage a) (AgentState.quarantined a)
    | Err _ => a
    end).
(* yutha-cedar-plus/src/enforcement.rs:565-571 set_quarantine *)
Definition set_quarantine (agent_id : string) (quarantined : bool) : EngineState → EngineState :=
  on_agent agent_id (λ a,
    AgentState.mk (AgentState.reputation_scaled a) (AgentState.current_stage a) quarantined).

(* yutha-cedar-plus/src/enforcement.rs:581-593 check_detect (trigger) *)
Definition triggers (rule : EnforcementRule) (receipt : ReceiptView) : bool :=
  let t := EngineConfig.detect_trigger (EngineConfig.detect rule) in
  bool_decide (ReceiptView.action_kind receipt = EngineConfig.receipt_kind t)
  && match EngineConfig.want_deny_reason t with
     | Some want => bool_decide (ReceiptView.deny_reason receipt = Some want) | None => true end
  && match EngineConfig.want_forbid_rule_id t with
     | Some want => bool_decide (ReceiptView.forbid_rule_id receipt = Some want) | None => true end.
(* yutha-cedar-plus/src/enforcement.rs:596-600 check_detect (group key) *)
Definition group_key (rule : EnforcementRule) (receipt : ReceiptView) : string :=
  if bool_decide (EngineConfig.group_by (EngineConfig.detect rule) = "none"%string) then ""%string
  else default ""%string (ReceiptView.principal_id receipt).
Definition window_of (rule : EnforcementRule) : N :=
  default 60000000000%N (parse_window_ns (EngineConfig.time_window (EngineConfig.detect rule))).
(* yutha-cedar-plus/src/enforcement.rs:614-631 check_detect (evidence) *)
Definition detect_evidence (rule : EnforcementRule) (key : string) (matched : list N) : gmap string Value :=
  let d := EngineConfig.detect rule in
  <["pattern_summary"%string := VString
      (show_N (EngineConfig.count_threshold d) +:+ "+ matches of " +:+
       EngineConfig.receipt_kind (EngineConfig.detect_trigger d) +:+ " in " +:+ EngineConfig.time_window d)]>
  (<["group_key"%string := VString key]>
  (<["matched_timestamps_ns"%string := VArray ((λ ts, VString (show_N ts)) <$> matched)]> ∅)).

Section engine.
Context `{OffsetDateTimeOps}.
Implicit Types (s : EngineState).

(* yutha-cedar-plus/src/enforcement.rs:806-820 compute_fire_at *)
Definition compute_fire_at (now_wall_clock duration_str : string) : option string :=
  dur_ns ← parse_window_ns duration_str;
  parsed ← odt_parse now_wall_clock;
  fire_at ← odt_checked_add parsed (u64_as_i64 dur_ns);
  odt_format fire_at.

(* yutha-cedar-plus/src/enforcement.rs:655-664 check_detect (schedule coach) *)
Definition coach_action (rule : EnforcementRule) (receipt : ReceiptView) (target : string)
  : list ScheduledAction :=
  match EngineConfig.coach rule with
  | Some coach =>
      match compute_fire_at (ReceiptView.occurred_at_wall_clock receipt) (EngineConfig.cooldown coach) with
      | Some fire_at => [mkAction fire_at target (EngineConfig.name rule) Stage.Coach]
      | None => []
      end
  | None => []
  end.

(* yutha-cedar-plus/src/enforcement.rs:575-676 check_detect *)
Definition check_detect (rule : EnforcementRule) (receipt : ReceiptView) s
  : option EnforcementEffect * EngineState :=
  if negb (triggers rule receipt) then (None, s)
  else
    let d := EngineConfig.detect rule in
    let now := ReceiptView.occurred_at_unix_ns receipt in
    let key := group_key rule receipt in
    let slot := (EngineConfig.name rule, key) in
    let bucket := prune now (window_of rule) (default [] (counters s !! slot)) ++ [now] in
    if (u32_wrap (N.of_nat (length bucket)) <? EngineConfig.count_threshold d)%N then
      (None, with_counters (<[slot := bucket]>) s)
    else
      let s := with_counters (<[slot := []]>) s in
      let s := if bool_decide (key = ""%string) then s
               else on_agent key (λ a, AgentState.mk (AgentState.reputation_scaled a)
                                         (Some Stage.Detect) (AgentState.quarantined a)) s in
      let s := with_scheduled (λ l, l ++ coach_action rule receipt key) s in
      (Some (Effect.mk (Stage.action_kind Stage.Detect) key (EngineConfig.name rule)
               (default "-0.05"%string (EngineConfig.reputation_delta rule !! "detect"%string))
               (detect_evidence rule key bucket)), s).

(* yutha-cedar-plus/src/enforcement.rs:421-426 on_receipt (rules) *)
Fixpoint check_rules (rules : list EnforcementRule) (receipt : ReceiptView) s
  : list EnforcementEffect * EngineState :=
  match rules with
  | [] => ([], s)
  | rule :: rules =>
      let '(e, s) := check_detect rule receipt s in
      let '(es, s) := check_rules rules receipt s in
      (option_list e ++ es, s)
  end.

(* yutha-cedar-plus/src/enforcement.rs:387-429 EnforcementEngine::on_receipt *)
Definition on_receipt (receipt : ReceiptView) s : list EnforcementEffect * EngineState :=
  let kind := ReceiptView.action_kind receipt in
  if starts_with "enforcement." kind then
    ([], match ReceiptView.principal_id receipt with
         | None => s
         | Some principal =>
             let s := match ReceiptView.reputation_delta receipt with
                      | Some delta => apply_reputation_delta principal delta s
                      | None => s
                      end in
             if bool_decide (kind = "enforcement.quarantine"%string) then set_quarantine principal true s
             else if bool_decide (kind = "enforcement.reverse"%string)
                     || bool_decide (kind = "enforcement.evict"%string)
             then set_quarantine principal false s
             else s
         end)
  else
    match active s with
    | None => ([], s)
    | Some config => check_rules (EngineConfig.enforcement_rules config) receipt s
    end.

(* yutha-cedar-plus/src/enforcement.rs:433-436 is_agent_quarantined *)
Definition is_agent_quarantined (agent_id : string) s : bool :=
  match agents s !! agent_id with Some a => AgentState.quarantined a | None => false end.
(* yutha-cedar-plus/src/enforcement.rs:441-449 agent_reputation *)
Definition agent_reputation (agent_id : string) s : string :=
  render_score_scaled
    (match agents s !! agent_id with
     | Some a => AgentState.reputation_scaled a | None => INITIAL_REPUTATION_SCALED end).
(* yutha-cedar-plus/src/enforcement.rs:471-495 get_agent_state *)
Definition get_agent_state (agent_id : string) s : AgentSnapshot :=
  match agents s !! agent_id with
  | None => mkSnapshot agent_id (render_score_scaled INITIAL_REPUTATION_SCALED) false None None
  | Some a => mkSnapshot agent_id (render_score_scaled (AgentState.reputation_scaled a))
                (AgentState.quarantined a) (AgentStage.from_internal <$> AgentState.current_stage a) None
  end.

(* yutha-cedar-plus/src/enforcement.rs:681-703 build_stage_effect *)
Definition build_stage_effect (action : ScheduledAction) (_ : EngineState) : option EnforcementEffect :=
  Some (Effect.mk (Stage.action_kind (stage action)) (target_agent_id action)
          (enforcement_rule_id action)
          match stage action with
          | Stage.Detect => "-0.05" | Stage.Coach => "0.0" | Stage.Quarantine => "-0.25"
          | Stage.Evict => "-1.0" | Stage.Reverse => "0.15"
          end ∅).

(* yutha-cedar-plus/src/enforcement.rs:742-804 next_stage_schedule *)
Definition next_stage_schedule (rule : EnforcementRule) (fired : ScheduledAction) (now : string)
  : list ScheduledAction :=
  let schedule after st :=
    option_list ((λ fire_at, mkAction fire_at (target_agent_id fired) (enforcement_rule_id fired) st)
                   <$> compute_fire_at now after) in
  match stage fired with
  | Stage.Coach =>
      match EngineConfig.quarantine rule with
      | Some q => schedule (EngineConfig.quarantine_after q) Stage.Quarantine
      | None => []
      end
  | Stage.Quarantine =>
      match EngineConfig.evict rule with
      | Some e => schedule (EngineConfig.evict_after e) Stage.Evict
      | None => []
      end ++
      match EngineConfig.quarantine rule ≫= EngineConfig.expires_after with
      | Some expires => schedule expires Stage.Reverse
      | None => []
      end
  | Stage.Detect | Stage.Evict | Stage.Reverse => []
  end.

(* yutha-cedar-plus/src/enforcement.rs:527-534 poll_scheduled (rule lookup) *)
Definition rule_named (n : string) s : option EnforcementRule :=
  config ← active s;
  List.find (λ r, bool_decide (EngineConfig.name r = n)) (EngineConfig.enforcement_rules config).

(** The loop, with its three accumulators; [state] is not changed inside. *)
Fixpoint poll_loop (now : string) s (entries : list ScheduledAction)
  (effects : list EnforcementEffect) (still_pending newly_scheduled : list ScheduledAction)
  : list EnforcementEffect * list ScheduledAction * list ScheduledAction :=
  match entries with
  | [] => (effects, still_pending, newly_scheduled)
  | entry :: entries =>
      if str_leb (fire_at_wall_clock entry) now then
        match build_stage_effect entry s with
        | None => poll_loop now s entries effects still_pending newly_scheduled
        | Some effect =>
            let next := match rule_named (enforcement_rule_id entry) s with
                        | Some rule => next_stage_schedule rule entry now | None => [] end in
            poll_loop now s entries (effects ++ [effect]) still_pending (newly_scheduled ++ next)
        end
      else poll_loop now s entries effects (still_pending ++ [entry]) newly_scheduled
  end.

(* yutha-cedar-plus/src/enforcement.rs:512-547 EnforcementEngine::poll_scheduled *)
Definition poll_scheduled (now : string) s : list EnforcementEffect * EngineState :=
  let '(effects, still_pending, newly_scheduled) :=
    poll_loop now (with_scheduled (λ _, []) s) (scheduled s) [] [] [] in
  (effects, with_scheduled (λ _, still_pending ++ newly_scheduled) s).
End engine.
End Engine.
Notation EngineState := Engine.EngineState.

(** ** Runs of the engine *)

Inductive EngineOp :=
| Activate (c : EngineConfig)
| OnReceipt (r : ReceiptView)
| Poll (now : string).

Section proofs.
Context `{OffsetDateTimeOps}.
Import Engine.
Implicit Types (s : EngineState) (ops : list EngineOp).

Definition engine_step (op : EngineOp) s : list EnforcementEffect * EngineState :=
  match op with
  | Activate c => ([], activate c s)
  | OnReceipt r => on_receipt r s
  | Poll now => poll_scheduled now s
  end.

(** The effects of a run, in the order they are returned, and its last state. *)
Fixpoint engine_run ops s : list EnforcementEffect * EngineState :=
  match ops with
  | [] => ([], s)
  | op :: ops =>
      let '(es, s) := engine_step op s in
      let '(es', s) := engine_run ops s in (es ++ es', s)
  end.

Lemma engine_run_app ops ops' s :
  engine_run (ops ++ ops') s =
  let '(es, s1) := engine_run ops s in let '(es', s2) := engine_run ops' s1 in (es ++ es', s2).
Proof.
  revert s; induction ops as [|op ops IH]; intros s; simpl; [by destruct (engine_run ops' s)|].
  destruct (engine_step op s) as [es s1]. rewrite IH. destruct (engine_run ops s1) as [es1 s2].
  destruct (engine_run ops' s2) as [es2 s3]. by rewrite app_assoc.
Qed.

(** *** Standing: reputation and quarantine *)

Definition agent_of s (a : string) : AgentState := default AgentState.initial (agents s !! a).
Definition standing s (a : string) : Z * bool :=
  (AgentState.reputation_scaled (agent_of s a), AgentState.quarantined (agent_of s a)).

(** What a receipt means for the standing of an agent. *)
Definition receipt_standing (r : ReceiptView) (a : string) (st : Z * bool) : Z * bool :=
  let kind := ReceiptView.action_kind r in
  if starts_with "enforcement." kind && bool_decide (ReceiptView.principal_id r = Some a) then
    (match ReceiptView.reputation_delta r ≫= (λ d, result_ok (parse_score_scaled d)) with
     | Some d => clamp (i64_saturating_add st.1 d) 0 10000
     | None => st.1
     end,
     if bool_decide (kind = "enforcement.quarantine"%string) then true
     else if bool_decide (kind = "enforcement.reverse"%string)
             || bool_decide (kind = "enforcement.evict"%string) then false
     else st.2)
  else st.

(** The standing of an agent after a history, from the receipts alone. *)
Definition spec_standing (a : string) ops : Z * bool :=
  foldl (λ st op, match op with OnReceipt r => receipt_standing r a st | _ => st end)
    (10000%Z, false) ops.

Lemma agent_of_on_agent a b f s :
  agent_of (on_agent b f s) a = if decide (a = b) then f (agent_of s b) else agent_of s a.
Proof.
  unfold agent_of, on_agent, with_agents. simpl. case_decide as Hab.
  - by subst; rewrite lookup_insert_eq.
  - by rewrite lookup_insert_ne by done.
Qed.

Lemma check_detect_standing rule r s a : standing (check_detect rule r s).2 a = standing s a.
Proof.
  unfold check_detect. destruct (negb _); [done|]. cbv zeta. destruct (_ <? _)%N; [done|]. cbn [snd].
  case_bool_decide; [done|]. unfold standing.
  change (agent_of (with_scheduled ?f ?s) a) with (agent_of s a). rewrite agent_of_on_agent.
  case_decide as Hab; [|done]. by subst a.
Qed.

Lemma check_rules_standing rules r s a : standing (check_rules rules r s).2 a = standing s a.
Proof.
  revert s; induction rules as [|rule rules IH]; intros s; [done|]. cbn [check_rules].
  pose proof (check_detect_standing rule r s a) as Hd. destruct (check_detect rule r s) as [e s1].
  specialize (IH s1). destruct (check_rules rules r s1) as [es s2]. cbn [snd] in *. congruence.
Qed.

Lemma engine_step_standing op s a :
  standing (engine_step op s).2 a =
  match op with OnReceipt r => receipt_standing r a (standing s a) | _ => standing s a end.
Proof.
  destruct op as [c|r|now]; simpl; [done| |].
  - unfold on_receipt, receipt_standing.
    destruct (starts_with "enforcement." (ReceiptView.action_kind r)); cbn [andb snd].
    2:{ destruct (active s); [apply check_rules_standing|done]. }
    destruct (ReceiptView.principal_id r) as [p|]; [|by rewrite bool_decide_eq_false_2].
    set (s1 := match ReceiptView.reputation_delta r with
               | Some delta => apply_reputation_delta p delta s | None => s end).
    assert (standing s1 a = if bool_decide (Some p = Some a) then
        (match ReceiptView.reputation_delta r ≫= (λ d, result_ok (parse_score_scaled d)) with
         | Some d => clamp (i64_saturating_add (standing s a).1 d) 0 10000
         | None => (standing s a).1
         end, (standing s a).2) else standing s a) as Hs1.
    { unfold s1, standing, apply_reputation_delta. destruct (ReceiptView.reputation_delta r) as [d|];
        [|by case_bool_decide]. rewrite agent_of_on_agent.
      destruct (decide (a = p)) as [->|]; case_bool_decide; try congruence.
      simpl. by destruct (parse_score_scaled d). }
    assert (∀ b, standing (set_quarantine p b s1) a =
                 if bool_decide (Some p = Some a) then ((standing s1 a).1, b) else standing s1 a) as Hq.
    { intros b. unfold standing, set_quarantine. rewrite agent_of_on_agent.
      clear Hs1. destruct (decide (a = p)) as [->|]; case_bool_decide; try congruence; done. }
    clearbody s1. destruct (bool_decide (_ = "enforcement.quarantine"%string)); [|destruct (_ || _)];
      rewrite ?Hq, Hs1; by case_bool_decide.
  - unfold poll_scheduled. by destruct (poll_loop _ _ _ _ _ _) as [[??]?].
Qed.

Lemma engine_run_standing ops s a :
  standing (engine_run ops s).2 a =
  foldl (λ st op, match op with OnReceipt r => receipt_standing r a st | _ => st end) (standing s a) ops.
Proof.
  revert s; induction ops as [|op ops IH]; intros s; [done|]. cbn [engine_run foldl].
  rewrite <- engine_step_standing. destruct (engine_step op s) as [es s1]. cbn [snd]. rewrite <- IH.
  by destruct (engine_run ops s1).
Qed.

Lemma receipt_standing_bounds r a st :
  (0 ≤ st.1 ≤ 10000)%Z → (0 ≤ (receipt_standing r a st).1 ≤ 10000)%Z.
Proof.
  intros Hst. unfold receipt_standing. destruct (_ && _); [|done]. cbn [fst].
  destruct (_ ≫= _); [|done]. unfold clamp. lia.
Qed.

Lemma spec_standing_bounds a ops : (0 ≤ (spec_standing a ops).1 ≤ 10000)%Z.
Proof.
  unfold spec_standing. assert (0 ≤ (10000%Z, false).1 ≤ 10000)%Z as Hst by (simpl; lia). revert Hst.
  generalize (10000%Z, false). induction ops as [|op ops IH]; intros st Hst; [done|]. simpl.
  apply IH. destruct op; try done. by apply receipt_standing_bounds.
Qed.

(** Standing is a function of the receipts: after any sequence of
    activations, receipts and polls, an agent is quarantined exactly when the
    last quarantine, reverse or evict receipt about it was a quarantine, and its
    reputation is the clamped sum of the deltas of its [enforcement.*]
    receipts, a number between 0 and 1 whose rendering reads back exactly.
    Activating a constitution or polling changes no standing, and neither does
    an effect before its receipt has landed. *)
Lemma standing_exact ops (a : string) :
  let s := (engine_run ops fresh).2 in
  is_agent_quarantined a s = (spec_standing a ops).2 ∧
  parse_score_scaled (agent_reputation a s) = Ok (spec_standing a ops).1 ∧
  (0 ≤ (spec_standing a ops).1 ≤ 10000)%Z ∧
  snap_quarantined (get_agent_state a s) = is_agent_quarantined a s ∧
  snap_reputation (get_agent_state a s) = agent_reputation a s.
Proof.
  intros s. pose proof (spec_standing_bounds a ops) as Hb.
  pose proof (engine_run_standing ops fresh a) as Hs. fold s in Hs.
  change (foldl _ (standing fresh a) ops) with (spec_standing a ops) in Hs.
  unfold standing, agent_of in Hs.
  assert (is_agent_quarantined a s = AgentState.quarantined (default AgentState.initial (agents s !! a)))
    as Hq by (unfold is_agent_quarantined; by destruct (agents s !! a)).
  assert (agent_reputation a s = render_score_scaled
            (AgentState.reputation_scaled (default AgentState.initial (agents s !! a))))
    as Hr by (unfold agent_reputation; by destruct (agents s !! a)).
  rewrite <- Hs in *. cbn [fst snd] in *. split_and!; try done; try lia.
  - rewrite Hr. apply score_render_parse. unfold is_i64, i64_min, i64_max. apply andb_true_iff.
    rewrite !Z.leb_le. lia.
  - unfold get_agent_state, is_agent_quarantined. by destruct (agents s !! a).
  - unfold get_agent_state, agent_reputation. by destruct (agents s !! a).
Qed.

(** *** The escalation ladder *)

(** The stage that must come before. *)
Definition requires (kind : string) : option string :=
  if bool_decide (kind = "enforcement.coach"%string) then Some "enforcement.detect"%string
  else if bool_decide (kind = "enforcement.quarantine"%string) then Some "enforcement.coach"%string
  else if bool_decide (kind = "enforcement.evict"%string)
          || bool_decide (kind = "enforcement.reverse"%string) then Some "enforcement.quarantine"%string
  else None.

(** An effect of this kind, for the same agent and rule, is in the log. *)
Definition earned (log : list EnforcementEffect) (kind target rule : string) : Prop :=
  ∀ k, requires kind = Some k →
    ∃ e, e ∈ log ∧ Effect.action_kind e = k ∧ Effect.target_agent_id e = target ∧
         Effect.enforcement_rule_id e = rule.

Definition ladder (log : list EnforcementEffect) : Prop :=
  ∀ before e after, log = before ++ e :: after →
    earned before (Effect.action_kind e) (Effect.target_agent_id e) (Effect.enforcement_rule_id e).

Definition action_earned (log : list EnforcementEffect) (a : ScheduledAction) : Prop :=
  stage a ≠ Stage.Detect ∧
  earned log (Stage.action_kind (stage a)) (target_agent_id a) (enforcement_rule_id a).

Lemma earned_mono log log' kind t r : (∀ e, e ∈ log → e ∈ log') → earned log kind t r → earned log' kind t r.
Proof. intros Hsub He k Hk. destruct (He k Hk) as (e & ? & ?). eauto. Qed.
Lemma action_earned_app log es a : action_earned log a → action_earned (log ++ es) a.
Proof. intros [? He]. split; [done|]. eapply earned_mono; [|done]. set_solver. Qed.

Lemma ladder_app log es :
  ladder log →
  (∀ e, e ∈ es → earned log (Effect.action_kind e) (Effect.target_agent_id e) (Effect.enforcement_rule_id e)) →
  ladder (log ++ es).
Proof.
  intros Hl Hes before e after Heq.
  apply app_eq_inv in Heq as [(k & -> & Heq)|(k & -> & ->)].
  - destruct k as [|e' k].
    + rewrite app_nil_r in *. simpl in Heq. subst es. apply Hes. set_solver.
    + injection Heq as <- ->. eapply Hl. done.
  - eapply earned_mono; [|apply Hes; set_solver]. set_solver.
Qed.

(** Closed form of the polling loop. *)
Definition due (now : string) (a : ScheduledAction) : bool := str_leb (fire_at_wall_clock a) now.
Definition effect_of (a : ScheduledAction) : EnforcementEffect :=
  Effect.mk (Stage.action_kind (stage a)) (target_agent_id a) (enforcement_rule_id a)
    match stage a with
    | Stage.Detect => "-0.05" | Stage.Coach => "0.0" | Stage.Quarantine => "-0.25"
    | Stage.Evict => "-1.0" | Stage.Reverse => "0.15"
    end ∅.
Definition follow_ups (now : string) s (a : ScheduledAction) : list ScheduledAction :=
  match rule_named (enforcement_rule_id a) s with
  | Some rule => next_stage_schedule rule a now | None => [] end.

Lemma poll_loop_eq now s l es pend next :
  poll_loop now s l es pend next =
  (es ++ map effect_of (List.filter (due now) l), pend ++ List.filter (λ a, negb (due now a)) l,
   next ++ concat (map (follow_ups now s) (List.filter (due now) l))).
Proof.
  revert es pend next; induction l as [|a l IH]; intros es pend next; cbn [poll_loop List.filter map concat].
  - by rewrite !app_nil_r.
  - change (str_leb (fire_at_wall_clock a) now) with (due now a).
    destruct (due now a); cbn [negb map concat build_stage_effect]; rewrite IH;
      by rewrite <- ?app_assoc.
Qed.

Lemma poll_eq now s :
  poll_scheduled now s =
  (map effect_of (List.filter (due now) (scheduled s)),
   with_scheduled (λ l, List.filter (λ a, negb (due now a)) l ++
                        concat (map (follow_ups now s) (List.filter (due now) l))) s).
Proof. unfold poll_scheduled. by rewrite poll_loop_eq. Qed.

Lemma follow_ups_earned now s a b log : b ∈ follow_ups now s a →
  action_earned (log ++ [effect_of a]) b.
Proof.
  unfold follow_ups. destruct (rule_named _ _) as [rule|]; [|by intros ?%elem_of_nil].
  unfold next_stage_schedule. intros Hb.
  assert (target_agent_id b = target_agent_id a ∧ enforcement_rule_id b = enforcement_rule_id a ∧
          stage b ≠ Stage.Detect ∧ requires (Stage.action_kind (stage b)) = Some (Stage.action_kind (stage a)))
    as (Ht & Hr & Hs & Hk).
  { destruct (stage a); try by apply elem_of_nil in Hb.
    - destruct (EngineConfig.quarantine rule); [|by apply elem_of_nil in Hb].
      apply list_elem_of_In in Hb. destruct (compute_fire_at _ _); [|destruct Hb].
      destruct Hb as [<-|[]]. done.
    - apply elem_of_app in Hb as [Hb|Hb]; revert Hb; case_match; try (by intros ?%elem_of_nil);
        intros Hb%list_elem_of_In; (destruct (compute_fire_at _ _); [|destruct Hb]);
        destruct Hb as [<-|[]]; done. }
  split; [done|]. intros k Hk'. rewrite Hk in Hk'. injection Hk' as <-.
  exists (effect_of a). split_and!; [set_solver|done|by symmetry|by symmetry].
Qed.

Lemma check_detect_ladder rule r s log :
  Forall (action_earned log) (scheduled s) →
  let '(e, s') := check_detect rule r s in
  Forall (λ e, Effect.action_kind e = "enforcement.detect"%string) (option_list e) ∧
  Forall (action_earned (log ++ option_list e)) (scheduled s').
Proof.
  intros Hs. unfold check_detect. destruct (negb _); [by rewrite app_nil_r|]. cbv zeta.
  destruct (_ <? _)%N; [by rewrite app_nil_r|]. split; [by repeat constructor|].
  set (e := Effect.mk _ _ _ _ _).
  assert (∀ s1, scheduled s1 = scheduled s →
    Forall (action_earned (log ++ [e])) (scheduled (with_scheduled
      (λ l, l ++ coach_action rule r (group_key rule r)) s1))) as Hgen.
  { intros s1 Heq. simpl. rewrite Heq. apply Forall_app. split.
    - eapply Forall_impl; [exact Hs|]. intros a. apply action_earned_app.
    - unfold coach_action. destruct (EngineConfig.coach rule); [|constructor].
      destruct (compute_fire_at _ _); [|constructor]. apply Forall_singleton. split; [done|].
      intros k [= <-]. exists e. split_and!; try done. set_solver. }
  apply Hgen. by destruct (bool_decide _).
Qed.

Lemma check_rules_ladder rules r s log :
  Forall (action_earned log) (scheduled s) →
  let '(es, s') := check_rules rules r s in
  Forall (λ e, Effect.action_kind e = "enforcement.detect"%string) es ∧
  Forall (action_earned (log ++ es)) (scheduled s').
Proof.
  revert s log; induction rules as [|rule rules IH]; intros s log Hs; cbn [check_rules].
  - by rewrite app_nil_r.
  - pose proof (check_detect_ladder rule r s log Hs) as Hd.
    destruct (check_detect rule r s) as [e s1]. destruct Hd as [He Hs1].
    specialize (IH s1 (log ++ option_list e) Hs1). destruct (check_rules rules r s1) as [es s2].
    destruct IH as [Hes Hs2]. rewrite app_assoc. split; [by apply Forall_app|done].
Qed.

Lemma on_receipt_ladder r s log :
  Forall (action_earned log) (scheduled s) →
  let '(es, s') := on_receipt r s in
  Forall (λ e, Effect.action_kind e = "enforcement.detect"%string) es ∧
  Forall (action_earned (log ++ es)) (scheduled s').
Proof.
  intros Hs. unfold on_receipt. destruct (starts_with _ _).
  - rewrite app_nil_r. split; [constructor|]. destruct (ReceiptView.principal_id r); [|done].
    by repeat case_match.
  - destruct (active s); [by apply check_rules_ladder|by rewrite app_nil_r].
Qed.

Lemma engine_step_ladder op s log :
  ladder log → Forall (action_earned log) (scheduled s) →
  let '(es, s') := engine_step op s in
  ladder (log ++ es) ∧ Forall (action_earned (log ++ es)) (scheduled s').
Proof.
  intros Hl Hs. destruct op as [c|r|now]; cbn [engine_step].
  - by rewrite app_nil_r.
  - pose proof (on_receipt_ladder r s log Hs) as Hr. destruct (on_receipt r s) as [es s'].
    destruct Hr as [Hes Hs']. split; [|done]. apply ladder_app; [done|].
    intros e He k Hk. rewrite Forall_forall in Hes. by rewrite (Hes e He) in Hk.
  - rewrite poll_eq. rewrite Forall_forall in Hs. split.
    + apply ladder_app; [done|]. intros e He%list_elem_of_In. apply in_map_iff in He as (a & <- & Ha).
      apply List.filter_In in Ha as [Ha _]. by destruct (Hs a (proj2 (list_elem_of_In _ _) Ha)).
    + apply Forall_forall. intros b Hb. simpl in Hb. apply elem_of_app in Hb as [Hb|Hb].
      * apply list_elem_of_In, List.filter_In in Hb as [Hb _].
        apply action_earned_app, Hs. by apply list_elem_of_In.
      * apply list_elem_of_In, in_concat in Hb as (l & Hl' & Hb).
        apply in_map_iff in Hl' as (a & <- & Ha). apply list_elem_of_In in Hb.
        destruct (follow_ups_earned now s a b log Hb) as [Hn He]. split; [done|].
        eapply earned_mono; [|exact He]. intros x Hx. apply elem_of_app in Hx as [?|Hx]; [set_solver|].
        apply list_elem_of_singleton in Hx as ->. apply elem_of_app. right. apply list_elem_of_In, in_map_iff. by exists a.
Qed.

Lemma engine_run_ladder ops s log :
  ladder log → Forall (action_earned log) (scheduled s) → ladder (log ++ (engine_run ops s).1).
Proof.
  revert s log; induction ops as [|op ops IH]; intros s log Hl Hs; cbn [engine_run];
    [by rewrite app_nil_r|].
  pose proof (engine_step_ladder op s log Hl Hs) as Hstep. destruct (engine_step op s) as [es s1].
  destruct Hstep as [Hl1 Hs1]. specialize (IH s1 (log ++ es) Hl1 Hs1).
  destruct (engine_run ops s1) as [es' s2]. cbn [fst] in *. by rewrite app_assoc.
Qed.

(** [C9] No sanction without the steps before it: in every run, whatever
    constitutions are activated in between, an eviction or a reversal comes
    after a quarantine, a quarantine after a coaching and a coaching after a
    detection, each for the same agent under the same rule. *)
Theorem sanctions_follow_ladder ops before e after :
  (engine_run ops fresh).1 = before ++ e :: after →
  ∀ needed, requires (Effect.action_kind e) = Some needed →
  ∃ e', e' ∈ before ∧ Effect.action_kind e' = needed ∧
        Effect.target_agent_id e' = Effect.target_agent_id e ∧
        Effect.enforcement_rule_id e' = Effect.enforcement_rule_id e.
Proof.
  intros Hrun. assert (ladder []) as Hl by (intros [|] ? ? ?; done).
  pose proof (engine_run_ladder ops fresh [] Hl (Forall_nil_2 _)) as Hlad. simpl in Hlad.
  exact (Hlad before e after Hrun).
Qed.

(** Polling fires exactly the scheduled actions whose time, compared as
    text, is not after [now], in their order; each fires once, those not due
    stay, and the only new actions are the next stages of the fired ones under
    the rule of that name in the active constitution.  Agents, counters and the
    constitution are untouched. *)
Lemma poll_exact (now : string) s :
  let '(effects, s') := poll_scheduled now s in
  effects = map effect_of (List.filter (due now) (scheduled s)) ∧
  scheduled s' = List.filter (λ a, negb (due now a)) (scheduled s)
                 ++ concat (map (follow_ups now s) (List.filter (due now) (scheduled s))) ∧
  length effects + length (List.filter (λ a, negb (due now a)) (scheduled s)) = length (scheduled s) ∧
  active s' = active s ∧ agents s' = agents s ∧ counters s' = counters s.
Proof.
  rewrite poll_eq. split_and!; try done. rewrite length_map.
  induction (scheduled s) as [|a l IH]; [done|]. simpl. destruct (due now a); simpl; lia.
Qed.

(** A rule without a coach stage goes no further than detection. *)
Lemma coachless_rule_stops rule r s :
  EngineConfig.coach rule = None → scheduled (check_detect rule r s).2 = scheduled s.
Proof.
  intros Hc. unfold check_detect. destruct (negb _); [done|]. cbv zeta. destruct (_ <? _)%N; [done|].
  simpl. unfold coach_action. rewrite Hc, app_nil_r. by destruct (bool_decide _).
Qed.

(** *** Detection *)

Definition within (window now t : N) : bool := (now <? window)%N || (now - window <=? t)%N.

(** The verdicts of a sliding window over everything seen since it last fired:
    the timestamps that made it fire, or [None]. *)
Fixpoint spec_verdicts (window threshold : N) (since ts : list N) : list (option (list N)) :=
  match ts with
  | [] => []
  | t :: ts =>
      let matched := List.filter (within window t) since ++ [t] in
      if (N.of_nat (length matched) <? threshold)%N
      then None :: spec_verdicts window threshold (since ++ [t]) ts
      else Some matched :: spec_verdicts window threshold [] ts
  end.

(** A receipt of the rule's pattern, counted in the group [key]. *)
Definition counts (rule : EnforcementRule) (key : string) (r : ReceiptView) : bool :=
  triggers rule r && bool_decide (group_key rule r = key).

(** What the rule answers on a stream of receipts, at those it counts for
    [key]: the matched timestamps of the effect's evidence. *)
Fixpoint detect_verdicts (rule : EnforcementRule) (key : string) (rs : list ReceiptView) s
  : list (option Value) :=
  match rs with
  | [] => []
  | r :: rs =>
      let '(e, s') := check_detect rule r s in
      let rest := detect_verdicts rule key rs s' in
      if counts rule key r
      then (e ≫= λ e, Effect.additional_evidence e !! "matched_timestamps_ns"%string) :: rest
      else rest
  end.

Definition matched_value (l : list N) : Value := VArray ((λ ts, VString (show_N ts)) <$> l).
(** The timestamps of the receipts a rule counts for [key]. *)
Definition times (rule : EnforcementRule) (key : string) (rs : list ReceiptView) : list N :=
  map ReceiptView.occurred_at_unix_ns (List.filter (counts rule key) rs).
Definition bucket_of (rule : EnforcementRule) (key : string) s : list N :=
  default [] (counters s !! (EngineConfig.name rule, key)).

Lemma prune_eq now w l : prune now w l = List.filter (within w now) l.
Proof.
  unfold prune, within. destruct (now <? w)%N; cbn [orb]; [|done].
  induction l; simpl; congruence.
Qed.

Lemma within_later w t now x : (t ≤ now)%N → within w now x = true → within w t x = true.
Proof. unfold within. rewrite !orb_true_iff, !N.ltb_lt, !N.leb_le. lia. Qed.

Lemma filter_later w t now l : (t ≤ now)%N →
  List.filter (within w now) (List.filter (within w t) l) = List.filter (within w now) l.
Proof.
  intros Hle. induction l as [|x l IH]; [done|]. simpl.
  destruct (within w t x) eqn:Ht; simpl; [by destruct (within w now x); rewrite IH|].
  destruct (within w now x) eqn:Hn; [|done]. apply (within_later w t) in Hn; [congruence|done].
Qed.

Lemma filter_length_le' {A} (f : A → bool) l : length (List.filter f l) ≤ length l.
Proof. induction l as [|x l IH]; simpl; [done|]. destruct (f x); simpl; lia. Qed.

(** A receipt of another pattern or group leaves the bucket alone. *)
Lemma check_detect_other rule key r s : counts rule key r = false →
  bucket_of rule key (check_detect rule r s).2 = bucket_of rule key s.
Proof.
  unfold counts, check_detect. destruct (triggers rule r); [|done]. cbn [andb negb].
  intros Hk%bool_decide_eq_false. cbv zeta. unfold bucket_of.
  assert ((EngineConfig.name rule, group_key rule r) ≠ (EngineConfig.name rule, key)) by congruence.
  destruct (_ <? _)%N; cbn [snd]; [simpl; by rewrite lookup_insert_ne|].
  case_bool_decide; simpl; by rewrite lookup_insert_ne.
Qed.

(** A counted receipt: the bucket and the verdict. *)
Lemma check_detect_counted rule key r s : counts rule key r = true →
  let t := ReceiptView.occurred_at_unix_ns r in
  let matched := List.filter (within (window_of rule) t) (bucket_of rule key s) ++ [t] in
  let '(e, s') := check_detect rule r s in
  if (u32_wrap (N.of_nat (length matched)) <? EngineConfig.count_threshold (EngineConfig.detect rule))%N
  then e = None ∧ bucket_of rule key s' = matched
  else (e ≫= λ e, Effect.additional_evidence e !! "matched_timestamps_ns"%string)
         = Some (matched_value matched) ∧ bucket_of rule key s' = [].
Proof.
  intros Hc t matched. unfold counts in Hc. apply andb_true_iff in Hc as [Ht Hk].
  apply bool_decide_eq_true in Hk.
  unfold check_detect. rewrite Ht, Hk. cbn [negb]. cbv zeta. rewrite prune_eq.
  change (default [] (counters s !! (EngineConfig.name rule, key))) with (bucket_of rule key s).
  fold t. fold matched. destruct (_ <? _)%N.
  - split; [done|]. unfold bucket_of. simpl. by rewrite lookup_insert_eq.
  - split; [cbn [mbind option_bind Effect.additional_evidence]; unfold detect_evidence|].
    + rewrite lookup_insert_ne by done. rewrite lookup_insert_ne by done. by rewrite lookup_insert_eq.
    + unfold bucket_of. case_bool_decide; simpl; by rewrite lookup_insert_eq.
Qed.

Lemma detect_verdicts_spec rule key rs s since last :
  let ts := times rule key rs in
  (∀ now, (last ≤ now)%N →
     List.filter (within (window_of rule) now) (bucket_of rule key s)
     = List.filter (within (window_of rule) now) since) →
  StronglySorted N.le (last :: ts) →
  (N.of_nat (length since + length ts) < 2 ^ 32)%N →
  detect_verdicts rule key rs s =
  map (option_map matched_value)
    (spec_verdicts (window_of rule) (EngineConfig.count_threshold (EngineConfig.detect rule)) since ts).
Proof.
  revert s since last; induction rs as [|r rs IH]; intros s since last ts Hb Hsort Hlen; [done|].
  cbn [detect_verdicts]. destruct (counts rule key r) eqn:Hc.
  2:{ pose proof (check_detect_other rule key r s Hc) as Ho. destruct (check_detect rule r s) as [e s'].
      unfold ts, times in *. cbn [List.filter] in *. rewrite Hc in *. cbn [snd] in Ho.
      apply IH with last; [by rewrite Ho|done|done]. }
  pose proof (check_detect_counted rule key r s Hc) as Hd. cbv zeta in Hd.
  destruct (check_detect rule r s) as [e s']. unfold ts, times in *. cbn [List.filter] in *. rewrite Hc in *.
  cbn [map] in *. set (t := ReceiptView.occurred_at_unix_ns r) in *.
  change (map _ (List.filter _ rs)) with (times rule key rs) in *.
  set (ts' := times rule key rs) in *.
  apply StronglySorted_inv in Hsort as [Hsort Hle]. apply Forall_cons in Hle as [Hle _].
  rewrite (Hb t Hle) in Hd. cbn [spec_verdicts length] in *.
  set (matched := List.filter (within (window_of rule) t) since ++ [t]) in *.
  assert (N.of_nat (length matched) < 2 ^ 32)%N as Hm.
  { unfold matched. rewrite length_app. simpl.
    pose proof (filter_length_le' (within (window_of rule) t) since). lia. }
  unfold u32_wrap in Hd. rewrite N.mod_small in Hd by done.
  destruct (N.of_nat (length matched) <? _)%N; destruct Hd as [He Hb'].
  - subst e. cbn [mbind option_bind map option_map]. f_equal.
    apply IH with t; [|done|rewrite length_app; simpl in *; lia].
    intros now Hnow. rewrite Hb'. unfold matched. rewrite !List.filter_app. by rewrite filter_later.
  - rewrite He. cbn [map option_map]. f_equal.
    apply IH with t; [|done|simpl in *; lia]. intros now _. by rewrite Hb'.
Qed.

(** [C17] Detection is an exact sliding window: over any stream of receipts,
    with other patterns and other agents interleaved, and whatever matching
    receipts the rule's counter for the agent already holds, a rule fires for an
    agent at exactly those of its matching receipts where the number of matching
    receipts of that agent - those of the counter first - within the window and
    since the rule last fired reaches the threshold, and the evidence lists exactly
    those; provided the matching receipts of the stream come in the order of their
    timestamps and are, with those of the counter, fewer than 2^32.  The window is
    [window_of]: a minute when the rule's does not parse or does not fit. *)
Theorem detection_window_exact rule key rs s :
  let since := bucket_of rule key s in
  StronglySorted N.le (times rule key rs) →
  (N.of_nat (length since + length (times rule key rs)) < 2 ^ 32)%N →
  detect_verdicts rule key rs s =
  map (option_map matched_value)
    (spec_verdicts (window_of rule) (EngineConfig.count_threshold (EngineConfig.detect rule)) since
       (times rule key rs)).
Proof.
  intros since Hsort Hlen. apply detect_verdicts_spec with 0%N; [done| |done].
  constructor; [done|]. apply Forall_forall. intros; lia.
Qed.
End proofs.

(** ** Concrete runs *)

Module EngineToy.
Import EngineConfig.
(** Clocks are numbers of nanoseconds, written in decimal. *)
#[global] Instance odt_ops : OffsetDateTimeOps := {|
  odt := Z;
  odt_parse s := match parse_i64 s with Ok x => Some x | Err _ => None end;
  odt_checked_add x y := Some (x + y)%Z;
  odt_format x := Some (show_Z x) |}.
Definition rule : EnforcementRule :=
  mkRule "r" (mkDetect (mkDetectTrigger "capability.check.deny" None None) 2 "10s" "principal" false)
    (Some (mkCoach "1s" "")) (Some (mkQuarantine "1s" (Some "2s") None))
    (Some (mkEvict "3s" true)) ∅ (mkReverse []) None.
Definition config : EngineConfig := mk "1" [] [] [] [rule].
Definition deny (who : string) (at_ns : N) : ReceiptView :=
  ReceiptView.mk "capability.check.deny" (Some who) None None at_ns (show_N at_ns) None.
Definition ops : list EngineOp :=
  [Activate config; OnReceipt (deny "a" 1000000000); OnReceipt (deny "b" 2000000000);
   OnReceipt (deny "a" 3000000000); Poll "4000000000"; Poll "5000000000"; Poll "7000000000";
   Poll "8000000000"].
Definition kinds : list string := Effect.action_kind <$> (engine_run ops Engine.fresh).1.

(** The whole ladder; the eviction comes although the quarantine was reversed. *)
Example evict_fires_after_reverse :
  kinds = ["enforcement.detect"; "enforcement.coach"; "enforcement.quarantine";
           "enforcement.reverse"; "enforcement.evict"]%string.
Proof. vm_compute. reflexivity. Qed.
Definition effects := (engine_run ops Engine.fresh).1.
Definition evict : EnforcementEffect :=
  default (Effect.mk "" "" "" "" ∅) (effects !! 4).
Definition stream : list ReceiptView :=
  [deny "a" 1000000000; deny "b" 2000000000; deny "a" 3000000000; deny "a" 20000000000].
(** A state in which the rule has counted one receipt. *)
Definition counting := (engine_run [Activate config; OnReceipt (deny "a" 500000000)] Engine.fresh).2.
End EngineToy.

(** Due times are compared as text: half a second early with a fraction on the
    scheduled time, most of a second late with a fraction on the clock. *)
Example textual_due_times :
  (str_leb "2026-01-01T00:00:00.5Z" "2026-01-01T00:00:00Z",
   str_leb "2026-01-01T00:00:00Z" "2026-01-01T00:00:00.9Z") = (true, false).
Proof. vm_compute. reflexivity. Qed.

(** A window the loader accepts, of 300000 days, is watched for a minute. *)
Example long_window_becomes_a_minute :
  (bool_decide (is_Some (parse_duration "300000d")), parse_window_ns "300000d",
   Engine.window_of (EngineConfig.mkRule "r"
     (EngineConfig.mkDetect (EngineConfig.mkDetectTrigger "k" None None) 3 "300000d" "principal" false)
     None None None ∅ (EngineConfig.mkReverse []) None)) = (true, None, 60000000000%N).
Proof. vm_compute. reflexivity. Qed.

Lemma sanctions_follow_ladder_witness :
  ∃ e', e' ∈ take 4 EngineToy.effects ∧ Effect.action_kind e' = "enforcement.quarantine"%string ∧
        Effect.target_agent_id e' = Effect.target_agent_id EngineToy.evict ∧
        Effect.enforcement_rule_id e' = Effect.enforcement_rule_id EngineToy.evict.
Proof.
  apply (sanctions_follow_ladder EngineToy.ops (take 4 EngineToy.effects) EngineToy.evict []).
  - vm_compute. reflexivity.
  - vm_compute. reflexivity.
Defined.

Lemma detection_window_exact_witness :
  detect_verdicts EngineToy.rule "a" EngineToy.stream EngineToy.counting =
  map (option_map matched_value)
    (spec_verdicts 10000000000 2 [500000000]%N [1000000000; 3000000000; 20000000000]%N).
Proof.
  apply (detection_window_exact EngineToy.rule "a" EngineToy.stream EngineToy.counting).
  - vm_compute. repeat constructor; discriminate.
  - vm_compute. reflexivity.
Defined.
