(* ===== verification/CedarPlus.v ===== *)
(** * [yutha-cedar-plus]: errors, bounds, requests, and the Cedar engine

    What the parts of the constitution engine share: [error.rs], [sandbox.rs],
    [eval.rs], [constitution.rs], and two parameters.  [SerdeJson] is
    [serde_json]: its values are data here, their encoding to bytes is not.
    [Cedar] is the [cedar_policy] crate: parsing and validating policies,
    building requests and entities, and the authorizer's answer. *)

From S2P Require Import Prelude RustStd Core Enforcement.

(** ** JSON values

    An object is the list of its members in the order in which the map iterates
    over them (with the feature [preserve_order], which the lock file enables,
    the order of insertion). *)

Inductive Json (Number : Type) : Type :=
| JNull
| JBool (b : bool)
| JNumber (n : Number)
| JString (s : string)
| JArray (l : list (Json Number))
| JObject (l : list (string * Json Number)).
Arguments JNull {Number}.
Arguments JBool {Number} _.
Arguments JNumber {Number} _.
Arguments JString {Number} _.
Arguments JArray {Number} _.
Arguments JObject {Number} _.

(** [serde_json::Number] and [serde_json::to_vec] of a value. *)
Class SerdeJson := { JsonNumber : Type; json_to_vec : Json JsonNumber → bytes }.
(** Distinct values have distinct encodings. *)
Class SerdeJsonLaws `{SerdeJson} : Prop := { json_to_vec_inj : Inj (=) (=) json_to_vec }.
Notation JsonValue := (Json JsonNumber).

(** A map whose keys are sorted, as a value. *)
Definition json_of_btree `{SerdeJson} (m : gmap string JsonValue) : JsonValue := JObject (btree_iter m).
Definition json_strings `{SerdeJson} (l : list string) : JsonValue := JArray (map JString l).

Lemma json_of_btree_inj `{SerdeJson} m m' : json_of_btree m = json_of_btree m' → m = m'.
Proof. intros [= He]. by apply btree_iter_inj. Qed.

Lemma map_inj {A B} (f : A → B) : (∀ x y, f x = f y → x = y) → ∀ l k, map f l = map f k → l = k.
Proof.
  intros Hf l. induction l as [|x l IH]; intros [|y k]; simpl; [done|done|done|].
  intros [= He Hl]. f_equal; [by apply Hf|by apply IH].
Qed.

(** ** error.rs *)

Module LoadBoundReason.
(* yutha-cedar-plus/src/error.rs:111-120 LoadBoundReason *)
Inductive LoadBoundReason := ScoringRuleCount | ProcedureCount | PolicyCount | PolicyDepth.
(* yutha-cedar-plus/src/error.rs:122-132 LoadBoundReason::fmt *)
Definition to_string (r : LoadBoundReason) : string :=
  match r with
  | ScoringRuleCount => "scoring_rule_count_exceeded"
  | ProcedureCount => "procedure_count_exceeded"
  | PolicyCount => "policy_count_exceeded"
  | PolicyDepth => "policy_depth_exceeded"
  end.
End LoadBoundReason.
Notation LoadBoundReason := LoadBoundReason.LoadBoundReason.

Module EvalBoundReason.
(* yutha-cedar-plus/src/error.rs:139-151 EvalBoundReason *)
Inductive EvalBoundReason :=
  EvaluationTime | EntityStoreSize | OpenProcedureInstanceCount | EvaluationDepth.
(* yutha-cedar-plus/src/error.rs:153-163 EvalBoundReason::fmt *)
Definition to_string (r : EvalBoundReason) : string :=
  match r with
  | EvaluationTime => "evaluation_time_exceeded"
  | EntityStoreSize => "entity_store_size_exceeded"
  | OpenProcedureInstanceCount => "open_procedure_instance_count_exceeded"
  | EvaluationDepth => "evaluation_depth_exceeded"
  end.
End EvalBoundReason.
Notation EvalBoundReason := EvalBoundReason.EvalBoundReason.

Module CedarPlusError.
(* yutha-cedar-plus/src/error.rs:17-105 CedarPlusError *)
Inductive CedarPlusError :=
| Parse (msg : string)
| SchemaVersionUnsupported (version : string)
| InvalidScoringRule (rule detail : string)
| InvalidProcedure (procedure detail : string)
| InvalidEnforcementRule (rule detail : string)
| LoadBoundExceeded (reason : LoadBoundReason)
| RequestShapeInvalid (msg : string)
| EntityUnresolved (msg : string)
| ConstitutionUnresolved (msg : string)
| EvaluatorInternalError (msg : string)
| EvaluationBoundExceeded (reason : EvalBoundReason)
| ProcedureTransitionAmbiguous (instance : string) (candidates : list string)
| Infrastructure (msg : string).

(** [{candidates:?}] *)
Definition debug_list (l : list string) : string := "[" +:+ str_join ", " (map debug_str l) +:+ "]".
(** The texts of the [#[error(..)]] attributes. *)
Definition to_string (e : CedarPlusError) : string :=
  match e with
  | Parse m => "constitution parse error: " +:+ m
  | SchemaVersionUnsupported v => "schema version " +:+ v +:+ " not supported"
  | InvalidScoringRule r d => "scoring rule " +:+ r +:+ " invalid: " +:+ d
  | InvalidProcedure p d => "procedure " +:+ p +:+ " invalid: " +:+ d
  | InvalidEnforcementRule r d => "enforcement rule " +:+ r +:+ " invalid: " +:+ d
  | LoadBoundExceeded r => "load-time bound exceeded: " +:+ LoadBoundReason.to_string r
  | RequestShapeInvalid m => "request shape invalid: " +:+ m
  | EntityUnresolved m => "entity unresolved: " +:+ m
  | ConstitutionUnresolved m => "constitution unresolved: " +:+ m
  | EvaluatorInternalError m => "evaluator internal error: " +:+ m
  | EvaluationBoundExceeded r => "evaluation bound exceeded: " +:+ EvalBoundReason.to_string r
  | ProcedureTransitionAmbiguous i c =>
      "procedure transition ambiguous: instance " +:+ i +:+ ", candidates " +:+ debug_list c
  | Infrastructure m => "infrastructure error: " +:+ m
  end.
End CedarPlusError.
Notation CedarPlusError := CedarPlusError.CedarPlusError.

(** ** sandbox.rs *)

Module SandboxConfig.
(** The durations are in nanoseconds. *)
(* yutha-cedar-plus/src/sandbox.rs:21-39 SandboxConfig *)
Record SandboxConfig := mk {
  send_envelope_max_time : N; other_action_max_time : N; max_entity_count : N;
  max_scoring_rules : N; max_procedures : N; max_open_procedure_instances_examined : N;
  max_cedar_policies : N; max_policy_depth_at_load : N }.
(* yutha-cedar-plus/src/sandbox.rs:41-54 SandboxConfig::default *)
Definition default : SandboxConfig :=
  mk (10 * 1000000) (100 * 1000000) 1000 1000 100 100 1000 16.
(* yutha-cedar-plus/src/sandbox.rs:61-67 SandboxConfig::max_time_for *)
Definition max_time_for (s : SandboxConfig) (action_kind : string) : N :=
  if bool_decide (action_kind = "SendEnvelope"%string) then send_envelope_max_time s
  else other_action_max_time s.
End SandboxConfig.
Notation SandboxConfig := SandboxConfig.SandboxConfig.

(** [Vec::len] *)
Definition list_len {A} (l : list A) : N := N.of_nat (length l).

(** ** eval.rs *)

Module EntityUid.
(* yutha-cedar-plus/src/eval.rs:113-118 EntityUid *)
Record EntityUid := mk { entity_type : string; entity_id : string }.
#[global] Instance eq_dec : EqDecision EntityUid.
Proof. solve_decision. Defined.
(* yutha-cedar-plus/src/eval.rs:122-127 EntityUid::new *)
Definition new (entity_type entity_id : string) : EntityUid := mk entity_type entity_id.
End EntityUid.
Notation EntityUid := EntityUid.EntityUid.

Module Decision.
(* yutha-cedar-plus/src/eval.rs:170-175 Decision *)
Inductive Decision := Permit | Deny.
#[global] Instance eq_dec : EqDecision Decision.
Proof. solve_decision. Defined.
End Decision.
Notation Decision := Decision.Decision.

Module ScoreContribution.
(* yutha-cedar-plus/src/eval.rs:179-185 ScoreContribution *)
Record ScoreContribution := mk { rule_id : string; score : string }.
End ScoreContribution.
Notation ScoreContribution := ScoreContribution.ScoreContribution.

Module ProcedureEffect.
(* yutha-cedar-plus/src/eval.rs:203-210 ProcedureEffect *)
Record ProcedureEffect := mk { action_kind : string; instance_id : string }.
End ProcedureEffect.
Notation ProcedureEffect := ProcedureEffect.ProcedureEffect.

Section eval.
Context `{SerdeJson}.

(* yutha-cedar-plus/src/eval.rs:95-105 EntityRecord *)
Record EntityRecord := mkEntity {
  uid : EntityUid; attrs : gmap string JsonValue; parents : list EntityUid }.
(* yutha-cedar-plus/src/eval.rs:79-84 EntitySnapshot *)
Record EntitySnapshot := mkEntitySnapshot { entities : list EntityRecord }.
(* yutha-cedar-plus/src/eval.rs:88-90 EntitySnapshot::entity_count *)
Definition entity_count (s : EntitySnapshot) : N := list_len (entities s).

(* yutha-cedar-plus/src/eval.rs:24-65 EvaluationRequest *)
Record EvaluationRequest := mkRequest {
  request_constitution_hash : Hash; request_schema_version : string; action_kind : string;
  principal_id : AgentId; resource_uid : EntityUid; context_attrs : gmap string JsonValue;
  entity_snapshot : EntitySnapshot; current_wall_clock : string; current_time_unix_ns : N }.
End eval.

(* yutha-cedar-plus/src/eval.rs:136-166 EvaluationOutcome *)
Record EvaluationOutcome := mkOutcome {
  decision : Decision; deny_reason : option string; matched_rule_ids : list string;
  score_contributions : list ScoreContribution; outcome_total_score : option string;
  procedure_effects : list ProcedureEffect; evidence_digest : Hash; decided_at : Timestamp }.

(** ** constitution.rs *)

Module Constitution.
(* yutha-cedar-plus/src/constitution.rs:27-66 Constitution *)
Record Constitution := mk {
  constitution_hash : Hash; spec_version : SpecVersion; schema_version : string;
  constitution_version : string; parent_version : option Hash; swarm_id : SwarmId;
  cedar_source : string; engine_config : EngineConfig; issued_at : Timestamp }.
End Constitution.
Notation Constitution := Constitution.Constitution.

(** ** The Cedar engine *)

(** [Authorizer::is_authorized] answers with a decision and the identifiers of
    the policies that determined it ([diagnostics().reason()]), in the order
    in which the crate yields them.  Errors are given by their texts. *)
Class Cedar `{SerdeJson} := {
  PolicySet : Type;
  Schema : Type;
  CedarUid : Type;
  Context : Type;
  CedarRequest : Type;
  Entities : Type;
  policy_set_new : PolicySet;
  policy_set_from_str : string → Result PolicySet string;
  policies_count : PolicySet → nat;
  (** [Validator::validate] in strict mode: whether it passed, and its errors *)
  validate_strict : Schema → PolicySet → bool * list string;
  expression_from_str : string → Result unit string;
  entity_type_name_from_str : string → Result string string;
  entity_id_from_str : string → Result string string;
  uid_from_type_name_and_id : string → string → CedarUid;
  entities_from_json : JsonValue → Schema → Result Entities string;
  context_from_json : JsonValue → Result Context string;
  request_new : CedarUid → CedarUid → CedarUid → Context → Schema → Result CedarRequest string;
  is_authorized : CedarRequest → PolicySet → Entities → bool * list string
}.

(** [diagnostics().reason()] *)
Definition reasons `{Cedar} (r : CedarRequest) (p : PolicySet) (e : Entities) : list string :=
  (is_authorized r p e).2.
