(* ===== verification/Procedure.v ===== *)
(** * [yutha-cedar-plus]: scoring rules and procedures

    The Layer B of a constitution: the synthesis of Cedar policy texts for
    scoring rules, procedure triggers and transitions ([layer_b.rs]), the
    evaluation of scores ([scoring.rs]) and of procedures ([procedure.rs]).
    Cedar itself is a parameter: which policies of a set match a request. *)

From S2P Require Import Prelude RustStd Core Crypto Score Enforcement CedarPlus.

(** ** layer_b.rs *)

(* yutha-cedar-plus/src/layer_b.rs:84-95 ScoringRuleHandle *)
Record ScoringRuleHandle := mkScoringHandle {
  rule_name : string; handle_score : string; score_scaled : Z }.
(* yutha-cedar-plus/src/layer_b.rs:100-109 TransitionHandle *)
Record TransitionHandle := mkTransitionHandle {
  handle_procedure : string; from_state : string; to_state : string; handle_action : string }.

(** [matched.sort()] *)
Definition sorted (l : list string) : list string := merge_sort str_le l.

Section layer_b.
Context `{SerdeJson} {engine : Cedar}.

(* yutha-cedar-plus/src/layer_b.rs:61-80 LayerBArtifacts *)
Record LayerBArtifacts := mkLayerB {
  scoring_policy_set : PolicySet;
  scoring_by_policy_id : gmap string ScoringRuleHandle;
  procedure_trigger_policy_set : PolicySet;
  trigger_by_policy_id : gmap string string;
  procedure_transition_policy_set : PolicySet;
  transition_by_policy_id : gmap string TransitionHandle }.

Definition nl : string := String (ascii_of_N 10) "".
(** The text of one synthesized policy. *)
Definition policy_text (policy_id action_constraint when : string) : string :=
  "@id(" +:+ quote +:+ policy_id +:+ quote +:+ ")" +:+ nl +:+
  "permit (principal, " +:+ action_constraint +:+ ", resource)" +:+ nl +:+
  "when { " +:+ when +:+ " };".
Definition action_is (a : string) : string := "action == Yutha::Action::" +:+ quote +:+ a +:+ quote.

(* yutha-cedar-plus/src/layer_b.rs:248-262 parse_synthesized_set *)
Definition parse_synthesized_set (texts : list string) (domain : string)
  : Result PolicySet CedarPlusError :=
  match texts with
  | [] => Ok policy_set_new
  | _ => map_err (λ e, CedarPlusError.Parse ("synthesized " +:+ domain +:+ " policy set failed to parse: " +:+ e))
           (policy_set_from_str (str_join (nl +:+ nl) texts))
  end.

Definition scoring_id (rule : EngineConfig.ScoringRule) : string :=
  "scoring__" +:+ EngineConfig.scoring_name rule.
Definition scoring_text (rule : EngineConfig.ScoringRule) : string :=
  policy_text (scoring_id rule)
    (match EngineConfig.head_action (EngineConfig.head rule) with
     | Some a => action_is a | None => "action" end)
    (EngineConfig.scoring_when rule).

(* yutha-cedar-plus/src/layer_b.rs:142-171 synthesize_scoring (loop) *)
Fixpoint scoring_handles (rules : list EngineConfig.ScoringRule) (by_id : gmap string ScoringRuleHandle)
  : Result (gmap string ScoringRuleHandle) CedarPlusError :=
  match rules with
  | [] => Ok by_id
  | rule :: rules =>
      let? score_scaled := map_err (CedarPlusError.InvalidScoringRule (EngineConfig.scoring_name rule))
                             (parse_score_scaled (EngineConfig.score rule)) in
      scoring_handles rules
        (<[scoring_id rule := mkScoringHandle (EngineConfig.scoring_name rule)
                                (EngineConfig.score rule) score_scaled]> by_id)
  end.

(* yutha-cedar-plus/src/layer_b.rs:139-175 synthesize_scoring *)
Definition synthesize_scoring (rules : list EngineConfig.ScoringRule)
  : Result (PolicySet * gmap string ScoringRuleHandle) CedarPlusError :=
  let? by_id := scoring_handles rules ∅ in
  let? policy_set := parse_synthesized_set (map scoring_text rules) "scoring" in
  Ok (policy_set, by_id).

Definition trigger_id (p : EngineConfig.Procedure) : string :=
  "proc_trigger__" +:+ EngineConfig.proc_name p.
(* yutha-cedar-plus/src/layer_b.rs:182-201 synthesize_triggers *)
Definition synthesize_triggers (procedures : list EngineConfig.Procedure)
  : Result (PolicySet * gmap string string) CedarPlusError :=
  let texts := map (λ p, policy_text (trigger_id p)
                      (action_is (EngineConfig.trigger_action (EngineConfig.trigger p)))
                      (default "true"%string (EngineConfig.trigger_when (EngineConfig.trigger p)))) procedures in
  let by_id := foldl (λ m p, <[trigger_id p := EngineConfig.proc_name p]> m) ∅ procedures in
  let? policy_set := parse_synthesized_set texts "procedure trigger" in
  Ok (policy_set, by_id).

Definition transition_id (p : EngineConfig.Procedure) (t : EngineConfig.ProcedureTransition) : string :=
  "proc_trans__" +:+ EngineConfig.proc_name p +:+ "__" +:+ EngineConfig.from t +:+ "__" +:+ EngineConfig.to t.
(** The transitions with an action, each with its procedure. *)
Definition action_transitions (procedures : list EngineConfig.Procedure)
  : list (EngineConfig.Procedure * EngineConfig.ProcedureTransition * string) :=
  concat (map (λ p, omap (λ t, (λ a, (p, t, a)) <$> EngineConfig.transition_action t)
                      (EngineConfig.transitions p)) procedures).
(* yutha-cedar-plus/src/layer_b.rs:208-242 synthesize_transitions *)
Definition synthesize_transitions (procedures : list EngineConfig.Procedure)
  : Result (PolicySet * gmap string TransitionHandle) CedarPlusError :=
  let ts := action_transitions procedures in
  let texts := map (λ '(p, t, a), policy_text (transition_id p t) (action_is a)
                      (default "true"%string (EngineConfig.actor_when t))) ts in
  let by_id := foldl (λ m '(p, t, a),
                 <[transition_id p t := mkTransitionHandle (EngineConfig.proc_name p)
                                          (EngineConfig.from t) (EngineConfig.to t) a]> m) ∅ ts in
  let? policy_set := parse_synthesized_set texts "procedure transition" in
  Ok (policy_set, by_id).

(* yutha-cedar-plus/src/layer_b.rs:117-132 synthesize *)
Definition synthesize (resolved : EngineConfig) : Result LayerBArtifacts CedarPlusError :=
  let? scoring := synthesize_scoring (EngineConfig.scoring_rules resolved) in
  let? triggers := synthesize_triggers (EngineConfig.procedures resolved) in
  let? transitions := synthesize_transitions (EngineConfig.procedures resolved) in
  Ok (mkLayerB scoring.1 scoring.2 triggers.1 triggers.2 transitions.1 transitions.2).

(** ** scoring.rs *)

(* yutha-cedar-plus/src/scoring.rs:32-38 ScoringOutcome *)
Record ScoringOutcome := mkScoringOutcome {
  contributions : list ScoreContribution; total_scaled : Z }.
(* yutha-cedar-plus/src/scoring.rs:44-50 ScoringOutcome::total_score *)
Definition total_score (o : ScoringOutcome) : option string :=
  match contributions o with [] => None | _ => Some (render_score_scaled (total_scaled o)) end.

(* yutha-cedar-plus/src/scoring.rs:85-101 evaluate_scoring (sum) *)
Definition add_score (by_id : gmap string ScoringRuleHandle) (o : ScoringOutcome) (policy_id : string)
  : ScoringOutcome :=
  match by_id !! policy_id with
  | None => o
  | Some handle =>
      mkScoringOutcome (contributions o ++ [ScoreContribution.mk (rule_name handle) (handle_score handle)])
        (i64_saturating_add (total_scaled o) (score_scaled handle))
  end.
(* yutha-cedar-plus/src/scoring.rs:56-107 evaluate_scoring *)
Definition evaluate_scoring (request : CedarRequest) (entities : Entities) (layer_b : LayerBArtifacts)
  : ScoringOutcome :=
  if (policies_count (scoring_policy_set layer_b) =? 0)%nat then mkScoringOutcome [] 0
  else
    foldl (add_score (scoring_by_policy_id layer_b)) (mkScoringOutcome [] 0)
      (sorted (reasons request (scoring_policy_set layer_b) entities)).
End layer_b.

(** ** procedure.rs *)

Module ProcedureInstance.
(* yutha-cedar-plus/src/procedure.rs:85-99 ProcedureInstance *)
Record ProcedureInstance := mk {
  instance_id : string; procedure_name : string; current_state : string;
  entry_wall_clock : string; closed : bool }.
End ProcedureInstance.
Notation ProcedureInstance := ProcedureInstance.ProcedureInstance.

(** The index is the map of instances. *)
Notation ProcedureIndex := (gmap string ProcedureInstance) (only parsing).
(* yutha-cedar-plus/src/procedure.rs:39-47 ProcedureIndex::new *)
Definition new_index : ProcedureIndex := ∅.

(* yutha-cedar-plus/src/procedure.rs:51-54 ProcedureIndex::record_enter *)
Definition record_enter (instance : ProcedureInstance) (index : ProcedureIndex) : ProcedureIndex :=
  <[ProcedureInstance.instance_id instance := instance]> index.
Definition moved (new_state : string) (terminal : bool) (i : ProcedureInstance) : ProcedureInstance :=
  ProcedureInstance.mk (ProcedureInstance.instance_id i) (ProcedureInstance.procedure_name i) new_state
    (ProcedureInstance.entry_wall_clock i) terminal.
(* yutha-cedar-plus/src/procedure.rs:58-63 ProcedureIndex::record_transition *)
Definition record_transition (instance_id new_state : string) (terminal : bool)
  (index : ProcedureIndex) : ProcedureIndex :=
  match index !! instance_id with
  | Some i => <[instance_id := moved new_state terminal i]> index
  | None => index
  end.
(* yutha-cedar-plus/src/procedure.rs:69-71 ProcedureIndex::has_open_instance *)
Definition has_open_instance (instance_id : string) (index : ProcedureIndex) : bool :=
  match index !! instance_id with Some i => negb (ProcedureInstance.closed i) | None => false end.


(* yutha-cedar-plus/src/procedure.rs:113-130 ProcedureEvalContext *)
Record ProcedureEvalContext := mkContext {
  triggering_descriptor_digest : Hash; swarm_id_str : string; request_action_kind : string;
  current_wall_clock : string }.

Section procedures.
Context `{CryptoOps, SerdeJson} {engine : Cedar}.
(** The iteration order of the instances' hash map. *)
Context (values : ProcedureIndex → list ProcedureInstance).
Implicit Types (index : ProcedureIndex) (ctx : ProcedureEvalContext).

(* yutha-cedar-plus/src/procedure.rs:75-80 ProcedureIndex::open_instances_for *)
Definition open_instances_for (procedure_name : string) index : list ProcedureInstance :=
  List.filter (λ i, negb (ProcedureInstance.closed i)
                    && bool_decide (ProcedureInstance.procedure_name i = procedure_name)) (values index).

(* yutha-cedar-plus/src/procedure.rs:182-188 triggers (instance id) *)
Definition instance_id_of (procedure_name : string) ctx : string :=
  hex (Hash.digest (sha256 (as_bytes procedure_name
                            ++ Hash.digest (triggering_descriptor_digest ctx)
                            ++ as_bytes (swarm_id_str ctx) ++ as_bytes (current_wall_clock ctx)))).

(** [procedures.iter().find(|p| p.name == name)] *)
Definition procedure_named (name : string) (config : EngineConfig) : option EngineConfig.Procedure :=
  List.find (λ p, bool_decide (EngineConfig.proc_name p = name)) (EngineConfig.procedures config).

Definition entered (p : EngineConfig.Procedure) (name : string) ctx : ProcedureInstance :=
  ProcedureInstance.mk (instance_id_of name ctx) name (EngineConfig.initial_state p)
    (current_wall_clock ctx) false.

(* yutha-cedar-plus/src/procedure.rs:175-218 triggers (loop) *)
Definition trigger_step (config : EngineConfig) (by_id : gmap string string) ctx
  (acc : ProcedureIndex * list ProcedureEffect) (policy_id : string)
  : ProcedureIndex * list ProcedureEffect :=
  let '(index, effects) := acc in
  match by_id !! policy_id with
  | None => acc
  | Some name =>
      if has_open_instance (instance_id_of name ctx) index then acc
      else
        match procedure_named name config with
        | None => acc
        | Some p => (record_enter (entered p name ctx) index,
                     effects ++ [ProcedureEffect.mk "procedure.enter" (instance_id_of name ctx)])
        end
  end.
(* yutha-cedar-plus/src/procedure.rs:147-219 triggers *)
Definition triggers (request : CedarRequest) (entities : Entities) (config : EngineConfig)
  (layer_b : LayerBArtifacts) ctx (acc : ProcedureIndex * list ProcedureEffect)
  : ProcedureIndex * list ProcedureEffect :=
  if (policies_count (procedure_trigger_policy_set layer_b) =? 0)%nat then acc
  else foldl (trigger_step config (trigger_by_policy_id layer_b) ctx) acc
         (sorted (reasons request (procedure_trigger_policy_set layer_b) entities)).

(* yutha-cedar-plus/src/procedure.rs:264-296 fire_transition *)
Definition fire_transition (config : EngineConfig) (handle : TransitionHandle)
  (acc : ProcedureIndex * list ProcedureEffect) : ProcedureIndex * list ProcedureEffect :=
  let '(index, effects) := acc in
  let open := map ProcedureInstance.instance_id
                (List.filter (λ i, bool_decide (ProcedureInstance.current_state i = from_state handle))
                   (open_instances_for (handle_procedure handle) index)) in
  match procedure_named (handle_procedure handle) config with
  | None => acc
  | Some procedure =>
      let terminal := bool_decide (to_state handle ∈ EngineConfig.terminal_states procedure) in
      (foldl (λ index id, record_transition id (to_state handle) terminal index) index open,
       effects ++ map (ProcedureEffect.mk "procedure.transition") open)
  end.

(* yutha-cedar-plus/src/procedure.rs:249-261 transitions (loop) *)
Definition transition_step (config : EngineConfig) (by_id : gmap string TransitionHandle) ctx
  (acc : ProcedureIndex * list ProcedureEffect) (policy_id : string)
  : ProcedureIndex * list ProcedureEffect :=
  match by_id !! policy_id with
  | None => acc
  | Some handle =>
      if negb (bool_decide (handle_action handle = request_action_kind ctx)) then acc
      else fire_transition config handle acc
  end.
(* yutha-cedar-plus/src/procedure.rs:221-262 transitions *)
Definition transitions (request : CedarRequest) (entities : Entities) (config : EngineConfig)
  (layer_b : LayerBArtifacts) ctx (acc : ProcedureIndex * list ProcedureEffect)
  : ProcedureIndex * list ProcedureEffect :=
  if (policies_count (procedure_transition_policy_set layer_b) =? 0)%nat then acc
  else foldl (transition_step config (transition_by_policy_id layer_b) ctx) acc
         (sorted (reasons request (procedure_transition_policy_set layer_b) entities)).

(** The index after the evaluation, and the effects. *)
(* yutha-cedar-plus/src/procedure.rs:134-145 evaluate_procedures *)
Definition evaluate_procedures (request : CedarRequest) (entities : Entities) (config : EngineConfig)
  (layer_b : LayerBArtifacts) ctx index : ProcedureIndex * list ProcedureEffect :=
  transitions request entities config layer_b ctx
    (triggers request entities config layer_b ctx (index, [])).
End procedures.

(** ** Procedures move along their declared transitions *)

Section procedure_laws.
Context `{CryptoOps, SerdeJson} {engine : Cedar} (values : ProcedureIndex → list ProcedureInstance).
Context (values_spec : ∀ m, values m ≡ₚ (map_to_list m).*2).
Context (config : EngineConfig) (ctx : ProcedureEvalContext).
Implicit Types (index : ProcedureIndex) (i : ProcedureInstance) (h : TransitionHandle).

Definition index_wf index : Prop :=
  ∀ id i, index !! id = Some i → ProcedureInstance.instance_id i = id.

(** An open instance in the state a matched transition starts from. *)
Definition applies h i : bool :=
  negb (ProcedureInstance.closed i)
  && bool_decide (ProcedureInstance.procedure_name i = handle_procedure h)
  && bool_decide (ProcedureInstance.current_state i = from_state h).

(** One move of an instance, by one of the [matched] transitions for the
    action of the request; it closes the instance when the state is terminal. *)
Inductive instance_step (matched : TransitionHandle → Prop) : relation ProcedureInstance :=
| instance_step_intro h p i :
    matched h → handle_action h = request_action_kind ctx → applies h i = true →
    procedure_named (ProcedureInstance.procedure_name i) config = Some p →
    instance_step matched i
      (moved (to_state h) (bool_decide (to_state h ∈ EngineConfig.terminal_states p)) i).

Lemma index_values_elem index i : i ∈ values index ↔ ∃ id, index !! id = Some i.
Proof.
  rewrite (values_spec index), list_elem_of_fmap. split.
  - intros ([id j] & -> & Hj%elem_of_map_to_list). by exists id.
  - intros [id Hi]. exists (id, i). split; [done|]. by apply elem_of_map_to_list.
Qed.

Lemma record_transitions_lookup st t (l : list string) index id :
  foldl (λ m id, record_transition id st t m) index l !! id =
  (if decide (id ∈ l) then moved st t else λ i, i) <$> index !! id.
Proof.
  revert index; induction l as [|x l IH]; intros index; cbn [foldl].
  { rewrite decide_False by (by intros ?%elem_of_nil). by destruct (index !! id). }
  rewrite IH. assert (record_transition x st t index !! id =
    (if decide (id = x) then moved st t else λ i, i) <$> index !! id) as ->.
  { unfold record_transition. destruct (decide (id = x)) as [->|Hne].
    - destruct (index !! x) as [i|] eqn:Hi; [by rewrite lookup_insert_eq|by rewrite Hi].
    - destruct (index !! x); [rewrite lookup_insert_ne by done|]; by destruct (index !! id). }
  destruct (index !! id) as [i|]; [|done]. simpl.
  destruct (decide (id = x)), (decide (id ∈ l)), (decide (id ∈ x :: l)); try set_solver.
Qed.

Lemma open_elem h index id : index_wf index →
  id ∈ map ProcedureInstance.instance_id
         (List.filter (λ i, bool_decide (ProcedureInstance.current_state i = from_state h))
            (open_instances_for values (handle_procedure h) index)) ↔
  ∃ i, index !! id = Some i ∧ applies h i = true.
Proof.
  intros Hwf. unfold open_instances_for, applies. rewrite list_elem_of_In, in_map_iff.
  setoid_rewrite List.filter_In. setoid_rewrite List.filter_In. setoid_rewrite <- list_elem_of_In.
  setoid_rewrite index_values_elem. setoid_rewrite andb_true_iff. split.
  - intros (i & <- & ([id' Hid] & ?) & ?). exists i.
    rewrite (Hwf _ _ Hid), andb_true_iff. tauto.
  - intros (i & Hid & Ha & ?). exists i. rewrite andb_true_iff in Ha. split; [by apply Hwf|]. eauto.
Qed.

(** Firing one transition moves exactly the instances it applies to. *)
Lemma fire_transition_spec h index es : index_wf index →
  let '(index', _) := fire_transition values config h (index, es) in
  ∀ id, index' !! id =
    (λ i, match procedure_named (handle_procedure h) config with
          | Some p =>
              if applies h i
              then moved (to_state h) (bool_decide (to_state h ∈ EngineConfig.terminal_states p)) i
              else i
          | None => i
          end) <$> index !! id.
Proof.
  intros Hwf. unfold fire_transition.
  destruct (procedure_named (handle_procedure h) config) as [p|]; intros id;
    [|by destruct (index !! id)].
  rewrite record_transitions_lookup. case_decide as Hid.
  - apply open_elem in Hid as (i & Hi & Ha); [|done]. rewrite Hi. simpl. by rewrite Ha.
  - destruct (index !! id) as [i|] eqn:Hi; [|done]. simpl. destruct (applies h i) eqn:Ha; [|done].
    destruct Hid. apply open_elem; [done|]. by exists i.
Qed.

Definition evolves (matched : TransitionHandle → Prop) index index' : Prop :=
  index_wf index' ∧
  ∀ id, match index !! id with
        | None => index' !! id = None
        | Some i => ∃ i', index' !! id = Some i' ∧ rtc (instance_step matched) i i'
        end.

Lemma evolves_refl matched index : index_wf index → evolves matched index index.
Proof. intros Hwf. split; [done|]. intros id. destruct (index !! id); [|done]. eauto using rtc_refl. Qed.

Lemma transition_step_evolves (matched : TransitionHandle → Prop) by_id index acc policy_id :
  (∀ h, by_id !! policy_id = Some h → matched h) →
  evolves matched index acc.1 →
  evolves matched index (transition_step values config by_id ctx acc policy_id).1.
Proof.
  intros Hm Hev. unfold transition_step. destruct (by_id !! policy_id) as [h|]; [|done].
  case_bool_decide as Ha; [|done]. cbn [negb]. destruct acc as [idx es]. cbn [fst] in *.
  destruct Hev as [Hwf Hev]. pose proof (fire_transition_spec h idx es Hwf) as Hf.
  destruct (fire_transition _ _ _ _) as [idx' es']. cbn [fst]. split.
  - intros id i Hi. rewrite Hf in Hi. destruct (idx !! id) as [j|] eqn:Hj; [|done].
    apply Hwf in Hj. simpl in Hi. injection Hi as <-.
    destruct (procedure_named _ _); [destruct (applies h j)|]; done.
  - intros id. specialize (Hev id). rewrite Hf. destruct (index !! id) as [i|]; [|by rewrite Hev].
    destruct Hev as (j & -> & Hrtc). simpl. eexists. split; [done|].
    destruct (procedure_named (handle_procedure h) config) as [p|] eqn:Hp; [|done].
    destruct (applies h j) eqn:Happ; [|done]. eapply rtc_r; [done|].
    apply instance_step_intro with (p:=p); [by apply Hm|done|done|].
    unfold applies in Happ. rewrite !andb_true_iff, !bool_decide_eq_true in Happ.
    destruct Happ as [[_ ->] _]. done.
Qed.

Lemma transitions_evolve (matched : TransitionHandle → Prop) by_id index (l : list string) acc :
  (∀ policy_id h, policy_id ∈ l → by_id !! policy_id = Some h → matched h) →
  evolves matched index acc.1 →
  evolves matched index (foldl (transition_step values config by_id ctx) acc l).1.
Proof.
  revert acc; induction l as [|x l IH]; intros acc Hm Hev; [done|]. cbn [foldl]. apply IH.
  - intros y h Hy. apply Hm. by right.
  - apply transition_step_evolves; [|done]. intros h. apply Hm. by left.
Qed.

(** What the triggers leave: an instance is as before, or was entered now in
    place of no instance or of a closed one. *)
Definition entered_now index (effects : list ProcedureEffect) (id : string) i : Prop :=
  ProcedureEffect.mk "procedure.enter" id ∈ effects ∧ has_open_instance id index = false ∧
  ∃ p name, procedure_named name config = Some p ∧ i = entered p name ctx.

Definition after_triggers index (acc : ProcedureIndex * list ProcedureEffect) : Prop :=
  index_wf acc.1 ∧
  ∀ id, acc.1 !! id = index !! id ∨ ∃ i, acc.1 !! id = Some i ∧ entered_now index acc.2 id i.

Lemma trigger_step_inv by_id index acc policy_id :
  after_triggers index acc → after_triggers index (trigger_step config by_id ctx acc policy_id).
Proof.
  destruct acc as [idx es]. intros [Hwf Hinv]. unfold trigger_step.
  destruct (by_id !! policy_id) as [name|]; [|done].
  destruct (has_open_instance _ idx) eqn:Ho; [done|].
  destruct (procedure_named name config) as [p|] eqn:Hp; [|done]. cbn [fst snd] in *.
  set (id0 := instance_id_of name ctx) in *. split; cbn [fst snd].
  - intros id i. unfold record_enter. simpl. fold id0.
    intros [[<- <-]|[_ Hi]]%lookup_insert_Some; [done|by eapply Hwf].
  - intros id. unfold record_enter. simpl. fold id0. destruct (decide (id = id0)) as [->|Hne].
    + right. exists (entered p name ctx). rewrite lookup_insert_eq. split; [done|].
      split; [set_solver|]. split; [|by exists p, name]. unfold has_open_instance in *.
      destruct (Hinv id0) as [Heq|(i & Hi & _ & _ & p' & name' & _ & ->)]; [by rewrite <- Heq|].
      rewrite Hi in Ho. discriminate Ho.
    + rewrite lookup_insert_ne by done. destruct (Hinv id) as [?|(i & Hi & He & Hr)]; [by left|].
      right. exists i. split; [done|]. split; [set_solver|done].
Qed.

Lemma triggers_inv by_id index (l : list string) acc :
  after_triggers index acc → after_triggers index (foldl (trigger_step config by_id ctx) acc l).
Proof. revert acc; induction l as [|x l IH]; intros acc Ha; [done|]. by apply IH, trigger_step_inv. Qed.

Lemma effects_kept_step by_id acc policy_id e : e ∈ acc.2 →
  e ∈ (transition_step values config by_id ctx acc policy_id).2.
Proof.
  unfold transition_step. destruct (by_id !! policy_id) as [h|]; [|done]. case_match; [done|].
  destruct acc as [idx es]. unfold fire_transition. destruct (procedure_named _ _); [|done].
  cbn [snd]. set_solver.
Qed.
Lemma effects_kept by_id (l : list string) acc e : e ∈ acc.2 →
  e ∈ (foldl (transition_step values config by_id ctx) acc l).2.
Proof. revert acc; induction l as [|x l IH]; intros acc He; [done|]. by apply IH, effects_kept_step. Qed.

Definition matched_handles (request : CedarRequest) (entities : Entities) (layer_b : LayerBArtifacts) h
  : Prop :=
  ∃ policy_id, policy_id ∈ reasons request (procedure_transition_policy_set layer_b) entities ∧
    transition_by_policy_id layer_b !! policy_id = Some h.

(** Procedures only move along their declared transitions.  Over one
    evaluation, whatever order the instances are visited in: no instance
    disappears; an instance that was open, or is entered now in the initial
    state of its procedure in place of no instance or of a closed one, goes
    through a chain of transitions that Cedar matched for the action of the
    request, each from the state it is in, and closes exactly in terminal
    states; a closed instance that is not entered again is unchanged. *)
Lemma procedures_move_legally (request : CedarRequest) (entities : Entities)
  (layer_b : LayerBArtifacts) index id :
  index_wf index →
  let '(index', effects) := evaluate_procedures values request entities config layer_b ctx index in
  let steps := rtc (instance_step (matched_handles request entities layer_b)) in
  index_wf index' ∧
  match index' !! id with
  | None => index !! id = None
  | Some i' => ∃ i, steps i i' ∧ (index !! id = Some i ∨ entered_now index effects id i) ∧
                    (ProcedureInstance.closed i = true → i' = i)
  end.
Proof.
  intros Hwf. unfold evaluate_procedures.
  set (acc := triggers request entities config layer_b ctx (index, [])).
  assert (after_triggers index acc) as [Hwf1 Ht].
  { unfold acc, triggers. assert (after_triggers index (index, [])) by (split; [done|by left]).
    destruct (_ =? 0)%nat; [done|by apply triggers_inv]. }
  assert (evolves (matched_handles request entities layer_b) acc.1
            (transitions values request entities config layer_b ctx acc).1 ∧
          ∀ e, e ∈ acc.2 → e ∈ (transitions values request entities config layer_b ctx acc).2)
    as [[Hwf2 Hev] Heff].
  { unfold transitions. destruct (_ =? 0)%nat; [split; [by apply evolves_refl|done]|].
    split; [|intros e; apply effects_kept]. apply transitions_evolve; [|by apply evolves_refl].
    intros policy_id h Hin Hh. exists policy_id. split; [|done].
    unfold sorted in Hin. by rewrite merge_sort_Permutation in Hin. }
  destruct (transitions _ _ _ _ _ _ acc) as [index' effects]. cbn [fst snd] in *.
  split; [done|]. specialize (Hev id). specialize (Ht id).
  destruct (acc.1 !! id) as [i|] eqn:Hi.
  - destruct Hev as (i' & -> & Hrtc). exists i. split; [done|]. split.
    + destruct Ht as [Heq|(j & [= <-] & He & Hr)]; [by left|right]. split; [by apply Heff|done].
    + intros Hcl. apply rtc_inv in Hrtc as [?|(j & Hstep & _)]; [done|]. inversion Hstep as [h p ? _ _ Ha _].
      unfold applies in Ha. by rewrite Hcl in Ha.
  - rewrite Hev. destruct Ht as [Heq|(j & Hj & _)]; [by symmetry|done].
Qed.

(** *** One instance at a time

    The same evaluation seen from the identifier [id]: the instance stored
    under it and the kinds of the effects that name it. *)

Definition view (id : string) (acc : ProcedureIndex * list ProcedureEffect)
  : option ProcedureInstance * list string :=
  (acc.1 !! id, map ProcedureEffect.action_kind
     (List.filter (λ e, bool_decide (ProcedureEffect.instance_id e = id)) acc.2)).

Definition is_open (o : option ProcedureInstance) : bool :=
  match o with Some i => negb (ProcedureInstance.closed i) | None => false end.

(** The first of the matched triggers that stands for [id] enters an instance,
    unless one is open. *)
Definition enter_one (names : list string) (id : string) (o : option ProcedureInstance)
  : option ProcedureInstance * list string :=
  if is_open o then (o, [])
  else
    match List.find (λ name, bool_decide (instance_id_of name ctx = id)
                             && bool_decide (is_Some (procedure_named name config))) names with
    | None => (o, [])
    | Some name =>
        ((λ p, entered p name ctx) <$> procedure_named name config, ["procedure.enter"%string])
    end.

(** A matched transition moves the instance when it applies to it. *)
Definition move_one (acc : option ProcedureInstance * list string) h
  : option ProcedureInstance * list string :=
  match acc.1, procedure_named (handle_procedure h) config with
  | Some i, Some p =>
      if bool_decide (handle_action h = request_action_kind ctx) && applies h i
      then (Some (moved (to_state h) (bool_decide (to_state h ∈ EngineConfig.terminal_states p)) i),
            acc.2 ++ ["procedure.transition"%string])
      else acc
  | _, _ => acc
  end.

Lemma NoDup_map_filter {A B} (f : A → B) (P : A → bool) (l : list A) :
  NoDup (map f l) → NoDup (map f (List.filter P l)).
Proof.
  induction l as [|x l IH]; [done|]. simpl. intros [Hx Hl]%NoDup_cons.
  destruct (P x); [|by apply IH]. simpl. apply NoDup_cons. split; [|by apply IH].
  rewrite list_elem_of_In, in_map_iff in Hx |- *. intros (y & Hy & [Hin _]%List.filter_In). eauto.
Qed.

Lemma open_NoDup name (P : ProcedureInstance → bool) index : index_wf index →
  NoDup (map ProcedureInstance.instance_id (List.filter P (open_instances_for values name index))).
Proof.
  intros Hwf. apply NoDup_map_filter. unfold open_instances_for. apply NoDup_map_filter.
  assert (map ProcedureInstance.instance_id (values index) ≡ₚ (map_to_list index).*1) as ->;
    [|apply NoDup_fst_map_to_list].
  rewrite (values_spec index), map_map. apply Permutation_refl'. 
  apply map_ext_in. intros [id i] Hk%list_elem_of_In. simpl. by apply Hwf, elem_of_map_to_list.
Qed.

Lemma filter_singled (kind id : string) (l : list string) : NoDup l →
  map ProcedureEffect.action_kind
    (List.filter (λ e, bool_decide (ProcedureEffect.instance_id e = id)) (map (ProcedureEffect.mk kind) l))
  = if decide (id ∈ l) then [kind] else [].
Proof.
  induction l as [|x l IH]; [done|]. intros [Hx Hl]%NoDup_cons. simpl.
  destruct (decide (x = id)) as [->|Hne].
  - rewrite bool_decide_true by done. simpl. rewrite IH by done.
    rewrite decide_False by done. by rewrite decide_True by (by left).
  - rewrite bool_decide_false by done. rewrite IH by done.
    apply decide_ext. rewrite elem_of_cons. split; [by right|by intros [->|?]].
Qed.

Lemma fire_transition_view h acc id : index_wf acc.1 → handle_action h = request_action_kind ctx →
  view id (fire_transition values config h acc) = move_one (view id acc) h.
Proof.
  intros Hwf Ha. destruct acc as [idx es]. pose proof (fire_transition_spec h idx es Hwf) as Hf.
  unfold fire_transition, view, move_one in *. cbn [fst] in *.
  destruct (procedure_named _ _) as [p|]; [|cbn [fst snd]; by case_match]. cbn [fst snd] in *. rewrite Hf.
  rewrite List.filter_app, map_app, filter_singled by by apply open_NoDup.
  rewrite (bool_decide_true (handle_action h = _)) by done. cbn [andb].
  destruct (decide (id ∈ map _ _)) as [Hid|Hid].
  - apply open_elem in Hid as (i & Hi & Happ); [|done]. rewrite Hi. simpl. by rewrite Happ.
  - rewrite app_nil_r. destruct (idx !! id) as [i|] eqn:Hi; [|done]. simpl.
    destruct (applies h i) eqn:Happ; [|done]. destruct Hid. apply open_elem; eauto.
Qed.

Lemma transitions_view by_id id (l : list string) acc : index_wf acc.1 →
  view id (foldl (transition_step values config by_id ctx) acc l)
  = foldl move_one (view id acc) (omap (λ policy_id, by_id !! policy_id) l).
Proof.
  revert acc; induction l as [|x l IH]; intros acc Hwf; [done|]. cbn [foldl].
  rewrite IH by (by apply (transition_step_evolves (λ _, True) by_id acc.1), evolves_refl).
  simpl. unfold transition_step. destruct (by_id !! x) as [h|]; [|done]. cbn [foldl].
  f_equal. case_bool_decide as Ha; cbn [negb]; [by apply fire_transition_view|].
  unfold move_one. rewrite bool_decide_false by done. by repeat case_match.
Qed.


Lemma triggers_view by_id id (l : list string) acc :
  view id (foldl (trigger_step config by_id ctx) acc l)
  = (let '(o, ks) := view id acc in
     let '(o', ks') := enter_one (omap (λ policy_id, by_id !! policy_id) l) id o in (o', ks ++ ks')).
Proof.
  revert acc; induction l as [|x l IH]; intros [idx es]; cbn [foldl].
  { unfold enter_one, view. simpl. destruct (is_open _); by rewrite app_nil_r. }
  rewrite IH. unfold trigger_step. simpl. destruct (by_id !! x) as [name|]; [|done].
  unfold has_open_instance, view, enter_one. fold (is_open (idx !! instance_id_of name ctx)).
  cbn [fst snd List.find].
  destruct (decide (instance_id_of name ctx = id)) as [He|Hne].
  - rewrite He, (bool_decide_true (id = id)) by done. cbn [andb].
    destruct (is_open (idx !! id)) eqn:Ho;
      cbn [fst snd]; [by rewrite Ho|].
    destruct (procedure_named name config) as [p|] eqn:Hp; cbn [fst snd].
    + rewrite (bool_decide_true (is_Some (Some p))) by eauto. unfold record_enter.
      assert (<[ProcedureInstance.instance_id (entered p name ctx) := entered p name ctx]> idx !! id
              = Some (entered p name ctx)) as -> by (apply lookup_insert_Some; by left).
      rewrite Hp. simpl. by rewrite List.filter_app, map_app; simpl; rewrite bool_decide_true, app_nil_r.
    + rewrite (bool_decide_false (is_Some None)) by (by intros [??]). by rewrite Ho.
  - rewrite (bool_decide_false (instance_id_of name ctx = id)) by done. cbn [andb].
    destruct (is_open (idx !! instance_id_of name ctx)); cbn [fst snd]; [done|].
    destruct (procedure_named name config) as [p|]; cbn [fst snd]; [|done].
    unfold record_enter. simpl. rewrite lookup_insert_ne by done.
    rewrite List.filter_app, map_app. simpl. rewrite bool_decide_false by done. by rewrite app_nil_r.
Qed.

(** The handles of the policies that Cedar matched. *)
Definition matched_names (request : CedarRequest) (entities : Entities) (layer_b : LayerBArtifacts)
  : list string :=
  if (policies_count (procedure_trigger_policy_set layer_b) =? 0)%nat then []
  else omap (λ id, trigger_by_policy_id layer_b !! id)
         (sorted (reasons request (procedure_trigger_policy_set layer_b) entities)).
Definition matched_transitions (request : CedarRequest) (entities : Entities) (layer_b : LayerBArtifacts)
  : list TransitionHandle :=
  if (policies_count (procedure_transition_policy_set layer_b) =? 0)%nat then []
  else omap (λ id, transition_by_policy_id layer_b !! id)
         (sorted (reasons request (procedure_transition_policy_set layer_b) entities)).

(** [C26] Evaluating procedures, one instance at a time.  The evaluation of the
    whole index, which has every instance under its own identifier, is, for every identifier, the life of the instance under it:
    the first matched trigger that stands for the identifier enters an
    instance in its procedure's initial state unless one is open, then each
    matched transition, in the order of the policy names, moves it when it is
    open, of the transition's procedure, in the state the transition starts
    from, and the request has the transition's action.  So one request may enter an
    instance and move it several times, as far as the order of the names allows;
    no case is denied as ambiguous ([request_moves_twice]).  The effects that name
    the instance are exactly one entry and one transition per move, in that
    order. *)
Theorem procedures_exact (request : CedarRequest) (entities : Entities)
  (layer_b : LayerBArtifacts) index id :
  index_wf index →
  view id (evaluate_procedures values request entities config layer_b ctx index)
  = foldl move_one (enter_one (matched_names request entities layer_b) id (index !! id))
      (matched_transitions request entities layer_b).
Proof.
  intros Hwf. unfold evaluate_procedures, matched_names, matched_transitions.
  set (acc := triggers request entities config layer_b ctx (index, [])).
  assert (index_wf acc.1) as Hwf1.
  { unfold acc, triggers. destruct (_ =? 0)%nat; [done|].
    by apply (triggers_inv _ index _ (index, [])); split; [|left]. }
  assert (view id acc = enter_one (matched_names request entities layer_b) id (index !! id)) as Hv.
  { unfold acc, triggers, matched_names. destruct (_ =? 0)%nat.
    - unfold enter_one, view. simpl. by destruct (is_open _).
    - rewrite triggers_view. unfold view. cbn [fst snd map List.filter]. by destruct (enter_one _ _ _). }
  unfold transitions. unfold matched_names in Hv. rewrite <- Hv.
  destruct (policies_count (procedure_transition_policy_set layer_b) =? 0)%nat; [done|].
  by apply transitions_view.
Qed.
End procedure_laws.

(** ** Scores *)

Section scoring_laws.
Context `{SerdeJson} {engine : Cedar}.
Implicit Types (by_id : gmap string ScoringRuleHandle) (o : ScoringOutcome).

Lemma sorted_permutation (l k : list string) : l ≡ₚ k → sorted l = sorted k.
Proof.
  intros Hp. apply (StronglySorted_unique str_le); [apply StronglySorted_merge_sort; apply _..|].
  unfold sorted. by rewrite !merge_sort_Permutation.
Qed.

(** The handle of the last rule with a policy's identifier. *)
Definition handle_for (rules : list EngineConfig.ScoringRule) (id : string) : option ScoringRuleHandle :=
  (λ rule, mkScoringHandle (EngineConfig.scoring_name rule) (EngineConfig.score rule)
             (default 0%Z (result_ok (parse_score_scaled (EngineConfig.score rule)))))
    <$> List.find (λ rule, bool_decide (scoring_id rule = id)) (rev rules).

Lemma find_app {A} (f : A → bool) l k :
  List.find f (l ++ k) = match List.find f l with Some x => Some x | None => List.find f k end.
Proof. induction l as [|x l IH]; [done|]. simpl. by destruct (f x). Qed.

Lemma scoring_handles_spec rules by_id by_id' id :
  scoring_handles rules by_id = Ok by_id' →
  by_id' !! id = match handle_for rules id with Some h => Some h | None => by_id !! id end.
Proof.
  revert by_id; induction rules as [|rule rules IH]; intros by_id; cbn [scoring_handles].
  { by intros [= <-]. }
  intros (x & Hx%map_err_Ok & Hs)%rbind_Ok. rewrite (IH _ Hs). unfold handle_for. simpl.
  rewrite find_app. destruct (List.find _ (rev rules)) as [r|]; [done|]. simpl.
  destruct (decide (scoring_id rule = id)) as [<-|Hne].
  - rewrite bool_decide_true, lookup_insert_eq by done. simpl. by rewrite Hx.
  - by rewrite bool_decide_false, lookup_insert_ne.
Qed.

(** The contribution of a matched policy. *)
Definition contribution_for (rules : list EngineConfig.ScoringRule) (id : string) : option ScoreContribution :=
  (λ h, ScoreContribution.mk (rule_name h) (handle_score h)) <$> handle_for rules id.
Definition value_of (c : ScoreContribution) : Z :=
  default 0%Z (result_ok (parse_score_scaled (ScoreContribution.score c))).
Definition sum_scores (l : list ScoreContribution) : Z :=
  foldl (λ acc c, i64_saturating_add acc (value_of c)) 0%Z l.

Lemma saturating_i64 x y : is_i64 (i64_saturating_add x y) = true.
Proof. unfold is_i64, i64_saturating_add, i64_min, i64_max. apply andb_true_iff. rewrite !Z.leb_le. lia. Qed.
Lemma sum_scores_i64 l : is_i64 (sum_scores l) = true.
Proof.
  unfold sum_scores. assert (is_i64 0%Z = true) as Hz by done. revert Hz. generalize 0%Z.
  induction l as [|c l IH]; [done|]. intros z _. apply IH, saturating_i64.
Qed.

(** The summing loop. *)
Lemma add_scores_eq rules by_id (l : list string) o :
  (∀ id, by_id !! id = handle_for rules id) → total_scaled o = sum_scores (contributions o) →
  let o' := foldl (add_score by_id) o l in
  contributions o' = contributions o ++ omap (contribution_for rules) l ∧
  total_scaled o' = sum_scores (contributions o').
Proof.
  intros Hby. revert o; induction l as [|id l IH]; intros o Ho; cbn [foldl]; [by rewrite app_nil_r|].
  assert (total_scaled (add_score by_id o id) = sum_scores (contributions (add_score by_id o id))) as Ho'.
  { unfold add_score. rewrite Hby. unfold handle_for. destruct (List.find _ _) as [r|]; [|done]. simpl.
    unfold sum_scores in *. by rewrite foldl_app, Ho. }
  destruct (IH _ Ho') as [Hc Ht]. split; [|done]. rewrite Hc. unfold add_score. simpl.
  unfold contribution_for at 2. rewrite Hby. destruct (handle_for rules id); [|done]. simpl. by rewrite <- app_assoc.
Qed.

(** What the artifacts of a configuration give a request. *)
Lemma scoring_contributions (config : EngineConfig) (layer_b : LayerBArtifacts)
  (request : CedarRequest) (entities : Entities) :
  synthesize config = Ok layer_b →
  let o := evaluate_scoring request entities layer_b in
  contributions o =
    (if (policies_count (scoring_policy_set layer_b) =? 0)%nat then []
     else omap (contribution_for (EngineConfig.scoring_rules config))
            (sorted (reasons request (scoring_policy_set layer_b) entities))) ∧
  total_scaled o = sum_scores (contributions o).
Proof.
  intros Hs o. unfold synthesize in Hs. apply rbind_Ok in Hs as ([ps by_id] & Hsc & Hs).
  apply rbind_Ok in Hs as (tr & _ & Hs). apply rbind_Ok in Hs as (ts & _ & [= <-]).
  unfold synthesize_scoring in Hsc. apply rbind_Ok in Hsc as (by_id' & Hh & Hsc).
  apply rbind_Ok in Hsc as (ps' & _ & [= -> ->]).
  assert (∀ id, by_id !! id = handle_for (EngineConfig.scoring_rules config) id) as Hby.
  { intros id. rewrite (scoring_handles_spec _ _ _ _ Hh), lookup_empty. by destruct (handle_for _ _). }
  unfold o, evaluate_scoring. cbn [scoring_policy_set scoring_by_policy_id].
  destruct (_ =? 0)%nat; [done|]. by apply (add_scores_eq _ _ _ (mkScoringOutcome [] 0)).
Qed.

(** What a request scores.  Under the artifacts synthesized from a
    configuration, the contributions are, in the order of the policy names,
    those of the rules whose policy Cedar matched (of rules of one name the
    last), with the score the rule declares, and none when no rule exists; the
    total is their saturating sum, is absent exactly when nothing contributed,
    and its text reads back to it; and the outcome does not depend on the
    order in which Cedar reports the matched policies. *)
Lemma scoring_exact (config : EngineConfig) (layer_b : LayerBArtifacts)
  (request : CedarRequest) (entities : Entities) :
  synthesize config = Ok layer_b →
  let o := evaluate_scoring request entities layer_b in
  let matched := reasons request (scoring_policy_set layer_b) entities in
  contributions o =
    (if (policies_count (scoring_policy_set layer_b) =? 0)%nat then []
     else omap (contribution_for (EngineConfig.scoring_rules config)) (sorted matched)) ∧
  total_scaled o = sum_scores (contributions o) ∧
  (total_score o = None ↔ contributions o = []) ∧
  (∀ text, total_score o = Some text → parse_score_scaled text = Ok (total_scaled o)) ∧
  (∀ request' entities',
     matched ≡ₚ reasons request' (scoring_policy_set layer_b) entities' →
     evaluate_scoring request' entities' layer_b = o).
Proof.
  intros Hs o matched. destruct (scoring_contributions config layer_b request entities Hs) as [Hc Ht].
  split_and!; try done.
  - unfold total_score. by destruct (contributions o).
  - unfold total_score. intros text. destruct (contributions o) eqn:He; [done|]. intros [= <-].
    apply score_render_parse. unfold o. rewrite Ht. apply sum_scores_i64.
  - intros request' entities' Hp. unfold o, evaluate_scoring. unfold matched in Hp.
    by rewrite (sorted_permutation _ _ Hp).
Qed.

(** Cedar names the policies of a parsed text [policy0], [policy1], ...,
    whatever their [@id] annotation.  The identifiers a synthesis looks up all
    carry another prefix, so under such names nothing scores. *)
Lemma default_names_never_score (config : EngineConfig) (layer_b : LayerBArtifacts)
  (request : CedarRequest) (entities : Entities) :
  synthesize config = Ok layer_b →
  (∀ id, id ∈ reasons request (scoring_policy_set layer_b) entities → String.prefix "policy" id = true) →
  evaluate_scoring request entities layer_b = mkScoringOutcome [] 0.
Proof.
  intros Hs Hn. destruct (scoring_contributions config layer_b request entities Hs) as [Hc Ht].
  destruct (evaluate_scoring request entities layer_b) as [cs t]. cbn [contributions total_scaled] in *.
  assert (cs = []) as ->; [|by rewrite Ht].
  rewrite Hc. destruct (_ =? 0)%nat; [done|]. apply elem_of_nil_inv. intros c (id & Hid & Hk)%list_elem_of_omap.
  unfold sorted in Hid. rewrite merge_sort_Permutation in Hid. apply Hn in Hid.
  unfold contribution_for, handle_for in Hk. destruct (List.find _ _) as [r|] eqn:Hf; [|done].
  apply List.find_some in Hf as [_ Hf%bool_decide_eq_true]. by subst id.
Qed.
End scoring_laws.

(** ** A toy Cedar, used by the witnesses *)

Module CedarToy.
Import EngineConfig.
#[global] Instance serde_json : SerdeJson := {| JsonNumber := Z; json_to_vec _ := [] |}.
(** A policy set is its text; a request lists the policies it matches, and is
    permitted when there are any. *)
#[global] Instance cedar : Cedar := {|
  PolicySet := string; Schema := unit; CedarUid := string * string; Context := unit;
  CedarRequest := list string; Entities := unit;
  policy_set_new := "";
  policy_set_from_str s := Ok s;
  policies_count s := String.length s;
  validate_strict _ _ := (true, []);
  expression_from_str _ := Ok tt;
  entity_type_name_from_str s := Ok s;
  entity_id_from_str s := Ok s;
  uid_from_type_name_and_id t i := (t, i);
  entities_from_json _ _ := Ok tt;
  context_from_json _ := Ok tt;
  request_new p a r _ _ := Ok [a.2]%string;
  is_authorized r _ _ := (bool_decide (r ≠ []), r) |}.
Definition case : Procedure :=
  mkProcedure "case" "new" ["new"; "open"; "done"]%string ["done"%string] (mkTrigger "File" None)
    [mkTransition "new" "open" (Some "Take"%string) None None;
     mkTransition "open" "done" (Some "Close"%string) None None] ∅.
Definition config : EngineConfig :=
  EngineConfig.mk "1" [] [mkScoring "late" "-0.25" (mkHead None None None) "true";
                          mkScoring "kind" "0.5" (mkHead None None None) "true"] [case] [].
Definition layer_b : LayerBArtifacts :=
  match synthesize config with Ok l => l | Err _ => mkLayerB "" ∅ "" ∅ "" ∅ end.
Definition values (m : gmap string ProcedureInstance) : list ProcedureInstance := (map_to_list m).*2.
Definition ctx (action : string) : ProcedureEvalContext :=
  mkContext (Hash.mk HashAlgorithm.Sha256 [Byte.x01]) "s" action "5".
Definition filed := evaluate_procedures values ["proc_trigger__case"%string] tt config layer_b
                      (ctx "File") new_index.
Definition id : string := instance_id_of "case" (ctx "File").
Definition taken := evaluate_procedures values ["proc_trans__case__new__open"%string] tt config layer_b
                      (ctx "Take") filed.1.
Example states :
  (ProcedureInstance.current_state <$> filed.1 !! id, ProcedureInstance.current_state <$> taken.1 !! id,
   filed.2 ++ taken.2)
  = (Some "new"%string, Some "open"%string,
     [ProcedureEffect.mk "procedure.enter" id; ProcedureEffect.mk "procedure.transition" id]).
Proof. vm_compute. reflexivity. Qed.
Example late_and_kind :
  total_score (evaluate_scoring ["scoring__late"; "unknown"; "scoring__kind"]%string tt layer_b) = Some "0.25"%string.
Proof. vm_compute. reflexivity. Qed.
(** Two transitions on the same action, one after the other. *)
Definition hops (a b c : string) : EngineConfig :=
  EngineConfig.mk "1" [] []
    [mkProcedure "p" a [a; b; c] [] (mkTrigger "Go" None)
       [mkTransition a b (Some "Go"%string) None None; mkTransition b c (Some "Go"%string) None None] ∅] [].
Definition hopped (a b c : string) : option string * nat :=
  let config := hops a b c in
  let layer_b := match synthesize config with Ok l => l | Err _ => mkLayerB "" ∅ "" ∅ "" ∅ end in
  let r := evaluate_procedures values
             ["proc_trigger__p"; "proc_trans__p__" +:+ a +:+ "__" +:+ b; "proc_trans__p__" +:+ b +:+ "__" +:+ c]%string
             tt config layer_b (ctx "Go") new_index in
  (ProcedureInstance.current_state <$> r.1 !! instance_id_of "p" (ctx "Go"), length r.2).
Definition filed_case : ProcedureInstance :=
  match filed.1 !! id with Some i => i | None => ProcedureInstance.mk "" "" "" "" true end.
Definition moved_case : ProcedureInstance :=
  match taken.1 !! id with Some i => i | None => ProcedureInstance.mk "" "" "" "" true end.
End CedarToy.

(** One request enters an instance and moves it on; how far depends on how the
    states are called. *)
Lemma request_moves_twice :
  CedarToy.hopped "a" "b" "c" = (Some "c"%string, 3) ∧ CedarToy.hopped "c" "b" "a" = (Some "b"%string, 2).
Proof. split; vm_compute; reflexivity. Qed.

Lemma procedures_move_legally_witness :
  index_wf CedarToy.taken.1 ∧
  ∃ i, rtc (instance_step CedarToy.config (CedarToy.ctx "Take")
              (matched_handles ["proc_trans__case__new__open"%string] tt CedarToy.layer_b)) i CedarToy.moved_case ∧
    (CedarToy.filed.1 !! CedarToy.id = Some i ∨
     entered_now CedarToy.config (CedarToy.ctx "Take") CedarToy.filed.1 CedarToy.taken.2 CedarToy.id i) ∧
    (ProcedureInstance.closed i = true → CedarToy.moved_case = i).
Proof.
  assert (∀ m, CedarToy.values m ≡ₚ (map_to_list m).*2) as Hv by (intros m; reflexivity).
  assert (index_wf CedarToy.filed.1) as Hwf.
  { pose proof (procedures_move_legally CedarToy.values Hv CedarToy.config (CedarToy.ctx "File")
      ["proc_trigger__case"%string] tt CedarToy.layer_b new_index "") as Hp.
    assert (index_wf new_index) as Hn by (intros id i Hi; unfold new_index in Hi; by rewrite lookup_empty in Hi).
    specialize (Hp Hn). by destruct Hp. }
  exact (procedures_move_legally CedarToy.values Hv CedarToy.config (CedarToy.ctx "Take")
    ["proc_trans__case__new__open"%string] tt CedarToy.layer_b CedarToy.filed.1 CedarToy.id Hwf).
Defined.

Lemma scoring_exact_witness :
  synthesize CedarToy.config = Ok CedarToy.layer_b ∧
  contributions (evaluate_scoring ["scoring__late"; "scoring__kind"]%string tt CedarToy.layer_b)
  = omap (contribution_for (EngineConfig.scoring_rules CedarToy.config))
      (sorted ["scoring__late"; "scoring__kind"]%string).
Proof.
  assert (synthesize CedarToy.config = Ok CedarToy.layer_b) as Hs by (vm_compute; reflexivity).
  split; [exact Hs|].
  apply (scoring_exact CedarToy.config CedarToy.layer_b ["scoring__late"; "scoring__kind"]%string tt Hs).
Defined.

Lemma procedures_exact_witness :
  index_wf CedarToy.filed.1 ∧
  view CedarToy.id CedarToy.taken
  = foldl (move_one CedarToy.config (CedarToy.ctx "Take"))
      (enter_one CedarToy.config (CedarToy.ctx "Take") [] CedarToy.id (CedarToy.filed.1 !! CedarToy.id))
      [mkTransitionHandle "case" "new" "open" "Take"].
Proof.
  assert (∀ m, CedarToy.values m ≡ₚ (map_to_list m).*2) as Hv by (intros m; reflexivity).
  assert (index_wf CedarToy.filed.1) as Hwf.
  { intros i j Hi. assert (CedarToy.filed.1 = {[CedarToy.id := CedarToy.filed_case]}) as He
      by (vm_compute; reflexivity).
    rewrite He in Hi. apply lookup_singleton_Some in Hi as [<- <-]. vm_compute. reflexivity. }
  split; [exact Hwf|]. unfold CedarToy.taken.
  rewrite (procedures_exact (engine:=CedarToy.cedar) CedarToy.values Hv CedarToy.config (CedarToy.ctx "Take")
      ["proc_trans__case__new__open"%string] tt CedarToy.layer_b CedarToy.filed.1 CedarToy.id Hwf).
  f_equal; vm_compute; reflexivity.
Defined.
