(* ===== verification/Validate.v ===== *)
(** * [yutha-cedar-plus]: validating and loading a constitution

    The structural validators, the resolution of named predicates and the
    bridge to Cedar ([validate.rs]), and the loader that runs them
    ([loader.rs]). *)

From S2P Require Import Prelude RustStd Core Crypto Score Enforcement CedarPlus Procedure.
Import EngineConfig.

(** ** Names *)

Section validate.
(** The iteration orders of a hash set and of the escalation graph. *)
Context (set_iter : gset string → list string)
        (graph_iter : gmap string (gset string) → list (string * gset string)).
Implicit Types (config : EngineConfig) (p : Procedure).

Notation Checked := (Result unit CedarPlusError) (only parsing).

(** [for x in xs { f(x)? }] *)
Fixpoint check_each {A} (f : A → Checked) (l : list A) : Checked :=
  match l with
  | [] => Ok tt
  | x :: l => let? _ := f x in check_each f l
  end.

(** One loop over names: [if !seen.insert(name) { return Err(..) }]. *)
Fixpoint check_distinct (err : string → CedarPlusError) (seen : gset string) (names : list string)
  : Checked :=
  match names with
  | [] => Ok tt
  | n :: names =>
      if bool_decide (n ∈ seen) then Err (err n) else check_distinct err ({[n]} ∪ seen) names
  end.

(* yutha-cedar-plus/src/validate.rs:31-73 check_unique_names *)
Definition check_unique_names config : Checked :=
  let? _ := check_distinct (λ n, CedarPlusError.InvalidScoringRule n "duplicate scoring-rule name")
              ∅ (map scoring_name (scoring_rules config)) in
  let? _ := check_distinct (λ n, CedarPlusError.InvalidProcedure n "duplicate procedure name")
              ∅ (map proc_name (procedures config)) in
  let? _ := check_distinct (λ n, CedarPlusError.InvalidEnforcementRule n "duplicate enforcement-rule name")
              ∅ (map name (enforcement_rules config)) in
  check_distinct (λ n, CedarPlusError.Parse ("duplicate predicate name: " +:+ n))
    ∅ (map pred_name (predicates config)).

(** ** Scoring rules *)

Fixpoint trim_start_matches (c : ascii) (s : string) : string :=
  match s with
  | String d t => if bool_decide (d = c) then trim_start_matches c t else s
  | EmptyString => EmptyString
  end.
Definition starts_with_digit (s : string) : bool :=
  match s with String c _ => is_digit c | EmptyString => false end.
Definition zero_forms : list string := ["0"; "0.0"; "0.00"; "-0"; "-0.0"; "-0.00"]%string.

Definition check_scoring_rule (rule : ScoringRule) : Checked :=
  let s := score rule in
  if bool_decide (s = ""%string) then
    Err (CedarPlusError.InvalidScoringRule (scoring_name rule) "score is empty")
  else if negb (starts_with_digit (trim_start_matches "-"%char s)) then
    Err (CedarPlusError.InvalidScoringRule (scoring_name rule)
           ("score " +:+ debug_str s +:+ " doesn't look numeric"))
  else if bool_decide (s ∈ zero_forms) then
    Err (CedarPlusError.InvalidScoringRule (scoring_name rule) "score must not be zero")
  else Ok tt.
(* yutha-cedar-plus/src/validate.rs:80-111 check_scoring_rules *)
Definition check_scoring_rules config : Checked := check_each check_scoring_rule (scoring_rules config).

(** ** Procedures *)

(* yutha-cedar-plus/src/validate.rs:127-147 check_procedure_states *)
Definition check_procedure_states p : Checked :=
  if negb (bool_decide (initial_state p ∈ states p)) then
    Err (CedarPlusError.InvalidProcedure (proc_name p)
           ("initial_state " +:+ debug_str (initial_state p) +:+ " not in states"))
  else
    check_each (λ terminal,
      if negb (bool_decide (terminal ∈ states p)) then
        Err (CedarPlusError.InvalidProcedure (proc_name p)
               ("terminal_state " +:+ debug_str terminal +:+ " not in states"))
      else Ok tt) (terminal_states p).

(* yutha-cedar-plus/src/validate.rs:236-243 transition_action_key *)
Definition transition_action_key (t : ProcedureTransition) : string :=
  match transition_action t, on_timeout t with
  | Some a, _ => "action:" +:+ a
  | None, Some limit => "timeout:" +:+ limit
  | None, None => "unreachable"
  end.

(** The loop over the transitions, with the counters of the keys seen. *)
(* yutha-cedar-plus/src/validate.rs:156-212 check_procedure_transitions (loop) *)
Fixpoint check_transitions p (keys : gmap (string * string) N) (ts : list ProcedureTransition) : Checked :=
  let invalid d := Err (CedarPlusError.InvalidProcedure (proc_name p) d) in
  match ts with
  | [] => Ok tt
  | t :: ts =>
      let arrow := debug_str (from t) +:+ "->" +:+ debug_str (to t) in
      if negb (bool_decide (from t ∈ states p)) then
        invalid ("transition from " +:+ debug_str (from t) +:+ " not in states")
      else if negb (bool_decide (to t ∈ states p)) then
        invalid ("transition to " +:+ debug_str (to t) +:+ " not in states")
      else if bool_decide (from t ∈ terminal_states p) then
        invalid ("transition from terminal state " +:+ debug_str (from t)
                 +:+ " — terminal states cannot have outgoing transitions")
      else if bool_decide (transition_action t = None) && bool_decide (on_timeout t = None) then
        invalid ("transition " +:+ arrow +:+ " has neither action nor on_timeout")
      else if bool_decide (is_Some (transition_action t)) && bool_decide (is_Some (on_timeout t)) then
        invalid ("transition " +:+ arrow +:+ " has both action and on_timeout (mutually exclusive)")
      else
        let key := (from t, transition_action_key t) in
        let counter := (default 0 (keys !! key) + 1)%N in
        if (1 <? counter)%N then
          invalid ("two transitions share (from=" +:+ debug_str (from t) +:+ ", action_or_timeout="
                   +:+ debug_str (transition_action_key t) +:+ ") — ambiguous")
        else check_transitions p (<[key := counter]> keys) ts
  end.

(* yutha-cedar-plus/src/validate.rs:149-234 check_procedure_transitions *)
Definition check_procedure_transitions p : Checked :=
  let? _ := check_transitions p ∅ (transitions p) in
  check_each (λ s,
    if bool_decide (s ∈ terminal_states p) then Ok tt
    else if negb (existsb (λ t, bool_decide (from t = s)) (transitions p)) then
      Err (CedarPlusError.InvalidProcedure (proc_name p)
             ("non-terminal state " +:+ debug_str s
              +:+ " has no outgoing transitions — instances would be stuck"))
    else Ok tt) (states p).

(** ** Escalation between procedures *)

(** The targets of a procedure's escalations. *)
Definition escalation_targets p : gset string := list_to_set (map_to_list (on_timeout_escalate p)).*2.
Definition escalation_graph config : gmap string (gset string) :=
  foldl (λ g p, <[proc_name p := escalation_targets p]> g) ∅ (procedures config).

(* yutha-cedar-plus/src/validate.rs:271-275 Color *)
Inductive Color := White | Gray | Black.
#[global] Instance Color_eq_dec : EqDecision Color.
Proof. solve_decision. Defined.
Notation Colors := (gmap string Color) (only parsing).

(** The loop over the edges of a node, which calls [dfs] on unseen targets. *)
(* yutha-cedar-plus/src/validate.rs:289-300 check_escalation_acyclic::dfs (loop) *)
Fixpoint visit (dfs : string → Colors → option (Result Colors CedarPlusError)) (node : string)
  (edges : list string) (color : Colors) : option (Result Colors CedarPlusError) :=
  match edges with
  | [] => Some (Ok color)
  | next :: edges =>
      match color !! next with
      | Some Gray =>
          Some (Err (CedarPlusError.InvalidProcedure node
                       ("escalation cycle reaches back to " +:+ debug_str next)))
      | Some Black => visit dfs node edges color
      | Some White | None =>
          match dfs next color with
          | Some (Ok color) => visit dfs node edges color
          | r => r
          end
      end
  end.

(* yutha-cedar-plus/src/validate.rs:288-301 check_escalation_acyclic::dfs (edges) *)
Definition visit_targets (graph : gmap string (gset string))
  (dfs : string → Colors → option (Result Colors CedarPlusError)) (node : string) (color : Colors)
  : option (Result Colors CedarPlusError) :=
  match graph !! node with
  | Some edges => visit dfs node (set_iter edges) color
  | None => Some (Ok color)
  end.
(** [None] when the fuel runs out, which the fuel of [color_all] excludes. *)
(* yutha-cedar-plus/src/validate.rs:282-304 check_escalation_acyclic::dfs *)
Fixpoint dfs (graph : gmap string (gset string)) (fuel : nat) (node : string) (color : Colors)
  : option (Result Colors CedarPlusError) :=
  match fuel with
  | O => None
  | S fuel =>
      let color := <[node := Gray]> color in
      match visit_targets graph (dfs graph fuel) node color with
      | Some (Ok color) => Some (Ok (<[node := Black]> color))
      | r => r
      end
  end.

(* yutha-cedar-plus/src/validate.rs:306-310 check_escalation_acyclic (loop) *)
Fixpoint color_all (graph : gmap string (gset string)) (fuel : nat) (ps : list Procedure)
  (color : Colors) : option (Result Colors CedarPlusError) :=
  match ps with
  | [] => Some (Ok color)
  | p :: ps =>
      if bool_decide (color !! proc_name p = Some White) then
        match dfs graph fuel (proc_name p) color with
        | Some (Ok color) => color_all graph fuel ps color
        | r => r
        end
      else color_all graph fuel ps color
  end.

Definition check_targets (names : gset string) (entry : string * gset string) : Checked :=
  check_each (λ target,
    if negb (bool_decide (target ∈ names)) then
      Err (CedarPlusError.InvalidProcedure entry.1
             ("escalation target " +:+ debug_str target +:+ " is not a declared procedure"))
    else Ok tt) (set_iter entry.2).
Definition declared config : gset string := list_to_set (map proc_name (procedures config)).
Definition all_white config : Colors :=
  foldl (λ c p, <[proc_name p := White]> c) ∅ (procedures config).

(* yutha-cedar-plus/src/validate.rs:245-313 check_escalation_acyclic *)
Definition check_escalation_acyclic config : Checked :=
  let graph := escalation_graph config in
  let? _ := check_each (check_targets (declared config)) (graph_iter graph) in
  match color_all graph (length (procedures config)) (procedures config) (all_white config) with
  | Some (Ok _) => Ok tt
  | Some (Err e) => Err e
  | None => Err (CedarPlusError.Infrastructure "out of fuel")
  end.

(* yutha-cedar-plus/src/validate.rs:118-125 check_procedures *)
Definition check_procedures config : Checked :=
  let? _ := check_each (λ p, let? _ := check_procedure_states p in check_procedure_transitions p)
              (procedures config) in
  check_escalation_acyclic config.

(** ** Enforcement rules *)

(* yutha-cedar-plus/src/validate.rs:400-445 known_receipt_kinds *)
Definition known_receipt_kinds : list string :=
  ["agent.register"; "agent.revoke"; "agent.operator_revoke"; "agent.rotate_key";
   "agent.heartbeat.missed"; "envelope.send"; "envelope.deliver"; "envelope.deliver.failed";
   "capability.issue"; "capability.attenuate"; "capability.revoke"; "capability.check.pass";
   "capability.check.deny"; "memory.write"; "memory.read"; "memory.forget"; "memory.share";
   "constitution.activate"; "constitution.evaluate.pass"; "constitution.evaluate.deny";
   "constitution.amend.propose"; "constitution.amend.commit"; "constitution.amend.timeout";
   "procedure.enter"; "procedure.transition"; "procedure.timeout"; "procedure.escalate";
   "enforcement.detect"; "enforcement.coach"; "enforcement.quarantine"; "enforcement.evict";
   "enforcement.reverse"; "enforcement.evict_timeout"]%string.

(** [if parse_duration(d).is_none() { return Err(..) }] *)
Definition check_duration (rule : EnforcementRule) (field d : string) : Checked :=
  if bool_decide (parse_duration d = None) then
    Err (CedarPlusError.InvalidEnforcementRule (name rule)
           (field +:+ " " +:+ debug_str d +:+ " is not a parseable duration"))
  else Ok tt.
Definition check_optional {A} (f : A → Checked) (o : option A) : Checked :=
  match o with Some x => f x | None => Ok tt end.

(* yutha-cedar-plus/src/validate.rs:321-389 check_enforcement_rules (loop) *)
Definition check_enforcement_rule (rule : EnforcementRule) : Checked :=
  let kind := receipt_kind (detect_trigger (detect rule)) in
  if negb (bool_decide (kind ∈ known_receipt_kinds)) then
    Err (CedarPlusError.InvalidEnforcementRule (name rule)
           ("trigger.receipt_kind " +:+ debug_str kind +:+ " is not a known canonical action-kind"))
  else if (count_threshold (detect rule) =? 0)%N then
    Err (CedarPlusError.InvalidEnforcementRule (name rule) "detect.count_threshold must be >= 1")
  else
    let? _ := check_duration rule "detect.time_window" (time_window (detect rule)) in
    let? _ := check_optional (λ c, check_duration rule "coach.cooldown" (cooldown c)) (coach rule) in
    let? _ := check_optional (λ q,
                let? _ := check_duration rule "quarantine.escalate_after" (quarantine_after q) in
                check_optional (check_duration rule "quarantine.expires_after") (expires_after q))
                (quarantine rule) in
    check_optional (λ e, check_duration rule "evict.escalate_after" (evict_after e)) (evict rule).
(* yutha-cedar-plus/src/validate.rs:319-391 check_enforcement_rules *)
Definition check_enforcement_rules config : Checked :=
  check_each check_enforcement_rule (enforcement_rules config).
End validate.

(** ** Named predicates *)

(** [c.is_ascii_alphanumeric() || c == '_'] *)
Definition is_name_char (c : ascii) : bool :=
  let n := N_of_ascii c in
  is_digit c || ((65 <=? n)%N && (n <=? 90)%N) || ((97 <=? n)%N && (n <=? 122)%N)
  || bool_decide (c = "_"%char).
(** The longest prefix of name characters, and the rest. *)
Fixpoint span_name (s : string) : string * string :=
  match s with
  | String c t => if is_name_char c then let '(n, r) := span_name t in (String c n, r) else ("", s)%string
  | EmptyString => ("", "")%string
  end.

(** The loop over the characters; each round consumes at least one, so the
    length of the text is enough fuel.  A character that is no [@] is copied:
    the bytes of a non-ASCII character are never [@] nor name characters. *)
Fixpoint substitute_loop (predicates : gmap string string) (fuel : nat) (s : string)
  : Result string string :=
  match fuel, s with
  | _, EmptyString => Ok ""%string
  | O, _ => Ok ""%string
  | S fuel, String c t =>
      if bool_decide (c = "@"%char) then
        let '(n, rest) := span_name t in
        if bool_decide (n = ""%string) then
          let? out := substitute_loop predicates fuel t in Ok (String c out)
        else
          match predicates !! n with
          | None => Err n
          | Some expansion =>
              let? out := substitute_loop predicates fuel rest in
              Ok ("(" +:+ expansion +:+ ")" +:+ out)
          end
      else let? out := substitute_loop predicates fuel t in Ok (String c out)
  end.
(* yutha-cedar-plus/src/validate.rs:548-580 substitute *)
Definition substitute (src : string) (predicates : gmap string string) : Result string string :=
  substitute_loop predicates (String.length src) src.

Definition predicate_map (config : EngineConfig) : gmap string string :=
  foldl (λ m p, <[pred_name p := pred_expr p]> m) ∅ (predicates config).

(** An expression rewritten in place, if there is one. *)
Definition substitute_opt (err : string → CedarPlusError) (m : gmap string string) (o : option string)
  : Result (option string) CedarPlusError :=
  match o with
  | None => Ok None
  | Some w => let? w := map_err err (substitute w m) in Ok (Some w)
  end.
Definition resolve_scoring (m : gmap string string) (rule : ScoringRule) : Result ScoringRule CedarPlusError :=
  let? w := map_err (λ n, CedarPlusError.InvalidScoringRule (scoring_name rule)
                       ("unresolved @" +:+ n +:+ " reference in when")) (substitute (scoring_when rule) m) in
  Ok (mkScoring (scoring_name rule) (score rule) (head rule) w).
Definition resolve_transition (m : gmap string string) (p : Procedure) (t : ProcedureTransition)
  : Result ProcedureTransition CedarPlusError :=
  let? w := substitute_opt (λ n, CedarPlusError.InvalidProcedure (proc_name p)
              ("unresolved @" +:+ n +:+ " reference in transition.actor_when")) m (actor_when t) in
  Ok (mkTransition (from t) (to t) (transition_action t) w (on_timeout t)).
Definition resolve_procedure (m : gmap string string) (p : Procedure) : Result Procedure CedarPlusError :=
  let? w := substitute_opt (λ n, CedarPlusError.InvalidProcedure (proc_name p)
              ("unresolved @" +:+ n +:+ " reference in trigger.when")) m (trigger_when (trigger p)) in
  let? ts := collect (resolve_transition m p) (transitions p) in
  Ok (mkProcedure (proc_name p) (initial_state p) (states p) (terminal_states p)
        (mkTrigger (trigger_action (trigger p)) w) ts (on_timeout_escalate p)).
(* yutha-cedar-plus/src/validate.rs:495-539 resolve_named_predicates *)
Definition resolve_named_predicates (config : EngineConfig) : Result EngineConfig CedarPlusError :=
  let m := predicate_map config in
  let? rules := collect (resolve_scoring m) (scoring_rules config) in
  let? ps := collect (resolve_procedure m) (procedures config) in
  Ok (EngineConfig.mk (schema_version config) (predicates config) rules ps (enforcement_rules config)).

(** ** Bounds and Cedar *)

(* yutha-cedar-plus/src/validate.rs:588-600 check_load_time_counts *)
Definition check_load_time_counts (config : EngineConfig) (bounds : SandboxConfig)
  : Result unit CedarPlusError :=
  if (SandboxConfig.max_scoring_rules bounds <? list_len (scoring_rules config))%N then
    Err (CedarPlusError.LoadBoundExceeded LoadBoundReason.ScoringRuleCount)
  else if (SandboxConfig.max_procedures bounds <? list_len (procedures config))%N then
    Err (CedarPlusError.LoadBoundExceeded LoadBoundReason.ProcedureCount)
  else Ok tt.

(** The nesting of one line: its deepest point and where it stands. *)
Fixpoint line_depth (depth current : N) (s : string) : N :=
  match s with
  | EmptyString => depth
  | String c s =>
      if bool_decide (c ∈ ["("; "["; "{"]%char) then
        let current := u32_wrap (current + 1) in line_depth (N.max depth current) current s
      else if bool_decide (c ∈ [")"; "]"; "}"]%char) then line_depth depth (current - 1) s
      else line_depth depth current s
  end.
(** [str::lines] separates at line feeds; a carriage return it would strip is
    no bracket. *)
(* yutha-cedar-plus/src/validate.rs:686-706 estimate_cedar_depth *)
Definition estimate_cedar_depth (source : string) : N :=
  foldl (λ m line, N.max m (line_depth 0 0 line)) 0%N (str_split (ascii_of_N 10) source).

Section loader.
Context `{SerdeJson} {engine : Cedar}.

(* yutha-cedar-plus/src/validate.rs:614-618 ParsedCedar *)
Record ParsedCedar := mkParsed {
  parsed_policy_set : PolicySet; parsed_policy_count : N; parsed_max_policy_depth : N }.

(* yutha-cedar-plus/src/validate.rs:633-680 parse_and_validate_cedar *)
Definition parse_and_validate_cedar (schema : Schema) (cedar_source : string) (bounds : SandboxConfig)
  : Result ParsedCedar CedarPlusError :=
  let? policy_set := map_err (λ e, CedarPlusError.Parse ("Cedar source failed to parse: " +:+ e))
                       (policy_set_from_str cedar_source) in
  let policy_count := N.of_nat (policies_count policy_set) in
  if (SandboxConfig.max_cedar_policies bounds <? policy_count)%N then
    Err (CedarPlusError.LoadBoundExceeded LoadBoundReason.PolicyCount)
  else
    let '(passed, errs) := validate_strict schema policy_set in
    if negb passed then
      Err (CedarPlusError.Parse ("Cedar validator rejected the policy set: " +:+ str_join "; " errs))
    else
      let depth := estimate_cedar_depth cedar_source in
      if (SandboxConfig.max_policy_depth_at_load bounds <? depth)%N then
        Err (CedarPlusError.LoadBoundExceeded LoadBoundReason.PolicyDepth)
      else Ok (mkParsed policy_set policy_count depth).

(* yutha-cedar-plus/src/validate.rs:714-722 parse_cedar_expression *)
Definition parse_cedar_expression (expr : string) : Result unit CedarPlusError :=
  map_err (λ e, CedarPlusError.Parse ("Cedar expression " +:+ debug_str expr +:+ " failed to parse: " +:+ e))
    (expression_from_str expr).

(** ** loader.rs *)

(* yutha-cedar-plus/src/loader.rs:36-62 ActivatedConstitution *)
Record ActivatedConstitution := mkActivated {
  constitution : Constitution; policy_set : PolicySet; schema : Schema;
  resolved_engine_config : EngineConfig; layer_b : LayerBArtifacts; policy_count : N;
  cedar_max_policy_depth : N }.
(* yutha-cedar-plus/src/loader.rs:71-74 ConstitutionLoader *)
Record ConstitutionLoader := mkLoader { loader_schema : Schema; bounds : SandboxConfig }.
(* yutha-cedar-plus/src/loader.rs:88-90 ConstitutionLoader::with_default_bounds *)
Definition with_default_bounds (schema : Schema) : ConstitutionLoader := mkLoader schema SandboxConfig.default.

Definition check_scoring_when (rule : ScoringRule) : Result unit CedarPlusError :=
  map_err (λ e, CedarPlusError.InvalidScoringRule (scoring_name rule)
                  ("when expression rejected: " +:+ CedarPlusError.to_string e))
    (parse_cedar_expression (scoring_when rule)).
Definition check_transition_when (p : Procedure) (t : ProcedureTransition) : Result unit CedarPlusError :=
  check_optional (λ aw,
    map_err (λ e, CedarPlusError.InvalidProcedure (proc_name p)
                    ("transition " +:+ debug_str (from t) +:+ "->" +:+ debug_str (to t)
                     +:+ " actor_when rejected: " +:+ CedarPlusError.to_string e))
      (parse_cedar_expression aw)) (actor_when t).
Definition check_procedure_whens (p : Procedure) : Result unit CedarPlusError :=
  let? _ := check_optional (λ w,
      map_err (λ e, CedarPlusError.InvalidProcedure (proc_name p)
                      ("trigger.when rejected: " +:+ CedarPlusError.to_string e))
        (parse_cedar_expression w)) (trigger_when (trigger p)) in
  check_each (check_transition_when p) (transitions p).

(* yutha-cedar-plus/src/loader.rs:116-197 ConstitutionLoader::load *)
Definition load (set_iter : gset string → list string)
  (graph_iter : gmap string (gset string) → list (string * gset string))
  (loader : ConstitutionLoader) (c : Constitution) : Result ActivatedConstitution CedarPlusError :=
  let config := Constitution.engine_config c in
  let? _ := check_unique_names config in
  let? _ := check_scoring_rules config in
  let? _ := check_procedures set_iter graph_iter config in
  let? _ := check_enforcement_rules config in
  let? resolved := resolve_named_predicates config in
  let? _ := check_load_time_counts resolved (bounds loader) in
  let? parsed := parse_and_validate_cedar (loader_schema loader) (Constitution.cedar_source c)
                   (bounds loader) in
  let? _ := check_each check_scoring_when (scoring_rules resolved) in
  let? _ := check_each check_procedure_whens (procedures resolved) in
  let? layer_b := synthesize resolved in
  Ok (mkActivated c (parsed_policy_set parsed) (loader_schema loader) resolved layer_b
        (parsed_policy_count parsed) (parsed_max_policy_depth parsed)).
End loader.
