(* ===== verification/Escalation.v ===== *)
(** * [yutha-cedar-plus]: the escalation check finds exactly the cycles

    The depth-first search of [check_escalation_acyclic], over any iteration
    order of the hash maps and sets it walks: it needs no more fuel than there
    are procedures, it fails only when a cycle exists, and when it succeeds
    there is none. *)

From S2P Require Import Prelude RustStd Core Enforcement CedarPlus Procedure Validate.
Import EngineConfig.

Section search.
Context (set_iter : gset string → list string).
Context (set_iter_spec : ∀ s x, x ∈ set_iter s ↔ x ∈ s).
Context (graph : gmap string (gset string)).
Implicit Types (c : gmap string Color) (x y : string).

Definition edge x y : Prop := ∃ targets, graph !! x = Some targets ∧ y ∈ targets.
Definition cyclic : Prop := ∃ x, tc edge x x.

Definition gray c x : Prop := c !! x = Some Gray.
Definition black c x : Prop := c !! x = Some Black.
(** What is black is closed under escalation and free of cycles. *)
Definition settled c : Prop :=
  (∀ x y, black c x → edge x y → black c y) ∧ (∀ x, black c x → ¬ tc edge x x).
Definition grows c c' : Prop := (∀ x, gray c' x ↔ gray c x) ∧ (∀ x, black c x → black c' x).

#[local] Instance grows_preorder : PreOrder grows.
Proof.
  split; [by split|]. intros a b c [Hg Hb] [Hg' Hb']. split; [|by auto].
  intros x. by rewrite Hg'.
Qed.

(** The outcome of a search step. *)
Definition outcome c (r : option (Result (gmap string Color) CedarPlusError))
  (Q : gmap string Color → Prop) : Prop :=
  match r with
  | Some (Ok c') => settled c' ∧ grows c c' ∧ Q c'
  | Some (Err _) => cyclic
  | None => True
  end.

Lemma settled_tc c x y : settled c → black c x → rtc edge x y → black c y.
Proof. intros [Hc _] Hx Hr. induction Hr as [|x y z He _ IH]; [done|]. apply IH. by eapply Hc. Qed.

Lemma visit_outcome dfs node (edges : list string) c :
  (∀ n c, ¬ gray c n → ¬ black c n → settled c → (∀ g, gray c g → tc edge g n) →
          outcome c (dfs n c) (λ c', black c' n)) →
  settled c → gray c node → (∀ g, gray c g → rtc edge g node) → (∀ y, y ∈ edges → edge node y) →
  outcome c (visit dfs node edges c) (λ c', ∀ y, y ∈ edges → black c' y).
Proof.
  intros Hdfs. revert c. induction edges as [|y edges IH]; intros c Hs Hn Hg He; simpl.
  { split_and!; [done..|]. by intros y ?%elem_of_nil. }
  assert (edge node y) as Hy by (apply He; by left).
  assert (∀ z, z ∈ edges → edge node z) as He' by (intros z Hz; apply He; by right).
  assert (∀ c', settled c' → grows c c' → black c' y →
    outcome c (visit dfs node edges c') (λ c', ∀ z, z ∈ y :: edges → black c' z)) as Hnext.
  { intros c' Hs' Hgr Hb. specialize (IH c' Hs').
    assert (gray c' node) as Hn' by by apply Hgr. assert (∀ g, gray c' g → rtc edge g node) as Hg'.
    { intros g Hgg. by apply Hg, Hgr. }
    specialize (IH Hn' Hg' He'). destruct (visit dfs node edges c') as [[c''|e]|]; simpl in *; [|done..].
    destruct IH as (? & Hgr' & Hall). split_and!; [done|by etrans|].
    intros z [->|Hz]%elem_of_cons; [by apply Hgr'|by apply Hall]. }
  destruct (c !! y) as [[]|] eqn:Hc.
  2: { exists y. simpl. apply tc_rtc_l with node; [by apply Hg|by apply tc_once]. }
  2: { apply Hnext; [done|reflexivity|done]. }
  all: assert (outcome c (dfs y c) (λ c', black c' y)) as Hd
    by (apply Hdfs; [unfold gray; congruence|unfold black; congruence|done|];
        intros g Hgg; apply tc_rtc_l with node; [by apply Hg|by apply tc_once]).
  all: destruct (dfs y c) as [[c'|e]|]; [|done..]; destruct Hd as (? & ? & ?); by apply Hnext.
Qed.

Lemma visit_targets_outcome dfs node c :
  (∀ n c, ¬ gray c n → ¬ black c n → settled c → (∀ g, gray c g → tc edge g n) →
          outcome c (dfs n c) (λ c', black c' n)) →
  settled c → gray c node → (∀ g, gray c g → rtc edge g node) →
  outcome c (visit_targets set_iter graph dfs node c) (λ c', ∀ y, edge node y → black c' y).
Proof.
  intros Hdfs Hs Hn Hg. unfold visit_targets. destruct (graph !! node) as [targets|] eqn:Hgr.
  - assert (∀ y, y ∈ set_iter targets ↔ edge node y) as He.
    { intros y. rewrite set_iter_spec. unfold edge. rewrite Hgr. naive_solver. }
    pose proof (visit_outcome dfs node (set_iter targets) c Hdfs Hs Hn Hg (λ y, proj1 (He y))) as Hv.
    destruct (visit _ _ _ _) as [[c'|e]|]; [|apply Hv|done]; simpl in *.
    destruct Hv as (? & ? & Hall). split_and!; [done..|]. intros y Hy. by apply Hall, He.
  - split_and!; [done|reflexivity|]. intros y (t & Ht & _). congruence.
Qed.

Lemma gray_insert c n col x : gray (<[n := col]> c) x ↔ (x = n ∧ col = Gray) ∨ (x ≠ n ∧ gray c x).
Proof. unfold gray. rewrite lookup_insert_Some. naive_solver. Qed.
Lemma black_insert c n col x : black (<[n := col]> c) x ↔ (x = n ∧ col = Black) ∨ (x ≠ n ∧ black c x).
Proof. unfold black. rewrite lookup_insert_Some. naive_solver. Qed.
Lemma gray_not_black c x : gray c x → ¬ black c x.
Proof. unfold gray, black. congruence. Qed.

(** Opening a node, and closing it once its targets are black. *)
Lemma settled_open c n : settled c → ¬ black c n → settled (<[n := Gray]> c).
Proof.
  intros [Hc Ha] Hn. split.
  - intros x y. rewrite !black_insert. intros [[? [=]]|[Hx Hb]] He. right. split; [|by eapply Hc].
    intros ->. by eapply Hn, Hc.
  - intros x [[? [=]]|[_ Hb]]%black_insert. by apply Ha.
Qed.
Lemma settled_close c n : settled c → gray c n → (∀ y, edge n y → black c y) → settled (<[n := Black]> c).
Proof.
  intros Hs Hn He. assert (∀ x, black c x → x ≠ n) as Hne by (intros x Hx ->; by eapply gray_not_black).
  split.
  - intros x y. rewrite !black_insert. intros Hx Hxy. destruct (decide (y = n)) as [|Hy]; [by left|right].
    split; [done|]. destruct Hx as [[-> _]|[_ Hx]]; [by apply He|by eapply Hs].
  - intros x [[-> _]|[_ Hx]]%black_insert; [|by apply Hs]. intros Hcyc. eapply Hne; [|done].
    inversion Hcyc as [? ? Hxy|? y ? Hxy Hr]; subst; [by apply He|].
    eapply settled_tc; [done|by apply He|by apply tc_rtc].
Qed.

Lemma dfs_outcome fuel node c :
  ¬ gray c node → ¬ black c node → settled c → (∀ g, gray c g → tc edge g node) →
  outcome c (dfs set_iter graph fuel node c) (λ c', black c' node).
Proof.
  revert node c. induction fuel as [|fuel IH]; intros node c Hng Hnb Hs Hg; [done|].
  simpl. set (c1 := <[node := Gray]> c).
  assert (outcome c1 (visit_targets set_iter graph (dfs set_iter graph fuel) node c1)
            (λ c', ∀ y, edge node y → black c' y)) as Hv.
  { apply visit_targets_outcome; [apply IH|by apply settled_open|apply gray_insert; by left|].
    intros g [[-> _]|[_ Hgg]]%gray_insert; [done|]. by apply tc_rtc, Hg. }
  destruct (visit_targets _ _ _ _ _) as [[c'|e]|]; [|done..].
  destruct Hv as (Hs' & [Hgg Hbb] & Hall).
  assert (gray c' node) as Hn' by (apply Hgg, gray_insert; by left).
  split; [by apply settled_close|]. split; [split|apply black_insert; by left].
  - intros x. rewrite gray_insert, Hgg. unfold c1. rewrite gray_insert. naive_solver.
  - intros x Hx. apply black_insert. destruct (decide (x = node)) as [|Hne]; [by left|right].
    split; [done|]. apply Hbb, black_insert. by right.
Qed.

(** *** Enough fuel

    A node stops being white for good when it is entered, so the white nodes
    bound the depth of the search. *)

Context (names : gset string) (targets_named : ∀ x y, edge x y → y ∈ names).

Definition seen c x : Prop := gray c x ∨ black c x.
#[local] Instance seen_dec c x : base.Decision (seen c x).
Proof. unfold seen, gray, black. apply _. Defined.
Definition unseen c : gset string := filter (λ x, ¬ seen c x) names.

Lemma seen_insert c n col x : seen (<[n := col]> c) x ↔ (x = n ∧ col ≠ White) ∨ (x ≠ n ∧ seen c x).
Proof. unfold seen. rewrite gray_insert, black_insert. destruct col; naive_solver. Qed.

Section keeps.
Context (P : gmap string Color → Prop).
Context (P_insert : ∀ c n col, col ≠ White → P c → P (<[n := col]> c)).

Lemma visit_keeps dfs node (edges : list string) c c' :
  (∀ n c c', dfs n c = Some (Ok c') → P c → P c') →
  visit dfs node edges c = Some (Ok c') → P c → P c'.
Proof.
  intros Hdfs. revert c. induction edges as [|y edges IH]; intros c; simpl; [by intros [= <-]|].
  destruct (c !! y) as [[]|]; [|done|by apply IH|].
  all: destruct (dfs y c) as [[c1|e]|] eqn:Hd; [|done..]; intros Hv Hc; eapply IH; eauto.
Qed.
Lemma dfs_keeps fuel node c c' : dfs set_iter graph fuel node c = Some (Ok c') → P c → P c'.
Proof.
  revert node c c'. induction fuel as [|fuel IH]; intros node c c'; [done|]. simpl.
  assert (∀ c2, visit_targets set_iter graph (dfs set_iter graph fuel) node (<[node := Gray]> c) = Some (Ok c2) →
          P c → P c2) as Hr.
  { intros c2 Hr Hc. apply (P_insert c node Gray) in Hc; [|done].
    unfold visit_targets in Hr. destruct (graph !! node); [by eapply visit_keeps|by injection Hr as <-]. }
  destruct (visit_targets _ _ _ _ _) as [[c2|e]|]; [|done..]. intros [= <-] Hc. apply P_insert; [done|].
  by apply Hr.
Qed.
End keeps.

Lemma dfs_seen fuel node c c' :
  dfs set_iter graph fuel node c = Some (Ok c') → ∀ x, seen c x → seen c' x.
Proof.
  intros Hd x. apply (dfs_keeps (λ c, seen c x)) with fuel node; [|done]. intros c1 n col Hcol Hx.
  apply seen_insert. destruct (decide (x = n)); [by left|by right].
Qed.
Lemma dfs_colored fuel node c c' :
  dfs set_iter graph fuel node c = Some (Ok c') → ∀ x, is_Some (c !! x) → is_Some (c' !! x).
Proof.
  intros Hd x. apply (dfs_keeps (λ c, is_Some (c !! x))) with fuel node; [|done].
  intros c1 n col _ Hx. apply lookup_insert_is_Some. destruct (decide (n = x)); [by left|by right].
Qed.

Lemma unseen_mono c c' : (∀ x, seen c x → seen c' x) → unseen c' ⊆ unseen c.
Proof. intros Hc x. unfold unseen. rewrite !elem_of_filter. naive_solver. Qed.

Lemma visit_total fuel dfs node (edges : list string) c :
  (∀ n c c', dfs n c = Some (Ok c') → ∀ x, seen c x → seen c' x) →
  (∀ n c, n ∈ unseen c → size (unseen c) ≤ fuel → is_Some (dfs n c)) →
  (∀ y, y ∈ edges → y ∈ names) → size (unseen c) ≤ fuel → is_Some (visit dfs node edges c).
Proof.
  intros Hseen Hdfs. revert c. induction edges as [|y edges IH]; intros c He Hc; simpl; [by eauto|].
  assert (∀ z, z ∈ edges → z ∈ names) as He' by (intros z Hz; apply He; by right).
  destruct (c !! y) as [[]|] eqn:Hy; [|by eauto|by apply IH|].
  all: assert (y ∈ unseen c) as Hu by (apply elem_of_filter; split; [|apply He; by left];
         unfold seen, gray, black; rewrite Hy; by intros [|]).
  all: destruct (Hdfs y c Hu Hc) as [[c1|e] Hd]; rewrite Hd; [|by eauto].
  all: apply IH; [done|]; pose proof (subseteq_size _ _ (unseen_mono c c1 (Hseen _ _ _ Hd))); lia.
Qed.

Lemma dfs_total fuel node c :
  node ∈ unseen c → size (unseen c) ≤ fuel → is_Some (dfs set_iter graph fuel node c).
Proof.
  revert node c. induction fuel as [|fuel IH]; intros node c Hn Hc.
  { assert (size (unseen c) = 0) as Hz by lia. apply size_empty_inv in Hz. set_solver. }
  simpl. assert (size (unseen (<[node := Gray]> c)) ≤ fuel) as Hc1.
  { assert (unseen (<[node := Gray]> c) ⊂ unseen c) as Hlt%subset_size; [|lia].
    apply strict_spec_alt. split.
    - apply unseen_mono. intros x Hx. apply seen_insert. destruct (decide (x = node)); [by left|by right].
    - intros He. rewrite <- He in Hn. apply elem_of_filter in Hn as [Hn _]. apply Hn, seen_insert. by left. }
  assert (is_Some (visit_targets set_iter graph (dfs set_iter graph fuel) node (<[node := Gray]> c))) as [r Hr].
  { unfold visit_targets. destruct (graph !! node) as [targets|] eqn:Hg; [|by eauto].
    apply (visit_total fuel); [apply dfs_seen|apply IH| |done].
    intros y Hy%set_iter_spec. apply (targets_named node). unfold edge. eauto. }
  rewrite Hr. destruct r; eauto.
Qed.

(** *** The whole search *)

(** Between two searches nothing is gray, and every declared name has a color. *)
Definition between c : Prop := settled c ∧ (∀ x, ¬ gray c x) ∧ ∀ x, x ∈ names → is_Some (c !! x).

Lemma color_all_outcome fuel (ps : list Procedure) c :
  (∀ p, p ∈ ps → proc_name p ∈ names) → size names ≤ fuel → between c →
  match color_all set_iter graph fuel ps c with
  | Some (Ok c') => between c' ∧ (∀ x, black c x → black c' x) ∧ ∀ p, p ∈ ps → black c' (proc_name p)
  | Some (Err _) => cyclic
  | None => False
  end.
Proof.
  intros Hps Hf. revert c. induction ps as [|p ps IH]; intros c Hc; cbn [color_all].
  { split_and!; [done..|]. by intros p ?%elem_of_nil. }
  assert (proc_name p ∈ names) as Hp by (apply Hps; by left).
  assert (∀ q, q ∈ ps → proc_name q ∈ names) as Hps' by (intros q Hq; apply Hps; by right).
  specialize (IH Hps'). destruct Hc as (Hs & Hg & Hcol). case_bool_decide as Hw.
  - assert (proc_name p ∈ unseen c) as Hu.
    { apply elem_of_filter. split; [|done]. unfold seen, gray, black. rewrite Hw. by intros [|]. }
    assert (size (unseen c) ≤ fuel) as Hsz.
    { assert (unseen c ⊆ names) as Hsub%subseteq_size by (intros x [_ ?]%elem_of_filter; done). lia. }
    destruct (dfs_total fuel _ _ Hu Hsz) as [r Hr].
    assert (outcome c (dfs set_iter graph fuel (proc_name p) c) (λ c', black c' (proc_name p))) as Ho.
    { apply dfs_outcome; [unfold gray; congruence|unfold black; congruence|done|].
      intros g Hgg. by destruct (Hg g). }
    rewrite Hr in *. destruct r as [c1|e]; [|done]. destruct Ho as (Hs1 & [Hg1 Hb1] & Hp1).
    assert (between c1) as Hc1.
    { split_and!; [done|intros x; rewrite Hg1; apply Hg|]. intros x Hx. by eapply dfs_colored, Hcol. }
    specialize (IH c1 Hc1). destruct (color_all _ _ _ _ _) as [[c2|e]|]; [|done..].
    destruct IH as (? & Hb2 & Hall). split_and!; [done|by auto|].
    intros q [->|Hq]%elem_of_cons; [by apply Hb2|by apply Hall].
  - assert (black c (proc_name p)) as Hb.
    { destruct (Hcol _ Hp) as [[] Hx]; [done|by destruct (Hg (proc_name p))|done]. }
    specialize (IH c). destruct (color_all _ _ _ _ _) as [[c2|e]|]; [|by apply IH..].
    destruct IH as (? & Hb2 & Hall); [done|]. split_and!; [done..|].
    intros q [->|Hq]%elem_of_cons; [by apply Hb2|by apply Hall].
Qed.
End search.

(** ** The check *)

(** A timeout of procedure [x] escalates to procedure [y]. *)
Definition escalates (config : EngineConfig) (x y : string) : Prop :=
  ∃ p state, p ∈ procedures config ∧ proc_name p = x ∧ on_timeout_escalate p !! state = Some y.

Lemma escalation_targets_spec p y : y ∈ escalation_targets p ↔ ∃ state, on_timeout_escalate p !! state = Some y.
Proof.
  unfold escalation_targets. rewrite elem_of_list_to_set, list_elem_of_fmap. split.
  - intros ([state y'] & -> & Hy%elem_of_map_to_list). by exists state.
  - intros [state Hy]. exists (state, y). split; [done|]. by apply elem_of_map_to_list.
Qed.

Lemma foldl_insert_lookup {A B} (key : A → string) (val : A → B) (l : list A) (m : gmap string B) x b :
  NoDup (map key l) → (∀ a, a ∈ l → m !! key a = None) →
  foldl (λ m a, <[key a := val a]> m) m l !! x = Some b ↔
  m !! x = Some b ∨ ∃ a, a ∈ l ∧ key a = x ∧ val a = b.
Proof.
  revert m. induction l as [|a l IH]; intros m Hnd Hm; cbn [foldl].
  { split; [by left|]. intros [?|(a & ?%elem_of_nil & _)]; done. }
  apply NoDup_cons in Hnd as [Ha Hnd].
  assert (∀ b, b ∈ l → key b ≠ key a) as Hne.
  { intros c Hc Heq. apply Ha. rewrite <- Heq. by apply list_elem_of_fmap_2. }
  rewrite IH; [|done|].
  - rewrite lookup_insert_Some. split.
    + intros [[[<- <-]|[_ ?]]|(c & Hc & ? & ?)]; [right; exists a; split_and!; [by left|done..]|by left|].
      right. exists c. split; [by right|done].
    + intros [Hx|(c & [->|Hc]%elem_of_cons & <- & <-)]; [|by left; left|by right; eauto].
      left. right. split; [|done]. intros <-. rewrite Hm in Hx; [done|by left].
  - intros c Hc. rewrite lookup_insert_ne; [apply Hm; by right|]. intros Heq. by apply (Hne c).
Qed.

Lemma check_each_Ok {A} (f : A → Result unit CedarPlusError) l :
  check_each f l = Ok tt ↔ ∀ x, x ∈ l → f x = Ok tt.
Proof.
  induction l as [|x l IH]; simpl.
  { split; [|done]. by intros _ x ?%elem_of_nil. }
  rewrite rbind_Ok. split.
  - intros ([] & Hx & Hl) y [->|Hy]%elem_of_cons; [done|]. by apply IH.
  - intros Hall. exists tt. split; [apply Hall; by left|]. apply IH. intros y Hy. apply Hall. by right.
Qed.

Lemma tc_iff {A} (R S : relation A) x y : (∀ x y, R x y ↔ S x y) → tc R x y ↔ tc S x y.
Proof. intros HRS. split; (induction 1; [apply tc_once; by apply HRS|eapply tc_l; [by apply HRS|done]]). Qed.

Section check.
Context (set_iter : gset string → list string)
        (graph_iter : gmap string (gset string) → list (string * gset string)).
Context (set_iter_spec : ∀ s x, x ∈ set_iter s ↔ x ∈ s)
        (graph_iter_spec : ∀ m, graph_iter m ≡ₚ map_to_list m).
Implicit Types (config : EngineConfig).

Lemma declared_spec config x : x ∈ declared config ↔ x ∈ map proc_name (procedures config).
Proof. unfold declared. by rewrite elem_of_list_to_set. Qed.

Lemma graph_edge config x y : NoDup (map proc_name (procedures config)) →
  edge (escalation_graph config) x y ↔ escalates config x y.
Proof.
  intros Hnd. unfold edge, escalates, escalation_graph. split.
  - intros (t & Ht & Hy). apply foldl_insert_lookup in Ht as [[=]|(p & Hp & <- & <-)]; [|done..].
    apply escalation_targets_spec in Hy as [state Hy]. by exists p, state.
  - intros (p & state & Hp & <- & Hy). exists (escalation_targets p). split.
    + apply foldl_insert_lookup; [done..|]. right. by exists p.
    + apply escalation_targets_spec. by exists state.
Qed.

Lemma check_targets_Ok config : NoDup (map proc_name (procedures config)) →
  check_each (check_targets set_iter (declared config)) (graph_iter (escalation_graph config)) = Ok tt ↔
  ∀ x y, escalates config x y → y ∈ map proc_name (procedures config).
Proof.
  intros Hnd. rewrite check_each_Ok. split.
  - intros Hall x y Hxy. apply graph_edge in Hxy as (t & Ht & Hy); [|done].
    specialize (Hall (x, t)). rewrite graph_iter_spec, elem_of_map_to_list in Hall. specialize (Hall Ht).
    unfold check_targets in Hall. rewrite check_each_Ok in Hall. cbn [fst snd] in Hall.
    specialize (Hall y). rewrite set_iter_spec in Hall. specialize (Hall Hy).
    apply declared_spec. case_bool_decide; [done|discriminate Hall].
  - intros Hall [x t]. rewrite graph_iter_spec, elem_of_map_to_list. intros Ht.
    unfold check_targets. rewrite check_each_Ok. cbn [fst snd]. intros y Hy%set_iter_spec.
    rewrite bool_decide_true; [done|]. apply declared_spec, (Hall x), graph_edge; [done|]. by exists t.
Qed.

Lemma all_white_lookup config x c : NoDup (map proc_name (procedures config)) →
  all_white config !! x = Some c ↔ x ∈ map proc_name (procedures config) ∧ c = White.
Proof.
  intros Hnd. unfold all_white. rewrite (foldl_insert_lookup proc_name (λ _, White)) by done. rewrite list_elem_of_fmap.
  split; [|naive_solver]. intros [[=]|(p & Hp & <- & <-)]. naive_solver.
Qed.

(** The check succeeds exactly when every escalation target is a declared
    procedure and no chain of escalations returns to where it began. *)
Lemma escalation_check_Ok config : NoDup (map proc_name (procedures config)) →
  check_escalation_acyclic set_iter graph_iter config = Ok tt ↔
  (∀ x y, escalates config x y → y ∈ map proc_name (procedures config)) ∧
  ∀ x, ¬ tc (escalates config) x x.
Proof.
  intros Hnd. unfold check_escalation_acyclic. rewrite rbind_Ok.
  setoid_rewrite <- (check_targets_Ok config Hnd).
  assert (∀ x, tc (edge (escalation_graph config)) x x ↔ tc (escalates config) x x) as Htc.
  { intros x. apply tc_iff. intros a b. by apply graph_edge. }
  assert (check_each (check_targets set_iter (declared config)) (graph_iter (escalation_graph config)) = Ok tt →
    match color_all set_iter (escalation_graph config) (length (procedures config)) (procedures config)
            (all_white config) with
    | Some (Ok c') => between (escalation_graph config) (declared config) c' ∧
                      (∀ x, black (all_white config) x → black c' x) ∧
                      ∀ p, p ∈ procedures config → black c' (proc_name p)
    | Some (Err _) => cyclic (escalation_graph config)
    | None => False end) as Hcol.
  { intros Ht. apply color_all_outcome; [done| | | |].
    - intros x y Hxy. apply declared_spec. eapply check_targets_Ok; [done..|]. by apply graph_edge.
    - intros p Hp. apply declared_spec. by apply list_elem_of_fmap_2.
    - unfold declared. rewrite size_list_to_set by done. by rewrite length_map.
    - assert (∀ x c, all_white config !! x = Some c → c = White) as Hw
        by (intros x c Hx; by apply all_white_lookup in Hx as [_ ->]).
      split_and!; [split|..].
      + intros x y Hx%Hw. done.
      + intros x Hx%Hw. done.
      + intros x Hx%Hw. done.
      + intros x Hx. exists White. apply all_white_lookup; [done|]. by rewrite <- declared_spec. }
  split.
  - intros ([] & Ht & Hc). split; [done|]. intros x Hx. specialize (Hcol Ht).
    destruct (color_all _ _ _ _ _) as [[c'|e]|]; [|done..]. destruct Hcol as ((Hs & _) & _ & Hb).
    assert (black c' x) as Hbx; [|by eapply Hs, Htc].
    inversion Hx as [? ? He|? ? ? He]; subst; destruct He as (p & ? & Hp & <- & _); by apply Hb.
  - intros [Ht Hac]. exists tt. split; [done|]. specialize (Hcol Ht).
    destruct (color_all _ _ _ _ _) as [[c'|e]|]; [done| |done]. destruct Hcol as [x Hx].
    by destruct (Hac x); apply Htc.
Qed.
End check.
