(* ===== verification/ConfigSpec.v ===== *)
(** * [yutha-cedar-plus]: what a loaded constitution is known to satisfy

    [valid_config] says what the validators of [validate.rs] look for, without
    their loops, counters and searches; [constitution_validation_exact] shows
    that they accept exactly that.  [loaded] collects what holds of a
    constitution the loader returned; the evaluator's theorems rest on it. *)

From S2P Require Import Prelude RustStd Core Crypto Score Enforcement CedarPlus Procedure Validate Escalation.
Import EngineConfig.

(** ** The specification *)

Definition dashes (n : nat) : string := Nat.iter n (String "-"%char) ""%string.
(** Any number of minus signs, then a digit. *)
Definition looks_numeric (s : string) : Prop :=
  ∃ n d t, s = dashes n +:+ String d t ∧ is_digit d = true.
Definition valid_scoring_rule (rule : ScoringRule) : Prop :=
  looks_numeric (score rule) ∧ score rule ∉ zero_forms.

Definition valid_transition (p : Procedure) (t : ProcedureTransition) : Prop :=
  from t ∈ states p ∧ to t ∈ states p ∧ from t ∉ terminal_states p ∧
  (transition_action t = None ↔ is_Some (on_timeout t)).
Definition transition_key (t : ProcedureTransition) : string * option string * option string :=
  (from t, transition_action t, on_timeout t).
Definition valid_procedure (p : Procedure) : Prop :=
  initial_state p ∈ states p ∧
  (∀ s, s ∈ terminal_states p → s ∈ states p) ∧
  (∀ t, t ∈ transitions p → valid_transition p t) ∧
  NoDup (map transition_key (transitions p)) ∧
  (∀ s, s ∈ states p → s ∉ terminal_states p → ∃ t, t ∈ transitions p ∧ from t = s).

Definition duration_ok (d : string) : Prop := is_Some (parse_duration d).
Definition valid_rule (rule : EnforcementRule) : Prop :=
  receipt_kind (detect_trigger (detect rule)) ∈ known_receipt_kinds ∧
  (0 < count_threshold (detect rule))%N ∧
  duration_ok (time_window (detect rule)) ∧
  (∀ c, coach rule = Some c → duration_ok (cooldown c)) ∧
  (∀ q, quarantine rule = Some q → duration_ok (quarantine_after q) ∧
        ∀ d, expires_after q = Some d → duration_ok d) ∧
  (∀ e, evict rule = Some e → duration_ok (evict_after e)).

Definition distinct_names (config : EngineConfig) : Prop :=
  NoDup (map scoring_name (scoring_rules config)) ∧ NoDup (map proc_name (procedures config)) ∧
  NoDup (map name (enforcement_rules config)) ∧ NoDup (map pred_name (predicates config)).
(** Timeouts escalate to declared procedures, and never in a circle. *)
Definition escalation_ok (config : EngineConfig) : Prop :=
  (∀ x y, escalates config x y → y ∈ map proc_name (procedures config)) ∧
  ∀ x, ¬ tc (escalates config) x x.

Definition valid_config (config : EngineConfig) : Prop :=
  distinct_names config ∧
  (∀ rule, rule ∈ scoring_rules config → valid_scoring_rule rule) ∧
  (∀ p, p ∈ procedures config → valid_procedure p) ∧
  escalation_ok config ∧
  (∀ rule, rule ∈ enforcement_rules config → valid_rule rule).

(** ** Each validator *)

Lemma check_distinct_Ok err seen names :
  check_distinct err seen names = Ok tt ↔ NoDup names ∧ ∀ n, n ∈ names → n ∉ seen.
Proof.
  revert seen. induction names as [|n names IH]; intros seen; cbn [check_distinct].
  { split; [|done]. intros _. split; [constructor|]. by intros n ?%elem_of_nil. }
  case_bool_decide as Hn.
  - split; [done|]. intros [_ Hs]. by destruct (Hs n (list_elem_of_here _ _)).
  - rewrite IH, NoDup_cons. split.
    + intros [Hnd Hs]. split_and!; [|done|].
      * intros Hin. apply (Hs n Hin). set_solver.
      * intros m [->|Hm]%elem_of_cons; [done|]. specialize (Hs m Hm). set_solver.
    + intros [[Hin Hnd] Hs]. split; [done|]. intros m Hm. apply not_elem_of_union. split.
      * intros ->%elem_of_singleton. done.
      * apply Hs. by right.
Qed.

Lemma check_unique_names_Ok config : check_unique_names config = Ok tt ↔ distinct_names config.
Proof.
  unfold check_unique_names, distinct_names. rewrite !rbind_Ok.
  setoid_rewrite rbind_Ok. setoid_rewrite rbind_Ok.
  assert (∀ err names, check_distinct err ∅ names = Ok tt ↔ NoDup names) as Hd.
  { intros err names. rewrite check_distinct_Ok. split; [tauto|]. intros ?; split; [done|set_solver]. }
  split.
  - intros ([] & H1 & [] & H2 & [] & H3 & H4). by rewrite Hd in H1, H2, H3, H4.
  - intros (H1 & H2 & H3 & H4). exists tt; split; [by apply Hd|]. exists tt; split; [by apply Hd|].
    exists tt; split; by apply Hd.
Qed.

Lemma trim_dashes s : ∃ n, s = dashes n +:+ trim_start_matches "-"%char s ∧
  ∀ d t, trim_start_matches "-"%char s = String d t → d ≠ "-"%char.
Proof.
  induction s as [|c s IH]; [by exists 0|]. cbn [trim_start_matches]. case_bool_decide as Hc.
  - subst c. destruct IH as (n & Hs & Hd). exists (S n). split; [|done]. by rewrite Hs at 1.
  - exists 0. split; [done|]. intros d t [= <- <-]. done.
Qed.
Lemma trim_of_dashes n d t : d ≠ "-"%char → trim_start_matches "-"%char (dashes n +:+ String d t) = String d t.
Proof.
  intros Hd. induction n as [|n IH]; [|done]. simpl. by rewrite bool_decide_false.
Qed.
Lemma looks_numeric_spec s : starts_with_digit (trim_start_matches "-"%char s) = true ↔ looks_numeric s.
Proof.
  split.
  - destruct (trim_dashes s) as (n & Hs & _). destruct (trim_start_matches "-"%char s) as [|d t]; [done|].
    intros Hd. by exists n, d, t.
  - intros (n & d & t & -> & Hd). rewrite trim_of_dashes; [done|]. intros ->. discriminate Hd.
Qed.

Lemma check_scoring_rule_Ok rule : check_scoring_rule rule = Ok tt ↔ valid_scoring_rule rule.
Proof.
  unfold check_scoring_rule, valid_scoring_rule. rewrite <- looks_numeric_spec.
  destruct (decide (score rule = "")) as [He|He].
  { rewrite bool_decide_true by done. rewrite He. split; [done|by intros [[=] _]]. }
  rewrite bool_decide_false by done. destruct (starts_with_digit _); cbn [negb]; [|naive_solver].
  destruct (decide (score rule ∈ zero_forms)); [rewrite bool_decide_true by done|rewrite bool_decide_false by done];
    naive_solver.
Qed.

Lemma check_procedure_states_Ok p :
  check_procedure_states p = Ok tt ↔
  initial_state p ∈ states p ∧ ∀ s, s ∈ terminal_states p → s ∈ states p.
Proof.
  unfold check_procedure_states. destruct (decide (initial_state p ∈ states p)) as [Hi|Hi];
    [rewrite bool_decide_true by done|rewrite bool_decide_false by done; naive_solver].
  cbn [negb]. rewrite check_each_Ok. split.
  - intros Hall. split; [done|]. intros s Hs. specialize (Hall s Hs).
    destruct (decide (s ∈ states p)); [done|]. by rewrite bool_decide_false in Hall.
  - intros [_ Hall] s Hs. by rewrite bool_decide_true by by apply Hall.
Qed.

Definition map_key (t : ProcedureTransition) : string * string := (from t, transition_action_key t).

Ltac decide_in H P :=
  destruct (decide P) as [?|?];
  [rewrite (bool_decide_true P) in H by done|rewrite (bool_decide_false P) in H by done];
  cbn [negb andb] in H; try discriminate H.

Lemma bool_decide_None {A} (o : option A) (D : base.Decision (o = None)) :
  bool_decide (o = None) = match o with None => true | Some _ => false end.
Proof. by destruct o; [apply bool_decide_eq_false|apply bool_decide_eq_true]. Qed.
Lemma bool_decide_is_Some {A} (o : option A) (D : base.Decision (is_Some o)) :
  bool_decide (is_Some o) = match o with None => false | Some _ => true end.
Proof. destruct o; [by apply bool_decide_eq_true; eauto|apply bool_decide_eq_false; by intros [??]]. Qed.

(** One round of the loop: the transition is valid and its key new. *)
Lemma check_transitions_cons p keys t ts :
  (∀ k n, keys !! k = Some n → (1 ≤ n)%N) →
  check_transitions p keys (t :: ts) = Ok tt ↔
  valid_transition p t ∧ keys !! map_key t = None ∧ check_transitions p (<[map_key t := 1%N]> keys) ts = Ok tt.
Proof.
  intros Hk. cbn [check_transitions]. fold (map_key t). rewrite !bool_decide_None, !bool_decide_is_Some.
  assert ((1 <? default 0 (keys !! map_key t) + 1)%N
          = match keys !! map_key t with None => false | Some _ => true end) as ->.
  { destruct (keys !! map_key t) as [n|] eqn:Hn; simpl; [|done]. apply Hk in Hn. apply N.ltb_lt. lia. }
  unfold valid_transition. split.
  - intros Hok. decide_in Hok (from t ∈ states p). decide_in Hok (to t ∈ states p).
    decide_in Hok (from t ∈ terminal_states p).
    destruct (transition_action t) as [a|], (on_timeout t) as [o|]; [discriminate Hok| | |discriminate Hok];
      cbn [andb] in Hok; (destruct (keys !! map_key t); [discriminate Hok|]).
    + split_and!; [done..| |done|done]. split; [done|by intros [??]].
    + split_and!; [done..| |done|done]. split; eauto.
  - intros ((Hf & Ht & Hn & Ha) & Hb & Hrec).
    rewrite (bool_decide_true (from t ∈ states p)), (bool_decide_true (to t ∈ _)),
      (bool_decide_false (from t ∈ terminal_states p)), Hb by done. cbn [negb].
    destruct (transition_action t) as [a|], (on_timeout t) as [o|]; cbn [andb]; [|done|done|].
    + destruct Ha as [_ Ha]. by discriminate Ha; eauto.
    + destruct Ha as [Ha _]. by destruct Ha.
Qed.

Lemma check_transitions_Ok p keys ts :
  (∀ k n, keys !! k = Some n → (1 ≤ n)%N) →
  check_transitions p keys ts = Ok tt ↔
  (∀ t, t ∈ ts → valid_transition p t) ∧ NoDup (map map_key ts) ∧ ∀ t, t ∈ ts → keys !! map_key t = None.
Proof.
  revert keys. induction ts as [|t ts IH]; intros keys Hk.
  { split; [|done]. intros _. split_and!; [by intros ? ?%elem_of_nil|constructor|by intros ? ?%elem_of_nil]. }
  rewrite check_transitions_cons, IH by
    first [done|intros k m [[_ <-]|[_ Hm]]%lookup_insert_Some; [lia|by eapply Hk]].
  cbn [map]. rewrite NoDup_cons. split.
  - intros (Hv & Hkt & Hall & Hnd & Hnone). split_and!; [| |done|].
    + intros t' [->|Hin]%elem_of_cons; [done|by apply Hall].
    + intros (t' & Heq & Hin)%list_elem_of_fmap. specialize (Hnone t' Hin). by rewrite <- Heq, lookup_insert_eq in Hnone.
    + intros t' [->|Hin]%elem_of_cons; [done|]. specialize (Hnone t' Hin). by apply lookup_insert_None in Hnone as [? _].
  - intros (Hall & [Hnin Hnd] & Hnone). split_and!; [apply Hall; by left|apply Hnone; by left| |done|].
    + intros t' Hin. apply Hall. by right.
    + intros t' Hin. apply lookup_insert_None. split; [apply Hnone; by right|].
      intros Heq. apply Hnin. rewrite Heq. by apply list_elem_of_fmap_2.
Qed.

Lemma valid_transition_kind p t : valid_transition p t →
  (∃ a, transition_action t = Some a ∧ on_timeout t = None) ∨
  (∃ o, transition_action t = None ∧ on_timeout t = Some o).
Proof.
  intros (_ & _ & _ & Ha). destruct (transition_action t) as [a|], (on_timeout t) as [o|].
  - destruct Ha as [_ Ha]. by discriminate Ha; eauto.
  - left. by exists a.
  - right. by exists o.
  - destruct Ha as [Ha _]. by destruct Ha.
Qed.

(** Among valid transitions the key determines action and timeout. *)
Lemma map_key_NoDup p ts : (∀ t, t ∈ ts → valid_transition p t) →
  NoDup (map map_key ts) ↔ NoDup (map transition_key ts).
Proof.
  intros Hv. assert (∀ t u, t ∈ ts → u ∈ ts → map_key t = map_key u ↔ transition_key t = transition_key u) as Hinj.
  { intros t u Ht%Hv%valid_transition_kind Hu%Hv%valid_transition_kind.
    unfold map_key, transition_key, transition_action_key.
    destruct Ht as [(a & -> & ->)|(o & -> & ->)], Hu as [(a' & -> & ->)|(o' & -> & ->)].
    all: split; [|congruence]; intros [= Hf Hk]; try discriminate Hk.
    - assert (a = a') as -> by exact Hk. by rewrite Hf.
    - assert (o = o') as -> by exact Hk. by rewrite Hf. }
  clear Hv. induction ts as [|t ts IH]; [by split; intros _; constructor|]. cbn [map]. rewrite !NoDup_cons, IH
    by (intros a b Ha Hb; apply Hinj; by right).
  assert (map_key t ∈ map map_key ts ↔ transition_key t ∈ map transition_key ts) as ->; [|done].
  rewrite !list_elem_of_fmap. split; intros (u & Hu & Hin); exists u; (split; [|done]);
    (apply Hinj; [by left|by right|done]).
Qed.

Lemma check_procedure_Ok p :
  (check_procedure_states p = Ok tt ∧ check_procedure_transitions p = Ok tt) ↔ valid_procedure p.
Proof.
  rewrite check_procedure_states_Ok. unfold check_procedure_transitions, valid_procedure.
  rewrite rbind_Ok. setoid_rewrite check_each_Ok.
  assert (∀ k n, (∅ : gmap (string * string) N) !! k = Some n → (1 ≤ n)%N) as Hempty
    by (intros k n Hk; by rewrite lookup_empty in Hk).
  pose proof (check_transitions_Ok p ∅ (transitions p) Hempty) as Hts.
  assert (∀ s, (if bool_decide (s ∈ terminal_states p) then Ok tt
     else if negb (existsb (λ t, bool_decide (from t = s)) (transitions p)) then
       Err (CedarPlusError.InvalidProcedure (proc_name p)
             ("non-terminal state " +:+ debug_str s +:+ " has no outgoing transitions — instances would be stuck"))
     else Ok tt) = Ok tt ↔ (s ∉ terminal_states p → ∃ t, t ∈ transitions p ∧ from t = s)) as Hout.
  { intros s. destruct (decide (s ∈ terminal_states p));
      [rewrite bool_decide_true by done; naive_solver|rewrite bool_decide_false by done].
    destruct (existsb _ _) eqn:He; cbn [negb].
    - apply existsb_True_elem in He as (t & Ht & Hs%bool_decide_eq_true). naive_solver.
    - split; [done|]. intros Hex. destruct Hex as (t & Ht & Hs); [done|].
      assert (existsb (λ t, bool_decide (from t = s)) (transitions p) = true); [|congruence].
      apply existsb_True_elem. exists t. by rewrite bool_decide_true. }
  split.
  - intros ([Hi Ht] & [] & (Hv & Hnd & _)%Hts & Hall). split_and!; [done..|by apply (map_key_NoDup p)|].
    intros s Hs. apply Hout. by apply Hall.
  - intros (Hi & Ht & Hv & Hnd & Hall). split; [done|]. exists tt. split.
    + apply Hts. split_and!; [done|by apply (map_key_NoDup p)|done].
    + intros s Hs. apply Hout. by apply Hall.
Qed.

(** ** Enforcement rules *)

Lemma check_duration_Ok rule field d : check_duration rule field d = Ok tt ↔ duration_ok d.
Proof.
  unfold check_duration, duration_ok. rewrite bool_decide_None.
  destruct (parse_duration d); split; [by eauto|done|done|by intros [? ?]].
Qed.
Lemma check_optional_Ok {A} (f : A → Result unit CedarPlusError) o :
  check_optional f o = Ok tt ↔ ∀ x, o = Some x → f x = Ok tt.
Proof. destruct o as [x|]; simpl; [|done]. split; [by intros Hx y [= <-]|]. intros Hx. by apply Hx. Qed.
Lemma rbind_unit_Ok {E B} (r : Result unit E) (k : Result B E) b :
  rbind r (λ _, k) = Ok b ↔ r = Ok tt ∧ k = Ok b.
Proof. destruct r as [[]|e]; simpl; [tauto|]. split; [done|by intros [? _]]. Qed.

Lemma check_enforcement_rule_Ok rule : check_enforcement_rule rule = Ok tt ↔ valid_rule rule.
Proof.
  unfold check_enforcement_rule, valid_rule.
  destruct (decide (receipt_kind (detect_trigger (detect rule)) ∈ known_receipt_kinds)) as [Hk|Hk];
    [rewrite bool_decide_true by done|rewrite bool_decide_false by done; cbn [negb]; naive_solver].
  cbn [negb]. destruct (N.eqb_spec (count_threshold (detect rule)) 0) as [He|He].
  { split; [done|]. intros (_ & Hlt & _). lia. }
  rewrite !rbind_unit_Ok, !check_optional_Ok, check_duration_Ok.
  setoid_rewrite check_duration_Ok. setoid_rewrite rbind_unit_Ok. setoid_rewrite check_optional_Ok.
  setoid_rewrite check_duration_Ok. split.
  - intros (? & ? & ? & ?). split_and!; [done|lia|done..].
  - intros (_ & _ & ? & ? & ? & ?). done.
Qed.

Lemma constitution_valid_of_checks
  (set_iter : gset string → list string)
  (graph_iter : gmap string (gset string) → list (string * gset string))
  (set_iter_spec : ∀ s x, x ∈ set_iter s ↔ x ∈ s)
  (graph_iter_spec : ∀ m, graph_iter m ≡ₚ map_to_list m) (config : EngineConfig) :
  (check_unique_names config = Ok tt ∧ check_scoring_rules config = Ok tt ∧
   check_procedures set_iter graph_iter config = Ok tt ∧ check_enforcement_rules config = Ok tt)
  ↔ valid_config config.
Proof.
  pose proof (escalation_check_Ok set_iter graph_iter set_iter_spec graph_iter_spec config) as He.
  unfold check_scoring_rules, check_procedures, check_enforcement_rules, valid_config.
  set (acyclic := check_escalation_acyclic set_iter graph_iter config) in *. clearbody acyclic.
  rewrite check_unique_names_Ok, rbind_unit_Ok, !check_each_Ok.
  setoid_rewrite check_scoring_rule_Ok. setoid_rewrite check_enforcement_rule_Ok.
  setoid_rewrite rbind_unit_Ok. setoid_rewrite check_procedure_Ok.
  split.
  - intros (Hn & Hs & [Hp Ha] & Hr). refine (conj Hn (conj Hs (conj Hp (conj _ Hr)))).
    exact (proj1 (He (proj1 (proj2 Hn))) Ha).
  - intros (Hn & Hs & Hp & Ha & Hr). refine (conj Hn (conj Hs (conj (conj Hp _) Hr))).
    exact (proj2 (He (proj1 (proj2 Hn))) Ha).
Qed.

(** [C24] The validators accept exactly the valid configurations, whatever
    order the hash maps and sets are walked in.  The four structural passes of
    the loader all succeed if and only if: names are distinct in each section;
    every score starts, after any minus signs, with a digit and is none of six
    spellings of zero; every procedure has
    its states declared, leaves no terminal state, has one trigger per
    transition and no two transitions on the same one, and no state that is
    stuck; timeouts escalate to declared procedures and never in a circle; and
    every enforcement rule watches a known kind of receipt, with a positive
    threshold and durations that parse, which may be zero ([loose_validation]). *)
Theorem constitution_validation_exact
  (set_iter : gset string → list string)
  (graph_iter : gmap string (gset string) → list (string * gset string))
  (set_iter_spec : ∀ s x, x ∈ set_iter s ↔ x ∈ s)
  (graph_iter_spec : ∀ m, graph_iter m ≡ₚ map_to_list m) (config : EngineConfig) :
  (check_unique_names config = Ok tt ∧ check_scoring_rules config = Ok tt ∧
   check_procedures set_iter graph_iter config = Ok tt ∧ check_enforcement_rules config = Ok tt)
  ↔ valid_config config.
Proof. by apply constitution_valid_of_checks. Qed.

(** What that lets through: scores that are no numbers, other spellings of zero, and
    a window of no length. *)
Lemma loose_validation :
  let scored s := check_scoring_rule (mkScoring "r" s (mkHead None None None) "true") in
  scored "1abc"%string = Ok tt ∧ scored "0.000"%string = Ok tt ∧
  check_enforcement_rule
    (mkRule "r" (mkDetect (mkDetectTrigger "capability.check.deny" None None) 1 "0s" "principal" false)
       None None None ∅ (mkReverse []) None) = Ok tt.
Proof. vm_compute. by split_and!. Qed.

(** ** Resolution keeps the structure *)

Definition same_transition (t u : ProcedureTransition) : Prop :=
  from u = from t ∧ to u = to t ∧ transition_action u = transition_action t ∧ on_timeout u = on_timeout t.
Definition same_procedure (p q : Procedure) : Prop :=
  proc_name q = proc_name p ∧ initial_state q = initial_state p ∧ states q = states p ∧
  terminal_states q = terminal_states p ∧ on_timeout_escalate q = on_timeout_escalate p ∧
  Forall2 same_transition (transitions p) (transitions q).
Definition same_scoring (r s : ScoringRule) : Prop :=
  scoring_name s = scoring_name r ∧ score s = score r ∧ head s = head r.

Lemma Forall2_elem_l {A B} (R : A → B → Prop) l k x : Forall2 R l k → x ∈ l → ∃ y, y ∈ k ∧ R x y.
Proof.
  induction 1 as [|a b l k Hab _ IH]; [by intros ?%elem_of_nil|].
  intros [->|Hx]%elem_of_cons; [exists b; split; [by left|done]|].
  destruct (IH Hx) as (y & ? & ?). exists y. split; [by right|done].
Qed.
Lemma Forall2_elem_r {A B} (R : A → B → Prop) l k y : Forall2 R l k → y ∈ k → ∃ x, x ∈ l ∧ R x y.
Proof.
  intros HR%Forall2_flip Hy. by apply (Forall2_elem_l _ _ _ _ HR) in Hy.
Qed.
Lemma Forall2_map_eq {A B C} (R : A → B → Prop) (f : A → C) (g : B → C) l k :
  (∀ x y, R x y → g y = f x) → Forall2 R l k → map g k = map f l.
Proof. intros HR. induction 1; [done|]. simpl. f_equal; [by apply HR|done]. Qed.

Lemma resolve_transition_same m p t u : resolve_transition m p t = Ok u → same_transition t u.
Proof. unfold resolve_transition. intros (w & _ & [= <-])%rbind_Ok. by split_and!. Qed.
Lemma resolve_procedure_same m p q : resolve_procedure m p = Ok q → same_procedure p q.
Proof.
  unfold resolve_procedure. intros (w & _ & (ts & Hts & [= <-])%rbind_Ok)%rbind_Ok.
  unfold same_procedure; simpl. do 5 (split; [done|]). apply collect_Ok in Hts.
  eapply Forall2_impl; [done|]. intros t u. apply resolve_transition_same.
Qed.

Lemma valid_procedure_same p q : same_procedure p q → valid_procedure p → valid_procedure q.
Proof.
  intros (Hn & Hi & Hs & Ht & _ & Hts) (Vi & Vt & Vv & Vk & Vo). unfold valid_procedure.
  rewrite Hi, Hs, Ht. split; [done|]. split; [done|]. split; [|split].
  - intros u Hu. destruct (Forall2_elem_r _ _ _ _ Hts Hu) as (t & Hin & (Hf & Hto & Ha & Hon)).
    unfold valid_transition. rewrite Hs, Ht, Hf, Hto, Ha, Hon. by apply Vv.
  - rewrite (Forall2_map_eq same_transition transition_key transition_key (transitions p)); [done| |done].
    intros t u (Hf & _ & Ha & Ho). unfold transition_key. by rewrite Hf, Ha, Ho.
  - intros s Hs1 Hs2. destruct (Vo s Hs1 Hs2) as (t & Hin & Hf).
    destruct (Forall2_elem_l _ _ _ _ Hts Hin) as (u & Hu & Hfu & _). exists u. split; [done|]. by rewrite Hfu.
Qed.

Record same_config (c r : EngineConfig) : Prop := {
  same_rules : Forall2 same_scoring (scoring_rules c) (scoring_rules r);
  same_procedures : Forall2 same_procedure (procedures c) (procedures r);
  same_enforcement : enforcement_rules r = enforcement_rules c;
  same_predicates : predicates r = predicates c }.

Lemma resolve_same config r : resolve_named_predicates config = Ok r → same_config config r.
Proof.
  unfold resolve_named_predicates. intros (rules & Hr & (ps & Hp & [= <-])%rbind_Ok)%rbind_Ok.
  apply collect_Ok in Hr, Hp. split; simpl; [|..]; [| |done|done].
  - eapply Forall2_impl; [exact Hr|]. intros s s' (w & _ & [= <-])%rbind_Ok. by split_and!.
  - eapply Forall2_impl; [exact Hp|]. intros p q. apply resolve_procedure_same.
Qed.

Lemma escalates_same c r x y : same_config c r → escalates r x y ↔ escalates c x y.
Proof.
  intros [_ Hp _ _]. unfold escalates. split; intros (p & st & Hin & <- & Hy).
  - destruct (Forall2_elem_r _ _ _ _ Hp Hin) as (q & Hq & (Hn & _ & _ & _ & He & _)). exists q, st.
    by rewrite <- He, Hn.
  - destruct (Forall2_elem_l _ _ _ _ Hp Hin) as (q & Hq & (Hn & _ & _ & _ & He & _)). exists q, st.
    by rewrite He, Hn.
Qed.

Lemma same_config_valid c r : same_config c r → valid_config c → valid_config r.
Proof.
  intros Hsame ((Hns & Hnp & Hne & Hnd) & Hs & Hp & (Ht & Ha) & He).
  assert (map proc_name (procedures r) = map proc_name (procedures c)) as Hnames.
  { apply (Forall2_map_eq same_procedure); [by intros p q [Hn _]|apply Hsame]. }
  assert (map scoring_name (scoring_rules r) = map scoring_name (scoring_rules c)) as Hscoring.
  { apply (Forall2_map_eq same_scoring); [by intros p q [Hn _]|apply Hsame]. }
  pose proof (same_enforcement _ _ Hsame) as Hen. pose proof (same_predicates _ _ Hsame) as Hpr.
  unfold valid_config, distinct_names, escalation_ok. rewrite Hnames, Hscoring, Hen, Hpr.
  split; [done|]. split; [|split; [|split; [|done]]].
  - intros s Hin. destruct (Forall2_elem_r _ _ _ _ (same_rules _ _ Hsame) Hin) as (s0 & Hin0 & (_ & Hsc & _)).
    unfold valid_scoring_rule. rewrite Hsc. by apply Hs.
  - intros p Hin. destruct (Forall2_elem_r _ _ _ _ (same_procedures _ _ Hsame) Hin) as (p0 & Hin0 & Hpp).
    eapply valid_procedure_same; [done|by apply Hp].
  - split.
    + intros x y. rewrite (escalates_same _ _ _ _ Hsame). apply Ht.
    + intros x. rewrite (tc_iff _ (escalates c)); [apply Ha|]. intros a b. by apply escalates_same.
Qed.

(** ** What the loader returns *)

Section loaded.
Context `{SerdeJson} {engine : Cedar}.
Context (set_iter : gset string → list string)
        (graph_iter : gmap string (gset string) → list (string * gset string)).
Context (set_iter_spec : ∀ s x, x ∈ set_iter s ↔ x ∈ s)
        (graph_iter_spec : ∀ m, graph_iter m ≡ₚ map_to_list m).

(** A constitution ready for evaluation. *)
Record loaded (loader : ConstitutionLoader) (a : ActivatedConstitution) : Prop := {
  loaded_valid : valid_config (resolved_engine_config a);
  loaded_same : same_config (Constitution.engine_config (constitution a)) (resolved_engine_config a);
  loaded_layer_b : synthesize (resolved_engine_config a) = Ok (layer_b a);
  loaded_schema : schema a = loader_schema loader;
  loaded_policies : policy_set_from_str (Constitution.cedar_source (constitution a)) = Ok (policy_set a);
  loaded_strict : (validate_strict (schema a) (policy_set a)).1 = true;
  loaded_policy_count : policy_count a = N.of_nat (policies_count (policy_set a));
  loaded_depth : cedar_max_policy_depth a = estimate_cedar_depth (Constitution.cedar_source (constitution a));
  loaded_bounds :
    (policy_count a ≤ SandboxConfig.max_cedar_policies (bounds loader))%N ∧
    (cedar_max_policy_depth a ≤ SandboxConfig.max_policy_depth_at_load (bounds loader))%N ∧
    (list_len (scoring_rules (resolved_engine_config a)) ≤ SandboxConfig.max_scoring_rules (bounds loader))%N ∧
    (list_len (procedures (resolved_engine_config a)) ≤ SandboxConfig.max_procedures (bounds loader))%N;
  loaded_scoring_when : ∀ r, r ∈ scoring_rules (resolved_engine_config a) →
    expression_from_str (scoring_when r) = Ok tt;
  loaded_trigger_when : ∀ p w, p ∈ procedures (resolved_engine_config a) →
    trigger_when (trigger p) = Some w → expression_from_str w = Ok tt;
  loaded_actor_when : ∀ p t w, p ∈ procedures (resolved_engine_config a) → t ∈ transitions p →
    actor_when t = Some w → expression_from_str w = Ok tt }.

Lemma check_load_time_counts_Ok config b : check_load_time_counts config b = Ok tt ↔
  (list_len (scoring_rules config) ≤ SandboxConfig.max_scoring_rules b)%N ∧
  (list_len (procedures config) ≤ SandboxConfig.max_procedures b)%N.
Proof.
  unfold check_load_time_counts.
  destruct (N.ltb_spec (SandboxConfig.max_scoring_rules b) (list_len (scoring_rules config)));
    [split; [done|lia]|].
  destruct (N.ltb_spec (SandboxConfig.max_procedures b) (list_len (procedures config)));
    [split; [done|lia]|]. done.
Qed.

Lemma parse_and_validate_Ok s source b p : parse_and_validate_cedar s source b = Ok p →
  policy_set_from_str source = Ok (parsed_policy_set p) ∧
  parsed_policy_count p = N.of_nat (policies_count (parsed_policy_set p)) ∧
  (parsed_policy_count p ≤ SandboxConfig.max_cedar_policies b)%N ∧
  (validate_strict s (parsed_policy_set p)).1 = true ∧
  parsed_max_policy_depth p = estimate_cedar_depth source ∧
  (parsed_max_policy_depth p ≤ SandboxConfig.max_policy_depth_at_load b)%N.
Proof.
  unfold parse_and_validate_cedar. intros (ps & Hps%map_err_Ok & Hp)%rbind_Ok.
  destruct (N.ltb_spec (SandboxConfig.max_cedar_policies b) (N.of_nat (policies_count ps))); [done|].
  destruct (validate_strict s ps) as [passed errs] eqn:Hv. destruct passed; [cbn [negb] in Hp|done].
  destruct (N.ltb_spec (SandboxConfig.max_policy_depth_at_load b) (estimate_cedar_depth source)); [done|].
  injection Hp as <-. simpl. by rewrite Hv.
Qed.

Lemma parse_cedar_expression_Ok e : parse_cedar_expression e = Ok tt ↔ expression_from_str e = Ok tt.
Proof. unfold parse_cedar_expression. by rewrite map_err_Ok. Qed.

Lemma check_scoring_when_Ok r : check_scoring_when r = Ok tt ↔ expression_from_str (scoring_when r) = Ok tt.
Proof. unfold check_scoring_when. by rewrite map_err_Ok, parse_cedar_expression_Ok. Qed.
Lemma check_procedure_whens_Ok p : check_procedure_whens p = Ok tt ↔
  (∀ w, trigger_when (trigger p) = Some w → expression_from_str w = Ok tt) ∧
  ∀ t, t ∈ transitions p → ∀ w, actor_when t = Some w → expression_from_str w = Ok tt.
Proof.
  unfold check_procedure_whens, check_transition_when. rewrite rbind_unit_Ok, check_optional_Ok, check_each_Ok.
  setoid_rewrite check_optional_Ok. setoid_rewrite map_err_Ok. by setoid_rewrite parse_cedar_expression_Ok.
Qed.

(** Every constitution the loader returns is ready for evaluation. *)
Lemma load_loaded loader c a : load set_iter graph_iter loader c = Ok a → constitution a = c ∧ loaded loader a.
Proof.
  unfold load. rewrite !rbind_unit_Ok. intros (Hn & Hs & Hp & He & Hrest).
  apply rbind_Ok in Hrest as (r & Hr & Hrest). rewrite rbind_unit_Ok in Hrest.
  destruct Hrest as [Hcount Hrest]. apply rbind_Ok in Hrest as (p & Hparse & Hrest).
  rewrite !rbind_unit_Ok in Hrest. destruct Hrest as (Hsw & Hpw & (lb & Hlb & [= <-])%rbind_Ok).
  split; [done|]. assert (valid_config (Constitution.engine_config c)) as Hv.
  { by apply (constitution_valid_of_checks set_iter graph_iter). }
  apply resolve_same in Hr. apply parse_and_validate_Ok in Hparse as (? & ? & ? & ? & ? & ?).
  apply check_load_time_counts_Ok in Hcount as [? ?].
  rewrite check_each_Ok in Hsw. rewrite check_each_Ok in Hpw.
  split; simpl; try done.
  - by eapply same_config_valid.
  - intros s Hin. by apply check_scoring_when_Ok, Hsw.
  - intros q w Hin. by apply check_procedure_whens_Ok, Hpw.
  - intros q t w Hin Ht Hw. by apply (proj2 (proj1 (check_procedure_whens_Ok q) (Hpw q Hin)) t).
Qed.
End loaded.

(** ** Named predicates, as a grammar *)

(** The text does not go on with a name character. *)
Definition name_ends (s : string) : Prop :=
  match s with String c _ => is_name_char c = false | EmptyString => True end.
Definition is_name (s : string) : Prop := s ≠ ""%string ∧ str_forall is_name_char s = true.

(** What a text expands to, reading it from the left: a reference is [@] with
    the longest name after it, an [@] without a name stands for itself. *)
Inductive expands (m : gmap string string) : string → Result string string → Prop :=
| expands_end : expands m "" (Ok "")%string
| expands_char c s r : c ≠ "@"%char → expands m s r →
    expands m (String c s) (rbind r (λ out, Ok (String c out)))
| expands_at s r : name_ends s → expands m s r →
    expands m (String "@"%char s) (rbind r (λ out, Ok (String "@"%char out)))
| expands_ref n s e r : is_name n → name_ends s → m !! n = Some e → expands m s r →
    expands m (String "@"%char (n +:+ s)) (rbind r (λ out, Ok ("(" +:+ e +:+ ")" +:+ out)))
| expands_unresolved n s : is_name n → name_ends s → m !! n = None →
    expands m (String "@"%char (n +:+ s)) (Err n).

Lemma span_name_spec s : let '(n, rest) := span_name s in
  s = n +:+ rest ∧ str_forall is_name_char n = true ∧ name_ends rest.
Proof.
  induction s as [|c s IH]; [done|]. cbn [span_name]. destruct (is_name_char c) eqn:Hc; [|done].
  destruct (span_name s) as [n rest]. destruct IH as (-> & Hn & He). split_and!; [done|simpl; by rewrite Hc|done].
Qed.
Lemma span_name_app n s : str_forall is_name_char n = true → name_ends s → span_name (n +:+ s) = (n, s).
Proof.
  induction n as [|c n IH]; simpl.
  - intros _ Hs. destruct s as [|d s]; [done|]. simpl in *. by rewrite Hs.
  - intros [Hc Hn]%andb_true_iff Hs. rewrite Hc. by rewrite IH.
Qed.

Lemma substitute_loop_expands m fuel s : String.length s ≤ fuel → expands m s (substitute_loop m fuel s).
Proof.
  revert s. induction fuel as [|fuel IH]; intros [|c s] Hlen; simpl in *; [constructor|lia|constructor|].
  case_bool_decide as Hc; [subst c|apply expands_char; [done|apply IH; lia]].
  pose proof (span_name_spec s) as Hs. destruct (span_name s) as [n rest]. destruct Hs as (-> & Hn & He).
  rewrite length_string_app in Hlen. case_bool_decide as Hne; [subst n|].
  { apply expands_at; [done|]. apply IH. rewrite length_string_app. simpl in *. lia. }
  destruct (m !! n) as [e|] eqn:Hm; [|by apply expands_unresolved].
  apply expands_ref; [done..|]. apply IH. lia.
Qed.

Lemma expands_loop m s r : expands m s r → ∀ fuel, String.length s ≤ fuel → substitute_loop m fuel s = r.
Proof.
  induction 1 as [|c s r Hc _ IH|s r He _ IH|n s e r [Hn0 Hn] He Hm _ IH|n s [Hn0 Hn] He Hm];
    intros [|fuel] Hlen; simpl in *; try done; try lia.
  - rewrite bool_decide_false by done. rewrite IH by lia. done.
  - assert (span_name s = (""%string, s)) as -> by (by apply (span_name_app "" s)).
    rewrite bool_decide_true by done. rewrite IH by lia. done.
  - rewrite (span_name_app n s) by done. rewrite length_string_app in Hlen.
    rewrite bool_decide_false, Hm, IH by (done || lia). done.
  - rewrite (span_name_app n s) by done. by rewrite bool_decide_false, Hm.
Qed.

(** References to named predicates.  [substitute] always ends, and its
    result is the one expansion of the text: every [@name], with the longest
    possible name, is replaced by the predicate's expression in parentheses,
    an [@] that no name follows and every other character stay, and the first
    name without a predicate is the error. *)
Lemma substitute_exact (m : gmap string string) (s : string) (r : Result string string) :
  substitute s m = r ↔ expands m s r.
Proof.
  unfold substitute. split; [intros <-; by apply substitute_loop_expands|].
  intros He. by apply (expands_loop _ _ _ He).
Qed.
Example substituted :
  (substitute "@owner && a@b.c @ @" {["owner" := "x"; "b" := "y"]}%string,
   substitute "@ab" {["a" := "x"]}%string)
  = (Ok "(x) && a(y).c @ @", Err "ab")%string.
Proof. vm_compute. reflexivity. Qed.
