(* ===== verification/ProcedureTyping.v ===== *)
(** * [yutha-cedar-plus]: procedures of a loaded constitution stay in their states

    The validator's promises about procedures ([ConfigSpec]) and the evaluation
    of procedures ([Procedure]) put together: an index built under a loaded
    constitution holds only instances of declared procedures, in declared
    states, closed in terminal states only, and never without a way on. *)

From S2P Require Import Prelude RustStd Core Crypto Score Enforcement CedarPlus Procedure Validate Escalation ConfigSpec.
Import EngineConfig.

Section handles.
Context `{SerdeJson} {engine : Cedar}.
Implicit Types (config : EngineConfig) (h : TransitionHandle).

Lemma action_transitions_spec ps p t a :
  (p, t, a) ∈ action_transitions ps ↔ p ∈ ps ∧ t ∈ transitions p ∧ transition_action t = Some a.
Proof.
  unfold action_transitions. rewrite list_elem_of_In, in_concat. setoid_rewrite in_map_iff. split.
  - intros (l & (q & <- & Hq) & Hin). rewrite <- list_elem_of_In in Hin. rewrite <- list_elem_of_In in Hq.
    apply list_elem_of_omap in Hin as (u & Hu & Ha). destruct (transition_action u) eqn:He; [|done].
    simpl in Ha. injection Ha as -> -> ->. done.
  - intros (Hp & Ht & Ha). eexists. split; [exists p; split; [done|by apply list_elem_of_In]|].
    rewrite <- list_elem_of_In. apply list_elem_of_omap. exists t. by rewrite Ha.
Qed.

Lemma foldl_insert_elem {A B} (key : A → string) (val : A → B) (l : list A) (m : gmap string B) x b :
  foldl (λ m a, <[key a := val a]> m) m l !! x = Some b →
  m !! x = Some b ∨ ∃ a, a ∈ l ∧ key a = x ∧ val a = b.
Proof.
  revert m. induction l as [|a l IH]; intros m; cbn [foldl]; [by left|]. intros [Hx|(c & Hc & ? & ?)]%IH.
  - apply lookup_insert_Some in Hx as [[<- <-]|[_ Hx]]; [right|by left]. exists a. split; [by left|done].
  - right. exists c. split; [by right|done].
Qed.

(** A handle stands for a transition the configuration declares. *)
Lemma transition_handle_declared config lb id h :
  synthesize config = Ok lb → transition_by_policy_id lb !! id = Some h →
  ∃ p t a, p ∈ procedures config ∧ t ∈ transitions p ∧ transition_action t = Some a ∧
           h = mkTransitionHandle (proc_name p) (from t) (to t) a.
Proof.
  unfold synthesize, synthesize_transitions.
  intros (sc & _ & (tr & _ & (ts & (ps & _ & [= <-])%rbind_Ok & [= <-])%rbind_Ok)%rbind_Ok)%rbind_Ok Hh.
  cbn [transition_by_policy_id snd] in Hh.
  assert (∃ x, x ∈ action_transitions (procedures config) ∧
            (λ '(p, t, a), mkTransitionHandle (proc_name p) (from t) (to t) a) x = h)
    as ([[p t] a] & Hin & <-).
  { assert (foldl (λ m x, <[(λ '(p, t, _), transition_id p t) x :=
              (λ '(p, t, a), mkTransitionHandle (proc_name p) (from t) (to t) a) x]> m) (∅ : gmap string TransitionHandle)
            (action_transitions (procedures config)) !! id = Some h) as Hf.
    { rewrite <- Hh. f_equal. clear. generalize (∅ : gmap string TransitionHandle).
      induction (action_transitions (procedures config)) as [|[[p t] a] l IH]; intros m; [done|]. apply IH. }
    apply foldl_insert_elem in Hf as [Hf|(x & Hx & _ & <-)]; [by rewrite lookup_empty in Hf|by exists x]. }
  apply action_transitions_spec in Hin as (Hp & Ht & Ha). by exists p, t, a.
Qed.
End handles.

(** ** Well-typed instances *)

Section typing.
Context `{CryptoOps, SerdeJson} {engine : Cedar} (values : gmap string ProcedureInstance → list ProcedureInstance).
Context (values_spec : ∀ m, values m ≡ₚ (map_to_list m).*2).
Implicit Types (config : EngineConfig) (i : ProcedureInstance).

(** The instance of a declared procedure is in one of its states, is closed
    only in a terminal one, and is open in a terminal one only when it began
    there. *)
Definition instance_typed config i : Prop :=
  ∃ p, procedure_named (ProcedureInstance.procedure_name i) config = Some p ∧
    ProcedureInstance.current_state i ∈ states p ∧
    (ProcedureInstance.closed i = true → ProcedureInstance.current_state i ∈ terminal_states p) ∧
    (ProcedureInstance.current_state i ∈ terminal_states p →
       ProcedureInstance.closed i = true ∨ ProcedureInstance.current_state i = initial_state p).
Definition index_typed config (index : gmap string ProcedureInstance) : Prop :=
  index_wf index ∧ ∀ id i, index !! id = Some i → instance_typed config i.

Lemma procedure_named_Some name config p :
  procedure_named name config = Some p → p ∈ procedures config ∧ proc_name p = name.
Proof.
  unfold procedure_named. intros [Hin Hn%bool_decide_eq_true]%List.find_some.
  by rewrite <- list_elem_of_In in Hin.
Qed.
Lemma named_unique config p q : NoDup (map proc_name (procedures config)) →
  p ∈ procedures config → q ∈ procedures config → proc_name p = proc_name q → p = q.
Proof.
  intros Hnd. induction (procedures config) as [|r l IH]; [by intros ?%elem_of_nil|].
  apply NoDup_cons in Hnd as [Hr Hnd].
  assert (∀ x, x ∈ l → proc_name x ≠ proc_name r) as Hne.
  { intros x Hx Heq. apply Hr. rewrite <- Heq. by apply list_elem_of_fmap_2. }
  intros [->|Hp]%elem_of_cons [->|Hq]%elem_of_cons Heq; [done| | |by apply IH].
  - by destruct (Hne q Hq).
  - by destruct (Hne p Hp).
Qed.

Lemma instance_step_typed config lb request entities ctx i j :
  valid_config config → synthesize config = Ok lb →
  instance_step config ctx (matched_handles request entities lb) i j →
  instance_typed config i → instance_typed config j.
Proof.
  intros ((_ & Hnd & _) & _ & Hp & _) Hlb Hstep (q & Hq & _).
  destruct Hstep as [h p i (id & _ & Hh) _ Happ Hp']. unfold applies in Happ.
  rewrite !andb_true_iff, !bool_decide_eq_true in Happ. destruct Happ as [[_ Hname] _].
  destruct (transition_handle_declared _ _ _ _ Hlb Hh) as (p0 & t & a & Hp0 & Ht & _ & ->).
  simpl in *. destruct (procedure_named_Some _ _ _ Hp') as [Hpin Hpn].
  assert (p = p0) as <- by (eapply named_unique; [done..|]; by rewrite Hpn).
  exists p. simpl. split; [by rewrite <- Hp'|].
  destruct (Hp p Hpin) as (_ & _ & Hv & _). destruct (Hv t Ht) as (_ & Hto & _).
  rewrite bool_decide_eq_true. split_and!; [done..|]. by left.
Qed.

(** [C27] Procedures keep to their declared states.  Under a constitution the
    loader returned, one evaluation keeps the index well typed: every instance
    belongs to a declared procedure, is in one of its states, is closed only
    in a terminal state and is open in one only when it was entered there; and
    a declared transition leaves every other state, so no typed instance is
    without a way on. *)
Theorem instances_typed
  (set_iter : gset string → list string)
  (graph_iter : gmap string (gset string) → list (string * gset string))
  (set_iter_spec : ∀ s x, x ∈ set_iter s ↔ x ∈ s)
  (graph_iter_spec : ∀ m, graph_iter m ≡ₚ map_to_list m)
  (loader : ConstitutionLoader) (c : Constitution) (a : ActivatedConstitution)
  (request : CedarRequest) (entities : Entities) (ctx : ProcedureEvalContext)
  (index : gmap string ProcedureInstance) :
  load set_iter graph_iter loader c = Ok a →
  index_typed (resolved_engine_config a) index →
  index_typed (resolved_engine_config a)
    (evaluate_procedures values request entities (resolved_engine_config a) (layer_b a) ctx index).1 ∧
  ∀ i p, instance_typed (resolved_engine_config a) i →
    procedure_named (ProcedureInstance.procedure_name i) (resolved_engine_config a) = Some p →
    ProcedureInstance.current_state i ∉ terminal_states p →
    ∃ t, t ∈ transitions p ∧ from t = ProcedureInstance.current_state i.
Proof.
  intros Hload [Hwf Htyped]. apply (load_loaded set_iter graph_iter set_iter_spec graph_iter_spec) in Hload as [_ Hl].
  pose proof (loaded_valid _ _ Hl) as Hv. pose proof (loaded_layer_b _ _ Hl) as Hlb.
  assert (∀ p, p ∈ procedures (resolved_engine_config a) → valid_procedure p) as Hp by apply Hv.
  split.
  - pose proof (procedures_move_legally values values_spec (resolved_engine_config a) ctx request entities
      (layer_b a) index) as Hm.
    destruct (evaluate_procedures _ _ _ _ _ _ _) as [index' effects]. cbn [fst].
    split; [by destruct (Hm ""%string Hwf)|]. intros id i' Hi'. destruct (Hm id Hwf) as [_ Hid]. rewrite Hi' in Hid.
    destruct Hid as (i & Hsteps & Hfrom & _).
    assert (instance_typed (resolved_engine_config a) i) as Hi.
    { destruct Hfrom as [Hold|(_ & _ & p & name & Hpn & ->)]; [by eapply Htyped|].
      exists p. simpl. destruct (procedure_named_Some _ _ _ Hpn) as [Hin _].
      destruct (Hp p Hin) as (Hinit & _). split_and!; [done..|]. by right. }
    clear Hfrom Hi'. induction Hsteps as [|x y z Hstep _ IH]; [done|].
    apply IH. by eapply instance_step_typed.
  - intros i p (q & Hq & Hst & _) Hpn Hnt. rewrite Hpn in Hq. injection Hq as <-.
    destruct (procedure_named_Some _ _ _ Hpn) as [Hin _]. destruct (Hp p Hin) as (_ & _ & _ & _ & Hout).
    by apply Hout.
Qed.
End typing.

(** ** Two actions between the same states

    A policy identifier names procedure, source and target, not the action: of
    two transitions between the same states only the last keeps its handle,
    and the action of the first has no effect. *)

Module TypingToy.
Definition twice : Procedure :=
  mkProcedure "case" "open" ["open"; "done"]%string ["done"%string] (mkTrigger "File" None)
    [mkTransition "open" "done" (Some "Close"%string) None None;
     mkTransition "open" "done" (Some "Abandon"%string) None None] ∅.
Definition config : EngineConfig := EngineConfig.mk "1" [] [] [twice] [].
Definition constitution_of (c : EngineConfig) : Constitution :=
  Constitution.mk (Hash.mk HashAlgorithm.Sha256 []) (SpecVersion.mk "1.1.0") "1.1.0" "1" None
    (SwarmId.mk []) "permit(principal, action, resource);" c (Timestamp.mk "2026-01-01T00:00:00Z" 0).
Definition loader : ConstitutionLoader := with_default_bounds (engine:=CedarToy.cedar) tt.
Definition activated (c : EngineConfig) : Result ActivatedConstitution CedarPlusError :=
  load (engine:=CedarToy.cedar) elements map_to_list loader (constitution_of c).
Definition a : ActivatedConstitution :=
  match activated CedarToy.config with
  | Ok a => a
  | Err _ => mkActivated (constitution_of config) "" tt config CedarToy.layer_b 0 0
  end.
End TypingToy.

Lemma second_action_replaces_first :
  ∃ a, TypingToy.activated TypingToy.config = Ok a ∧
  transition_by_policy_id (layer_b a) !! "proc_trans__case__open__done"%string
    = Some (mkTransitionHandle "case" "open" "done" "Abandon") ∧
  size (transition_by_policy_id (layer_b a)) = 1.
Proof. eexists. split; [vm_compute; reflexivity|]. by vm_compute. Qed.

Lemma constitution_validation_exact_witness : valid_config CedarToy.config.
Proof.
  apply (constitution_validation_exact elements map_to_list
           (λ s x, elem_of_elements s x) (λ m, reflexivity _) CedarToy.config).
  vm_compute. auto.
Defined.

Lemma instances_typed_witness :
  index_typed (resolved_engine_config TypingToy.a)
    (evaluate_procedures (engine:=CedarToy.cedar) CedarToy.values ["proc_trigger__case"%string] tt
       (resolved_engine_config TypingToy.a) (layer_b TypingToy.a) (CedarToy.ctx "File") new_index).1.
Proof.
  assert (∀ m, CedarToy.values m ≡ₚ (map_to_list m).*2) as Hv by (intros m; reflexivity).
  assert (load (engine:=CedarToy.cedar) elements map_to_list TypingToy.loader
            (TypingToy.constitution_of CedarToy.config) = Ok TypingToy.a) as Hload by (vm_compute; reflexivity).
  apply (instances_typed (engine:=CedarToy.cedar) CedarToy.values Hv elements map_to_list
           (λ s x, elem_of_elements s x) (λ m, reflexivity _) TypingToy.loader
           (TypingToy.constitution_of CedarToy.config) TypingToy.a
           ["proc_trigger__case"%string] tt (CedarToy.ctx "File") new_index Hload).
  split; intros id i Hi; unfold new_index in Hi; by rewrite lookup_empty in Hi.
Defined.
