(* ===== verification/Evaluator.v ===== *)
(** * [yutha-cedar-plus]: the constitution evaluator

    The active and the shadow slot, the evaluation of a request against a
    constitution, and the digests recorded with an outcome ([evaluator.rs]). *)

From S2P Require Import Prelude RustStd Core Crypto Score Enforcement CedarPlus Procedure Validate Escalation ConfigSpec.

(** ** The digest of the inputs *)

Section digests.
Context `{CryptoOps, SerdeJson}.
Implicit Types (request : EvaluationRequest).

(** The order of [sort_by(entity_type, then entity_id)]. *)
Definition uid_leb (a b : EntityUid) : bool :=
  if bool_decide (EntityUid.entity_type a = EntityUid.entity_type b)
  then str_leb (EntityUid.entity_id a) (EntityUid.entity_id b)
  else str_leb (EntityUid.entity_type a) (EntityUid.entity_type b).
Definition uid_le (a b : EntityUid) : Prop := uid_leb a b = true.
Definition record_le (a b : EntityRecord) : Prop := uid_le (uid a) (uid b).
#[global] Instance uid_le_dec a b : base.Decision (uid_le a b).
Proof. unfold uid_le. apply _. Defined.
#[global] Instance record_le_dec a b : base.Decision (record_le a b).
Proof. unfold record_le. apply _. Defined.

Definition json_of_uid (u : EntityUid) : JsonValue :=
  JObject [("type", JString (EntityUid.entity_type u)); ("id", JString (EntityUid.entity_id u))]%string.
Definition json_of_record (e : EntityRecord) : JsonValue :=
  JObject [("uid", json_of_uid (uid e)); ("attrs", json_of_btree (attrs e));
           ("parents", JArray (map json_of_uid (merge_sort uid_le (parents e))))]%string.
(** Both sorts are stable. *)
(* yutha-cedar-plus/src/evaluator.rs:795-832 canonicalize_entity_snapshot *)
Definition canonicalize_entity_snapshot (snapshot : EntitySnapshot) : list JsonValue :=
  map json_of_record (merge_sort record_le (entities snapshot)).

Definition input_json request (snapshot : EntitySnapshot) : JsonValue :=
  JObject
    [("action_kind", JString (action_kind request));
     ("principal_id", JString (AgentId.to_string (principal_id request)));
     ("resource_uid", json_of_uid (resource_uid request));
     ("context_attrs", json_of_btree (context_attrs request));
     ("entity_snapshot", JArray (canonicalize_entity_snapshot snapshot));
     ("current_wall_clock", JString (CedarPlus.current_wall_clock request))]%string.
(* yutha-cedar-plus/src/evaluator.rs:755-772 hash_input_attributes *)
Definition hash_input_attributes request (snapshot : EntitySnapshot) : Hash :=
  sha256 (json_to_vec (input_json request snapshot)).

Definition evidence_json (matched_rule_ids : list string) (score_contributions : list ScoreContribution)
  (procedure_effects : list ProcedureEffect) (input_attribute_digest : Hash) : JsonValue :=
  JObject
    [("matched_rule_ids", json_strings matched_rule_ids);
     ("score_contributions",
        JArray (map (λ c, JObject [("rule_id", JString (ScoreContribution.rule_id c));
                                   ("score", JString (ScoreContribution.score c))]) score_contributions));
     ("procedure_effects",
        JArray (map (λ e, JObject [("action_kind", JString (ProcedureEffect.action_kind e));
                                   ("instance_id", JString (ProcedureEffect.instance_id e))]) procedure_effects));
     ("input_attribute_digest", JString (hex (Hash.digest input_attribute_digest)))]%string.
(* yutha-cedar-plus/src/evaluator.rs:842-874 compute_evidence_digest *)
Definition compute_evidence_digest (matched_rule_ids : list string)
  (score_contributions : list ScoreContribution) (procedure_effects : list ProcedureEffect)
  (input_attribute_digest : Hash) : Hash :=
  sha256 (json_to_vec (evidence_json matched_rule_ids score_contributions procedure_effects
                         input_attribute_digest)).
End digests.

(** ** The evaluator *)

(* yutha-cedar-plus/src/evaluator.rs:126-132 EvaluationMode *)
Inductive EvaluationMode := Active | Shadow.

(** [action_kind.rfind("::")]: what stands before and after. *)
Fixpoint rsplit_colons (s : string) : option (string * string) :=
  match s with
  | String c t =>
      match rsplit_colons t with
      | Some (a, b) => Some (String c a, b)
      | None => match strip_prefix "::" s with Some rest => Some (""%string, rest) | None => None end
      end
  | EmptyString => None
  end.

Section evaluator.
Context `{CryptoOps, SerdeJson} {engine : Cedar}.
(** The iteration orders of hash maps and sets. *)
Context (values : gmap string ProcedureInstance → list ProcedureInstance)
        (attr_iter : gmap string JsonValue → list (string * JsonValue))
        (set_iter : gset string → list string)
        (graph_iter : gmap string (gset string) → list (string * gset string)).

(* yutha-cedar-plus/src/evaluator.rs:90-116 CedarPlusEvaluator *)
Record CedarPlusEvaluator := mkEvaluator {
  loader : ConstitutionLoader; sandbox : SandboxConfig;
  current : option ActivatedConstitution; current_shadow : option ActivatedConstitution;
  procedure_index : gmap string ProcedureInstance }.
Notation E A := (M CedarPlusEvaluator CedarPlusError A).

Definition set_current (c : option ActivatedConstitution) (s : CedarPlusEvaluator) : CedarPlusEvaluator :=
  mkEvaluator (loader s) (sandbox s) c (current_shadow s) (procedure_index s).
Definition set_shadow (c : option ActivatedConstitution) (s : CedarPlusEvaluator) : CedarPlusEvaluator :=
  mkEvaluator (loader s) (sandbox s) (current s) c (procedure_index s).
Definition set_index (i : gmap string ProcedureInstance) (s : CedarPlusEvaluator) : CedarPlusEvaluator :=
  mkEvaluator (loader s) (sandbox s) (current s) (current_shadow s) i.
Definition hash_of (a : ActivatedConstitution) : Hash := Constitution.constitution_hash (constitution a).

(* yutha-cedar-plus/src/evaluator.rs:171-179 CedarPlusEvaluator::new *)
Definition new_evaluator (loader : ConstitutionLoader) (sandbox : SandboxConfig) : CedarPlusEvaluator :=
  mkEvaluator loader sandbox None None new_index.

(* yutha-cedar-plus/src/evaluator.rs:217-226 CedarPlusEvaluator::current_pair *)
Definition current_pair : E (option ActivatedConstitution * option ActivatedConstitution) :=
  gets (λ s, (current s, current_shadow s)).

(* yutha-cedar-plus/src/evaluator.rs:383-389 CedarPlusEvaluator::activate *)
Definition activate (c : Constitution) : E Hash :=
  let! l := gets loader in
  let! activated := lift (load set_iter graph_iter l c) in
  do! modify (set_current (Some activated)) in
  mret (hash_of activated).
(* yutha-cedar-plus/src/evaluator.rs:240-246 CedarPlusEvaluator::activate_shadow *)
Definition activate_shadow (c : Constitution) : E Hash :=
  let! l := gets loader in
  let! activated := lift (load set_iter graph_iter l c) in
  do! modify (set_shadow (Some activated)) in
  mret (hash_of activated).
(* yutha-cedar-plus/src/evaluator.rs:255-260 CedarPlusEvaluator::clear_shadow *)
Definition clear_shadow : E (option Hash) :=
  let! shadow := gets current_shadow in
  do! modify (set_shadow None) in
  mret (hash_of <$> shadow).

(* yutha-cedar-plus/src/evaluator.rs:141-167 PromoteShadowOutcome *)
Record PromoteShadowOutcome := mkPromote {
  from_active_constitution_hash : option Hash; to_active_constitution_hash : Hash;
  to_constitution_version : string; promote_schema_version : string; promoted : ActivatedConstitution }.
(* yutha-cedar-plus/src/evaluator.rs:272-286 CedarPlusEvaluator::promote_shadow *)
Definition promote_shadow : E (option PromoteShadowOutcome) :=
  let! shadow := gets current_shadow in
  do! modify (set_shadow None) in
  match shadow with
  | None => mret None
  | Some shadow =>
      let! previous_active := gets current in
      do! modify (set_current (Some shadow)) in
      mret (Some (mkPromote (hash_of <$> previous_active) (hash_of shadow)
                    (Constitution.constitution_version (constitution shadow))
                    (Constitution.schema_version (constitution shadow)) shadow))
  end.

(* yutha-cedar-plus/src/evaluator.rs:611-624 build_cedar_uid *)
Definition build_cedar_uid (u : EntityUid) : Result CedarUid CedarPlusError :=
  let? type_name :=
    map_err (λ e, CedarPlusError.RequestShapeInvalid
               ("invalid entity type name " +:+ debug_str (EntityUid.entity_type u) +:+ ": " +:+ e))
      (entity_type_name_from_str (EntityUid.entity_type u)) in
  let? id :=
    map_err (λ e, CedarPlusError.EntityUnresolved
               ("invalid entity id " +:+ debug_str (EntityUid.entity_id u) +:+ ": " +:+ e))
      (entity_id_from_str (EntityUid.entity_id u)) in
  Ok (uid_from_type_name_and_id type_name id).

(* yutha-cedar-plus/src/evaluator.rs:630-656 build_cedar_entities *)
Definition build_cedar_entities (snapshot : EntitySnapshot) (schema : Schema) : Result Entities CedarPlusError :=
  let json_entities := map (λ e,
    JObject [("uid", json_of_uid (uid e)); ("attrs", JObject (attr_iter (attrs e)));
             ("parents", JArray (map json_of_uid (parents e)))]%string) (entities snapshot) in
  map_err (λ e, CedarPlusError.EntityUnresolved ("entity snapshot rejected by Cedar: " +:+ e))
    (entities_from_json (JArray json_entities) schema).

(* yutha-cedar-plus/src/evaluator.rs:663-675 build_context *)
Definition build_context (attrs : gmap string JsonValue) : Result Context CedarPlusError :=
  map_err (λ e, CedarPlusError.RequestShapeInvalid ("Cedar Context rejected: " +:+ e))
    (context_from_json (JObject (attr_iter attrs))).

(* yutha-cedar-plus/src/evaluator.rs:579-594 schema_incompatible_deny *)
Definition schema_incompatible_deny (request : EvaluationRequest) (now : Timestamp) : EvaluationOutcome :=
  mkOutcome Decision.Deny (Some "shadow_schema_incompatible"%string) [] [] None []
    (compute_evidence_digest [] [] [] (hash_input_attributes request (entity_snapshot request))) now.

(* yutha-cedar-plus/src/evaluator.rs:680-733 map_cedar_response *)
Definition map_cedar_response (response : bool * list string) (request : EvaluationRequest)
  (snapshot : EntitySnapshot) (contributions : list ScoreContribution) (total : option string)
  (effects : list ProcedureEffect) (now : Timestamp) : EvaluationOutcome :=
  let matched := response.2 in
  let '(decision, deny_reason) :=
    if response.1 then (Decision.Permit, None)
    else (Decision.Deny, Some (if bool_decide (matched = []) then "no_permit_rule" else "forbid_rule_matched")%string) in
  mkOutcome decision deny_reason matched contributions total effects
    (compute_evidence_digest (sorted matched) contributions effects (hash_input_attributes request snapshot)) now.

(** The action's entity: a namespaced kind names its own type. *)
Definition action_uid_of (request : EvaluationRequest) : EntityUid :=
  match rsplit_colons (action_kind request) with
  | Some (t, i) => EntityUid.new t i
  | None => EntityUid.new "Yutha::Action" (action_kind request)
  end.
Definition principal_uid_of (request : EvaluationRequest) : EntityUid :=
  EntityUid.new "Yutha::Agent" (AgentId.to_string (principal_id request)).

(** The three constructions a constitution's schema can refuse. *)
Definition build_request (request : EvaluationRequest) (a : ActivatedConstitution)
  (principal action resource : CedarUid) : Result (Entities * CedarRequest) CedarPlusError :=
  let? es := build_cedar_entities (entity_snapshot request) (schema a) in
  let? ctx := build_context (context_attrs request) in
  let? r := map_err (λ e, CedarPlusError.RequestShapeInvalid ("Cedar Request rejected: " +:+ e))
              (request_new principal action resource ctx (schema a)) in
  Ok (es, r).

Definition eval_ctx (request : EvaluationRequest) (a : ActivatedConstitution) : ProcedureEvalContext :=
  mkContext (hash_input_attributes request (entity_snapshot request))
    (SwarmId.to_string (Constitution.swarm_id (constitution a))) (action_kind request)
    (CedarPlus.current_wall_clock request).

(** The second layer, which runs only when Cedar allows: the outcome's scores
    and effects, and the index of procedures afterwards. *)
(* yutha-cedar-plus/src/evaluator.rs:509-554 CedarPlusEvaluator::evaluate_against (Layer B) *)
Definition run_layer_b (request : EvaluationRequest) (a : ActivatedConstitution) (mode : EvaluationMode)
  (es : Entities) (r : CedarRequest) (allowed : bool)
  : E (list ScoreContribution * option string * list ProcedureEffect) :=
  if negb allowed then mret ([], None, [])
  else
    let scoring := evaluate_scoring r es (layer_b a) in
    match mode with
    | Shadow => mret (contributions scoring, total_score scoring, [])
    | Active =>
        let! index := gets procedure_index in
        let '(index, effects) :=
          evaluate_procedures values r es (resolved_engine_config a) (layer_b a) (eval_ctx request a) index in
        do! modify (set_index index) in
        mret (contributions scoring, total_score scoring, effects)
    end.

(* yutha-cedar-plus/src/evaluator.rs:413-566 CedarPlusEvaluator::evaluate_against *)
Definition evaluate_against (request : EvaluationRequest) (a : ActivatedConstitution)
  (mode : EvaluationMode) (now : Timestamp) : E EvaluationOutcome :=
  let! bounds := gets sandbox in
  if (SandboxConfig.max_entity_count bounds <? entity_count (entity_snapshot request))%N then
    throw (CedarPlusError.EvaluationBoundExceeded EvalBoundReason.EntityStoreSize)
  else
    let! principal := lift (build_cedar_uid (principal_uid_of request)) in
    let! action := lift (build_cedar_uid (action_uid_of request)) in
    let! resource := lift (build_cedar_uid (resource_uid request)) in
    match build_request request a principal action resource, mode with
    | Err _, Shadow => mret (schema_incompatible_deny request now)
    | Err e, Active => throw e
    | Ok (es, r), _ =>
        let response := is_authorized r (policy_set a) es in
        let! layer_b := run_layer_b request a mode es r response.1 in
        let '(contributions, total, effects) := layer_b in
        mret (map_cedar_response response request (entity_snapshot request) contributions total effects now)
    end.

Definition no_active : CedarPlusError :=
  CedarPlusError.ConstitutionUnresolved "no active constitution; call activate() first".
Definition wrong_pin (request : EvaluationRequest) (a : ActivatedConstitution) : CedarPlusError :=
  CedarPlusError.ConstitutionUnresolved
    ("request pinned to constitution " +:+ hex (Hash.digest (request_constitution_hash request))
     +:+ ", active is " +:+ hex (Hash.digest (hash_of a))).

(* yutha-cedar-plus/src/evaluator.rs:356-381 CedarPlusEvaluator::evaluate *)
Definition evaluate (request : EvaluationRequest) (clock : nat → Timestamp) : E EvaluationOutcome :=
  let! active := gets current in
  let! active := lift (ok_or active no_active) in
  if negb (bool_decide (request_constitution_hash request = hash_of active)) then
    throw (wrong_pin request active)
  else evaluate_against request active Active (clock 0).

Definition pin (h : Hash) (request : EvaluationRequest) : EvaluationRequest :=
  mkRequest h (request_schema_version request) (action_kind request) (principal_id request)
    (resource_uid request) (context_attrs request) (entity_snapshot request) (CedarPlus.current_wall_clock request)
    (current_time_unix_ns request).

(* yutha-cedar-plus/src/evaluator.rs:310-351 CedarPlusEvaluator::evaluate_pair *)
Definition evaluate_pair (request : EvaluationRequest) (clock : nat → Timestamp)
  : E (EvaluationOutcome * option EvaluationOutcome) :=
  let! slots := current_pair in
  let! active := lift (ok_or slots.1 no_active) in
  if negb (bool_decide (request_constitution_hash request = hash_of active)) then
    throw (wrong_pin request active)
  else
    let! active_outcome := evaluate_against request active Active (clock 0) in
    match slots.2 with
    | None => mret (active_outcome, None)
    | Some shadow =>
        let! shadow_outcome := evaluate_against (pin (hash_of shadow) request) shadow Shadow (clock 1) in
        mret (active_outcome, Some shadow_outcome)
    end.
End evaluator.
