(* ===== verification/EvaluatorLaws.v ===== *)
(** * [yutha-cedar-plus]: what an evaluation promises

    The digests bind their inputs; the shadow slot only observes; what a
    permitted and a denied request leave behind; both slots hold loaded
    constitutions only. *)

From S2P Require Import Prelude RustStd Core Crypto Score Enforcement CedarPlus Procedure Validate Escalation ConfigSpec ProcedureTyping Evaluator.

(** ** The digest of the inputs *)

#[global] Instance uid_le_total : Total uid_le.
Proof.
  intros a b. unfold uid_le, uid_leb. destruct (decide (EntityUid.entity_type a = EntityUid.entity_type b)) as [He|He].
  - rewrite !bool_decide_true by done. apply (total str_le).
  - rewrite !bool_decide_false by done. apply (total str_le).
Qed.
#[global] Instance uid_le_antisymm : AntiSymm (=) uid_le.
Proof.
  intros [ta ia] [tb ib]. unfold uid_le, uid_leb. simpl. destruct (decide (ta = tb)) as [->|Hne].
  - rewrite !bool_decide_true by done. intros H1 H2. f_equal. by apply (anti_symm str_le).
  - rewrite !bool_decide_false by done. intros H1 H2. destruct Hne. by apply (anti_symm str_le).
Qed.
#[global] Instance uid_le_transitive : Transitive uid_le.
Proof.
  intros [ta ia] [tb ib] [tc' ic]. unfold uid_le, uid_leb. simpl.
  destruct (decide (ta = tb)) as [->|Hab]; [destruct (decide (tb = tc')) as [->|Hbc]|].
  - rewrite !bool_decide_true by done. intros H1 H2. exact (transitivity (R:=str_le) H1 H2).
  - rewrite (bool_decide_true (tb = tb)), !(bool_decide_false (tb = tc')) by done. done.
  - rewrite (bool_decide_false (ta = tb)) by done. destruct (decide (tb = tc')) as [->|Hbc].
    + rewrite (bool_decide_true (tc' = tc')), (bool_decide_false (ta = tc')) by done. done.
    + rewrite (bool_decide_false (tb = tc')) by done. destruct (decide (ta = tc')) as [->|Hac].
      * intros H1 H2. destruct Hab. by apply (anti_symm str_le).
      * rewrite bool_decide_false by done. intros H1 H2. exact (transitivity (R:=str_le) H1 H2).
Qed.

Section digests.
Context `{CryptoOps, SerdeJson}.
Implicit Types (e f : EntityRecord) (request : EvaluationRequest).

#[global] Instance record_le_total : Total record_le.
Proof. intros e f. apply (total uid_le). Qed.
#[global] Instance record_le_transitive : Transitive record_le.
Proof. intros e f g. apply (transitivity (R:=uid_le)). Qed.

(** Entities that differ only in the order of their parents, and snapshots
    that differ only in that and in the order of their entities. *)
Definition same_record e f : Prop := uid e = uid f ∧ attrs e = attrs f ∧ parents e ≡ₚ parents f.
Definition same_snapshot (s t : EntitySnapshot) : Prop :=
  ∃ l, l ≡ₚ entities s ∧ Forall2 same_record l (entities t).

(** A record with its parents sorted. *)
Definition canon e : EntityRecord := mkEntity (uid e) (attrs e) (merge_sort uid_le (parents e)).

Lemma sort_uids_perm l k : l ≡ₚ k ↔ merge_sort uid_le l = merge_sort uid_le k.
Proof.
  split.
  - intros Hp. apply (StronglySorted_unique uid_le); [apply StronglySorted_merge_sort; apply _..|].
    by rewrite !merge_sort_Permutation.
  - intros He. rewrite <- (merge_sort_Permutation uid_le l), <- (merge_sort_Permutation uid_le k). by rewrite He.
Qed.
Lemma same_record_canon e f : same_record e f ↔ canon e = canon f.
Proof.
  unfold same_record, canon. rewrite sort_uids_perm. split; [by intros (-> & -> & ->)|by intros [= -> -> ->]].
Qed.
Lemma json_of_uid_inj u v : json_of_uid u = json_of_uid v → u = v.
Proof. destruct u, v. by intros [= -> ->]. Qed.
Lemma json_of_record_canon e f : json_of_record e = json_of_record f ↔ canon e = canon f.
Proof.
  unfold json_of_record, canon. split; [|by intros [= -> -> ->]].
  intros [= Ht Hi Ha Hp]. apply btree_iter_inj in Ha. apply (map_inj _ json_of_uid_inj) in Hp.
  rewrite Ha, Hp. f_equal. destruct (uid e), (uid f). simpl in *. by subst.
Qed.

Lemma map_eq_iff {A B C} (f : A → B) (g : A → C) l k :
  (∀ x y, f x = f y ↔ g x = g y) → map f l = map f k ↔ map g l = map g k.
Proof.
  intros Hfg. revert k. induction l as [|x l IH]; intros [|y k]; simpl; [done|done|done|].
  split; intros [= He Hl]; (f_equal; [by apply Hfg|by apply IH]).
Qed.

Lemma sorted_canon l : StronglySorted record_le (map canon (merge_sort record_le l)).
Proof.
  pose proof (StronglySorted_merge_sort record_le l) as Hs.
  induction Hs as [|e k _ IH Hk]; [constructor|]. simpl. constructor; [done|].
  apply List.Forall_map. exact Hk.
Qed.

Lemma same_snapshot_canon s t : same_snapshot s t ↔ map canon (entities s) ≡ₚ map canon (entities t).
Proof.
  split.
  - intros (l & Hl & Hf). rewrite <- Hl. clear Hl. assert (map canon l = map canon (entities t)) as ->; [|done].
    induction Hf as [|e f l k He _ IH]; [done|]. simpl. f_equal; [by apply same_record_canon|done].
  - intros Hp. symmetry in Hp. apply Permutation_map_inv in Hp as (l & He & Hl). exists l. split; [by symmetry|].
    revert He. generalize (entities t). clear. induction l as [|e l IH]; intros [|f k]; simpl; [constructor|done|done|].
    intros [= He Hl]. constructor; [by apply same_record_canon; unfold canon; congruence|by apply IH].
Qed.

Lemma canonical_snapshot_same s t : NoDup (map uid (entities s)) →
  canonicalize_entity_snapshot s = canonicalize_entity_snapshot t ↔ same_snapshot s t.
Proof.
  intros Hnd. unfold canonicalize_entity_snapshot.
  rewrite (map_eq_iff _ canon), same_snapshot_canon by apply json_of_record_canon. split.
  - intros He. rewrite <- (merge_sort_Permutation record_le (entities s)), He.
    by rewrite merge_sort_Permutation.
  - intros Hp. apply (StronglySorted_unique_strong record_le); [|apply sorted_canon..|].
    2: { by rewrite !merge_sort_Permutation. }
    intros x y Hx Hy Hxy Hyx.
    assert (x ∈ map canon (entities s)) as Hx' by (by rewrite <- (merge_sort_Permutation record_le (entities s))).
    assert (y ∈ map canon (entities s)) as Hy'
      by (rewrite Hp; by rewrite <- (merge_sort_Permutation record_le (entities t))).
    assert (uid x = uid y) as He by (by apply (anti_symm uid_le)).
    assert (NoDup (map uid (map canon (entities s)))) as Hnd' by (by rewrite map_map).
    clear -Hx' Hy' He Hnd'. induction (map canon (entities s)) as [|e l IH]; [by apply elem_of_nil in Hx'|].
    apply NoDup_cons in Hnd' as [He' Hnd']. apply elem_of_cons in Hx' as [->|Hx'], Hy' as [->|Hy']; [done| | |by apply IH].
    + destruct He'. rewrite He. by apply list_elem_of_fmap_2.
    + destruct He'. rewrite <- He. by apply list_elem_of_fmap_2.
Qed.

(** Requests that give Cedar the same inputs, and read the same clock. *)
Definition same_inputs (r q : EvaluationRequest) : Prop :=
  action_kind r = action_kind q ∧ principal_id r = principal_id q ∧ resource_uid r = resource_uid q ∧
  context_attrs r = context_attrs q ∧ CedarPlus.current_wall_clock r = CedarPlus.current_wall_clock q ∧
  same_snapshot (entity_snapshot r) (entity_snapshot q).

Definition input_digest (r : EvaluationRequest) : Hash := hash_input_attributes r (entity_snapshot r).

Lemma input_json_same `{!SerdeJsonLaws} r q :
  uuid_wf (AgentId.uuid (principal_id r)) → uuid_wf (AgentId.uuid (principal_id q)) →
  NoDup (map uid (entities (entity_snapshot r))) →
  input_json r (entity_snapshot r) = input_json q (entity_snapshot q) ↔ same_inputs r q.
Proof.
  intros Hr Hq Hnd. unfold input_json, same_inputs. rewrite <- (canonical_snapshot_same _ _ Hnd). split.
  - intros [= Ha Hp Ht Hi Hc Hs Hw]. apply btree_iter_inj in Hc.
    split_and!; try done.
    + destruct (principal_id r), (principal_id q). simpl in *. f_equal. by apply uuid_display_inj.
    + destruct (resource_uid r), (resource_uid q). simpl in *. by subst.
  - intros (-> & -> & -> & -> & -> & ->). done.
Qed.

(** The digest of an evaluation's inputs identifies them.  Two requests
    with the same action, principal, resource, context, wall clock and
    entities have the same digest, whatever order entities and parents are
    listed in; and two requests with the same digest have the same inputs, or
    exhibit a collision of SHA-256. *)
Lemma input_digest_exact `{!SerdeJsonLaws} (r q : EvaluationRequest) :
  uuid_wf (AgentId.uuid (principal_id r)) → uuid_wf (AgentId.uuid (principal_id q)) →
  NoDup (map uid (entities (entity_snapshot r))) →
  (same_inputs r q → input_digest r = input_digest q) ∧
  (input_digest r = input_digest q → same_inputs r q ∨ Collision).
Proof.
  intros Hr Hq Hnd. unfold input_digest, hash_input_attributes. split.
  - intros Hs%input_json_same; [|done..]. by rewrite Hs.
  - intros [He|Hc]%sha256_eq_collision; [left|by right].
    apply json_to_vec_inj in He. by apply input_json_same.
Qed.

(** The evidence digest binds rules, scores, effects and inputs. *)
Lemma evidence_digest_binds `{!SerdeJsonLaws} ids ids' cs cs' es es' d d' :
  compute_evidence_digest ids cs es d = compute_evidence_digest ids' cs' es' d' →
  (ids = ids' ∧ cs = cs' ∧ es = es' ∧ Hash.digest d = Hash.digest d') ∨ Collision.
Proof.
  unfold compute_evidence_digest. intros [He|Hc]%sha256_eq_collision; [left|by right].
  apply json_to_vec_inj in He. injection He as Hi Hs Hp Hd.
  apply (map_inj JString) in Hi; [|by intros ?? [= ->]].
  apply map_inj in Hs; [|by intros [] [] [= -> ->]]. apply map_inj in Hp; [|by intros [] [] [= -> ->]].
  by apply hex_inj in Hd.
Qed.
End digests.

(** ** Evaluations *)

Section evaluations.
Context `{CryptoOps, SerdeJson} {engine : Cedar}.
Context (values : gmap string ProcedureInstance → list ProcedureInstance)
        (attr_iter : gmap string JsonValue → list (string * JsonValue))
        (set_iter : gset string → list string)
        (graph_iter : gmap string (gset string) → list (string * gset string)).
Implicit Types (s : CedarPlusEvaluator) (request : EvaluationRequest) (a : ActivatedConstitution)
  (clock : nat → Timestamp) (o : EvaluationOutcome).

(** The pinned hash plays no part once the constitution is chosen. *)
Lemma evaluate_against_pin h request a mode now s :
  evaluate_against values attr_iter (pin h request) a mode now s
  = evaluate_against values attr_iter request a mode now s.
Proof. by destruct request. Qed.

(** What an evaluation can refuse before the constitution's schema is asked. *)
Definition admissible (b : SandboxConfig) request : Prop :=
  (entity_count (entity_snapshot request) ≤ SandboxConfig.max_entity_count b)%N ∧
  is_ok (build_cedar_uid (principal_uid_of request)) = true ∧
  is_ok (build_cedar_uid (action_uid_of request)) = true ∧
  is_ok (build_cedar_uid (resource_uid request)) = true.

(** The evaluation of an admissible request: the built request, if the schema
    accepts it. *)
Definition built request a : Result (Entities * CedarRequest) CedarPlusError :=
  let? principal := build_cedar_uid (principal_uid_of request) in
  let? action := build_cedar_uid (action_uid_of request) in
  let? resource := build_cedar_uid (resource_uid request) in
  build_request attr_iter request a principal action resource.

Lemma evaluate_against_admissible request a mode now s : admissible (sandbox s) request →
  evaluate_against values attr_iter request a mode now s =
  match built request a, mode with
  | Err _, Shadow => (Ok (schema_incompatible_deny request now), s)
  | Err e, Active => (Err e, s)
  | Ok (es, r), _ =>
      let response := is_authorized r (policy_set a) es in
      let '(lb, s') := run_layer_b values request a mode es r response.1 s in
      match lb with
      | Ok (cs, total, effects) =>
          (Ok (map_cedar_response response request (entity_snapshot request) cs total effects now), s')
      | Err e => (Err e, s')
      end
  end.
Proof.
  intros (Hb & Hp & Ha & Hr). unfold evaluate_against, built, mthen, gets, lift.
  destruct (N.ltb_spec (SandboxConfig.max_entity_count (sandbox s)) (entity_count (entity_snapshot request)));
    [lia|].
  destruct (build_cedar_uid (principal_uid_of request)); [|done].
  destruct (build_cedar_uid (action_uid_of request)); [|done].
  destruct (build_cedar_uid (resource_uid request)); [|done]. simpl.
  destruct (build_request _ _ _ _ _ _) as [[es r]|e], mode; simpl; try done.
  all: destruct (run_layer_b _ _ _ _ _ _ _ _) as [[[[cs total] effects]|e] s']; done.
Qed.

Lemma evaluate_against_inadmissible request a now s r s' :
  evaluate_against values attr_iter request a Active now s = (r, s') →
  admissible (sandbox s) request ∨ (s' = s ∧ ∃ e, r = Err e).
Proof.
  unfold evaluate_against, admissible, mthen, gets, lift.
  destruct (N.ltb_spec (SandboxConfig.max_entity_count (sandbox s)) (entity_count (entity_snapshot request)));
    [intros [= <- <-]; right; eauto|].
  destruct (build_cedar_uid (principal_uid_of request)); [|intros [= <- <-]; right; eauto].
  destruct (build_cedar_uid (action_uid_of request)); [|intros [= <- <-]; right; eauto].
  destruct (build_cedar_uid (resource_uid request)); [|intros [= <- <-]; right; eauto]. by left.
Qed.

(** In shadow mode an admissible request always has an outcome, without
    effects, and the evaluator does not change. *)
Lemma shadow_outcome request a now s : admissible (sandbox s) request →
  ∃ o, evaluate_against values attr_iter request a Shadow now s = (Ok o, s) ∧ procedure_effects o = [].
Proof.
  intros Ha. rewrite evaluate_against_admissible by done.
  destruct (built request a) as [[es r]|e]; [|by eexists]. unfold run_layer_b, mret, map_cedar_response.
  destruct (is_authorized r (policy_set a) es) as [[] ids]; simpl; eauto.
Qed.

(** The active evaluation changes nothing but the index. *)
Lemma run_layer_b_state request a mode es r allowed s :
  let s' := (run_layer_b values request a mode es r allowed s).2 in
  loader s' = loader s ∧ sandbox s' = sandbox s ∧ current s' = current s ∧ current_shadow s' = current_shadow s.
Proof.
  unfold run_layer_b, mret, mthen, gets, modify. destruct allowed, mode; simpl; try done.
  by destruct (evaluate_procedures _ _ _ _ _ _ _).
Qed.

Lemma evaluate_against_state request a mode now s :
  let s' := (evaluate_against values attr_iter request a mode now s).2 in
  loader s' = loader s ∧ sandbox s' = sandbox s ∧ current s' = current s ∧ current_shadow s' = current_shadow s.
Proof.
  unfold evaluate_against, mthen, gets, lift. destruct (_ <? _)%N; [done|].
  destruct (build_cedar_uid (principal_uid_of request)); [|done].
  destruct (build_cedar_uid (action_uid_of request)); [|done].
  destruct (build_cedar_uid (resource_uid request)); [|done].
  destruct (build_request _ _ _ _ _ _) as [[es r]|e]; [|by destruct mode].
  pose proof (run_layer_b_state request a mode es r (is_authorized r (policy_set a) es).1 s) as Hs.
  destruct (run_layer_b _ _ _ _ _ _ _ _) as [[[[cs total] effects]|e] s']; done.
Qed.

(** [C25] The shadow constitution only observes.  Evaluating a request against
    both slots leaves the evaluator exactly as evaluating it against the active
    one alone, gives the same outcome for the active one, or fails with the
    same error; when it does not fail there is a shadow outcome exactly when a
    shadow is loaded, and it never carries procedure effects. *)
Theorem shadow_only_observes request clock s :
  let '(r, s1) := evaluate values attr_iter request clock s in
  let '(rp, s2) := evaluate_pair values attr_iter request clock s in
  s2 = s1 ∧
  match r with
  | Ok o => ∃ sh, rp = Ok (o, sh) ∧ (is_Some sh ↔ is_Some (current_shadow s)) ∧
                  ∀ o', sh = Some o' → procedure_effects o' = []
  | Err e => rp = Err e
  end.
Proof.
  unfold evaluate, evaluate_pair, current_pair, mthen, gets, lift, throw.
  destruct (current s) as [a|] eqn:Hc; simpl; [|done].
  destruct (negb _); [done|].
  destruct (evaluate_against values attr_iter request a Active (clock 0) s) as [[o|e] s1] eqn:He; [|done].
  pose proof (evaluate_against_state request a Active (clock 0) s) as Hs. rewrite He in Hs.
  cbn [snd] in Hs. destruct Hs as (_ & Hsb & _ & Hsh).
  apply evaluate_against_inadmissible in He as [Ha|(_ & e & [=])].
  destruct (current_shadow s) as [sh|].
  - rewrite evaluate_against_pin. destruct (shadow_outcome request sh (clock 1) s1) as (o' & Ho' & Hne); [by rewrite Hsb|].
    rewrite Ho'. simpl. split; [done|]. exists (Some o'). split; [done|]. split; [|by intros ? [= <-]].
    split; eauto.
  - simpl. split; [done|]. exists None. split; [done|]. split; [|done]. done.
Qed.

(** What an evaluation decides and leaves behind.  An outcome exists only
    for a request pinned to the active constitution and within the bound on
    entities.  It is a permit exactly when Cedar allows the built request; a
    permit carries the scores and the effects of the second layer, and the
    index becomes what the procedures make of it; a denial carries neither,
    says whether any rule matched, and leaves the evaluator as it was.  An
    error leaves it as it was, too. *)
Lemma evaluate_exact request clock s :
  let '(r, s') := evaluate values attr_iter request clock s in
  match r with
  | Err _ => s' = s
  | Ok o =>
      ∃ a es cr allowed ids,
        current s = Some a ∧ request_constitution_hash request = hash_of a ∧
        (entity_count (entity_snapshot request) ≤ SandboxConfig.max_entity_count (sandbox s))%N ∧
        built request a = Ok (es, cr) ∧ is_authorized cr (policy_set a) es = (allowed, ids) ∧
        matched_rule_ids o = ids ∧ decided_at o = clock 0 ∧
        evidence_digest o = compute_evidence_digest (sorted ids) (score_contributions o) (procedure_effects o)
                              (input_digest request) ∧
        if (allowed : bool) then
          let '(index, effects) := evaluate_procedures values cr es (resolved_engine_config a) (layer_b a)
                                     (eval_ctx request a) (procedure_index s) in
          decision o = Decision.Permit ∧ deny_reason o = None ∧
          score_contributions o = contributions (evaluate_scoring cr es (layer_b a)) ∧
          outcome_total_score o = total_score (evaluate_scoring cr es (layer_b a)) ∧
          procedure_effects o = effects ∧ s' = set_index index s
        else
          decision o = Decision.Deny ∧ score_contributions o = [] ∧ outcome_total_score o = None ∧
          procedure_effects o = [] ∧ s' = s ∧
          deny_reason o = Some (match ids with [] => "no_permit_rule" | _ => "forbid_rule_matched" end)%string
  end.
Proof.
  unfold evaluate, mthen at 1 2, gets, lift, throw.
  destruct (current s) as [a|] eqn:Hc; simpl; [|done].
  case_bool_decide as Hpin; cbn [negb]; [|done].
  destruct (evaluate_against values attr_iter request a Active (clock 0) s) as [r s'] eqn:He.
  destruct (evaluate_against_inadmissible _ _ _ _ _ _ He) as [Ha|(-> & e & ->)]; [|done].
  rewrite evaluate_against_admissible in He by done. destruct (built request a) as [[es cr]|e] eqn:Hb;
    [|by injection He as <- <-].
  destruct (is_authorized cr (policy_set a) es) as [allowed ids] eqn:Hauth.
  unfold run_layer_b, mthen, gets, mret, modify, map_cedar_response in He. cbn [fst snd] in He.
  destruct allowed; cbn [negb] in He.
  - destruct (evaluate_procedures _ _ _ _ _ _ _) as [index effects] eqn:Hp. injection He as <- <-.
    exists a, es, cr, true, ids. rewrite Hp. split_and!; try done. apply Ha.
  - injection He as <- <-. exists a, es, cr, false, ids. split_and!; try done; [apply Ha|].
    simpl. destruct ids; [by rewrite bool_decide_true|by rewrite bool_decide_false].
Qed.

(** Outcomes that show the same decision and scores. *)
Definition agree o o' : Prop :=
  decision o = decision o' ∧ deny_reason o = deny_reason o' ∧ matched_rule_ids o = matched_rule_ids o' ∧
  score_contributions o = score_contributions o' ∧ outcome_total_score o = outcome_total_score o'.

Lemma modes_agree request a now now' s t : admissible (sandbox s) request → sandbox t = sandbox s →
  match (evaluate_against values attr_iter request a Active now t).1 with
  | Ok o => ∃ o', evaluate_against values attr_iter request a Shadow now' s = (Ok o', s) ∧ agree o' o
  | Err _ => evaluate_against values attr_iter request a Shadow now' s
             = (Ok (schema_incompatible_deny request now'), s)
  end.
Proof.
  intros Ha Ht. rewrite !evaluate_against_admissible by (rewrite ?Ht; done).
  destruct (built request a) as [[es r]|e]; [|done].
  unfold run_layer_b, mthen, gets, mret, modify, map_cedar_response, agree.
  destruct (is_authorized r (policy_set a) es) as [[] ids]; simpl.
  - destruct (evaluate_procedures _ _ _ _ _ _ _). simpl. eexists. split; [reflexivity|]. by split_and!.
  - eexists. split; [reflexivity|]. by split_and!.
Qed.

Lemma evaluate_pinned request clock a s : current s = Some a →
  evaluate values attr_iter (pin (hash_of a) request) clock s
  = evaluate_against values attr_iter request a Active (clock 0) s.
Proof.
  intros Hc. unfold evaluate, mthen, gets, lift. rewrite Hc. simpl. rewrite bool_decide_true by done.
  apply evaluate_against_pin.
Qed.
Lemma evaluate_pair_shadow request clock s s2 sh o o' : current_shadow s = Some sh →
  evaluate_pair values attr_iter request clock s = (Ok (o, Some o'), s2) →
  admissible (sandbox s2) request ∧ current_shadow s2 = Some sh ∧
  evaluate_against values attr_iter request sh Shadow (clock 1) s2 = (Ok o', s2).
Proof.
  intros Hsh. unfold evaluate_pair, current_pair, mthen, gets, lift, throw, mret.
  destruct (current s) as [a|]; simpl; [|done]. destruct (negb _); [done|]. rewrite Hsh.
  destruct (evaluate_against values attr_iter request a Active (clock 0) s) as [[o1|e] s1] eqn:He; [|done].
  pose proof (evaluate_against_state request a Active (clock 0) s) as Hs. rewrite He in Hs.
  cbn [snd] in Hs. destruct Hs as (_ & Hsb & _ & Hsh1).
  apply evaluate_against_inadmissible in He as [Ha|(_ & e & [=])].
  rewrite <- Hsb in Ha. destruct (shadow_outcome request sh (clock 1) s1 Ha) as (o2 & Ho2 & _).
  rewrite evaluate_against_pin, Ho2. intros [= <- <- <-]. by rewrite Hsh1.
Qed.

(** The shadow previews its promotion.  When a shadow constitution is
    evaluated next to the active one, promoting it and evaluating the same
    request pinned to it gives the decision, the reason, the matched rules and
    the scores the shadow outcome showed; or it fails, and then the shadow
    outcome was the denial for an incompatible schema. *)
Lemma shadow_previews_promotion request clock clock' s sh o o' :
  current_shadow s = Some sh →
  (evaluate_pair values attr_iter request clock s).1 = Ok (o, Some o') →
  let s' := (promote_shadow (evaluate_pair values attr_iter request clock s).2).2 in
  match (evaluate values attr_iter (pin (hash_of sh) request) clock' s').1 with
  | Ok o'' =>
      decision o' = decision o'' ∧ deny_reason o' = deny_reason o'' ∧
      matched_rule_ids o' = matched_rule_ids o'' ∧
      score_contributions o' = score_contributions o'' ∧ outcome_total_score o' = outcome_total_score o''
  | Err _ => o' = schema_incompatible_deny request (clock 1)
  end.
Proof.
  intros Hsh Hout. destruct (evaluate_pair values attr_iter request clock s) as [r s2] eqn:Hp.
  simpl in Hout. subst r. destruct (evaluate_pair_shadow _ _ _ _ _ _ _ Hsh Hp) as (Ha & Hsh2 & Hshadow).
  cbn [snd]. unfold promote_shadow, mthen, gets, modify, mret. rewrite Hsh2. cbn [snd].
  rewrite evaluate_pinned by done.
  pose proof (modes_agree request sh (clock' 0) (clock 1) s2 (set_current (Some sh) (set_shadow None s2)) Ha eq_refl) as Hm.
  destruct (evaluate_against values attr_iter request sh Active _ _) as [[o2|e] s3]; cbn [fst] in *;
    rewrite Hshadow in Hm.
  - by destruct Hm as (o3 & [= <-] & Hag).
  - by injection Hm as ->.
Qed.

(** ** Histories of the evaluator *)

Inductive EvaluatorOp :=
| Activate (c : Constitution)
| ActivateShadow (c : Constitution)
| ClearShadow
| PromoteShadow
| Evaluate request clock
| EvaluatePair request clock.

Definition evaluator_step (s : CedarPlusEvaluator) (op : EvaluatorOp) : CedarPlusEvaluator :=
  match op with
  | Activate c => (activate set_iter graph_iter c s).2
  | ActivateShadow c => (activate_shadow set_iter graph_iter c s).2
  | ClearShadow => (clear_shadow s).2
  | PromoteShadow => (promote_shadow s).2
  | Evaluate request clock => (evaluate values attr_iter request clock s).2
  | EvaluatePair request clock => (evaluate_pair values attr_iter request clock s).2
  end.
Definition evaluator_run (ops : list EvaluatorOp) (s : CedarPlusEvaluator) : CedarPlusEvaluator :=
  foldl evaluator_step s ops.

(** The slots as a specification: only activations that load, clearing and
    promoting touch them. *)
Definition slots : Type := option ActivatedConstitution * option ActivatedConstitution.
Definition slots_step (l : ConstitutionLoader) (t : slots) (op : EvaluatorOp) : slots :=
  match op with
  | Activate c => match load set_iter graph_iter l c with Ok a => (Some a, t.2) | Err _ => t end
  | ActivateShadow c => match load set_iter graph_iter l c with Ok a => (t.1, Some a) | Err _ => t end
  | ClearShadow => (t.1, None)
  | PromoteShadow => match t.2 with Some a => (Some a, None) | None => t end
  | Evaluate _ _ | EvaluatePair _ _ => t
  end.
Definition slots_of s : slots := (current s, current_shadow s).

Lemma evaluate_state request clock s :
  let s' := (evaluate values attr_iter request clock s).2 in
  loader s' = loader s ∧ slots_of s' = slots_of s.
Proof.
  unfold evaluate, mthen, gets, lift, throw. destruct (current s) as [a|] eqn:Hc; simpl; [|done].
  destruct (negb _); [done|]. pose proof (evaluate_against_state request a Active (clock 0) s) as (Hl & _ & H1 & H2).
  unfold slots_of. by rewrite Hl, H1, H2.
Qed.
Lemma evaluate_pair_state request clock s :
  let s' := (evaluate_pair values attr_iter request clock s).2 in
  loader s' = loader s ∧ slots_of s' = slots_of s.
Proof.
  unfold evaluate_pair, current_pair, mthen, gets, lift, throw, mret. destruct (current s) as [a|] eqn:Hc; simpl; [|done].
  destruct (negb _); [done|]. pose proof (evaluate_against_state request a Active (clock 0) s) as (Hl & _ & H1 & H2).
  destruct (evaluate_against _ _ request a Active (clock 0) s) as [[o|e] s1]; cbn [snd] in *.
  2: { unfold slots_of. by rewrite Hl, H1, H2. }
  destruct (current_shadow s) as [sh|] eqn:Hsh; cbn [snd].
  2: { unfold slots_of. by rewrite Hl, H1, H2, Hsh. }
  pose proof (evaluate_against_state (pin (hash_of sh) request) sh Shadow (clock 1) s1) as (Hl' & _ & H1' & H2').
  destruct (evaluate_against _ _ _ sh Shadow (clock 1) s1) as [[o'|e] s2]; cbn [snd] in *;
    unfold slots_of; by rewrite Hl', H1', H2', Hl, H1, H2, Hsh.
Qed.

Lemma evaluator_step_slots s op :
  loader (evaluator_step s op) = loader s ∧
  slots_of (evaluator_step s op) = slots_step (loader s) (slots_of s) op.
Proof.
  destruct op as [c|c| | |request clock|request clock]; cbn [evaluator_step slots_step].
  - unfold activate, mthen, gets, lift, modify, mret. by destruct (load _ _ _ _).
  - unfold activate_shadow, mthen, gets, lift, modify, mret. by destruct (load _ _ _ _).
  - done.
  - unfold promote_shadow, mthen, gets, lift, modify, mret, slots_of. by destruct (current_shadow s).
  - apply evaluate_state.
  - apply evaluate_pair_state.
Qed.

Lemma slots_origin l ops a :
  (foldl (slots_step l) (None, None) ops).1 = Some a ∨ (foldl (slots_step l) (None, None) ops).2 = Some a →
  ∃ c, (Activate c ∈ ops ∨ ActivateShadow c ∈ ops) ∧ load set_iter graph_iter l c = Ok a.
Proof.
  revert a. induction ops as [|op ops IH] using rev_ind; intros a; [by intros [[=]|[=]]|].
  rewrite foldl_app. cbn [foldl]. intros Hin.
  assert ((∃ c, (op = Activate c ∨ op = ActivateShadow c) ∧ load set_iter graph_iter l c = Ok a) ∨
    (foldl (slots_step l) (None, None) ops).1 = Some a ∨
    (foldl (slots_step l) (None, None) ops).2 = Some a) as [(c & Hop & Hc)|Hold].
  { destruct op as [c|c| | | | ]; cbn [slots_step] in Hin; try by right.
    - destruct (load set_iter graph_iter l c) eqn:Hl; [|by right]. destruct Hin as [[= ->]|Hin]; [left|right; by right].
      exists c. split; [by left|done].
    - destruct (load set_iter graph_iter l c) eqn:Hl; [|by right]. destruct Hin as [Hin|[= ->]]; [right; by left|left].
      exists c. split; [by right|done].
    - destruct Hin as [Hin|[=]]. right; by left.
    - destruct (foldl (slots_step l) (None, None) ops).2 eqn:H2; [|by right; rewrite H2 in Hin].
      destruct Hin as [[= ->]|[=]]. right; by right. }
  - exists c. split; [|done]. destruct Hop as [-> | ->]; [left|right]; apply elem_of_app; right; by left.
  - destruct (IH a Hold) as (c & Hop & Hc). exists c. split; [|done].
    destruct Hop as [Hop|Hop]; [left|right]; apply elem_of_app; by left.
Qed.

Lemma evaluator_run_slots ops s :
  loader (evaluator_run ops s) = loader s ∧
  slots_of (evaluator_run ops s) = foldl (slots_step (loader s)) (slots_of s) ops.
Proof.
  revert s. induction ops as [|op ops IH]; intros s; [done|]. cbn [evaluator_run foldl].
  destruct (evaluator_step_slots s op) as [Hl Hs]. destruct (IH (evaluator_step s op)) as [Hl' Hs'].
  unfold evaluator_run in *. by rewrite Hl', Hs', Hl, Hs.
Qed.

(** The two slots over any history.  They are the slots of the
    specification: evaluations never touch them, a failed activation keeps
    them, promotion moves the shadow into the active slot.  So they only ever
    hold constitutions that some activation of the history loaded. *)
Lemma slots_refine (l : ConstitutionLoader) (b : SandboxConfig) (ops : list EvaluatorOp) :
  let s := evaluator_run ops (new_evaluator l b) in
  slots_of s = foldl (slots_step l) (None, None) ops ∧
  ∀ a, current s = Some a ∨ current_shadow s = Some a →
    ∃ c, (Activate c ∈ ops ∨ ActivateShadow c ∈ ops) ∧ load set_iter graph_iter l c = Ok a.
Proof.
  destruct (evaluator_run_slots ops (new_evaluator l b)) as [_ Hs]. split; [exact Hs|].
  intros a Ha. apply slots_origin. unfold slots_of in Hs. simpl in Hs. by rewrite <- Hs.
Qed.
End evaluations.

(** ** An injective encoding of JSON, used by the witnesses *)

Module JsonToy.
Definition leaf : Type := string + Z + bool + unit.
Fixpoint to_tree (j : Json Z) : gen_tree leaf :=
  match j with
  | JNull => GenLeaf (inr tt)
  | JBool b => GenLeaf (inl (inr b))
  | JNumber n => GenLeaf (inl (inl (inr n)))
  | JString s => GenLeaf (inl (inl (inl s)))
  | JArray l => GenNode 0 (map to_tree l)
  | JObject l => GenNode 1 (map (λ '(k, v), GenNode 2 [GenLeaf (inl (inl (inl k))); to_tree v]) l)
  end.
Fixpoint of_tree (t : gen_tree leaf) : Json Z :=
  match t with
  | GenLeaf (inl (inl (inl s))) => JString s
  | GenLeaf (inl (inl (inr n))) => JNumber n
  | GenLeaf (inl (inr b)) => JBool b
  | GenLeaf (inr _) => JNull
  | GenNode 0 l => JArray (map of_tree l)
  | GenNode _ l =>
      JObject (map (λ t, match t with
                         | GenNode _ [GenLeaf (inl (inl (inl k))); v] => (k, of_tree v)
                         | _ => (""%string, JNull) end) l)
  end.
Lemma of_to_tree j : of_tree (to_tree j) = j.
Proof.
  revert j. fix IH 1. intros [| | | |l|l]; [done..| |]; simpl; f_equal.
  - induction l as [|x l IHl]; [done|]. simpl. by rewrite IH, IHl.
  - induction l as [|[k x] l IHl]; [done|]. simpl. by rewrite IH, IHl.
Qed.

Fixpoint bits (p : positive) : bytes :=
  match p with xH => [] | xO p => Byte.x00 :: bits p | xI p => Byte.x01 :: bits p end.
Lemma bits_inj p q : bits p = bits q → p = q.
Proof.
  revert q. induction p as [p IH|p IH|]; intros [q|q|]; simpl; try done; intros [= He]; by rewrite (IH q He).
Qed.
Definition serde_json : SerdeJson := {| JsonNumber := Z; json_to_vec j := bits (encode (to_tree j)) |}.
Lemma serde_json_laws : @SerdeJsonLaws serde_json.
Proof.
  split. intros j k Hjk. simpl in Hjk. apply bits_inj in Hjk. apply (inj encode) in Hjk.
  by rewrite <- (of_to_tree j), Hjk, of_to_tree.
Qed.

Definition agent (n : nat) : @EntityRecord serde_json :=
  @mkEntity serde_json (EntityUid.mk "Yutha::Agent" (show_N (N.of_nat n))) ∅ [].
Definition request (l : list (@EntityRecord serde_json)) : @EvaluationRequest serde_json :=
  @mkRequest serde_json (Hash.mk HashAlgorithm.Sha256 []) "1.1.0" "SendEnvelope"
    (AgentId.mk (replicate 16 Byte.x00)) (EntityUid.mk "Yutha::Agent" "2") ∅
    (@mkEntitySnapshot serde_json l) "2026-01-01T00:00:00Z" 0.
End JsonToy.

Lemma input_digest_exact_witness :
  @input_digest _ JsonToy.serde_json (JsonToy.request [JsonToy.agent 1; JsonToy.agent 2])
  = @input_digest _ JsonToy.serde_json (JsonToy.request [JsonToy.agent 2; JsonToy.agent 1]).
Proof.
  apply (@input_digest_exact _ JsonToy.serde_json JsonToy.serde_json_laws
           (JsonToy.request [JsonToy.agent 1; JsonToy.agent 2])
           (JsonToy.request [JsonToy.agent 2; JsonToy.agent 1])); [reflexivity|reflexivity| |].
  - apply (bool_decide_unpack _). vm_compute. exact I.
  - repeat split. exists [JsonToy.agent 2; JsonToy.agent 1]. split; [apply perm_swap|].
    repeat constructor; reflexivity.
Defined.

(** *** A history with a shadow *)

Module EvaluatorToy.
Import CedarToy.
Definition attr_iter (m : gmap string JsonValue) : list (string * JsonValue) := map_to_list m.
Definition constitution (h : byte) : Constitution :=
  Constitution.mk (Hash.mk HashAlgorithm.Sha256 [h]) (SpecVersion.mk "1.1.0") "1.1.0" "1" None
    (SwarmId.mk []) "permit(principal, action, resource);" CedarToy.config (Timestamp.mk "t" 0).
Definition now (n : nat) : Timestamp := Timestamp.mk "2026-01-01T00:00:00Z" (N.of_nat n).
Definition ops : list EvaluatorOp := [Activate (constitution Byte.x01); ActivateShadow (constitution Byte.x02)].
Definition state : CedarPlusEvaluator :=
  evaluator_run values attr_iter elements map_to_list ops
    (new_evaluator (with_default_bounds tt) SandboxConfig.default).
Definition request : EvaluationRequest :=
  mkRequest (Hash.mk HashAlgorithm.Sha256 [Byte.x01]) "1.1.0" "File"
    (AgentId.mk (replicate 16 Byte.x00)) (EntityUid.mk "Yutha::Agent" "2") ∅ (mkEntitySnapshot [])
    "2026-01-01T00:00:00Z" 0.
Definition shadow : ActivatedConstitution :=
  match current_shadow state with Some a => a | None => TypingToy.a end.
Definition outcomes : EvaluationOutcome * option EvaluationOutcome :=
  match (evaluate_pair values attr_iter request now state).1 with
  | Ok o => o
  | Err _ => (schema_incompatible_deny request (now 0), None)
  end.
Definition shadow_seen : EvaluationOutcome :=
  match outcomes.2 with Some o => o | None => outcomes.1 end.
End EvaluatorToy.

Lemma shadow_previews_promotion_witness :
  ∃ o'', (evaluate CedarToy.values EvaluatorToy.attr_iter
            (pin (hash_of EvaluatorToy.shadow) EvaluatorToy.request) EvaluatorToy.now
            (promote_shadow (evaluate_pair CedarToy.values EvaluatorToy.attr_iter EvaluatorToy.request
                               EvaluatorToy.now EvaluatorToy.state).2).2).1 = Ok o'' ∧
  decision EvaluatorToy.shadow_seen = decision o''.
Proof.
  assert (current_shadow EvaluatorToy.state = Some EvaluatorToy.shadow) as Hs by (vm_compute; reflexivity).
  assert ((evaluate_pair CedarToy.values EvaluatorToy.attr_iter EvaluatorToy.request EvaluatorToy.now
             EvaluatorToy.state).1 = Ok (EvaluatorToy.outcomes.1, Some EvaluatorToy.shadow_seen)) as Hp
    by (vm_compute; reflexivity).
  pose proof (shadow_previews_promotion CedarToy.values EvaluatorToy.attr_iter EvaluatorToy.request
    EvaluatorToy.now EvaluatorToy.now EvaluatorToy.state EvaluatorToy.shadow _ _ Hs Hp) as Hw.
  cbv zeta in Hw.
  destruct (evaluate CedarToy.values EvaluatorToy.attr_iter
    (pin (hash_of EvaluatorToy.shadow) EvaluatorToy.request) EvaluatorToy.now _).1 as [o''|e] eqn:He in Hw |- *.
  - exists o''. split; [reflexivity|]. apply Hw.
  - exfalso. vm_compute in He. discriminate He.
Defined.
