(* ===== verification/Publisher.v ===== *)
(** * [yutha-control-plane/src/receipt_publisher.rs]: publishing appended receipts

    The decorator of the receipt store that hands a summary of every appended
    receipt to the enforcement engine's channel, the extraction of that
    summary, and the emission of the engine's effects as receipts. *)

From S2P Require Import Prelude RustStd Core CoreProto Crypto ReceiptTypes ReceiptProto Merkle.
From S2P Require Import ReceiptVerify ReceiptStore Passport PassportStore Tokio Enforcement CedarPlus.

(** ** The summary of a receipt *)

Module EnforcementReceiptView.
(* yutha-control-plane/src/receipt_publisher.rs:55-63 EnforcementReceiptView *)
Record EnforcementReceiptView := mk {
  action_kind : string; principal_id : option string; deny_reason : option string;
  forbid_rule_id : option string; occurred_at_unix_ns : N; occurred_at_wall_clock : string;
  reputation_delta : option string }.
(* yutha-control-plane/src/main.rs:1703-1711 spawn_enforcement_forwarder (borrowed) *)
Definition borrowed (v : EnforcementReceiptView) : ReceiptView :=
  ReceiptView.mk (action_kind v) (principal_id v) (deny_reason v) (forbid_rule_id v)
    (occurred_at_unix_ns v) (occurred_at_wall_clock v) (reputation_delta v).
End EnforcementReceiptView.
Notation EnforcementReceiptView := EnforcementReceiptView.EnforcementReceiptView.

(* yutha-control-plane/src/receipt_publisher.rs:69-69 PUBLISH_CHANNEL_CAPACITY *)
Definition PUBLISH_CHANNEL_CAPACITY : nat := 4096.

(** The four variables of the loop over the evidence. *)
Record Found := mkFound {
  principal : option string; denied : option string; forbidden_by : option string;
  delta : option string }.
Definition nothing_found : Found := mkFound None None None None.
Definition is_subject_key (key : string) : bool :=
  bool_decide (key = "subject_agent_id"%string) || bool_decide (key = "target_agent_id"%string).

(* yutha-control-plane/src/receipt_publisher.rs:148-164 build_view (one evidence entry) *)
Definition scan_published (f : Found) (ev : Evidence) : Found :=
  let text := from_utf8 (Evidence.value ev) in
  let key := Evidence.key ev in
  if is_subject_key key && bool_decide (principal f = None) then
    mkFound text (denied f) (forbidden_by f) (delta f)
  else if bool_decide (key = "deny_reason"%string) then
    mkFound (principal f) text (forbidden_by f) (delta f)
  else if bool_decide (key = "forbid_rule_id"%string) then
    mkFound (principal f) (denied f) text (delta f)
  else if bool_decide (key = "reputation_delta"%string) then
    mkFound (principal f) (denied f) (forbidden_by f)
      match text with Some s => Some s | None => delta f end
  else f.

(* yutha-control-plane/src/receipt_publisher.rs:141-180 build_view *)
Definition build_view (receipt : Receipt) : EnforcementReceiptView :=
  let f := foldl scan_published nothing_found (Receipt.evidence receipt) in
  let principal_id :=
    match principal f with
    | None => Some (AgentId.to_string (Receipt.actor receipt))
    | Some p => Some p
    end in
  EnforcementReceiptView.mk (Receipt.action_kind receipt) principal_id (denied f) (forbidden_by f)
    (Timestamp.monotonic_ns (Receipt.occurred_at receipt))
    (Timestamp.wall_clock (Receipt.occurred_at receipt)) (delta f).

(** What an entry says, under a predicate on keys: nothing when the key is
    another or the bytes are not UTF-8. *)
Definition text_of (p : string → bool) (ev : Evidence) : option string :=
  if p (Evidence.key ev) then from_utf8 (Evidence.value ev) else None.
Definition key_is (key k : string) : bool := bool_decide (k = key).

Lemma scan_principal f evs :
  principal (foldl scan_published f evs) =
  match principal f with Some p => Some p | None => head (omap (text_of is_subject_key) evs) end.
Proof.
  revert f; induction evs as [|ev evs IH]; intros f; cbn [foldl omap list_omap]; [by destruct (principal f)|].
  rewrite IH. unfold scan_published, text_of. destruct (principal f) as [p|] eqn:Hp.
  - rewrite (bool_decide_eq_false_2 (Some p = None)) by done. rewrite andb_false_r.
    repeat case_bool_decide; simpl; by rewrite ?Hp.
  - rewrite (bool_decide_eq_true_2 (None = None)) by done. rewrite andb_true_r.
    destruct (is_subject_key (Evidence.key ev)); simpl; [by destruct (from_utf8 _)|].
    repeat case_bool_decide; simpl; by rewrite ?Hp.
Qed.

Lemma scan_delta f evs :
  delta (foldl scan_published f evs) =
  match last (omap (text_of (key_is "reputation_delta")) evs) with Some d => Some d | None => delta f end.
Proof.
  revert f; induction evs as [|ev evs IH]; intros f; [done|]. cbn [foldl omap list_omap]. rewrite IH.
  assert (delta (scan_published f ev) =
          match text_of (key_is "reputation_delta") ev with Some d => Some d | None => delta f end) as ->.
  { unfold scan_published, text_of, key_is. destruct (_ && _) eqn:Hs; cbn [delta].
    - apply andb_true_iff in Hs as [Hs _]. unfold is_subject_key in Hs.
      apply orb_true_iff in Hs as [Hs|Hs]; apply bool_decide_eq_true in Hs; by rewrite Hs.
    - repeat case_bool_decide; try congruence; try done; by destruct (from_utf8 _). }
  destruct (text_of _ ev) as [d|]; [|done]. rewrite last_cons. by destruct (last _).
Qed.

(** The principal of a published receipt: the first readable subject or
    target, or else the actor. *)
Lemma view_principal r :
  EnforcementReceiptView.principal_id (build_view r) =
  Some (default (AgentId.to_string (Receipt.actor r))
          (head (omap (text_of is_subject_key) (Receipt.evidence r)))).
Proof. unfold build_view. simpl. rewrite scan_principal. simpl. by destruct (head _). Qed.

(** ** The publishing store *)

Module PublishingReceiptStore.
(* yutha-control-plane/src/receipt_publisher.rs:75-78 PublishingReceiptStore *)
Record PublishingReceiptStore (S C : Type) := mk { inner : S; tx : C }.
Arguments mk {S C} _ _.
Arguments inner {S C} _.
Arguments tx {S C} _.

Section store.
Context {S C : Type} `{!ReceiptStore S} `{!Mpsc EnforcementReceiptView C}.
Notation P := (PublishingReceiptStore S C).

(** The receiver returned beside the store is the other end of [tx]. *)
(* yutha-control-plane/src/receipt_publisher.rs:86-91 PublishingReceiptStore::new *)
Definition new (inner : S) : P := mk inner (mpsc_channel PUBLISH_CHANNEL_CAPACITY).

(* yutha-control-plane/src/receipt_publisher.rs:96-119 PublishingReceiptStore::append *)
Definition append (receipt : Receipt) (options : AppendOptions) (resolver : PassportResolver)
  : M P ReceiptError AppendOutcome :=
  let view := build_view receipt in
  let! outcome := zoom inner (λ i s, mk i (tx s)) (ReceiptStore.append receipt options resolver) in
  do! modify (λ s, mk (inner s) (try_send view (tx s)).2) in
  mret outcome.
(* yutha-control-plane/src/receipt_publisher.rs:121-123 PublishingReceiptStore::get *)
Definition get (id : Hash) (s : P) : Result (option Receipt) ReceiptError := ReceiptStore.get id (inner s).
(* yutha-control-plane/src/receipt_publisher.rs:125-127 PublishingReceiptStore::query *)
Definition query (q : Query) (page_token : option bytes) (s : P) : Result Page ReceiptError :=
  ReceiptStore.query q page_token (inner s).
(* yutha-control-plane/src/receipt_publisher.rs:129-131 PublishingReceiptStore::count *)
Definition count (s : P) : Result N ReceiptError := ReceiptStore.count (inner s).

#[global] Instance store : ReceiptStore P :=
  {| ReceiptStore.append := append; ReceiptStore.get := get;
     ReceiptStore.query := query; ReceiptStore.count := count |}.

(** An append, seen from outside: the inner store's, and on success the view
    offered to the channel. *)
Lemma append_eq r o res (s : P) :
  append r o res s =
  let '(out, i) := ReceiptStore.append r o res (inner s) in
  (out, mk i (if is_ok out then (try_send (build_view r) (tx s)).2 else tx s)).
Proof.
  unfold append, mthen, zoom, modify, mret.
  by destruct (ReceiptStore.append r o res (inner s)) as [[out|e] i].
Qed.
End store.

(** The decorator keeps the contract of the store it wraps: every client of a
    receipt store can be given a publishing one. *)
Section laws.
Context {S C : Type} `{ReceiptStoreLaws S} `{!Mpsc EnforcementReceiptView C}.

#[global] Program Instance laws : ReceiptStoreLaws (PublishingReceiptStore S C) := {|
  view s := view (inner s);
  store_inv s := store_inv (inner s) |}.
Next Obligation.
  intros r o res s Hs. simpl. rewrite append_eq. pose proof (append_inv r o res (inner s) Hs) as Hi.
  by destruct (ReceiptStore.append r o res (inner s)).
Qed.
Next Obligation.
  intros r o res s out s' Hs. simpl. rewrite append_eq.
  destruct (ReceiptStore.append r o res (inner s)) as [out' i] eqn:Ha. intros [= -> <-].
  exact (append_Ok _ _ _ _ _ _ Hs Ha).
Qed.
Next Obligation.
  intros r o res s e s'. simpl. rewrite append_eq.
  destruct (ReceiptStore.append r o res (inner s)) as [out' i] eqn:Ha. intros [= -> <-].
  exact (append_Err _ _ _ _ _ _ Ha).
Qed.
Next Obligation. intros id s. exact (get_spec id (inner s)). Qed.
Next Obligation. intros q tok s r Hs. exact (query_spec q tok (inner s) r Hs). Qed.
Next Obligation. intros s. exact (ReceiptStore.count_spec (inner s)). Qed.

Lemma inner_inv (s : PublishingReceiptStore S C) : store_inv s → store_inv (inner s).
Proof. done. Qed.
End laws.
End PublishingReceiptStore.
Notation PublishingReceiptStore := PublishingReceiptStore.PublishingReceiptStore.

(** ** Effects as receipts *)

Section emit.
Context `{SerdeJson}.

(** The engine's evidence as a [serde_json::Value]. *)
Fixpoint json_of_value (v : Value) : JsonValue :=
  match v with VString s => JString s | VArray l => JArray (map json_of_value l) end.
Definition json_evidence (kv : string * Value) : Evidence :=
  Evidence.new kv.1 "type.yutha.dev/v1/Json" (json_to_vec (json_of_value kv.2)).

(** [iter] is the order in which the hash map of additional evidence is walked. *)
(* yutha-control-plane/src/receipt_publisher.rs:217-248 emit_enforcement_receipt (evidence) *)
Definition effect_evidence (iter : gmap string Value → list (string * Value))
  (effect : EnforcementEffect) (constitution_hash : Hash) : list Evidence :=
  [Evidence.new "target_agent_id" "type.yutha.dev/v1/AgentId" (as_bytes (Effect.target_agent_id effect));
   Evidence.new "enforcement_rule_id" "type.yutha.dev/v1/String"
     (as_bytes (Effect.enforcement_rule_id effect));
   Evidence.new "reputation_delta" "type.yutha.dev/v1/String" (as_bytes (Effect.reputation_delta effect));
   Evidence.new "constitution_hash" "type.yutha.dev/v1/Hash" (Hash.digest constitution_hash)]
  ++ map json_evidence (iter (Effect.additional_evidence effect)).

Context `{CryptoOps} `{Encode rproto.Receipt}.

(* yutha-control-plane/src/receipt_publisher.rs:205-275 emit_enforcement_receipt (receipt) *)
Definition effect_receipt iter (cp : ControlPlaneIdentity) (clock : nat → Timestamp)
  (effect : EnforcementEffect) (swarm_id : SwarmId) (constitution_hash : Hash)
  (constitution_version : string) : Result Receipt string :=
  let kind := Effect.action_kind effect in
  control_plane_receipt
    (λ e, "enforcement receipt spec_version: " +:+ CoreError.to_string e)
    (λ e, "build " +:+ kind +:+ " receipt: " +:+ e)
    (λ e, "canonical " +:+ kind +:+ ": " +:+ CryptoError.to_string e)
    (λ e, "signer " +:+ kind +:+ ": " +:+ SignerError.to_string e)
    cp clock swarm_id kind constitution_version (effect_evidence iter effect constitution_hash).

(* yutha-control-plane/src/receipt_publisher.rs:205-282 emit_enforcement_receipt *)
Definition emit_enforcement_receipt {R} `{!ReceiptStore R} iter (resolver : PassportResolver)
  (cp : ControlPlaneIdentity) clock effect swarm_id constitution_hash constitution_version
  : M R string Hash :=
  let! receipt := lift (effect_receipt iter cp clock effect swarm_id constitution_hash constitution_version) in
  let! outcome :=
    m_map_err (λ e, "append " +:+ Effect.action_kind effect +:+ ": " +:+ ReceiptError.to_string e)
      (append receipt AppendOptions.default resolver) in
  mret (AppendOutcome.receipt_id outcome).
End emit.
