(* ===== verification/EnforcementLoop.v ===== *)
(** * [yutha-control-plane/src/main.rs], [quarantine_adapter.rs]: the enforcement loop

    The task that forwards published receipts to the enforcement engine, the
    task that ticks its scheduler, the emission of their effects as receipts
    that are published in turn, and the quarantine source the capability store
    consults.  [forward] and [tick] are one iteration of each task; the
    relation [step] lets them, and everything else that appends receipts,
    interleave at every [await]. *)

From S2P Require Import Prelude RustStd Core CoreProto Crypto ReceiptTypes ReceiptProto Merkle.
From S2P Require Import ReceiptVerify ReceiptStore Passport PassportStore Scope Capability CapabilityStore.
From S2P Require Import Tokio Score Enforcement CedarPlus Procedure Validate Evaluator Publisher.

(* yutha-control-plane/src/quarantine_adapter.rs:61-70 EnforcementEngineQuarantineSource::is_agent_quarantined *)
Definition engine_quarantine_source (engine : EngineState) : QuarantineSource :=
  λ agent_id, Engine.is_agent_quarantined (AgentId.to_string agent_id) engine.

(** Receipts of the shadow slot, which the engine is never shown. *)
(* yutha-control-plane/src/main.rs:1697-1702 spawn_enforcement_forwarder (filter) *)
Definition is_shadow (v : EnforcementReceiptView) : bool :=
  starts_with "constitution.evaluate.shadow." (EnforcementReceiptView.action_kind v).

Section loop.
Context `{OffsetDateTimeOps} `{SerdeJson} {engine : Cedar} `{CryptoOps} `{Encode rproto.Receipt}.
Context {S C : Type} `{!ReceiptStore S} `{!Mpsc EnforcementReceiptView C}.
(** The order in which hash maps of evidence are walked; the resolver and the
    signing identity of the control plane. *)
Context (iter : gmap string Value → list (string * Value))
        (resolver : PassportResolver) (cp : ControlPlaneIdentity).
Notation P := (PublishingReceiptStore S C).

(** The fields of [ControlPlaneState] the two tasks use. *)
Record LoopState := mkState {
  receipt_store : P; enforcement : EngineState; cedar_plus : CedarPlusEvaluator }.
Definition with_store (p : P) (s : LoopState) : LoopState := mkState p (enforcement s) (cedar_plus s).
Definition with_engine (e : EngineState) (s : LoopState) : LoopState :=
  mkState (receipt_store s) e (cedar_plus s).
Definition channel (s : LoopState) : C := PublishingReceiptStore.tx (receipt_store s).
Definition with_channel (c : C) (s : LoopState) : LoopState :=
  with_store (PublishingReceiptStore.mk (PublishingReceiptStore.inner (receipt_store s)) c) s.

Implicit Types (s : LoopState) (clock : nat → Timestamp) (c : Constitution).

(** One effect under the constitution read at the start; an error is logged and
    the effect lost.  Every effect takes the clock's next two readings. *)
Definition emit_one clock c (effect : EnforcementEffect) (p : P) : P :=
  (emit_enforcement_receipt iter resolver cp clock effect (Constitution.swarm_id c)
     (Constitution.constitution_hash c) (Constitution.constitution_version c) p).2.
Fixpoint emit_all clock c (effects : list EnforcementEffect) (p : P) : P :=
  match effects with
  | [] => p
  | e :: es => emit_all (λ n, clock (n + 2)) c es (emit_one clock c e p)
  end.

(* yutha-control-plane/src/main.rs:1757-1813 emit_effects *)
Definition emit_effects clock (effects : list EnforcementEffect) s : LoopState :=
  match effects with
  | [] => s
  | _ =>
      match current (cedar_plus s) with
      | None => s
      | Some active => with_store (emit_all clock (constitution active) effects (receipt_store s)) s
      end
  end.

(** One iteration; [None] while the task waits for a receipt. *)
(* yutha-control-plane/src/main.rs:1675-1717 spawn_enforcement_forwarder *)
Definition forward clock s : option LoopState :=
  match recv (channel s) with
  | Some (Some view, rest) =>
      let s := with_channel rest s in
      if is_shadow view then Some s
      else
        let '(effects, e) := Engine.on_receipt (EnforcementReceiptView.borrowed view) (enforcement s) in
        Some (emit_effects clock effects (with_engine e s))
  | _ => None
  end.

(** One tick, a second after the last; [now] is the wall clock then. *)
(* yutha-control-plane/src/main.rs:1728-1743 spawn_scheduler_tick *)
Definition tick clock (now : string) s : LoopState :=
  let '(effects, e) := Engine.poll_scheduled now (enforcement s) in
  emit_effects clock effects (with_engine e s).

(** ** Interleaving

    Where a task stands between two [await]s: waiting; with effects in hand,
    before it reads the active constitution; and emitting them one by one. *)

Inductive Task := Idle | Staged (es : list EnforcementEffect)
  | Emitting (c : Constitution) (es : list EnforcementEffect).
Inductive Owner := Forwarder | Scheduler.

(** [published] and [consumed] are history: the summaries of all receipts
    appended so far, with whether the channel took them, and the summaries the
    forwarder has read. *)
Record World := mkWorld {
  state : LoopState; forwarder : Task; scheduler : Task;
  published : list (EnforcementReceiptView * bool); consumed : list EnforcementReceiptView }.
Implicit Types (w : World).
Definition task (o : Owner) w : Task := match o with Forwarder => forwarder w | Scheduler => scheduler w end.
Definition set_task (o : Owner) (t : Task) w : World :=
  match o with
  | Forwarder => mkWorld (state w) t (scheduler w) (published w) (consumed w)
  | Scheduler => mkWorld (state w) (forwarder w) t (published w) (consumed w)
  end.
Definition set_state s w : World := mkWorld s (forwarder w) (scheduler w) (published w) (consumed w).

(** Any part of the control plane appends a receipt. *)
Definition appended (r : Receipt) (o : AppendOptions) (res : PassportResolver) w : World :=
  let p := receipt_store (state w) in
  let '(out, p') := append r o res p in
  mkWorld (with_store p' (state w)) (forwarder w) (scheduler w)
    (published w ++
       if is_ok out then [(build_view r, is_ok (try_send (build_view r) (PublishingReceiptStore.tx p)).1)]
       else [])
    (consumed w).
(** A task emits an effect. *)
Definition emitted clock c (e : EnforcementEffect) w : World :=
  match effect_receipt iter cp clock e (Constitution.swarm_id c) (Constitution.constitution_hash c)
          (Constitution.constitution_version c) with
  | Ok r => appended r AppendOptions.default resolver w
  | Err _ => w
  end.

Inductive emit_step (o : Owner) : World → World → Prop :=
| emit_nothing w : task o w = Staged [] → emit_step o w (set_task o Idle w)
| emit_lost w es : task o w = Staged es → current (cedar_plus (state w)) = None →
    emit_step o w (set_task o Idle w)
| emit_read w e es active : task o w = Staged (e :: es) → current (cedar_plus (state w)) = Some active →
    emit_step o w (set_task o (Emitting (constitution active) (e :: es)) w)
| emit_next w c e es clock : task o w = Emitting c (e :: es) →
    emit_step o w (set_task o (Emitting c es) (emitted clock c e w))
| emit_done w c : task o w = Emitting c [] → emit_step o w (set_task o Idle w).

Definition received (v : EnforcementReceiptView) (rest : C) w : World :=
  let s := with_channel rest (state w) in
  let consumed := consumed w ++ [v] in
  if is_shadow v then mkWorld s Idle (scheduler w) (published w) consumed
  else
    let '(effects, e) := Engine.on_receipt (EnforcementReceiptView.borrowed v) (enforcement s) in
    mkWorld (with_engine e s) (Staged effects) (scheduler w) (published w) consumed.
(** The forwarder's own steps. *)
Inductive forwarder_step : World → World → Prop :=
| forwarder_recv w v rest : forwarder w = Idle → recv (channel (state w)) = Some (Some v, rest) →
    forwarder_step w (received v rest w)
| forwarder_emit w w' : emit_step Forwarder w w' → forwarder_step w w'.

Definition polled (now : string) w : World :=
  let '(effects, e) := Engine.poll_scheduled now (enforcement (state w)) in
  set_task Scheduler (Staged effects) (set_state (with_engine e (state w)) w).
Inductive step : World → World → Prop :=
| step_forwarder w w' : forwarder_step w w' → step w w'
| step_scheduler w w' : emit_step Scheduler w w' → step w w'
| step_tick w now : scheduler w = Idle → step w (polled now w)
| step_append w r o res : step w (appended r o res w)
| step_cedar w evaluator :
    step w (set_state (mkState (receipt_store (state w)) (enforcement (state w)) evaluator) w)
| step_activate w config :
    step w (set_state (with_engine (Engine.activate config (enforcement (state w))) (state w)) w).

(** A control plane that starts on an empty store. *)
Definition start (inner : S) (evaluator : CedarPlusEvaluator) : World :=
  mkWorld (mkState (PublishingReceiptStore.new inner) Engine.fresh evaluator) Idle Idle [] [].
End loop.
