(* ===== verification/LoopLaws.v ===== *)
(** * The enforcement loop: what it guarantees

    The standing of every agent is a function of the receipts the forwarder has
    read, which are the appended receipts in their order; an emitted effect
    comes back as the effect it was; the loop settles; and the capability store
    sees the standing. *)

From S2P Require Import Prelude RustStd Core CoreProto Crypto ReceiptTypes ReceiptProto Merkle.
From S2P Require Import Score Enforcement CedarPlus Procedure Validate Evaluator EvaluatorLaws.
From S2P Require Import ReceiptVerify ReceiptStore Passport PassportStore Scope Capability CapabilityStore.
From S2P Require Import Tokio Publisher EnforcementLoop.

(** ** What the engine returns *)

(** An [enforcement.*] effect with no evidence but the engine's own. *)
Definition engine_keys : list string := ["pattern_summary"; "group_key"; "matched_timestamps_ns"]%string.
Definition engine_effect (e : EnforcementEffect) : Prop :=
  starts_with "enforcement." (Effect.action_kind e) = true ∧
  ∀ k, is_Some (Effect.additional_evidence e !! k) → k ∈ engine_keys.

Section engine.
Context `{OffsetDateTimeOps}.
Import Engine.

Lemma check_detect_effect rule r s : Forall engine_effect (option_list (check_detect rule r s).1).
Proof.
  unfold check_detect. destruct (negb _); [constructor|]. cbv zeta. destruct (_ <? _)%N; [constructor|].
  cbn [fst option_list]. constructor; [|constructor]. split; [reflexivity|]. intros k. simpl.
  unfold detect_evidence. rewrite !lookup_insert_is_Some, lookup_empty.
  unfold engine_keys. intros [<-|[_ [<-|[_ [<-|[_ []%is_Some_None]]]]]]; set_solver.
Qed.

Lemma on_receipt_effects r s : Forall engine_effect (on_receipt r s).1.
Proof.
  unfold on_receipt. destruct (starts_with _ _); [constructor|]. destruct (active s) as [config|]; [|constructor].
  generalize (EngineConfig.enforcement_rules config). intros rules. revert s.
  induction rules as [|rule rules IH]; intros s; [constructor|]. cbn [check_rules].
  pose proof (check_detect_effect rule r s) as He. destruct (check_detect rule r s) as [e s1].
  specialize (IH s1). destruct (check_rules rules r s1) as [es s2]. cbn [fst] in *. by apply Forall_app.
Qed.

Lemma poll_effects now s : Forall engine_effect (poll_scheduled now s).1.
Proof.
  rewrite poll_eq. cbn [fst]. apply Forall_forall. intros e He%list_elem_of_In.
  apply in_map_iff in He as (a & <- & _). split; [unfold effect_of; by destruct (stage a)|].
  intros k. simpl. rewrite lookup_empty. by intros []%is_Some_None.
Qed.

(** An [enforcement.*] receipt has no effects. *)
Lemma on_receipt_enforcement r s :
  starts_with "enforcement." (ReceiptView.action_kind r) = true → (on_receipt r s).1 = [].
Proof. intros Hk. unfold on_receipt. by rewrite Hk. Qed.
End engine.

(** ** The invariant of the loop *)

Section laws.
Context `{OffsetDateTimeOps} `{SerdeJson} {engine : Cedar} `{CryptoOps} `{Encode rproto.Receipt}.
Context {S C : Type} `{!ReceiptStore S} `{!ReceiptStoreLaws S}.
Context `{!Mpsc EnforcementReceiptView C} `{!MpscLaws EnforcementReceiptView C}.
Context (iter : gmap string Value → list (string * Value))
        (resolver : PassportResolver) (cp : ControlPlaneIdentity).
Notation World := (World (S:=S) (C:=C)).
Notation step := (step (S:=S) (C:=C) iter resolver cp).
Notation emit_step := (emit_step (S:=S) (C:=C) iter resolver cp).
Notation forwarder_step := (forwarder_step (S:=S) (C:=C) iter resolver cp).
Notation emitted := (emitted (S:=S) (C:=C) iter resolver cp).
Implicit Types (w : World) (a : string).

(** The summaries the channel took, in the order of the appends. *)
Definition queued w : list EnforcementReceiptView := (List.filter snd (published w)).*1.
Definition pending w : list EnforcementReceiptView := contents (channel (state w)).
Definition task_effects (t : Task) : list EnforcementEffect :=
  match t with Idle => [] | Staged es => es | Emitting _ es => es end.
(** The standing that a list of summaries amounts to. *)
Definition standing_after (vs : list EnforcementReceiptView) a : Z * bool :=
  spec_standing a (map (OnReceipt ∘ EnforcementReceiptView.borrowed) vs).

Record loop_inv w : Prop := {
  inv_open : is_open (channel (state w));
  inv_store : store_inv (receipt_store (state w));
  inv_queue : queued w = consumed w ++ pending w;
  inv_standing a : standing (enforcement (state w)) a = standing_after (consumed w) a;
  inv_tasks o : Forall engine_effect (task_effects (task o w));
  inv_logged id r : view (receipt_store (state w)) !! id = Some r → build_view r ∈ (published w).*1
}.

Lemma standing_after_snoc vs v a :
  standing_after (vs ++ [v]) a =
  receipt_standing (EnforcementReceiptView.borrowed v) a (standing_after vs a).
Proof. unfold standing_after, spec_standing. by rewrite map_app, foldl_app. Qed.

Lemma inv_set_task o t w : Forall engine_effect (task_effects t) → loop_inv w → loop_inv (set_task o t w).
Proof.
  intros Ht [? ? ? ? Htasks ?]. destruct o; split; try done; intros []; try done;
    try exact (Htasks Forwarder); exact (Htasks Scheduler).
Qed.

Lemma try_send_cases (v : EnforcementReceiptView) (c : C) : is_open c →
  let '(r, c') := try_send v c in
  is_open c' ∧ contents c' = contents c ++ (if is_ok r then [v] else []).
Proof.
  intros Ho. pose proof (try_send_spec v c Ho) as Hs. destruct (_ <? _)%nat.
  - destruct Hs as (c' & -> & ? & _ & ?). done.
  - rewrite Hs. simpl. by rewrite app_nil_r.
Qed.

Lemma inv_appended r o res w : loop_inv w → loop_inv (appended r o res w).
Proof.
  intros [Ho Hs Hq Hst Ht Hl]. unfold appended.
  destruct (append r o res (receipt_store (state w))) as [out p'] eqn:Ha.
  assert (store_inv p') as Hs' by (pose proof (append_inv r o res _ Hs) as Hi; by rewrite Ha in Hi).
  assert (PublishingReceiptStore.tx p' =
          if is_ok out then (try_send (build_view r) (channel (state w))).2 else channel (state w)) as Htx.
  { pose proof (PublishingReceiptStore.append_eq r o res (receipt_store (state w))) as He.
    pose proof (eq_trans (eq_sym Ha) He) as He'. clear He.
    destruct (ReceiptStore.append r o res (PublishingReceiptStore.inner _)) as [out' i].
    by injection He' as -> ->. }
  pose proof (try_send_cases (build_view r) (channel (state w)) Ho) as Hsend.
  change (PublishingReceiptStore.tx (receipt_store (state w))) with (channel (state w)).
  destruct (try_send (build_view r) (channel (state w))) as [sent c'].
  destruct Hsend as [Ho' Hc']. cbn [fst snd] in Htx |- *.
  split; cbn [state consumed published forwarder scheduler]; try done.
  - unfold channel. simpl. rewrite Htx. by destruct (is_ok out).
  - unfold queued, pending, channel. cbn [state published]. simpl. rewrite Htx, List.filter_app, fmap_app.
    change ((List.filter snd (published w)).*1) with (queued w). rewrite Hq, <- app_assoc. f_equal.
    destruct (is_ok out); simpl; [|by rewrite app_nil_r]. rewrite Hc'. unfold pending, channel. f_equal.
    by destruct (is_ok sent).
  - intros id r'. change (receipt_store _) with p'. rewrite fmap_app, elem_of_app.
    destruct out as [out|e]; cbn [is_ok].
    + apply append_Ok in Ha as (_ & _ & Hk); [|done]. destruct (AppendOutcome.kind out); destruct Hk as [_ ->].
      * rewrite lookup_insert_Some. intros [[_ <-]|[_ ?]]; [right; by left|left; eauto].
      * left; eauto.
    + apply append_Err in Ha as [-> _]. left; eauto.
Qed.

Lemma inv_emitted clock c e w : loop_inv w → loop_inv (emitted clock c e w).
Proof. intros Hw. unfold EnforcementLoop.emitted. destruct (effect_receipt _ _ _ _ _ _ _); [by apply inv_appended|done]. Qed.

Lemma inv_received v rest w :
  forwarder w = Idle → recv (channel (state w)) = Some (Some v, rest) → loop_inv w → loop_inv (received v rest w).
Proof.
  intros Hf Hr [Ho Hs Hq Hst Ht Hl].
  assert (is_open rest ∧ pending w = v :: contents rest) as [Ho' Hp].
  { pose proof (recv_spec (channel (state w)) Ho) as Hr'. unfold pending.
    destruct (contents _); [congruence|]. destruct Hr' as (c' & Hc' & <- & _ & ?). by simplify_eq. }
  assert (queued w = (consumed w ++ [v]) ++ contents rest) as Hq' by (by rewrite Hq, Hp, <- app_assoc).
  pose proof (Ht Scheduler) as Hsch.
  assert (∀ e, standing (Engine.on_receipt (EnforcementReceiptView.borrowed v) (enforcement (state w))).2 e
            = standing_after (consumed w ++ [v]) e) as Hst'.
  { intros e. rewrite standing_after_snoc, <- Hst.
    exact (engine_step_standing (OnReceipt (EnforcementReceiptView.borrowed v)) (enforcement (state w)) e). }
  unfold received. destruct (is_shadow v) eqn:Hsh.
  - split; try done.
    + intros a. simpl. rewrite standing_after_snoc, <- Hst. unfold receipt_standing.
      assert (starts_with "enforcement." (EnforcementReceiptView.action_kind v) = false) as Hk.
      { unfold is_shadow in Hsh. destruct (EnforcementReceiptView.action_kind v) as [|ch k]; [done|].
        unfold starts_with in *. simpl in *. destruct (decide ("c"%char = ch)); [by subst ch|done]. }
      simpl. by rewrite Hk.
    + intros []; [constructor|exact Hsch].
  - pose proof (on_receipt_effects (EnforcementReceiptView.borrowed v) (enforcement (state w))) as He.
    change (enforcement (with_channel rest (state w))) with (enforcement (state w)).
    destruct (Engine.on_receipt _ _) as [es e]. cbn [snd fst] in *.
    split; try done. intros []; [exact He|exact Hsch].
Qed.

Lemma inv_emit o w w' : emit_step o w w' → loop_inv w → loop_inv w'.
Proof.
  intros Hstep Hw. pose proof (inv_tasks _ Hw o) as Ht.
  destruct Hstep as [w Hts|w es Hts|w e es active Hts|w c e es clock Hts|w c Hts]; rewrite Hts in Ht;
    apply inv_set_task; try done; try exact (Forall_nil_2 _).
  - exact (Forall_inv_tail Ht).
  - by apply inv_emitted.
Qed.

Lemma inv_forwarder w w' : forwarder_step w w' → loop_inv w → loop_inv w'.
Proof. intros [? ? ? ? ?|? ? ?]; [by apply inv_received|by eapply inv_emit]. Qed.

Lemma inv_step w w' : step w w' → loop_inv w → loop_inv w'.
Proof.
  intros Hstep Hw. destruct Hstep as [w w' Hf|w w' He|w now Hi|w r o res|w ev|w config].
  - by eapply inv_forwarder.
  - by eapply inv_emit.
  - destruct Hw as [Ho Hs Hq Hst Ht Hl]. unfold polled.
    pose proof (poll_effects now (enforcement (state w))) as He.
    pose proof (λ a, engine_step_standing (Poll now) (enforcement (state w)) a) as Hp. simpl in Hp.
    destruct (Engine.poll_scheduled now (enforcement (state w))) as [es e].
    apply inv_set_task; [exact He|]. split; try done. intros a. simpl. by rewrite <- Hst, <- Hp.
  - by apply inv_appended.
  - by destruct Hw.
  - destruct Hw as [Ho Hs Hq Hst Ht Hl]. split; try done.
Qed.

Lemma inv_start inner evaluator : store_inv inner → view inner = ∅ → loop_inv (start inner evaluator).
Proof.
  intros Hs He. destruct (mpsc_channel_spec PUBLISH_CHANNEL_CAPACITY) as (Hc & _ & Ho).
  split; try done.
  - intros []; constructor.
  - intros id r. change (view (receipt_store _)) with (view inner). by rewrite He, lookup_empty.
Qed.

(** ** A receipt written for an effect *)

Lemma effect_receipt_Ok clock e swarm h cv r :
  effect_receipt iter cp clock e swarm h cv = Ok r →
  ∃ sig, r = Receipt.with_signatures (λ _, [SignedBy.new SignatureRole.Actor sig (clock 1)])
    (unsigned_receipt cp (clock 0) swarm (Effect.action_kind e) cv (effect_evidence iter e h)).
Proof.
  unfold effect_receipt. rewrite control_plane_receipt_eq. cbv zeta.
  intros (sig & _ & [= <-])%rbind_Ok. by exists sig.
Qed.

Lemma queued_emitted clock c e w :
  ∃ r (b : bool), queued (emitted clock c e w) = queued w ++ (if b then [build_view r] else []) ∧
    consumed (emitted clock c e w) = consumed w ∧ forwarder (emitted clock c e w) = forwarder w ∧
    EnforcementReceiptView.action_kind (build_view r) = Effect.action_kind e.
Proof.
  unfold EnforcementLoop.emitted. destruct (effect_receipt _ _ _ _ _ _ _) as [r|err] eqn:Hr.
  - apply effect_receipt_Ok in Hr as (sig & ->). set (r := Receipt.with_signatures _ _).
    exists r. unfold appended. destruct (append r _ _ _) as [out p'].
    set (l := if is_ok out then _ else _). exists (match l with [(_, b)] => b | _ => false end).
    split; [|done]. unfold queued. cbn [published]. rewrite List.filter_app, fmap_app. f_equal.
    subst l. destruct (is_ok out); [|done]. simpl. by destruct (is_ok _).
  - eexists (Receipt.mk (SpecVersion.mk "") (Constitution.swarm_id c) (AgentId.mk []) (Effect.action_kind e)
      CausalRef.empty [] "" None (clock 0) SealStatus.unsealed []), false.
    by rewrite app_nil_r.
Qed.

(** ** The forwarder settles *)

Definition feeds (v : EnforcementReceiptView) : bool :=
  negb (starts_with "enforcement." (EnforcementReceiptView.action_kind v)).
(** What is left to do: receipts that may have effects first, then the queue
    and the effects in hand. *)
Definition fresh_work w : nat := length (List.filter feeds (pending w)).
Definition work w : nat :=
  4 * length (pending w) +
  match forwarder w with
  | Idle => 0 | Staged es => 6 * length es + 3 | Emitting _ es => 6 * length es + 2 end.

Lemma emitted_work clock c e es w : loop_inv w → engine_effect e → forwarder w = Emitting c (e :: es) →
  let w' := set_task Forwarder (Emitting c es) (emitted clock c e w) in
  fresh_work w' = fresh_work w ∧ work w' < work w.
Proof.
  intros Hw [Hk _] Hf w'. destruct (queued_emitted clock c e w) as (r & b & Hq & Hc & _ & Hkind).
  assert (pending w' = pending w ++ if b then [build_view r] else []) as Hp.
  { pose proof (inv_queue _ (inv_emitted clock c e _ Hw)) as Hq'. rewrite Hq, Hc, (inv_queue _ Hw), <- app_assoc in Hq'.
    by apply app_inv_head in Hq'. }
  unfold fresh_work, work. rewrite Hp, Hf, List.filter_app, !length_app. cbn [w' forwarder set_task]. split.
  - assert (feeds (build_view r) = false) as Hfeeds by (unfold feeds; by rewrite Hkind, Hk).
    destruct b; cbn [List.filter]; rewrite ?Hfeeds; simpl; lia.
  - destruct b; simpl; lia.
Qed.

Lemma received_work v rest w : loop_inv w → forwarder w = Idle →
  recv (channel (state w)) = Some (Some v, rest) →
  let w' := received v rest w in
  fresh_work w' < fresh_work w ∨ fresh_work w' = fresh_work w ∧ work w' < work w.
Proof.
  intros Hw Hf Hr w'. pose proof (inv_received v rest w Hf Hr Hw) as Hw'.
  assert (pending w = v :: pending w') as Hp.
  { pose proof (inv_queue _ Hw) as Hq. pose proof (inv_queue _ Hw') as Hq'. fold w' in Hq'.
    assert (queued w' = queued w ∧ consumed w' = consumed w ++ [v]) as [Hqq Hc].
    { unfold w', received. destruct (is_shadow v); [done|]. by destruct (Engine.on_receipt _ _). }
    rewrite Hqq, Hq, Hc, <- app_assoc in Hq'. by apply app_inv_head in Hq'. }
  unfold fresh_work. rewrite Hp. cbn [List.filter]. destruct (feeds v) eqn:Hv; [left; simpl; lia|right].
  split; [done|]. unfold work. rewrite Hp, Hf. cbn [length].
  assert (forwarder w' = Idle ∨ forwarder w' = Staged []) as [->| ->]; [|simpl; lia..].
  unfold w', received. cbv zeta. destruct (is_shadow v); [by left|right].
  pose proof (on_receipt_enforcement (EnforcementReceiptView.borrowed v)
                (enforcement (with_channel rest (state w)))) as Hn.
  destruct (Engine.on_receipt _ _) as [es e]. simpl in Hn |- *. rewrite Hn; [done|].
  unfold feeds in Hv. by apply negb_false_iff in Hv.
Qed.

Lemma forwarder_work w w' : loop_inv w → forwarder_step w w' →
  fresh_work w' < fresh_work w ∨ fresh_work w' = fresh_work w ∧ work w' < work w.
Proof.
  intros Hw Hstep. destruct Hstep as [w v rest Hf Hr|w w' Hemit]; [by apply received_work|]. right.
  pose proof (inv_tasks _ Hw Forwarder) as Ht.
  destruct Hemit as [w Hts|w es Hts|w e es active Hts|w c e es clock Hts|w c Hts];
    pose proof Hts as Hf; simpl in Hf;
    try (split; [done|unfold work, pending; cbn [set_task forwarder state]; rewrite Hf; simpl; lia]).
  apply emitted_work; [done| |done]. rewrite Hts in Ht. exact (Forall_inv Ht).
Qed.

Lemma forwarder_terminates w : loop_inv w → Acc (λ w2 w1, forwarder_step w1 w2) w.
Proof.
  remember (fresh_work w) as n eqn:Hn. revert w Hn.
  induction n as [n IHn] using lt_wf_ind. intros w Hn.
  remember (work w) as m eqn:Hm. revert w Hn Hm.
  induction m as [m IHm] using lt_wf_ind. intros w Hn Hm Hw. constructor. intros w' Hstep.
  pose proof (inv_forwarder _ _ Hstep Hw) as Hw'.
  destruct (forwarder_work _ _ Hw Hstep) as [Hlt|[Heq Hlt]].
  - eapply IHn; [|done|done]. by subst.
  - eapply IHm; [|by rewrite Heq|done|done]. by subst.
Qed.

Definition settled w : Prop := forwarder w = Idle ∧ pending w = [].

Lemma forwarder_progress w : loop_inv w → settled w ∨ ∃ w', forwarder_step w w'.
Proof.
  intros Hw. destruct (forwarder w) as [|[|e es]|c [|e es]] eqn:Hf.
  - destruct (pending w) as [|v vs] eqn:Hp; [by left|right].
    pose proof (recv_spec (channel (state w)) (inv_open _ Hw)) as Hr. unfold pending in Hp. rewrite Hp in Hr.
    destruct Hr as (rest & Hr & _). eexists. by eapply forwarder_recv.
  - right. eexists. eapply forwarder_emit, emit_nothing. exact Hf.
  - right. destruct (current (cedar_plus (state w))) as [a|] eqn:Ha; eexists; apply forwarder_emit.
    + eapply emit_read; [exact Hf|exact Ha].
    + eapply emit_lost; [exact Hf|exact Ha].
  - right. eexists. eapply forwarder_emit, emit_done. exact Hf.
  - right. eexists. eapply forwarder_emit, (emit_next _ _ _ _ _ _ _ _ (λ _, Timestamp.mk "" 0)). exact Hf.
Qed.

Lemma forwarder_reaches_settled w : loop_inv w → ∃ w', rtc forwarder_step w w' ∧ loop_inv w' ∧ settled w'.
Proof.
  intros Hw. induction (forwarder_terminates w Hw) as [w _ IH].
  destruct (forwarder_progress w Hw) as [Hs|[w' Hstep]]; [by exists w|].
  destruct (IH w' Hstep) as (w2 & ? & ? & ?); [by eapply inv_forwarder|].
  exists w2. split; [by eapply rtc_l|done].
Qed.

(** ** One iteration of a task is a run of its steps *)

Definition others w w' o : Prop :=
  match o with Forwarder => scheduler w' = scheduler w | Scheduler => forwarder w' = forwarder w end.

Lemma state_emitted clock c e w :
  state (emitted clock c e w) = with_store (emit_one iter resolver cp clock c e (receipt_store (state w))) (state w).
Proof.
  unfold EnforcementLoop.emitted, emit_one, emit_enforcement_receipt, mthen, lift, m_map_err, mret.
  destruct (effect_receipt _ _ _ _ _ _ _) as [r|err]; [|by destruct (state w)].
  unfold appended. by destruct (append r AppendOptions.default resolver (receipt_store (state w))) as [[]].
Qed.

Lemma emit_all_steps o clock c es w : task o w = Emitting c es →
  ∃ w', rtc (emit_step o) w w' ∧ task o w' = Idle ∧ others w w' o ∧
    state w' = with_store (emit_all iter resolver cp clock c es (receipt_store (state w))) (state w).
Proof.
  revert clock w; induction es as [|e es IH]; intros clock w Hw.
  - exists (set_task o Idle w). split; [eapply rtc_once, emit_done; exact Hw|].
    destruct o; simpl; by destruct (state w).
  - destruct (IH (λ n, clock (n + 2)) (set_task o (Emitting c es) (emitted clock c e w))) as (w' & Hs & Ht & Ho & Heq);
      [by destruct o|].
    exists w'. split; [eapply rtc_l; [eapply emit_next; exact Hw|exact Hs]|]. split; [done|].
    assert (forwarder (emitted clock c e w) = forwarder w ∧ scheduler (emitted clock c e w) = scheduler w) as [Hf Hsch].
    { unfold EnforcementLoop.emitted. destruct (effect_receipt _ _ _ _ _ _ _) as [r|]; [|done].
      unfold appended. by destruct (append _ _ _ _). }
    split; [destruct o; simpl in *; congruence|]. rewrite Heq.
    assert (state (set_task o (Emitting c es) (emitted clock c e w)) = state (emitted clock c e w)) as -> by (by destruct o).
    by rewrite state_emitted.
Qed.

Lemma emit_effects_steps o clock es w : task o w = Staged es →
  ∃ w', rtc (emit_step o) w w' ∧ task o w' = Idle ∧ others w w' o ∧
    state w' = emit_effects iter resolver cp clock es (state w).
Proof.
  intros Hw. destruct es as [|e es]; [|destruct (current (cedar_plus (state w))) as [active|] eqn:Ha].
  - exists (set_task o Idle w). split; [eapply rtc_once, emit_nothing; exact Hw|]. by destruct o.
  - destruct (emit_all_steps o clock (constitution active) (e :: es)
                (set_task o (Emitting (constitution active) (e :: es)) w)) as (w' & Hs & Ht & Ho & Heq); [by destruct o|].
    exists w'. split; [eapply rtc_l; [eapply emit_read; [exact Hw|exact Ha]|exact Hs]|]. split; [done|].
    split; [by destruct o|]. rewrite Heq. unfold emit_effects.
    assert (state (set_task o (Emitting (constitution active) (e :: es)) w) = state w) as -> by (by destruct o).
    by rewrite Ha.
  - exists (set_task o Idle w). split; [eapply rtc_once, emit_lost; [exact Hw|exact Ha]|].
    unfold emit_effects. rewrite Ha. by destruct o.
Qed.

Lemma forward_steps clock w s' : forwarder w = Idle → forward iter resolver cp clock (state w) = Some s' →
  ∃ w', rtc forwarder_step w w' ∧ state w' = s' ∧ forwarder w' = Idle ∧ scheduler w' = scheduler w.
Proof.
  unfold forward. intros Hf Hr. destruct (recv (channel (state w))) as [[[v|] rest]|] eqn:Hrecv; [|done..].
  pose proof (forwarder_recv iter resolver cp w v rest Hf Hrecv) as Hstep.
  unfold received in Hstep. cbv zeta in Hr, Hstep. destruct (is_shadow v).
  - injection Hr as <-. eexists. by split; [apply rtc_once, Hstep|].
  - destruct (Engine.on_receipt _ _) as [es e]. injection Hr as <-.
    destruct (emit_effects_steps Forwarder clock es _ (eq_refl : task Forwarder (mkWorld
      (with_engine e (with_channel rest (state w))) (Staged es) (scheduler w) (published w) (consumed w ++ [v]))
      = Staged es)) as (w' & Hs & Ht & Ho & Heq).
    exists w'. split; [|by rewrite Heq]. eapply rtc_l; [exact Hstep|].
    eapply (rtc_congruence (λ x, x)); [|exact Hs]. intros x y. apply forwarder_emit.
Qed.

Lemma tick_steps clock now w : scheduler w = Idle →
  ∃ w', rtc step w w' ∧ state w' = tick iter resolver cp clock now (state w) ∧ scheduler w' = Idle.
Proof.
  intros Hw. pose proof (step_tick iter resolver cp w now Hw) as Hstep. unfold polled, tick in *.
  destruct (Engine.poll_scheduled now (enforcement (state w))) as [es e].
  destruct (emit_effects_steps Scheduler clock es _ (eq_refl : task Scheduler (set_task Scheduler (Staged es)
      (set_state (with_engine e (state w)) w)) = Staged es)) as (w' & Hs & Ht & _ & Heq).
  exists w'. split; [|by rewrite Heq]. eapply rtc_l; [exact Hstep|].
  eapply (rtc_congruence (λ x, x)); [|exact Hs]. intros x y. apply step_scheduler.
Qed.

(** ** An effect comes back as it was *)

Definition view_keys : list string :=
  ["subject_agent_id"; "target_agent_id"; "deny_reason"; "forbid_rule_id"; "reputation_delta"]%string.

Lemma scan_ignored f evs : Forall (λ ev, Evidence.key ev ∉ view_keys) evs → foldl scan_published f evs = f.
Proof.
  intros Hall. revert f; induction Hall as [|ev evs Hev Hall IH]; intros f; [done|]. simpl. rewrite IH.
  assert (∀ k, k ∈ view_keys → bool_decide (Evidence.key ev = k) = false) as Hne.
  { intros k Hk. apply bool_decide_eq_false. intros He. apply Hev. by rewrite He. }
  unfold view_keys in Hne. unfold scan_published, is_subject_key. by rewrite !Hne by set_solver.
Qed.

Lemma effect_view clock e swarm h cv r :
  (∀ m, iter m ≡ₚ map_to_list m) → engine_effect e →
  is_utf8 (Effect.target_agent_id e) → is_utf8 (Effect.reputation_delta e) →
  effect_receipt iter cp clock e swarm h cv = Ok r →
  build_view r = EnforcementReceiptView.mk (Effect.action_kind e) (Some (Effect.target_agent_id e)) None None
    (Timestamp.monotonic_ns (clock 0)) (Timestamp.wall_clock (clock 0)) (Some (Effect.reputation_delta e)).
Proof.
  intros Hiter [_ Hkeys] Ht Hd Hr. apply effect_receipt_Ok in Hr as (sig & ->).
  unfold build_view. cbn [Receipt.evidence Receipt.with_signatures unsigned_receipt unsigned_receipt_after].
  unfold effect_evidence. rewrite foldl_app.
  rewrite (scan_ignored _ (map json_evidence _)).
  2:{ apply Forall_forall. intros ev Hev%list_elem_of_In. apply in_map_iff in Hev as ([k v] & <- & Hk).
      apply list_elem_of_In in Hk. rewrite Hiter in Hk. apply elem_of_map_to_list in Hk.
      specialize (Hkeys k (ex_intro _ v Hk)). simpl. clear -Hkeys. unfold engine_keys, view_keys in *. set_solver. }
  assert (foldl scan_published nothing_found
    [Evidence.new "target_agent_id" "type.yutha.dev/v1/AgentId" (as_bytes (Effect.target_agent_id e));
     Evidence.new "enforcement_rule_id" "type.yutha.dev/v1/String" (as_bytes (Effect.enforcement_rule_id e));
     Evidence.new "reputation_delta" "type.yutha.dev/v1/String" (as_bytes (Effect.reputation_delta e));
     Evidence.new "constitution_hash" "type.yutha.dev/v1/Hash" (Hash.digest h)]
    = mkFound (Some (Effect.target_agent_id e)) None None (Some (Effect.reputation_delta e))) as ->; [|done].
  cbn [foldl]. change (scan_published nothing_found ?ev) with (mkFound (from_utf8 (Evidence.value ev)) None None None).
  cbn [Evidence.value Evidence.new]. rewrite (from_utf8_as_bytes _ Ht).
  change (scan_published ?f (Evidence.new "enforcement_rule_id" _ _)) with f.
  change (scan_published ?f (Evidence.new "constitution_hash" _ _)) with f.
  change (scan_published ?f (Evidence.new "reputation_delta" _ ?v)) with
    (mkFound (principal f) (denied f) (forbidden_by f) match from_utf8 v with Some s => Some s | None => delta f end).
  by rewrite (from_utf8_as_bytes _ Hd).
Qed.
End laws.

(** ** Properties *)

Import MemoryCapabilityStore.

Section properties.
Context `{OffsetDateTimeOps} `{SerdeJson} {engine : Cedar} `{CryptoOps} `{Encode rproto.Receipt}.
Context {S C : Type} `{!ReceiptStore S} `{!ReceiptStoreLaws S}.
Context `{!Mpsc EnforcementReceiptView C} `{!MpscLaws EnforcementReceiptView C}.
Context (iter : gmap string Value → list (string * Value))
        (resolver : PassportResolver) (cp : ControlPlaneIdentity).
Notation step := (step (S:=S) (C:=C) iter resolver cp).
Notation forwarder_step := (forwarder_step (S:=S) (C:=C) iter resolver cp).

Lemma loop_reachable_inv inner evaluator w :
  store_inv inner → view inner = ∅ → rtc step (start inner evaluator) w → loop_inv w.
Proof.
  intros Hs He Hr. pose proof (inv_start inner evaluator Hs He) as Hw.
  induction Hr as [w|w1 w2 w3 Hstep _ IH]; [done|]. apply IH. by eapply inv_step.
Qed.

Lemma quarantined_standing a (s : EngineState) : Engine.is_agent_quarantined a s = (standing s a).2.
Proof. unfold Engine.is_agent_quarantined, standing, agent_of. by destruct (Engine.agents s !! a). Qed.

(** [C19] The enforcement loop, with every append, poll, activation and emission
    interleaved at will: the forwarder reads the published receipts in the
    order of the appends, none twice and none left out; every receipt in the
    store was published; the standing of an agent is what the receipts read so
    far amount to, and once the channel is empty and if it was never full, what
    all receipts ever appended amount to. *)
Theorem loop_standing_exact inner evaluator w a :
  store_inv inner → view inner = ∅ → rtc step (start inner evaluator) w →
  queued w = consumed w ++ pending w ∧
  standing (enforcement (state w)) a = standing_after (consumed w) a ∧
  (∀ id r, view (receipt_store (state w)) !! id = Some r → build_view r ∈ (published w).*1) ∧
  (pending w = [] → Forall (λ p, p.2 = true) (published w) →
   standing (enforcement (state w)) a = standing_after ((published w).*1) a).
Proof.
  intros Hs He Hr. pose proof (loop_reachable_inv _ _ _ Hs He Hr) as [_ _ Hq Hst _ Hl].
  split_and!; [done|apply Hst|done|]. intros Hp Hall. rewrite Hst. f_equal.
  rewrite Hp, app_nil_r in Hq. rewrite <- Hq. unfold queued. f_equal. clear -Hall.
  induction Hall as [|p l Hp _ IH]; [done|]. simpl. by rewrite Hp, IH.
Qed.

(** [C20] The loop settles: although emitted effects are published and read
    again, from every reachable state the forwarder's own steps cannot go on
    for ever, and they lead to a state where it waits on an empty channel and
    the standing of every agent accounts for every receipt the channel took. *)
Theorem forwarder_settles inner evaluator w :
  store_inv inner → view inner = ∅ → rtc step (start inner evaluator) w →
  Acc (λ w2 w1, forwarder_step w1 w2) w ∧
  ∃ w', rtc forwarder_step w w' ∧ settled w' ∧
    ∀ a, standing (enforcement (state w')) a = standing_after (queued w') a.
Proof.
  intros Hs He Hr. pose proof (loop_reachable_inv _ _ _ Hs He Hr) as Hw. split; [by apply forwarder_terminates|].
  destruct (forwarder_reaches_settled iter resolver cp w Hw) as (w' & Hr' & Hw' & Hset).
  exists w'. split; [done|]. split; [done|]. intros a.
  rewrite (inv_standing _ Hw'), (inv_queue _ Hw'). destruct Hset as [_ ->]. by rewrite app_nil_r.
Qed.

(** An effect takes hold exactly once its receipt is read: for any effect
    the engine returns, the receipt the control plane writes for it, read back
    through the channel, moves the standing of the effect's target by exactly
    the effect's delta, sets or lifts its quarantine as the kind says, touches
    no other agent, and has no effects of its own. *)
Lemma effect_comes_back op s e clock swarm h cv r :
  (∀ m, iter m ≡ₚ map_to_list m) →
  e ∈ (engine_step op s).1 → is_utf8 (Effect.target_agent_id e) → is_utf8 (Effect.reputation_delta e) →
  effect_receipt iter cp clock e swarm h cv = Ok r →
  let v := EnforcementReceiptView.borrowed (build_view r) in
  (∀ s', (Engine.on_receipt v s').1 = [] ∧
     ∀ a, standing (Engine.on_receipt v s').2 a =
       if decide (a = Effect.target_agent_id e) then
         (match parse_score_scaled (Effect.reputation_delta e) with
          | Ok d => clamp (i64_saturating_add (standing s' a).1 d) 0 10000
          | Err _ => (standing s' a).1
          end,
          if bool_decide (Effect.action_kind e = "enforcement.quarantine"%string) then true
          else if bool_decide (Effect.action_kind e = "enforcement.reverse"%string)
                  || bool_decide (Effect.action_kind e = "enforcement.evict"%string) then false
          else (standing s' a).2)
       else standing s' a).
Proof.
  intros Hiter He Ht Hd Hr v.
  assert (engine_effect e) as Heff.
  { destruct op as [c|rv|now]; simpl in He; [by apply elem_of_nil in He| |].
    - pose proof (on_receipt_effects rv s) as Hall. rewrite Forall_forall in Hall. auto.
    - pose proof (poll_effects now s) as Hall. rewrite Forall_forall in Hall. auto. }
  pose proof (effect_view iter cp _ _ _ _ _ _ Hiter Heff Ht Hd Hr) as Hv. destruct Heff as [Hk _].
  intros s'. split; [apply on_receipt_enforcement; unfold v; by rewrite Hv|]. intros a.
  change (Engine.on_receipt v s') with (engine_step (OnReceipt v) s'). rewrite engine_step_standing.
  unfold receipt_standing, v. rewrite Hv. cbn. rewrite Hk. cbn [andb].
  destruct (decide (a = Effect.target_agent_id e)) as [->|Hne].
  - rewrite bool_decide_eq_true_2 by done. by destruct (parse_score_scaled _).
  - rewrite bool_decide_eq_false_2 by congruence. done.
Qed.

Context `{TimeOps}.

(** [C21] Quarantine reaches the capability store: with the engine as its
    quarantine source, a check of a live capability whose subject the receipts
    read so far leave quarantined is denied as such, and every other check is
    decided as it would be without quarantine. *)
Theorem quarantine_reaches_checks {R} inner evaluator w max_depth fresh_swarm now id d
  (s : MemoryCapabilityStore R) :
  store_inv inner → view inner = ∅ → rtc step (start inner evaluator) w →
  check_inner max_depth (engine_quarantine_source (enforcement (state w))) fresh_swarm now id d s =
  match by_id s !! id with
  | Some leaf =>
      if negb (bool_decide (is_Some (revoked s !! id)))
         && (standing_after (consumed w) (AgentId.to_string (Capability.subject leaf))).2
      then Ok (CheckOutcome.deny (Some id) "subject_quarantined" [], Capability.swarm_id leaf)
      else check_inner max_depth always_allowed fresh_swarm now id d s
  | None => check_inner max_depth always_allowed fresh_swarm now id d s
  end.
Proof.
  intros Hs He Hr. pose proof (inv_standing _ (loop_reachable_inv _ _ _ Hs He Hr)) as Hst.
  unfold check_inner, engine_quarantine_source, always_allowed.
  destruct (bool_decide (is_Some (revoked s !! id))); simpl; [by destruct (by_id s !! id)|].
  destruct (by_id s !! id) as [leaf|]; simpl; [|done].
  rewrite quarantined_standing, Hst. by destruct (standing_after _ _).2.
Qed.
End properties.

(** ** Whom a denied check is counted against *)

Section blame.
Context `{TimeOps} `{CryptoOps} `{Encode rproto.Receipt} `{Encode cproto.Capability}.
Context {S C : Type} `{!ReceiptStore S} `{!Mpsc EnforcementReceiptView C} `{!MpscLaws EnforcementReceiptView C}.
Context (max_depth : N) (resolver : PassportResolver) (cp : ControlPlaneIdentity)
  (quarantine : QuarantineSource) (fresh_swarm : SwarmId).

Lemma check_evidence_names_nobody o d : omap (text_of is_subject_key) (check_evidence o d) = [].
Proof.
  unfold check_evidence. destruct (CheckOutcome.capability o), (CheckOutcome.permitted o); simpl; try done;
    by induction (CheckOutcome.unmet_caveats o).
Qed.

(** The receipt of a capability check names the checked action, the
    capability and the reason, but not the subject, and its actor is the
    control plane: whatever a check publishes, the enforcement engine groups
    under the control plane's own id.  A rule on [capability.check.deny] by
    principal counts every agent's denials together, against the control
    plane. *)
Lemma checks_counted_against_control_plane clock id d
  (s s' : MemoryCapabilityStore (PublishingReceiptStore S C)) res :
  is_open (PublishingReceiptStore.tx (receipts s)) →
  check max_depth resolver cp quarantine fresh_swarm clock id d s = (res, s') →
  ∃ l, contents (PublishingReceiptStore.tx (receipts s')) =
         contents (PublishingReceiptStore.tx (receipts s)) ++ l ∧
    ∀ v, v ∈ l → ∀ rule, EngineConfig.group_by (EngineConfig.detect rule) ≠ "none"%string →
      Engine.group_key rule (EnforcementReceiptView.borrowed v)
      = AgentId.to_string (ControlPlaneIdentity.agent_id cp).
Proof.
  intros Ho Hc. unfold check in Hc. apply mthen_run in Hc as [([o sw] & s1 & Hchk & Hc)|(e & Hchk & ->)].
  2:{ injection Hchk as _ <-. exists []. split; [by rewrite app_nil_r|]. by intros v ?%elem_of_nil. }
  injection Hchk as _ <-. simpl in Hc.
  assert ((record_check resolver cp (λ n, clock (Datatypes.S n)) o d sw s).2 = s') as <-.
  { unfold mthen, mret in Hc. destruct (record_check _ _ _ _ _ _ _) as [[]]; by injection Hc as _ <-. }
  clear Hc. unfold record_check, record_event. destruct (check_evidence o d) as [|ev evs] eqn:Hev.
  { exists []. split; [by rewrite app_nil_r|]. by intros v ?%elem_of_nil. }
  rewrite control_plane_receipt_eq. cbv zeta. unfold mthen, lift, m_map_err, zoom, mret.
  destruct (map_err _ (ControlPlaneIdentity.sign cp _)) as [sig|e]; cbn [rbind].
  2:{ exists []. split; [by rewrite app_nil_r|]. by intros v ?%elem_of_nil. }
  set (r := Receipt.with_signatures _ _).
  change (append r AppendOptions.default resolver (receipts s)) with
    (PublishingReceiptStore.append r AppendOptions.default resolver (receipts s)).
  rewrite PublishingReceiptStore.append_eq.
  destruct (append r _ _ _) as [out i]. pose proof (try_send_cases (build_view r) _ Ho) as Hsend.
  exists (if is_ok out && is_ok (try_send (build_view r) (PublishingReceiptStore.tx (receipts s))).1
          then [build_view r] else []). split.
  - destruct (try_send _ _) as [sent c']. destruct Hsend as [_ Hc'].
    destruct out as [out|e]; simpl; [|by rewrite app_nil_r]. exact Hc'.
  - intros v Hv rule Hg. destruct (_ && _); [|by apply elem_of_nil in Hv].
    apply list_elem_of_singleton in Hv as ->. unfold Engine.group_key. rewrite bool_decide_eq_false_2 by done.
    unfold EnforcementReceiptView.borrowed. cbn [ReceiptView.principal_id]. rewrite view_principal.
    change (Receipt.evidence r) with (ev :: evs). rewrite <- Hev. by rewrite check_evidence_names_nobody.
Qed.
End blame.

(** ** A concrete run and the witnesses *)

Module LoopToy.
Import MerkleToy QueueToy.
Notation Channel := (nat * list EnforcementReceiptView)%type.
Definition iter (m : gmap string Value) : list (string * Value) := map_to_list m.
Definition clock (at_ns : N) (n : nat) : Timestamp := Timestamp.mk (show_N at_ns) (at_ns + N.of_nat n).
Definition denial : list Evidence := check_evidence (CheckOutcome.deny None "no" []) CapToy.pay.
(** The receipt of a denied check, as the capability store writes it. *)
Definition deny (at_ns : N) : Receipt :=
  match control_plane_receipt (λ _, tt) (λ _, tt) (λ _, tt) (λ _, tt) CapToy.cp (clock at_ns) swarm
          "capability.check.deny" "" denial with
  | Ok r => r | Err _ => receipt 0 0 "" end.
Definition w0 : World (S:=MemoryStore) (C:=Channel) := start MemoryStore.new EvaluatorToy.state.
Definition w1 : World := set_state (with_engine (Engine.activate EngineToy.config (enforcement (state w0))) (state w0)) w0.
Definition w2 : World := appended (deny 1000000000) AppendOptions.default CapToy.resolver w1.
Definition w3 : World := appended (deny 3000000000) AppendOptions.default CapToy.resolver w2.
Lemma w3_reachable : rtc (step iter CapToy.resolver CapToy.cp) w0 w3.
Proof.
  eapply rtc_l; [apply step_activate|]. eapply rtc_l; [apply step_append|].
  eapply rtc_once. apply step_append.
Qed.
Definition forwarded (n : nat) (s : LoopState (S:=MemoryStore) (C:=Channel)) : LoopState :=
  Nat.iter n (λ s, default s (forward iter CapToy.resolver CapToy.cp (clock 4000000000) s)) s.
Definition control_plane_id : string := AgentId.to_string (ControlPlaneIdentity.agent_id CapToy.cp).

(** Two denied checks of any agents cost the control plane its reputation. *)
Example control_plane_pays :
  (standing (enforcement (forwarded 3 (state w3))) control_plane_id,
   length (contents (channel (forwarded 3 (state w3))))) = ((9500%Z, false), 0).
Proof. vm_compute. reflexivity. Qed.

Definition engine : EngineState := enforcement (state w3).
Definition op (at_ns : N) : EngineOp := OnReceipt (EnforcementReceiptView.borrowed (build_view (deny at_ns))).
Definition once : EngineState := (engine_step (op 1000000000) engine).2.
Definition detect : EnforcementEffect :=
  match (engine_step (op 3000000000) once).1 with e :: _ => e | [] => Effect.mk "" "" "" "" ∅ end.
Definition written : Receipt :=
  match effect_receipt iter CapToy.cp (clock 4000000000) detect swarm (sha256 []) "1" with
  | Ok r => r | Err _ => receipt 0 0 "" end.
Definition caps : MemoryCapabilityStore (PublishingReceiptStore MemoryStore Channel) :=
  mk {[capability_hash CapToy.root := CapToy.root]} ∅ (PublishingReceiptStore.new MemoryStore.new).
End LoopToy.

Lemma loop_standing_exact_witness :
  queued LoopToy.w3 = consumed LoopToy.w3 ++ pending LoopToy.w3 ∧
  standing (enforcement (state LoopToy.w3)) LoopToy.control_plane_id
  = standing_after (consumed LoopToy.w3) LoopToy.control_plane_id.
Proof.
  pose proof (loop_standing_exact LoopToy.iter CapToy.resolver CapToy.cp MemoryStore.new EvaluatorToy.state
    LoopToy.w3 LoopToy.control_plane_id inv_new eq_refl LoopToy.w3_reachable) as (Hq & Hs & _).
  exact (conj Hq Hs).
Defined.

Lemma forwarder_settles_witness :
  ∃ w', rtc (forwarder_step LoopToy.iter CapToy.resolver CapToy.cp) LoopToy.w3 w' ∧ settled w' ∧
    ∀ a, standing (enforcement (state w')) a = standing_after (queued w') a.
Proof.
  exact (proj2 (forwarder_settles LoopToy.iter CapToy.resolver CapToy.cp MemoryStore.new EvaluatorToy.state
    LoopToy.w3 inv_new eq_refl LoopToy.w3_reachable)).
Defined.

Lemma effect_comes_back_witness :
  standing (Engine.on_receipt (EnforcementReceiptView.borrowed (build_view LoopToy.written)) LoopToy.once).2
    LoopToy.control_plane_id
  = (9500%Z, (standing LoopToy.once LoopToy.control_plane_id).2).
Proof.
  pose proof (effect_comes_back LoopToy.iter CapToy.cp (LoopToy.op 3000000000) LoopToy.once LoopToy.detect
    (LoopToy.clock 4000000000) MerkleToy.swarm (sha256 []) "1" LoopToy.written) as Hw.
  cbv zeta in Hw. rewrite (proj2 (Hw ltac:(reflexivity) ltac:(apply list_elem_of_In; vm_compute; by left)
    ltac:(vm_compute; reflexivity) ltac:(vm_compute; reflexivity) ltac:(vm_compute; reflexivity) LoopToy.once)
    LoopToy.control_plane_id).
  vm_compute. reflexivity.
Defined.

Lemma quarantine_reaches_checks_witness :
  check_inner 8 (engine_quarantine_source (enforcement (state LoopToy.w3))) MerkleToy.swarm (CapToy.clock 0)
    (capability_hash CapToy.root) CapToy.pay CapToy.stored
  = check_inner 8 always_allowed MerkleToy.swarm (CapToy.clock 0) (capability_hash CapToy.root) CapToy.pay
      CapToy.stored.
Proof.
  pose proof (quarantine_reaches_checks LoopToy.iter CapToy.resolver CapToy.cp MemoryStore.new EvaluatorToy.state
    LoopToy.w3 8 MerkleToy.swarm (CapToy.clock 0) (capability_hash CapToy.root) CapToy.pay CapToy.stored
    inv_new eq_refl LoopToy.w3_reachable) as Hw.
  vm_compute in Hw |- *. exact Hw.
Defined.

Lemma checks_counted_against_control_plane_witness :
  ∃ l, contents (PublishingReceiptStore.tx (receipts
         (check 8 CapToy.resolver CapToy.cp always_allowed MerkleToy.swarm CapToy.clock
            (capability_hash CapToy.root) CapToy.pay LoopToy.caps).2)) = [] ++ l ∧
    ∀ v, v ∈ l → ∀ rule, EngineConfig.group_by (EngineConfig.detect rule) ≠ "none"%string →
      Engine.group_key rule (EnforcementReceiptView.borrowed v) = LoopToy.control_plane_id.
Proof.
  exact (checks_counted_against_control_plane 8 CapToy.resolver CapToy.cp always_allowed MerkleToy.swarm
    CapToy.clock (capability_hash CapToy.root) CapToy.pay LoopToy.caps _ _ I (surjective_pairing _)).
Defined.
