(* ===== verification/ReplaySession.v ===== *)
(** * [yutha-replay/src/session.rs]: replaying receipts against a candidate

    A session owns a fresh enforcement engine under the candidate constitution
    and an isolated receipt store.  It plays receipts of another store to the
    engine, in the order of their timestamps, and writes the engine's effects to
    its own store. *)

From S2P Require Import Prelude RustStd Core CoreProto Crypto ReceiptTypes ReceiptProto Merkle.
From S2P Require Import Score Enforcement CedarPlus Procedure Validate Evaluator.
From S2P Require Import Sealer ReceiptVerify ReceiptStore Passport PassportStore Tokio Publisher ReplayStore.

Module ReplayError.
(* yutha-replay/src/error.rs:7-37 ReplayError *)
Inductive ReplayError :=
| Receipt (e : ReceiptError)
| CedarPlus (msg : string)
| InvalidInputReceipt (receipt_id detail : string)
| Signer (msg : string)
| Backend (msg : string).
(** The texts of the [#[error(..)]] attributes. *)
Definition to_string (e : ReplayError) : string :=
  match e with
  | Receipt e => "receipt store: " +:+ ReceiptError.to_string e
  | CedarPlus m => "constitution layer: " +:+ m
  | InvalidInputReceipt r d => "invalid input receipt " +:+ r +:+ ": " +:+ d
  | Signer m => "signer: " +:+ m
  | Backend m => "replay backend: " +:+ m
  end.
End ReplayError.
Notation ReplayError := ReplayError.ReplayError.

(** ** The view of a replayed receipt *)

(** An entry that is not UTF-8 is passed over. *)
(* yutha-replay/src/session.rs:459-483 build_view (one evidence entry) *)
Definition scan_replayed (f : Found) (ev : Evidence) : Found :=
  let text := from_utf8 (Evidence.value ev) in
  let key := Evidence.key ev in
  if is_subject_key key && bool_decide (principal f = None) then
    match text with Some s => mkFound (Some s) (denied f) (forbidden_by f) (delta f) | None => f end
  else if bool_decide (key = "deny_reason"%string) then
    match text with Some s => mkFound (principal f) (Some s) (forbidden_by f) (delta f) | None => f end
  else if bool_decide (key = "forbid_rule_id"%string) then
    match text with Some s => mkFound (principal f) (denied f) (Some s) (delta f) | None => f end
  else if bool_decide (key = "reputation_delta"%string) then
    match text with Some s => mkFound (principal f) (denied f) (forbidden_by f) (Some s) | None => f end
  else f.
(* yutha-replay/src/session.rs:449-503 build_view *)
Definition replay_view (receipt : Receipt) : ReceiptView :=
  let f := foldl scan_replayed nothing_found (Receipt.evidence receipt) in
  ReceiptView.mk (Receipt.action_kind receipt) (principal f) (denied f) (forbidden_by f)
    (Timestamp.monotonic_ns (Receipt.occurred_at receipt))
    (Timestamp.wall_clock (Receipt.occurred_at receipt)) (delta f).

(** ** Sessions *)

(* yutha-replay/src/session.rs:63-72 ReplayStepOutcome *)
Record ReplayStepOutcome := mkStepOutcome {
  original_receipt_id : Hash; effects_count : nat; emitted_receipt_ids : list Hash }.
(* yutha-replay/src/session.rs:76-82 ReplayWindowOutcome *)
Record ReplayWindowOutcome := mkWindowOutcome {
  receipts_replayed : N; session_receipts_emitted : N }.

Section session.
Context `{TimeOps} `{OffsetDateTimeOps} `{SerdeJson} {engine_api : Cedar} `{CryptoOps} `{Encode rproto.Receipt}.
Context {S Src : Type} `{!ReceiptStore S} `{!ReceiptStore Src}.
(** The resolver and signing identity of the control plane, the schema that is
    part of the program (its text parsed by Cedar), and the orders in which hash
    maps and sets are walked. *)
Context (resolver : PassportResolver) (cp : ControlPlaneIdentity)
        (canonical_schema_v1_1 : Result Schema CedarPlusError)
        (set_iter : gset string → list string)
        (graph_iter : gmap string (gset string) → list (string * gset string)).

(* yutha-replay/src/session.rs:45-59 ReplaySession *)
Record ReplaySession := mkSession {
  session_id : ReplaySessionId; swarm_id : SwarmId; constitution_hash : Hash;
  constitution_version : string; engine : EngineState; receipt_store : S;
  last_step_emissions : list Hash }.
Notation R A := (M ReplaySession ReplayError A).
Implicit Types (s : ReplaySession) (clock : nat → Timestamp).

Definition set_engine (e : EngineState) s : ReplaySession :=
  mkSession (session_id s) (swarm_id s) (constitution_hash s) (constitution_version s) e (receipt_store s)
    (last_step_emissions s).
Definition set_receipts (st : S) s : ReplaySession :=
  mkSession (session_id s) (swarm_id s) (constitution_hash s) (constitution_version s) (engine s) st
    (last_step_emissions s).
Definition set_emissions (l : list Hash) s : ReplaySession :=
  mkSession (session_id s) (swarm_id s) (constitution_hash s) (constitution_version s) (engine s)
    (receipt_store s) l.

(* yutha-replay/src/session.rs:93-144 ReplaySession::create_cold *)
Definition create_cold (id : ReplaySessionId) (swarm : SwarmId) (candidate : Constitution) (store : S)
  : Result ReplaySession ReplayError :=
  let cedar_plus e := ReplayError.CedarPlus (CedarPlusError.to_string e) in
  let? schema := map_err cedar_plus canonical_schema_v1_1 in
  let? activated := map_err cedar_plus (load set_iter graph_iter (with_default_bounds schema) candidate) in
  Ok (mkSession id swarm (Constitution.constitution_hash candidate)
        (Constitution.constitution_version candidate)
        (Engine.activate (resolved_engine_config activated) Engine.fresh) store []).

Definition backend_error (what : string) (e : CoreError) : ReplayError :=
  ReplayError.Backend (what +:+ ": " +:+ CoreError.to_string e).
(** The receipts of a range of timestamps: one page, sorted. *)
Definition source_range (from_name to_name : string) (from to : N) (source : Src)
  : Result (list Receipt) ReplayError :=
  let? from_ts := map_err (backend_error from_name) (Timestamp.new "1970-01-01T00:00:00Z" from) in
  let? to_ts := map_err (backend_error to_name) (Timestamp.new "9999-12-31T23:59:59Z" to) in
  let? page := map_err ReplayError.Receipt (query (Query.ByTimeRange from_ts to_ts) None source) in
  Ok (sort_by_ns (Page.receipts page)).

(** One receipt played to the engine, and its clock to the scheduler. *)
Definition feed (r : Receipt) (e : EngineState) : list EnforcementEffect * EngineState :=
  let '(effects, e) := Engine.on_receipt (replay_view r) e in
  let '(scheduled_effects, e) := Engine.poll_scheduled (Timestamp.wall_clock (Receipt.occurred_at r)) e in
  (effects ++ scheduled_effects, e).

Definition lookback_range (from_unix_ns lookback_hours : N) : N * N :=
  let lookback_ns := u64_saturating_mul (u64_saturating_mul lookback_hours 3600) 1000000000 in
  ((from_unix_ns - lookback_ns)%N, (from_unix_ns - 1)%N).

(* yutha-replay/src/session.rs:156-223 ReplaySession::create_warm *)
Definition create_warm (id : ReplaySessionId) (swarm : SwarmId) (candidate : Constitution) (store : S)
  (source_store : Src) (from_unix_ns lookback_hours : N) : Result ReplaySession ReplayError :=
  let? session := create_cold id swarm candidate store in
  let range := lookback_range from_unix_ns lookback_hours in
  let? receipts := source_range "lookback from-timestamp" "lookback to-timestamp" range.1 range.2 source_store in
  Ok (set_engine (foldl (λ e r, (feed r e).2) (engine session) receipts) session).

(* yutha-replay/src/session.rs:356-395 ReplaySession::emit_session_enforcement_receipt (evidence) *)
Definition session_evidence (effect : EnforcementEffect) s : list Evidence :=
  [Evidence.new "target_agent_id" "type.yutha.dev/v1/AgentId" (as_bytes (Effect.target_agent_id effect));
   Evidence.new "enforcement_rule_id" "type.yutha.dev/v1/String"
     (as_bytes (Effect.enforcement_rule_id effect));
   Evidence.new "reputation_delta" "type.yutha.dev/v1/String" (as_bytes (Effect.reputation_delta effect));
   Evidence.new "constitution_hash" "type.yutha.dev/v1/Hash" (Hash.digest (constitution_hash s));
   Evidence.new "replay_session_id" "type.yutha.dev/v1/String"
     (as_bytes (ReplaySessionId.to_string (session_id s)))]
  ++ map json_evidence (btree_iter (Effect.additional_evidence effect)).

Definition session_receipt clock (effect : EnforcementEffect) (predecessors : list Hash) s
  : Result Receipt ReplayError :=
  control_plane_receipt_after
    (backend_error "spec version") (λ e, ReplayError.Backend ("build receipt: " +:+ e))
    (λ e, ReplayError.Backend ("canonical bytes: " +:+ CryptoError.to_string e))
    (λ e, ReplayError.Signer (SignerError.to_string e))
    (Some (CausalRef.mk predecessors)) cp clock (swarm_id s) (Effect.action_kind effect)
    (constitution_version s) (session_evidence effect s).

(* yutha-replay/src/session.rs:348-433 ReplaySession::emit_session_enforcement_receipt *)
Definition emit_session_enforcement_receipt clock (effect : EnforcementEffect) (predecessors : list Hash)
  : R Hash :=
  let! receipt := (λ s, (session_receipt clock effect predecessors s, s)) in
  let! outcome := m_map_err ReplayError.Receipt
                    (zoom receipt_store set_receipts (append receipt AppendOptions.default resolver)) in
  mret (AppendOutcome.receipt_id outcome).

(** The loop over the effects; each takes the next two readings of the clock. *)
Fixpoint emit_each clock (effects : list EnforcementEffect) (predecessors : list Hash) : R (list Hash) :=
  match effects with
  | [] => mret []
  | effect :: effects =>
      let! id := emit_session_enforcement_receipt clock effect predecessors in
      let! ids := emit_each (λ n, clock (n + 2)) effects predecessors in
      mret (id :: ids)
  end.

(* yutha-replay/src/session.rs:244-291 ReplaySession::play_receipt *)
Definition play_receipt clock (original : Receipt) : R ReplayStepOutcome :=
  let! original_receipt_id := lift (map_err
      (λ e, ReplayError.Backend ("compute original receipt id: " +:+ CryptoError.to_string e))
      (content_address original)) in
  let! effects := (λ s, let '(effects, e) := feed original (engine s) in (Ok effects, set_engine e s)) in
  let! predecessors := gets last_step_emissions in
  let! emitted := emit_each clock effects predecessors in
  do! modify (set_emissions emitted) in
  mret (mkStepOutcome original_receipt_id (length effects) emitted).

(** [if !filter.is_empty() { receipts.retain(..) }] *)
Definition retained (filter : list string) (receipts : list Receipt) : list Receipt :=
  match filter with
  | [] => receipts
  | _ => List.filter (λ r, contains filter (Receipt.action_kind r)) receipts
  end.

(** The loop, with its two totals; [clock i] are the readings of step [i]. *)
Fixpoint play_all (clock : nat → nat → Timestamp) (receipts : list Receipt) (totals : ReplayWindowOutcome)
  : R ReplayWindowOutcome :=
  match receipts with
  | [] => mret totals
  | r :: rest =>
      let! outcome := play_receipt (clock 0) r in
      play_all (λ i, clock (i + 1)) rest
        (mkWindowOutcome (u64_saturating_add (receipts_replayed totals) 1)
           (u64_saturating_add (session_receipts_emitted totals)
              (N.of_nat (length (emitted_receipt_ids outcome)))))
  end.

(* yutha-replay/src/session.rs:296-342 ReplaySession::run_window *)
Definition run_window (clock : nat → nat → Timestamp) (source_store : Src) (window : ReplaySessionWindow)
  : R ReplayWindowOutcome :=
  let! receipts := lift (source_range "window from-timestamp" "window to-timestamp"
      (ReplaySessionWindow.from_unix_ns window) (ReplaySessionWindow.to_unix_ns window) source_store) in
  play_all clock (retained (ReplaySessionWindow.action_kind_filter window) receipts) (mkWindowOutcome 0 0).
End session.
