(* ===== verification/ReplayLaws.v ===== *)
(** * Replay: what a session computes and what it leaves behind

    A window is a run of the engine on the receipts of the window in order, and
    its effects are what the session's store gains; the standing it computes
    depends on the replayed receipts alone; a warm start is the same run on the
    lookback; and the views the engine is given are the live ones, but for the
    fallback to the actor. *)

From S2P Require Import Prelude RustStd Core CoreProto Crypto ReceiptTypes ReceiptProto Merkle.
From S2P Require Import Score Enforcement CedarPlus Procedure Validate Evaluator EvaluatorLaws.
From S2P Require Import Sealer ReceiptVerify ReceiptStore Passport PassportStore Scope Capability CapabilityStore.
From S2P Require Import Tokio Publisher EnforcementLoop LoopLaws ReplayStore ReplaySession.

Import MemoryCapabilityStore.

(** ** The two views of a receipt *)

Lemma replayed_principal f evs :
  principal (foldl scan_replayed f evs) =
  match principal f with Some p => Some p | None => head (omap (text_of is_subject_key) evs) end.
Proof.
  revert f; induction evs as [|ev evs IH]; intros f; cbn [foldl omap list_omap]; [by destruct (principal f)|].
  rewrite IH. unfold scan_replayed, text_of. destruct (principal f) as [p|] eqn:Hp.
  - rewrite (bool_decide_eq_false_2 (Some p = None)) by done. rewrite andb_false_r.
    repeat case_bool_decide; destruct (from_utf8 (Evidence.value ev)); simpl; by rewrite ?Hp.
  - rewrite (bool_decide_eq_true_2 (None = None)) by done. rewrite andb_true_r.
    destruct (is_subject_key (Evidence.key ev)); simpl; [destruct (from_utf8 (Evidence.value ev)); simpl; by rewrite ?Hp|].
    repeat case_bool_decide; destruct (from_utf8 (Evidence.value ev)); simpl; by rewrite ?Hp.
Qed.

(** Every entry the views look at is readable. *)
Definition readable (evs : list Evidence) : Prop :=
  Forall (λ ev, Evidence.key ev ∈ view_keys → is_Some (from_utf8 (Evidence.value ev))) evs.

Lemma scans_agree f evs : readable evs → foldl scan_replayed f evs = foldl scan_published f evs.
Proof.
  intros Hr. revert f; induction Hr as [|ev evs Hev Hr IH]; intros f; [done|]. simpl. rewrite <- IH. f_equal.
  unfold scan_replayed, scan_published. unfold view_keys in Hev.
  destruct (is_subject_key (Evidence.key ev) && bool_decide (principal f = None)) eqn:Hs.
  - destruct Hev as [s ->]; [|done]. apply andb_true_iff in Hs as [Hs _].
    apply orb_true_iff in Hs as [Hs|Hs]; apply bool_decide_eq_true in Hs; rewrite Hs; set_solver.
  - clear Hs.
    assert (∀ k, k ∈ view_keys → Evidence.key ev = k → ∃ s, from_utf8 (Evidence.value ev) = Some s) as Hev'.
    { intros k Hk <-. exact (Hev Hk). }
    clear Hev. unfold view_keys in Hev'.
    case_bool_decide as H1; [destruct (Hev' "deny_reason"%string ltac:(set_solver) H1) as [s ->]; done|].
    case_bool_decide as H2; [destruct (Hev' "forbid_rule_id"%string ltac:(set_solver) H2) as [s ->]; done|].
    case_bool_decide as H3; [destruct (Hev' "reputation_delta"%string ltac:(set_solver) H3) as [s ->]; done|done].
Qed.

(** ** Playing *)

Section laws.
Context `{TimeOps} `{OffsetDateTimeOps} `{SerdeJson} {engine_api : Cedar} `{CryptoOps} `{Encode rproto.Receipt}.
Context {S Src : Type} `{!ReceiptStore S} `{!ReceiptStoreLaws S} `{!ReceiptStore Src} `{!ReceiptStoreLaws Src}.
Context (resolver : PassportResolver) (cp : ControlPlaneIdentity).
Implicit Types (s : ReplaySession (S:=S)) (clock : nat → Timestamp).
Notation session_receipt := (session_receipt (S:=S) cp).
Notation emit_each := (emit_each (S:=S) resolver cp).
Notation play_receipt := (play_receipt (S:=S) resolver cp).
Notation play_all := (play_all (S:=S) resolver cp).

(** What the engine is put through for a list of receipts. *)
Definition feed_ops (r : Receipt) : list Enforcement.EngineOp :=
  [Enforcement.OnReceipt (replay_view r); Enforcement.Poll (Timestamp.wall_clock (Receipt.occurred_at r))].
Definition play_ops (rs : list Receipt) : list Enforcement.EngineOp := rs ≫= feed_ops.

Lemma feed_run r e : feed r e = engine_run (feed_ops r) e.
Proof.
  unfold feed, feed_ops. simpl. destruct (Engine.on_receipt _ _) as [es e1].
  destruct (Engine.poll_scheduled _ _) as [es' e2]. by rewrite app_nil_r.
Qed.

Lemma play_ops_cons r rs e :
  engine_run (play_ops (r :: rs)) e =
  let '(es, e1) := feed r e in let '(es', e2) := engine_run (play_ops rs) e1 in (es ++ es', e2).
Proof. unfold play_ops. rewrite bind_cons, engine_run_app, feed_run. done. Qed.

Lemma feeds_run rs e : foldl (λ e r, (feed r e).2) e rs = (engine_run (play_ops rs) e).2.
Proof.
  revert e; induction rs as [|r rs IH]; intros e; [done|]. rewrite play_ops_cons. simpl. rewrite IH.
  destruct (feed r e) as [es e1]. simpl. by destruct (engine_run (play_ops rs) e1).
Qed.

(** The session a receipt is written in, whatever its engine, store and chain. *)
Definition identity s : ReplaySessionId * SwarmId * Hash * string :=
  (session_id s, swarm_id s, constitution_hash s, constitution_version s).

(** The session's receipt of an effect. *)
Definition receipt_of s (predecessors : list Hash) (e : EnforcementEffect) (r : Receipt) : Prop :=
  Receipt.action_kind r = Effect.action_kind e ∧
  Receipt.actor r = ControlPlaneIdentity.agent_id cp ∧ Receipt.swarm_id r = swarm_id s ∧
  Receipt.constitution_version r = constitution_version s ∧
  CausalRef.predecessors (Receipt.causal r) = predecessors ∧
  Receipt.evidence r = session_evidence e s.
(** The effects are in the store, each under the content address of its receipt. *)
Definition written s (predecessors : list Hash) (effects : list EnforcementEffect) (ids : list Hash) (st : S) : Prop :=
  Forall2 (λ e id, is_Some (view st !! id) ∧ ∃ r, receipt_of s predecessors e r ∧ id = receipt_id r) effects ids.
(** The store only gained receipts with these ids. *)
Definition gained (ids : list Hash) (st st' : S) : Prop :=
  view st ⊆ view st' ∧ ∀ id, is_Some (view st' !! id) → is_Some (view st !! id) ∨ id ∈ ids.

Lemma gained_refl st : gained [] st st.
Proof. split; [done|]. by left. Qed.
Lemma gained_trans ids ids' st1 st2 st3 : gained ids st1 st2 → gained ids' st2 st3 → gained (ids ++ ids') st1 st3.
Proof.
  intros [? Hg1] [? Hg2]. split; [by trans (view st2)|]. intros id [Hid|?]%Hg2; [|set_solver].
  apply Hg1 in Hid as [?|?]; set_solver.
Qed.
Lemma written_mono s preds es ids st st' : view st ⊆ view st' → written s preds es ids st → written s preds es ids st'.
Proof.
  intros Hsub Hw. eapply Forall2_impl; [exact Hw|]. intros e id [[r Hr] ?]. split; [|done]. exists r. by eapply lookup_weaken.
Qed.

Lemma session_receipt_Ok clock e preds s r : session_receipt clock e preds s = Ok r → receipt_of s preds e r.
Proof.
  unfold ReplaySession.session_receipt. rewrite control_plane_receipt_after_eq. cbv zeta.
  intros (sig & _ & [= <-])%rbind_Ok. done.
Qed.

Lemma emit_one_Ok clock e preds s id s' : store_inv (receipt_store s) →
  emit_session_enforcement_receipt resolver cp clock e preds s = (Ok id, s') →
  ∃ st, s' = set_receipts st s ∧ store_inv st ∧ gained [id] (receipt_store s) st ∧ written s preds [e] [id] st.
Proof.
  intros Hinv Hm. unfold emit_session_enforcement_receipt in Hm.
  apply mthen_Ok in Hm as (r & s1 & [= Hr <-] & Hm). apply session_receipt_Ok in Hr.
  apply mthen_Ok in Hm as (out & s2 & Happ & [= <- <-]). unfold m_map_err, zoom in Happ.
  pose proof (append_inv r AppendOptions.default resolver _ Hinv) as Hinv'.
  destruct (append r _ _ _) as [[out'|e'] st] eqn:Ha; [|done]. injection Happ as <- <-.
  apply append_Ok in Ha as (_ & Hid & Hk); [|done]. rewrite Hid.
  exists st. split; [done|]. split; [done|].
  destruct (AppendOutcome.kind out'); destruct Hk as [H1' H2']; unfold gained; rewrite H2'.
  - split; [split; [by apply insert_subseteq|]|].
    + intros i. rewrite lookup_insert_is_Some. set_solver.
    + repeat constructor; [|by exists r]. by rewrite H2', lookup_insert_eq.
  - split; [split; [done|by left]|]. repeat constructor; [|by exists r]. by rewrite H2'.
Qed.

Lemma emit_each_Ok clock es preds s ids s' : store_inv (receipt_store s) →
  emit_each clock es preds s = (Ok ids, s') →
  ∃ st, s' = set_receipts st s ∧ store_inv st ∧ gained ids (receipt_store s) st ∧ written s preds es ids st.
Proof.
  revert clock s ids; induction es as [|e es IH]; intros clock s ids Hinv Hm.
  { injection Hm as <- <-. exists (receipt_store s). split; [by destruct s|].
    split; [done|]. split; [apply gained_refl|constructor]. }
  apply mthen_Ok in Hm as (id & s1 & Hone & Hm). apply mthen_Ok in Hm as (ids' & s2 & Hm & [= <- <-]).
  apply emit_one_Ok in Hone as (st1 & -> & Hinv1 & Hg1 & Hw1); [|done].
  apply IH in Hm as (st2 & -> & Hinv2 & Hg2 & Hw2); [|done]. simpl in Hg2.
  exists st2. split; [done|]. split; [done|]. split; [by apply (gained_trans [id] ids' _ st1)|].
  change (e :: es) with ([e] ++ es). change (id :: ids') with ([id] ++ ids'). apply Forall2_app; [|done].
  eapply written_mono; [|exact Hw1]. apply Hg2.
Qed.

(** One step: the engine runs, the effects are written after the emissions of
    the step before, and become the head of the chain. *)
Lemma play_receipt_Ok clock r s o s' : store_inv (receipt_store s) →
  play_receipt clock r s = (Ok o, s') →
  original_receipt_id o = receipt_id r ∧ identity s' = identity s ∧ store_inv (receipt_store s') ∧
  engine s' = (feed r (engine s)).2 ∧ effects_count o = length (feed r (engine s)).1 ∧
  last_step_emissions s' = emitted_receipt_ids o ∧
  gained (emitted_receipt_ids o) (receipt_store s) (receipt_store s') ∧
  written s (last_step_emissions s) (feed r (engine s)).1 (emitted_receipt_ids o) (receipt_store s').
Proof.
  intros Hinv Hm. unfold ReplaySession.play_receipt in Hm.
  apply mthen_Ok in Hm as (id & s1 & [= <- <-] & Hm).
  apply mthen_Ok in Hm as (es & s2 & Hf & Hm). destruct (feed r (engine s)) as [es' e]. injection Hf as <- <-.
  apply mthen_Ok in Hm as (preds & s3 & [= <- <-] & Hm).
  apply mthen_Ok in Hm as (ids & s4 & Hm & Hend). apply emit_each_Ok in Hm as (st & -> & Hst & Hg & Hw); [|done].
  injection Hend as <- <-. simpl. done.
Qed.

Definition written_chain s (effects : list EnforcementEffect) (ids : list Hash) (st : S) : Prop :=
  Forall2 (λ e id, is_Some (view st !! id) ∧ ∃ preds r, receipt_of s preds e r ∧ id = receipt_id r) effects ids.

Lemma receipt_of_identity s s' preds e r : identity s' = identity s → receipt_of s preds e r → receipt_of s' preds e r.
Proof.
  intros [= H1' H2' H3' H4'] (? & ? & ? & ? & ? & Hev). unfold receipt_of, session_evidence in *.
  rewrite H1', H2', H3', H4'. done.
Qed.

Lemma play_all_Ok (clock : nat → nat → Timestamp) rs totals s totals' s' : store_inv (receipt_store s) →
  play_all clock rs totals s = (Ok totals', s') →
  ∃ effects ids,
    engine_run (play_ops rs) (engine s) = (effects, engine s') ∧ identity s' = identity s ∧
    receipts_replayed totals' = foldl (λ n _, u64_saturating_add n 1) (receipts_replayed totals) rs ∧
    (session_receipts_emitted totals <= u64_max → session_receipts_emitted totals' =
       N.min u64_max (session_receipts_emitted totals + N.of_nat (length effects)))%N ∧
    gained ids (receipt_store s) (receipt_store s') ∧ written_chain s effects ids (receipt_store s').
Proof.
  revert clock totals s; induction rs as [|r rs IH]; intros clock totals s Hinv Hm.
  { injection Hm as <- <-. exists [], []. split; [done|]. split; [done|]. split; [done|].
    split; [simpl; lia|]. split; [apply gained_refl|constructor]. }
  apply mthen_Ok in Hm as (o & s1 & Hstep & Hm).
  apply play_receipt_Ok in Hstep as (_ & Hid & Hinv1 & He & _ & _ & Hg & Hw); [|done].
  apply IH in Hm as (es & ids & Hrun & Hid' & Hn & Hem & Hg' & Hw'); [|done].
  exists ((feed r (engine s)).1 ++ es), (emitted_receipt_ids o ++ ids).
  rewrite play_ops_cons. rewrite He in Hrun. destruct (feed r (engine s)) as [es1 e1]. simpl in *.
  rewrite Hrun. split; [done|]. split; [congruence|]. split; [done|]. split; [|split; [by eapply gained_trans|]].
  - intros Hle. rewrite Hem by (unfold u64_saturating_add, u64_max; lia).
    pose proof (Forall2_length _ _ _ Hw) as Hl. rewrite length_app. unfold u64_saturating_add. lia.
  - apply Forall2_app.
    + eapply Forall2_impl; [exact Hw|]. intros e id [[r' Hr'] (r0 & ? & ?)].
      split; [exists r'; eapply lookup_weaken; [exact Hr'|apply Hg']|]. by eexists _, r0.
    + eapply Forall2_impl; [exact Hw'|]. intros e id [? (preds & r0 & ? & ?)].
      split; [done|]. exists preds, r0. split; [|done]. by eapply receipt_of_identity.
Qed.

Lemma count_replayed (rs : list Receipt) n : (n <= u64_max)%N →
  foldl (λ n _, u64_saturating_add n 1) n rs = N.min u64_max (n + N.of_nat (length rs)).
Proof.
  revert n; induction rs as [|r rs IH]; intros n Hn; simpl; [lia|].
  rewrite IH; unfold u64_saturating_add; lia.
Qed.

Lemma sorted_filter {A} (R : A → A → Prop) (f : A → bool) l :
  StronglySorted R l → StronglySorted R (List.filter f l).
Proof.
  induction 1 as [|x l _ IH Hall]; [constructor|]. simpl. destruct (f x); [|done]. constructor; [done|].
  apply Forall_forall. intros y Hy%list_elem_of_In. apply List.filter_In in Hy as [Hy%list_elem_of_In _].
  rewrite Forall_forall in Hall. auto.
Qed.


Lemma source_range_Ok n1 n2 from to source rs : store_inv source → source_range n1 n2 from to source = Ok rs →
  StronglySorted earlier rs ∧
  ∀ r, r ∈ rs ↔ (∃ id, view source !! id = Some r) ∧ (from <= ns_of r <= to)%N.
Proof.
  intros Hs Hr. unfold source_range in Hr.
  apply rbind_Ok in Hr as (from_ts & Hf%map_err_Ok & Hr).
  apply rbind_Ok in Hr as (to_ts & Ht%map_err_Ok & Hr).
  apply rbind_Ok in Hr as (page & Hp%map_err_Ok & [= <-]).
  assert (Timestamp.monotonic_ns from_ts = from ∧ Timestamp.monotonic_ns to_ts = to) as [Hfr Hto].
  { unfold Timestamp.new in Hf, Ht. inv_ok Hf. inv_ok Ht. done. }
  split; [apply sort_by_ns_sorted|]. intros r. unfold sort_by_ns. rewrite merge_sort_Permutation.
  destruct (query_spec (Query.ByTimeRange from_ts to_ts) None source r Hs) as (page' & Hp' & Hin).
  rewrite Hp in Hp'. injection Hp' as <-. rewrite Hin. unfold selects. rewrite Hfr, Hto. naive_solver.
Qed.

Lemma retained_elem filter rs r : r ∈ retained filter rs ↔
  r ∈ rs ∧ (filter = [] ∨ Receipt.action_kind r ∈ filter).
Proof.
  unfold retained. destruct filter as [|k ks]; [naive_solver|].
  rewrite list_elem_of_In, List.filter_In, <- list_elem_of_In, contains_true. naive_solver.
Qed.

(** A replayed window is a run of the candidate's engine: when [run_window]
    answers, the receipts it played are exactly those of the source store within
    the window and of a listed kind, in the order of their timestamps, each
    followed by a poll at its wall clock; the engine ends where that run ends;
    the session's store has gained a receipt for each effect of the run, signed
    for by the control plane with the session's markers, and nothing else; and
    the totals count both. *)
Lemma replay_window_exact (clock : nat → nat → Timestamp) source window s totals s' :
  store_inv (receipt_store s) → store_inv source →
  run_window resolver cp clock source window s = (Ok totals, s') →
  ∃ rs effects ids,
    StronglySorted earlier rs ∧
    (∀ r, r ∈ rs ↔ (∃ id, view source !! id = Some r) ∧
       (ReplaySessionWindow.from_unix_ns window <= ns_of r <= ReplaySessionWindow.to_unix_ns window)%N ∧
       (ReplaySessionWindow.action_kind_filter window = [] ∨
        Receipt.action_kind r ∈ ReplaySessionWindow.action_kind_filter window)) ∧
    engine_run (play_ops rs) (engine s) = (effects, engine s') ∧
    gained ids (receipt_store s) (receipt_store s') ∧ written_chain s effects ids (receipt_store s') ∧
    receipts_replayed totals = N.min u64_max (N.of_nat (length rs)) ∧
    session_receipts_emitted totals = N.min u64_max (N.of_nat (length effects)).
Proof.
  intros Hinv Hsrc Hm. unfold run_window in Hm. apply mthen_Ok in Hm as (rs & s1 & [= Hr <-] & Hm).
  apply source_range_Ok in Hr as [Hsort Hin]; [|done].
  apply play_all_Ok in Hm as (effects & ids & Hrun & _ & Hn & He & Hg & Hw); [|done].
  exists (retained (ReplaySessionWindow.action_kind_filter window) rs), effects, ids.
  split; [unfold retained; destruct (ReplaySessionWindow.action_kind_filter window); [done|by apply sorted_filter]|].
  split; [intros r; rewrite retained_elem, Hin; tauto|].
  split; [done|]. split; [done|]. split; [done|]. split.
  - rewrite Hn. simpl. by rewrite count_replayed.
  - rewrite He; simpl; [done|unfold u64_max; lia].
Qed.

(** The standing a replay computes comes from the replayed receipts alone:
    whatever the candidate constitution, reputation and quarantine after playing
    a list of receipts are those of the session before, changed by each
    [enforcement.*] receipt of the list.  What the candidate itself detects and
    sanctions is written to the session's store and never takes hold. *)
Lemma replay_standing_ignores_candidate (clock : nat → nat → Timestamp) rs totals s totals' s' a :
  store_inv (receipt_store s) → play_all clock rs totals s = (Ok totals', s') →
  standing (engine s') a =
  foldl (λ st r, receipt_standing (replay_view r) a st) (standing (engine s) a) rs.
Proof.
  intros Hinv Hm. apply play_all_Ok in Hm as (es & ids & Hrun & _); [|done].
  pose proof (engine_run_standing (play_ops rs) (engine s) a) as Hs. rewrite Hrun in Hs. cbn [snd] in Hs. rewrite Hs.
  generalize (standing (engine s) a). clear. induction rs as [|r rs IH]; intros st; [done|apply IH].
Qed.

(** A step without effects leaves the next one without predecessors. *)
Lemma quiet_step_cuts_chain clock r s o s' :
  store_inv (receipt_store s) → (feed r (engine s)).1 = [] → play_receipt clock r s = (Ok o, s') →
  last_step_emissions s' = [].
Proof.
  intros Hinv Hq Hm. apply play_receipt_Ok in Hm as (_ & _ & _ & _ & _ & Hl & _ & Hw); [|done].
  rewrite Hq in Hw. apply Forall2_nil_inv_l in Hw. congruence.
Qed.
Context (canonical_schema_v1_1 : Result Schema CedarPlusError)
        (set_iter : gset string → list string)
        (graph_iter : gmap string (gset string) → list (string * gset string)).

(** A warm start is a replay of the lookback with its effects dropped: the
    engine is the cold one after the receipts of the [lookback_hours] before the
    window, no older and no younger, and the session's store is untouched; the
    saturating arithmetic computes the exact bound for every start and every
    number of hours. *)
Lemma warm_start_exact id swarm candidate store source from hours s :
  store_inv source → (from <= u64_max)%N →
  create_warm canonical_schema_v1_1 set_iter graph_iter id swarm candidate store source from hours = Ok s →
  ∃ cold rs,
    create_cold canonical_schema_v1_1 set_iter graph_iter id swarm candidate store = Ok cold ∧
    StronglySorted earlier rs ∧
    (∀ r, r ∈ rs ↔ (∃ i, view source !! i = Some r) ∧ (from - hours * 3600 * 10 ^ 9 <= ns_of r <= from - 1)%N) ∧
    engine s = (engine_run (play_ops rs) (engine cold)).2 ∧
    identity s = identity cold ∧ receipt_store s = store ∧ last_step_emissions s = [].
Proof.
  intros Hsrc Hfrom Hw. unfold create_warm in Hw.
  apply rbind_Ok in Hw as (cold & Hcold & Hw). apply rbind_Ok in Hw as (rs & Hr & [= <-]).
  apply source_range_Ok in Hr as [Hsort Hin]; [|done].
  exists cold, rs. split; [done|]. split; [done|]. split.
  - intros r. rewrite Hin. unfold lookback_range. cbn [fst snd].
    replace (from - u64_saturating_mul (u64_saturating_mul hours 3600) 1000000000)%N
      with (from - hours * 3600 * 10 ^ 9)%N; [done|].
    unfold u64_saturating_mul, u64_max in *. lia.
  - unfold create_cold in Hcold. apply rbind_Ok in Hcold as (sch & _ & Hcold).
    apply rbind_Ok in Hcold as (act & _ & [= <-]). simpl. by rewrite feeds_run.
Qed.

End laws.

(** The replay engine sees what the live engine saw: for a receipt whose
    entries are readable, the two views agree in the kind, the reason, the rule,
    the delta and the times, and in the principal where the evidence names one;
    where it names none, the live engine is told the actor and the replay engine
    nobody. *)
Lemma replay_sees_live_view r :
  readable (Receipt.evidence r) →
  let live := EnforcementReceiptView.borrowed (build_view r) in
  let named := head (omap (text_of is_subject_key) (Receipt.evidence r)) in
  ReceiptView.principal_id live = Some (default (AgentId.to_string (Receipt.actor r)) named) ∧
  replay_view r = ReceiptView.mk (ReceiptView.action_kind live) named (ReceiptView.deny_reason live)
    (ReceiptView.forbid_rule_id live) (ReceiptView.occurred_at_unix_ns live)
    (ReceiptView.occurred_at_wall_clock live) (ReceiptView.reputation_delta live).
Proof.
  intros Hr live named. split; [exact (view_principal r)|].
  unfold replay_view, live, build_view. rewrite replayed_principal, scans_agree by done. done.
Qed.

(** A denied check is nobody's in a replay. *)
Lemma replayed_checks_name_nobody r o d :
  Receipt.evidence r = check_evidence o d → ReceiptView.principal_id (replay_view r) = None.
Proof.
  intros Hev. unfold replay_view. cbn [ReceiptView.principal_id]. rewrite replayed_principal, Hev.
  by rewrite check_evidence_names_nobody.
Qed.

(** ** A concrete session and the witnesses *)

Module SessionToy.
Import MerkleToy.
#[global] Instance time_ops : TimeOps := {|
  parse_rfc3339 s := Some (match parse_uint u64_max s with Ok x => Z.of_N x | Err _ => 0%Z end);
  parse_rfc3339_error _ := "parse error" |}.
Definition id : ReplaySessionId := ReplaySessionId.mk (replicate 16 Byte.x05).
Definition candidate : Constitution :=
  Constitution.mk (Hash.mk HashAlgorithm.Sha256 [Byte.x01]) (SpecVersion.mk "1.1.0") "1.1.0" "1" None swarm
    "permit(principal, action, resource);" EngineToy.config (Timestamp.mk "t" 0).
Definition cold : Result (ReplaySession (S:=MemoryStore)) ReplayError :=
  create_cold (Ok tt) elements map_to_list id swarm candidate MemoryStore.new.
Definition source : MemoryStore := PublishingReceiptStore.inner (EnforcementLoop.receipt_store (state LoopToy.w3)).
Definition warm : Result (ReplaySession (S:=MemoryStore)) ReplayError :=
  create_warm (S:=MemoryStore) (Src:=MemoryStore) (Ok tt) elements map_to_list id swarm candidate
    MemoryStore.new source 3600000000000 1.
Example both_start : (is_ok cold, is_ok warm) = (true, true).
Proof. vm_compute. reflexivity. Qed.
Definition no_session : ReplaySession (S:=MemoryStore) :=
  mkSession id swarm (sha256 []) "" Engine.fresh MemoryStore.new [].
Definition session : ReplaySession := match cold with Ok s => s | Err _ => no_session end.
Definition warm_session : ReplaySession := match warm with Ok s => s | Err _ => no_session end.
Definition window : ReplaySessionWindow :=
  ReplaySessionWindow.mk 0 10000000000 ["capability.check.deny"]%string.
Definition clock (i : nat) : nat → Timestamp := LoopToy.clock (5000000000 + N.of_nat i * 10).
Definition replayed := run_window CapToy.resolver CapToy.cp clock source window session.
Example window_totals :
  replayed.1 = Ok (mkWindowOutcome 2 1).
Proof. vm_compute. reflexivity. Qed.

(** A denial that names its subject, a receipt no rule watches, and what a
    session makes of a list of such receipts: the kinds it emits, each with the
    number of its predecessors. *)
Definition named (kind : string) (at_ns : N) : Receipt :=
  Receipt.mk (SpecVersion.mk "1.0.0") swarm (agent 1) kind CausalRef.empty
    [Evidence.new "subject_agent_id" "" (as_bytes "a")] "1" None (LoopToy.clock at_ns 0) SealStatus.unsealed [].
Definition chain (rs : list Receipt) : list (string * nat) :=
  let s := (play_all CapToy.resolver CapToy.cp clock rs (mkWindowOutcome 0 0) session).2 in
  (λ r, (Receipt.action_kind r, length (CausalRef.predecessors (Receipt.causal r)))) <$>
    sort_by_ns (MemoryStore.values (receipt_store s)).
Definition denials : list Receipt :=
  [named "capability.check.deny" 1000000000; named "capability.check.deny" 2000000000].
(** The coaching follows the detection it comes from, unless a receipt without
    effects was replayed in between. *)
Example chain_is_cut :
  (chain (denials ++ [named "agent.register" 4000000000]),
   chain (denials ++ [named "agent.register" 2500000000; named "agent.register" 4000000000]))
  = ([("enforcement.detect", 0); ("enforcement.coach", 1)],
     [("enforcement.detect", 0); ("enforcement.coach", 0)])%string.
Proof. vm_compute. reflexivity. Qed.
End SessionToy.

Lemma source_inv : store_inv SessionToy.source.
Proof.
  unfold SessionToy.source. apply PublishingReceiptStore.inner_inv.
  apply (inv_store (C:=LoopToy.Channel)).
  apply (loop_reachable_inv LoopToy.iter CapToy.resolver CapToy.cp MemoryStore.new EvaluatorToy.state).
  - exact inv_new.
  - reflexivity.
  - exact LoopToy.w3_reachable.
Qed.

Section witnesses.
Import SessionToy.

Lemma replay_window_exact_witness :
  ∃ rs effects ids,
    engine_run (play_ops rs) (engine session) = (effects, engine replayed.2) ∧
    gained ids (receipt_store session) (receipt_store replayed.2) ∧
    written_chain CapToy.cp session effects ids (receipt_store replayed.2) ∧
    length rs = 2 ∧ length effects = 1.
Proof.
  destruct (replay_window_exact CapToy.resolver CapToy.cp clock source window session (mkWindowOutcome 2 1)
    replayed.2) as (rs & effects & ids & _ & _ & Hrun & Hg & Hw & Hn & He).
  - exact inv_new.
  - exact source_inv.
  - vm_compute. reflexivity.
  - exists rs, effects, ids. unfold u64_max in *. simpl in Hn, He. split_and!; try done; lia.
Defined.

Lemma replay_standing_ignores_candidate_witness :
  let s' := (play_all CapToy.resolver CapToy.cp clock denials (mkWindowOutcome 0 0) session).2 in
  ∀ a, standing (engine s') a =
    foldl (λ st r, receipt_standing (replay_view r) a st) (standing (engine session) a) denials.
Proof.
  intros s' a.
  apply (replay_standing_ignores_candidate CapToy.resolver CapToy.cp clock denials (mkWindowOutcome 0 0)
           session (mkWindowOutcome 2 1) s' a).
  - exact inv_new.
  - vm_compute. reflexivity.
Defined.

Lemma warm_start_exact_witness :
  ∃ c rs, cold = Ok c ∧ engine warm_session = (engine_run (play_ops rs) (engine c)).2.
Proof.
  destruct (warm_start_exact (engine_api:=CedarToy.cedar) (S:=MemoryStore) (Src:=MemoryStore)
    (Ok tt : Result (Schema (Cedar:=CedarToy.cedar)) CedarPlusError) elements map_to_list id MerkleToy.swarm candidate MemoryStore.new source
    3600000000000%N 1%N warm_session) as (c & rs & Hc & _ & _ & He & _).
  - exact source_inv.
  - vm_compute. discriminate.
  - vm_compute. reflexivity.
  - exists c, rs. split; [exact Hc|exact He].
Defined.

Lemma replay_sees_live_view_witness :
  ReceiptView.principal_id (EnforcementReceiptView.borrowed (build_view (LoopToy.deny 1000000000)))
    = Some LoopToy.control_plane_id ∧
  ReceiptView.principal_id (replay_view (LoopToy.deny 1000000000)) = None.
Proof.
  destruct (replay_sees_live_view (LoopToy.deny 1000000000)) as [Hl Hr].
  - repeat constructor; intros _; eexists; vm_compute; reflexivity.
  - rewrite Hl, Hr. split; vm_compute; reflexivity.
Defined.
End witnesses.
