(* ===== verification/Status.v ===== *)
(** * [yutha-control-plane/src/grpc/error.rs], [grpc/constitution.rs]: gRPC statuses

    [tonic]'s [Status] as a code and a message, and the mapping of every
    library error to one.  [ErrorIntoStatus] is the trait of the source. *)

From S2P Require Import Prelude RustStd Core Crypto ReceiptTypes Passport Capability Envelope Registry CedarPlus.

(** The codes of gRPC the sources use. *)
Inductive Code :=
  InvalidArgument | NotFound | AlreadyExists | PermissionDenied | Unauthenticated | ResourceExhausted
| FailedPrecondition | Unimplemented | Internal | Unavailable | DeadlineExceeded.
#[global] Instance Code_eq_dec : EqDecision Code.
Proof. solve_decision. Defined.

Module Status.
Record Status := mk { code : Code; message : string }.
#[global] Instance Status_eq_dec : EqDecision Status.
Proof. solve_decision. Defined.
(** [Status::invalid_argument(..)] and the like. *)
Definition invalid_argument := mk InvalidArgument.
Definition not_found := mk NotFound.
Definition already_exists := mk AlreadyExists.
Definition permission_denied := mk PermissionDenied.
Definition unauthenticated := mk Unauthenticated.
Definition resource_exhausted := mk ResourceExhausted.
Definition failed_precondition := mk FailedPrecondition.
Definition unimplemented := mk Unimplemented.
Definition internal := mk Internal.
Definition unavailable := mk Unavailable.
Definition deadline_exceeded := mk DeadlineExceeded.
End Status.
Notation Status := Status.Status.

(* yutha-control-plane/src/grpc/error.rs:56-61 ErrorIntoStatus *)
Class ErrorIntoStatus (E : Type) := to_status : E → Status.

(* yutha-control-plane/src/grpc/error.rs:67-74 ErrorIntoStatus for CoreError *)
#[global] Instance core_status : ErrorIntoStatus CoreError :=
  λ e, Status.invalid_argument (CoreError.to_string e).

(* yutha-control-plane/src/grpc/error.rs:80-104 ErrorIntoStatus for ReceiptError *)
#[global] Instance receipt_status : ErrorIntoStatus ReceiptError := λ e,
  let text := ReceiptError.to_string e in
  match e with
  | ReceiptError.ContentAddressMismatch _ _ | ReceiptError.SignatureFailed _
  | ReceiptError.SignatureOrderInvalid _ | ReceiptError.MissingSignatureRole _
  | ReceiptError.AppendOnly => Status.failed_precondition text
  | ReceiptError.NotFound _ => Status.not_found text
  | ReceiptError.ActorNotResolvable _ => Status.unauthenticated text
  | ReceiptError.PassportResolver _ | ReceiptError.Backend _ | ReceiptError.Crypto _ => Status.internal text
  | ReceiptError.InvalidQuery _ | ReceiptError.BatchInvalid _ => Status.invalid_argument text
  | ReceiptError.Core c => to_status c
  end.

(* yutha-control-plane/src/grpc/error.rs:110-125 ErrorIntoStatus for PassportError *)
#[global] Instance passport_status : ErrorIntoStatus PassportError := λ e,
  let text := PassportError.to_string e in
  match e with
  | PassportError.SelfSignatureInvalid | PassportError.RotationContinuityMissing => Status.unauthenticated text
  | PassportError.MissingField _ => Status.invalid_argument text
  | PassportError.Expired => Status.failed_precondition text
  | PassportError.AlreadyRegistered _ => Status.already_exists text
  | PassportError.NotFound _ => Status.not_found text
  | PassportError.Backend _ | PassportError.Crypto _ | PassportError.Signer _ => Status.internal text
  | PassportError.Core c => to_status c
  end.

(* yutha-control-plane/src/grpc/error.rs:131-155 ErrorIntoStatus for CapabilityError *)
#[global] Instance capability_status : ErrorIntoStatus CapabilityError := λ e,
  let text := CapabilityError.to_string e in
  match e with
  | CapabilityError.IssuerSignatureInvalid => Status.unauthenticated text
  | CapabilityError.MissingField _ => Status.invalid_argument text
  | CapabilityError.OutOfValidityWindow | CapabilityError.ChainTooDeep _ _ => Status.failed_precondition text
  | CapabilityError.AttenuationBroadens _ | CapabilityError.Revoked
  | CapabilityError.SubjectQuarantined _ => Status.permission_denied text
  | CapabilityError.ParentNotFound _ => Status.not_found text
  | CapabilityError.Backend _ | CapabilityError.Crypto _ | CapabilityError.Signer _ => Status.internal text
  | CapabilityError.Core c => to_status c
  end.

(* yutha-control-plane/src/grpc/error.rs:161-174 ErrorIntoStatus for TransportError *)
#[global] Instance transport_status : ErrorIntoStatus TransportError := λ e,
  let text := TransportError.to_string e in
  match e with
  | TransportError.EnvelopeRejected _ => Status.invalid_argument text
  | TransportError.Delivery _ | TransportError.Backend _ | TransportError.Crypto _ => Status.internal text
  | TransportError.Timeout => Status.deadline_exceeded text
  | TransportError.Backpressure => Status.resource_exhausted text
  | TransportError.Receipt r => to_status r
  | TransportError.Core c => to_status c
  end.

(* yutha-control-plane/src/grpc/error.rs:180-204 ErrorIntoStatus for RegistryError *)
#[global] Instance registry_status : ErrorIntoStatus RegistryError := λ e,
  let text := RegistryError.to_string e in
  match e with
  | RegistryError.TopologyInconsistent | RegistryError.Backend _ => Status.internal text
  | RegistryError.AdmissionDenied _ | RegistryError.AttestationDenied _ _ => Status.permission_denied text
  | RegistryError.SybilCheckFailed _ | RegistryError.SwarmMismatch _ _
  | RegistryError.TopologyImmutable => Status.failed_precondition text
  | RegistryError.AttestationUnavailable _ _ => Status.unavailable text
  | RegistryError.Passport p => to_status p
  | RegistryError.Receipt r => to_status r
  | RegistryError.Core c => to_status c
  end.

(* yutha-control-plane/src/grpc/error.rs:218-220 missing_field *)
Definition missing_field (name : string) : Status :=
  Status.invalid_argument ("required field missing: " +:+ name).

(* yutha-control-plane/src/grpc/constitution.rs:748-781 cedar_plus_to_status *)
Definition cedar_plus_to_status (e : CedarPlusError) : Status :=
  match e with
  | CedarPlusError.Parse msg => Status.invalid_argument ("constitution parse: " +:+ msg)
  | CedarPlusError.SchemaVersionUnsupported v =>
      Status.failed_precondition ("schema_version " +:+ v +:+ " not supported")
  | CedarPlusError.InvalidScoringRule rule detail =>
      Status.invalid_argument ("scoring rule " +:+ rule +:+ ": " +:+ detail)
  | CedarPlusError.InvalidProcedure procedure detail =>
      Status.invalid_argument ("procedure " +:+ procedure +:+ ": " +:+ detail)
  | CedarPlusError.InvalidEnforcementRule rule detail =>
      Status.invalid_argument ("enforcement rule " +:+ rule +:+ ": " +:+ detail)
  | CedarPlusError.LoadBoundExceeded reason =>
      Status.failed_precondition ("load-time bound exceeded: " +:+ LoadBoundReason.to_string reason)
  | CedarPlusError.RequestShapeInvalid msg | CedarPlusError.EntityUnresolved msg =>
      Status.invalid_argument msg
  | CedarPlusError.ConstitutionUnresolved msg => Status.failed_precondition msg
  | CedarPlusError.EvaluatorInternalError msg | CedarPlusError.Infrastructure msg => Status.internal msg
  | CedarPlusError.EvaluationBoundExceeded reason =>
      Status.resource_exhausted ("evaluation bound exceeded: " +:+ EvalBoundReason.to_string reason)
  | CedarPlusError.ProcedureTransitionAmbiguous instance _ =>
      Status.internal ("procedure transition ambiguous on instance " +:+ instance)
  end.

(** What ends a handler early: a status for the client, or a panic. *)
Inductive Failure := Refused (st : Status) | Panicked (msg : string).
Definition refusing {S A} (m : M S Status A) : M S Failure A := m_map_err Refused m.
