(* ===== verification/Auth.v ===== *)
(** * [yutha-control-plane/src/auth.rs]: bearer tokens

    The [authorization] header, the agent and operator tokens it carries, and
    the three guards of the services: an agent, an agent that is not revoked,
    an operator.  Header text, hexadecimal decoding and the decoding of
    messages belong to third-party crates and are interfaces. *)

From S2P Require Import Prelude RustStd Core CoreProto Crypto ReceiptTypes ReceiptProto Status.

(** The text of a header value, if its bytes are printable ([http]);
    [hex::decode] with its error's text; [prost]'s [Message::decode]. *)
Class HeaderOps := { header_to_str : bytes → option string }.
Definition header_char (c : ascii) : bool := bool_decide (c = " "%char) || visible c.
Class HeaderLaws `{HeaderOps} : Prop := {
  header_to_str_as_bytes s : str_forall header_char s = true → header_to_str (as_bytes s) = Some s }.
Class HexOps := { hex_decode : string → Result bytes string }.
Class HexLaws `{HexOps} : Prop := { hex_decode_hex b : hex_decode (hex b) = Ok b }.
Class Decode (P : Type) := decode : bytes → Result P string.
Arguments decode {P _} _.
(** The message with every field unset. *)
Class MessageDefault (P : Type) := message_default : P.
(** Decoding undoes encoding; no bytes are the default message. *)
Class DecodeLaws (P : Type) `{Encode P, Decode P, MessageDefault P} : Prop := {
  decode_encode (p : P) : decode (encode_to_vec p) = Ok p;
  decode_nil : decode [] = Ok (message_default : P) }.

(** A [tonic::Request]: its [authorization] metadata and its message. *)
Record Request (T : Type) := mkRequest { authorization : option bytes; into_inner : T }.
Arguments mkRequest {T} _ _.
Arguments authorization {T} _.
Arguments into_inner {T} _.

(** The two token messages of [spec/control-plane/v1.proto]. *)
Module cp_proto.
Record AgentBearerToken := mkAgentBearerToken {
  Agent_agent_id : option proto.AgentId; Agent_swarm_id : option proto.SwarmId;
  Agent_issued_at : option proto.Timestamp; Agent_expires_at : option proto.Timestamp;
  Agent_nonce : bytes; Agent_extensions : option rproto.Extensions;
  Agent_signature : option proto.Signature }.
Record OperatorBearerToken := mkOperatorBearerToken {
  Operator_operator_id : string; Operator_swarm_id : option proto.SwarmId;
  Operator_issued_at : option proto.Timestamp; Operator_expires_at : option proto.Timestamp;
  Operator_nonce : bytes; Operator_extensions : option rproto.Extensions;
  Operator_signature : option proto.Signature }.
#[global] Instance agent_token_default : MessageDefault AgentBearerToken :=
  mkAgentBearerToken None None None None [] None None.
#[global] Instance operator_token_default : MessageDefault OperatorBearerToken :=
  mkOperatorBearerToken "" None None None [] None None.
End cp_proto.

(* yutha-control-plane/src/auth.rs:64-67 BearerVariant *)
Inductive BearerVariant := AgentBearer | OperatorBearer.
#[global] Instance BearerVariant_eq_dec : EqDecision BearerVariant.
Proof. solve_decision. Defined.

Notation unauthenticated := Status.unauthenticated (only parsing).

(* yutha-control-plane/src/auth.rs:83-98 parse_bearer_header *)
Definition parse_bearer_header (header : string) : Result (BearerVariant * string) Status :=
  let found := match strip_prefix "bearer " header with
               | Some rest => Some rest
               | None => strip_prefix "Bearer " header
               end in
  let? rest := ok_or found (unauthenticated "authorization must start with 'bearer '") in
  let rest := trim rest in
  match strip_prefix "agent " rest with
  | Some h => Ok (AgentBearer, trim h)
  | None =>
      match strip_prefix "operator " rest with
      | Some h => Ok (OperatorBearer, trim h)
      | None =>
          Err (unauthenticated
            "authorization must specify variant: 'bearer agent <hex>' or 'bearer operator <hex>'")
      end
  end.

Module AuthContext.
(* yutha-control-plane/src/auth.rs:113-126 AuthContext *)
Record AuthContext := mk { agent_id : AgentId; swarm_id : SwarmId; expires_at : Timestamp }.
End AuthContext.
Notation AuthContext := AuthContext.AuthContext.
Module OperatorAuthContext.
(* yutha-control-plane/src/auth.rs:294-304 OperatorAuthContext *)
Record OperatorAuthContext := mk { operator_id : string; swarm_id : SwarmId; expires_at : Timestamp }.
End OperatorAuthContext.
Notation OperatorAuthContext := OperatorAuthContext.OperatorAuthContext.

Section auth.
Context `{TimeOps, CryptoOps, HeaderOps, HexOps}.
Context `{Encode cp_proto.AgentBearerToken, Encode cp_proto.OperatorBearerToken}.
Context `{Decode cp_proto.AgentBearerToken, Decode cp_proto.OperatorBearerToken}.
Context {T : Type}.
Implicit Types (request : Request T) (resolver : PassportResolver) (now : Timestamp).

(** The header of a request, as both guards read it. *)
(* yutha-control-plane/src/auth.rs:184-191 require_bearer_auth (header) *)
Definition bearer_of request : Result (BearerVariant * string) Status :=
  let? header_value := ok_or (authorization request) (unauthenticated "missing authorization metadata") in
  let? header_str := ok_or (header_to_str header_value)
                       (unauthenticated "authorization metadata is not valid ASCII") in
  parse_bearer_header header_str.

(* yutha-control-plane/src/auth.rs:199-200 require_bearer_auth (hex) *)
Definition token_bytes (hex_part : string) : Result bytes Status :=
  map_err (λ e, unauthenticated ("authorization hex decode failed: " +:+ e)) (hex_decode hex_part).

(** A required field of a token, converted. *)
Definition field {P A} `{TryFromProto P A CoreError} (token name : string) (o : option P) : Result A Status :=
  let? p := ok_or o (unauthenticated (token +:+ " missing " +:+ name)) in
  map_err (λ e, unauthenticated (token +:+ " " +:+ name +:+ " invalid: " +:+ CoreError.to_string e)) (try_from p).

(* yutha-control-plane/src/auth.rs:249-251 require_bearer_auth (expired) *)
Definition token_expired now (expires_at : Timestamp) : bool :=
  Timestamp.wall_at_or_after now expires_at
  || bool_decide (Timestamp.parsed_wall_clock now = None)
  || bool_decide (Timestamp.parsed_wall_clock expires_at = None).

(* yutha-control-plane/src/auth.rs:274-277 require_bearer_auth (canonical) *)
Definition agent_canonical (token : cp_proto.AgentBearerToken) : bytes :=
  encode_to_vec (cp_proto.mkAgentBearerToken (cp_proto.Agent_agent_id token) (cp_proto.Agent_swarm_id token)
    (cp_proto.Agent_issued_at token) (cp_proto.Agent_expires_at token) (cp_proto.Agent_nonce token) None None).
(* yutha-control-plane/src/auth.rs:469-472 require_operator_bearer_auth (canonical) *)
Definition operator_canonical (token : cp_proto.OperatorBearerToken) : bytes :=
  encode_to_vec (cp_proto.mkOperatorBearerToken (cp_proto.Operator_operator_id token)
    (cp_proto.Operator_swarm_id token) (cp_proto.Operator_issued_at token)
    (cp_proto.Operator_expires_at token) (cp_proto.Operator_nonce token) None None).

(* yutha-control-plane/src/auth.rs:178-287 require_bearer_auth *)
Definition require_bearer_auth request resolver (expected_swarm : SwarmId) now : Result AuthContext Status :=
  let? bearer := bearer_of request in
  if negb (bool_decide (bearer.1 = AgentBearer)) then
    Err (unauthenticated "this RPC requires an agent bearer; got operator variant")
  else
    let? raw := token_bytes bearer.2 in
    let? token := map_err (λ e, unauthenticated ("bearer token decode failed: " +:+ e)) (decode raw) in
    let? agent_id := field "bearer token" "agent_id" (cp_proto.Agent_agent_id token) in
    let? swarm_id := field "bearer token" "swarm_id" (cp_proto.Agent_swarm_id token) in
    let? expires_at := field "bearer token" "expires_at" (cp_proto.Agent_expires_at token) in
    let? signature := field "bearer token" "signature" (cp_proto.Agent_signature token) in
    if negb (bool_decide (swarm_id = expected_swarm)) then
      Err (unauthenticated "bearer token swarm_id does not match this control plane")
    else if token_expired now expires_at then Err (unauthenticated "bearer token expired")
    else
      let? found := map_err (λ e, Status.internal ("passport resolver error: " +:+ ReceiptError.to_string e))
                      (PassportResolver.resolve_actor resolver agent_id) in
      let? public_key := ok_or found (unauthenticated
        ("bearer token claims agent " +:+ AgentId.to_string agent_id +:+ " but agent is not registered")) in
      let? _ := map_err (λ e, unauthenticated
                  ("bearer token signature verification failed: " +:+ CryptoError.to_string e))
                  (verify public_key (agent_canonical token) signature) in
      Ok (AuthContext.mk agent_id swarm_id expires_at).

(* yutha-control-plane/src/auth.rs:328-339 peek_agent_bearer_agent_id *)
Definition peek_agent_bearer_agent_id request : option AgentId :=
  header_value ← authorization request;
  header_str ← header_to_str header_value;
  bearer ← result_ok (parse_bearer_header header_str);
  if negb (bool_decide (bearer.1 = AgentBearer)) then None
  else
    raw ← result_ok (hex_decode bearer.2);
    token ← result_ok (decode raw);
    agent_id_proto ← cp_proto.Agent_agent_id token;
    result_ok (try_from (E:=CoreError) agent_id_proto).

(** [revoked] is the set of revoked agents of the control plane. *)
(* yutha-control-plane/src/auth.rs:363-388 require_active_bearer_auth *)
Definition require_active_bearer_auth request (revoked : gset AgentId) resolver (expected_swarm : SwarmId) now
  : Result AuthContext Status :=
  let claimed := peek_agent_bearer_agent_id request in
  if match claimed with Some claimed_id => bool_decide (claimed_id ∈ revoked) | None => false end
  then Err (unauthenticated "agent revoked")
  else
    let? auth := require_bearer_auth request resolver expected_swarm now in
    if bool_decide (AuthContext.agent_id auth ∈ revoked) then Err (unauthenticated "agent revoked")
    else Ok auth.

(* yutha-control-plane/src/auth.rs:403-482 require_operator_bearer_auth *)
Definition require_operator_bearer_auth request (operator_public_key : option PublicKey)
  (expected_swarm : SwarmId) now : Result OperatorAuthContext Status :=
  let? operator_pk := ok_or operator_public_key
                        (Status.failed_precondition "operator credentials not enabled") in
  let? bearer := bearer_of request in
  if negb (bool_decide (bearer.1 = OperatorBearer)) then
    Err (unauthenticated "this RPC requires an operator bearer; got agent variant")
  else
    let? raw := token_bytes bearer.2 in
    let? token := map_err (λ e, unauthenticated ("operator token decode failed: " +:+ e)) (decode raw) in
    let? swarm_id := field "operator token" "swarm_id" (cp_proto.Operator_swarm_id token) in
    let? expires_at := field "operator token" "expires_at" (cp_proto.Operator_expires_at token) in
    let? signature := field "operator token" "signature" (cp_proto.Operator_signature token) in
    if negb (bool_decide (swarm_id = expected_swarm)) then
      Err (unauthenticated "operator token swarm_id does not match this control plane")
    else if token_expired now expires_at then Err (unauthenticated "operator token expired")
    else
      let? _ := map_err (λ e, unauthenticated
                  ("operator token signature verification failed: " +:+ CryptoError.to_string e))
                  (verify operator_pk (operator_canonical token) signature) in
      Ok (OperatorAuthContext.mk (cp_proto.Operator_operator_id token) swarm_id expires_at).

(** ** What the guards accept *)

(** The token a request carries in the given form. *)
Definition presents {P} `{Decode P} (v : BearerVariant) request (token : P) : Prop :=
  ∃ text raw, bearer_of request = Ok (v, text) ∧ hex_decode text = Ok raw ∧ decode raw = Ok token.

(** A field that is there and converts. *)
Definition carries {P A} `{TryFromProto P A CoreError} (o : option P) (a : A) : Prop :=
  ∃ p, o = Some p ∧ try_from (E:=CoreError) p = Ok a.

(** Both clocks parse and the token has not run out. *)
Definition unexpired now (expires_at : Timestamp) : Prop :=
  ∃ t u, Timestamp.parsed_wall_clock now = Some t ∧ Timestamp.parsed_wall_clock expires_at = Some u ∧ (t < u)%Z.

Lemma token_expired_false now e : token_expired now e = false ↔ unexpired now e.
Proof.
  unfold token_expired, unexpired, Timestamp.wall_at_or_after.
  destruct (Timestamp.parsed_wall_clock now) as [t|], (Timestamp.parsed_wall_clock e) as [u|];
    rewrite ?orb_false_iff, ?bool_decide_eq_false, ?Z.leb_gt; naive_solver.
Qed.

Lemma field_Ok {P A} `{TryFromProto P A CoreError} token name (o : option P) (a : A) :
  field token name o = Ok a ↔ carries o a.
Proof.
  unfold field, carries. rewrite rbind_Ok. setoid_rewrite ok_or_Ok. by setoid_rewrite map_err_Ok.
Qed.

Definition agent_token_accepted request resolver (swarm : SwarmId) now (auth : AuthContext) : Prop :=
  ∃ (token : cp_proto.AgentBearerToken) sig pk,
    presents AgentBearer request token ∧
    carries (cp_proto.Agent_agent_id token) (AuthContext.agent_id auth) ∧
    carries (cp_proto.Agent_swarm_id token) swarm ∧
    carries (cp_proto.Agent_expires_at token) (AuthContext.expires_at auth) ∧
    carries (cp_proto.Agent_signature token) sig ∧
    AuthContext.swarm_id auth = swarm ∧ unexpired now (AuthContext.expires_at auth) ∧
    PassportResolver.resolve_actor resolver (AuthContext.agent_id auth) = Ok (Some pk) ∧
    signature_valid pk (agent_canonical token) sig.

Definition operator_token_accepted request (operator_public_key : option PublicKey) (swarm : SwarmId) now
  (auth : OperatorAuthContext) : Prop :=
  ∃ (token : cp_proto.OperatorBearerToken) sig pk,
    operator_public_key = Some pk ∧ presents OperatorBearer request token ∧
    cp_proto.Operator_operator_id token = OperatorAuthContext.operator_id auth ∧
    carries (cp_proto.Operator_swarm_id token) swarm ∧
    carries (cp_proto.Operator_expires_at token) (OperatorAuthContext.expires_at auth) ∧
    carries (cp_proto.Operator_signature token) sig ∧
    OperatorAuthContext.swarm_id auth = swarm ∧ unexpired now (OperatorAuthContext.expires_at auth) ∧
    signature_valid pk (operator_canonical token) sig.

Lemma require_bearer_Ok request resolver swarm now auth :
  require_bearer_auth request resolver swarm now = Ok auth ↔
  agent_token_accepted request resolver swarm now auth.
Proof.
  unfold require_bearer_auth, agent_token_accepted, presents, token_bytes. split.
  - intros Hr. inv_ok Hr. destruct x as [v text]. simpl in *.
    apply negb_false_iff, bool_decide_eq_true in Hb, Hb0. subst.
    repeat match goal with X : map_err _ _ = Ok _ |- _ => apply map_err_Ok in X end.
    repeat match goal with X : ok_or _ _ = Ok _ |- _ => apply ok_or_Ok in X end.
    repeat match goal with X : field _ _ _ = Ok _ |- _ => apply field_Ok in X end.
    subst. destruct x6. exists x1, x5, x7. apply token_expired_false in Hb1. apply verify_Ok in Hx7.
    refine (conj _ (conj _ _)); [by exists text, x0|done|done].
  - intros (token & sig & pk & (text & raw & -> & Hx & Hd) & Ha & Hs & He & Hg & <- & Hu & Hres & Hv).
    cbn [rbind fst snd]. rewrite bool_decide_true by done. cbn [negb]. rewrite Hx. cbn [rbind map_err].
    rewrite Hd. cbn [rbind map_err].
    rewrite (proj2 (field_Ok _ _ _ _) Ha), (proj2 (field_Ok _ _ _ _) Hs), (proj2 (field_Ok _ _ _ _) He),
      (proj2 (field_Ok _ _ _ _) Hg). cbn [rbind].
    rewrite bool_decide_true by done. cbn [negb]. rewrite (proj2 (token_expired_false _ _) Hu), Hres.
    cbn [rbind map_err ok_or]. rewrite (proj2 (verify_Ok _ _ _) Hv). by destruct auth.
Qed.

Lemma require_operator_Ok request key swarm now auth :
  require_operator_bearer_auth request key swarm now = Ok auth ↔
  operator_token_accepted request key swarm now auth.
Proof.
  unfold require_operator_bearer_auth, operator_token_accepted, presents, token_bytes. split.
  - intros Hr. inv_ok Hr. destruct x0 as [v text]. simpl in *.
    apply negb_false_iff, bool_decide_eq_true in Hb, Hb0. subst.
    repeat match goal with X : map_err _ _ = Ok _ |- _ => apply map_err_Ok in X end.
    repeat match goal with X : field _ _ _ = Ok _ |- _ => apply field_Ok in X end.
    subst. eexists _, _, _. apply token_expired_false in Hb1.
    match goal with X : verify _ _ _ = Ok ?u |- _ => destruct u; apply verify_Ok in X end.
    refine (conj eq_refl (conj _ _)); [by eauto|done].
  - intros (token & sig & pk & -> & (text & raw & -> & Hx & Hd) & Ho & Hs & He & Hg & <- & Hu & Hv).
    cbn [rbind ok_or fst snd]. rewrite bool_decide_true by done. cbn [negb]. rewrite Hx. cbn [rbind map_err].
    rewrite Hd. cbn [rbind map_err].
    rewrite (proj2 (field_Ok _ _ _ _) Hs), (proj2 (field_Ok _ _ _ _) He), (proj2 (field_Ok _ _ _ _) Hg). cbn [rbind].
    rewrite bool_decide_true by done. cbn [negb]. rewrite (proj2 (token_expired_false _ _) Hu).
    rewrite (proj2 (verify_Ok _ _ _) Hv), Ho. by destruct auth.
Qed.

(** The peek sees the agent the full check would accept. *)
Lemma peek_accepted request resolver swarm now auth :
  require_bearer_auth request resolver swarm now = Ok auth →
  peek_agent_bearer_agent_id request = Some (AuthContext.agent_id auth).
Proof.
  intros (token & sig & pk & (text & raw & Hb & Hx & Hd) & (p & Ha & Hp) & _)%require_bearer_Ok.
  unfold bearer_of in Hb. inv_ok Hb. unfold peek_agent_bearer_agent_id. rewrite Hx0. simpl. rewrite Hx1. simpl.
  rewrite Hb. simpl. rewrite Hx. simpl. rewrite Hd. simpl. rewrite Ha. simpl. by rewrite Hp.
Qed.

Lemma require_active_Ok request revoked resolver swarm now auth :
  require_active_bearer_auth request revoked resolver swarm now = Ok auth ↔
  agent_token_accepted request resolver swarm now auth ∧ AuthContext.agent_id auth ∉ revoked.
Proof.
  rewrite <- require_bearer_Ok. unfold require_active_bearer_auth.
  destruct (require_bearer_auth request resolver swarm now) as [auth'|e] eqn:Hr.
  - rewrite (peek_accepted _ _ _ _ _ Hr). cbn [rbind]. destruct (bool_decide _) eqn:Hb.
    + apply bool_decide_eq_true in Hb. split; [done|]. by intros [[= ->] ?].
    + apply bool_decide_eq_false in Hb. naive_solver.
  - cbn [rbind]. destruct (match _ with Some _ => _ | None => _ end); split; (done || by intros [? _]).
Qed.

(** No request passes both guards. *)
Lemma one_bearer_one_role request resolver revoked key swarm swarm' now now' auth op :
  require_active_bearer_auth request revoked resolver swarm now = Ok auth →
  require_operator_bearer_auth request key swarm' now' = Ok op → False.
Proof.
  intros [(? & ? & ? & (? & ? & Ha & _) & _) _]%require_active_Ok (? & ? & ? & _ & (? & ? & Ho & _) & _)%require_operator_Ok.
  congruence.
Qed.

(** [C28] The guards of the services, exactly.  An agent's request passes iff its
    header carries an agent token that decodes, names this swarm, has not run
    out on clocks that parse, and is signed by the key the resolver has for the
    named agent, who is not revoked; an operator's iff it carries an operator
    token for this swarm signed by the configured key.  No request passes both,
    and a token that merely names a revoked agent is refused as revoked. *)
Theorem bearer_auth_exact request revoked resolver key swarm now :
  (∀ auth, require_active_bearer_auth request revoked resolver swarm now = Ok auth ↔
     agent_token_accepted request resolver swarm now auth ∧ AuthContext.agent_id auth ∉ revoked) ∧
  (∀ op, require_operator_bearer_auth request key swarm now = Ok op ↔
     operator_token_accepted request key swarm now op) ∧
  ¬ (is_ok (require_active_bearer_auth request revoked resolver swarm now) = true ∧
     is_ok (require_operator_bearer_auth request key swarm now) = true) ∧
  (∀ a, peek_agent_bearer_agent_id request = Some a → a ∈ revoked →
     require_active_bearer_auth request revoked resolver swarm now = Err (unauthenticated "agent revoked")).
Proof.
  refine (conj (λ auth, require_active_Ok _ _ _ _ _ _) (conj (λ op, require_operator_Ok _ _ _ _ _) (conj _ _))).
  - intros [Ha Ho]. destruct (require_active_bearer_auth _ _ _ _ _) eqn:Ea; [|done].
    destruct (require_operator_bearer_auth _ _ _ _) eqn:Eo; [|done]. by eapply one_bearer_one_role.
  - intros a Hp Hr. unfold require_active_bearer_auth. by rewrite Hp, bool_decide_true.
Qed.

(** The header a client sends with a token's bytes. *)
Definition variant_word (v : BearerVariant) : string :=
  match v with AgentBearer => "agent" | OperatorBearer => "operator" end.
Definition bearer_text (v : BearerVariant) (token_hex : string) : string :=
  "bearer " +:+ variant_word v +:+ " " +:+ token_hex.

Lemma parse_bearer_text v b : b ≠ [] → parse_bearer_header (bearer_text v (hex b)) = Ok (v, hex b).
Proof.
  intros Hb. destruct (str_forall_last visible (hex b) (hex_visible b)) as (t & d & Ht & Hd).
  { destruct b; [done|]. by intros ?%(f_equal String.length). }
  unfold parse_bearer_header, bearer_text. set (rest := (variant_word v +:+ " " +:+ hex b)%string).
  change (strip_prefix "bearer " ("bearer " +:+ rest)) with (Some rest). cbn [ok_or rbind].
  assert (trim rest = rest) as ->.
  { subst rest. destruct v.
    - exact (trim_visible "a" ("gent " +:+ hex b) d ("agent " +:+ t) ltac:(by rewrite Ht, str_app_assoc) eq_refl Hd).
    - exact (trim_visible "o" ("perator " +:+ hex b) d ("operator " +:+ t) ltac:(by rewrite Ht, str_app_assoc) eq_refl Hd). }
  subst rest. destruct v; cbv [variant_word].
  - change (strip_prefix "agent " _) with (Some (hex b)). cbv iota beta.
    by rewrite trim_all_visible by apply hex_visible.
  - change (strip_prefix "agent " _) with (@None string).
    change (strip_prefix "operator " _) with (Some (hex b)). cbv iota beta.
    by rewrite trim_all_visible by apply hex_visible.
Qed.

Lemma str_forall_mono (p q : ascii → bool) s :
  (∀ c, p c = true → q c = true) → str_forall p s = true → str_forall q s = true.
Proof. intros Hpq. induction s as [|c s IH]; [done|]. simpl. rewrite !andb_true_iff. naive_solver. Qed.

(** What a client sends arrives. *)
Lemma presents_sent {P} `{DecodeLaws P} `{!HeaderLaws, !HexLaws} v (token : P) (body : T) :
  token ≠ message_default →
  presents v (mkRequest (Some (as_bytes (bearer_text v (hex (encode_to_vec token))))) body) token.
Proof.
  intros Hne. assert (encode_to_vec token ≠ []) as Hb.
  { intros Henc. pose proof (decode_encode token) as Hd. rewrite Henc, decode_nil in Hd. congruence. }
  exists (hex (encode_to_vec token)), (encode_to_vec token).
  rewrite hex_decode_hex, decode_encode. split; [|done]. unfold bearer_of. simpl.
  rewrite header_to_str_as_bytes; [by apply parse_bearer_text|].
  unfold bearer_text. rewrite !str_forall_app.
  rewrite (str_forall_mono visible header_char (hex _)); [by destruct v| |apply hex_visible].
  intros c Hc. unfold header_char. by rewrite Hc, orb_true_r.
Qed.
End auth.

(** ** A toy codec, for the witnesses *)

Module CodecToy.
(** A number as its bits, the first bit first. *)
Fixpoint bits (p : positive) : bytes :=
  match p with xH => [Byte.x02] | xO p => Byte.x00 :: bits p | xI p => Byte.x01 :: bits p end.
Fixpoint of_bits (l : bytes) : positive :=
  match l with Byte.x00 :: l => xO (of_bits l) | Byte.x01 :: l => xI (of_bits l) | _ => xH end.
Lemma of_bits_bits p : of_bits (bits p) = p.
Proof. induction p as [p IH|p IH|]; simpl; by rewrite ?IH. Qed.

Section codec.
Context {P} `{Countable P, MessageDefault P}.
#[global] Instance encode_message : Encode P := λ p,
  if decide (p = message_default) then [] else bits (countable.encode p).
#[global] Instance decode_message : Decode P := λ l,
  match l with
  | [] => Ok message_default
  | _ => ok_or (countable.decode (of_bits l)) "truncated"%string
  end.
#[global] Instance message_laws : DecodeLaws P.
Proof.
  split; [|done]. intros p. unfold encode_to_vec, encode_message, decode, decode_message.
  destruct (decide (p = message_default)) as [->|]; [done|].
  destruct (bits (countable.encode p)) as [|b l] eqn:Hb; [by destruct (countable.encode p)|].
  by rewrite <- Hb, of_bits_bits, countable.decode_encode.
Qed.
End codec.

Definition extensions_key (e : rproto.Extensions) : gmap string (string * bytes) :=
  (λ a, (rproto.Any_type_url a, rproto.Any_value a)) <$> rproto.Extensions_entries e.
Definition extensions_of (m : gmap string (string * bytes)) : rproto.Extensions :=
  rproto.mkExtensions ((λ p : string * bytes, rproto.mkAny p.1 p.2) <$> m).
Lemma extensions_of_key e : extensions_of (extensions_key e) = e.
Proof.
  destruct e as [m]. unfold extensions_of, extensions_key. simpl. f_equal. rewrite <- map_fmap_compose.
  transitivity (id <$> m); [|apply map_fmap_id]. apply map_fmap_ext. by intros ? [] _.
Qed.
#[global] Instance agent_id_dec : EqDecision proto.AgentId. Proof. solve_decision. Defined.
#[global] Instance agent_id_countable : Countable proto.AgentId :=
  inj_countable' proto.AgentId_value proto.mkAgentId ltac:(by intros []).
#[global] Instance swarm_id_dec : EqDecision proto.SwarmId. Proof. solve_decision. Defined.
#[global] Instance swarm_id_countable : Countable proto.SwarmId :=
  inj_countable' proto.SwarmId_value proto.mkSwarmId ltac:(by intros []).
#[global] Instance timestamp_dec : EqDecision proto.Timestamp. Proof. solve_decision. Defined.
#[global] Instance timestamp_countable : Countable proto.Timestamp :=
  inj_countable' (λ t, (proto.Timestamp_wall_clock t, proto.Timestamp_monotonic_ns t))
    (λ p, proto.mkTimestamp p.1 p.2) ltac:(by intros []).
#[global] Instance signature_dec : EqDecision proto.Signature. Proof. solve_decision. Defined.
#[global] Instance signature_countable : Countable proto.Signature :=
  inj_countable' (λ s, (proto.Signature_algorithm s, proto.Signature_value s, proto.Signature_key_fingerprint s))
    (λ p, proto.mkSignature p.1.1 p.1.2 p.2) ltac:(by intros []).
#[global] Instance any_dec : EqDecision rproto.Any. Proof. solve_decision. Defined.
#[global] Instance extensions_dec : EqDecision rproto.Extensions. Proof. solve_decision. Defined.
#[global] Instance extensions_countable : Countable rproto.Extensions :=
  inj_countable' extensions_key extensions_of extensions_of_key.
#[global] Instance agent_token_dec : EqDecision cp_proto.AgentBearerToken. Proof. solve_decision. Defined.
#[global] Instance agent_token_countable : Countable cp_proto.AgentBearerToken :=
  inj_countable' (λ t, (cp_proto.Agent_agent_id t, cp_proto.Agent_swarm_id t, cp_proto.Agent_issued_at t,
      cp_proto.Agent_expires_at t, cp_proto.Agent_nonce t, cp_proto.Agent_extensions t, cp_proto.Agent_signature t))
    (λ '(a, s, i, e, n, x, g), cp_proto.mkAgentBearerToken a s i e n x g) ltac:(by intros []).
#[global] Instance operator_token_dec : EqDecision cp_proto.OperatorBearerToken. Proof. solve_decision. Defined.
#[global] Instance operator_token_countable : Countable cp_proto.OperatorBearerToken :=
  inj_countable' (λ t, (cp_proto.Operator_operator_id t, cp_proto.Operator_swarm_id t,
      cp_proto.Operator_issued_at t, cp_proto.Operator_expires_at t, cp_proto.Operator_nonce t,
      cp_proto.Operator_extensions t, cp_proto.Operator_signature t))
    (λ '(o, s, i, e, n, x, g), cp_proto.mkOperatorBearerToken o s i e n x g) ltac:(by intros []).

(** Hexadecimal of either case. *)
Definition nibble (c : ascii) : option N :=
  let n := N_of_ascii c in
  if is_digit c then Some (n - 48)%N
  else if (97 <=? n)%N && (n <=? 102)%N then Some (n - 87)%N
  else if (65 <=? n)%N && (n <=? 70)%N then Some (n - 55)%N else None.
Fixpoint unhex (s : string) : option bytes :=
  match s with
  | EmptyString => Some []
  | String c (String d s) => x ← nibble c; y ← nibble d; l ← unhex s; Some (byte_of (16 * x + y) :: l)
  | _ => None
  end.
#[global] Instance hex_ops : HexOps := {| hex_decode s := ok_or (unhex s) "invalid hex"%string |}.
#[global] Instance hex_laws : HexLaws.
Proof.
  split. intros b. unfold hex_decode, hex_ops. enough (unhex (hex b) = Some b) as Hu by by rewrite Hu.
  induction b as [|x b IH]; [done|]. change (hex (x :: b)) with (hex_byte x +:+ hex b)%string.
  change (unhex (hex_byte x +:+ hex b)) with
    (y ← nibble (hex_digit (Byte.to_N x / 16)); z ← nibble (hex_digit (Byte.to_N x mod 16));
     l ← unhex (hex b); Some (byte_of (16 * y + z) :: l)).
  rewrite IH. by destruct x.
Qed.
#[global] Instance header_ops : HeaderOps := {| header_to_str b :=
  let s := String.string_of_list_byte b in if str_forall header_char s then Some s else None |}.
#[global] Instance header_laws : HeaderLaws.
Proof.
  split. intros s Hs. simpl. unfold as_bytes. by rewrite String.string_of_list_byte_of_string, Hs.
Qed.
End CodecToy.
