(* ===== verification/Seed.v ===== *)
(** * Identities derived from a seed, and the tokens minted from them

    [yutha-control-plane/src/main.rs] derives its bootstrap identity from a
    seed; [yutha-ops/src/main.rs] derives the agent's and the operator's keys
    from the same seed and mints their bearer tokens. *)

From S2P Require Import Prelude RustStd Core CoreProto Crypto ReceiptTypes ReceiptProto Enforcement Status Auth.

(** [time]'s dates denote instants; parsing, adding and formatting agree on them. *)
Class ClockLaws `{TimeOps, OffsetDateTimeOps} := {
  odt_unix_ns : odt → Z;
  odt_parse_spec s : odt_unix_ns <$> odt_parse s = parse_rfc3339 s;
  odt_checked_add_spec t n u : odt_checked_add t n = Some u → odt_unix_ns u = (odt_unix_ns t + n)%Z;
  odt_format_spec t s : odt_format t = Some s → parse_rfc3339 s = Some (odt_unix_ns t)
}.

Section seed.
Context `{TimeOps, OffsetDateTimeOps, CryptoOps, HeaderOps, HexOps}.
Context `{Encode cp_proto.AgentBearerToken, Encode cp_proto.OperatorBearerToken}.
Context `{Decode cp_proto.AgentBearerToken, Decode cp_proto.OperatorBearerToken}.

(** ** The control plane's side *)

(* yutha-control-plane/src/main.rs:1822-1830 BootstrapIdentity *)
Record BootstrapIdentity := mkBootstrap {
  boot_signer : Signer; boot_agent_id : AgentId; boot_swarm_id : SwarmId }.

(** An error is the text [anyhow] shows. *)
(* yutha-control-plane/src/main.rs:1833-1870 BootstrapIdentity::from_seed_hex *)
Definition from_seed_hex (seed_hex : string) : Result BootstrapIdentity string :=
  let? seed := map_err (λ _, "bootstrap-seed: hex decode failed"%string) (hex_decode (trim seed_hex)) in
  if negb (bool_decide (length seed = 32)) then
    Err ("bootstrap-seed: expected 32 raw bytes (64 hex chars), got " +:+ show_N (len seed) +:+ " bytes")
  else
    let signer := in_process_signer (SigningKey.from_bytes seed) in
    let? agent_id := map_err (λ _, "bootstrap-seed: derive agent_id"%string)
                       (AgentId.from_bytes (take 16 (Hash.digest (sha256 (seed ++ [Byte.x01]))))) in
    let? swarm_id := map_err (λ _, "bootstrap-seed: derive swarm_id"%string)
                       (SwarmId.from_bytes (take 16 (Hash.digest (sha256 (seed ++ [Byte.x02]))))) in
    Ok (mkBootstrap signer agent_id swarm_id).

(* yutha-control-plane/src/main.rs:2193-2203 parse_operator_public_key *)
Definition parse_operator_public_key (hex_str : string) : Result PublicKey string :=
  let? raw := map_err (λ _, "--operator-public-key: hex decode failed"%string) (hex_decode (trim hex_str)) in
  if negb (bool_decide (length raw = 32)) then
    Err ("--operator-public-key: expected 32 raw bytes (64 hex chars), got " +:+ show_N (len raw))
  else map_err (λ e, "--operator-public-key: " +:+ CoreError.to_string e)
         (PublicKey.new SignatureAlgorithm.Ed25519 raw).

(** ** The operator tools' side *)

(* yutha-ops/src/main.rs:1751-1756 SeedIdentity *)
Record SeedIdentity := mkSeed {
  agent_id : AgentId; swarm_id : SwarmId; agent_key : SigningKey; operator_key : SigningKey }.

(* yutha-ops/src/main.rs:1772-1777 sha256_with_tag *)
Definition sha256_with_tag (seed : bytes) (tag : byte) : bytes := sha256_digest (seed ++ [tag]).

(** [None]: an [expect] fails. *)
(* yutha-ops/src/main.rs:1759-1769 SeedIdentity::derive *)
Definition derive (seed : bytes) : option SeedIdentity :=
  a ← result_ok (AgentId.from_bytes (take 16 (sha256_with_tag seed Byte.x01)));
  s ← result_ok (SwarmId.from_bytes (take 16 (sha256_with_tag seed Byte.x02)));
  Some (mkSeed a s (SigningKey.from_bytes seed) (SigningKey.from_bytes (sha256_with_tag seed Byte.x03))).

(* yutha-ops/src/main.rs:1779-1790 decode_seed *)
Definition decode_seed (hex_str : string) : Result bytes string :=
  let? raw := map_err (λ _, "--seed: hex decode"%string) (hex_decode (trim hex_str)) in
  if negb (bool_decide (length raw = 32)) then
    Err ("--seed: expected 32 raw bytes (64 hex chars), got " +:+ show_N (len raw))
  else Ok raw.

(** [None]: the sum of dates overflows or the result is no RFC 3339 text. *)
(* yutha-ops/src/main.rs:1834-1849 expire_after *)
Definition expire_after (now : Timestamp) (seconds : N) : option Timestamp :=
  advanced ← match odt_parse (Timestamp.wall_clock now) with
             | None => Some None
             | Some t => (λ u, odt_format u) <$> odt_checked_add t (Z.of_N seconds * 1000000000)
             end;
  result_ok (Timestamp.new (default "2099-01-01T00:00:00Z"%string advanced)
               (u64_wrap (Timestamp.monotonic_ns now + seconds * 1000000000))).

(** The system's clock in nanoseconds, little-endian. *)
(* yutha-ops/src/main.rs:1851-1862 random_nonce *)
Definition random_nonce (now_ns : N) : bytes := take 16 (rev (be_bytes 16 now_ns)).

(** The token's bytes in hexadecimal, and when it runs out. *)
(* yutha-ops/src/main.rs:1798-1814 mint_agent_token *)
Definition mint_agent_token (identity : SeedIdentity) (now : Timestamp) (now_ns : N) : option (string * Timestamp) :=
  expires ← expire_after now 300;
  let token sig := cp_proto.mkAgentBearerToken (Some (to_proto (agent_id identity)))
    (Some (to_proto (swarm_id identity))) (Some (to_proto now)) (Some (to_proto expires))
    (random_nonce now_ns) None sig in
  let sig := SigningKey.sign_message (agent_key identity) (encode_to_vec (token None)) in
  Some (hex (encode_to_vec (token (Some (to_proto sig)))), expires).

(* yutha-ops/src/main.rs:1816-1832 mint_operator_token *)
Definition mint_operator_token (identity : SeedIdentity) (now : Timestamp) (now_ns : N) : option (string * Timestamp) :=
  expires ← expire_after now 300;
  let token sig := cp_proto.mkOperatorBearerToken "yutha-ops"
    (Some (to_proto (swarm_id identity))) (Some (to_proto now)) (Some (to_proto expires))
    (random_nonce now_ns) None sig in
  let sig := SigningKey.sign_message (operator_key identity) (encode_to_vec (token None)) in
  Some (hex (encode_to_vec (token (Some (to_proto sig)))), expires).

(** The text is lower-case hexadecimal with dashes after every group. *)
(* yutha-ops/src/main.rs:1869-1881 format_agent_id *)
Definition format_agent_id (b : bytes) : string :=
  if negb (bool_decide (length b = 16)) then hex b
  else hex (take 4 b) +:+ "-" +:+ hex (take 2 (drop 4 b)) +:+ "-" +:+ hex (take 2 (drop 6 b)) +:+ "-"
       +:+ hex (take 2 (drop 8 b)) +:+ "-" +:+ hex (take 6 (drop 10 b)).
Fixpoint without_dashes (s : string) : string :=
  match s with
  | EmptyString => EmptyString
  | String c s => if bool_decide (c = "-"%char) then without_dashes s else String c (without_dashes s)
  end.
(* yutha-ops/src/main.rs:1883-1887 parse_agent_id *)
Definition parse_agent_id (s : string) : Result AgentId string :=
  let? raw := map_err (λ _, "agent_id hex"%string) (hex_decode (without_dashes s)) in
  map_err (λ _, "agent_id must be 16 bytes"%string) (AgentId.from_bytes raw).

(** ** One seed, two programs *)

Lemma from_bytes_agent b a : AgentId.from_bytes b = Ok a → wf a.
Proof.
  unfold AgentId.from_bytes. destruct (N.eqb_spec (len b) 16) as [Hl|]; simpl; [|done].
  intros [= <-]. unfold wf, AgentId_wf, uuid_wf. simpl. unfold len in Hl. lia.
Qed.
Lemma from_bytes_swarm b a : SwarmId.from_bytes b = Ok a → wf a.
Proof.
  unfold SwarmId.from_bytes. destruct (N.eqb_spec (len b) 16) as [Hl|]; simpl; [|done].
  intros [= <-]. unfold wf, SwarmId_wf, uuid_wf. simpl. unfold len in Hl. lia.
Qed.

Lemma derive_Some seed i : derive seed = Some i →
  wf (agent_id i) ∧ wf (swarm_id i) ∧
  AgentId.from_bytes (take 16 (sha256_with_tag seed Byte.x01)) = Ok (agent_id i) ∧
  SwarmId.from_bytes (take 16 (sha256_with_tag seed Byte.x02)) = Ok (swarm_id i) ∧
  agent_key i = SigningKey.from_bytes seed.
Proof.
  unfold derive. destruct (AgentId.from_bytes _) as [a|] eqn:Ha; [|done].
  destruct (SwarmId.from_bytes _) as [s|] eqn:Hs; [|done]. simpl. intros [= <-]. simpl.
  split_and!; [by eapply from_bytes_agent|by eapply from_bytes_swarm|done..].
Qed.

(** With a hash of 32 bytes there is always an identity. *)
Lemma derive_total `{!CryptoLaws} seed : is_Some (derive seed).
Proof.
  unfold derive, AgentId.from_bytes, SwarmId.from_bytes, sha256_with_tag, len.
  rewrite !length_take, !sha256_digest_length. simpl. by eexists.
Qed.

Lemma expire_after_Some now seconds e : expire_after now seconds = Some e → wf e.
Proof.
  unfold expire_after. destruct (match odt_parse _ with Some _ => _ | None => _ end) as [o|]; simpl; [|done].
  unfold Timestamp.new. destruct (parse_rfc3339 _) as [z|] eqn:Hz; simpl; [|done]. intros [= <-].
  by exists z.
Qed.

(** A token lasts five minutes from a clock that parses. *)
Lemma expire_after_lasts `{!ClockLaws} now e t :
  expire_after now 300 = Some e → Timestamp.parsed_wall_clock now = Some t →
  (∀ u, odt_parse (Timestamp.wall_clock now) = Some u → ∀ v, odt_checked_add u (300 * 1000000000) = Some v →
     is_Some (odt_format v)) →
  Timestamp.parsed_wall_clock e = Some (t + 300000000000)%Z.
Proof.
  unfold Timestamp.parsed_wall_clock, expire_after. intros He Ht Hf.
  rewrite <- odt_parse_spec in Ht. destruct (odt_parse _) as [u|]; [|done]. injection Ht as <-.
  simpl in He. destruct (odt_checked_add u _) as [v|] eqn:Hv; [|done].
  destruct (Hf u eq_refl v Hv) as [s Hs]. simpl in He. rewrite Hs in He. simpl in He.
  unfold Timestamp.new in He. destruct (parse_rfc3339 s) as [z|] eqn:Hz; [|done]. injection He as <-. simpl.
  rewrite Hz. apply odt_format_spec in Hs. apply odt_checked_add_spec in Hv. rewrite Hs in Hz. injection Hz as <-.
  f_equal. lia.
Qed.

Context `{!CryptoLaws, !HeaderLaws, !HexLaws, !DecodeLaws cp_proto.AgentBearerToken,
          !DecodeLaws cp_proto.OperatorBearerToken}.
Context {T : Type}.
Implicit Types (body : T) (i : SeedIdentity).

Definition sent (v : BearerVariant) (token_hex : string) body : Request T :=
  mkRequest (Some (as_bytes (bearer_text v token_hex))) body.

Lemma carries_to_proto {A P} `{RoundTrip A P CoreError} (a : A) : wf a → carries (Some (to_proto a)) a.
Proof. intros Ha. eexists. split; [done|]. by apply round_trip. Qed.

Lemma minted_agent_accepted i now ns text e body resolver now' :
  wf (agent_id i) → wf (swarm_id i) → mint_agent_token i now ns = Some (text, e) → unexpired now' e →
  PassportResolver.resolve_actor resolver (agent_id i) = Ok (Some (SigningKey.public (agent_key i))) →
  agent_token_accepted (sent AgentBearer text body) resolver (swarm_id i) now'
    (AuthContext.mk (agent_id i) (swarm_id i) e).
Proof.
  intros Ha Hs Hm Hu Hr. unfold mint_agent_token in Hm.
  destruct (expire_after now 300) as [e'|] eqn:He; simpl in Hm; [|done]. injection Hm as <- <-.
  apply expire_after_Some in He.
  eexists _, (sign (agent_key i) _), _. split; [by apply presents_sent|]. simpl.
  split; [by apply carries_to_proto|]. split; [by apply carries_to_proto|]. split; [by apply carries_to_proto|].
  split; [apply carries_to_proto, sign_wf|]. split; [done|]. split; [done|]. split; [done|].
  apply verify_Ok, verify_sign.
Qed.

Lemma minted_operator_accepted i now ns text e body now' :
  wf (swarm_id i) → mint_operator_token i now ns = Some (text, e) → unexpired now' e →
  operator_token_accepted (sent OperatorBearer text body) (Some (SigningKey.public (operator_key i)))
    (swarm_id i) now' (OperatorAuthContext.mk "yutha-ops" (swarm_id i) e).
Proof.
  intros Hs Hm Hu. unfold mint_operator_token in Hm.
  destruct (expire_after now 300) as [e'|] eqn:He; simpl in Hm; [|done]. injection Hm as <- <-.
  apply expire_after_Some in He.
  eexists _, (sign (operator_key i) _), _. split; [done|]. split; [by apply presents_sent|]. simpl.
  split; [done|]. split; [by apply carries_to_proto|]. split; [by apply carries_to_proto|].
  split; [apply carries_to_proto, sign_wf|]. split; [done|]. split; [done|]. apply verify_Ok, verify_sign.
Qed.

Lemma bootstrap_derives seed i : length seed = 32 → derive seed = Some i →
  from_seed_hex (hex seed) = Ok (mkBootstrap (in_process_signer (agent_key i)) (agent_id i) (swarm_id i)).
Proof.
  intros Hl (Ha & Hs & Hfa & Hfs & Hk)%derive_Some. unfold from_seed_hex.
  rewrite trim_all_visible by apply hex_visible. rewrite hex_decode_hex. cbn [rbind map_err].
  rewrite bool_decide_true by done. cbn [negb].
  change (Hash.digest (sha256 ?b)) with (sha256_digest b). unfold sha256_with_tag in Hfa, Hfs.
  rewrite Hfa. cbn [rbind map_err]. rewrite Hfs. cbn [rbind map_err]. by rewrite Hk.
Qed.

Lemma operator_key_configured i :
  parse_operator_public_key (hex (PublicKey.value (SigningKey.public (operator_key i))))
  = Ok (SigningKey.public (operator_key i)).
Proof.
  unfold parse_operator_public_key. rewrite trim_all_visible by apply hex_visible. rewrite hex_decode_hex.
  cbn [rbind map_err SigningKey.public PublicKey.value].
  rewrite bool_decide_true by apply ed25519_public_length. cbn [negb].
  unfold PublicKey.new, len. simpl. by rewrite ed25519_public_length.
Qed.

(** One seed serves the control plane and the operator's tools.  Both
    derive the same agent and swarm ids and the same agent key from it.  A
    token the tools mint passes the control plane's guard until it runs out:
    the agent's where its key is registered and it is not revoked, the
    operator's where the control plane was given the derived operator key. *)
Lemma seed_tools_authenticate seed i :
  length seed = 32 → derive seed = Some i →
  from_seed_hex (hex seed) = Ok (mkBootstrap (in_process_signer (agent_key i)) (agent_id i) (swarm_id i)) ∧
  (∀ now ns text e body resolver revoked now',
     mint_agent_token i now ns = Some (text, e) → unexpired now' e → agent_id i ∉ revoked →
     PassportResolver.resolve_actor resolver (agent_id i) = Ok (Some (SigningKey.public (agent_key i))) →
     require_active_bearer_auth (sent AgentBearer text body) revoked resolver (swarm_id i) now'
     = Ok (AuthContext.mk (agent_id i) (swarm_id i) e)) ∧
  (∀ now ns text e body key now',
     mint_operator_token i now ns = Some (text, e) → unexpired now' e →
     parse_operator_public_key (hex (PublicKey.value (SigningKey.public (operator_key i)))) = Ok key →
     require_operator_bearer_auth (sent OperatorBearer text body) (Some key) (swarm_id i) now'
     = Ok (OperatorAuthContext.mk "yutha-ops" (swarm_id i) e)).
Proof.
  intros Hl Hd. pose proof (derive_Some _ _ Hd) as (Ha & Hs & _). split; [by apply bootstrap_derives|]. split.
  - intros now ns text e body resolver revoked now' Hm Hu Hr Hk. apply require_active_Ok. split; [|done].
    by eapply minted_agent_accepted.
  - intros now ns text e body key now' Hm Hu. rewrite operator_key_configured. intros [= <-].
    apply require_operator_Ok. by eapply minted_operator_accepted.
Qed.
End seed.

(** ** The witness *)

Module SeedToy.
Export CodecToy.
(** Dates are numbers of nanoseconds, written in decimal. *)
#[global] Instance dates : OffsetDateTimeOps := {|
  odt := N; odt_parse s := result_ok (parse_uint u64_max s);
  odt_checked_add t n := if (0 <=? Z.of_N t + n)%Z then Some (Z.to_N (Z.of_N t + n)) else None;
  odt_format t := if (t <=? u64_max)%N then Some (show_N t) else None |}.
Definition seed : bytes := replicate 32 Byte.x05.
Definition identity : SeedIdentity :=
  default (mkSeed (AgentId.mk []) (SwarmId.mk []) (SigningKey.mk []) (SigningKey.mk [])) (derive seed).
Definition token : string := default ""%string (fst <$> mint_agent_token identity (Timestamp.mk "50" 7) 9).
Definition registered : PassportResolver :=
  StaticPassportResolver.resolver
    (StaticPassportResolver.with_actor (agent_id identity) (SigningKey.public (agent_key identity))
       StaticPassportResolver.new).
Definition expires : Timestamp :=
  default (Timestamp.mk "" 0) (snd <$> mint_agent_token identity (Timestamp.mk "50" 7) 9).
(** A minute later. *)
Example authenticates :
  is_ok (require_active_bearer_auth (sent AgentBearer token tt) ∅ registered (swarm_id identity)
           (Timestamp.mk "60000000050" 8)) = true.
Proof. vm_compute. reflexivity. Qed.
End SeedToy.

Lemma seed_tools_authenticate_witness :
  from_seed_hex (hex SeedToy.seed)
    = Ok (mkBootstrap (in_process_signer (agent_key SeedToy.identity)) (agent_id SeedToy.identity)
            (swarm_id SeedToy.identity)) ∧
  require_active_bearer_auth (sent AgentBearer SeedToy.token tt) ∅ SeedToy.registered
    (swarm_id SeedToy.identity) (Timestamp.mk "60" 8)
  = Ok (AuthContext.mk (agent_id SeedToy.identity) (swarm_id SeedToy.identity) SeedToy.expires).
Proof.
  assert (derive SeedToy.seed = Some SeedToy.identity) as Hd by (vm_compute; reflexivity).
  pose proof (seed_tools_authenticate (T:=unit) SeedToy.seed SeedToy.identity eq_refl Hd) as (Hb & Ha & _).
  split; [exact Hb|]. apply (Ha (Timestamp.mk "50" 7) 9%N).
  - vm_compute. reflexivity.
  - exists 60%Z, 300000000050%Z. split; [reflexivity|]. split; [vm_compute; reflexivity|reflexivity].
  - apply not_elem_of_empty.
  - vm_compute. reflexivity.
Defined.

Lemma bearer_auth_exact_witness :
  require_active_bearer_auth (sent AgentBearer SeedToy.token tt) {[agent_id SeedToy.identity]}
    SeedToy.registered (swarm_id SeedToy.identity) (Timestamp.mk "60" 8)
  = Err (Status.unauthenticated "agent revoked").
Proof.
  apply (bearer_auth_exact (sent AgentBearer SeedToy.token tt) {[agent_id SeedToy.identity]} SeedToy.registered
           None (swarm_id SeedToy.identity) (Timestamp.mk "60" 8)) with (agent_id SeedToy.identity).
  - vm_compute. reflexivity.
  - by apply elem_of_singleton.
Defined.
