(* ===== verification/ControlPlane.v ===== *)
(** * [yutha-control-plane/src/grpc]: the control plane and its services

    [ControlPlaneState] puts the components together: every handler works on
    one state in which the registry, the capability store and the transport
    share one passport store and one receipt log.  This file has the state, the
    handlers of the admission, capability and receipt services, and what each
    may change.  A handler is one step; [clock] gives the readings of
    [Timestamp::now()], by the operation of the handler that takes them. *)

From S2P Require Import Prelude RustStd Core CoreProto Crypto ReceiptTypes ReceiptProto Merkle.
From S2P Require Import ReceiptVerify Passport PassportStore Scope Capability Registry Envelope Tokio.
From S2P Require Import Score Enforcement CedarPlus Procedure Validate Evaluator Publisher EnforcementLoop.
From S2P Require Import ReceiptStore CapabilityStore Replay Transport Status Auth.

(** The messages of [spec/control-plane/v1.proto]; their nested messages are
    options. *)
Module rpc.
Record RegisterRequest := mkRegister {
  Register_passport : option pproto.Passport; Register_external_credential : bytes }.
Record RegistrationResult := mkResult {
  Result_status : Z; Result_agent_id : option proto.AgentId;
  Result_registration_receipt : option proto.Hash; Result_rejection_reason : string }.
Record RevokeRequest := mkRevoke { Revoke_agent_id : option proto.AgentId; Revoke_reason : string }.
Record OperatorRevokeRequest := mkOperatorRevoke {
  OperatorRevoke_target : option proto.AgentId; OperatorRevoke_reason : string;
  OperatorRevoke_cascade_capabilities : bool }.
Record OperatorRevokeResponse := mkOperatorRevoked {
  OperatorRevoked_receipt : option proto.Hash; OperatorRevoked_cascade_receipts : list proto.Hash }.
Record IssueResponse := mkIssued { Issued_id : option proto.Hash; Issued_receipt : option proto.Hash }.
Record AttenuateRequest := mkAttenuate {
  Attenuate_parent : option proto.Hash; Attenuate_additional_constraints : option cproto.Scope;
  Attenuate_additional_caveats : list cproto.Caveat; Attenuate_valid_until : option proto.Timestamp }.
Record AttenuateResponse := mkAttenuated {
  Attenuated_child : option cproto.Capability; Attenuated_receipt : option proto.Hash }.
Record RevokeCapability := mkRevokeCapability {
  RevokeCapability_capability : option proto.Hash; RevokeCapability_reason : string }.
Record RevokeCapabilityResponse := mkRevokedCapability {
  RevokedCapability_receipt : option proto.Hash; RevokedCapability_effective_at : option proto.Timestamp }.
Record CheckRequest := mkCheck {
  Check_capability : option cproto.Capability; Check_action : option cproto.ActionDescriptor }.
Record QueryResponse := mkQueried { Queried_receipts : list rproto.Receipt; Queried_next_page_token : bytes }.
End rpc.

(* yutha-passport/src/proto_conv.rs:269-288 From<RegistrationStatus> for i32 *)
Definition RegistrationStatus_into_i32 (s : RegistrationOutcome.RegistrationStatus) : Z :=
  match s with
  | RegistrationOutcome.Accepted => 1 | RegistrationOutcome.Rejected => 2
  | RegistrationOutcome.PendingReview => 3
  end.
(* yutha-passport/src/proto_conv.rs:290-302 From<&RegistrationOutcome> for proto::RegistrationResult *)
#[global] Instance RegistrationOutcome_to_proto : ToProto RegistrationOutcome rpc.RegistrationResult := λ o,
  rpc.mkResult (RegistrationStatus_into_i32 (RegistrationOutcome.status o))
    (Some (to_proto (RegistrationOutcome.agent_id o))) (to_proto <$> RegistrationOutcome.registration_receipt o)
    (RegistrationOutcome.rejection_reason o).

(** A component without the log it shares, and with it. *)
Definition unlogged {R} (c : MemoryCapabilityStore R) : MemoryCapabilityStore unit :=
  MemoryCapabilityStore.mk (MemoryCapabilityStore.by_id c) (MemoryCapabilityStore.revoked c) tt.
Definition with_log {R} (c : MemoryCapabilityStore unit) (log : R) : MemoryCapabilityStore R :=
  MemoryCapabilityStore.mk (MemoryCapabilityStore.by_id c) (MemoryCapabilityStore.revoked c) log.
Definition transport_with {C R S} (t : MemoryTransport C R) (log : S) : MemoryTransport C S :=
  MemoryTransport.mk (inboxes t) (senders t) (channels t) (MemoryTransport.roles t) (MemoryTransport.tags t)
    (MemoryTransport.replay t) log.

Section state.
Context `{SerdeJson} {engine : Cedar} {P C R : Type}.

(** [revocation_signals]: how often the signal of an agent was fired; an agent
    without a subscription has none. *)
(* yutha-control-plane/src/grpc/mod.rs:57-131 ControlPlaneState *)
Record ControlPlaneState := mkState {
  passports : P; capabilities : MemoryCapabilityStore unit; transport : MemoryTransport C unit;
  receipt_store : R; revoked_agents : gset AgentId; revocation_signals : gmap AgentId nat;
  cedar_plus : CedarPlusEvaluator; enforcement : EngineState }.
Implicit Types (s : ControlPlaneState).

Definition set_passports (p : P) s :=
  mkState p (capabilities s) (transport s) (receipt_store s) (revoked_agents s) (revocation_signals s)
    (cedar_plus s) (enforcement s).
Definition set_capabilities (c : MemoryCapabilityStore unit) s :=
  mkState (passports s) c (transport s) (receipt_store s) (revoked_agents s) (revocation_signals s)
    (cedar_plus s) (enforcement s).
Definition set_transport (t : MemoryTransport C unit) s :=
  mkState (passports s) (capabilities s) t (receipt_store s) (revoked_agents s) (revocation_signals s)
    (cedar_plus s) (enforcement s).
Definition set_log (r : R) s :=
  mkState (passports s) (capabilities s) (transport s) r (revoked_agents s) (revocation_signals s)
    (cedar_plus s) (enforcement s).
Definition set_evaluator (e : CedarPlusEvaluator) s :=
  mkState (passports s) (capabilities s) (transport s) (receipt_store s) (revoked_agents s)
    (revocation_signals s) e (enforcement s).
Definition set_engine (e : EngineState) s :=
  mkState (passports s) (capabilities s) (transport s) (receipt_store s) (revoked_agents s)
    (revocation_signals s) (cedar_plus s) e.

(* yutha-control-plane/src/grpc/mod.rs:137-152 ControlPlaneState::revocation_signal_for *)
Definition revocation_signal_for (agent_id : AgentId) s : ControlPlaneState :=
  mkState (passports s) (capabilities s) (transport s) (receipt_store s) (revoked_agents s)
    (<[agent_id := default 0 (revocation_signals s !! agent_id)]> (revocation_signals s))
    (cedar_plus s) (enforcement s).
(* yutha-control-plane/src/grpc/mod.rs:157-164 ControlPlaneState::mark_revoked *)
Definition mark_revoked (agent_id : AgentId) s : ControlPlaneState :=
  mkState (passports s) (capabilities s) (transport s) (receipt_store s) ({[agent_id]} ∪ revoked_agents s)
    (alter S agent_id (revocation_signals s)) (cedar_plus s) (enforcement s).
(* yutha-control-plane/src/grpc/mod.rs:172-174 ControlPlaneState::is_revoked *)
Definition is_revoked (agent_id : AgentId) s : bool := bool_decide (agent_id ∈ revoked_agents s).
End state.
Arguments ControlPlaneState {_ _} _ _ _.

Section services.
Context `{TimeOps, CryptoOps, HeaderOps, HexOps, SerdeJson} {engine : Cedar}.
Context `{Encode rproto.Receipt, Encode pproto.Passport, Encode cproto.Capability, Encode eproto.Envelope}.
Context `{Encode cp_proto.AgentBearerToken, Decode cp_proto.AgentBearerToken}.
Context `{Encode cp_proto.OperatorBearerToken, Decode cp_proto.OperatorBearerToken}.
Context {P C R : Type} `{!PassportStore P, !ReceiptStore R}.
(** What does not change while the control plane runs: the registry's topology
    and attestor, the signing identity, the operator's key; [Uuid::now_v7()] in
    [SwarmId::default()]. *)
Context (topology : Topology) (attestor : Attestor) (cp : ControlPlaneIdentity)
  (operator_public_key : option PublicKey) (fresh_swarm : SwarmId).
Notation State := (ControlPlaneState P C R).
Notation RPC A := (M State Status A).
Implicit Types (s : State) (clock : nat → nat → Timestamp).

Definition resolver s : PassportResolver := PassportResolverAdapter.adapter (passports s).

(** The components, on the shared stores. *)
Definition on_registry {A} (m : M (MemoryRegistry P R) RegistryError A) : RPC A :=
  m_map_err to_status
    (zoom (λ s, MemoryRegistry.mk (passports s) (receipt_store s))
       (λ g s, set_log (MemoryRegistry.receipts g) (set_passports (MemoryRegistry.passports g) s)) m).
Definition on_capabilities {A} (m : M (MemoryCapabilityStore R) CapabilityError A) : RPC A :=
  m_map_err to_status
    (zoom (λ s, with_log (capabilities s) (receipt_store s))
       (λ c s, set_log (MemoryCapabilityStore.receipts c) (set_capabilities (unlogged c) s)) m).
Definition on_transport {A} (m : M (MemoryTransport C R) TransportError A) : RPC A :=
  m_map_err to_status
    (zoom (λ s, transport_with (transport s) (receipt_store s))
       (λ t s, set_log (receipts t) (set_transport (transport_with t tt) s)) m).

Definition adapter_of (p : P) : PassportResolver := PassportResolverAdapter.adapter p.
Definition quarantine s : QuarantineSource := engine_quarantine_source (enforcement s).

(** The guards, on the current state. *)
Definition require_active {T} (now : Timestamp) (request : Request T) : RPC AuthContext := λ s,
  (require_active_bearer_auth request (revoked_agents s) (resolver s) (Topology.swarm_id topology) now, s).
Definition require_operator {T} (now : Timestamp) (request : Request T) : RPC OperatorAuthContext :=
  lift (require_operator_bearer_auth request operator_public_key (Topology.swarm_id topology) now).

(** A required message field, and its conversion. *)
Definition required {A} (name : string) (o : option A) : RPC A := lift (ok_or o (missing_field name)).
Definition converted {A B E} `{TryFromProto A B E, ErrorIntoStatus E} (p : A) : RPC B :=
  lift (map_err to_status (try_from p)).
Definition agent_of (p : proto.AgentId) : RPC AgentId := converted (E:=CoreError) p.
Definition hash_of_proto (p : proto.Hash) : RPC Hash := converted (E:=CoreError) p.

(** A receipt the services write themselves; the errors name it by [label]. *)
Definition emit_receipt (label : string) (clock : nat → Timestamp) (swarm_id : SwarmId)
  (action_kind constitution_version : string) (evidence : list Evidence) : RPC Hash := λ s,
  let fail step (text : string) := Status.internal (label +:+ step +:+ text) in
  (let! receipt := lift (control_plane_receipt
       (λ e, fail " receipt spec_version: " (CoreError.to_string e)) (fail " receipt build: ")
       (λ e, fail " canonical: " (CryptoError.to_string e)) (λ e, fail " signer: " (SignerError.to_string e))
       cp clock swarm_id action_kind constitution_version evidence) in
   let! outcome := m_map_err (λ e, fail " append: " (ReceiptError.to_string e))
       (zoom receipt_store set_log (append receipt AppendOptions.default (resolver s))) in
   mret (AppendOutcome.receipt_id outcome)) s.

(** ** [AdmissionService] *)


(* yutha-control-plane/src/grpc/admission.rs:58-90 AdmissionHandler::register *)
Definition admission_register clock (request : Request rpc.RegisterRequest) : RPC rpc.RegistrationResult :=
  let req := into_inner request in
  let! passport_proto := required "passport" (rpc.Register_passport req) in
  let! passport := converted (E:=PassportError) passport_proto in
  let! outcome := on_registry (MemoryRegistry.register topology adapter_of cp attestor (clock 0) passport
                                 (rpc.Register_external_credential req)) in
  mret (to_proto outcome).

(* yutha-control-plane/src/grpc/admission.rs:92-133 AdmissionHandler::revoke *)
Definition admission_revoke clock (request : Request rpc.RevokeRequest) : RPC (option proto.Hash) :=
  let! auth := require_active (clock 0 0) request in
  let req := into_inner request in
  let! target_proto := required "agent_id" (rpc.Revoke_agent_id req) in
  let! target := agent_of target_proto in
  if negb (bool_decide (AuthContext.agent_id auth = target)) then
    throw (Status.permission_denied
      "cross-agent revoke uses AdmissionService.OperatorRevoke; this RPC is self-revoke only")
  else
    let! receipt_id := on_registry (MemoryRegistry.revoke topology adapter_of cp (clock 1) target
                                      (rpc.Revoke_reason req)) in
    do! modify (mark_revoked target) in
    mret (Some (to_proto receipt_id)).

(** The cascade stops at the first capability whose revocation fails. *)
(* yutha-control-plane/src/grpc/admission.rs:181-191 AdmissionHandler::operator_revoke (cascade) *)
Fixpoint cascade_revoke (clock : nat → nat → Timestamp) (k : nat) (reason : string) (cap_ids : list Hash)
  : RPC (list proto.Hash) :=
  match cap_ids with
  | [] => mret []
  | cap_id :: cap_ids =>
      let! rid := λ s, on_capabilities
                    (MemoryCapabilityStore.revoke (resolver s) cp (clock k) cap_id reason) s in
      let! out := cascade_revoke clock (S k) reason cap_ids in
      mret (to_proto rid :: out)
  end.

(* yutha-control-plane/src/grpc/admission.rs:135-204 AdmissionHandler::operator_revoke *)
Definition admission_operator_revoke clock (request : Request rpc.OperatorRevokeRequest)
  : RPC rpc.OperatorRevokeResponse :=
  let! op_auth := require_operator (clock 0 0) request in
  let req := into_inner request in
  let! target_proto := required "target" (rpc.OperatorRevoke_target req) in
  let! target := agent_of target_proto in
  let! receipt_id := on_registry (MemoryRegistry.operator_revoke topology adapter_of cp (clock 1) target
                                    (OperatorAuthContext.operator_id op_auth) (rpc.OperatorRevoke_reason req)) in
  let! cascade_receipts :=
    if rpc.OperatorRevoke_cascade_capabilities req then
      let! cap_ids := on_capabilities (λ c, (MemoryCapabilityStore.list_for_subject target c, c)) in
      cascade_revoke clock 2 ("cascade from operator-revoke of " +:+ AgentId.to_string target) cap_ids
    else mret [] in
  do! modify (mark_revoked target) in
  mret (rpc.mkOperatorRevoked (Some (to_proto receipt_id)) cascade_receipts).

(* yutha-control-plane/src/grpc/admission.rs:206-239 AdmissionHandler::rotate_key *)
Definition admission_rotate_key {T} clock (request : Request T) : RPC unit :=
  do! require_active (clock 0 0) request in
  throw (Status.unimplemented "rotate_key blocked on spec gap (RotateKeyRequest cannot carry a self-signed new passport); see /spec/control-plane/v1.proto and RFC tracker").

(* yutha-control-plane/src/grpc/admission.rs:241-250 AdmissionHandler::get_topology *)
Definition admission_get_topology {T} clock (request : Request T) : RPC Topology :=
  do! require_active (clock 0 0) request in
  mret topology.

(** ** [CapabilityService]

    Every request wraps a message of the capability proto in an option. *)

(* yutha-control-plane/src/grpc/capability.rs:78-93 CapabilityHandler::sign_with_cp *)
Definition sign_with_cp (cap : Capability) : Result Capability Status :=
  match Capability.issuer_signature cap with
  | Some _ => Ok cap
  | None =>
      let? message := map_err (λ e, Status.internal ("canonical bytes: " +:+ CryptoError.to_string e))
                        (canonical_bytes cap) in
      let? sig := map_err (λ e, Status.internal ("signer: " +:+ SignerError.to_string e))
                    (ControlPlaneIdentity.sign cp message) in
      Ok (Capability.with_signature (Some sig) cap)
  end.

(* yutha-control-plane/src/grpc/capability.rs:98-123 CapabilityHandler::issue *)
Definition capability_issue clock (request : Request (option cproto.Capability)) : RPC rpc.IssueResponse :=
  let! _auth := require_active (clock 0 0) request in
  let! cap_proto := required "capability" (into_inner request) in
  let! cap := converted (E:=CapabilityError) cap_proto in
  let! cap := lift (sign_with_cp cap) in
  let! outcome := λ s, on_capabilities
                    (MemoryCapabilityStore.issue (resolver s) cp (quarantine s) (clock 1) cap) s in
  mret (rpc.mkIssued (Some (to_proto (IssuanceOutcome.capability_id outcome)))
          (Some (to_proto (IssuanceOutcome.issuance_receipt outcome)))).

(** The child the service builds from a parent; [id] is a fresh UUID. *)
(* yutha-control-plane/src/grpc/capability.rs:185-205 CapabilityHandler::attenuate (child) *)
Definition build_child (parent_hash : Hash) (parent : Capability) (additional_scope : Scope)
  (additional_caveats : list Caveat) (id : bytes) (valid_from valid_until : Timestamp)
  : Result Capability CapabilityError :=
  CapabilityBuilder.build (CapabilityBuilder.mk (Some (Capability.spec_version parent)) (Some id)
    (Some (Capability.swarm_id parent)) (Some (Capability.issuer parent)) (Some (Capability.subject parent))
    (Scope.intersect (Capability.scope parent) additional_scope) (Some parent_hash) (Some valid_from)
    (Some valid_until) (Capability.caveats parent ++ additional_caveats) "").

(* yutha-control-plane/src/grpc/capability.rs:125-221 CapabilityHandler::attenuate *)
Definition capability_attenuate clock (id : bytes) (request : Request (option rpc.AttenuateRequest))
  : RPC rpc.AttenuateResponse :=
  let! _auth := require_active (clock 0 0) request in
  let! inner := required "request" (into_inner request) in
  let! parent_proto := required "parent" (rpc.Attenuate_parent inner) in
  let! parent_hash := hash_of_proto parent_proto in
  let additional_scope := default Scope.empty (Scope_from <$> rpc.Attenuate_additional_constraints inner) in
  let! additional_caveats := lift (map_err (to_status (E:=CapabilityError))
                                     (collect try_from (rpc.Attenuate_additional_caveats inner))) in
  let! valid_until_proto := required "valid_until" (rpc.Attenuate_valid_until inner) in
  let! valid_until := converted (E:=CoreError) valid_until_proto in
  let! found := on_capabilities (λ c, (MemoryCapabilityStore.lookup parent_hash c, c)) in
  let! parent := lift (ok_or found (Status.not_found
                   ("parent capability not found: " +:+ Hash.to_hex parent_hash))) in
  if (Timestamp.monotonic_ns (Capability.valid_until parent) <? Timestamp.monotonic_ns valid_until)%N then
    throw (Status.failed_precondition "attenuated valid_until exceeds parent's")
  else
    let! child := lift (map_err (λ e, Status.internal ("build child capability: " +:+ CapabilityError.to_string e))
        (build_child parent_hash parent additional_scope additional_caveats id (clock 1 0) valid_until)) in
    let! child := lift (sign_with_cp child) in
    let! outcome := λ s, on_capabilities
                      (MemoryCapabilityStore.attenuate (resolver s) cp (quarantine s) (clock 2) child) s in
    mret (rpc.mkAttenuated (Some (to_proto child)) (Some (to_proto (IssuanceOutcome.issuance_receipt outcome)))).

(* yutha-control-plane/src/grpc/capability.rs:223-261 CapabilityHandler::revoke *)
Definition capability_revoke clock (request : Request (option rpc.RevokeCapability))
  : RPC rpc.RevokeCapabilityResponse :=
  let! _auth := require_active (clock 0 0) request in
  let! inner := required "request" (into_inner request) in
  let! cap_proto := required "capability" (rpc.RevokeCapability_capability inner) in
  let! cap_id := hash_of_proto cap_proto in
  let! revocation_receipt := λ s, on_capabilities
      (MemoryCapabilityStore.revoke (resolver s) cp (clock 1) cap_id (rpc.RevokeCapability_reason inner)) s in
  mret (rpc.mkRevokedCapability (Some (to_proto revocation_receipt)) (Some (to_proto (clock 2 0)))).

(** The check of the store, as the services call it. *)
Definition check_capability (clock : nat → Timestamp) (cap_id : Hash) (descriptor : ActionDescriptor)
  : RPC CheckEvaluation := λ s,
  on_capabilities (MemoryCapabilityStore.check DEFAULT_MAX_CHAIN_DEPTH (resolver s) cp (quarantine s)
                     fresh_swarm clock cap_id descriptor) s.

(* yutha-control-plane/src/grpc/capability.rs:263-312 CapabilityHandler::check *)
Definition capability_check clock (request : Request (option rpc.CheckRequest)) : RPC cproto.CheckResponse :=
  let! _auth := require_active (clock 0 0) request in
  let! inner := required "request" (into_inner request) in
  let! cap_proto := required "capability" (rpc.Check_capability inner) in
  let! action_proto := required "action" (rpc.Check_action inner) in
  let! cap := converted (E:=CapabilityError) cap_proto in
  let descriptor := ActionDescriptor_from action_proto in
  let! cap_id := lift (map_err (λ e, Status.internal ("content-address capability: " +:+ CryptoError.to_string e))
                         (content_address (T:=Capability) cap)) in
  let! evaluation := check_capability (clock 1) cap_id descriptor in
  mret (to_proto_with_receipt (CheckEvaluation.outcome evaluation)
          (Some (CheckEvaluation.check_receipt evaluation))).

(** ** [ReceiptService], which asks for no token *)

Definition on_log {A} (f : R → Result A ReceiptError) : RPC A := λ s,
  (map_err to_status (f (receipt_store s)), s).

(* yutha-control-plane/src/grpc/receipt.rs:47-75 ReceiptHandler::get *)
Definition receipt_get (request : Request (option proto.Hash)) : RPC rproto.Receipt :=
  let! id_proto := required "receipt_id" (into_inner request) in
  let! id := hash_of_proto id_proto in
  let! found := on_log (ReceiptStore.get id) in
  let! receipt := lift (ok_or found (Status.not_found ("receipt not found: " +:+ Hash.to_hex id))) in
  mret (to_proto receipt).

(* yutha-control-plane/src/grpc/receipt.rs:77-108 ReceiptHandler::query *)
Definition receipt_query (request : Request (option rproto.QueryRequest)) : RPC rpc.QueryResponse :=
  let! query_proto := required "query" (into_inner request) in
  let! q := converted (E:=ReceiptError) query_proto in
  let page_token := match rproto.Query_page_token query_proto with [] => None | t => Some t end in
  let! page := on_log (ReceiptStore.query q page_token) in
  mret (rpc.mkQueried (to_proto <$> Page.receipts page) (default [] (Page.next_page_token page))).
End services.
