(* ===== verification/EnvelopeService.v ===== *)
(** * [yutha-control-plane/src/grpc/envelope.rs]: sending an envelope

    The request evaluated against the constitution, the receipts of its
    outcome, and the handler of [EnvelopeService.Send]: bearer, sender,
    capability, constitution, transport.  The handler reads the two
    constitutions twice, and others can run in between, so it is split there:
    [send_begin], then [send_finish]. *)

From S2P Require Import Prelude RustStd Core CoreProto Crypto ReceiptTypes ReceiptProto Merkle.
From S2P Require Import ReceiptVerify Passport PassportStore Scope Capability Registry Envelope Tokio.
From S2P Require Import Score Enforcement CedarPlus Procedure Validate Evaluator Publisher EnforcementLoop.
From S2P Require Import ReceiptStore CapabilityStore Replay Transport Status Auth ControlPlane.

(** [serde_json]'s numbers from machine integers. *)
Class SerdeJsonInt `{SerdeJson} := { json_int : Z → JsonNumber }.

(* The messages of EnvelopeService in spec/control-plane/v1.proto. *)
Record SendEnvelopeRequest := mkSend {
  Send_envelope : option eproto.Envelope; Send_capability_id : option proto.Hash }.
Record SubscribeRequest := mkSubscribe { Subscribe_agent_id : option proto.AgentId }.

(** [{:?}] of a performative. *)
Definition performative_debug (p : Performative) : string :=
  match p with
  | Performative.Propose => "Propose" | Performative.Counter => "Counter" | Performative.Commit => "Commit"
  | Performative.Abort => "Abort" | Performative.Release => "Release" | Performative.Query => "Query"
  | Performative.Inform => "Inform" | Performative.Error => "Error"
  | Performative.RequestAction => "RequestAction" | Performative.Confirm => "Confirm"
  | Performative.Decline => "Decline"
  end.

Definition external_scope (e : Recipient.ExternalEndpoint) : string :=
  Recipient.scheme e +:+ "://" +:+ Recipient.authority e +:+ Recipient.path_hint e.
Definition broadcast_scope (b : Recipient.SwarmBroadcast) : string :=
  match Recipient.filter_tags b with [] => "*" | tags => str_join "," tags end.

(* yutha-control-plane/src/grpc/envelope.rs:82-92 recipient_descriptor_string *)
Definition recipient_descriptor_string (r : Recipient) : string :=
  match r with
  | Recipient.Agent id => "agent:" +:+ AgentId.to_string id
  | Recipient.Role role => "role:" +:+ role
  | Recipient.Swarm b => "swarm:" +:+ broadcast_scope b
  | Recipient.External e => "external:" +:+ external_scope e
  end.

(* yutha-control-plane/src/grpc/envelope.rs:283-293 ResolvedAgentAttrs *)
Record ResolvedAgentAttrs := mkAttrs {
  attr_framework : string; attr_passport_tier : string; attr_passport_hash : string;
  attr_reputation : string; budget_remaining_usd_cents : Z; budget_remaining_tool_calls : Z;
  budget_remaining_compute_ms : Z }.
Definition no_hash : string := str_join "" (replicate 64 "0"%string).
(* yutha-control-plane/src/grpc/envelope.rs:303-313 ResolvedAgentAttrs::placeholder *)
Definition placeholder : ResolvedAgentAttrs := mkAttrs "" "minimal" no_hash "1.0" i64_max i64_max i64_max.
(* yutha-control-plane/src/grpc/envelope.rs:319-325 passport_tier_str *)
Definition passport_tier_str (t : PassportTier) : string :=
  match t with
  | PassportTier.Minimal => "minimal" | PassportTier.Standard => "standard"
  | PassportTier.Verifiable => "verifiable"
  end.

Section send.
Context `{OffsetDateTimeOps}.
Context `{TimeOps, CryptoOps, HeaderOps, HexOps, SerdeJson} `{!SerdeJsonInt} {engine : Cedar}.
Context `{Encode rproto.Receipt, Encode pproto.Passport, Encode cproto.Capability, Encode eproto.Envelope}.
Context `{Encode cp_proto.AgentBearerToken, Decode cp_proto.AgentBearerToken}.
Context {P C R : Type} `{!PassportStore P, !ReceiptStore R, !Mpsc Envelope C}.
Context (topology : Topology) (cp : ControlPlaneIdentity) (fresh_swarm : SwarmId).
(** The iteration orders of hash maps and sets in the evaluator and the
    transport. *)
Context (values : gmap string ProcedureInstance → list ProcedureInstance)
        (attr_iter : gmap string JsonValue → list (string * JsonValue))
        (order : gset AgentId → list AgentId).
Notation State := (ControlPlaneState P C R).
Notation RPC A := (M State Status A).
Implicit Types (s : State) (clock : nat → nat → Timestamp).

(** ** The request to the evaluator *)

(* yutha-control-plane/src/grpc/envelope.rs:366-416 resolve_agent_attrs *)
Definition resolve_agent_attrs (agent_id : AgentId) (passport_store : P) (engine_state : EngineState)
  : ResolvedAgentAttrs :=
  let reputation := snap_reputation (Engine.get_agent_state (AgentId.to_string agent_id) engine_state) in
  match PassportStore.lookup agent_id passport_store with
  | Ok (Some passport) =>
      let passport_hash := match canonical_bytes passport with
                           | Ok message => hex (Hash.digest (sha256 message))
                           | Err _ => no_hash
                           end in
      mkAttrs (Passport.framework passport) (passport_tier_str (Passport.tier passport)) passport_hash
        reputation i64_max i64_max i64_max
  | Ok None | Err _ => mkAttrs "" "minimal" no_hash reputation i64_max i64_max i64_max
  end.

Definition jint (z : Z) : JsonValue := JNumber (json_int z).
Definition attrs_of (l : list (string * JsonValue)) : gmap string JsonValue := list_to_map l.

(* yutha-control-plane/src/grpc/envelope.rs:431-476 agent_entity *)
Definition agent_entity (agent_uid swarm_uid : string) (a : ResolvedAgentAttrs) : EntityRecord :=
  mkEntity (EntityUid.new "Yutha::Agent" agent_uid)
    (attrs_of [("agent_id", JString agent_uid); ("passport_tier", JString (attr_passport_tier a));
       ("framework", JString (attr_framework a)); ("passport_hash", JString (attr_passport_hash a));
       ("reputation", JObject [("__extn", JObject [("fn", JString "decimal"); ("arg", JString (attr_reputation a))])]);
       ("budget_remaining_usd_cents", jint (budget_remaining_usd_cents a));
       ("budget_remaining_tool_calls", jint (budget_remaining_tool_calls a));
       ("budget_remaining_compute_ms", jint (budget_remaining_compute_ms a))]%string)
    [EntityUid.new "Yutha::Swarm" swarm_uid].
(* yutha-control-plane/src/grpc/envelope.rs:488-508 resource_entity *)
Definition resource_entity (uid kind scope : string) (tags : list string) : EntityRecord :=
  mkEntity (EntityUid.new "Yutha::Resource" uid)
    (attrs_of [("resource_kind", JString kind); ("scope", JString scope); ("tags", json_strings tags)]%string) [].
(* yutha-control-plane/src/grpc/envelope.rs:510-529 swarm_entity *)
Definition swarm_entity (swarm_uid topology_mode constitution_version : string) : EntityRecord :=
  mkEntity (EntityUid.new "Yutha::Swarm" swarm_uid)
    (attrs_of [("swarm_id", JString swarm_uid); ("topology_mode", JString topology_mode);
               ("constitution_version", JString constitution_version)]%string) [].

(* yutha-control-plane/src/grpc/envelope.rs:142-165 build_eval_request_for_send (resource) *)
Definition send_resource (r : Recipient) : EntityUid * option EntityRecord :=
  let resource kind scope tags :=
    let uid := (kind +:+ ":" +:+ scope)%string in
    (EntityUid.new "Yutha::Resource" uid, Some (resource_entity uid kind scope tags)) in
  match r with
  | Recipient.Agent id => (EntityUid.new "Yutha::Agent" (AgentId.to_string id), None)
  | Recipient.Role role => resource "role"%string role []
  | Recipient.Swarm b => resource "swarm"%string (broadcast_scope b) (Recipient.filter_tags b)
  | Recipient.External e => resource "external"%string (external_scope e) []
  end.

(* yutha-control-plane/src/grpc/envelope.rs:213-250 build_eval_request_for_send (context) *)
Definition send_context (envelope : Envelope) (cap_id : option Hash) (now : Timestamp) : gmap string JsonValue :=
  attrs_of [("performative", JString (performative_debug (Envelope.performative envelope)));
    ("payload_schema_id", JString (Envelope.payload_schema_id envelope));
    ("tags", json_strings (Envelope.tags envelope));
    ("capability_id", JString (default "" ((λ h, hex (Hash.digest h)) <$> cap_id)));
    ("estimated_cost_usd_cents", jint 0); ("estimated_cost_tool_calls", jint 0);
    ("estimated_cost_compute_ms", jint 0); ("current_wall_clock", JString (Timestamp.wall_clock now));
    ("current_time_unix_ns", jint (Z.of_N (Timestamp.monotonic_ns now)))]%string.

(* yutha-control-plane/src/grpc/envelope.rs:117-263 build_eval_request_for_send *)
Definition build_eval_request_for_send (constitution_hash : Hash) (principal_id : AgentId)
  (envelope : Envelope) (cap_id : option Hash) (swarm_id : SwarmId)
  (constitution_version topology_mode : string) (passport_store : P) (engine_state : EngineState)
  (now : Timestamp) : EvaluationRequest :=
  let swarm_uid := SwarmId.to_string swarm_id in
  let entity a := agent_entity (AgentId.to_string a) swarm_uid (resolve_agent_attrs a passport_store engine_state) in
  let '(resource_uid, resource_snapshot) := send_resource (Envelope.recipient envelope) in
  let recipient_entity :=
    match Envelope.recipient envelope with
    | Recipient.Agent rid => if bool_decide (rid = principal_id) then [] else [entity rid]
    | _ => []
    end in
  CedarPlus.mkRequest constitution_hash "1.1.0" "SendEnvelope" principal_id resource_uid
    (send_context envelope cap_id now)
    (mkEntitySnapshot ([entity principal_id; swarm_entity swarm_uid topology_mode constitution_version]
                       ++ recipient_entity ++ option_list resource_snapshot))
    (Timestamp.wall_clock now) (Timestamp.monotonic_ns now).

(** ** The receipts of an evaluation *)

Definition hash_entry (key : string) (h : Hash) : Evidence :=
  Evidence.new key "type.yutha.dev/v1/Hash" (Hash.digest h).
Definition string_entry (key value : string) : Evidence :=
  Evidence.new key "type.yutha.dev/v1/String" (as_bytes value).

(** What both kinds of receipt say; [which] names the constitution. *)
(* yutha-control-plane/src/grpc/envelope.rs:569-615 emit_constitution_eval_receipt (evidence) *)
Definition outcome_evidence (which : string) (constitution_hash : Hash) (outcome : EvaluationOutcome)
  (subject_agent_id : AgentId) : list Evidence :=
  [hash_entry which constitution_hash; string_entry "action_kind" "SendEnvelope";
   string_entry "matched_rule_ids" (str_join "," (matched_rule_ids outcome));
   hash_entry "input_attribute_digest" (evidence_digest outcome);
   Evidence.new "subject_agent_id" "type.yutha.dev/v1/AgentId" (as_bytes (AgentId.to_string subject_agent_id))]
  ++ option_list (string_entry "deny_reason" <$> deny_reason outcome)
  ++ option_list (string_entry "total_score" <$> outcome_total_score outcome).

Notation emit := (emit_receipt cp).

(* yutha-control-plane/src/grpc/envelope.rs:555-661 emit_constitution_eval_receipt *)
Definition emit_constitution_eval_receipt (clock : nat → Timestamp) (outcome : EvaluationOutcome)
  (constitution_hash : Hash) (constitution_version : string) (swarm_id : SwarmId)
  (subject_agent_id : AgentId) (shadow_constitution_hash : option Hash) : RPC Hash :=
  emit "constitution.evaluate" clock swarm_id
    match decision outcome with
    | Decision.Permit => "constitution.evaluate.pass" | Decision.Deny => "constitution.evaluate.deny"
    end constitution_version
    (outcome_evidence "constitution_hash" constitution_hash outcome subject_agent_id
     ++ option_list (hash_entry "shadow_constitution_hash" <$> shadow_constitution_hash)).

(* yutha-control-plane/src/grpc/envelope.rs:696-788 emit_constitution_shadow_eval_receipt *)
Definition emit_constitution_shadow_eval_receipt (clock : nat → Timestamp) (outcome : EvaluationOutcome)
  (shadow_constitution_hash : Hash) (shadow_constitution_version : string) (swarm_id : SwarmId)
  (subject_agent_id : AgentId) : RPC Hash :=
  emit "constitution.evaluate.shadow" clock swarm_id
    match decision outcome with
    | Decision.Permit => "constitution.evaluate.shadow.pass"
    | Decision.Deny => "constitution.evaluate.shadow.deny"
    end shadow_constitution_version
    (outcome_evidence "shadow_constitution_hash" shadow_constitution_hash outcome subject_agent_id).

(** ** The handler *)

(** What [send_begin] hands to [send_finish]. *)
Record Prepared := mkPrepared {
  prep_agent : AgentId; prep_envelope : Envelope; prep_hash : Hash; prep_version : string;
  prep_shadow : option (Hash * string); prep_request : EvaluationRequest }.

Definition send_descriptor (envelope : Envelope) : ActionDescriptor :=
  ActionDescriptor.mk "envelope.send" (Envelope.tags envelope) ∅
    (Some (recipient_descriptor_string (Envelope.recipient envelope))) None.

(* yutha-control-plane/src/grpc/envelope.rs:857-876 EnvelopeHandler::send (capability) *)
Definition send_check (clock : nat → Timestamp) (cap_id : option Hash) (envelope : Envelope) : RPC unit :=
  match cap_id with
  | None => mret tt
  | Some cap_id =>
      let! evaluation := check_capability cp fresh_swarm clock cap_id (send_descriptor envelope) in
      let outcome := CheckEvaluation.outcome evaluation in
      if negb (CheckOutcome.permitted outcome) then
        throw (Status.permission_denied ("capability check denied: " +:+ CheckOutcome.deny_reason outcome))
      else mret tt
  end.

Definition topology_mode_str : string :=
  match Topology.mode topology with
  | Topology.Closed => "closed" | Topology.Open => "open" | Topology.Hybrid => "hybrid"
  end.
Definition version_of (a : @ActivatedConstitution _ engine) : string := Constitution.constitution_version (constitution a).

(* yutha-control-plane/src/grpc/envelope.rs:797-933 EnvelopeHandler::send (up to the evaluation) *)
Definition send_begin clock (request : Request SendEnvelopeRequest) : RPC Prepared :=
  let! auth := require_active topology (clock 0 0) request in
  let req := into_inner request in
  let! envelope_proto := required "envelope" (Send_envelope req) in
  let! envelope := converted (E:=TransportError) envelope_proto in
  if negb (bool_decide (Envelope.from_agent envelope = AuthContext.agent_id auth)) then
    throw (Status.permission_denied "envelope.from_agent must match the bearer-token agent_id")
  else
    let! cap_id := lift (map_err (to_status (E:=CoreError)) (try_from_opt (Send_capability_id req))) in
    if Topology.require_capability_for_send topology && bool_decide (cap_id = None) then
      throw (Status.invalid_argument
        "topology.require_capability_for_send is true: SendEnvelopeRequest.capability_id is required")
    else
      do! send_check (clock 1) cap_id envelope in
      let! active := gets (λ s, current (cedar_plus s)) in
      let! shadow := gets (λ s, current_shadow (cedar_plus s)) in
      let! active := lift (ok_or active (Status.failed_precondition
        "no active constitution; operator must call ConstitutionService.Activate before envelope sends are permitted")) in
      let! stores := gets (λ s, (passports s, enforcement s)) in
      mret (mkPrepared (AuthContext.agent_id auth) envelope (hash_of active) (version_of active)
              ((λ a, (hash_of a, version_of a)) <$> shadow)
              (build_eval_request_for_send (hash_of active) (AuthContext.agent_id auth) envelope cap_id
                 (Topology.swarm_id topology) (version_of active) topology_mode_str stores.1 stores.2 (clock 2 0))).

Definition on_evaluator {A} (m : M CedarPlusEvaluator CedarPlusError A) : RPC A :=
  m_map_err (λ e, Status.internal ("constitution eval: " +:+ CedarPlusError.to_string e))
    (zoom cedar_plus set_evaluator m).

(* yutha-control-plane/src/grpc/envelope.rs:971-984 EnvelopeHandler::send (shadow receipt) *)
Definition record_shadow (clock : nat → Timestamp) (pr : Prepared) (shadow_outcome : option EvaluationOutcome)
  : M State Failure unit :=
  match shadow_outcome with
  | None => mret tt
  | Some outcome =>
      match prep_shadow pr with
      | None => throw (Panicked "shadow_outcome_opt is Some implies shadow_meta is Some")
      | Some (shadow_hash, shadow_version) =>
          do! refusing (emit_constitution_shadow_eval_receipt clock outcome shadow_hash shadow_version
                          (Topology.swarm_id topology) (prep_agent pr)) in
          mret tt
      end
  end.

(* yutha-control-plane/src/grpc/envelope.rs:941-1009 EnvelopeHandler::send (from the evaluation on) *)
Definition send_finish clock (pr : Prepared) : M State Failure (option proto.Hash) :=
  let! outcomes := refusing (on_evaluator (evaluate_pair values attr_iter (prep_request pr) (clock 3))) in
  let '(active_outcome, shadow_outcome) := outcomes in
  do! refusing (emit_constitution_eval_receipt (clock 4) active_outcome (prep_hash pr) (prep_version pr)
                  (Topology.swarm_id topology) (prep_agent pr) (fst <$> prep_shadow pr)) in
  do! record_shadow (clock 5) pr shadow_outcome in
  match decision active_outcome with
  | Decision.Deny =>
      throw (Refused (Status.permission_denied
        ("constitution check denied: " +:+ default "unknown" (deny_reason active_outcome))))
  | Decision.Permit =>
      let! send_receipt := refusing (λ s, on_transport
          (MemoryTransport.send (resolver s) cp order (clock 6) (prep_envelope pr)) s) in
      mret (Some (to_proto send_receipt))
  end.

(* yutha-control-plane/src/grpc/envelope.rs:797-1009 EnvelopeHandler::send *)
Definition envelope_send clock (request : Request SendEnvelopeRequest) : M State Failure (option proto.Hash) :=
  let! pr := refusing (send_begin clock request) in send_finish clock pr.

(** ** Subscribing

    The inbox is created if the agent has none; the tasks that forward it are
    in [Subscription.v]. *)

(* yutha-transport/src/memory.rs:428-448 MemoryTransport::subscribe (inbox) *)
Definition ensure_inbox {L} (recipient : AgentId) (t : MemoryTransport C L) : MemoryTransport C L :=
  match inboxes t !! recipient with
  | Some _ => t
  | None => MemoryTransport.register_recipient recipient t
  end.

(* yutha-control-plane/src/grpc/envelope.rs:1019-1081 EnvelopeHandler::subscribe (up to the stream) *)
Definition envelope_subscribe clock (request : Request SubscribeRequest) : RPC AgentId :=
  let! auth := require_active topology (clock 0 0) request in
  let! target :=
    match Subscribe_agent_id (into_inner request) with
    | Some id_proto =>
        let! claimed := agent_of id_proto in
        if negb (bool_decide (claimed = AuthContext.agent_id auth)) then
          throw (Status.permission_denied "Subscribe.agent_id must match the bearer-token agent_id")
        else mret claimed
    | None => mret (AuthContext.agent_id auth)
    end in
  do! modify (λ s, set_transport (ensure_inbox target (transport s)) s) in
  do! modify (revocation_signal_for target) in
  mret target.
End send.
