(* ===== verification/ConstitutionService.v ===== *)
(** * [yutha-control-plane/src/grpc/constitution.rs]: the constitution service

    Constitutions from the wire and back, activation, the shadow slot, and the
    receipts that record them.  [Activate] and [PromoteShadow] set the evaluator
    first and the enforcement engine later, and give up the state in between; the
    handlers are split there. *)

From S2P Require Import Prelude RustStd Core CoreProto Crypto ReceiptTypes ReceiptProto Merkle.
From S2P Require Import ReceiptVerify Passport PassportStore Scope Capability Registry Envelope Tokio.
From S2P Require Import Score Enforcement CedarPlus Procedure Validate Evaluator Publisher EnforcementLoop.
From S2P Require Import ReceiptStore CapabilityStore Replay Transport Status Auth ControlPlane EnvelopeService.

(** [serde_yaml] on engine configurations, an error with its text. *)
Class SerdeYaml := {
  yaml_from_str : string → Result EngineConfig string;
  yaml_to_string : EngineConfig → Result string string }.

(* yutha-cedar-plus/src/loader.rs:203-206 parse_engine_config_yaml *)
Definition parse_engine_config_yaml `{SerdeYaml} (yaml : string) : Result EngineConfig CedarPlusError :=
  map_err (λ e, CedarPlusError.Parse ("engine config YAML: " +:+ e)) (yaml_from_str yaml).

(* The messages of ConstitutionService in spec/control-plane/v1.proto. *)
Record ConstitutionProto := mkConstitutionProto {
  Proto_spec_version : option proto.Version; Proto_schema_version : string;
  Proto_constitution_version : string; Proto_parent_version : option proto.Hash;
  Proto_swarm_id : option proto.SwarmId; Proto_cedar_source : string;
  Proto_engine_config_yaml : string; Proto_issued_at : option proto.Timestamp }.

(** Conversion of a required field. *)
Definition field_of {P A} `{TryFromProto P A CoreError} (name : string) (o : option P) : Result A Status :=
  let? p := ok_or o (missing_field name) in map_err to_status (try_from (E:=CoreError) p).

Section conversions.
Context `{TimeOps, CryptoOps, SerdeYaml} `{Encode ConstitutionProto}.

(* yutha-control-plane/src/grpc/constitution.rs:348-400 constitution_from_proto *)
Definition constitution_from_proto (p : ConstitutionProto) : Result Constitution Status :=
  let? spec_version := field_of "constitution.spec_version" (Proto_spec_version p) in
  let? swarm_id := field_of "constitution.swarm_id" (Proto_swarm_id p) in
  let? issued_at := field_of "constitution.issued_at" (Proto_issued_at p) in
  let? parent_version := map_err (to_status (E:=CoreError)) (try_from_opt (Proto_parent_version p)) in
  let? _ := map_err cedar_plus_to_status (parse_engine_config_yaml (Proto_engine_config_yaml p)) in
  let constitution_hash := sha256 (encode_to_vec p) in
  let? engine_config := map_err cedar_plus_to_status (parse_engine_config_yaml (Proto_engine_config_yaml p)) in
  Ok (Constitution.mk constitution_hash spec_version (Proto_schema_version p) (Proto_constitution_version p)
        parent_version swarm_id (Proto_cedar_source p) engine_config issued_at).

(* yutha-control-plane/src/grpc/constitution.rs:403-417 constitution_to_proto *)
Definition constitution_to_proto (c : Constitution) : ConstitutionProto :=
  mkConstitutionProto (Some (to_proto (Constitution.spec_version c))) (Constitution.schema_version c)
    (Constitution.constitution_version c) (to_proto <$> Constitution.parent_version c)
    (Some (to_proto (Constitution.swarm_id c))) (Constitution.cedar_source c)
    (default ""%string (result_ok (yaml_to_string (Constitution.engine_config c))))
    (Some (to_proto (Constitution.issued_at c))).
End conversions.

Section service.
Context `{TimeOps, CryptoOps, HeaderOps, HexOps, SerdeJson, SerdeYaml} {engine : Cedar}.
Context `{Encode rproto.Receipt, Encode ConstitutionProto}.
Context `{Encode cp_proto.AgentBearerToken, Decode cp_proto.AgentBearerToken}.
Context `{Encode cp_proto.OperatorBearerToken, Decode cp_proto.OperatorBearerToken}.
Context {P C R : Type} `{!PassportStore P, !ReceiptStore R}.
Context (topology : Topology) (cp : ControlPlaneIdentity) (operator_public_key : option PublicKey).
Context (set_iter : gset string → list string)
        (graph_iter : gmap string (gset string) → list (string * gset string)).
Notation State := (ControlPlaneState P C R).
Notation RPC A := (M State Status A).
Notation Activated := (@ActivatedConstitution _ engine).
Implicit Types (s : State) (clock : nat → nat → Timestamp).
Notation emit := (emit_receipt cp).
Notation require_operator := (require_operator topology operator_public_key).
Notation require_active := (require_active topology).

Definition on_slots {A} (m : M CedarPlusEvaluator CedarPlusError A) : RPC A :=
  m_map_err cedar_plus_to_status (zoom cedar_plus set_evaluator m).
Definition bind_engine (a : Activated) : RPC unit :=
  modify (λ s, set_engine (Engine.activate (resolved_engine_config a) (enforcement s)) s).
Definition entry_of (key : string) (o : option Hash) : list Evidence := option_list (hash_entry key <$> o).

(* yutha-control-plane/src/grpc/constitution.rs:435-490 emit_constitution_activate_receipt *)
Definition emit_constitution_activate_receipt (clock : nat → Timestamp) (h : Hash) (version : string)
  (swarm_id : SwarmId) : RPC Hash :=
  emit "constitution.activate" clock swarm_id "constitution.activate" version
    [hash_entry "constitution_hash" h; string_entry "constitution_version" version].
(* yutha-control-plane/src/grpc/constitution.rs:505-576 emit_constitution_shadow_activate_receipt *)
Definition emit_constitution_shadow_activate_receipt (clock : nat → Timestamp) (shadow_hash : Hash)
  (shadow_version : string) (parent_active : option Hash) (schema_version : string) (swarm_id : SwarmId)
  : RPC Hash :=
  emit "constitution.shadow_activate" clock swarm_id "constitution.shadow_activate" shadow_version
    ([hash_entry "shadow_constitution_hash" shadow_hash;
      string_entry "shadow_constitution_version" shadow_version;
      string_entry "schema_version" schema_version]
     ++ entry_of "parent_active_constitution_hash" parent_active).
(* yutha-control-plane/src/grpc/constitution.rs:585-653 emit_constitution_shadow_clear_receipt *)
Definition emit_constitution_shadow_clear_receipt (clock : nat → Timestamp) (previously_shadowed : option Hash)
  (shadow_version : option string) (swarm_id : SwarmId) : RPC Hash := λ s,
  let version := match shadow_version with
                 | Some v => v
                 | None => default "0.0.0"%string (version_of <$> current (cedar_plus s))
                 end in
  emit "constitution.shadow_clear" clock swarm_id "constitution.shadow_clear" version
    (entry_of "previously_shadowed_constitution_hash" previously_shadowed) s.
(* yutha-control-plane/src/grpc/constitution.rs:671-742 emit_constitution_shadow_promote_receipt *)
Definition emit_constitution_shadow_promote_receipt (clock : nat → Timestamp) (from_active : option Hash)
  (to_active : Hash) (to_version schema_version : string) (swarm_id : SwarmId) : RPC Hash :=
  emit "constitution.shadow_promote" clock swarm_id "constitution.shadow_promote" to_version
    ([hash_entry "to_active_constitution_hash" to_active;
      string_entry "to_constitution_version" to_version;
      string_entry "schema_version" schema_version]
     ++ entry_of "from_active_constitution_hash" from_active).

(** What an activation has in hand: the constitution it was asked for once the
    evaluator has it, and then the one it read back as active. *)
Record Swapped := mkSwapped { swap_swarm : SwarmId; swap_hash : Hash; swap_version : string }.
Record Activating := mkActivating {
  act_swarm : SwarmId; act_hash : Hash; act_version : string; act_active : option Activated }.

(* yutha-control-plane/src/grpc/constitution.rs:54-83 ConstitutionHandler::activate (up to the evaluator) *)
Definition activate_swap clock (request : Request (option ConstitutionProto)) : RPC Swapped :=
  let! op_auth := require_operator (clock 0 0) request in
  let! constitution_proto := required "constitution" (into_inner request) in
  let! c := lift (constitution_from_proto constitution_proto) in
  do! on_slots (activate set_iter graph_iter c) in
  mret (mkSwapped (OperatorAuthContext.swarm_id op_auth) (Constitution.constitution_hash c)
          (Proto_constitution_version constitution_proto)).

(* yutha-control-plane/src/grpc/constitution.rs:90-90 ConstitutionHandler::activate (reading back) *)
Definition activate_read (w : Swapped) : RPC Activating :=
  let! active := gets (λ s, current (cedar_plus s)) in
  mret (mkActivating (swap_swarm w) (swap_hash w) (swap_version w) active).

(* yutha-control-plane/src/grpc/constitution.rs:90-116 ConstitutionHandler::activate (from the engine on) *)
Definition activate_finish clock (a : Activating) : RPC (option proto.Hash * option proto.Hash) :=
  do! match act_active a with Some active => bind_engine active | None => mret tt end in
  let version := default (act_version a) (version_of <$> act_active a) in
  let! receipt := emit_constitution_activate_receipt (clock 1) (act_hash a) version (act_swarm a) in
  mret (Some (to_proto (act_hash a)), Some (to_proto receipt)).

(* yutha-control-plane/src/grpc/constitution.rs:54-116 ConstitutionHandler::activate *)
Definition constitution_activate clock (request : Request (option ConstitutionProto))
  : RPC (option proto.Hash * option proto.Hash) :=
  let! w := activate_swap clock request in
  let! a := activate_read w in
  activate_finish clock a.

(* yutha-control-plane/src/grpc/constitution.rs:118-135 ConstitutionHandler::get_active *)
Definition constitution_get_active {T} clock (request : Request T) : RPC (ConstitutionProto * proto.Hash) :=
  do! require_active (clock 0 0) request in
  let! active := gets (λ s, current (cedar_plus s)) in
  let! active := lift (ok_or active (Status.not_found "no active constitution")) in
  mret (constitution_to_proto (constitution active), to_proto (hash_of active)).

(* yutha-control-plane/src/grpc/constitution.rs:139-210 ConstitutionHandler::activate_shadow *)
Definition constitution_activate_shadow clock (request : Request (option ConstitutionProto))
  : RPC (option proto.Hash * option proto.Hash) :=
  let! op_auth := require_operator (clock 0 0) request in
  let! constitution_proto := required "constitution" (into_inner request) in
  let! c := lift (constitution_from_proto constitution_proto) in
  let! parent_active := gets (λ s, hash_of <$> current (cedar_plus s)) in
  let! shadow_hash := on_slots (activate_shadow set_iter graph_iter c) in
  let! shadow := gets (λ s, current_shadow (cedar_plus s)) in
  let '(version, schema_version) :=
    match shadow with
    | Some a => (version_of a, Constitution.schema_version (constitution a))
    | None => (Proto_constitution_version constitution_proto, Proto_schema_version constitution_proto)
    end in
  let! receipt := emit_constitution_shadow_activate_receipt (clock 1) shadow_hash version parent_active
                    schema_version (OperatorAuthContext.swarm_id op_auth) in
  mret (Some (to_proto shadow_hash), Some (to_proto receipt)).

(* yutha-control-plane/src/grpc/constitution.rs:212-243 ConstitutionHandler::clear_shadow *)
Definition constitution_clear_shadow {T} clock (request : Request T) : RPC (option proto.Hash * option proto.Hash) :=
  let! op_auth := require_operator (clock 0 0) request in
  let! version := gets (λ s, version_of <$> current_shadow (cedar_plus s)) in
  let! previously_shadowed := on_slots clear_shadow in
  let! receipt := emit_constitution_shadow_clear_receipt (clock 1) previously_shadowed version
                    (OperatorAuthContext.swarm_id op_auth) in
  mret (Some (to_proto receipt), to_proto <$> previously_shadowed).

(** What a promotion has in hand once the evaluator has moved the shadow. *)
Record Promoting := mkPromoting { prom_swarm : SwarmId; prom_outcome : @PromoteShadowOutcome _ engine }.

(* yutha-control-plane/src/grpc/constitution.rs:245-260 ConstitutionHandler::promote_shadow (up to the evaluator) *)
Definition promote_begin {T} clock (request : Request T) : RPC Promoting :=
  let! op_auth := require_operator (clock 0 0) request in
  let! outcome := on_slots promote_shadow in
  let! outcome := lift (ok_or outcome (Status.failed_precondition
                    "no shadow constitution to promote; call ActivateShadow first")) in
  mret (mkPromoting (OperatorAuthContext.swarm_id op_auth) outcome).

(* yutha-control-plane/src/grpc/constitution.rs:270-292 ConstitutionHandler::promote_shadow (from the engine on) *)
Definition promote_finish clock (p : Promoting)
  : RPC (option proto.Hash * option proto.Hash * option proto.Hash) :=
  let outcome := prom_outcome p in
  do! bind_engine (promoted outcome) in
  let! receipt := emit_constitution_shadow_promote_receipt (clock 1) (from_active_constitution_hash outcome)
      (to_active_constitution_hash outcome) (to_constitution_version outcome) (promote_schema_version outcome)
      (prom_swarm p) in
  mret (Some (to_proto (to_active_constitution_hash outcome)), Some (to_proto receipt),
        to_proto <$> from_active_constitution_hash outcome).

(* yutha-control-plane/src/grpc/constitution.rs:245-293 ConstitutionHandler::promote_shadow *)
Definition constitution_promote_shadow {T} clock (request : Request T)
  : RPC (option proto.Hash * option proto.Hash * option proto.Hash) :=
  let! p := promote_begin clock request in promote_finish clock p.

(* yutha-control-plane/src/grpc/constitution.rs:295-324 ConstitutionHandler::get_active_shadow *)
Definition constitution_get_active_shadow {T} clock (request : Request T)
  : RPC (option (ConstitutionProto * proto.Hash)) :=
  do! require_active (clock 0 0) request in
  let! shadow := gets (λ s, current_shadow (cedar_plus s)) in
  mret ((λ a, (constitution_to_proto (constitution a), to_proto (hash_of a))) <$> shadow).
End service.
