(* ===== verification/Subscription.v ===== *)
(** * [yutha-transport/src/memory.rs], [grpc/envelope.rs]: the streams of a subscriber

    [MemoryTransport::subscribe] starts a task that takes envelopes from the
    agent's inbox, records their delivery and passes them on; the handler of
    [EnvelopeService.Subscribe] starts a second one that ends the stream when
    the agent is revoked.  A newer subscription tells the older tasks to stop
    through a [Notify].  Here are the tasks of all subscriptions of one agent,
    step by step between their [await]s. *)

From S2P Require Import Prelude RustStd Core CoreProto Crypto ReceiptTypes ReceiptProto Merkle.
From S2P Require Import ReceiptVerify ReceiptStore Passport PassportStore Envelope Tokio Replay Transport Status.

(** A [tokio::sync::Notify] is the number of calls of [notify_waiters]; a
    [notified()] future remembers the number at its creation, and is ready when
    it has grown. *)
Definition notified_ready (seen now : nat) : bool := (seen <? now)%nat.

(* SubscribedEnvelope of spec/control-plane/v1.proto. *)
Record SubscribedEnvelope := mkSubscribed {
  Subscribed_envelope : option eproto.Envelope; Subscribed_deliver_receipt : option proto.Hash }.
Definition Item := Result (Envelope * Hash) TransportError.
Definition Frame := Result SubscribedEnvelope Status.
(* yutha-control-plane/src/grpc/envelope.rs:1065-1071 EnvelopeHandler::subscribe (mapped) *)
Definition mapped (item : Item) : Frame :=
  match item with
  | Ok (envelope, deliver_receipt) =>
      Ok (mkSubscribed (Some (to_proto envelope)) (Some (to_proto deliver_receipt)))
  | Err e => Err (to_status e)
  end.
Definition farewell : Frame := Err (Status.unauthenticated "agent revoked").

(** Where the task of the transport stands: it waits for the inbox's lock; it
    has it and waits in [select!]; it records a delivery; it passes an item on;
    it has ended. *)
Inductive Inner := Locking | Selecting (seen : nat) | Recording (e : Envelope) | Passing (item : Item) | Gone.
(** Where the task of the service stands: not polled yet, in [select!], passing
    a frame on, sending its last frame, ended. *)
Inductive Outer := Starting | Waiting (seen : nat) | Handing (f : Frame) | Refusing | Ended.

Section feed.
Context `{TimeOps} `{CryptoOps} `{Encode rproto.Receipt} `{Encode eproto.Envelope}.
Context {C CI CO R : Type} `{!Mpsc Envelope C, !Mpsc Item CI, !Mpsc Frame CO, !ReceiptStore R}.
Context (resolver : PassportResolver) (cp : ControlPlaneIdentity) (recipient : AgentId).
Notation Transport := (MemoryTransport C R).

(** One subscription; [taken] and [read] are history: the envelopes its task
    took and the frames the client got. *)
Record Sub := mkSub {
  inbox_id : nat; inner : Inner; inner_tx : CI; outer : Outer; outer_tx : CO; dropped : bool;
  taken : list Envelope; read : list Frame }.
Implicit Types (u : Sub).
Definition set_inner (i : Inner) u := mkSub (inbox_id u) i (inner_tx u) (outer u) (outer_tx u) (dropped u) (taken u) (read u).
Definition set_inner_tx (c : CI) u := mkSub (inbox_id u) (inner u) c (outer u) (outer_tx u) (dropped u) (taken u) (read u).
Definition set_outer (o : Outer) u := mkSub (inbox_id u) (inner u) (inner_tx u) o (outer_tx u) (dropped u) (taken u) (read u).
Definition set_outer_tx (c : CO) u := mkSub (inbox_id u) (inner u) (inner_tx u) (outer u) c (dropped u) (taken u) (read u).
Definition took (e : Envelope) u :=
  mkSub (inbox_id u) (inner u) (inner_tx u) (outer u) (outer_tx u) (dropped u) (taken u ++ [e]) (read u).
Definition got (f : Frame) u :=
  mkSub (inbox_id u) (inner u) (inner_tx u) (outer u) (outer_tx u) (dropped u) (taken u) (read u ++ [f]).
Definition drop_stream u := mkSub (inbox_id u) (inner u) (inner_tx u) (outer u) (outer_tx u) true (taken u) (read u).

(** The receiver of the transport's channel lives in the service's task. *)
Definition inner_closed u : bool := match outer u with Ended => true | _ => false end.

(** A call of [subscribe] under way. *)
Inductive Call := Registering | Fetching | Superseding (id : nat).
Record Feed := mkFeed {
  feed : Transport; supersede : nat; revocation : nat; calls : list Call; subs : list Sub }.
Implicit Types (v : Feed).
Definition set_feed t v := mkFeed t (supersede v) (revocation v) (calls v) (subs v).
Definition set_calls l v := mkFeed (feed v) (supersede v) (revocation v) l (subs v).
Definition set_sub (k : nat) u v := mkFeed (feed v) (supersede v) (revocation v) (calls v) (<[k := u]> (subs v)).

(** Nobody sends to a channel that was replaced in the map of senders. *)
Definition abandoned (id : nat) (t : Transport) : bool := bool_decide (senders t !! recipient ≠ Some id).
Definition selecting u : bool := match inner u with Selecting _ => true | _ => false end.
Definition locked (id : nat) v : Prop := Exists (λ u, inbox_id u = id ∧ selecting u = true) (subs v).

(** The task of [MemoryTransport::subscribe]; its [select!] is biased. *)
(* yutha-transport/src/memory.rs:480-558 MemoryTransport::subscribe (task) *)
Inductive inner_step (k : nat) : Feed → Feed → Prop :=
| inner_lock v u : subs v !! k = Some u → inner u = Locking → ¬ locked (inbox_id u) v →
    inner_step k v (set_sub k (set_inner (Selecting (supersede v)) u) v)
| inner_exit_closed v u seen : subs v !! k = Some u → inner u = Selecting seen → inner_closed u = true →
    inner_step k v (set_sub k (set_inner Gone u) v)
| inner_exit_superseded v u seen : subs v !! k = Some u → inner u = Selecting seen →
    inner_closed u = false → notified_ready seen (supersede v) = true →
    inner_step k v (set_sub k (set_inner Gone u) v)
| inner_recv v u seen c e c' : subs v !! k = Some u → inner u = Selecting seen →
    inner_closed u = false → notified_ready seen (supersede v) = false →
    channels (feed v) !! inbox_id u = Some c → recv c = Some (Some e, c') →
    inner_step k v (set_sub k (took e (set_inner (Recording e) u))
                      (set_feed (MemoryTransport.with_channels (<[inbox_id u := c']>) (feed v)) v))
| inner_exit_inbox v u seen c : subs v !! k = Some u → inner u = Selecting seen →
    inner_closed u = false → notified_ready seen (supersede v) = false →
    channels (feed v) !! inbox_id u = Some c → recv c = None → abandoned (inbox_id u) (feed v) = true →
    inner_step k v (set_sub k (set_inner Gone u) v)
| inner_record v u e clock r t : subs v !! k = Some u → inner u = Recording e →
    MemoryTransport.record resolver cp clock "envelope.deliver" e [MemoryTransport.to_agent_evidence recipient] (feed v)
      = (r, t) →
    inner_step k v (set_sub k (set_inner (Passing (rbind r (λ receipt_id, Ok (e, receipt_id)))) u) (set_feed t v))
| inner_send_closed v u item : subs v !! k = Some u → inner u = Passing item → inner_closed u = true →
    inner_step k v (set_sub k (set_inner Gone u) v)
| inner_send v u item c : subs v !! k = Some u → inner u = Passing item → inner_closed u = false →
    try_send item (inner_tx u) = (Ok tt, c) →
    inner_step k v (set_sub k (set_inner Locking (set_inner_tx c u)) v).

(** The task of the [Subscribe] handler, biased as well. *)
(* yutha-control-plane/src/grpc/envelope.rs:1085-1150 EnvelopeHandler::subscribe (task) *)
Inductive outer_step (k : nat) : Feed → Feed → Prop :=
| outer_start v u : subs v !! k = Some u → outer u = Starting →
    outer_step k v (set_sub k (set_outer (Waiting (revocation v)) u) v)
| outer_exit_closed v u seen : subs v !! k = Some u → outer u = Waiting seen → dropped u = true →
    outer_step k v (set_sub k (set_outer Ended u) v)
| outer_revoked v u seen : subs v !! k = Some u → outer u = Waiting seen → dropped u = false →
    notified_ready seen (revocation v) = true →
    outer_step k v (set_sub k (set_outer Refusing u) v)
| outer_next v u seen item c : subs v !! k = Some u → outer u = Waiting seen → dropped u = false →
    notified_ready seen (revocation v) = false → recv (inner_tx u) = Some (Some item, c) →
    outer_step k v (set_sub k (set_outer (Handing (mapped item)) (set_inner_tx c u)) v)
| outer_exit_end v u seen : subs v !! k = Some u → outer u = Waiting seen → dropped u = false →
    notified_ready seen (revocation v) = false → recv (inner_tx u) = None → inner u = Gone →
    outer_step k v (set_sub k (set_outer Ended u) v)
| outer_send_closed v u f : subs v !! k = Some u → outer u = Handing f ∨ outer u = Refusing → dropped u = true →
    outer_step k v (set_sub k (set_outer Ended u) v)
| outer_send v u f c : subs v !! k = Some u → outer u = Handing f → dropped u = false →
    try_send f (outer_tx u) = (Ok tt, c) →
    outer_step k v (set_sub k (set_outer (Waiting (revocation v)) (set_outer_tx c u)) v)
| outer_refuse v u c : subs v !! k = Some u → outer u = Refusing → dropped u = false →
    try_send farewell (outer_tx u) = (Ok tt, c) →
    outer_step k v (set_sub k (set_outer Ended (set_outer_tx c u)) v).

(** A new subscription: its two tasks, and the signal to the older ones. *)
(* yutha-transport/src/memory.rs:428-479 MemoryTransport::subscribe *)
Inductive subscribe_step : Feed → Feed → Prop :=
| subscribe_new v : inboxes (feed v) !! recipient = None → subscribe_step v (set_calls (Registering :: calls v) v)
| subscribe_again v : is_Some (inboxes (feed v) !! recipient) → subscribe_step v (set_calls (Fetching :: calls v) v)
| subscribe_register v l : calls v ≡ₚ Registering :: l →
    subscribe_step v (set_calls (Fetching :: l) (set_feed (MemoryTransport.register_recipient recipient (feed v)) v))
| subscribe_fetch v l id : calls v ≡ₚ Fetching :: l → inboxes (feed v) !! recipient = Some id →
    subscribe_step v (set_calls (Superseding id :: l) v)
| subscribe_spawn v l id : calls v ≡ₚ Superseding id :: l →
    subscribe_step v (mkFeed (feed v) (S (supersede v)) (revocation v) l
      (subs v ++ [mkSub id Locking (mpsc_channel 8) Starting (mpsc_channel 8) false [] []])).

(** Everything else: envelopes arrive, the agent is revoked, a client reads or
    drops its stream. *)
Inductive around : Feed → Feed → Prop :=
| around_send v order clock e r t : iterates order →
    MemoryTransport.send resolver cp order clock e (feed v) = (r, t) → around v (set_feed t v)
| around_revoke v : around v (mkFeed (feed v) (supersede v) (S (revocation v)) (calls v) (subs v))
| around_read v k u f c : subs v !! k = Some u → dropped u = false → recv (outer_tx u) = Some (Some f, c) →
    around v (set_sub k (got f (set_outer_tx c u)) v)
| around_drop v k u : subs v !! k = Some u → around v (set_sub k (drop_stream u) v).

Inductive step : Feed → Feed → Prop :=
| step_inner k v v' : inner_step k v v' → step v v'
| step_outer k v v' : outer_step k v v' → step v v'
| step_subscribe v v' : subscribe_step v v' → step v v'
| step_around v v' : around v v' → step v v'.

Definition idle (t : Transport) : Feed := mkFeed t 0 0 [] [].
End feed.

(** * Properties *)

Section laws.
Context `{TimeOps} `{CryptoOps} `{Encode rproto.Receipt} `{Encode eproto.Envelope}.
Context {C CI CO R : Type} `{!Mpsc Envelope C, !Mpsc Item CI, !Mpsc Frame CO, !ReceiptStore R}.
Context `{!MpscLaws Envelope C, !MpscLaws Item CI, !MpscLaws Frame CO, !ReceiptStoreLaws R}.
Context (resolver : PassportResolver) (cp : ControlPlaneIdentity) (recipient : AgentId).
Notation Transport := (MemoryTransport C R).
Notation Sub := (Sub (CI:=CI) (CO:=CO)).
Notation Feed := (Feed (C:=C) (CI:=CI) (CO:=CO) (R:=R)).
Notation step := (step resolver cp recipient).
Notation inner_step := (inner_step resolver cp recipient).
Notation outer_step := (outer_step (C:=C) (CI:=CI) (CO:=CO) (R:=R)).
Implicit Types (t : Transport) (u : Sub) (v : Feed).

(** The frame for an envelope: it names the receipt of its delivery, or it is
    the error of recording one. *)
Definition answers t (e : Envelope) (f : Frame) : Prop :=
  (∃ h, f = mapped (Ok (e, h)) ∧ logged cp t h "envelope.deliver" e [MemoryTransport.to_agent_evidence recipient]) ∨
  ∃ err, f = mapped (Err err).

Definition grows t t' : Prop := view (receipts t) ⊆ view (receipts t').
#[local] Instance grows_preorder : PreOrder grows.
Proof. unfold grows. split; [by intros t|by intros t t1 t2 -> ->]. Qed.
Lemma answers_grows t t' e f : grows t t' → answers t e f → answers t' e f.
Proof.
  intros Hg [(h & -> & rc & Hh & [x Hv] & Hrest)|Herr]; [|by right].
  left. exists h. split; [done|]. exists rc. split; [done|]. split; [|done].
  exists x. by eapply lookup_weaken.
Qed.

Definition recording u : list Envelope := match inner u with Recording e => [e] | _ => [] end.
Definition passing u : list Frame := match inner u with Passing item => [mapped item] | _ => [] end.
Definition handing u : list Frame := match outer u with Handing f => [f] | _ => [] end.
(** The frames on their way to the client's buffer. *)
Definition held u : list Frame := handing u ++ (mapped <$> contents (inner_tx u)) ++ passing u.
Definition buffered {T D} `{Mpsc T D} `{!MpscLaws T D} (c : D) : Prop :=
  is_open c ∧ capacity c = 8 ∧ length (contents c) ≤ 8.

(** [es] were answered by [fs], in order; [rest] are answered by what is held,
    or lost with the stream. *)
Definition streams t u (es rest : list Envelope) (fs tail : list Frame) : Prop :=
  taken u = es ++ rest ∧ read u ++ contents (outer_tx u) = fs ++ tail ∧ Forall2 (answers t) es fs ∧
  match outer u with
  | Ended => (tail = [] ∨ tail = [farewell]) ∧ length rest ≤ 10
  | _ => tail = [] ∧ ∃ r, rest = r ++ recording u ∧ Forall2 (answers t) r (held u)
  end.
Definition sub_ok t u : Prop :=
  buffered (inner_tx u) ∧ buffered (outer_tx u) ∧ ∃ es rest fs tail, streams t u es rest fs tail.
Definition feed_ok v : Prop :=
  transport_inv (feed v) ∧ ∀ k u, subs v !! k = Some u → sub_ok (feed v) u.

Section channel.
Context {T D : Type} `{!Mpsc T D, !MpscLaws T D}.
Lemma buffered_new : buffered (mpsc_channel (T:=T) (C:=D) 8) ∧ contents (mpsc_channel (T:=T) (C:=D) 8) = [].
Proof. destruct (mpsc_channel_spec (T:=T) (C:=D) 8) as (Hc & Hcap & Ho). split; [|done]. split_and!; [done..|]. rewrite Hc. simpl. lia. Qed.
Lemma buffered_send (x : T) (c c' : D) :
  buffered c → try_send x c = (Ok tt, c') → buffered c' ∧ contents c' = contents c ++ [x].
Proof.
  intros (Ho & Hcap & _) Hs. pose proof (try_send_spec x c Ho) as Hx. rewrite Hcap in Hx.
  destruct (Nat.ltb_spec (length (contents c)) 8); [|congruence].
  destruct Hx as (c1 & Hc1 & Hcont & Hcap1 & Ho1). rewrite Hs in Hc1. injection Hc1 as <-.
  split; [|done]. split_and!; [done|congruence|]. rewrite Hcont, length_app. simpl. lia.
Qed.
Lemma buffered_recv (x : T) (c c' : D) :
  buffered c → recv c = Some (Some x, c') → buffered c' ∧ contents c = x :: contents c'.
Proof.
  intros (Ho & Hcap & Hlen) Hs. pose proof (recv_spec c Ho) as Hx.
  destruct (contents c) as [|y l]; [congruence|].
  destruct Hx as (c1 & Hc1 & Hcont & Hcap1 & Ho1). rewrite Hs in Hc1. injection Hc1 as <- <-.
  rewrite Hcont. split; [|done]. split_and!; [done|congruence|]. rewrite Hcont. simpl in Hlen. lia.
Qed.
End channel.

Lemma streams_grows t t' u es rest fs tail : grows t t' → streams t u es rest fs tail → streams t' u es rest fs tail.
Proof.
  intros Hg (Ht & Hr & Hf & Hu). unfold streams. split_and!; [done|done| |].
  - eapply Forall2_impl; [done|]. intros. by eapply answers_grows.
  - destruct (outer u); try done; destruct Hu as [? (r & ? & Hall)]; (split; [done|]); exists r; (split; [done|]);
      (eapply Forall2_impl; [done|]); intros; by eapply answers_grows.
Qed.
Lemma sub_ok_grows t t' u : grows t t' → sub_ok t u → sub_ok t' u.
Proof. intros Hg (Hi & Ho & es & rest & fs & tail & Hs). split; [done|]. split; [done|]. exists es, rest, fs, tail. by eapply streams_grows. Qed.

(** A step that changes one subscription, and perhaps the transport. *)
Lemma feed_ok_set v k u u' t' :
  feed_ok v → subs v !! k = Some u → transport_inv t' → grows (feed v) t' →
  (sub_ok (feed v) u → sub_ok t' u') → feed_ok (set_sub k u' (set_feed t' v)).
Proof.
  intros [Hinv Hall] Hk Ht Hg Hu. split; [done|]. intros j w. cbn [subs set_sub set_feed feed].
  intros [(<- & <- & _)|[Hne Hj]]%list_lookup_insert_Some.
  - by apply Hu, (Hall k).
  - eapply sub_ok_grows; [done|]. by eapply Hall.
Qed.
Lemma feed_ok_set' v k u u' :
  feed_ok v → subs v !! k = Some u → (sub_ok (feed v) u → sub_ok (feed v) u') → feed_ok (set_sub k u' v).
Proof.
  intros Hok Hk Hu. pose proof (feed_ok_set v k u u' (feed v) Hok Hk (proj1 Hok) (reflexivity (feed v)) Hu) as Hs. by destruct v.
Qed.

(** The task of the transport moves on without touching an envelope. *)
Lemma sub_ok_inner t u i :
  outer u = Ended ∨ recording (set_inner i u) = recording u ∧ passing (set_inner i u) = passing u →
  sub_ok t u → sub_ok t (set_inner i u).
Proof.
  intros Hi (Hin & Hout & es & rest & fs & tail & Ht & Hr & Hf & Hu). split; [done|]. split; [done|].
  exists es, rest, fs, tail. unfold streams. cbn [taken read outer outer_tx set_inner].
  split_and!; [done..|]. unfold held. cbn [inner_tx set_inner].
  change (handing (set_inner i u)) with (handing u).
  destruct Hi as [Hi|[-> ->]]; [by rewrite Hi in Hu |- *|done].
Qed.
(** What [streams] says while the service's task runs. *)
Definition flowing t u : Prop :=
  ∃ es r fs, taken u = es ++ r ++ recording u ∧ read u ++ contents (outer_tx u) = fs ∧
    Forall2 (answers t) es fs ∧ Forall2 (answers t) r (held u).
Lemma sub_ok_flowing t u : outer u ≠ Ended → sub_ok t u ↔ buffered (inner_tx u) ∧ buffered (outer_tx u) ∧ flowing t u.
Proof.
  intros Hne. unfold sub_ok, streams. split.
  - intros (Hin & Hout & es & rest & fs & tail & Ht & Hr & Hf & Hu). split; [done|]. split; [done|].
    assert (tail = [] ∧ ∃ r, rest = r ++ recording u ∧ Forall2 (answers t) r (held u)) as (-> & r & -> & Hh)
      by (by destruct (outer u)).
    exists es, r, fs. by rewrite app_nil_r in Hr.
  - intros (Hin & Hout & es & r & fs & Ht & Hr & Hf & Hh). split; [done|]. split; [done|].
    exists es, (r ++ recording u), fs, []. rewrite app_nil_r. split_and!; [done..|].
    destruct (outer u); (split; [by eauto|]); by eauto.
Qed.
(** The end of the service's task: what is held is lost. *)
Lemma sub_ok_end t u u' tail :
  outer u ≠ Ended → outer u' = Ended → inner_tx u' = inner_tx u → taken u' = taken u → buffered (outer_tx u') →
  read u' ++ contents (outer_tx u') = (read u ++ contents (outer_tx u)) ++ tail →
  tail = [] ∨ tail = [farewell] → sub_ok t u → sub_ok t u'.
Proof.
  intros Hne He Hi Ht Hb Hr Htail Hok. apply sub_ok_flowing in Hok as (Hin & Hout & es & r & fs & Hu & Hfs & Hf & Hh); [|done].
  split; [by rewrite Hi|]. split; [done|]. exists es, (r ++ recording u), fs, tail. unfold streams.
  rewrite Ht, Hr, Hfs, He. split_and!; try done.
  apply Forall2_length in Hh. destruct Hin as (_ & _ & Hlen).
  assert (length (passing u) + length (recording u) ≤ 1) by (unfold passing, recording; destruct (inner u); simpl; lia).
  assert (length (handing u) ≤ 1) by (unfold handing; destruct (outer u); simpl; lia).
  rewrite length_app, Hh. unfold held. rewrite !length_app, length_fmap. lia.
Qed.

Lemma inner_open u : inner_closed u = false ↔ outer u ≠ Ended.
Proof. unfold inner_closed. by destruct (outer u). Qed.

Lemma recv_inv t id c e c' : transport_inv t → channels t !! id = Some c → recv c = Some (Some e, c') →
  transport_inv (MemoryTransport.with_channels (<[id := c']>) t).
Proof.
  intros (Heq & Hinj & Hc & Hst) Hch Hr. split_and!; simpl; try done.
  intros a id' Ha. destruct (Hc a id' Ha) as (d & Hd & Ho & Hcap & Hlen). destruct (decide (id' = id)) as [->|Hne].
  - rewrite Hch in Hd. injection Hd as <-. exists c'. rewrite list_lookup_insert_eq by (by eapply lookup_lt_Some).
    pose proof (recv_spec c Ho) as Hx. destruct (contents c) as [|y l]; [congruence|].
    destruct Hx as (c1 & Hc1 & Hcont & Hcap1 & Ho1). rewrite Hr in Hc1. injection Hc1 as _ <-.
    split_and!; [done|done|congruence|]. rewrite Hcont. simpl in Hlen. lia.
  - exists d. by rewrite list_lookup_insert_ne by done.
Qed.

Lemma inner_step_ok k v v' : inner_step k v v' → feed_ok v → feed_ok v'.
Proof.
  intros Hs Hok. pose proof Hok as [Hinv Hall]. destruct Hs as
    [v u Hk Hi _|v u seen Hk Hi Hc|v u seen Hk Hi _ _|v u seen c e c' Hk Hi Hc%inner_open _ Hch Hr
    |v u seen c Hk Hi _ _ _ _ _|v u e clock r t Hk Hi Hr|v u item Hk Hi Hc|v u item c Hk Hi Hc%inner_open Hr].
  1,2,3,5: apply (feed_ok_set' v k u); [done..|]; apply sub_ok_inner; right; unfold recording, passing; by rewrite Hi.
  - apply (feed_ok_set v k u); [done..|by eapply recv_inv|exact (reflexivity (R:=grows) (feed v))|].
    rewrite !sub_ok_flowing by done. intros (Hin & Hout & es & r & fs & Ht & Hfs & Hf & Hh).
    split; [done|]. split; [done|]. exists es, r, fs. unfold held, recording, passing in *. rewrite Hi in *.
    cbn [taken took inner set_inner]. rewrite Ht, app_nil_r, <- app_assoc. split_and!; [done|done|done|exact Hh].
  - apply record_spec in Hr as (Hinv' & _ & _ & Hr); [|done].
    assert (grows (feed v) t) as Hg by (unfold grows; destruct r; [by destruct Hr|by rewrite Hr]).
    apply (feed_ok_set v k u); [done..|]. intros Hu.
    destruct (decide (inner_closed u = true)) as [Hc|Hc%not_true_is_false%inner_open].
    { apply sub_ok_inner; [left|by eapply sub_ok_grows]. unfold inner_closed in Hc. by destruct (outer u). }
    apply (sub_ok_grows _ t) in Hu; [|done]. rewrite sub_ok_flowing in Hu |- * by done.
    destruct Hu as (Hin & Hout & es & r0 & fs & Ht & Hfs & Hf & Hh).
    split; [done|]. split; [done|]. exists es, (r0 ++ [e]), fs. unfold held, recording, passing in *. rewrite Hi in *.
    cbn [taken inner set_inner inner_tx]. rewrite Ht, <- !app_assoc. split_and!; [done..|].
    rewrite app_nil_r in Hh. rewrite app_assoc. apply Forall2_app; [done|]. constructor; [|constructor].
    destruct r as [h|err]; [left|by right; eexists]. exists h. by destruct Hr.
  - apply (feed_ok_set' v k u); [done..|]. apply sub_ok_inner. left. unfold inner_closed in Hc. by destruct (outer u).
  - apply (feed_ok_set' v k u); [done..|]. rewrite !sub_ok_flowing by done.
    intros (Hin & Hout & es & r & fs & Ht & Hfs & Hf & Hh).
    apply buffered_send in Hr as [Hb Hcont]; [|done].
    split; [done|]. split; [done|]. exists es, r, fs. unfold held, recording, passing in *. rewrite Hi in *.
    cbn [taken inner set_inner set_inner_tx inner_tx]. split_and!; [done..|].
    by rewrite Hcont, fmap_app, app_nil_r.
Qed.

Lemma outer_step_ok k v v' : outer_step k v v' → feed_ok v → feed_ok v'.
Proof.
  intros Hs Hok. destruct Hs as
    [v u Hk Ho|v u seen Hk Ho Hd|v u seen Hk Ho Hd _|v u seen item c Hk Ho Hd _ Hr
    |v u seen Hk Ho Hd _ Hr _|v u f Hk Ho Hd|v u f c Hk Ho Hd Hr|v u c Hk Ho Hd Hr].
  all: apply (feed_ok_set' v k u); [done..|].
  2,5,6: intros Hu; pose proof Hu as (_ & Hout & _); apply (sub_ok_end _ u _ []);
         [first [congruence|destruct Ho; congruence]|done|done|done|done|by rewrite app_nil_r|by left|done].
  1,2,3,4: rewrite !sub_ok_flowing by (try done; congruence);
     intros (Hin & Hout & es & r & fs & Ht & Hfs & Hf & Hh).
  - split; [done|]. split; [done|]. exists es, r, fs. unfold held, handing in *. rewrite Ho in Hh. done.
  - split; [done|]. split; [done|]. exists es, r, fs. unfold held, handing in *. rewrite Ho in Hh. done.
  - apply buffered_recv in Hr as [Hb Hcont]; [|done].
    split; [done|]. split; [done|]. exists es, r, fs. unfold held, handing in *. rewrite Ho, Hcont in Hh. done.
  - apply buffered_send in Hr as [Hb Hcont]; [|done].
    unfold held, handing in *. rewrite Ho in Hh. apply Forall2_cons_inv_r in Hh as (e & r' & He & Hr' & ->).
    split; [done|]. split; [done|]. exists (es ++ [e]), r', (fs ++ [f]). unfold held, handing.
    cbn [taken read outer outer_tx set_outer set_outer_tx]. rewrite Ht, Hcont, <- Hfs, <- !app_assoc.
    split_and!; [done|done| |done]. rewrite app_assoc. apply Forall2_app; [by rewrite Hfs|by constructor].
  - intros Hu. pose proof Hu as (_ & Hout & _). apply buffered_send in Hr as [Hb Hcont]; [|done].
    apply (sub_ok_end _ u _ [farewell]); try done; [by rewrite Ho| |by right].
    cbn [read outer_tx set_outer set_outer_tx]. by rewrite Hcont, app_assoc.
Qed.

Lemma feed_ok_transport v t l : feed_ok v → transport_inv t → grows (feed v) t → feed_ok (set_calls l (set_feed t v)).
Proof. intros [_ Hall] Ht Hg. split; [done|]. intros k u Hk. eapply sub_ok_grows; [done|]. by eapply Hall. Qed.

Lemma sub_ok_new t id : sub_ok t (mkSub id Locking (mpsc_channel 8) Starting (mpsc_channel 8) false [] []).
Proof.
  destruct (buffered_new (T:=Item) (D:=CI)) as [Hbi Hci]. destruct (buffered_new (T:=Frame) (D:=CO)) as [Hbo Hco].
  split; [done|]. split; [done|]. exists [], [], [], []. unfold streams, held, handing, passing, recording.
  cbn [taken read outer_tx outer inner_tx inner]. rewrite Hci, Hco. split_and!; try done. by exists [].
Qed.

Lemma subscribe_step_ok v v' : subscribe_step recipient v v' → feed_ok v → feed_ok v'.
Proof.
  intros Hs Hok. pose proof Hok as [Hinv Hall].
  destruct Hs as [v Hn|v Hn|v l Hc|v l id Hc Hi|v l id Hc]; [done|done| |done|].
  - apply (feed_ok_transport v); [done|by apply register_inv|exact (reflexivity (R:=grows) (feed v))].
  - split; [done|]. intros k u. cbn [subs feed]. rewrite lookup_app_Some, list_lookup_singleton_Some.
    intros [Hk|(_ & _ & <-)]; [by eapply Hall|apply sub_ok_new].
Qed.

(** What the client reads or drops does not matter to the tasks. *)
Lemma sub_ok_read t u f c :
  recv (outer_tx u) = Some (Some f, c) → sub_ok t u → sub_ok t (got f (set_outer_tx c u)).
Proof.
  intros Hr (Hin & Hout & es & rest & fs & tail & Ht & Hfs & Hrest). apply buffered_recv in Hr as [Hb Hc]; [|done].
  split; [done|]. split; [done|]. exists es, rest, fs, tail. split; [done|]. split; [|done].
  rewrite <- Hfs, Hc. cbn [read got set_outer_tx outer_tx]. by rewrite <- app_assoc.
Qed.

Lemma around_ok v v' : around resolver cp v v' → feed_ok v → feed_ok v'.
Proof.
  intros Hs Hok. pose proof Hok as [Hinv Hall].
  destruct Hs as [v order clock e r t Ho Hr|v|v k u f c Hk Hd Hr|v k u Hk].
  - apply send_dispatch in Hr; [|done..].
    destruct (ReplayProtection.admit_envelope _ _ _) as [[?|err] rp].
    + destruct Hr as (Hinv' & _ & Hr). assert (grows (feed v) t) as Hg.
      { unfold grows. destruct r; [by destruct Hr as (_ & _ & Hv)|destruct Hr as [_ Hv]; by rewrite Hv]. }
      pose proof (feed_ok_transport v t (calls v) Hok Hinv' Hg) as Hx. by destruct v.
    + destruct Hr as [_ ->].
      pose proof (feed_ok_transport v (with_replay rp (feed v)) (calls v) Hok Hinv (reflexivity (R:=grows) (feed v))) as Hx.
      by destruct v.
  - done.
  - apply (feed_ok_set' v k u); [done..|]. by apply sub_ok_read.
  - by apply (feed_ok_set' v k u).
Qed.

Lemma step_ok v v' : step v v' → feed_ok v → feed_ok v'.
Proof.
  intros [k v1 v2 Hs|k v1 v2 Hs|v1 v2 Hs|v1 v2 Hs];
    [by eapply inner_step_ok|by eapply outer_step_ok|by apply subscribe_step_ok|by apply around_ok].
Qed.
Lemma steps_ok v v' : rtc step v v' → feed_ok v → feed_ok v'.
Proof. induction 1; eauto using step_ok. Qed.
Lemma idle_ok t : transport_inv t → feed_ok (idle t).
Proof. by intros Ht; split. Qed.

(** ** The lock of an inbox *)

Definition exclusive v : Prop := ∀ j k u w, subs v !! j = Some u → subs v !! k = Some w →
  inbox_id u = inbox_id w → selecting u = true → selecting w = true → j = k.

(** Whatever happens to a subscription, unless it takes the lock. *)
Lemma exclusive_set v k u u' : exclusive v → subs v !! k = Some u → inbox_id u' = inbox_id u →
  (selecting u' = true → selecting u = true ∨ ¬ locked (inbox_id u) v) → exclusive (set_sub k u' v).
Proof.
  intros Hx Hk Hid Hsel. unfold locked in Hsel. rewrite Exists_exists in Hsel.
  assert (∀ j w, j ≠ k → subs v !! j = Some w → inbox_id w = inbox_id u' → selecting w = true → selecting u' = true → False) as Hno.
  { intros j w Hne Hj Hw Hsw Hsu. destruct (Hsel Hsu) as [Hu|Hu].
    - apply Hne. eapply Hx; [done..|congruence|done|done].
    - apply Hu. exists w. split; [by eapply list_elem_of_lookup_2|]. split; [congruence|done]. }
  intros i j a b. cbn [subs set_sub].
  intros [(<- & <- & _)|[Hi Ha]]%list_lookup_insert_Some [(<- & <- & _)|[Hj Hb]]%list_lookup_insert_Some Hab Hsa Hsb;
    [done|exfalso; by eapply (Hno j b)|exfalso; by eapply (Hno i a)|by eapply Hx].
Qed.

Lemma exclusive_step v v' : step v v' → exclusive v → exclusive v'.
Proof.
  intros Hs Hx. destruct Hs as [k v v' Hs|k v v' Hs|v v' Hs|v v' Hs]; destruct Hs;
    try done; try (by eapply exclusive_set; [done|done|done|]; unfold selecting; cbn; eauto).
  intros j k u w. cbn [subs]. rewrite !lookup_app_Some, !list_lookup_singleton_Some.
  intros [Hj|(_ & _ & <-)] [Hk|(_ & _ & <-)] Hid Hu Hw; try done. by eapply Hx.
Qed.
Lemma exclusive_steps v v' : rtc step v v' → exclusive v → exclusive v'.
Proof. induction 1; eauto using exclusive_step. Qed.

(** [C38] At every moment, what a subscriber read and what waits for it are the
    answers to the envelopes its task took from the inbox, in the order it took
    them: each is the envelope with the id of the receipt that records its
    delivery in the log, or the error of recording it.  At most ten envelopes
    are taken and not answered yet, or lost when the stream ended; at most
    eight answers wait; only the last frame of an ended stream may be the notice
    of the agent's revocation; and of the tasks on one inbox one at most is
    taking envelopes. *)
Theorem subscription_streams s v k u :
  reachable resolver cp s → rtc step (idle s) v → subs v !! k = Some u →
  (∃ es rest fs tail,
     taken u = es ++ rest ∧ read u ++ contents (outer_tx u) = fs ++ tail ∧ Forall2 (answers (feed v)) es fs ∧
     (tail = [] ∨ tail = [farewell] ∧ outer u = Ended) ∧
     length rest ≤ 10 ∧ length (contents (outer_tx u)) ≤ 8) ∧
  ∀ j w, subs v !! j = Some w → inbox_id w = inbox_id u → selecting u = true → selecting w = true → j = k.
Proof.
  intros [Hs _]%reachable_inv Hr Hk. split.
  - pose proof (steps_ok _ _ Hr (idle_ok _ Hs)) as [_ Hall].
    destruct (Hall _ _ Hk) as (Hin & (_ & _ & Hlen) & es & rest & fs & tail & Ht & Hf & Hans & Hu).
    exists es, rest, fs, tail. split_and!; [done..| | |done].
    + destruct (outer u); naive_solver.
    + destruct (outer u) eqn:Ho; [..|by destruct Hu].
      all: destruct Hu as (_ & r & -> & Hall2%Forall2_length); rewrite length_app, Hall2; unfold held, handing, passing, recording;
        rewrite Ho, !length_app, length_fmap; destruct Hin as (_ & _ & Hlen2); destruct (inner u); simpl; lia.
  - intros j w Hj Hid Hsu Hsw. assert (exclusive v) as Hx by (eapply exclusive_steps; [done|by intros ?]).
    by eapply Hx.
Qed.

(** ** The end of a stream *)

(** A step of one subscription's tasks. *)
Definition own k v v' : Prop := inner_step k v v' ∨ outer_step k v v'.
(** A step of anything else. *)
Definition other k v v' : Prop := subscribe_step recipient v v' ∨ around resolver cp v v' ∨ ∃ j, j ≠ k ∧ own j v v'.
(** An execution with [n] steps of subscription [k]. *)
Inductive execution k : nat → Feed → Feed → Prop :=
| execution_stop v : execution k 0 v v
| execution_own n v v1 v2 : own k v v1 → execution k n v1 v2 → execution k (S n) v v2
| execution_other n v v1 v2 : other k v v1 → execution k n v1 v2 → execution k n v v2.

(** Others change of a subscription what its client reads, or drop it. *)
Lemma other_frame k v v' u : other k v v' → subs v !! k = Some u →
  ∃ u', subs v' !! k = Some u' ∧ inbox_id u' = inbox_id u ∧ inner u' = inner u ∧ inner_tx u' = inner_tx u ∧
    outer u' = outer u ∧ (dropped u = true → dropped u' = true) ∧
    (feed_ok v → read u' ++ contents (outer_tx u') = read u ++ contents (outer_tx u)).
Proof.
  intros Hs Hk. assert (∀ v1, subs v1 !! k = Some u → ∃ u', subs v1 !! k = Some u' ∧ inbox_id u' = inbox_id u ∧
    inner u' = inner u ∧ inner_tx u' = inner_tx u ∧ outer u' = outer u ∧ (dropped u = true → dropped u' = true) ∧
    (feed_ok v → read u' ++ contents (outer_tx u') = read u ++ contents (outer_tx u))) as Hsame
    by (intros v1 Hv1; exists u; split_and!; try done; by intros).
  destruct Hs as [Hs|[Hs|(j & Hne & Hs)]].
  - destruct Hs; apply Hsame; try done. cbn [subs]. by apply lookup_app_l_Some.
  - destruct Hs as [v order clock e r t Ho Hr|v|v j w f c Hj Hd Hr|v j w Hj]; [by apply Hsame..| |].
    + destruct (decide (j = k)) as [->|Hne]; [|apply Hsame; cbn [subs set_sub]; by rewrite list_lookup_insert_ne].
      rewrite Hk in Hj. injection Hj as <-. exists (got f (set_outer_tx c u)). cbn [subs set_sub].
      rewrite list_lookup_insert_eq by (by eapply lookup_lt_Some). split_and!; try done. intros [_ Hall].
      destruct (Hall _ _ Hk) as (_ & Hb & _). apply buffered_recv in Hr as [_ ->]; [|done].
      cbn [read got set_outer_tx outer_tx]. by rewrite <- app_assoc.
    + destruct (decide (j = k)) as [->|Hne]; [|apply Hsame; cbn [subs set_sub]; by rewrite list_lookup_insert_ne].
      rewrite Hk in Hj. injection Hj as <-. exists (drop_stream u). cbn [subs set_sub].
      rewrite list_lookup_insert_eq by (by eapply lookup_lt_Some). by split_and!; intros.
  - destruct Hs as [Hs|Hs]; destruct Hs; apply Hsame; cbn [subs set_sub set_feed]; by rewrite list_lookup_insert_ne.
Qed.

Lemma step_cases k v v' : step v v' → own k v v' ∨ other k v v'.
Proof.
  intros [j v1 v2 Hs|j v1 v2 Hs|v1 v2 Hs|v1 v2 Hs]; [| |by right; left|by right; right; left].
  all: destruct (decide (j = k)) as [->|Hne]; [left|right; right; right; exists j; split; [done|]]; by (left + right).
Qed.
Lemma cases_step k v v' : own k v v' ∨ other k v v' → step v v'.
Proof.
  intros [[Hs|Hs]|[Hs|[Hs|(j & _ & [Hs|Hs])]]];
    [by eapply step_inner|by eapply step_outer|by apply step_subscribe|by apply step_around
    |by eapply step_inner|by eapply step_outer].
Qed.

(** The steps a dropped subscription has left. *)
Definition patience (o : Outer) : nat := match o with Ended => 0 | Starting => 2 | _ => 1 end.
Definition budget (room : nat) (i : Inner) : nat :=
  match i with
  | Locking => 4 * room + 4 | Selecting _ => 4 * room + 3 | Recording _ => 4 * room + 2
  | Passing _ => 4 * room + 1 | Gone => 0
  end.
Definition life u : nat := patience (outer u) + budget (8 - length (contents (inner_tx u))) (inner u).
Lemma life_le u : life u ≤ 38.
Proof. unfold life. destruct (outer u), (inner u); cbn [patience budget]; lia. Qed.

(** Each of its steps uses one up. *)
Lemma own_life k v v' u : own k v v' → feed_ok v → subs v !! k = Some u → dropped u = true →
  ∃ u', subs v' !! k = Some u' ∧ dropped u' = true ∧ life u' < life u.
Proof.
  intros Hs [_ Hall] Hk Hd. destruct (Hall _ _ Hk) as (Hb & _). pose proof (lookup_lt_Some _ _ _ Hk) as Hlt.
  assert (∀ w, dropped w = true → life w < life u →
    ∃ u', <[k := w]> (subs v) !! k = Some u' ∧ dropped u' = true ∧ life u' < life u) as Hset.
  { intros w Hw Hl. exists w. by rewrite list_lookup_insert_eq. }
  destruct Hs as [Hs|Hs]; destruct Hs; simplify_eq; try congruence; cbn [subs set_sub set_feed]; apply Hset; try done.
  all: unfold life; cbn [inner outer inner_tx set_inner set_outer set_inner_tx set_outer_tx took].
  all: repeat match goal with
    | E : inner ?w = _ |- _ => rewrite E; clear E
    | E : outer ?w = _ |- _ => rewrite E; clear E
    | E : outer ?w = _ ∨ _ |- _ => destruct E
    | E : try_send _ (inner_tx ?w) = _ |- _ => apply buffered_send in E as [[_ [_ ?]] E]; [rewrite E in *; rewrite length_app in *|done]
    end; cbn [patience budget length] in *; lia.
Qed.

Lemma execution_life k n v v' u : execution k n v v' → feed_ok v → subs v !! k = Some u → dropped u = true →
  feed_ok v' ∧ ∃ u', subs v' !! k = Some u' ∧ dropped u' = true ∧ n + life u' ≤ life u.
Proof.
  intros He. revert u. induction He as [v|n v v1 v2 Hs _ IH|n v v1 v2 Hs _ IH]; intros u Hok Hk Hd; [by eauto|..].
  - pose proof (step_ok v v1 (cases_step _ _ _ (or_introl Hs)) Hok) as Hok1.
    destruct (own_life _ _ _ _ Hs Hok Hk Hd) as (u1 & Hk1 & Hd1 & Hl1).
    destruct (IH _ Hok1 Hk1 Hd1) as (Hok2 & u2 & Hk2 & Hd2 & Hl2). split; [done|]. exists u2. split_and!; [done..|lia].
  - pose proof (step_ok v v1 (cases_step _ _ _ (or_intror Hs)) Hok) as Hok1.
    destruct (other_frame _ _ _ _ Hs Hk) as (u1 & Hk1 & _ & Hi & Ht & Ho & Hd1 & _).
    destruct (IH _ Hok1 Hk1 (Hd1 Hd)) as (Hok2 & u2 & Hk2 & Hd2 & Hl2). split; [done|]. exists u2. split_and!; [done..|].
    unfold life in *. by rewrite <- Hi, <- Ht, <- Ho.
Qed.

(** Until it is over, a dropped subscription can make a step, unless its task
    waits for the lock of the inbox. *)
Lemma dropped_progress k v u : transport_inv (feed v) → subs v !! k = Some u → dropped u = true →
  inner u = Gone ∧ outer u = Ended ∨ inner u = Locking ∧ locked (inbox_id u) v ∨ ∃ v', own k v v'.
Proof.
  intros Hinv Hk Hd. destruct (outer u) eqn:Ho;
    [right; right; eexists; right; by eapply outer_start|right; right; eexists; right; by eapply outer_exit_closed
    |right; right; eexists; right; eapply outer_send_closed; eauto|right; right; eexists; right; apply (outer_send_closed k v u farewell); auto|].
  assert (inner_closed u = true) as Hc by (unfold inner_closed; by rewrite Ho).
  destruct (inner u) eqn:Hi; [| | | |by left].
  - right. destruct (Exists_dec (λ w, inbox_id w = inbox_id u ∧ selecting w = true) (subs v)) as [Hl|Hl]; [by left|].
    right. eexists. left. by eapply inner_lock.
  - right. right. eexists. left. by eapply inner_exit_closed.
  - right. right.
    destruct (MemoryTransport.record resolver cp (λ _, Timestamp.mk "" 0) "envelope.deliver" e
                [MemoryTransport.to_agent_evidence recipient] (feed v)) as [r t] eqn:Hr.
    eexists. left. by eapply inner_record.
  - right. right. eexists. left. by eapply inner_send_closed.
Qed.

(** When the client has dropped its stream, the two tasks of its
    subscription end: whatever the rest of the system does, they make at most
    38 more steps, and as long as one of them is not over there is a step to
    make, unless the transport's task waits for a lock that another task
    holds. *)
Lemma dropped_stream_ends s v v' k n u :
  reachable resolver cp s → rtc step (idle s) v → subs v !! k = Some u → dropped u = true → execution k n v v' →
  n ≤ 38 ∧
  ∃ u', subs v' !! k = Some u' ∧
    (inner u' = Gone ∧ outer u' = Ended ∨
     (∃ v1, own k v' v1) ∨
     inner u' = Locking ∧ ∃ j w, j ≠ k ∧ subs v' !! j = Some w ∧ inbox_id w = inbox_id u' ∧ selecting w = true).
Proof.
  intros [Hs _]%reachable_inv Hr Hk Hd He.
  destruct (execution_life _ _ _ _ _ He (steps_ok _ _ Hr (idle_ok _ Hs)) Hk Hd) as ([Hinv _] & u' & Hk' & Hd' & Hl).
  split; [pose proof (life_le u); lia|]. exists u'. split; [done|].
  destruct (dropped_progress _ _ _ Hinv Hk' Hd') as [Hend|[[Hi Hlock]|Hstep]]; [by left| |by right; left].
  right. right. split; [done|]. apply Exists_exists in Hlock as (w & [j Hj]%list_elem_of_lookup & Hid & Hsel).
  exists j, w. split_and!; try done. intros ->. unfold selecting in Hsel. by simplify_eq; rewrite Hi in Hsel.
Qed.

(** ** Revocation *)

(** A service's task that was signalled: its answers are those of before, and
    at the very end the notice. *)
Definition silenced (seen : nat) (frames : list Frame) (now : nat) u : Prop :=
  seen < now ∧ ∃ tail, read u ++ contents (outer_tx u) = frames ++ tail ∧
  match outer u with
  | Waiting n => n = seen ∧ tail = []
  | Refusing => tail = []
  | Ended => tail = [] ∨ tail = [farewell]
  | _ => False
  end.

Lemma revocation_grows v v' : step v v' → revocation v ≤ revocation v'.
Proof. intros [k v1 v2 Hs|k v1 v2 Hs|v1 v2 Hs|v1 v2 Hs]; destruct Hs; cbn; lia. Qed.

Lemma own_silenced k v v' u seen frames : own k v v' → feed_ok v → subs v !! k = Some u →
  silenced seen frames (revocation v) u → ∃ u', subs v' !! k = Some u' ∧ silenced seen frames (revocation v') u'.
Proof.
  intros Hs [_ Hall] Hk (Hlt & tail & Hr & Hu). destruct (Hall _ _ Hk) as (_ & Hb & _).
  pose proof (lookup_lt_Some _ _ _ Hk) as Hlen.
  assert (∀ w, silenced seen frames (revocation v) w →
    ∃ u', <[k := w]> (subs v) !! k = Some u' ∧ silenced seen frames (revocation v) u') as Hset.
  { intros w Hw. exists w. by rewrite list_lookup_insert_eq. }
  assert (notified_ready seen (revocation v) = true) as Hready by by apply Nat.ltb_lt.
  destruct Hs as [Hs|Hs]; destruct Hs; simplify_eq; cbn [subs revocation set_sub set_feed]; apply Hset; split; try done.
  1-8: by exists tail.
  all: repeat match goal with
    | E : outer ?w = _ ∨ _ |- _ => destruct E
    | E : outer ?w = _ |- _ => rewrite E in Hu; clear E
    end; try done; cbn [read outer outer_tx set_outer set_outer_tx].
  - destruct Hu as [_ ->]. exists []. auto.
  - destruct Hu as [_ ->]. exists []. auto.
  - destruct Hu as [-> _]. congruence.
  - destruct Hu as [_ ->]. exists []. auto.
  - subst tail. exists []. auto.
  - subst tail. exists [farewell]. rewrite app_nil_r in Hr.
    match goal with E : try_send _ _ = _ |- _ => apply buffered_send in E as [_ ->]; [|done] end.
    rewrite app_assoc, Hr. auto.
Qed.

Lemma steps_silenced k v v' u seen frames : rtc step v v' → feed_ok v → subs v !! k = Some u →
  silenced seen frames (revocation v) u → ∃ u', subs v' !! k = Some u' ∧ silenced seen frames (revocation v') u'.
Proof.
  intros Hr. revert u. induction Hr as [v|v v1 v2 Hs _ IH]; intros u Hok Hk Hu; [by eauto|].
  pose proof (step_ok v v1 Hs Hok) as Hok1. pose proof (revocation_grows _ _ Hs) as Hg.
  destruct (step_cases k _ _ Hs) as [Ho|Ho].
  - destruct (own_silenced _ _ _ _ _ _ Ho Hok Hk Hu) as (u1 & Hk1 & Hu1). by eapply IH.
  - destruct (other_frame _ _ _ _ Ho Hk) as (u1 & Hk1 & _ & _ & _ & Hout & _ & Hread). apply (IH u1); [done..|].
    destruct Hu as (Hlt & tail & Hfs & Hu). split; [lia|]. exists tail. by rewrite Hread, Hout.
Qed.

(** A waiting task has seen no signal of the future. *)
Lemma waiting_seen v v' : rtc step v v' →
  (∀ k u n, subs v !! k = Some u → outer u = Waiting n → n ≤ revocation v) →
  ∀ k u n, subs v' !! k = Some u → outer u = Waiting n → n ≤ revocation v'.
Proof.
  induction 1 as [v|v v1 v2 Hs _ IH]; [done|]. intros Hw. apply IH. clear IH v2. intros k u n.
  assert (∀ j w, (∀ m, outer w = Waiting m → m ≤ revocation v) →
    <[j := w]> (subs v) !! k = Some u → outer u = Waiting n → n ≤ revocation v) as Hset.
  { intros j w Hm [(<- & <- & _)|[_ Hk]]%list_lookup_insert_Some; [apply Hm|by eapply Hw]. }
  destruct Hs as [j v v1 Hs|j v v1 Hs|v v1 Hs|v v1 Hs]; destruct Hs; cbn [subs revocation set_sub set_feed set_calls].
  all: try (apply Hset; intros m; cbn [outer set_inner set_inner_tx set_outer set_outer_tx took got drop_stream];
    first [done | by intros [= <-] | by eapply Hw]).
  all: try by apply Hw.
  - rewrite lookup_app_Some, list_lookup_singleton_Some. intros [Hk|(_ & _ & <-)]; [by eapply Hw|done].
  - intros Hk Hn. specialize (Hw _ _ _ Hk Hn). lia.
Qed.

(** [C39] An agent is revoked while the task that serves its stream waits for
    the next envelope: whatever arrives afterwards, the client gets at most
    one more frame, the notice that the agent is revoked, and it is the last;
    a task that has not noticed the signal yet can take the step that does, and
    it hands on no envelope any more. *)
Theorem revocation_closes_stream s v v' k u seen :
  reachable resolver cp s → rtc step (idle s) v → subs v !! k = Some u → outer u = Waiting seen →
  rtc step (mkFeed (feed v) (supersede v) (S (revocation v)) (calls v) (subs v)) v' →
  ∃ u' tail, subs v' !! k = Some u' ∧
    read u' ++ contents (outer_tx u') = read u ++ contents (outer_tx u) ++ tail ∧
    (tail = [] ∨ tail = [farewell]) ∧
    match outer u' with
    | Waiting _ => ∃ o, (o = Refusing ∨ o = Ended) ∧ outer_step k v' (set_sub k (set_outer o u') v')
    | Refusing => tail = []
    | Ended => True
    | _ => False
    end.
Proof.
  intros [Hs _]%reachable_inv Hr Hk Ho Hr'.
  assert (seen ≤ revocation v) as Hle by (eapply waiting_seen; [done|by intros ?|done..]).
  pose proof (steps_ok _ _ Hr (idle_ok _ Hs)) as Hok.
  destruct (steps_silenced k _ _ u seen (read u ++ contents (outer_tx u)) Hr') as (u' & Hk' & Hlt & tail & Hf & Hu');
    [done|done| |].
  { split; [cbn; lia|]. exists []. rewrite app_nil_r, Ho. done. }
  exists u', tail. split; [done|]. split; [by rewrite app_assoc|].
  destruct (outer u') as [|n| | |] eqn:Ho'; [done| |done|by auto|by auto]. destruct Hu' as [-> ->]. split; [by left|].
  destruct (dropped u') eqn:Hd.
  - exists Ended. split; [by right|]. by eapply outer_exit_closed.
  - exists Refusing. split; [by left|]. eapply outer_revoked; [done..|]. by apply Nat.ltb_lt.
Qed.

(** A task that was handing a frame on when the agent was revoked does not
    notice: it waits for the next envelope as before. *)
Lemma stream_survives_revocation k v u f c :
  subs v !! k = Some u → outer u = Handing f → dropped u = false → try_send f (outer_tx u) = (Ok tt, c) →
  let revoked := mkFeed (feed v) (supersede v) (S (revocation v)) (calls v) (subs v) in
  ∃ v' u', around resolver cp v revoked ∧ outer_step k revoked v' ∧ subs v' !! k = Some u' ∧
    outer u' = Waiting (revocation v') ∧ notified_ready (revocation v') (revocation v') = false.
Proof.
  intros Hk Ho Hd Hs revoked. eexists _, _. split; [by constructor|]. split; [by eapply outer_send|].
  cbn [subs set_sub revoked]. rewrite list_lookup_insert_eq by (by eapply lookup_lt_Some). split; [done|].
  split; [done|]. unfold notified_ready. apply Nat.ltb_irrefl.
Qed.

(** A task that was waiting for the lock when a newer subscription signalled
    does not notice either: it can take the lock, and has seen every signal. *)
Lemma superseded_takes_lock k v u id l :
  subs v !! k = Some u → inner u = Locking → ¬ locked (inbox_id u) v → calls v ≡ₚ Superseding id :: l →
  ∃ v1 v2 u', subscribe_step recipient v v1 ∧ length (subs v1) = S (length (subs v)) ∧ inner_step k v1 v2 ∧
    subs v2 !! k = Some u' ∧ inner u' = Selecting (supersede v2).
Proof.
  intros Hk Hi Hl Hc. eexists _, _, _. split; [by eapply subscribe_spawn|]. split; [cbn [subs]; rewrite length_app; simpl; lia|].
  pose proof (lookup_app_l_Some (subs v) [mkSub id Locking (mpsc_channel 8) Starting (mpsc_channel 8) false [] []] _ _ Hk) as Hk1.
  split; [eapply inner_lock; [exact Hk1|done|]|].
  - unfold locked in *. cbn [subs]. rewrite Exists_app. intros [?|Hn]; [done|].
    apply Exists_cons in Hn as [[_ [=]]|[]%Exists_nil].
  - cbn [subs set_sub]. rewrite list_lookup_insert_eq by (by eapply lookup_lt_Some). done.
Qed.

(** Two first subscriptions at once both register the agent, and the second
    registration takes the inbox of the first away from the senders. *)
Lemma first_subscriptions_replace t : transport_inv t → inboxes t !! recipient = None →
  ∃ v1 v2, rtc (subscribe_step recipient) (idle t) v1 ∧ rtc (subscribe_step recipient) v1 v2 ∧
    senders (feed v1) !! recipient = Some (length (channels t)) ∧
    abandoned recipient (length (channels t)) (feed v2) = true.
Proof.
  intros _ Hn. exists (set_calls [Fetching; Registering] (set_feed (MemoryTransport.register_recipient recipient t) (idle t))).
  eexists. split; [|split; [|split]].
  - eapply rtc_l; [by apply subscribe_new|]. eapply rtc_l; [by apply subscribe_new|].
    eapply rtc_l; [by apply (subscribe_register _ _ [Registering])|]. apply rtc_refl.
  - eapply rtc_l; [|apply rtc_refl]. apply (subscribe_register _ _ [Fetching]). apply Permutation_swap.
  - apply lookup_insert_eq.
  - apply bool_decide_eq_true.
    cbn [feed set_calls set_feed senders MemoryTransport.register_recipient channels].
    rewrite lookup_insert_eq, length_app. simpl. intros [=]. lia.
Qed.
End laws.

(** ** One envelope to the end of its stream *)

Module SubscriptionToy.
Import MerkleToy QueueToy TransportToy.
Definition t0 : MemoryTransport (nat * list Envelope) MemoryStore := TransportToy.start.
Definition t1 := sent.2.
Definition t2 := MemoryTransport.with_channels (<[0 := (64, [])]>) t1.
Definition delivery := MemoryTransport.record resolver cp clock "envelope.deliver" hello
                         [MemoryTransport.to_agent_evidence (agent 2)] t2.
Definition item : Item := rbind delivery.1 (λ h, Ok (hello, h)).
Notation Stream := (Sub (CI:=nat * list Item) (CO:=nat * list Frame)).
Definition u0 : Stream := mkSub 0 Locking (8, []) Starting (8, []) false [] [].
Definition u1 := set_inner (Selecting 1) u0.
Definition u2 := took hello (set_inner (Recording hello) u1).
Definition u3 := set_inner (Passing item) u2.
Definition u4 := set_inner Locking (set_inner_tx (8, [item]) u3).
Definition u5 := set_outer (Waiting 0) u4.
Definition u6 := set_outer (Handing (mapped item)) (set_inner_tx (8, []) u5).
Definition u7 := set_outer (Waiting 0) (set_outer_tx (8, [mapped item]) u6).
Definition u8 := got (mapped item) (set_outer_tx (8, []) u7).
Definition u9 := drop_stream u8.
Definition u10 := set_outer Ended u9.
Definition u11 := set_inner (Selecting 1) u10.
Definition u12 := set_inner Gone u11.
Definition at_ (u : Stream) (t : MemoryTransport (nat * list Envelope) MemoryStore) := mkFeed t 1 0 [] [u].
Notation run := (rtc (step resolver cp (agent 2))).

Lemma subscribed : run (idle t0) (at_ u0 t0).
Proof.
  eapply rtc_l; [apply step_subscribe, subscribe_again; vm_compute; by eexists|].
  eapply rtc_l; [eapply step_subscribe, (subscribe_fetch _ _ [] 0); [done|vm_compute; reflexivity]|].
  eapply rtc_l; [eapply step_subscribe, (subscribe_spawn _ _ [] 0); done|]. apply rtc_refl.
Qed.
Lemma delivered : run (at_ u0 t0) (at_ u5 delivery.2).
Proof.
  eapply rtc_l with (at_ u1 t0); [apply (step_inner _ _ _ 0), (inner_lock _ _ _ 0 (at_ u0 t0) u0); [done|done|]|].
  { unfold locked. cbn. intros [[_ [=]]|[]%Exists_nil]%Exists_cons. }
  eapply rtc_l with (at_ u1 t1);
    [apply step_around, (around_send _ _ (at_ u1 t0) order clock hello (Ok id)); [exact order_iterates|vm_compute; reflexivity]|].
  eapply rtc_l with (at_ u2 t2).
  { apply (step_inner _ _ _ 0), (inner_recv _ _ _ 0 (at_ u1 t1) u1 1 (64, [hello]) hello (64, [])); done. }
  eapply rtc_l with (at_ u3 delivery.2).
  { exact (step_inner _ _ _ 0 _ _ (inner_record resolver cp (agent 2) 0 (at_ u2 t2) u2 hello clock delivery.1
      delivery.2 eq_refl eq_refl (surjective_pairing delivery))). }
  eapply rtc_l with (at_ u4 delivery.2); [apply (step_inner _ _ _ 0), (inner_send _ _ _ 0 (at_ u3 delivery.2) u3 item (8, [item])); done|].
  eapply rtc_l with (at_ u5 delivery.2); [apply (step_outer _ _ _ 0), (outer_start 0 (at_ u4 delivery.2) u4); done|].
  apply rtc_refl.
Qed.
Lemma read_out : run (at_ u5 delivery.2) (at_ u8 delivery.2).
Proof.
  eapply rtc_l with (at_ u6 delivery.2); [apply (step_outer _ _ _ 0), (outer_next 0 (at_ u5 delivery.2) u5 0 item (8, [])); done|].
  eapply rtc_l with (at_ u7 delivery.2); [apply (step_outer _ _ _ 0), (outer_send 0 (at_ u6 delivery.2) u6 (mapped item) (8, [mapped item])); done|].
  eapply rtc_l with (at_ u8 delivery.2); [apply step_around, (around_read _ _ (at_ u7 delivery.2) 0 u7 (mapped item) (8, [])); done|].
  apply rtc_refl.
Qed.
Lemma closed : run (at_ u8 delivery.2) (at_ u9 delivery.2).
Proof. eapply rtc_l with (at_ u9 delivery.2); [apply step_around, (around_drop _ _ (at_ u8 delivery.2) 0 u8); done|]. apply rtc_refl. Qed.
Lemma streamed : run (idle t0) (at_ u8 delivery.2).
Proof. etrans; [exact subscribed|]. etrans; [exact delivered|exact read_out]. Qed.
Lemma streamed_closed : run (idle t0) (at_ u9 delivery.2).
Proof. etrans; [exact streamed|exact closed]. Qed.
Lemma ended : execution resolver cp (agent 2) 0 3 (at_ u9 delivery.2) (at_ u12 delivery.2).
Proof.
  apply execution_own with (at_ u10 delivery.2); [right; by apply (outer_exit_closed 0 (at_ u9 delivery.2) u9 0)|].
  apply execution_own with (at_ u11 delivery.2).
  { left. apply (inner_lock resolver cp (agent 2) 0 (at_ u10 delivery.2) u10); [done|done|].
    unfold locked. cbn. intros [[_ [=]]|[]%Exists_nil]%Exists_cons. }
  apply execution_own with (at_ u12 delivery.2).
  { left. by apply (inner_exit_closed resolver cp (agent 2) 0 (at_ u11 delivery.2) u11 1). }
  apply execution_stop.
Qed.
End SubscriptionToy.

Lemma subscription_streams_witness :
  let u := SubscriptionToy.u8 in
  taken u = [TransportToy.hello] ∧ read u = [mapped SubscriptionToy.item] ∧ is_ok SubscriptionToy.item = true ∧
  ∃ es rest fs tail,
    taken u = es ++ rest ∧ read u ++ contents (outer_tx u) = fs ++ tail ∧
    Forall2 (answers TransportToy.cp (MerkleToy.agent 2) SubscriptionToy.delivery.2) es fs ∧
    (tail = [] ∨ tail = [farewell] ∧ outer u = Ended) ∧ length rest ≤ 10 ∧ length (contents (outer_tx u)) ≤ 8.
Proof.
  intros u. split; [done|]. split; [done|]. split; [vm_compute; reflexivity|].
  exact (proj1 (subscription_streams TransportToy.resolver TransportToy.cp (MerkleToy.agent 2) _ _ 0 u
    TransportToy.start_reachable SubscriptionToy.streamed eq_refl)).
Defined.

(** The client drops its stream while both tasks wait: three steps. *)
Lemma dropped_stream_ends_witness :
  let v := SubscriptionToy.at_ SubscriptionToy.u12 SubscriptionToy.delivery.2 in
  3 ≤ 38 ∧
  ∃ u', subs v !! 0 = Some u' ∧
    (inner u' = Gone ∧ outer u' = Ended ∨
     (∃ v1, own TransportToy.resolver TransportToy.cp (MerkleToy.agent 2) 0 v v1) ∨
     inner u' = Locking ∧ ∃ j w, j ≠ 0 ∧ subs v !! j = Some w ∧ inbox_id w = inbox_id u' ∧ selecting w = true).
Proof.
  intros v.
  exact (dropped_stream_ends TransportToy.resolver TransportToy.cp (MerkleToy.agent 2) _ _ v 0 3 SubscriptionToy.u9
    TransportToy.start_reachable SubscriptionToy.streamed_closed eq_refl eq_refl SubscriptionToy.ended).
Defined.

Lemma revocation_closes_stream_witness :
  let u := SubscriptionToy.u8 in
  let revoked := mkFeed SubscriptionToy.delivery.2 1 1 [] [u] in
  ∃ u' tail, subs revoked !! 0 = Some u' ∧
    read u' ++ contents (outer_tx u') = read u ++ contents (outer_tx u) ++ tail ∧
    (tail = [] ∨ tail = [farewell]) ∧
    match outer u' with
    | Waiting _ => ∃ o, (o = Refusing ∨ o = Ended) ∧ outer_step 0 revoked (set_sub 0 (set_outer o u') revoked)
    | Refusing => tail = []
    | Ended => True
    | _ => False
    end.
Proof.
  intros u revoked.
  exact (revocation_closes_stream TransportToy.resolver TransportToy.cp (MerkleToy.agent 2) _ _ revoked 0 u 0
    TransportToy.start_reachable SubscriptionToy.streamed eq_refl eq_refl (rtc_refl _ _)).
Defined.
