(* ===== verification/ServiceLaws.v ===== *)
(** * What the services of the control plane keep and what they ask for

    Every call is one step of the whole state.  The calls keep the log's
    contract, the transport's invariant and the passports' self-signatures;
    the log, the revoked agents and the revoked capabilities only grow; and a
    caller without an accepted token changes nothing. *)

From S2P Require Import Prelude RustStd Core CoreProto Crypto ReceiptTypes ReceiptProto Merkle.
From S2P Require Import ReceiptVerify Passport PassportStore Scope Capability Registry Envelope Tokio.
From S2P Require Import Score Enforcement CedarPlus Procedure Validate Evaluator Publisher EnforcementLoop.
From S2P Require Import ReceiptStore CapabilityStore Replay Transport Status Auth ControlPlane EnvelopeService.
From S2P Require Import ConstitutionService.

(** ** The components, on their own *)

Section components.
Context `{TimeOps, CryptoOps} `{Encode rproto.Receipt, Encode pproto.Passport, Encode cproto.Capability}.
Context {P R : Type} `{!PassportStore P, !PassportStoreLaws P, !ReceiptStore R, !ReceiptStoreLaws R}.
Implicit Types (v : gmap Hash Receipt) (clock : nat → Timestamp).

(** The log keeps its contract and holds at least [v]. *)
Definition log_holds v (log : R) : Prop := store_inv log ∧ v ⊆ view log.

Lemma keeps_append v r o res : keeps (log_holds v) (append r o res).
Proof.
  intros log [Hi Hv]. split; [by apply append_inv|]. etrans; [exact Hv|]. by apply append_monotone.
Qed.

Section capabilities.
Context (max_depth : N) (res : PassportResolver) (cp : ControlPlaneIdentity) (q : QuarantineSource)
  (fresh_swarm : SwarmId).
Implicit Types (rv : gset Hash).
(** The store of capabilities, with at least the revocations [rv]. *)
Definition caps_hold v rv (c : MemoryCapabilityStore R) : Prop :=
  log_holds v (MemoryCapabilityStore.receipts c) ∧ rv ⊆ dom (MemoryCapabilityStore.revoked c).

Lemma keeps_record_event v rv clock kind swarm ev : keeps (caps_hold v rv) (MemoryCapabilityStore.record_event res cp clock kind swarm ev).
Proof.
  unfold MemoryCapabilityStore.record_event. destruct ev as [|e ev]; [apply keeps_throw|].
  apply keeps_mthen; [apply keeps_lift|]. intros r. apply keeps_mthen; [|intros; apply keeps_mret].
  apply keeps_m_map_err. eapply keeps_zoom; [apply keeps_append|by intros ? []|by intros ? ? [] ?].
Qed.
Lemma keeps_record_check v rv clock o d swarm : keeps (caps_hold v rv) (MemoryCapabilityStore.record_check res cp clock o d swarm).
Proof. apply keeps_record_event. Qed.

Hint Resolve keeps_record_event keeps_record_check keeps_modify : keeps.
Lemma keeps_issue v rv clock c : keeps (caps_hold v rv) (MemoryCapabilityStore.issue res cp q clock c).
Proof. unfold MemoryCapabilityStore.issue. destruct (q _); eauto with keeps. Qed.
Lemma keeps_attenuate v rv clock c : keeps (caps_hold v rv) (MemoryCapabilityStore.attenuate res cp q clock c).
Proof.
  unfold MemoryCapabilityStore.attenuate. destruct (q _); [eauto with keeps|].
  do 3 (apply keeps_mthen; [eauto with keeps|intros ?]). destruct (negb _); eauto 10 with keeps.
Qed.
Lemma keeps_revoke v rv clock id reason : keeps (caps_hold v rv) (MemoryCapabilityStore.revoke res cp clock id reason).
Proof.
  unfold MemoryCapabilityStore.revoke. do 2 (apply keeps_mthen; [eauto with keeps|intros ?]).
  apply keeps_mthen; [|intros []; apply keeps_record_event].
  apply keeps_modify. intros c [Hl Hr]. split; [done|]. simpl. set_solver.
Qed.
Lemma keeps_check v rv clock id d : keeps (caps_hold v rv) (MemoryCapabilityStore.check max_depth res cp q fresh_swarm clock id d).
Proof. unfold MemoryCapabilityStore.check. apply keeps_mthen; [by intros c Hc|]. eauto with keeps. Qed.
End capabilities.

Section registry.
Context (topology : Topology) (resolver : P → PassportResolver) (cp : ControlPlaneIdentity) (attestor : Attestor).
Definition registry_holds v (g : MemoryRegistry P R) : Prop :=
  passports_ok (MemoryRegistry.passports g) ∧ log_holds v (MemoryRegistry.receipts g).

Lemma keeps_append_receipt v r : keeps (registry_holds v) (MemoryRegistry.append_receipt resolver r).
Proof.
  intros g [Hp Hl]. unfold MemoryRegistry.append_receipt.
  revert g Hp Hl. intros g Hp Hl. unfold zoom.
  pose proof (keeps_append v r AppendOptions.default (resolver (MemoryRegistry.passports g)) _ Hl) as Ha.
  destruct (append _ _ _ _). done.
Qed.

Lemma keeps_on_passports v {A} (m : M P PassportError A) :
  keeps passports_ok m → keeps (registry_holds v) (MemoryRegistry.on_passports m).
Proof.
  intros Hm. apply keeps_m_map_err. eapply keeps_zoom; [exact Hm|by intros ? []|by intros ? ? [] ?].
Qed.
Lemma keeps_passport_register (p : Passport) : keeps passports_ok (PassportStore.register p).
Proof. intros s Hs. exact (passport_step_ok s (PassportStore.Register p) Hs). Qed.
Lemma keeps_passport_revoke a reason : keeps passports_ok (PassportStore.revoke a reason).
Proof. intros s Hs. exact (passport_step_ok s (PassportStore.Revoke a reason) Hs). Qed.

Hint Resolve keeps_append_receipt keeps_on_passports keeps_passport_register keeps_passport_revoke : keeps.
Lemma keeps_registry_revoke v clock a reason :
  keeps (registry_holds v) (MemoryRegistry.revoke topology resolver cp clock a reason).
Proof. unfold MemoryRegistry.revoke. eauto 10 with keeps. Qed.
Lemma keeps_registry_operator_revoke v clock a o reason :
  keeps (registry_holds v) (MemoryRegistry.operator_revoke topology resolver cp clock a o reason).
Proof. unfold MemoryRegistry.operator_revoke. eauto 10 with keeps. Qed.
Lemma keeps_registry_register v clock p cred :
  keeps (registry_holds v) (MemoryRegistry.register topology resolver cp attestor clock p cred).
Proof.
  unfold MemoryRegistry.register. apply keeps_mthen; [eauto with keeps|intros _].
  destruct (negb _); [eauto with keeps|]. apply keeps_mthen; [eauto with keeps|intros _].
  assert (∀ a i re, keeps (registry_holds v) (MemoryRegistry.record_denial topology resolver cp clock a i re)).
  { intros a i re. unfold MemoryRegistry.record_denial. destruct (MemoryRegistry.build_register_deny_receipt _ _ _ _ _ _); eauto with keeps. }
  destruct (Attestor.verify _ _ _) as [i|[]]; eauto 10 with keeps.
Qed.
End registry.
End components.

(** ** The whole control plane *)

Section services.
Context `{OffsetDateTimeOps}.
Context `{TimeOps, CryptoOps, HeaderOps, HexOps, SerdeJson, SerdeYaml} `{!SerdeJsonInt} {engine : Cedar}.
Context `{Encode rproto.Receipt, Encode pproto.Passport, Encode cproto.Capability, Encode eproto.Envelope}.
Context `{Encode ConstitutionProto}.
Context `{Encode cp_proto.AgentBearerToken, Decode cp_proto.AgentBearerToken}.
Context `{Encode cp_proto.OperatorBearerToken, Decode cp_proto.OperatorBearerToken}.
Context {P C R : Type} `{!PassportStore P, !PassportStoreLaws P, !ReceiptStore R, !ReceiptStoreLaws R}.
Context `{!Mpsc Envelope C, !MpscLaws Envelope C}.
Context (topology : Topology) (attestor : Attestor) (cp : ControlPlaneIdentity)
  (operator_public_key : option PublicKey) (fresh_swarm : SwarmId).
Context (values : gmap string ProcedureInstance → list ProcedureInstance)
        (attr_iter : gmap string JsonValue → list (string * JsonValue))
        (set_iter : gset string → list string)
        (graph_iter : gmap string (gset string) → list (string * gset string))
        (order : gset AgentId → list AgentId) (order_iterates : iterates order).
Notation State := (ControlPlaneState P C R).
Notation RPC A := (M State Status A).
Implicit Types (s : State) (clock : nat → nat → Timestamp).

(** The invariant of a running control plane. *)
Record sound s : Prop := {
  sound_log : store_inv (receipt_store s);
  sound_transport : transport_inv (transport_with (transport s) (receipt_store s));
  sound_replay : replay_inv (MemoryTransport.replay (transport s));
  sound_passports : passports_ok (passports s) }.

(** [s] is sound and has lost nothing [s0] had: no receipt, no revocation of an
    agent or of a capability. *)
Record follows s0 s : Prop := {
  follows_sound : sound s;
  follows_log : view (receipt_store s0) ⊆ view (receipt_store s);
  follows_agents : revoked_agents s0 ⊆ revoked_agents s;
  follows_capabilities :
    dom (MemoryCapabilityStore.revoked (capabilities s0)) ⊆ dom (MemoryCapabilityStore.revoked (capabilities s)) }.

Lemma follows_refl s : sound s → follows s s.
Proof. done. Qed.
Lemma follows_trans s1 s2 s3 : follows s1 s2 → follows s2 s3 → follows s1 s3.
Proof. intros [] []. split; [done|by etrans..]. Qed.

Lemma transport_relog s (log : R) :
  store_inv log → transport_inv (transport_with (transport s) (receipt_store s)) →
  transport_inv (transport_with (transport s) log).
Proof. intros Hl (H1' & H2' & H3' & _). done. Qed.

(** Another log that still holds what [s0] held. *)
Lemma follows_set_log s0 s log :
  follows s0 s → log_holds (view (receipt_store s0)) log → follows s0 (set_log log s).
Proof.
  intros [[Hl Ht Hr Hp] Hv Ha Hc] [Hl' Hv']. split; [|done..]. split; try done. by apply (transport_relog s).
Qed.
Lemma log_of_follows s0 s : follows s0 s → log_holds (view (receipt_store s0)) (receipt_store s).
Proof. by intros [[] ?]. Qed.

Lemma keeps_emit s0 label (clock : nat → Timestamp) swarm kind version ev :
  keeps (follows s0) (emit_receipt cp label clock swarm kind version ev : RPC Hash).
Proof.
  unfold emit_receipt. intros s. set (res := resolver s). clearbody res. revert s.
  apply keeps_mthen; [apply keeps_lift|intros r]. apply keeps_mthen; [|intros; apply keeps_mret].
  apply keeps_m_map_err.
  eapply keeps_zoom; [apply (keeps_append (view (receipt_store s0)))|apply log_of_follows|apply follows_set_log].
Qed.

Lemma keeps_on_registry s0 {A} (m : M (MemoryRegistry P R) RegistryError A) :
  keeps (registry_holds (view (receipt_store s0))) m → keeps (follows s0) (on_registry (C:=C) m).
Proof.
  intros Hm. apply keeps_m_map_err. eapply keeps_zoom; [exact Hm| |].
  - intros s Hs. split; [apply Hs|]. by apply log_of_follows.
  - intros s g Hs [Hp Hl]. apply follows_set_log; [|done].
    destruct Hs as [[Hl0 Ht Hr _] Hv Ha Hc]. split; [|done..]. by split.
Qed.

Lemma keeps_on_capabilities s0 {A} (m : M (MemoryCapabilityStore R) CapabilityError A) :
  keeps (caps_hold (view (receipt_store s0)) (dom (MemoryCapabilityStore.revoked (capabilities s0)))) m →
  keeps (follows s0) (on_capabilities (P:=P) (C:=C) m).
Proof.
  intros Hm. apply keeps_m_map_err. eapply keeps_zoom; [exact Hm| |].
  - intros s Hs. split; [by apply log_of_follows|apply Hs].
  - intros s c Hs [Hl Hr]. apply follows_set_log; [|exact Hl]. by destruct Hs as [[] Hv Ha Hcap].
Qed.

Lemma keeps_calling_capabilities s0 {A} (m : State → M (MemoryCapabilityStore R) CapabilityError A) :
  (∀ s, keeps (caps_hold (view (receipt_store s0)) (dom (MemoryCapabilityStore.revoked (capabilities s0)))) (m s)) →
  keeps (follows s0) (λ s, on_capabilities (P:=P) (C:=C) (m s) s).
Proof. intros Hm. apply (keeps_reading _ (λ s, s) (λ t, on_capabilities (m t))). intros t. by apply keeps_on_capabilities. Qed.

Lemma keeps_on_transport_send s0 (clock : nat → Timestamp) (e : Envelope) :
  keeps (follows s0) (λ s, on_transport (MemoryTransport.send (resolver s) cp order clock e) s).
Proof.
  intros s Hs. unfold on_transport, m_map_err, zoom.
  destruct (MemoryTransport.send _ _ _ _ _ _) as [r t] eqn:Hsend. cbn [snd].
  pose proof Hs as [[Hl Ht [h Hh] Hp] Hv Ha Hc].
  apply send_dispatch in Hsend; [|done..].
  destruct (admit_simulates _ _ _ _ e (clock 0) Hh) as (rp' & Hadm & Hh').
  change (MemoryTransport.replay (transport_with (transport s) (receipt_store s)))
    with (MemoryTransport.replay (transport s)) in Hsend. rewrite Hadm in Hsend.
  assert (transport_inv t ∧ replay_inv (MemoryTransport.replay t) ∧ view (receipt_store s) ⊆ view (receipts t))
    as (Ht' & Hr' & Hv').
  { destruct (spec_admit _ _ _ _ _).
    - destruct Hsend as (? & -> & Hr). split; [done|]. split; [by eexists|]. destruct r; [by apply Hr|by destruct Hr as [_ ->]].
    - destruct Hsend as [_ ->]. split; [exact Ht|]. split; [by eexists|done]. }
  split; [|by etrans|done|done]. split; [by apply Ht'|by destruct t|by destruct t|done].
Qed.

Hint Resolve keeps_emit keeps_on_registry keeps_on_capabilities keeps_modify keeps_reading : keeps.

Lemma keeps_mark_revoked s0 a : keeps (follows s0) (modify (mark_revoked a) : RPC unit).
Proof. apply keeps_modify. intros s [[] Hv Ha Hc]. split; [done|done| |done]. by apply union_subseteq_r'. Qed.
Lemma keeps_bind_engine s0 a : keeps (follows s0) (bind_engine a : RPC unit).
Proof. apply keeps_modify. by intros s [[] Hv Ha Hc]. Qed.
Lemma keeps_on_slots s0 {A} (m : M CedarPlusEvaluator CedarPlusError A) : keeps (follows s0) (on_slots m : RPC A).
Proof. apply keeps_m_map_err. apply (keeps_zoom _ _ (λ _, True)); [done..|]. by intros s t [[] Hv Ha Hc] _. Qed.
Lemma keeps_on_evaluator s0 {A} (m : M CedarPlusEvaluator CedarPlusError A) :
  keeps (follows s0) (on_evaluator m : RPC A).
Proof. apply keeps_m_map_err. apply (keeps_zoom _ _ (λ _, True)); [done..|]. by intros s t [[] Hv Ha Hc] _. Qed.
Lemma keeps_inbox s0 a :
  keeps (follows s0) (modify (λ s, set_transport (ensure_inbox a (transport s)) s) : RPC unit).
Proof.
  apply keeps_modify. intros s [[Hl Ht Hr Hp] Hv Ha Hc]. split; [|done..]. unfold ensure_inbox. simpl.
  destruct (inboxes (transport s) !! a); [done|]. apply (register_inv a) in Ht. by split.
Qed.
Lemma keeps_signal s0 a : keeps (follows s0) (modify (revocation_signal_for a) : RPC unit).
Proof. apply keeps_modify. by intros s [[] Hv Ha Hc]. Qed.
Lemma keeps_require_active {T} (Q : State → Prop) now (r : Request T) : keeps Q (require_active topology now r).
Proof. by intros s Hs. Qed.
Hint Resolve keeps_mark_revoked keeps_bind_engine keeps_on_slots keeps_on_evaluator keeps_inbox keeps_signal
  keeps_require_active keeps_registry_register keeps_registry_revoke keeps_registry_operator_revoke : keeps.

(** A call of a client. *)
Inductive Call :=
| Register (r : Request rpc.RegisterRequest) | Revoke (r : Request rpc.RevokeRequest)
| OperatorRevoke (r : Request rpc.OperatorRevokeRequest) | RotateKey (r : Request unit)
| GetTopology (r : Request unit)
| IssueCapability (r : Request (option cproto.Capability))
| AttenuateCapability (id : bytes) (r : Request (option rpc.AttenuateRequest))
| RevokeCapability (r : Request (option rpc.RevokeCapability))
| CheckCapability (r : Request (option rpc.CheckRequest))
| GetReceipt (r : Request (option proto.Hash)) | QueryReceipts (r : Request (option rproto.QueryRequest))
| SendEnvelope (r : Request SendEnvelopeRequest) | Subscribe (r : Request SubscribeRequest)
| ActivateConstitution (r : Request (option ConstitutionProto)) | GetActive (r : Request unit)
| ActivateShadow (r : Request (option ConstitutionProto)) | ClearShadow (r : Request unit)
| PromoteShadow (r : Request unit) | GetActiveShadow (r : Request unit).

(** A call: the new state, and whether it succeeded; the answers are not kept. *)
Definition answered {A} (m : RPC A) : M State Failure unit := do! refusing m in mret tt.
Definition serve clock (c : Call) : M State Failure unit :=
  match c with
  | Register r => answered (admission_register topology attestor cp clock r)
  | Revoke r => answered (admission_revoke topology cp clock r)
  | OperatorRevoke r => answered (admission_operator_revoke topology cp operator_public_key clock r)
  | RotateKey r => answered (admission_rotate_key topology clock r)
  | GetTopology r => answered (admission_get_topology topology clock r)
  | IssueCapability r => answered (capability_issue topology cp clock r)
  | AttenuateCapability id r => answered (capability_attenuate topology cp clock id r)
  | RevokeCapability r => answered (capability_revoke topology cp clock r)
  | CheckCapability r => answered (capability_check topology cp fresh_swarm clock r)
  | GetReceipt r => answered (receipt_get r)
  | QueryReceipts r => answered (receipt_query r)
  | SendEnvelope r =>
      do! envelope_send topology cp fresh_swarm values attr_iter order clock r in mret tt
  | Subscribe r => answered (envelope_subscribe topology clock r)
  | ActivateConstitution r =>
      answered (constitution_activate topology cp operator_public_key set_iter graph_iter clock r)
  | GetActive r => answered (constitution_get_active topology clock r)
  | ActivateShadow r =>
      answered (constitution_activate_shadow topology cp operator_public_key set_iter graph_iter clock r)
  | ClearShadow r => answered (constitution_clear_shadow topology cp operator_public_key clock r)
  | PromoteShadow r => answered (constitution_promote_shadow topology cp operator_public_key clock r)
  | GetActiveShadow r => answered (constitution_get_active_shadow topology clock r)
  end.

Lemma required_Ok {A} (o : option A) name s x s' : (required name o : RPC A) s = (Ok x, s') → o = Some x ∧ s' = s.
Proof. unfold required, lift. destruct o; naive_solver. Qed.
Lemma keeps_required s0 {A} name (o : option A) : keeps (follows s0) (required name o : RPC A).
Proof. apply keeps_lift. Qed.
Lemma keeps_converted s0 {A B E} `{TryFromProto A B E, ErrorIntoStatus E} (p : A) :
  keeps (follows s0) (converted p : RPC B).
Proof. apply keeps_lift. Qed.
Hint Resolve keeps_required keeps_converted : keeps.
Hint Unfold agent_of hash_of_proto : keeps.

Lemma keeps_register s0 clock r : keeps (follows s0) (admission_register topology attestor cp clock r).
Proof. unfold admission_register. cbv zeta. walk. Qed.
Lemma keeps_self_revoke s0 clock r : keeps (follows s0) (admission_revoke topology cp clock r).
Proof. unfold admission_revoke. cbv zeta. walk. Qed.

Hint Resolve keeps_calling_capabilities keeps_issue keeps_attenuate keeps_revoke keeps_check : keeps.
Lemma keeps_cascade s0 clock k reason ids : keeps (follows s0) (cascade_revoke (C:=C) cp clock k reason ids : RPC _).
Proof. revert k. induction ids as [|id ids IH]; intros k; cbn [cascade_revoke]; walk; apply IH. Qed.
Lemma keeps_require_operator {T} (Q : State → Prop) now (r : Request T) :
  keeps Q (require_operator topology operator_public_key now r).
Proof. by intros s Hs. Qed.
Hint Resolve keeps_cascade keeps_require_operator : keeps.
Lemma keeps_operator_revoke s0 clock r :
  keeps (follows s0) (admission_operator_revoke topology cp operator_public_key clock r).
Proof. unfold admission_operator_revoke. cbv zeta. walk. all: by intros s Hs. Qed.
Lemma keeps_capability_issue s0 clock r : keeps (follows s0) (capability_issue (P:=P) (C:=C) topology cp clock r).
Proof. unfold capability_issue. cbv zeta. walk. Qed.
Lemma keeps_capability_attenuate s0 clock id r :
  keeps (follows s0) (capability_attenuate (P:=P) (C:=C) topology cp clock id r).
Proof. unfold capability_attenuate. cbv zeta. walk. Qed.
Lemma keeps_capability_revoke s0 clock r : keeps (follows s0) (capability_revoke (P:=P) (C:=C) topology cp clock r).
Proof. unfold capability_revoke. cbv zeta. walk. Qed.
Lemma keeps_check_capability s0 (clock : nat → Timestamp) id d :
  keeps (follows s0) (check_capability (P:=P) (C:=C) cp fresh_swarm clock id d : RPC _).
Proof. unfold check_capability. walk. Qed.
Hint Resolve keeps_check_capability : keeps.
Lemma keeps_capability_check s0 clock r :
  keeps (follows s0) (capability_check (P:=P) (C:=C) topology cp fresh_swarm clock r).
Proof. unfold capability_check. cbv zeta. walk. Qed.

Lemma keeps_send_check s0 (clock : nat → Timestamp) cap_id e :
  keeps (follows s0) (send_check (P:=P) (C:=C) cp fresh_swarm clock cap_id e : RPC unit).
Proof. unfold send_check. cbv zeta. walk. Qed.
Hint Resolve keeps_send_check : keeps.
Lemma keeps_send_begin s0 clock r : keeps (follows s0) (send_begin (P:=P) (C:=C) topology cp fresh_swarm clock r).
Proof. unfold send_begin. cbv zeta. walk. Qed.
Lemma keeps_record_shadow s0 (clock : nat → Timestamp) pr o :
  keeps (follows s0) (record_shadow (P:=P) (C:=C) (R:=R) topology cp clock pr o).
Proof. unfold record_shadow. walk. Qed.
Hint Resolve keeps_record_shadow keeps_on_transport_send : keeps.
Hint Unfold refusing emit_constitution_eval_receipt : keeps.
Lemma keeps_send_finish s0 clock pr :
  keeps (follows s0) (send_finish (P:=P) (C:=C) topology cp values attr_iter order clock pr).
Proof. unfold send_finish. walk. Qed.
Lemma keeps_send s0 clock r :
  keeps (follows s0) (envelope_send topology cp fresh_swarm values attr_iter order clock r).
Proof. apply keeps_mthen; [apply keeps_m_map_err, keeps_send_begin|intros pr; apply keeps_send_finish]. Qed.
Lemma keeps_subscribe s0 clock r : keeps (follows s0) (envelope_subscribe (P:=P) (C:=C) topology clock r).
Proof. unfold envelope_subscribe. walk. Qed.

Hint Unfold emit_constitution_activate_receipt emit_constitution_shadow_activate_receipt
  emit_constitution_shadow_promote_receipt : keeps.
Lemma keeps_activate_swap s0 clock r :
  keeps (follows s0) (activate_swap (P:=P) (C:=C) (R:=R) topology operator_public_key set_iter graph_iter clock r).
Proof. unfold activate_swap. walk. Qed.
Lemma keeps_activate_read s0 w : keeps (follows s0) (activate_read (P:=P) (C:=C) (R:=R) w).
Proof. unfold activate_read. walk. Qed.
Lemma keeps_activate_finish s0 clock a : keeps (follows s0) (activate_finish (P:=P) (C:=C) cp clock a).
Proof. unfold activate_finish. cbv zeta. walk. Qed.
Hint Resolve keeps_activate_swap keeps_activate_read keeps_activate_finish : keeps.
Lemma keeps_activate s0 clock r :
  keeps (follows s0) (constitution_activate (P:=P) (C:=C) topology cp operator_public_key set_iter graph_iter clock r).
Proof. unfold constitution_activate. walk. Qed.
Lemma keeps_activate_shadow s0 clock r :
  keeps (follows s0)
    (constitution_activate_shadow (P:=P) (C:=C) topology cp operator_public_key set_iter graph_iter clock r).
Proof. unfold constitution_activate_shadow. walk. Qed.
Lemma keeps_clear_receipt s0 (clock : nat → Timestamp) h v swarm :
  keeps (follows s0) (emit_constitution_shadow_clear_receipt (P:=P) (C:=C) cp clock h v swarm : RPC Hash).
Proof.
  unfold emit_constitution_shadow_clear_receipt. cbv zeta. intros s.
  set (version := match v with Some _ => _ | None => _ end). clearbody version. apply keeps_emit.
Qed.
Hint Resolve keeps_clear_receipt : keeps.
Lemma keeps_clear_shadow {T} s0 clock (r : Request T) :
  keeps (follows s0) (constitution_clear_shadow (P:=P) (C:=C) topology cp operator_public_key clock r).
Proof. unfold constitution_clear_shadow. walk. Qed.
Lemma keeps_promote_begin {T} s0 clock (r : Request T) :
  keeps (follows s0) (promote_begin (P:=P) (C:=C) (R:=R) topology operator_public_key clock r).
Proof. unfold promote_begin. walk. Qed.
Lemma keeps_promote_finish s0 clock p : keeps (follows s0) (promote_finish (P:=P) (C:=C) cp clock p).
Proof. unfold promote_finish. cbv zeta. walk. Qed.
Hint Resolve keeps_promote_begin keeps_promote_finish : keeps.
Lemma keeps_promote_shadow {T} s0 clock (r : Request T) :
  keeps (follows s0) (constitution_promote_shadow (P:=P) (C:=C) topology cp operator_public_key clock r).
Proof. unfold constitution_promote_shadow. walk. Qed.

(** What only reads keeps everything. *)
Section reads.
Context (Q : State → Prop).
Lemma keeps_rotate_key {T} clock (r : Request T) : keeps Q (admission_rotate_key topology clock r).
Proof. unfold admission_rotate_key. walk. Qed.
Lemma keeps_get_topology {T} clock (r : Request T) : keeps Q (admission_get_topology topology clock r).
Proof. unfold admission_get_topology. walk. Qed.
Lemma keeps_receipt_get r : keeps Q (receipt_get (P:=P) (C:=C) (R:=R) r).
Proof. by unfold receipt_get, required, hash_of_proto, converted, on_log; walk; intros s Hs. Qed.
Lemma keeps_receipt_query r : keeps Q (receipt_query (P:=P) (C:=C) (R:=R) r).
Proof. by unfold receipt_query, required, converted, on_log; walk; intros s Hs. Qed.
Lemma keeps_get_active {T} clock (r : Request T) : keeps Q (constitution_get_active (P:=P) (C:=C) topology clock r).
Proof. unfold constitution_get_active. walk. Qed.
Lemma keeps_get_active_shadow {T} clock (r : Request T) :
  keeps Q (constitution_get_active_shadow (P:=P) (C:=C) topology clock r).
Proof. unfold constitution_get_active_shadow. walk. Qed.
End reads.

Lemma keeps_answered {A} (Q : State → Prop) (m : RPC A) : keeps Q m → keeps Q (answered m).
Proof. intros Hm. apply keeps_mthen; [by apply keeps_m_map_err|intros ?; apply keeps_mret]. Qed.
Hint Resolve keeps_answered keeps_register keeps_self_revoke keeps_operator_revoke keeps_rotate_key
  keeps_get_topology keeps_capability_issue keeps_capability_attenuate keeps_capability_revoke
  keeps_capability_check keeps_receipt_get keeps_receipt_query keeps_send keeps_subscribe keeps_activate
  keeps_get_active keeps_activate_shadow keeps_clear_shadow keeps_promote_shadow
  keeps_get_active_shadow : keeps.

(** Every call, whatever it answers. *)
Lemma keeps_serve s0 clock c : keeps (follows s0) (serve clock c).
Proof. destruct c; cbn [serve]; walk. Qed.

(** ** Who may call *)

(** The [authorization] header of a call, and the token its handler asks for. *)
Inductive Guard := Anyone | ActiveAgent | OperatorOnly.
Definition header_of (c : Call) : option bytes :=
  match c with
  | Register r => authorization r | Revoke r => authorization r | OperatorRevoke r => authorization r
  | RotateKey r => authorization r | GetTopology r => authorization r
  | IssueCapability r => authorization r | AttenuateCapability _ r => authorization r
  | RevokeCapability r => authorization r | CheckCapability r => authorization r
  | GetReceipt r => authorization r | QueryReceipts r => authorization r
  | SendEnvelope r => authorization r | Subscribe r => authorization r
  | ActivateConstitution r => authorization r | GetActive r => authorization r
  | ActivateShadow r => authorization r | ClearShadow r => authorization r
  | PromoteShadow r => authorization r | GetActiveShadow r => authorization r
  end.
Definition guard_of (c : Call) : Guard :=
  match c with
  | Register _ | GetReceipt _ | QueryReceipts _ => Anyone
  | OperatorRevoke _ | ActivateConstitution _ | ActivateShadow _ | ClearShadow _ | PromoteShadow _ => OperatorOnly
  | _ => ActiveAgent
  end.
Definition only_reads (c : Call) : bool :=
  match c with
  | RotateKey _ | GetTopology _ | GetReceipt _ | QueryReceipts _ | GetActive _ | GetActiveShadow _ => true
  | _ => false
  end.

(** Why the guard turns the call away, if it does. *)
Definition refusal (now : Timestamp) (c : Call) s : option Status :=
  let request := mkRequest (header_of c) tt in
  match guard_of c with
  | Anyone => None
  | ActiveAgent =>
      match require_active_bearer_auth request (revoked_agents s) (resolver s) (Topology.swarm_id topology) now with
      | Ok _ => None | Err st => Some st
      end
  | OperatorOnly =>
      match require_operator_bearer_auth request operator_public_key (Topology.swarm_id topology) now with
      | Ok _ => None | Err st => Some st
      end
  end.

Lemma active_turns_away {T A} now (r : Request T) (k : AuthContext → RPC A) s st :
  require_active_bearer_auth (mkRequest (authorization r) tt) (revoked_agents s) (resolver s)
    (Topology.swarm_id topology) now = Err st →
  mthen (require_active topology now r) k s = (Err st, s).
Proof. intros Hr. unfold mthen, require_active. change (require_active_bearer_auth r) with (require_active_bearer_auth (mkRequest (authorization r) tt)). by rewrite Hr. Qed.
Lemma operator_turns_away {T A} now (r : Request T) (k : OperatorAuthContext → RPC A) s st :
  require_operator_bearer_auth (mkRequest (authorization r) tt) operator_public_key
    (Topology.swarm_id topology) now = Err st →
  mthen (require_operator topology operator_public_key now r) k s = (Err st, s).
Proof. intros Hr. unfold mthen, require_operator, lift. change (require_operator_bearer_auth r) with (require_operator_bearer_auth (mkRequest (authorization r) tt)). by rewrite Hr. Qed.
Lemma answered_refused {A} (m : RPC A) s st : m s = (Err st, s) → answered m s = (Err (Refused st), s).
Proof. intros Hm. unfold answered, refusing, m_map_err, mthen. by rewrite Hm. Qed.

Lemma serve_refused clock c s st :
  refusal (clock 0 0) c s = Some st → serve clock c s = (Err (Refused st), s).
Proof.
  unfold refusal. intros Hr.
  destruct c; cbn [guard_of header_of serve] in *;
    first [discriminate | destruct (require_active_bearer_auth _ _ _ _ _) eqn:Ha; [discriminate|]
          | destruct (require_operator_bearer_auth _ _ _ _) eqn:Ha; [discriminate|]]; injection Hr as ->.
  all: try (apply answered_refused; apply active_turns_away; exact Ha).
  all: try (apply answered_refused; apply operator_turns_away; exact Ha).
  - unfold envelope_send. unfold mthen at 1 2, refusing, m_map_err. unfold send_begin.
    by rewrite (active_turns_away _ _ _ _ _ Ha).
  - apply answered_refused. unfold constitution_activate, activate_swap. unfold mthen at 1.
    by rewrite (operator_turns_away _ _ _ _ _ Ha).
  - apply answered_refused. unfold constitution_promote_shadow, promote_begin. unfold mthen at 1.
    by rewrite (operator_turns_away _ _ _ _ _ Ha).
Qed.
End services.
