(* ===== verification/Server.v ===== *)
(** * The running control plane

    Calls, the two tasks of the enforcement loop, and the parts of the handlers
    that can be interrupted half way, interleaved on one state. *)

From S2P Require Import Prelude RustStd Core CoreProto Crypto ReceiptTypes ReceiptProto Merkle.
From S2P Require Import ReceiptVerify Passport PassportStore Scope Capability Registry Envelope Tokio.
From S2P Require Import Score Enforcement CedarPlus Procedure Validate Evaluator EvaluatorLaws Publisher EnforcementLoop.
From S2P Require Import ReceiptStore CapabilityStore Replay Transport Status Auth Seed ControlPlane EnvelopeService.
From S2P Require Import ConstitutionService ServiceLaws.

Section server.
Context `{OffsetDateTimeOps}.
Context `{TimeOps, CryptoOps, HeaderOps, HexOps, SerdeJson, SerdeYaml} `{!SerdeJsonInt} {engine : Cedar}.
Context `{Encode rproto.Receipt, Encode pproto.Passport, Encode cproto.Capability, Encode eproto.Envelope}.
Context `{Encode ConstitutionProto}.
Context `{Encode cp_proto.AgentBearerToken, Decode cp_proto.AgentBearerToken}.
Context `{Encode cp_proto.OperatorBearerToken, Decode cp_proto.OperatorBearerToken}.
Context {P C V RS : Type} `{!PassportStore P, !PassportStoreLaws P, !ReceiptStore RS, !ReceiptStoreLaws RS}.
Context `{!Mpsc Envelope C, !MpscLaws Envelope C, !Mpsc EnforcementReceiptView V}.
Context (topology : Topology) (attestor : Attestor) (cp : ControlPlaneIdentity)
  (operator_public_key : option PublicKey) (fresh_swarm : SwarmId).
Context (values : gmap string ProcedureInstance → list ProcedureInstance)
        (attr_iter : gmap string JsonValue → list (string * JsonValue))
        (set_iter : gset string → list string)
        (graph_iter : gmap string (gset string) → list (string * gset string))
        (evidence_iter : gmap string Value → list (string * Value))
        (order : gset AgentId → list AgentId) (order_iterates : iterates order).
Notation R := (PublishingReceiptStore RS V).
Notation State := (ControlPlaneState P C R).
Implicit Types (s : State) (clock : nat → nat → Timestamp).
Notation serve := (serve topology attestor cp operator_public_key fresh_swarm values attr_iter set_iter graph_iter order).

(** The part of the state the tasks of the enforcement loop work on. *)
Definition loop_of s : LoopState :=
  EnforcementLoop.mkState (receipt_store s) (enforcement s) (cedar_plus s).
Definition set_loop (l : LoopState) s : State :=
  set_engine (EnforcementLoop.enforcement l) (set_log (EnforcementLoop.receipt_store l) s).

(** A change of the active constitution that has reached the evaluator and not the
    engine: an activation before and after it reads back what is active, and a
    promotion of the shadow. *)
Inductive Changing :=
| Reading (w : Swapped) | Binding (a : @Activating _ engine) | PromotingTo (p : @Promoting _ engine).

(** The control plane with its tasks, the sends between their checks and the
    evaluation, and the changes between the evaluator and the engine. *)
Record Server := mkServer {
  plane : State; forwarder_at : Task; scheduler_at : Task;
  sending : list Prepared; changing : list Changing }.
Implicit Types (v : Server).
Definition set_plane s v : Server := mkServer s (forwarder_at v) (scheduler_at v) (sending v) (changing v).
Definition set_sending l v : Server := mkServer (plane v) (forwarder_at v) (scheduler_at v) l (changing v).
Definition set_changing l v : Server := mkServer (plane v) (forwarder_at v) (scheduler_at v) (sending v) l.
Definition world_of v : World := mkWorld (loop_of (plane v)) (forwarder_at v) (scheduler_at v) [] [].
Definition after (w : World) v : Server :=
  mkServer (set_loop (state w) (plane v)) (forwarder w) (scheduler w) (sending v) (changing v).

Inductive moves : Server → Server → Prop :=
| moves_serve v clock c : moves v (set_plane (serve clock c (plane v)).2 v)
| moves_send_begin v clock r pr s :
    send_begin topology cp fresh_swarm clock r (plane v) = (Ok pr, s) →
    moves v (set_sending (pr :: sending v) (set_plane s v))
| moves_send_finish v clock pr rest : sending v ≡ₚ pr :: rest →
    moves v (set_sending rest (set_plane (send_finish topology cp values attr_iter order clock pr (plane v)).2 v))
| moves_activate_swap v clock r w s :
    activate_swap topology operator_public_key set_iter graph_iter clock r (plane v) = (Ok w, s) →
    moves v (set_changing (Reading w :: changing v) (set_plane s v))
| moves_activate_read v w rest a s : changing v ≡ₚ Reading w :: rest →
    activate_read w (plane v) = (Ok a, s) →
    moves v (set_changing (Binding a :: rest) (set_plane s v))
| moves_activate_finish v clock a rest : changing v ≡ₚ Binding a :: rest →
    moves v (set_changing rest (set_plane (activate_finish cp clock a (plane v)).2 v))
| moves_promote_begin v clock (r : Request unit) p s :
    promote_begin topology operator_public_key clock r (plane v) = (Ok p, s) →
    moves v (set_changing (PromotingTo p :: changing v) (set_plane s v))
| moves_promote_finish v clock p rest : changing v ≡ₚ PromotingTo p :: rest →
    moves v (set_changing rest (set_plane (promote_finish cp clock p (plane v)).2 v))
| moves_forwarder v w :
    forwarder_step evidence_iter (resolver (plane v)) cp (world_of v) w → moves v (after w v)
| moves_scheduler v w :
    emit_step evidence_iter (resolver (plane v)) cp Scheduler (world_of v) w → moves v (after w v)
| moves_tick v now : scheduler_at v = Idle → moves v (after (polled now (world_of v)) v).

(** A control plane on stores that are sound is sound. *)
Lemma fresh_sound p caps (log : R) e en :
  passports_ok p → store_inv log →
  sound (mkState p caps (MemoryTransport.new tt : MemoryTransport C unit) log ∅ ∅ e en).
Proof.
  intros Hp Hl. split; [done| |by exists []; apply represents_new|done].
  by split_and!.
Qed.

(** ** Nothing is lost *)

Lemma follows_set_loop s0 s l :
  follows s0 s → log_holds (view (receipt_store s0)) (EnforcementLoop.receipt_store l) → follows s0 (set_loop l s).
Proof. intros Hs Hl. destruct (follows_set_log s0 s (EnforcementLoop.receipt_store l) Hs Hl) as [[]]. by split. Qed.

Lemma appended_log r o res w vw :
  log_holds vw (EnforcementLoop.receipt_store (state w)) →
  log_holds vw (EnforcementLoop.receipt_store (state (appended (C:=V) (S:=RS) r o res w))).
Proof.
  intros Hl. pose proof (keeps_append vw r o res _ Hl) as Ha. unfold appended.
  destruct (append _ _ _ _) as [out p]. by destruct (is_ok out).
Qed.
Lemma emitted_log res (clk : nat → Timestamp) c e w vw :
  log_holds vw (EnforcementLoop.receipt_store (state w)) →
  log_holds vw (EnforcementLoop.receipt_store (state (emitted (C:=V) (S:=RS) evidence_iter res cp clk c e w))).
Proof. intros Hl. unfold emitted. destruct (effect_receipt _ _ _ _ _ _ _); [by apply appended_log|done]. Qed.
Lemma set_task_log o t (w : World (S:=RS) (C:=V)) : state (set_task o t w) = state w.
Proof. by destruct o. Qed.
Lemma emit_step_log res o w w' vw : emit_step evidence_iter res cp o w w' →
  log_holds vw (EnforcementLoop.receipt_store (state w)) →
  log_holds vw (EnforcementLoop.receipt_store (state (S:=RS) (C:=V) w')).
Proof. intros [] Hl; rewrite set_task_log; [done..| |done]. by apply emitted_log. Qed.
Lemma forwarder_step_log res w w' vw : forwarder_step evidence_iter res cp w w' →
  log_holds vw (EnforcementLoop.receipt_store (state w)) →
  log_holds vw (EnforcementLoop.receipt_store (state (S:=RS) (C:=V) w')).
Proof.
  intros [w1 view rest _ _|w1 w2 Hs] Hl; [|by eapply emit_step_log].
  unfold received. destruct (is_shadow view); [done|]. by destruct (Engine.on_receipt _ _).
Qed.

Lemma follows_after s0 w v : follows s0 (plane v) →
  (log_holds (view (receipt_store s0)) (receipt_store (plane v)) →
   log_holds (view (receipt_store s0)) (EnforcementLoop.receipt_store (state w))) →
  follows s0 (plane (after w v)).
Proof. intros Hs Hl. apply follows_set_loop; [done|]. by apply Hl, log_of_follows. Qed.

Lemma moves_follows s0 v v' : moves v v' → follows s0 (plane v) → follows s0 (plane v').
Proof.
  intros [v1 clock c|v1 clock r pr s Hb|v1 clock pr rest _|v1 clock r x s Hb|v1 x rest a s _ Hb|v1 clock a rest _
         |v1 clock r p s Hb|v1 clock p rest _|v1 w Hw|v1 w Hw|v1 now _] Hs.
  - by apply keeps_serve.
  - eapply keeps_run; [|exact Hb|exact Hs]. apply keeps_send_begin.
  - by apply keeps_send_finish.
  - eapply keeps_run; [|exact Hb|exact Hs]. apply keeps_activate_swap.
  - eapply keeps_run; [|exact Hb|exact Hs]. apply keeps_activate_read.
  - by apply keeps_activate_finish.
  - eapply keeps_run; [|exact Hb|exact Hs]. apply keeps_promote_begin.
  - by apply keeps_promote_finish.
  - apply follows_after; [done|]. exact (forwarder_step_log _ (world_of v1) w _ Hw).
  - apply follows_after; [done|]. exact (emit_step_log _ Scheduler (world_of v1) w _ Hw).
  - apply follows_after; [done|]. unfold polled. by destruct (Engine.poll_scheduled _ _).
Qed.

Lemma follows_run s0 v v' : rtc moves v v' → follows s0 (plane v) → follows s0 (plane v').
Proof. induction 1; eauto using moves_follows. Qed.

(** [C4] However calls, interrupted sends, activations and promotions and the steps of the
    two enforcement tasks interleave, a sound control plane stays sound, and
    nothing is lost: every receipt stays in the log under its content address,
    every agent once revoked stays revoked, and so does every capability. *)
Theorem control_plane_audited v v' : rtc moves v v' → sound (plane v) →
  sound (plane v') ∧
  view (receipt_store (plane v)) ⊆ view (receipt_store (plane v')) ∧
  revoked_agents (plane v) ⊆ revoked_agents (plane v') ∧
  dom (MemoryCapabilityStore.revoked (capabilities (plane v))) ⊆
    dom (MemoryCapabilityStore.revoked (capabilities (plane v'))).
Proof. intros Hr Hs. by destruct (follows_run (plane v) v v' Hr (follows_refl _ Hs)). Qed.

(** A call that only reads leaves everything as it is, whatever it answers. *)
Lemma reads_leave clock c s : only_reads c = true → (serve clock c s).2 = s.
Proof.
  intros Hr. assert (keeps (λ t, t = s) (serve clock c)) as Hk; [|by apply Hk].
  destruct c; try done; cbn [ServiceLaws.serve]; apply keeps_answered;
    auto using keeps_rotate_key, keeps_get_topology, keeps_receipt_get, keeps_receipt_query, keeps_get_active,
      keeps_get_active_shadow.
Qed.

(** [C2] Who may do what.  A call that its guard turns away is refused with the
    guard's status and changes nothing.  Only [Register] and the reading of
    receipts have no guard; a call that only reads leaves everything as it is,
    whatever it answers. *)
Theorem no_token_no_effect clock c s :
  (∀ st, refusal topology operator_public_key (clock 0 0) c s = Some st →
     serve clock c s = (Err (Refused st), s)) ∧
  (guard_of c = Anyone → only_reads c = true ∨ ∃ r, c = Register r) ∧
  (only_reads c = true → (serve clock c s).2 = s).
Proof.
  split; [intros st; apply serve_refused|]. split; [destruct c; naive_solver|apply reads_leave].
Qed.

(** ** Revocation *)

(** The agent a revoking call names. *)
Definition names (o : option proto.AgentId) (a : AgentId) : Prop :=
  ∃ p, o = Some p ∧ try_from (E:=CoreError) p = Ok a.
Definition revokes (c : Call) (a : AgentId) : Prop :=
  match c with
  | Revoke r => names (rpc.Revoke_agent_id (into_inner r)) a
  | OperatorRevoke r => names (rpc.OperatorRevoke_target (into_inner r)) a
  | _ => False
  end.

Lemma answered_Ok {A} (m : M State Status A) s s' : answered m s = (Ok tt, s') → ∃ x, m s = (Ok x, s').
Proof.
  unfold answered, refusing, m_map_err, mthen, mret. destruct (m s) as [[x|e] s1]; [|done].
  intros [= <-]. by exists x.
Qed.

Lemma marked a s : a ∈ revoked_agents (mark_revoked a s).
Proof. apply (elem_of_union_l a {[a]} (revoked_agents s)), elem_of_singleton. done. Qed.
Lemma revoke_marks clock c a s s' : revokes c a → serve clock c s = (Ok tt, s') → a ∈ revoked_agents s'.
Proof.
  intros Hr Hs. destruct c as [|r|r| | | | | | | | | | | | | | | |]; try done; destruct Hr as (p & Hp & Ha);
    apply answered_Ok in Hs as [x Hs].
  all: unfold admission_revoke, admission_operator_revoke in Hs; cbv zeta in Hs; run_ok Hs;
    apply required_Ok in Hx0 as [Hp' ->]; rewrite Hp in Hp'; injection Hp' as <-;
    unfold agent_of, converted, lift in Hx1; rewrite Ha in Hx1; injection Hx1 as <- <-.
  all: match goal with X : modify _ _ = _ |- _ => injection X as <- <- end; by apply marked.
Qed.

(** A token of an agent is not one of the operator. *)
Lemma agent_token_not_operator {T} (request : Request T) key swarm now a :
  peek_agent_bearer_agent_id request = Some a → ∃ st, require_operator_bearer_auth request key swarm now = Err st.
Proof.
  unfold peek_agent_bearer_agent_id, require_operator_bearer_auth, bearer_of. intros Hp.
  destruct key as [k|]; cbn [ok_or rbind]; [|by eexists].
  destruct (authorization request) as [v|]; [|done]. cbn [mbind option_bind ok_or rbind] in *.
  destruct (header_to_str v) as [h|]; [|done]. cbn [mbind option_bind ok_or rbind map_err] in *.
  destruct (parse_bearer_header h) as [[k' b]|]; [|done]. cbn [mbind option_bind rbind result_ok map_err fst snd] in *.
  destruct k'; [|done]. rewrite bool_decide_eq_false_2 by done. by eexists.
Qed.

(** [C3] Revocation is final.  Once a call that revokes an agent has succeeded,
    then whatever happens later, the same agent registering again included, a call
    whose token names the agent changes nothing, unless it is another [Register],
    which looks at no token: a call that asks for an active agent is refused as
    revoked, one that asks for the operator is refused, and the only others,
    [GetReceipt] and [QueryReceipts], ask for no token and read. *)
Theorem revocation_is_final clock c a v s v' clock' c' :
  sound (plane v) → revokes c a → serve clock c (plane v) = (Ok tt, s) →
  rtc moves (set_plane s v) v' →
  peek_agent_bearer_agent_id (mkRequest (header_of c') tt) = Some a →
  (guard_of c' = ActiveAgent →
     serve clock' c' (plane v') = (Err (Refused (unauthenticated "agent revoked")), plane v')) ∧
  (guard_of c' = OperatorOnly → ∃ st, serve clock' c' (plane v') = (Err (Refused st), plane v')) ∧
  ((∀ r, c' ≠ Register r) → (serve clock' c' (plane v')).2 = plane v').
Proof.
  intros Hv Hr Hs Hm Hp. assert (a ∈ revoked_agents (plane v')) as Ha.
  { assert (follows (plane v) s) as [Hsound _ _ _].
    { eapply keeps_run; [apply keeps_serve, order_iterates|exact Hs|by apply follows_refl]. }
    assert (follows s (plane v')) as [_ _ Hrev _].
    { by apply (follows_run s _ _ Hm), follows_refl. }
    by apply Hrev, (revoke_marks clock c a (plane v)). }
  assert (guard_of c' = ActiveAgent →
    serve clock' c' (plane v') = (Err (Refused (unauthenticated "agent revoked")), plane v')) as Hactive.
  { intros Hg. apply serve_refused. unfold refusal. rewrite Hg. unfold require_active_bearer_auth.
    by rewrite Hp, bool_decide_true. }
  assert (guard_of c' = OperatorOnly → ∃ st, serve clock' c' (plane v') = (Err (Refused st), plane v')) as Hop.
  { intros Hg. destruct (agent_token_not_operator _ operator_public_key (Topology.swarm_id topology) (clock' 0 0) a Hp) as [st Hst].
    exists st. apply serve_refused. unfold refusal. by rewrite Hg, Hst. }
  split_and!; [done|done|]. intros Hreg. destruct (guard_of c') eqn:Hg.
  - apply reads_leave. destruct c'; try done. by destruct (Hreg r).
  - by rewrite Hactive.
  - destruct Hop as [st Hst]; [done|]. by rewrite Hst.
Qed.

(** What [OperatorRevoke] cannot do.  When the target has no passport any
    more, because it revoked itself or because an earlier [OperatorRevoke]
    stopped half way, the call fails before its cascade: no receipt is written,
    no capability is revoked, and the agent is not marked as revoked. *)
Lemma operator_revoke_not_retryable clock r a s :
  revokes (OperatorRevoke r) a → live (passports s) !! a = None →
  let '(res, s') := serve clock (OperatorRevoke r) s in
  res ≠ Ok tt ∧ receipt_store s' = receipt_store s ∧ capabilities s' = capabilities s ∧
  revoked_agents s' = revoked_agents s ∧ transport s' = transport s.
Proof.
  intros (p & Hp & Ha) Hl. cbn [ServiceLaws.serve]. unfold answered, refusing, m_map_err, mthen at 1.
  unfold admission_operator_revoke. cbv zeta. unfold mthen at 1, require_operator, lift.
  destruct (require_operator_bearer_auth r _ _ _) as [op|st]; [|done].
  unfold mthen at 1, required, lift. rewrite Hp. cbn [ok_or].
  unfold mthen at 1, agent_of, converted, lift. rewrite Ha. cbn [map_err].
  unfold mthen at 1, on_registry, m_map_err, zoom, MemoryRegistry.operator_revoke.
  unfold mthen at 1, MemoryRegistry.on_passports, m_map_err, zoom. cbn [MemoryRegistry.passports].
  pose proof (revoke_spec a (rpc.OperatorRevoke_reason (into_inner r)) (passports s)) as Hrev.
  destruct (PassportStore.revoke _ _ _) as [[u|e] ps]; [|done].
  destruct Hrev as [_ [Hrev _]]. destruct (Hrev eq_refl) as [q Hq]. congruence.
Qed.

(** ** The evaluator and the engine *)

(** The engine enforces the constitution the evaluator evaluates. *)
Definition bound s : Prop :=
  ∀ a, current (cedar_plus s) = Some a → Engine.active (enforcement s) = Some (resolved_engine_config a).

(** A property that looks at the two active constitutions only. *)
Section framed.
Context (Q : State → Prop).
Context (framed : ∀ s s', current (cedar_plus s') = current (cedar_plus s) →
  Engine.active (enforcement s') = Engine.active (enforcement s) → Q s → Q s').

Lemma framed_zoom {T E A} (get : State → T) set (m : M T E A) :
  (∀ t s, current (cedar_plus (set t s)) = current (cedar_plus s) ∧
          Engine.active (enforcement (set t s)) = Engine.active (enforcement s)) →
  keeps Q (zoom get set m).
Proof.
  intros Hset. apply (keeps_zoom _ _ (λ _, True)); [done..|]. intros s t Hs _.
  destruct (Hset t s) as [Hc He]. by apply (framed s).
Qed.
Lemma framed_reading {E A} (m : State → M State E A) : (∀ t, keeps Q (m t)) → keeps Q (λ s, m s s).
Proof. apply (keeps_reading _ (λ s, s)). Qed.
Lemma framed_on_registry {A} (m : M (MemoryRegistry P R) RegistryError A) : keeps Q (on_registry (C:=C) m).
Proof. by apply keeps_m_map_err, framed_zoom. Qed.
Lemma framed_on_capabilities {A} (m : State → M (MemoryCapabilityStore R) CapabilityError A) :
  keeps Q (λ s, on_capabilities (P:=P) (C:=C) (m s) s).
Proof. apply (framed_reading (λ t, on_capabilities (m t))). intros t. by apply keeps_m_map_err, framed_zoom. Qed.
Lemma framed_on_capabilities' {A} (m : M (MemoryCapabilityStore R) CapabilityError A) :
  keeps Q (on_capabilities (P:=P) (C:=C) m).
Proof. by apply keeps_m_map_err, framed_zoom. Qed.
Lemma framed_on_transport {A} (m : State → M (MemoryTransport C R) TransportError A) :
  keeps Q (λ s, on_transport (P:=P) (m s) s).
Proof. apply (framed_reading (λ t, on_transport (m t))). intros t. by apply keeps_m_map_err, framed_zoom. Qed.
Lemma framed_emit label (clk : nat → Timestamp) swarm kind version ev :
  keeps Q (emit_receipt cp label clk swarm kind version ev : M State Status Hash).
Proof.
  unfold emit_receipt. intros s. set (res := resolver s). clearbody res. revert s.
  apply keeps_mthen; [apply keeps_lift|intros r]. apply keeps_mthen; [|intros; apply keeps_mret].
  by apply keeps_m_map_err, framed_zoom.
Qed.
Lemma framed_clear_receipt (clk : nat → Timestamp) h o swarm :
  keeps Q (emit_constitution_shadow_clear_receipt (P:=P) (C:=C) (R:=R) cp clk h o swarm : M State Status Hash).
Proof.
  unfold emit_constitution_shadow_clear_receipt. cbv zeta. intros s.
  set (version := match o with Some _ => _ | None => _ end). clearbody version. apply framed_emit.
Qed.
Lemma framed_modify (f : State → State) :
  (∀ s, current (cedar_plus (f s)) = current (cedar_plus s) ∧
        Engine.active (enforcement (f s)) = Engine.active (enforcement s)) →
  keeps Q (modify f : M State Status unit).
Proof. intros Hf. apply keeps_modify. intros s Hs. destruct (Hf s). by apply (framed s). Qed.
Lemma framed_slots {A} (m : M CedarPlusEvaluator CedarPlusError A) :
  (∀ e, current (m e).2 = current e) → keeps Q (on_slots m : M State Status A).
Proof.
  intros Hm. apply keeps_m_map_err. intros s Hs. unfold zoom. specialize (Hm (cedar_plus s)).
  destruct (m _) as [r e]. by apply (framed s).
Qed.
Hint Resolve framed_on_registry framed_on_capabilities framed_on_capabilities' framed_on_transport framed_emit
  framed_clear_receipt keeps_require_active keeps_require_operator : keeps.
Lemma framed_cascade clock k reason ids : keeps Q (cascade_revoke (C:=C) cp clock k reason ids : M State Status _).
Proof. revert k. induction ids as [|id ids IH]; intros k; cbn [cascade_revoke]; walk; apply IH. Qed.
Hint Resolve framed_cascade : keeps.
Lemma framed_evaluate request (clk : nat → Timestamp) :
  keeps Q (on_evaluator (evaluate_pair values attr_iter request clk) : M State Status _).
Proof.
  apply keeps_m_map_err. intros s Hs. unfold zoom.
  pose proof (evaluate_pair_state values attr_iter request clk (cedar_plus s)) as [_ He].
  destruct (evaluate_pair _ _ _ _ _) as [r e]. apply (framed s); [|done..]. by injection He.
Qed.
Hint Resolve framed_evaluate : keeps.
Definition moves_constitution (c : Call) : bool :=
  match c with ActivateConstitution _ | PromoteShadow _ => true | _ => false end.
Lemma framed_send_begin clock r : keeps Q (send_begin topology cp fresh_swarm clock r : M State Status _).
Proof. unfold send_begin, send_check, check_capability, required, converted. cbv zeta. walk. Qed.
Lemma framed_send_finish clock pr :
  keeps Q (send_finish topology cp values attr_iter order clock pr : M State Failure _).
Proof.
  unfold send_finish, record_shadow, refusing, emit_constitution_eval_receipt,
    emit_constitution_shadow_eval_receipt. walk.
Qed.
Lemma framed_serve clock c : moves_constitution c = false → keeps Q (serve clock c).
Proof.
  intros Hc. destruct c; try discriminate Hc; cbn [ServiceLaws.serve];
    try (apply keeps_answered; unfold admission_register, admission_revoke, admission_operator_revoke,
      capability_issue, capability_attenuate, capability_revoke, capability_check, check_capability,
      envelope_subscribe, constitution_activate_shadow, constitution_clear_shadow,
      emit_constitution_shadow_activate_receipt, required, converted, agent_of, hash_of_proto;
      cbv zeta; walk; try by apply framed_modify).
  - apply keeps_receipt_get.
  - apply keeps_receipt_query.
  - apply keeps_mthen; [|intros ?; apply keeps_mret].
    apply keeps_mthen; [apply keeps_m_map_err, framed_send_begin|intros ?; apply framed_send_finish].
  - apply keeps_get_active.
  - apply framed_slots. intros e. unfold activate_shadow, mthen, gets, lift, modify, mret.
    by destruct (load _ _ _ _).
Qed.
End framed.

(** A change of the active constitution waits for the changes that are still
    under way. *)
Definition serial v v' : Prop :=
  moves v v' ∧ (changing v ≠ [] → current (cedar_plus (plane v')) = current (cedar_plus (plane v))).

(** What a change will bind the engine to is the active constitution. *)
Definition will_bind s (c : Changing) : Prop :=
  match c with
  | Reading _ => True
  | Binding a => act_active a = current (cedar_plus s)
  | PromotingTo p => current (cedar_plus s) = Some (promoted (prom_outcome p))
  end.
Definition in_step v : Prop :=
  (changing v = [] → bound (plane v)) ∧ Forall (will_bind (plane v)) (changing v).

Lemma bound_framed s s' : current (cedar_plus s') = current (cedar_plus s) →
  Engine.active (enforcement s') = Engine.active (enforcement s) → bound s → bound s'.
Proof. intros Hc He Hb a. rewrite Hc, He. apply Hb. Qed.
Lemma current_kept s0 s s' : current (cedar_plus s') = current (cedar_plus s) →
  Engine.active (enforcement s') = Engine.active (enforcement s) →
  current (cedar_plus s) = current (cedar_plus s0) → current (cedar_plus s') = current (cedar_plus s0).
Proof. congruence. Qed.

Lemma check_rules_active rules r (e : EngineState) : Engine.active (Engine.check_rules rules r e).2 = Engine.active e.
Proof.
  revert e. induction rules as [|rule rules IH]; intros e; [done|]. cbn [Engine.check_rules].
  assert (Engine.active (Engine.check_detect rule r e).2 = Engine.active e) as Hd.
  { unfold Engine.check_detect. destruct (negb _); [done|]. cbv zeta. destruct (_ <? _)%N; [done|]. by case_bool_decide. }
  destruct (Engine.check_detect rule r e) as [x e1]. specialize (IH e1).
  destruct (Engine.check_rules rules r e1) as [xs e2]. cbn [snd] in *. congruence.
Qed.
Lemma on_receipt_active r (e : EngineState) : Engine.active (Engine.on_receipt r e).2 = Engine.active e.
Proof.
  unfold Engine.on_receipt. destruct (starts_with _ _); cbn [snd].
  - destruct (ReceiptView.principal_id r); [|done]. destruct (ReceiptView.reputation_delta r), (bool_decide _); try done;
      by destruct (_ || _).
  - destruct (Engine.active e) eqn:He; [by rewrite check_rules_active|done].
Qed.
Notation loop_active w := (Engine.active (EnforcementLoop.enforcement (state w))).
Lemma appended_active r o res (w : World (S:=RS) (C:=V)) : loop_active (appended r o res w) = loop_active w.
Proof. unfold appended. by destruct (append _ _ _ _). Qed.
Lemma emit_step_active res o (w w' : World (S:=RS) (C:=V)) :
  emit_step evidence_iter res cp o w w' → loop_active w' = loop_active w.
Proof.
  intros []; rewrite set_task_log; [done..| |done]. unfold emitted.
  destruct (effect_receipt _ _ _ _ _ _ _); [by rewrite appended_active|done].
Qed.
Lemma forwarder_step_active res (w w' : World (S:=RS) (C:=V)) :
  forwarder_step evidence_iter res cp w w' → loop_active w' = loop_active w.
Proof.
  intros [w1 view rest _ _|w1 w2 Hs]; [|by eapply emit_step_active].
  unfold received. destruct (is_shadow view); [done|].
  pose proof (on_receipt_active (EnforcementReceiptView.borrowed view)
                (EnforcementLoop.enforcement (EnforcementLoop.with_channel rest (state w1)))) as Ha.
  by destruct (Engine.on_receipt _ _).
Qed.

Lemma finish_bound clock a s : act_active a = current (cedar_plus s) →
  let s' := (activate_finish cp clock a s).2 in
  current (cedar_plus s') = current (cedar_plus s) ∧ bound s'.
Proof.
  intros Ha. cbv zeta. unfold activate_finish. cbv zeta.
  set (k := mthen (emit_constitution_activate_receipt _ _ _ _ _) _).
  assert (∀ t : State, keeps (λ u : State, current (cedar_plus u) = current (cedar_plus t) ∧ bound u) k) as Hk.
  { intros t. subst k. unfold emit_constitution_activate_receipt. apply keeps_mthen; [|intros ?; apply keeps_mret].
    apply framed_emit. intros u u' Hc He [H1' H2']. split; [congruence|by apply (bound_framed u)]. }
  unfold mthen. rewrite Ha. destruct (current (cedar_plus s)) as [active|] eqn:Hc.
  - unfold bind_engine, modify. rewrite <- Hc. apply (Hk s). split; [done|]. intros b Hb.
    simpl in *. congruence.
  - unfold mret. rewrite <- Hc. apply (Hk s). split; [done|]. intros b Hb. congruence.
Qed.

Lemma promote_finish_bound clock p s : current (cedar_plus s) = Some (promoted (prom_outcome p)) →
  let s' := (promote_finish cp clock p s).2 in
  current (cedar_plus s') = current (cedar_plus s) ∧ bound s'.
Proof.
  intros Hp. cbv zeta. unfold promote_finish. cbv zeta. unfold mthen at 1, bind_engine, modify.
  set (k := mthen (emit_constitution_shadow_promote_receipt _ _ _ _ _ _ _) _).
  assert (keeps (λ u : State, current (cedar_plus u) = current (cedar_plus s) ∧ bound u) k) as Hk.
  { subst k. unfold emit_constitution_shadow_promote_receipt. apply keeps_mthen; [|intros ?; apply keeps_mret].
    apply framed_emit. intros u u' Hc He [H1' H2']. split; [congruence|by apply (bound_framed u)]. }
  apply Hk. split; [done|]. intros b Hb. simpl in *. congruence.
Qed.
Lemma promote_begin_active {T} clock (r : Request T) s p s' :
  promote_begin topology operator_public_key clock r s = (Ok p, s') →
  current (cedar_plus s') = Some (promoted (prom_outcome p)).
Proof.
  unfold promote_begin. unfold mthen at 1, require_operator, lift.
  destruct (require_operator_bearer_auth _ _ _ _); [|done].
  unfold mthen at 1, on_slots, m_map_err, zoom, promote_shadow, mthen, gets, modify. cbv beta.
  destruct (current_shadow (cedar_plus s)) as [sh|]; [|done]. by intros [= <- <-].
Qed.
Lemma promote_begin_Err {T} clock (r : Request T) s e s' :
  promote_begin topology operator_public_key clock r s = (Err e, s') →
  current (cedar_plus s') = current (cedar_plus s) ∧ Engine.active (enforcement s') = Engine.active (enforcement s).
Proof.
  unfold promote_begin. unfold mthen at 1, require_operator, lift.
  destruct (require_operator_bearer_auth _ _ _ _); [|by intros [= <- <-]].
  unfold mthen at 1, on_slots, m_map_err, zoom, promote_shadow, mthen, gets, modify. cbv beta.
  destruct (current_shadow (cedar_plus s)) as [sh|]; [done|]. by intros [= <- <-].
Qed.
Lemma activate_bound clock r s : bound s →
  bound (constitution_activate topology cp operator_public_key set_iter graph_iter clock r s).2.
Proof.
  intros Hs. unfold constitution_activate. unfold mthen at 1.
  destruct (activate_swap _ _ _ _ _ _ _) as [[w|e] s1] eqn:Hb.
  - unfold mthen at 1, activate_read, mthen at 1, gets, mret. by apply finish_bound.
  - cbn [snd]. unfold activate_swap, mthen, require_operator, required, lift, on_slots, m_map_err, zoom, gets, mret in Hb.
    destruct (require_operator_bearer_auth _ _ _ _); [|by injection Hb as <- <-].
    destruct (ok_or _ _); [|by injection Hb as <- <-].
    destruct (constitution_from_proto _); [|by injection Hb as <- <-].
    unfold activate, mthen, gets, lift, modify, mret in Hb. cbv beta in Hb.
    destruct (load _ _ _ _); cbn [map_err] in Hb; [discriminate|]. injection Hb as <- <-. exact Hs.
Qed.
Lemma promote_bound {T} clock (r : Request T) s : bound s →
  bound (constitution_promote_shadow topology cp operator_public_key clock r s).2.
Proof.
  intros Hs. unfold constitution_promote_shadow. unfold mthen at 1.
  destruct (promote_begin _ _ _ _ _) as [[p|e] s1] eqn:Hb.
  - apply promote_finish_bound. by apply (promote_begin_active clock r s).
  - apply promote_begin_Err in Hb as [Hc He]. by apply (bound_framed s).
Qed.

(** Another change that is under way waits, so those before it still bind what is
    active. *)
Lemma will_bind_kept s s' l : current (cedar_plus s') = current (cedar_plus s) →
  Forall (will_bind s) l → Forall (will_bind s') l.
Proof. intros Hc Hl. apply (Forall_impl _ _ _ Hl). intros [w|a|p]; simpl; [done|congruence..]. Qed.
Lemma will_bind_waits s s' l : (l ≠ [] → current (cedar_plus s') = current (cedar_plus s)) →
  Forall (will_bind s) l → Forall (will_bind s') l.
Proof. intros Hw Hf. destruct l; [constructor|]. eapply will_bind_kept; [by apply Hw|done]. Qed.

Lemma serial_in_step v v' : serial v v' → in_step v → in_step v'.
Proof.
  intros [Hm Hwait] [Hb Hf].
  assert (∀ s s', current (cedar_plus s') = current (cedar_plus s) →
    Engine.active (enforcement s') = Engine.active (enforcement s) →
    in_step (set_plane s v) → in_step (set_plane s' v)) as Hframe.
  { intros s s' Hc He [H1' H2']. split; cbn [plane changing set_plane] in *; [|by eapply will_bind_kept].
    intros Ha. by apply (bound_framed s), H1'. }
  assert (in_step (set_plane (plane v) v)) as Hv by by split.
  destruct Hm as [v clock c|v clock r pr s Hr|v clock pr rest Hr|v clock r w s Hr|v w rest a s Hr Ha|v clock a rest Hr
                 |v clock r p s Hr|v clock p rest Hr|v w Hw|v w Hw|v now Hi];
    cbn [plane changing set_plane set_changing] in Hwait.
  - destruct (moves_constitution c) eqn:Hc; [|by apply (framed_serve _ Hframe clock c Hc (plane v))].
    split; cbn [plane changing set_plane] in *; [|by eapply will_bind_waits].
    intros Ha. destruct c; try discriminate Hc; cbn [ServiceLaws.serve].
    + apply (keeps_answered bound); [intros s; apply activate_bound|by apply Hb].
    + apply (keeps_answered bound); [intros s; apply promote_bound|by apply Hb].
  - eapply (keeps_run _ _ _ _ _ (framed_send_begin _ Hframe clock r)) in Hv; [|exact Hr]. exact Hv.
  - exact (framed_send_finish _ Hframe clock pr _ Hv).
  - split; cbn [plane changing set_plane set_changing] in *; [done|].
    constructor; [done|]. by eapply will_bind_waits.
  - injection Ha as <- <-. rewrite Hr in Hf. apply Forall_cons in Hf as [_ Hf].
    split; cbn [plane changing set_plane set_changing] in *; [done|]. by constructor.
  - rewrite Hr in Hf. apply Forall_cons in Hf as [Ha Hf].
    destruct (finish_bound clock a (plane v) Ha) as [Hc Hbound].
    split; cbn [plane changing set_plane set_changing] in *; [by intros _|]. by eapply will_bind_kept.
  - split; cbn [plane changing set_plane set_changing] in *; [done|].
    constructor; [by eapply promote_begin_active|]. by eapply will_bind_waits.
  - rewrite Hr in Hf. apply Forall_cons in Hf as [Hp Hf].
    destruct (promote_finish_bound clock p (plane v) Hp) as [Hc Hbound].
    split; cbn [plane changing set_plane set_changing] in *; [by intros _|]. by eapply will_bind_kept.
  - apply forwarder_step_active in Hw. exact (Hframe (plane v) (set_loop (state w) (plane v)) eq_refl Hw Hv).
  - apply emit_step_active in Hw. exact (Hframe (plane v) (set_loop (state w) (plane v)) eq_refl Hw Hv).
  - apply (Hframe (plane v) (set_loop (state (polled now (world_of v))) (plane v))); [done| |done].
    unfold polled. pose proof (poll_exact now (EnforcementLoop.enforcement (state (world_of v)))) as Hp.
    destruct (Engine.poll_scheduled _ _) as [es e]. by destruct Hp as (_ & _ & _ & Ha & _).
Qed.

(** [C29] The enforcement engine enforces the constitution the evaluator
    evaluates, as long as the active constitution is not changed while an
    activation or a promotion of the shadow stands between the two: it holds again
    whenever none of them is under way, whatever calls and tasks run in between,
    also in the middle of one. *)
Theorem evaluator_and_engine_agree v v' :
  changing v = [] → bound (plane v) → rtc serial v v' → changing v' = [] → bound (plane v').
Proof.
  intros Ha Hb Hr Ha'. assert (in_step v) as Hv by (split; [done|rewrite Ha; constructor]).
  enough (in_step v') as [Hb' _] by by apply Hb'.
  clear Ha Hb Ha'. induction Hr; eauto using serial_in_step.
Qed.
End server.

Module ServerToy.
Import MerkleToy QueueToy.
Export SeedToy.
#[global] Instance yaml : SerdeYaml := {|
  yaml_from_str s := if String.eqb s "cases" then Ok CedarToy.config
                     else if String.eqb s "none" then Ok (EngineConfig.mk "1" [] [] [] []) else Err "expected a mapping"%string;
  yaml_to_string c := Ok "cases"%string |}.
#[global] Instance json_ints : SerdeJsonInt := {| json_int := id |}.
#[global] Instance encode_constitution : Encode ConstitutionProto := λ p,
  as_bytes (Proto_constitution_version p) ++ as_bytes (Proto_engine_config_yaml p).
Definition swarm : SwarmId := swarm_id identity.
Definition passport (a : AgentId) (key : SigningKey) : Passport :=
  let p := Passport.mk (SpecVersion.mk "1.0.0") a swarm (SigningKey.public key) "o" "f" "1" []
             "1.0.0" PassportTier.Standard ResourceDeclaration.default (Timestamp.mk "0" 0) None "" "" None in
  Passport.with_signature (Some (sign key (passport_message p))) p.
Definition cp : ControlPlaneIdentity :=
  ControlPlaneIdentity.new (agent_id identity) (in_process_signer (agent_key identity)).
Definition alice_key : SigningKey := SigningKey.mk [Byte.x01].
Definition alice : SeedIdentity := mkSeed (agent 1) swarm alice_key alice_key.
Definition topology : Topology :=
  Topology.mk (SpecVersion.mk "1.0.0") swarm Topology.Closed
    (AdmissionPolicy.Closed (AdmissionPolicy.mkClosed [agent 1] [] false)) 0 8 0 1 false false "1.0.0" [] None.
Definition operator_key : option PublicKey := Some (SigningKey.public (Seed.operator_key identity)).
Definition at_sec (n : nat) : Timestamp := Timestamp.mk "60" (N.of_nat n).
Definition clock (i n : nat) : Timestamp := Timestamp.mk "60" (N.of_nat (10 * i + n)).
Notation Store := (PublishingReceiptStore MemoryStore (nat * list EnforcementReceiptView)).
Notation State := (ControlPlaneState MemoryPassportStore (nat * list Envelope) Store).
Definition stores : MemoryPassportStore :=
  (PassportStore.register (passport (agent 1) alice_key)
     (PassportStore.register (passport (agent_id identity) (agent_key identity)) MemoryPassportStore.new).2).2.
Definition empty : State :=
  mkState stores (MemoryCapabilityStore.mk {[capability_hash CapToy.root := CapToy.root]} ∅ tt)
    (MemoryTransport.new tt)
    (PublishingReceiptStore.new MemoryStore.new) ∅ ∅
    (new_evaluator (with_default_bounds tt) SandboxConfig.default) Engine.fresh.
Definition bearer (v : BearerVariant) {T} (body : T) : Request T :=
  let mint := match v with AgentBearer => mint_agent_token alice | OperatorBearer => mint_operator_token identity end in
  sent v (default ""%string (fst <$> mint (Timestamp.mk "50" 7) 9%N)) body.
Notation serve := (serve topology native_attestor cp operator_key swarm CedarToy.values EvaluatorToy.attr_iter
                     elements map_to_list TransportToy.order).
Definition revoke_alice : Call :=
  OperatorRevoke (bearer OperatorBearer (rpc.mkOperatorRevoke (Some (to_proto (agent 1))) "misuse" true)).
Definition revoked := serve clock revoke_alice empty.
Definition constitution_of (version yaml : string) : ConstitutionProto :=
  mkConstitutionProto (Some (to_proto (SpecVersion.mk "1.1.0"))) "1.1.0" version None (Some (to_proto swarm))
    "permit(principal, action, resource);" yaml (Some (to_proto (Timestamp.mk "50" 1))).
Definition activation (v : string) : Request (option ConstitutionProto) :=
  bearer OperatorBearer (Some (constitution_of v v)).
Definition begun (v : string) (s : State) :=
  activate_swap topology operator_key elements map_to_list clock (activation v) s.
Definition begun_as (v : string) (s : State) : Swapped :=
  default (mkSwapped swarm (sha256 []) "") (result_ok (begun v s).1).
(** What it then reads back. *)
Definition read_back (w : Swapped) (s : State) : @Activating _ CedarToy.cedar :=
  mkActivating (swap_swarm w) (swap_hash w) (swap_version w) (current (cedar_plus s)).
Definition scores (s : State) : option (list string) * option (list string) :=
  ((λ a, EngineConfig.scoring_name <$> EngineConfig.scoring_rules (resolved_engine_config a)) <$> current (cedar_plus s),
   (λ c, EngineConfig.scoring_name <$> EngineConfig.scoring_rules c) <$> Engine.active (enforcement s)).
Lemma bound_scores (s : State) l : bound s → (scores s).1 = Some l → (scores s).2 = Some l.
Proof.
  unfold scores, bound. cbn [fst snd]. intros Hb. destruct (current (cedar_plus s)) as [a|]; [|done].
  by rewrite (Hb a eq_refl).
Qed.
Definition one : State := (begun "cases" empty).2.
Definition both : State := (begun "none" one).2.
Definition first := read_back (begun_as "cases" empty) one.
Definition second := read_back (begun_as "none" one) both.
Definition crossed : State := (activate_finish cp clock first (activate_finish cp clock second both).2).2.
Notation Plane := (Server (P:=MemoryPassportStore) (C:=nat * list Envelope)
                     (V:=nat * list EnforcementReceiptView) (RS:=MemoryStore)).
Definition start : Plane := mkServer empty Idle Idle [] [].
Definition iter (m : gmap string Value) : list (string * Value) := map_to_list m.
Definition order_ok := TransportToy.order_iterates.
Lemma cp_self_signed : self_signed (passport (agent_id identity) (agent_key identity)).
Proof. apply verify_self_signature_Ok. vm_compute. reflexivity. Qed.
Lemma alice_signed : self_signed (passport (agent 1) alice_key).
Proof. apply verify_self_signature_Ok. vm_compute. reflexivity. Qed.
Lemma empty_sound : sound empty.
Proof.
  apply fresh_sound; [|exact inv_new].
  by do 2 apply keeps_passport_register.
Qed.
End ServerToy.


Module ServerRun.
Import ServerToy MerkleToy.
Notation moves := (moves topology native_attestor cp operator_key swarm CedarToy.values EvaluatorToy.attr_iter
                     elements map_to_list ServerToy.iter TransportToy.order).
Notation serial := (serial topology native_attestor cp operator_key swarm CedarToy.values EvaluatorToy.attr_iter
                      elements map_to_list ServerToy.iter TransportToy.order).
Definition called (c : Call) (v : Plane) : Plane := set_plane (serve clock c (plane v)).2 v.
Definition dismissed_plane := (serve clock revoke_alice empty).2.
Definition dismissed : Plane := set_plane dismissed_plane start.
Lemma dismissed_run : serve clock revoke_alice empty = (Ok tt, dismissed_plane).
Proof. apply injective_projections; cbn [fst snd]; [vm_compute; reflexivity|unfold dismissed_plane; reflexivity]. Qed.
(** The revoked agent's own token, and the operator's revocation of the control
    plane's own agent. *)
Definition topology_for_alice : Call := GetTopology (bearer AgentBearer tt).
Definition revoke_self : Call :=
  OperatorRevoke (bearer OperatorBearer (rpc.mkOperatorRevoke (Some (to_proto (agent_id identity))) "oops" true)).
Lemma alice_peeked :
  peek_agent_bearer_agent_id (mkRequest (header_of topology_for_alice) tt) = Some (agent 1).
Proof. vm_compute. reflexivity. Qed.
Lemma self_named : revokes revoke_self (agent_id identity).
Proof. exists (to_proto (agent_id identity)). split; [reflexivity|vm_compute; reflexivity]. Qed.
Lemma alice_named : revokes revoke_alice (agent 1).
Proof. exists (to_proto (agent 1)). split; [reflexivity|vm_compute; reflexivity]. Qed.
(** The control plane after its own agent was revoked, which failed half way. *)
Definition orphaned := (serve clock revoke_self empty).2.
Lemma orphaned_gone : live (passports orphaned) !! agent_id identity = None ∧
  bool_decide (agent_id identity ∈ revoked_agents orphaned) = false.
Proof. split; vm_compute; reflexivity. Qed.
(** Two activations that overlap: the first has read back what is active when the
    second changes it. *)
Definition first_swapped : Plane := set_changing [Reading (begun_as "cases" empty)] (set_plane one start).
Definition first_read : Plane := set_changing [Binding first] (set_plane one start).
Definition both_swapped : Plane := set_changing [Reading (begun_as "none" one); Binding first] (set_plane both start).
Definition both_read : Plane := set_changing [Binding second; Binding first] (set_plane both start).
Definition second_done : Plane := set_changing [Binding first] (set_plane (activate_finish cp clock second both).2 start).
Definition both_done : Plane := set_changing [] (set_plane crossed start).
Lemma first_run : begun "cases" empty = (Ok (begun_as "cases" empty), one).
Proof. apply injective_projections; cbn [fst snd]; [vm_compute; reflexivity|reflexivity]. Qed.
Lemma second_run : begun "none" one = (Ok (begun_as "none" one), both).
Proof. apply injective_projections; cbn [fst snd]; [vm_compute; reflexivity|unfold both; reflexivity]. Qed.
Lemma crossed_scores : scores crossed = (Some [], Some ["late"; "kind"]%string).
Proof. vm_compute. reflexivity. Qed.
End ServerRun.

Lemma control_plane_audited_witness :
  sound (plane ServerRun.dismissed) ∧
  view (receipt_store (plane ServerToy.start)) ⊆ view (receipt_store (plane ServerRun.dismissed)).
Proof.
  destruct (control_plane_audited ServerToy.topology native_attestor ServerToy.cp ServerToy.operator_key ServerToy.swarm
    CedarToy.values EvaluatorToy.attr_iter elements map_to_list ServerToy.iter TransportToy.order ServerToy.order_ok
    ServerToy.start ServerRun.dismissed) as (Hs & Hv & _).
  - apply rtc_once, moves_serve.
  - exact ServerToy.empty_sound.
  - by split.
Defined.

Lemma no_token_no_effect_witness :
  (serve ServerToy.topology native_attestor ServerToy.cp ServerToy.operator_key ServerToy.swarm CedarToy.values
    EvaluatorToy.attr_iter elements map_to_list TransportToy.order ServerToy.clock
    (PromoteShadow (ServerToy.bearer AgentBearer tt)) ServerToy.empty)
  = (Err (Refused (unauthenticated "this RPC requires an operator bearer; got agent variant")), ServerToy.empty).
Proof.
  apply (no_token_no_effect ServerToy.topology native_attestor ServerToy.cp ServerToy.operator_key ServerToy.swarm
    CedarToy.values EvaluatorToy.attr_iter elements map_to_list TransportToy.order ServerToy.clock
    (PromoteShadow (ServerToy.bearer AgentBearer tt)) ServerToy.empty).
  vm_compute. reflexivity.
Defined.

Lemma revocation_is_final_witness :
  serve ServerToy.topology native_attestor ServerToy.cp ServerToy.operator_key ServerToy.swarm CedarToy.values
    EvaluatorToy.attr_iter elements map_to_list TransportToy.order ServerToy.clock ServerRun.topology_for_alice
    (plane ServerRun.dismissed)
  = (Err (Refused (unauthenticated "agent revoked")), plane ServerRun.dismissed).
Proof.
  exact (proj1 (revocation_is_final ServerToy.topology native_attestor ServerToy.cp ServerToy.operator_key ServerToy.swarm
    CedarToy.values EvaluatorToy.attr_iter elements map_to_list ServerToy.iter TransportToy.order ServerToy.order_ok
    ServerToy.clock ServerToy.revoke_alice (MerkleToy.agent 1) ServerToy.start ServerRun.dismissed_plane
    ServerRun.dismissed ServerToy.clock ServerRun.topology_for_alice ServerToy.empty_sound
    ServerRun.alice_named ServerRun.dismissed_run (rtc_refl _ _) ServerRun.alice_peeked) eq_refl).
Defined.

Lemma operator_revoke_not_retryable_witness :
  let '(res, s') := serve ServerToy.topology native_attestor ServerToy.cp ServerToy.operator_key ServerToy.swarm
    CedarToy.values EvaluatorToy.attr_iter elements map_to_list TransportToy.order ServerToy.clock
    ServerRun.revoke_self ServerRun.orphaned in
  res ≠ Ok tt ∧ bool_decide (agent_id SeedToy.identity ∈ revoked_agents s') = false.
Proof.
  pose proof (operator_revoke_not_retryable ServerToy.topology native_attestor ServerToy.cp ServerToy.operator_key
    ServerToy.swarm CedarToy.values EvaluatorToy.attr_iter elements map_to_list TransportToy.order ServerToy.clock
    (ServerToy.bearer OperatorBearer (rpc.mkOperatorRevoke (Some (to_proto (agent_id SeedToy.identity))) "oops" true))
    (agent_id SeedToy.identity) ServerRun.orphaned ServerRun.self_named
    (proj1 ServerRun.orphaned_gone)) as Hw.
  fold ServerRun.revoke_self in Hw.
  destruct (serve _ _ _ _ _ _ _ _ _ _ _ _ _) as [res s']. destruct Hw as (Hr & _ & _ & Ha & _).
  split; [exact Hr|]. rewrite Ha. exact (proj2 ServerRun.orphaned_gone).
Defined.

Lemma evaluator_and_engine_agree_witness :
  bound (plane (ServerRun.called (ActivateConstitution (ServerToy.activation "cases")) ServerToy.start)).
Proof.
  apply (evaluator_and_engine_agree ServerToy.topology native_attestor ServerToy.cp ServerToy.operator_key
    ServerToy.swarm CedarToy.values EvaluatorToy.attr_iter elements map_to_list ServerToy.iter TransportToy.order
    ServerToy.start).
  - reflexivity.
  - by intros a.
  - apply rtc_once. split; [apply moves_serve|by intros []].
  - reflexivity.
Defined.

(** Two overlapping activations, both successful, leave an engine that does not
    enforce what the evaluator evaluates. *)
Lemma overlapping_activations_disagree :
  rtc ServerRun.moves ServerToy.start ServerRun.both_done ∧ bound (plane ServerToy.start) ∧
  changing ServerRun.both_done = [] ∧ ¬ bound (plane ServerRun.both_done).
Proof.
  split; [|split; [by intros a|split; [reflexivity|]]].
  - apply rtc_l with ServerRun.first_swapped; [exact (moves_activate_swap _ _ _ _ _ _ _ _ _ _ _ ServerToy.start
      ServerToy.clock (ServerToy.activation "cases") _ _ ServerRun.first_run)|].
    apply rtc_l with ServerRun.first_read; [exact (moves_activate_read _ _ _ _ _ _ _ _ _ _ _ ServerRun.first_swapped
      _ [] _ _ (Permutation_refl _) eq_refl)|].
    apply rtc_l with ServerRun.both_swapped; [exact (moves_activate_swap _ _ _ _ _ _ _ _ _ _ _ ServerRun.first_read
      ServerToy.clock (ServerToy.activation "none") _ _ ServerRun.second_run)|].
    apply rtc_l with ServerRun.both_read; [exact (moves_activate_read _ _ _ _ _ _ _ _ _ _ _ ServerRun.both_swapped
      _ [Binding ServerToy.first] _ _ (Permutation_refl _) eq_refl)|].
    apply rtc_l with ServerRun.second_done; [exact (moves_activate_finish _ _ _ _ _ _ _ _ _ _ _
      ServerRun.both_read ServerToy.clock ServerToy.second [Binding ServerToy.first] (Permutation_refl _))|].
    apply rtc_once. exact (moves_activate_finish _ _ _ _ _ _ _ _ _ _ _
      ServerRun.second_done ServerToy.clock ServerToy.first [] (Permutation_refl _)).
  - intros Hb. pose proof (ServerToy.bound_scores ServerToy.crossed [] Hb) as Hs.
    rewrite ServerRun.crossed_scores in Hs. discriminate (Hs eq_refl).
Qed.
