(* ===== verification/SendLaws.v ===== *)
(** * What [EnvelopeService.Send] lets through, and what it leaves on record

    A send passes the guard, the capability check and the constitution, in this
    order, and its verdict is in the log before anything is delivered. *)

From S2P Require Import Prelude RustStd Core CoreProto Crypto ReceiptTypes ReceiptProto Merkle.
From S2P Require Import ReceiptVerify Passport PassportStore Scope Capability Registry Envelope Tokio.
From S2P Require Import Score Enforcement CedarPlus Procedure Validate Evaluator EvaluatorLaws Publisher EnforcementLoop.
From S2P Require Import ReceiptStore CapabilityStore Replay Transport Status Auth Seed ControlPlane EnvelopeService.
From S2P Require Import ConstitutionService ServiceLaws Server.

Section send_laws.
Context `{OffsetDateTimeOps}.
Context `{TimeOps, CryptoOps, HeaderOps, HexOps, SerdeJson} `{!SerdeJsonInt} {engine : Cedar}.
Context `{Encode rproto.Receipt, Encode pproto.Passport, Encode cproto.Capability, Encode eproto.Envelope}.
Context `{Encode cp_proto.AgentBearerToken, Decode cp_proto.AgentBearerToken}.
Context `{Encode cp_proto.OperatorBearerToken, Decode cp_proto.OperatorBearerToken}.
Context {P C R : Type} `{!PassportStore P, !PassportStoreLaws P, !ReceiptStore R, !ReceiptStoreLaws R}.
Context `{!Mpsc Envelope C, !MpscLaws Envelope C}.
Context (topology : Topology) (cp : ControlPlaneIdentity) (fresh_swarm : SwarmId).
Context (values : gmap string ProcedureInstance → list ProcedureInstance)
        (attr_iter : gmap string JsonValue → list (string * JsonValue))
        (order : gset AgentId → list AgentId) (order_iterates : iterates order).
Notation State := (ControlPlaneState P C R).
Implicit Types (s : State) (clock : nat → nat → Timestamp).

(** ** What has to hold before the constitution is asked *)

Record cleared clock (r : Request SendEnvelopeRequest) s (auth : AuthContext) (e : Envelope) (cap : option Hash)
  (a : @ActivatedConstitution _ engine) : Prop := {
  cleared_token : agent_token_accepted r (resolver s) (Topology.swarm_id topology) (clock 0 0) auth;
  cleared_active : AuthContext.agent_id auth ∉ revoked_agents s;
  cleared_envelope : ∃ p, Send_envelope (into_inner r) = Some p ∧ try_from (E:=TransportError) p = Ok e;
  cleared_sender : Envelope.from_agent e = AuthContext.agent_id auth;
  cleared_capability : try_from_opt (E:=CoreError) (Send_capability_id (into_inner r)) = Ok cap;
  cleared_required : Topology.require_capability_for_send topology = true → is_Some cap;
  cleared_check : ∀ id, cap = Some id → ∃ o sw,
    MemoryCapabilityStore.check_inner DEFAULT_MAX_CHAIN_DEPTH (quarantine s) fresh_swarm (clock 1 0) id
      (send_descriptor e) (with_log (capabilities s) (receipt_store s)) = Ok (o, sw) ∧
    CheckOutcome.permitted o = true;
  cleared_constitution : current (cedar_plus s) = Some a }.

(** Only the log, and the stored capabilities' shape, may differ. *)
Record only_logged s s' : Prop := {
  logged_passports : passports s' = passports s;
  logged_transport : transport s' = transport s;
  logged_evaluator : cedar_plus s' = cedar_plus s;
  logged_engine : enforcement s' = enforcement s }.

Lemma only_logged_refl s : only_logged s s.
Proof. done. Qed.

Lemma keeps_check_only s0 (clk : nat → Timestamp) cap e :
  keeps (only_logged s0) (send_check (P:=P) (C:=C) cp fresh_swarm clk cap e : M State Status unit).
Proof.
  unfold send_check, check_capability. cbv zeta. destruct cap as [id|]; [|walk].
  apply keeps_mthen; [|intros ?; walk].
  apply (keeps_reading _ (λ s, s) (λ t, on_capabilities (MemoryCapabilityStore.check DEFAULT_MAX_CHAIN_DEPTH
    (resolver t) cp (quarantine t) fresh_swarm clk id (send_descriptor e)))). intros t.
  apply keeps_m_map_err, (keeps_zoom _ _ (λ _, True)); [done..|]. by intros s c [] _.
Qed.

Lemma send_check_Ok s (clk : nat → Timestamp) cap e x s' :
  (send_check (P:=P) (C:=C) cp fresh_swarm clk cap e : M State Status unit) s = (Ok x, s') →
  ∀ id, cap = Some id → ∃ o sw,
    MemoryCapabilityStore.check_inner DEFAULT_MAX_CHAIN_DEPTH (quarantine s) fresh_swarm (clk 0) id
      (send_descriptor e) (with_log (capabilities s) (receipt_store s)) = Ok (o, sw) ∧
    CheckOutcome.permitted o = true.
Proof.
  intros Hs id ->. unfold send_check in Hs. cbv zeta in Hs. apply mthen_Ok in Hs as (ev & t & Hc & Hs).
  unfold check_capability, on_capabilities, m_map_err, zoom in Hc.
  destruct (MemoryCapabilityStore.check _ _ _ _ _ _ _ _ _) as [[ev'|err] c] eqn:Hk; [|done]. injection Hc as <- <-.
  unfold MemoryCapabilityStore.check in Hk. apply mthen_Ok in Hk as ([o sw] & c1 & Hi & Hk). injection Hi as Hi <-.
  apply mthen_Ok in Hk as (h & c2 & _ & [= <- <-]). exists o, sw. split; [exact Hi|].
  cbn [CheckEvaluation.outcome] in Hs. by destruct (CheckOutcome.permitted o).
Qed.

(** The request the constitution is asked about. *)
Definition request_of clock s (auth : AuthContext) (e : Envelope) (cap : option Hash)
  (a : @ActivatedConstitution _ engine) : EvaluationRequest :=
  build_eval_request_for_send (hash_of a) (AuthContext.agent_id auth) e cap (Topology.swarm_id topology)
    (version_of a) (topology_mode_str topology) (passports s) (enforcement s) (clock 2 0).

Definition prepared clock s (auth : AuthContext) (e : Envelope) (cap : option Hash)
  (a : @ActivatedConstitution _ engine) : Prepared :=
  mkPrepared (AuthContext.agent_id auth) e (hash_of a) (version_of a)
    ((λ a, (hash_of a, version_of a)) <$> current_shadow (cedar_plus s)) (request_of clock s auth e cap a).

Lemma send_begin_Ok clock r s pr s1 :
  send_begin topology cp fresh_swarm clock r s = (Ok pr, s1) →
  ∃ auth e cap a, cleared clock r s auth e cap a ∧ only_logged s s1 ∧ pr = prepared clock s auth e cap a.
Proof.
  intros Hs. unfold send_begin in Hs. cbv zeta in Hs. run_ok Hs.
  unfold require_active in Hx. injection Hx as Hx <-. apply require_active_Ok in Hx as [Htok Hact].
  apply required_Ok in Hx0 as [Henv ->]. unfold converted, lift in Hx1. injection Hx1 as Hx1 <-.
  apply map_err_Ok in Hx1. apply negb_false_iff, bool_decide_eq_true in Hb.
  unfold lift in Hx2. injection Hx2 as Hcap <-. apply map_err_Ok in Hcap.
  pose proof (send_check_Ok _ _ _ _ _ _ Hx3) as Hchk.
  pose proof (keeps_run _ _ _ _ _ (keeps_check_only s _ _ _) Hx3 (only_logged_refl s)) as Hlog.
  unfold gets, lift in *. injection Hx4 as <- <-. injection Hx5 as <- <-. injection Hx6 as Hx6 <-.
  injection Hx7 as <- <-. apply ok_or_Ok in Hx6. pose proof Hlog as [Hpp Htr Hev Hen].
  exists x, x1, x2, x6. split; [|split; [done|]].
  - split; try done; [by exists x0| |by rewrite <- Hev].
    intros Hreq. rewrite Hreq in Hb0. by destruct x2.
  - unfold prepared, request_of. by rewrite <- Hpp, <- Hev, <- Hen.
Qed.

(** ** What is on record *)

(** The control plane wrote a receipt of this kind with this evidence, and the
    log holds a receipt under its id. *)
Definition recorded s (kind : string) (ev : list Evidence) : Prop :=
  ∃ r, is_Some (view (receipt_store s) !! receipt_id r) ∧ Receipt.actor r = ControlPlaneIdentity.agent_id cp ∧
    Receipt.action_kind r = kind ∧ Receipt.evidence r = ev.

Lemma emit_Ok label (clk : nat → Timestamp) swarm kind version ev s h s' :
  store_inv (receipt_store s) →
  (emit_receipt cp label clk swarm kind version ev : M State Status Hash) s = (Ok h, s') →
  recorded s' kind ev ∧ only_logged s s' ∧ store_inv (receipt_store s') ∧
  view (receipt_store s) ⊆ view (receipt_store s').
Proof.
  intros Hinv He. unfold emit_receipt in He. cbv zeta in He. run_ok He.
  unfold lift in Hx. injection Hx as Hx <-. rewrite control_plane_receipt_eq in Hx. cbv zeta in Hx.
  apply rbind_Ok in Hx as (sig & _ & [= <-]).
  unfold m_map_err, zoom in Hx0. destruct (append _ _ _ _) as [[out|e] log] eqn:Ha; [|done].
  injection Hx0 as <- <-.
  match type of Ha with append ?r ?o ?res ?l = _ =>
    pose proof (append_inv r o res l Hinv) as Hi; pose proof (append_monotone r o res l Hinv) as Hm end.
  rewrite Ha in Hi, Hm. split; [|done]. apply append_Ok in Ha as (_ & _ & Hk); [|done].
  match type of Hk with context [receipt_id ?r] => exists r end. split; [|done]. cbn [receipt_store set_log].
  destruct (AppendOutcome.kind out).
  - destruct Hk as [_ ->]. by rewrite lookup_insert_eq.
  - destruct Hk as [Hs ->]. done.
Qed.
Lemma emit_only s0 label (clk : nat → Timestamp) swarm kind version ev :
  keeps (only_logged s0) (emit_receipt cp label clk swarm kind version ev : M State Status Hash).
Proof.
  unfold emit_receipt. intros s. set (res := resolver s). clearbody res. revert s.
  apply keeps_mthen; [apply keeps_lift|intros r]. walk.
  apply (keeps_zoom _ _ (λ _, True)); [done..|]. by intros s c [] _.
Qed.

Lemma record_shadow_only s0 (clk : nat → Timestamp) pr o :
  keeps (only_logged s0) (record_shadow (P:=P) (C:=C) (R:=R) topology cp clk pr o).
Proof.
  unfold record_shadow, refusing, emit_constitution_shadow_eval_receipt. walk. all: apply emit_only.
Qed.

(** The verdict's kind and evidence. *)
Definition verdict_kind (o : EvaluationOutcome) : string :=
  match decision o with
  | Decision.Permit => "constitution.evaluate.pass" | Decision.Deny => "constitution.evaluate.deny"
  end.
Definition verdict_evidence (pr : Prepared) (o : EvaluationOutcome) : list Evidence :=
  outcome_evidence "constitution_hash" (prep_hash pr) o (prep_agent pr)
  ++ option_list (hash_entry "shadow_constitution_hash" <$> (fst <$> prep_shadow pr)).

(** The delivery itself, on the log it finds, and what it answers. *)
Definition delivers clock (e : Envelope) s s' (res : Result (option proto.Hash) Failure) : Prop :=
  ∃ (log : R) r t, store_inv log ∧
    MemoryTransport.send (resolver s) cp order (clock 6) e (transport_with (transport s) log) = (r, t) ∧
    transport s' = transport_with t tt ∧ receipt_store s' = receipts t ∧
    res = match r with Ok id => Ok (Some (to_proto id)) | Err e => Err (Refused (to_status e)) end.

Lemma evaluate_step pr (clk : nat → Timestamp) s :
  refusing (on_evaluator (evaluate_pair values attr_iter (prep_request pr) clk)) s =
  let '(r, e) := evaluate_pair values attr_iter (prep_request pr) clk (cedar_plus s) in
  (map_err Refused (map_err (λ e, Status.internal ("constitution eval: " +:+ CedarPlusError.to_string e)) r),
   set_evaluator e s : State).
Proof. unfold refusing, on_evaluator, m_map_err, zoom. by destruct (evaluate_pair _ _ _ _ _). Qed.

Lemma refusing_run {A} (m : M State Status A) s r s' : m s = (r, s') → refusing m s = (map_err Refused r, s').
Proof. intros Hm. unfold refusing, m_map_err. by rewrite Hm. Qed.

Lemma recorded_mono s s' kind ev :
  view (receipt_store s) ⊆ view (receipt_store s') → recorded s kind ev → recorded s' kind ev.
Proof. intros Hs (r & [x Hr] & Hk). exists r. split; [|done]. exists x. by eapply lookup_weaken. Qed.

Lemma emit_Err label (clk : nat → Timestamp) swarm kind version ev s st s' :
  (emit_receipt cp label clk swarm kind version ev : M State Status Hash) s = (Err st, s') →
  Status.code st = Internal.
Proof.
  unfold emit_receipt. cbv zeta. unfold mthen, lift, m_map_err, zoom, mret. rewrite control_plane_receipt_eq. cbv zeta.
  destruct (map_err _ _) as [sig|x] eqn:Hsig; cbn [rbind].
  - destruct (append _ _ _ _) as [[out|x] log]; cbn [map_err]; [done|]. by intros [= <- _].
  - apply map_err_Err in Hsig as (y & _ & ->). by intros [= <- _].
Qed.

(** What an evaluation that answered leads to, once its verdict is written. *)
Definition concluded clock (pr : Prepared) s s' (o : EvaluationOutcome) (sh : option EvaluationOutcome) res : Prop :=
  recorded s' (verdict_kind o) (verdict_evidence pr o) ∧
  if bool_decide (is_Some sh ∧ prep_shadow pr = None) then
    (∃ msg, res = Err (Panicked msg)) ∧ transport s' = transport s
  else match decision o with
       | Decision.Deny =>
           res = Err (Refused (Status.permission_denied
                   ("constitution check denied: " +:+ default "unknown" (deny_reason o)))) ∧
           transport s' = transport s
       | Decision.Permit => delivers clock (prep_envelope pr) s s' res
       end.
(** An error that is not a verdict. *)
Definition failed s s' (res : Result (option proto.Hash) Failure) : Prop :=
  (∃ st, res = Err (Refused st) ∧ Status.code st = Internal) ∧ transport s' = transport s.

Lemma record_shadow_cases (clk : nat → Timestamp) pr sh s r s' :
  record_shadow (P:=P) (C:=C) (R:=R) topology cp clk pr sh s = (r, s') →
  if bool_decide (is_Some sh ∧ prep_shadow pr = None) then (∃ msg, r = Err (Panicked msg)) ∧ s' = s
  else match r with Ok _ => True | Err e => ∃ st, e = Refused st ∧ Status.code st = Internal end.
Proof.
  unfold record_shadow. destruct sh as [o|].
  2: { rewrite bool_decide_eq_false_2 by by intros [[? ?] _]. by intros [= <- <-]. }
  destruct (prep_shadow pr) as [[h v]|].
  - rewrite bool_decide_eq_false_2 by by intros [_ ?]. unfold mthen, emit_constitution_shadow_eval_receipt.
    match goal with |- context [refusing ?m s] => destruct (m s) as [[x|st] t] eqn:Hem end;
      rewrite (refusing_run _ _ _ _ Hem); cbn [map_err]; intros [= <- <-]; [done|].
    exists st. split; [done|]. by eapply emit_Err.
  - rewrite bool_decide_eq_true_2 by (split; [by eexists|done]). intros [= <- <-]. split; [by eexists|done].
Qed.

Lemma send_finish_cases clock pr s res s' :
  sound s → send_finish topology cp values attr_iter order clock pr s = (res, s') →
  failed s s' res ∨
  ∃ o sh, (evaluate_pair values attr_iter (prep_request pr) (clock 3) (cedar_plus s)).1 = Ok (o, sh) ∧
    concluded clock pr s s' o sh res.
Proof.
  intros Hs. unfold send_finish. unfold mthen at 1. rewrite evaluate_step.
  destruct (evaluate_pair _ _ _ _ _) as [[[o sh]|e] ev] eqn:Hev; cbn [map_err fst].
  2: { intros [= <- <-]. left. split; [by eexists|done]. }
  set (s1 := set_evaluator ev s). assert (sound s1) as Hs1 by by destruct Hs.
  unfold mthen at 1. unfold emit_constitution_eval_receipt.
  match goal with |- context [refusing ?m s1] => destruct (m s1) as [[h|e] s2] eqn:Hem end;
    rewrite (refusing_run _ _ _ _ Hem); cbn [map_err].
  2: { intros [= <- <-]. left. split; [eexists; split; [done|by eapply emit_Err]|].
       by pose proof (keeps_run _ _ _ _ _ (emit_only s1 _ _ _ _ _ _) Hem (only_logged_refl s1)) as []. }
  pose proof (keeps_run _ _ _ _ _ (keeps_emit cp s1 _ _ _ _ _ _) Hem (follows_refl s1 Hs1)) as [Hs2 _ _ _].
  apply emit_Ok in Hem as (Hrec & [Hp2 Ht2 _ _] & Hi2 & Hv2); [|apply Hs1].
  unfold mthen at 1. destruct (record_shadow _ _ _ _ _ _) as [r3 s3] eqn:Hsh.
  pose proof (record_shadow_cases _ _ _ _ _ _ Hsh) as Hcase.
  pose proof (keeps_run _ _ _ _ _ (record_shadow_only s2 _ _ _) Hsh (only_logged_refl s2)) as [Hp3 Ht3 _ _].
  pose proof (keeps_run _ _ _ _ _ (keeps_record_shadow topology cp s2 _ _ _) Hsh (follows_refl s2 Hs2)) as [Hs3 Hv3 _ _].
  assert (transport s3 = transport s) as Hts by by rewrite Ht3, Ht2.
  assert (recorded s3 (verdict_kind o) (verdict_evidence pr o)) as Hr3 by by apply (recorded_mono s2).
  destruct (bool_decide _) eqn:Hbd.
  { destruct Hcase as [[msg ->] ->]. intros [= <- <-]. right. exists o, sh. split; [done|].
    unfold concluded. rewrite Hbd. split; [done|]. split; [by eexists|done]. }
  destruct r3 as [u|e].
  2: { destruct Hcase as (st & -> & Hc). intros [= <- <-]. left. by split; eauto. }
  intros Hsend. right. exists o, sh. split; [done|]. unfold concluded. rewrite Hbd. destruct (decision o) eqn:Hd.
  2: { injection Hsend as <- <-. done. }
  pose proof (keeps_on_transport_send cp order order_iterates s3 (clock 6) (prep_envelope pr) s3 (follows_refl s3 Hs3))
    as [_ Hv4 _ _].
  unfold mthen, refusing, on_transport, m_map_err, zoom in Hsend, Hv4.
  destruct (MemoryTransport.send _ _ _ _ _ _) as [r t] eqn:Hsent. cbn [snd] in Hv4.
  assert (s' = set_log (receipts t) (set_transport (transport_with t tt) s3) ∧
    res = match r with Ok id => Ok (Some (to_proto id)) | Err e => Err (Refused (to_status e)) end) as [-> Hres]
    by (by destruct r; injection Hsend as <- <-).
  split; [by apply (recorded_mono s3)|].
  exists (receipt_store s3), r, t. split; [apply Hs3|].
  assert (resolver s3 = resolver s) as Hrs by (unfold resolver; by rewrite Hp3, Hp2).
  by rewrite <- Hrs, <- Hts.
Qed.

Lemma keeps_begin_only s0 clock r :
  keeps (only_logged s0) (send_begin topology cp fresh_swarm clock r : M State Status _).
Proof.
  pose proof (keeps_check_only s0). unfold send_begin, required, converted. cbv zeta. walk. by intros s Hs.
Qed.

(** [C1] Complete mediation.  A call of [Send] that moves anything, or answers
    with a receipt, has passed every check on the state it found: the token is
    accepted and its agent not revoked; the envelope decodes and names that
    agent as its sender; a capability that is presented permits the send now,
    and one is presented where the topology requires it; a constitution is
    active and the evaluator permits the request built from this envelope and
    this state; the verdict is in the log; and what the transport then does and
    answers is what [MemoryTransport::send] does with this envelope.  The
    verdict of every evaluation that answered is in the log, denials included,
    unless writing it failed, which fails the call. *)
Theorem send_mediated clock r s res s' :
  sound s → envelope_send topology cp fresh_swarm values attr_iter order clock r s = (res, s') →
  (is_ok res = true ∨ transport s' ≠ transport s →
     ∃ auth e cap a o sh, cleared clock r s auth e cap a ∧
       (evaluate_pair values attr_iter (request_of clock s auth e cap a) (clock 3) (cedar_plus s)).1 = Ok (o, sh) ∧
       decision o = Decision.Permit ∧
       recorded s' (verdict_kind o) (verdict_evidence (prepared clock s auth e cap a) o) ∧
       delivers clock e s s' res) ∧
  (∀ pr s1 o sh, send_begin topology cp fresh_swarm clock r s = (Ok pr, s1) →
     (evaluate_pair values attr_iter (prep_request pr) (clock 3) (cedar_plus s1)).1 = Ok (o, sh) →
     recorded s' (verdict_kind o) (verdict_evidence pr o) ∨ failed s s' res).
Proof.
  intros Hs Hsend. unfold envelope_send in Hsend. unfold mthen in Hsend at 1.
  destruct (send_begin topology cp fresh_swarm clock r s) as [[pr|st] s1] eqn:Hb;
    rewrite (refusing_run _ _ _ _ Hb) in Hsend; cbn [map_err] in Hsend.
  2: { split; [|done]. injection Hsend as <- <-.
       pose proof (keeps_run _ _ _ _ _ (keeps_begin_only s clock r) Hb (only_logged_refl s)) as [_ Ht _ _].
       by intros [Hok|Hne]. }
  pose proof (keeps_run _ _ _ _ _ (keeps_send_begin topology cp fresh_swarm s clock r) Hb (follows_refl s Hs))
    as [Hs1 _ _ _].
  apply send_finish_cases in Hsend; [|exact Hs1]. split.
  - apply send_begin_Ok in Hb as (auth & e & cap & a & Hcl & [Hpp Htr Hev _] & ->).
    assert (resolver s1 = resolver s) as Hrs by (unfold resolver; by rewrite Hpp).
    intros Hmoved. unfold failed, concluded, delivers in *. rewrite Htr, Hev, Hrs in Hsend.
    destruct Hsend as [[(st & -> & _) Ht]|(o & sh & Ho & Hrec & Hres)]; [by destruct Hmoved|].
    exists auth, e, cap, a, o, sh. split; [done|]. split; [done|].
    destruct (bool_decide _); [destruct Hres as [[? ->] ?]; by destruct Hmoved|].
    destruct (decision o); [|destruct Hres as [-> ?]; by destruct Hmoved]. done.
  - intros pr' s1' o sh [= <- <-] Ho. destruct Hsend as [Hf|(o' & sh' & Ho' & Hrec & _)].
    + right. apply send_begin_Ok in Hb as (? & ? & ? & ? & _ & [_ Htr _ _] & _). unfold failed in *. by rewrite <- Htr.
    + left. rewrite Ho in Ho'. by injection Ho' as -> ->.
Qed.

Lemma shadow_was_loaded request (clk : nat → Timestamp) e o sh :
  (evaluate_pair values attr_iter request clk e).1 = Ok (o, Some sh) → is_Some (current_shadow e).
Proof.
  unfold evaluate_pair, current_pair, mthen, gets, lift, throw, mret. destruct (current e) as [a|]; simpl; [|done].
  destruct (negb _); [done|]. destruct (evaluate_against _ _ _ _ _ _ _) as [[?|?] ?]; [|done].
  by destruct (current_shadow e).
Qed.

(** When [Send] can panic.  As one step it never does.  Interrupted between
    its checks and the evaluation it panics only when no shadow was loaded at
    the first and one is at the second; the verdict is then in the log, a pass
    for an envelope the constitution permits, and nothing is delivered. *)
Lemma send_panics_only_in_a_race clock s :
  sound s →
  (∀ r, match (envelope_send topology cp fresh_swarm values attr_iter order clock r s).1 with
        | Err (Panicked _) => False | _ => True end) ∧
  (∀ pr, match send_finish topology cp values attr_iter order clock pr s with
         | (Err (Panicked _), s') =>
             prep_shadow pr = None ∧ is_Some (current_shadow (cedar_plus s)) ∧ transport s' = transport s ∧
             ∃ o sh, (evaluate_pair values attr_iter (prep_request pr) (clock 3) (cedar_plus s)).1 = Ok (o, Some sh) ∧
               recorded s' (verdict_kind o) (verdict_evidence pr o)
         | _ => True
         end).
Proof.
  intros Hs.
  assert (∀ s, sound s → ∀ pr msg s', send_finish topology cp values attr_iter order clock pr s = (Err (Panicked msg), s') →
    prep_shadow pr = None ∧ is_Some (current_shadow (cedar_plus s)) ∧ transport s' = transport s ∧
    ∃ o sh, (evaluate_pair values attr_iter (prep_request pr) (clock 3) (cedar_plus s)).1 = Ok (o, Some sh) ∧
      recorded s' (verdict_kind o) (verdict_evidence pr o)) as Hfin.
  { clear s Hs. intros s Hs pr msg s' Hrun. apply send_finish_cases in Hrun; [|done].
    destruct Hrun as [[(st & [=] & _) _]|(o & sh & Ho & Hrec & Hres)].
    destruct (bool_decide _) eqn:Hbd; [apply bool_decide_eq_true in Hbd as [[x ->] Hn]|].
    - split; [done|]. split; [by eapply shadow_was_loaded|]. split; [by destruct Hres|]. by exists o, x.
    - destruct (decision o); [|by destruct Hres].
      destruct Hres as (log & r & t & _ & _ & _ & _ & Hr). by destruct r. }
  split.
  - intros r. unfold envelope_send, mthen.
    destruct (send_begin topology cp fresh_swarm clock r s) as [[pr|st] s1] eqn:Hb;
      rewrite (refusing_run _ _ _ _ Hb); cbn [map_err]; [|done].
    destruct (send_finish _ _ _ _ _ _ pr s1) as [[x|[st|msg]] s2] eqn:Hf; [done..|].
    pose proof (keeps_run _ _ _ _ _ (keeps_send_begin topology cp fresh_swarm s clock r) Hb (follows_refl s Hs))
      as [Hs1 _ _ _].
    destruct (Hfin s1 Hs1 pr msg s2 Hf) as (Hn & Hl & _).
    apply send_begin_Ok in Hb as (auth & e & cap & a & _ & [_ _ Hev _] & ->). simpl in Hn.
    rewrite <- Hev in Hn. by destruct Hl as [x Hx]; rewrite Hx in Hn.
  - intros pr. destruct (send_finish _ _ _ _ _ _ pr s) as [[x|[st|msg]] s2] eqn:Hf; [done..|]. by apply (Hfin s Hs pr msg).
Qed.
End send_laws.

Module SendToy.
Import ServerToy MerkleToy.
Definition hello : Envelope :=
  Envelope.mk (SpecVersion.mk "1.0.0") swarm (replicate 16 Byte.x01) (agent 1) (Recipient.Agent (agent 1)) Performative.Inform
    [Byte.x68] "text" [] CausalRef.empty [Byte.x09] 1 (Timestamp.mk "50" 7) None None None.
Definition send_hello : Request SendEnvelopeRequest :=
  bearer AgentBearer (mkSend (Some (to_proto hello)) None).
(** Agent 1 has an inbox and a constitution is active. *)
Definition subscribed : State := (serve clock (Subscribe (bearer AgentBearer (mkSubscribe None))) empty).2.
Definition ready : State := (serve clock (ActivateConstitution (activation "none")) subscribed).2.
Notation send := (envelope_send topology cp swarm CedarToy.values EvaluatorToy.attr_iter TransportToy.order clock).
Lemma serve_sound c (s : State) : sound s → sound (serve clock c s).2.
Proof.
  intros Hs. apply (follows_sound s), keeps_serve; [exact order_ok|by apply follows_refl].
Qed.
Lemma ready_sound : sound ready.
Proof. apply serve_sound, serve_sound, empty_sound. Qed.
(** The envelope carries no signature; the control plane sends it all the same. *)
Definition sent : Result (option proto.Hash) Failure * State := send send_hello ready.
Lemma sent_run : send send_hello ready = (sent.1, sent.2).
Proof. unfold sent. apply surjective_pairing. Qed.
Lemma unsigned_envelope_sent : Envelope.agent_signature hello = None ∧ is_ok sent.1 = true.
Proof. split; [reflexivity|vm_compute; reflexivity]. Qed.
(** A capability of another agent is as good as one's own. *)
Definition lent : Capability :=
  Capability.mk (SpecVersion.mk "1.0.0") (as_bytes "lent") swarm (Issuer.Operator []) (agent 2)
    (Scope.for_action "envelope.send") None (Timestamp.mk "0" 0) (Timestamp.mk "100" 0) [] "" None.
Definition with_lent (s : State) : State :=
  set_capabilities (MemoryCapabilityStore.mk {[capability_hash lent := lent]} ∅ tt) s.
Definition send_lent : Request SendEnvelopeRequest :=
  bearer AgentBearer (mkSend (Some (to_proto hello)) (Some (to_proto (capability_hash lent)))).
Lemma lent_capability_accepted :
  Capability.subject lent ≠ Envelope.from_agent hello ∧ is_ok (send send_lent (with_lent ready)).1 = true.
Proof. split; [discriminate|vm_compute; reflexivity]. Qed.

(** A shadow is loaded between the checks and the evaluation. *)
Definition begun := send_begin topology cp swarm clock send_hello ready.
Definition nothing : Prepared :=
  mkPrepared (agent 0) hello (sha256 []) "" None
    (CedarPlus.mkRequest (sha256 []) "" "" (agent 0) (EntityUid.mk "" "") ∅ (mkEntitySnapshot []) "" 0).
Definition pending : Prepared := default nothing (result_ok begun.1).
Definition raced : State := (serve clock (ActivateShadow (activation "cases")) begun.2).2.
Definition panicked := send_finish topology cp CedarToy.values EvaluatorToy.attr_iter TransportToy.order clock pending raced.
Definition is_panic {A} (r : Result A Failure) : bool := match r with Err (Panicked _) => true | _ => false end.
Lemma panicked_run : is_panic panicked.1 = true.
Proof. vm_compute. reflexivity. Qed.
Lemma begun_sound : sound begun.2.
Proof.
  apply (follows_sound ready), keeps_send_begin, follows_refl, ready_sound.
Qed.
End SendToy.

Lemma send_mediated_witness :
  ∃ auth e cap a o, AuthContext.agent_id auth ∉ revoked_agents SendToy.ready ∧
    recorded ServerToy.cp SendToy.sent.2 (verdict_kind o)
      (verdict_evidence (prepared ServerToy.topology ServerToy.clock SendToy.ready auth e cap a) o).
Proof.
  pose proof (send_mediated ServerToy.topology ServerToy.cp ServerToy.swarm CedarToy.values EvaluatorToy.attr_iter
    TransportToy.order ServerToy.order_ok ServerToy.clock SendToy.send_hello SendToy.ready SendToy.sent.1 SendToy.sent.2
    SendToy.ready_sound SendToy.sent_run) as [Hsend _].
  destruct (Hsend (or_introl (proj2 SendToy.unsigned_envelope_sent))) as (auth & e & cap & a & o & sh & Hcl & _ & _ & Hrec & _).
  exists auth, e, cap, a, o. exact (conj (cleared_active _ _ _ _ _ _ _ _ _ Hcl) Hrec).
Defined.

Lemma send_panics_only_in_a_race_witness :
  prep_shadow SendToy.pending = None ∧ is_Some (current_shadow (cedar_plus SendToy.raced)) ∧
  transport SendToy.panicked.2 = transport SendToy.raced.
Proof.
  pose proof (proj2 (send_panics_only_in_a_race ServerToy.topology ServerToy.cp ServerToy.swarm CedarToy.values
    EvaluatorToy.attr_iter TransportToy.order ServerToy.order_ok ServerToy.clock SendToy.raced
    (SendToy.serve_sound _ _ SendToy.begun_sound)) SendToy.pending) as Hw.
  fold SendToy.panicked in Hw. pose proof SendToy.panicked_run as Hp.
  destruct SendToy.panicked as [[h|[st|msg]] s']; cbn [fst SendToy.is_panic] in Hp; [discriminate Hp..|].
  destruct Hw as (Hn & Hl & Ht & _). exact (conj Hn (conj Hl Ht)).
Defined.
