(* ===== verification/ReplayService.v ===== *)
(** * [yutha-control-plane/src/grpc/replay.rs]: the replay service

    Operators preview a constitution: they create a session, run it over a
    window of the log, read its receipts and close it.  The sessions live next
    to the control plane ([Replays]); a session's receipt store is shared with
    the replay store, which holds it.  A run is a task that plays one receipt
    after the other and streams its progress; it keeps the session alive after
    the session was closed. *)

From S2P Require Import Prelude RustStd Core CoreProto Crypto ReceiptTypes ReceiptProto Merkle.
From S2P Require Import Sealer ReceiptVerify Passport PassportStore Scope Capability Registry Envelope Tokio.
From S2P Require Import Score Enforcement CedarPlus Procedure Validate Evaluator Publisher EnforcementLoop.
From S2P Require Import ReplayStore ReplaySession.
From S2P Require Import ReceiptStore CapabilityStore Replay Transport Status Auth ControlPlane EnvelopeService.
From S2P Require Import ConstitutionService.

(** [Uuid::parse_str] of the [uuid] crate, an error with its text. *)
Class UuidOps := { uuid_parse : string → Result bytes string }.

(** The messages of ReplayService in spec/control-plane/v1.proto. *)
Module replay_proto.
Record ReplaySessionWindow := mkWindow {
  Window_from_unix_ns : N; Window_to_unix_ns : N; Window_action_kind_filter : list string }.
Record CreateRequest := mkCreate {
  Create_candidate : option ConstitutionProto; Create_window : option ReplaySessionWindow;
  Create_mode : Z; Create_warm_lookback_hours : N }.
Record CreateResponse := mkCreated {
  Created_replay_session_id : string; Created_session_create_receipt : option proto.Hash }.
Record ReplayProgress := mkProgress {
  Progress_replay_session_id : string; Progress_unix_ns : N; Progress_receipts_replayed : N;
  Progress_latest_replay_receipt_id : option proto.Hash; Progress_window_complete : bool }.
Record QueryReplayRequest := mkQueryReplay {
  QueryReplay_replay_session_id : string; QueryReplay_query : option rproto.QueryRequest }.
Record CloseResponse := mkClosed {
  Closed_session_close_receipt : option proto.Hash; Closed_receipts_replayed_total : N }.
Record ReplaySessionDescriptor := mkDescriptor {
  Descriptor_replay_session_id : string; Descriptor_candidate_constitution_hash : option proto.Hash;
  Descriptor_candidate_constitution_version : string; Descriptor_window : option ReplaySessionWindow;
  Descriptor_mode : Z; Descriptor_created_at : option proto.Timestamp;
  Descriptor_last_active_at : option proto.Timestamp; Descriptor_receipts_replayed : N }.
End replay_proto.
Import replay_proto.

(* yutha-receipt/src/replay_store.rs:85-94 ReplaySessionId::from_str *)
Definition ReplaySessionId_from_str `{UuidOps} (s : string) : Result ReplaySessionId string :=
  let? b := uuid_parse s in Ok (ReplaySessionId.mk b).

(** A session of type [ReplaySession] without the store it shares. *)
Section shared.
Context {S T : Type}.
Definition with_store (st : S) (s : ReplaySession (S:=T)) : ReplaySession (S:=S) :=
  mkSession (session_id s) (swarm_id s) (constitution_hash s) (constitution_version s) (engine s) st
    (last_step_emissions s).
End shared.

Section service.
Context `{OffsetDateTimeOps, UuidOps}.
Context `{TimeOps, CryptoOps, HeaderOps, HexOps, SerdeJson, SerdeYaml} {engine : Cedar}.
Context `{Encode rproto.Receipt, Encode ConstitutionProto}.
Context `{Encode cp_proto.OperatorBearerToken, Decode cp_proto.OperatorBearerToken}.
Context {P C R CP : Type} `{!PassportStore P, !ReceiptStore R, !Mpsc (Result ReplayProgress Status) CP}.
Context (topology : Topology) (cp : ControlPlaneIdentity) (operator_public_key : option PublicKey).
Context (canonical_schema_v1_1 : Result Schema CedarPlusError)
        (set_iter : gset string → list string)
        (graph_iter : gmap string (gset string) → list (string * gset string)).
Notation State := (ControlPlaneState P C R).
Implicit Types (clock : nat → nat → Timestamp).
Notation emit := (emit_receipt cp).
Notation require_operator := (require_operator topology operator_public_key).

(** A session and the place of its store in the replay store. *)
Record Live := mkLive { handle : nat; session : ReplaySession (S:=unit) }.

(** What a run has still to do.  [Sending]: a frame, then the rest of the
    window; [Concluding]: its last frame. *)
Inductive Phase :=
| Querying
| Playing (rest : list Receipt) (count : N)
| Sending (f : Result ReplayProgress Status) (rest : list Receipt) (count : N)
| Concluding (f : Result ReplayProgress Status)
| Finished.
(** [script] and [got] are history: the receipts the run plays, once it has
    asked for them, and the frames the client read. *)
Record Run := mkRun {
  run_live : nat; run_id : ReplaySessionId; run_window : ReplaySessionWindow.ReplaySessionWindow;
  run_phase : Phase; run_tx : CP; run_dropped : bool;
  script : list Receipt; got : list (Result ReplayProgress Status) }.

(** The part of [ControlPlaneState] the replay service adds. *)
Record Replays := mkReplays {
  plane : State; replay_store : MemoryReplayStore; lives : list Live;
  replay_sessions : gmap ReplaySessionId nat; runs : list Run }.
Implicit Types (v : Replays) (l : Live) (w : Run).
Notation RPC A := (M Replays Status A).

Definition set_plane (s : State) v := mkReplays s (replay_store v) (lives v) (replay_sessions v) (runs v).
Definition set_store (s : MemoryReplayStore) v := mkReplays (plane v) s (lives v) (replay_sessions v) (runs v).
Definition set_lives (x : list Live) v := mkReplays (plane v) (replay_store v) x (replay_sessions v) (runs v).
Definition set_sessions (m : gmap ReplaySessionId nat) v := mkReplays (plane v) (replay_store v) (lives v) m (runs v).
Definition set_runs (x : list Run) v := mkReplays (plane v) (replay_store v) (lives v) (replay_sessions v) x.

Definition on_plane {A} (m : M State Status A) : RPC A := zoom plane set_plane m.
Definition on_store {A} (what : string) (m : M MemoryReplayStore ReceiptError A) : RPC A :=
  m_map_err (λ e, Status.internal ("replay_store." +:+ what +:+ ": " +:+ ReceiptError.to_string e))
    (zoom replay_store set_store m).
(** The store a session's reference leads to; [contended] as in
    [MemoryReplayStore.session_store]. *)
Definition session_store (contended : bool) (id : ReplaySessionId) : RPC nat := λ v,
  let '(h, s) := MemoryReplayStore.session_store contended id (replay_store v) in (Ok h, set_store s v).

(** ** Receipts *)

Definition mode_str (m : ReplayMode) : string := match m with Cold => "cold" | Warm => "warm" end.
(* yutha-control-plane/src/grpc/replay.rs:461-556 emit_replay_session_create_receipt *)
Definition emit_replay_session_create_receipt (clock : nat → Timestamp) (id : ReplaySessionId) (candidate_hash : Hash)
  (candidate_version : string) (window : ReplaySessionWindow.ReplaySessionWindow) (mode : ReplayMode)
  (warm_lookback_hours : N) (swarm_id : SwarmId) : M State Status Hash :=
  emit "replay.session.create" clock swarm_id "replay.session.create" candidate_version
    ([string_entry "replay_session_id" (ReplaySessionId.to_string id);
      hash_entry "candidate_constitution_hash" candidate_hash;
      string_entry "candidate_constitution_version" candidate_version;
      string_entry "receipt_window_from_unix_ns" (show_N (ReplaySessionWindow.from_unix_ns window));
      string_entry "receipt_window_to_unix_ns" (show_N (ReplaySessionWindow.to_unix_ns window));
      string_entry "action_kind_filter" (str_join "," (ReplaySessionWindow.action_kind_filter window));
      string_entry "replay_mode" (mode_str mode)]
     ++ match mode with Warm => [string_entry "warm_lookback_hours" (show_N warm_lookback_hours)] | Cold => [] end).
(* yutha-control-plane/src/grpc/replay.rs:559-621 emit_replay_session_close_receipt *)
Definition emit_replay_session_close_receipt (clock : nat → Timestamp) (id : ReplaySessionId)
  (receipts_replayed_total : N) (close_reason : string) (swarm_id : SwarmId) : M State Status Hash :=
  emit "replay.session.close" clock swarm_id "replay.session.close" "0.0.0"
    [string_entry "replay_session_id" (ReplaySessionId.to_string id);
     string_entry "receipts_replayed_total" (show_N receipts_replayed_total);
     string_entry "close_reason" close_reason].

(** ** The calls *)

Definition session_id_of (s : string) : RPC ReplaySessionId :=
  lift (map_err (λ e, Status.invalid_argument ("invalid replay_session_id: " +:+ e)) (ReplaySessionId_from_str s)).
Definition no_session (id : ReplaySessionId) : Status :=
  Status.not_found ("replay session " +:+ ReplaySessionId.to_string id +:+ " not found").
Definition metadata_of (id : ReplaySessionId) : RPC ReplaySessionMetadata :=
  let! found := on_store "get_session" (λ s, (MemoryReplayStore.get_session id s, s)) in
  lift (ok_or found (no_session id)).

(** The session behind a new id, cold or warm; warm it reads the log. *)
Definition open_session (id : ReplaySessionId) (swarm : SwarmId) (candidate : Constitution) (mode : ReplayMode)
  (from_unix_ns hours : N) : RPC (ReplaySession (S:=unit)) := λ v,
  let created := match mode with
    | Cold => map_err (λ e, Status.internal ("ReplaySession::create_cold: " +:+ ReplayError.to_string e))
                (create_cold canonical_schema_v1_1 set_iter graph_iter id swarm candidate tt)
    | Warm => map_err (λ e, Status.internal ("ReplaySession::create_warm: " +:+ ReplayError.to_string e))
                (create_warm canonical_schema_v1_1 set_iter graph_iter id swarm candidate tt
                   (receipt_store (plane v)) from_unix_ns hours)
    end in
  (created, v).

(** [fresh]: the id that [ReplaySessionId::new()] makes. *)
(* yutha-control-plane/src/grpc/replay.rs:68-182 ReplayHandler::create_session *)
Definition replay_create_session clock (contended : bool) (fresh : ReplaySessionId) (request : Request CreateRequest)
  : RPC CreateResponse :=
  let! op_auth := on_plane (require_operator (clock 0 0) request) in
  let req := into_inner request in
  let! candidate_proto := on_plane (required "candidate" (Create_candidate req)) in
  let! window_proto := on_plane (required "window" (Create_window req)) in
  let! candidate := lift (constitution_from_proto candidate_proto) in
  let window := ReplaySessionWindow.mk (Window_from_unix_ns window_proto) (Window_to_unix_ns window_proto)
                  (Window_action_kind_filter window_proto) in
  let mode := if bool_decide (Create_mode req = 1%Z) then Warm else Cold in
  let hours := if (Create_warm_lookback_hours req =? 0)%N then 24%N else Create_warm_lookback_hours req in
  let chash := Constitution.constitution_hash candidate in
  let version := Constitution.constitution_version candidate in
  do! on_store "create_session" (MemoryReplayStore.create_session
        (Metadata.mk fresh chash version window mode hours (clock 1 0) (clock 1 0) 0)) in
  let! h := session_store contended fresh in
  let! opened := open_session fresh (OperatorAuthContext.swarm_id op_auth) candidate mode
                   (ReplaySessionWindow.from_unix_ns window) hours in
  do! modify (λ v, set_sessions (<[fresh := length (lives v)]> (replay_sessions v))
                     (set_lives (lives v ++ [mkLive h opened]) v)) in
  let! create_receipt := on_plane (emit_replay_session_create_receipt (clock 2) fresh chash version window mode hours
                           (OperatorAuthContext.swarm_id op_auth)) in
  mret (mkCreated (ReplaySessionId.to_string fresh) (Some (to_proto create_receipt))).

(** The answer is the stream of the task that is started. *)
(* yutha-control-plane/src/grpc/replay.rs:186-229 ReplayHandler::run_session *)
Definition replay_run_session clock (request : Request string) : RPC unit :=
  do! on_plane (require_operator (clock 0 0) request) in
  let! id := session_id_of (into_inner request) in
  let! sessions := gets replay_sessions in
  let! live := lift (ok_or (sessions !! id) (no_session id)) in
  let! metadata := metadata_of id in
  modify (λ v, set_runs (runs v ++ [mkRun live id (Metadata.window metadata) Querying (mpsc_channel 64) false [] []]) v).

(* yutha-control-plane/src/grpc/replay.rs:231-257 ReplayHandler::query_replay_receipts *)
Definition replay_query_receipts clock (contended : bool) (request : Request QueryReplayRequest) : RPC rpc.QueryResponse :=
  do! on_plane (require_operator (clock 0 0) request) in
  let req := into_inner request in
  let! id := session_id_of (QueryReplay_replay_session_id req) in
  let! query_proto := on_plane (required "query" (QueryReplay_query req)) in
  let! q := lift (map_err (λ e, Status.invalid_argument ("invalid query: " +:+ ReceiptError.to_string e))
                    (try_from (A:=Query) (E:=ReceiptError) query_proto)) in
  let! h := session_store contended id in
  let! page := m_map_err (λ e, Status.internal ("session_store.query: " +:+ ReceiptError.to_string e))
                 (zoom replay_store set_store (MemoryReplayStore.via h (λ st, (query q None st, st)))) in
  mret (rpc.mkQueried (to_proto <$> Page.receipts page) (default [] (Page.next_page_token page))).

(* yutha-control-plane/src/grpc/replay.rs:259-307 ReplayHandler::close_session *)
Definition replay_close_session clock (request : Request string) : RPC CloseResponse :=
  let! op_auth := on_plane (require_operator (clock 0 0) request) in
  let! id := session_id_of (into_inner request) in
  let! metadata := metadata_of id in
  let total := Metadata.receipts_replayed metadata in
  do! modify (λ v, set_sessions (delete id (replay_sessions v)) v) in
  do! on_store "delete_session" (MemoryReplayStore.delete_session id) in
  let! close_receipt := on_plane (emit_replay_session_close_receipt (clock 1) id total "explicit"
                          (OperatorAuthContext.swarm_id op_auth)) in
  mret (mkClosed (Some (to_proto close_receipt)) total).

Definition descriptor (m : ReplaySessionMetadata) : ReplaySessionDescriptor :=
  let w := Metadata.window m in
  mkDescriptor (ReplaySessionId.to_string (Metadata.session_id m))
    (Some (to_proto (Metadata.candidate_constitution_hash m))) (Metadata.candidate_constitution_version m)
    (Some (mkWindow (ReplaySessionWindow.from_unix_ns w) (ReplaySessionWindow.to_unix_ns w)
             (ReplaySessionWindow.action_kind_filter w)))
    (match Metadata.mode m with Cold => 0 | Warm => 1 end) (Some (to_proto (Metadata.created_at m)))
    (Some (to_proto (Metadata.last_active_at m))) (Metadata.receipts_replayed m).
(* yutha-control-plane/src/grpc/replay.rs:309-344 ReplayHandler::list_sessions *)
Definition replay_list_sessions {T} clock (request : Request T) : RPC (list ReplaySessionDescriptor) :=
  do! on_plane (require_operator (clock 0 0) request) in
  let! metadata := on_store "list_sessions" (λ s, (MemoryReplayStore.list_sessions s, s)) in
  mret (descriptor <$> metadata).

(** ** The task of a run *)

(** An operation of a session, on the store it shares. *)
Definition on_session {A} (i : nat) (m : M (ReplaySession (S:=MemoryStore)) ReplayError A)
  : M Replays ReplayError A := λ v,
  match lives v !! i with
  | None => (Err (ReplayError.Backend "no such session"), v)
  | Some l =>
      match MemoryReplayStore.heap (replay_store v) !! handle l with
      | None => (Err (ReplayError.Backend "no such store"), v)
      | Some st =>
          let '(r, s) := m (with_store st (session l)) in
          (r, set_lives (<[i := mkLive (handle l) (with_store tt s)]> (lives v))
                (set_store (MemoryReplayStore.mk (<[handle l := ReplaySession.receipt_store s]>
                                                    (MemoryReplayStore.heap (replay_store v)))
                              (MemoryReplayStore.sessions (replay_store v))) v))
      end
  end.

(** The receipts of the window, from the log. *)
(* yutha-control-plane/src/grpc/replay.rs:367-410 run_window_streaming (query) *)
Definition window_receipts (window : ReplaySessionWindow.ReplaySessionWindow) (log : R) : Result (list Receipt) Status :=
  let? from_ts := map_err (λ e, Status.internal ("from-timestamp: " +:+ CoreError.to_string e))
      (Timestamp.new "1970-01-01T00:00:00Z" (ReplaySessionWindow.from_unix_ns window)) in
  let? to_ts := map_err (λ e, Status.internal ("to-timestamp: " +:+ CoreError.to_string e))
      (Timestamp.new "9999-12-31T23:59:59Z" (ReplaySessionWindow.to_unix_ns window)) in
  let? page := map_err (λ e, Status.internal ("source query: " +:+ ReceiptError.to_string e))
      (query (Query.ByTimeRange from_ts to_ts) None log) in
  Ok (retained (ReplaySessionWindow.action_kind_filter window) (sort_by_ns (Page.receipts page))).

Definition at_phase (p : Phase) w := mkRun (run_live w) (run_id w) (run_window w) p (run_tx w) (run_dropped w) (script w) (got w).
Definition with_tx (c : CP) w := mkRun (run_live w) (run_id w) (run_window w) (run_phase w) c (run_dropped w) (script w) (got w).
Definition with_script (x : list Receipt) w := mkRun (run_live w) (run_id w) (run_window w) (run_phase w) (run_tx w) (run_dropped w) x (got w).
Definition with_got x w := mkRun (run_live w) (run_id w) (run_window w) (run_phase w) (run_tx w) (run_dropped w) (script w) x.
Definition dropped w := mkRun (run_live w) (run_id w) (run_window w) (run_phase w) (run_tx w) true (script w) (got w).
Definition set_run (k : nat) w v := set_runs (<[k := w]> (runs v)) v.

Definition progress (id : ReplaySessionId) (r : Receipt) (count : N) (emitted : list Hash) : ReplayProgress :=
  mkProgress (ReplaySessionId.to_string id) (Timestamp.monotonic_ns (Receipt.occurred_at r)) count
    (to_proto <$> last emitted) false.
Definition complete (id : ReplaySessionId) (window : ReplaySessionWindow.ReplaySessionWindow) (count : N) : ReplayProgress :=
  mkProgress (ReplaySessionId.to_string id) (ReplaySessionWindow.to_unix_ns window) count None true.
Definition touch (id : ReplaySessionId) (delta : N) (now : Timestamp) v : Replays :=
  set_store (MemoryReplayStore.touch_session id delta now (replay_store v)).2 v.

(* yutha-control-plane/src/grpc/replay.rs:358-454 run_window_streaming *)
Inductive run_step (k : nat) : Replays → Replays → Prop :=
| run_query v w receipts : runs v !! k = Some w → run_phase w = Querying →
    window_receipts (run_window w) (receipt_store (plane v)) = Ok receipts →
    run_step k v (set_run k (with_script receipts (at_phase (Playing receipts 0) w)) v)
| run_query_failed v w st : runs v !! k = Some w → run_phase w = Querying →
    window_receipts (run_window w) (receipt_store (plane v)) = Err st →
    run_step k v (set_run k (at_phase (Concluding (Err st)) w) v)
| run_play v w r rest count (ck : nat → Timestamp) now outcome v1 : runs v !! k = Some w → run_phase w = Playing (r :: rest) count →
    on_session (run_live w) (play_receipt (resolver (plane v)) cp ck r) v = (Ok outcome, v1) →
    let count' := u64_saturating_add count 1 in
    run_step k v (touch (run_id w) 1 now
      (set_run k (at_phase (Sending (Ok (progress (run_id w) r count' (emitted_receipt_ids outcome))) rest count') w) v1))
| run_play_failed v w r rest count (ck : nat → Timestamp) e v1 : runs v !! k = Some w → run_phase w = Playing (r :: rest) count →
    on_session (run_live w) (play_receipt (resolver (plane v)) cp ck r) v = (Err e, v1) →
    run_step k v (set_run k
      (at_phase (Concluding (Err (Status.internal ("play_receipt: " +:+ ReplayError.to_string e)))) w) v1)
| run_end v w count now : runs v !! k = Some w → run_phase w = Playing [] count →
    run_step k v (touch (run_id w) 0 now
      (set_run k (at_phase (Concluding (Ok (complete (run_id w) (run_window w) count))) w) v))
| run_send v w f rest count c : runs v !! k = Some w → run_phase w = Sending f rest count → run_dropped w = false →
    try_send f (run_tx w) = (Ok tt, c) →
    run_step k v (set_run k (at_phase (Playing rest count) (with_tx c w)) v)
| run_conclude v w f c : runs v !! k = Some w → run_phase w = Concluding f → run_dropped w = false →
    try_send f (run_tx w) = (Ok tt, c) →
    run_step k v (set_run k (at_phase Finished (with_tx c w)) v)
| run_dropped_send v w f rest count : runs v !! k = Some w →
    run_phase w = Sending f rest count ∨ run_phase w = Concluding f → run_dropped w = true →
    run_step k v (set_run k (at_phase Finished w) v).

(** A client reads its stream or drops it. *)
Inductive client_step : Replays → Replays → Prop :=
| client_read v k w f c : runs v !! k = Some w → run_dropped w = false → recv (run_tx w) = Some (Some f, c) →
    client_step v (set_run k (with_got (got w ++ [f]) (with_tx c w)) v)
| client_drop v k w : runs v !! k = Some w → client_step v (set_run k (dropped w) v).

Inductive ReplayCall :=
| CreateSession (contended : bool) (fresh : ReplaySessionId) (r : Request CreateRequest)
| RunSession (r : Request string)
| QueryReceipts (contended : bool) (r : Request QueryReplayRequest)
| CloseSession (r : Request string)
| ListSessions (r : Request unit).
Definition answered {A} (m : RPC A) : RPC unit := do! m in mret tt.
Definition replay_serve clock (c : ReplayCall) : RPC unit :=
  match c with
  | CreateSession contended fresh r => answered (replay_create_session clock contended fresh r)
  | RunSession r => answered (replay_run_session clock r)
  | QueryReceipts contended r => answered (replay_query_receipts clock contended r)
  | CloseSession r => answered (replay_close_session clock r)
  | ListSessions r => answered (replay_list_sessions clock r)
  end.

(** The replay service between anything else the control plane does. *)
Inductive replay_moves (rest : State → State → Prop) : Replays → Replays → Prop :=
| moves_call clock c v : replay_moves rest v (replay_serve clock c v).2
| moves_run k v v' : run_step k v v' → replay_moves rest v v'
| moves_client v v' : client_step v v' → replay_moves rest v v'
| moves_rest v s : rest (plane v) s → replay_moves rest v (set_plane s v).
End service.
