(* ===== verification/ReplayServiceLaws.v ===== *)
(** * What the replay service does, and what it leaves alone

    A preview changes nothing of the production control plane but for the two
    receipts that mark a session's beginning and end; and the stream of a run is
    the window of the log, one frame per receipt. *)

From S2P Require Import Prelude RustStd Core CoreProto Crypto ReceiptTypes ReceiptProto Merkle.
From S2P Require Import Sealer ReceiptVerify Passport PassportStore Scope Capability Registry Envelope Tokio.
From S2P Require Import Score Enforcement CedarPlus Procedure Validate Evaluator EvaluatorLaws Publisher EnforcementLoop.
From S2P Require Import Sealer ReplayStore ReplaySession ReplayLaws.
From S2P Require Import ReceiptStore CapabilityStore Replay Transport Status Auth ControlPlane EnvelopeService.
From S2P Require Import Seed ConstitutionService ServiceLaws Server ReplayService.
Import replay_proto.

Section laws.
Context `{OffsetDateTimeOps, UuidOps}.
Context `{TimeOps, CryptoOps, HeaderOps, HexOps, SerdeJson, SerdeYaml} {engine : Cedar}.
Context `{Encode rproto.Receipt, Encode ConstitutionProto}.
Context `{Encode cp_proto.OperatorBearerToken, Decode cp_proto.OperatorBearerToken}.
Context {P C R CP : Type} `{!PassportStore P, !ReceiptStore R, !ReceiptStoreLaws R}.
Context `{!Mpsc (Result ReplayProgress Status) CP, !MpscLaws (Result ReplayProgress Status) CP}.
Context (topology : Topology) (cp : ControlPlaneIdentity) (operator_public_key : option PublicKey).
Context (canonical_schema_v1_1 : Result Schema CedarPlusError)
        (set_iter : gset string → list string)
        (graph_iter : gmap string (gset string) → list (string * gset string)).
Notation State := (ControlPlaneState P C R).
Notation Replays := (Replays (P:=P) (C:=C) (R:=R) (CP:=CP)).
Notation RPC A := (M Replays Status A).
Notation replay_serve := (replay_serve (P:=P) (C:=C) (R:=R) (CP:=CP) topology cp operator_public_key
                            canonical_schema_v1_1 set_iter graph_iter).
Notation run_step := (run_step (P:=P) (C:=C) (R:=R) (CP:=CP) cp).
Implicit Types (s : State) (v : Replays) (clock : nat → nat → Timestamp).

(** ** Production *)

(** The two kinds of receipt the service adds to the log. *)
Definition session_mark (r : Receipt) : Prop :=
  Receipt.action_kind r ∈ ["replay.session.create"; "replay.session.close"]%string ∧
  Receipt.actor r = ControlPlaneIdentity.agent_id cp.
(** [s] is [s0] with more session marks in the log. *)
Definition previewed s0 s : Prop :=
  s = set_log (receipt_store s) s0 ∧ log_holds (view (receipt_store s0)) (receipt_store s) ∧
  ∀ h r, view (receipt_store s) !! h = Some r → view (receipt_store s0) !! h = Some r ∨ session_mark r.

Lemma previewed_refl s : store_inv (receipt_store s) → previewed s s.
Proof. intros Hs. split; [by destruct s|]. split; [done|]. by left. Qed.

Lemma emit_previewed s0 label (clk : nat → Timestamp) swarm kind version ev :
  kind ∈ ["replay.session.create"; "replay.session.close"]%string →
  keeps (previewed s0) (emit_receipt cp label clk swarm kind version ev : M State Status Hash).
Proof.
  intros Hk s (Hs & [Hi Hv] & Hm). unfold emit_receipt. cbv zeta. unfold mthen, lift, m_map_err, zoom, mret.
  rewrite control_plane_receipt_eq. cbv zeta. destruct (map_err _ _) as [sig|x]; cbn [rbind]; [|done].
  destruct (append _ _ _ _) as [res log] eqn:Ha.
  match type of Ha with append ?r ?o ?e ?l = _ =>
    pose proof (append_inv r o e l Hi) as Hi'; pose proof (append_monotone r o e l Hi) as Hm' end.
  rewrite Ha in Hi', Hm'. cbn [snd] in Hi', Hm'.
  enough (previewed s0 (set_log log s)) by by destruct (map_err _ res).
  split; [by rewrite Hs|]. split; [by split; [|etrans]|]. cbn [receipt_store set_log]. intros h r Hr.
  destruct res as [out|e].
  - apply append_Ok in Ha as (_ & _ & Hkind); [|done].
    destruct (AppendOutcome.kind out); destruct Hkind as [_ Heq]; rewrite Heq in Hr; [|by apply Hm].
    apply lookup_insert_Some in Hr as [[_ <-]|[_ Hr]]; [right|by apply Hm]. by split.
  - apply append_Err in Ha as [Heq _]. rewrite Heq in Hr. by apply Hm.
Qed.

(** Calls that work on the plane through [Q], and on nothing else of it. *)
Lemma keeps_on_plane {A} (Q : State → Prop) (m : M State Status A) :
  keeps Q m → keeps (λ v, Q (plane v)) (on_plane (CP:=CP) m).
Proof. intros Hm. by eapply keeps_zoom; [exact Hm| |]. Qed.
Lemma keeps_on_store {A} (Q : State → Prop) what (m : M MemoryReplayStore ReceiptError A) :
  keeps (λ v, Q (plane v)) (on_store (CP:=CP) what m).
Proof. apply keeps_m_map_err. by apply (keeps_zoom _ _ (λ _, True)). Qed.
Lemma keeps_session_store (Q : State → Prop) contended id :
  keeps (λ v, Q (plane v)) (session_store (P:=P) (C:=C) (R:=R) (CP:=CP) contended id).
Proof. intros v Hv. unfold session_store. by destruct (MemoryReplayStore.session_store _ _ _). Qed.
Lemma keeps_guard Q {T} now (request : Request T) : keeps Q (require_operator topology operator_public_key now request : M State Status _).
Proof. apply keeps_lift. Qed.
Lemma keeps_demand Q {A} name (o : option A) : keeps Q (required name o : M State Status A).
Proof. apply keeps_lift. Qed.

Lemma keeps_preview s0 clock c : keeps (λ v, previewed s0 (plane v)) (replay_serve clock c).
Proof.
  destruct c as [co fresh r|r|co r|r|r]; cbn [ReplayService.replay_serve]; unfold answered;
    (apply keeps_mthen; [|intros; apply keeps_mret]).
  - unfold replay_create_session, open_session. cbv zeta. walk.
    all: try apply keeps_on_plane; try apply keeps_on_store; try apply keeps_session_store;
      try apply keeps_guard; try apply keeps_demand; try by apply keeps_modify.
    { by intros v Hv. }
    apply emit_previewed. set_solver.
  - unfold replay_run_session, session_id_of, metadata_of. walk.
    all: try apply keeps_on_plane; try apply keeps_on_store; try apply keeps_guard; try by apply keeps_modify.
  - unfold replay_query_receipts, session_id_of. cbv zeta. walk.
    all: try apply keeps_on_plane; try apply keeps_on_store; try apply keeps_session_store;
      try apply keeps_guard; try apply keeps_demand.
    by apply (keeps_zoom _ _ (λ _, True)).
  - unfold replay_close_session, session_id_of, metadata_of. cbv zeta. walk.
    all: try apply keeps_on_plane; try apply keeps_on_store; try apply keeps_guard; try by apply keeps_modify.
    apply emit_previewed. set_solver.
  - unfold replay_list_sessions. walk.
    all: try apply keeps_on_plane; try apply keeps_on_store; try apply keeps_guard.
Qed.

Lemma on_session_plane {A} i (m : M (ReplaySession (S:=MemoryStore)) ReplayError A) v :
  plane (on_session i m v).2 = plane v ∧ runs (on_session i m v).2 = runs v ∧
  replay_sessions (on_session i m v).2 = replay_sessions v.
Proof.
  unfold on_session. destruct (lives v !! i) as [l|]; [|done].
  destruct (MemoryReplayStore.heap _ !! _) as [st|]; [|done]. by destruct (m _).
Qed.
Lemma on_session_run {A} i (m : M (ReplaySession (S:=MemoryStore)) ReplayError A) v r v' :
  on_session i m v = (r, v') → plane v' = plane v ∧ runs v' = runs v ∧ replay_sessions v' = replay_sessions v.
Proof. pose proof (on_session_plane i m v) as Hp. intros Hr. by rewrite Hr in Hp. Qed.

Lemma run_step_plane k v v' : run_step k v v' → plane v' = plane v.
Proof. intros []; try done; by match goal with E : on_session _ _ _ = _ |- _ => apply on_session_run in E as (<- & _) end. Qed.

(** [C40] A preview leaves production alone.  Whatever an operator asks of the
    replay service, and however far its runs get, the control plane keeps its
    passports, capabilities, queues, revocations, its active constitution and
    shadow, and the standing its enforcement engine computes; its log loses
    nothing, and gains at most receipts that a session was created or closed,
    signed for by the control plane. *)
Theorem preview_leaves_production v v' :
  store_inv (receipt_store (plane v)) →
  rtc (replay_moves topology cp operator_public_key canonical_schema_v1_1 set_iter graph_iter (λ _ _, False)) v v' →
  previewed (plane v) (plane v').
Proof.
  intros Hs Hr. apply previewed_refl in Hs. revert Hs. generalize (plane v) at 1 3. intros s0 Hs.
  induction Hr as [v|v v1 v2 Hm _ IH]; [done|]. apply IH. clear IH v2.
  destruct Hm as [clock c v|k v v1 Hm|v v1 Hm|v s []].
  - by apply keeps_preview.
  - by rewrite (run_step_plane _ _ _ Hm).
  - by destruct Hm.
Qed.

(** ** Runs *)

(** Playing a receipt only adds to the session's store. *)
Lemma keeps_play (res : PassportResolver) (clk : nat → Timestamp) r (held : gmap Hash Receipt) :
  keeps (λ x : ReplaySession (S:=MemoryStore), log_holds held (ReplaySession.receipt_store x))
    (play_receipt res cp clk r).
Proof.
  assert (∀ es (ck : nat → Timestamp) preds, keeps (λ x : ReplaySession (S:=MemoryStore), log_holds held (ReplaySession.receipt_store x))
    (emit_each res cp ck es preds)) as Hemit.
  { induction es as [|e es IH]; intros ck preds; [apply keeps_mret|]. cbn [emit_each].
    apply keeps_mthen; [|intros id; apply keeps_mthen; [apply IH|intros; apply keeps_mret]].
    unfold emit_session_enforcement_receipt. apply keeps_mthen; [by intros x Hx|intros rc].
    apply keeps_mthen; [|intros; apply keeps_mret]. apply keeps_m_map_err.
    by eapply keeps_zoom; [apply keeps_append| |]. }
  unfold play_receipt. apply keeps_mthen; [apply keeps_lift|intros id]. apply keeps_mthen.
  { intros x Hx. by destruct (feed r _). }
  intros es. apply keeps_mthen; [apply keeps_gets|intros preds]. apply keeps_mthen; [apply Hemit|intros ids].
  apply keeps_mthen; [by apply keeps_modify|intros; apply keeps_mret].
Qed.

(** Sessions keep their stores, stores and the log only grow. *)
Record extends v v' : Prop := {
  ext_lives i l : lives v !! i = Some l → ∃ l', lives v' !! i = Some l' ∧ handle l' = handle l;
  ext_stores h st : MemoryReplayStore.heap (replay_store v) !! h = Some st →
    ∃ st', MemoryReplayStore.heap (replay_store v') !! h = Some st' ∧ view st ⊆ view st';
  ext_log : view (receipt_store (plane v)) ⊆ view (receipt_store (plane v')) }.
#[local] Instance extends_preorder : PreOrder extends.
Proof.
  split; [by intros v; split; eauto|]. intros v1 v2 v3 [Hl Hs Hg] [Hl' Hs' Hg']. split; [| |by etrans].
  - intros i l (l1 & Hl1 & <-)%Hl. apply Hl' in Hl1 as (l2 & ? & ?). eauto.
  - intros h st (st1 & Hs1 & ?)%Hs. apply Hs' in Hs1 as (st2 & ? & ?). exists st2. split; [done|by etrans].
Qed.
Definition stores_ok v : Prop :=
  Forall store_inv (MemoryReplayStore.heap (replay_store v)) ∧ store_inv (receipt_store (plane v)).

(** The session's store has a receipt with this id. *)
Definition in_session v (i : nat) (id : Hash) : Prop :=
  ∃ l st, lives v !! i = Some l ∧ MemoryReplayStore.heap (replay_store v) !! handle l = Some st ∧ is_Some (view st !! id).
Lemma in_session_extends v v' i id : extends v v' → in_session v i id → in_session v' i id.
Proof.
  intros [Hl Hs _] (l & st & Hi & Hst & [x Hx]). apply Hl in Hi as (l' & Hi' & Hh). rewrite <- Hh in Hst.
  apply Hs in Hst as (st' & Hst' & Hsub). exists l', st'. split; [done|]. split; [done|]. exists x. by eapply lookup_weaken.
Qed.

Lemma on_session_spec i (clk : nat → Timestamp) r v res v' : stores_ok v →
  on_session i (play_receipt (resolver (plane v)) cp clk r) v = (res, v') →
  stores_ok v' ∧ extends v v' ∧
  match res with Ok o => Forall (in_session v' i) (emitted_receipt_ids o) | Err _ => True end.
Proof.
  intros [Hst Hlog] Hr. pose proof (on_session_run _ _ _ _ _ Hr) as (Hp & _ & _). unfold on_session in Hr.
  destruct (lives v !! i) as [l|] eqn:Hl; [|injection Hr as <- <-; by split_and!].
  destruct (MemoryReplayStore.heap (replay_store v) !! handle l) as [st|] eqn:Hh; [|injection Hr as <- <-; by split_and!].
  assert (store_inv st) as Hinv by (rewrite Forall_lookup in Hst; by eapply Hst).
  pose proof (keeps_play (resolver (plane v)) clk r (view st) (with_store st (session l))) as [Hinv' Hsub]; [by split|].
  destruct (play_receipt _ _ _ _ _) as [res' x] eqn:Hplay. injection Hr as <- <-. cbn [snd] in *.
  pose proof (lookup_lt_Some _ _ _ Hl) as Hi. pose proof (lookup_lt_Some _ _ _ Hh) as Hlt.
  split; [split; [by apply Forall_insert|by rewrite Hp]|]. split; [split; [| |by rewrite Hp]|].
  - intros j l0 Hj. cbn [lives set_lives]. destruct (decide (j = i)) as [->|Hne].
    + rewrite list_lookup_insert_eq by done. eexists. split; [done|]. by simplify_eq/=.
    + rewrite list_lookup_insert_ne by done. eauto.
  - intros h st0 Hst0. cbn. destruct (decide (h = handle l)) as [->|Hne].
    + rewrite list_lookup_insert_eq by done. eexists. split; [done|]. by simplify_eq/=.
    + rewrite list_lookup_insert_ne by done. eauto.
  - destruct res' as [o|]; [|done]. apply play_receipt_Ok in Hplay as (_ & _ & _ & _ & _ & _ & _ & Hw); [|done].
    apply Forall_forall. intros id [j Hj]%list_elem_of_lookup.
    destruct (Forall2_lookup_r _ _ _ _ _ Hw Hj) as (e & _ & Hid & _).
    eexists _, _. split; [by apply list_lookup_insert_eq|]. cbn. split; [by apply list_lookup_insert_eq|done].
Qed.

(** The frames of a run that played [played], with the receipts of each step. *)
Definition nth_count (i : nat) : N := N.min u64_max (N.of_nat i).
Definition frames (id : ReplaySessionId) (played : list (Receipt * list Hash)) : list (Result ReplayProgress Status) :=
  imap (λ i p, Ok (progress id p.1 (nth_count (S i)) p.2)) played.
Lemma frames_snoc id played p :
  frames id (played ++ [p]) = frames id played ++ [Ok (progress id p.1 (nth_count (S (length played))) p.2)].
Proof. unfold frames. rewrite imap_app. simpl. by rewrite Nat.add_0_r. Qed.
Lemma next_count n : u64_saturating_add (nth_count n) 1 = nth_count (S n).
Proof. unfold u64_saturating_add, nth_count. lia. Qed.

(** The last frame: the window is complete, or an error. *)
Definition final (w : Run (CP:=CP)) (rest : list Receipt) (f : Result ReplayProgress Status) : Prop :=
  rest = [] ∧ f = Ok (complete (run_id w) (run_window w) (nth_count (length (script w)))) ∨ ∃ st, f = Err st.

(** [played] were played, [rest] were not; what was sent is their frames. *)
Definition run_shape v (w : Run (CP:=CP)) (played : list (Receipt * list Hash)) (rest : list Receipt) : Prop :=
  script w = played.*1 ++ rest ∧ Forall (λ p, Forall (in_session v (run_live w)) p.2) played ∧
  let sent := got w ++ contents (run_tx w) in
  match run_phase w with
  | Querying => script w = [] ∧ sent = []
  | Playing rest' n => rest' = rest ∧ n = nth_count (length played) ∧ sent = frames (run_id w) played
  | Sending f rest' n => rest' = rest ∧ n = nth_count (length played) ∧ sent ++ [f] = frames (run_id w) played
  | Concluding f => final w rest f ∧ sent = frames (run_id w) played
  | Finished => (∃ lost, sent ++ lost = frames (run_id w) played ∧ length lost ≤ 1) ∨
                (∃ f, sent = frames (run_id w) played ++ [f] ∧ final w rest f)
  end.
(** The receipts a run plays are those of the window, from the log. *)
Definition script_ok v (w : Run (CP:=CP)) : Prop :=
  StronglySorted earlier (script w) ∧
  ∀ r, r ∈ script w → (∃ h, view (receipt_store (plane v)) !! h = Some r) ∧
    (ReplaySessionWindow.from_unix_ns (run_window w) <= ns_of r <= ReplaySessionWindow.to_unix_ns (run_window w))%N ∧
    (ReplaySessionWindow.action_kind_filter (run_window w) = [] ∨
     Receipt.action_kind r ∈ ReplaySessionWindow.action_kind_filter (run_window w)).
Definition buffered (c : CP) : Prop := Tokio.is_open c ∧ capacity c = 64 ∧ length (contents c) ≤ 64.
Definition run_ok v (w : Run (CP:=CP)) : Prop :=
  buffered (run_tx w) ∧ script_ok v w ∧ ∃ played rest, run_shape v w played rest.
Definition replays_ok v : Prop := stores_ok v ∧ ∀ k w, runs v !! k = Some w → run_ok v w.

Lemma run_ok_extends v v' w : extends v v' → run_ok v w → run_ok v' w.
Proof.
  intros He (Hb & [Hsort Hs] & played & rest & Hscript & Hp & Hph). split; [done|]. split.
  - split; [done|]. intros r Hr. apply Hs in Hr as ([h Hh] & Hr). split; [|done]. exists h.
    eapply lookup_weaken; [exact Hh|apply He].
  - exists played, rest. split; [done|]. split; [|done].
    eapply Forall_impl; [exact Hp|]. intros p Hp'. eapply Forall_impl; [exact Hp'|].
    intros id. by apply in_session_extends.
Qed.

(** A step that changes one run. *)
Lemma replays_ok_set v v1 k w w' : replays_ok v → runs v !! k = Some w → stores_ok v1 → extends v v1 →
  runs v1 = runs v → (run_ok v1 w → run_ok v1 w') → replays_ok (set_run k w' v1).
Proof.
  intros [Hs Hall] Hk Hs1 He Hr Hw. split; [done|]. intros j x. cbn [runs set_run set_runs]. rewrite Hr.
  intros [(<- & <- & _)|[Hne Hj]]%list_lookup_insert_Some.
  - apply Hw. eapply run_ok_extends; [done|]. by eapply Hall.
  - assert (run_ok v1 x) as Hx by (eapply run_ok_extends; [done|by eapply Hall]). exact Hx.
Qed.

Lemma touch_ok id delta now v : replays_ok v → replays_ok (touch id delta now v).
Proof. done. Qed.

Lemma window_receipts_Ok window (log : R) rs : store_inv log → window_receipts window log = Ok rs →
  StronglySorted earlier rs ∧ ∀ r, r ∈ rs ↔ (∃ h, view log !! h = Some r) ∧
    (ReplaySessionWindow.from_unix_ns window <= ns_of r <= ReplaySessionWindow.to_unix_ns window)%N ∧
    (ReplaySessionWindow.action_kind_filter window = [] ∨
     Receipt.action_kind r ∈ ReplaySessionWindow.action_kind_filter window).
Proof.
  intros Hs Hw. unfold window_receipts in Hw.
  apply rbind_Ok in Hw as (from_ts & Hf%map_err_Ok & Hw). apply rbind_Ok in Hw as (to_ts & Ht%map_err_Ok & Hw).
  apply rbind_Ok in Hw as (page & Hp%map_err_Ok & [= <-]).
  assert (source_range "" "" (ReplaySessionWindow.from_unix_ns window) (ReplaySessionWindow.to_unix_ns window) log
          = Ok (sort_by_ns (Page.receipts page))) as Hr.
  { unfold source_range. rewrite Hf, Ht. cbn [rbind map_err]. by rewrite Hp. }
  apply source_range_Ok in Hr as [Hsort Hin]; [|done]. split.
  - unfold retained. destruct (ReplaySessionWindow.action_kind_filter window); [done|by apply sorted_filter].
  - intros r. rewrite retained_elem, Hin. tauto.
Qed.

Lemma replay_chan_send f c c' : buffered c → try_send f c = (Ok tt, c') → buffered c' ∧ contents c' = contents c ++ [f].
Proof.
  intros (Ho & Hcap & _) Hs. pose proof (try_send_spec f c Ho) as Hx. rewrite Hcap in Hx.
  destruct (Nat.ltb_spec (length (contents c)) 64); [|congruence].
  destruct Hx as (c1 & Hc1 & Hcont & Hcap1 & Ho1). rewrite Hs in Hc1. injection Hc1 as <-.
  split; [|done]. split_and!; [done|congruence|]. rewrite Hcont, length_app. simpl. lia.
Qed.
Lemma replay_chan_recv f c c' : buffered c → recv c = Some (Some f, c') → buffered c' ∧ contents c = f :: contents c'.
Proof.
  intros (Ho & Hcap & Hlen) Hs. pose proof (recv_spec c Ho) as Hx.
  destruct (contents c) as [|y l]; [congruence|].
  destruct Hx as (c1 & Hc1 & Hcont & Hcap1 & Ho1). rewrite Hs in Hc1. injection Hc1 as <- <-.
  rewrite Hcont. split; [|done]. split_and!; [done|congruence|]. rewrite Hcont. simpl in Hlen. lia.
Qed.

Lemma run_step_ok k v v' : run_step k v v' → replays_ok v → replays_ok v'.
Proof.
  intros Hs Hok. pose proof Hok as [[Hst Hlog] Hall]. destruct Hs as
    [v w rs Hk Hp Hw|v w st Hk Hp Hw|v w r rest n ck now o v1 Hk Hp Ho n'|v w r rest n ck e v1 Hk Hp Ho
    |v w n now Hk Hp|v w f rest n c Hk Hp Hd Hs|v w f c Hk Hp Hd Hs|v w f rest n Hk Hp Hd].
  - apply (replays_ok_set v v k w); [exact Hok|exact Hk|by split|reflexivity|reflexivity|]. intros (Hb & _ & played & rest & Hsc & _ & Hph).
    rewrite Hp in Hph. cbv zeta in Hph. destruct Hph as [_ Hsent].
    apply window_receipts_Ok in Hw as [Hsort Hin]; [|done].
    split; [done|]. split; [split; [done|]; intros x; by rewrite Hin|].
    exists [], rs. split; [done|]. split; [constructor|]. by split_and!.
  - apply (replays_ok_set v v k w); [exact Hok|exact Hk|by split|reflexivity|reflexivity|]. intros (Hb & Hsc & played & rest & Hs1 & Hin & Hph).
    rewrite Hp in Hph. cbv zeta in Hph. destruct Hph as [Hnil Hsent].
    split; [done|]. split; [done|]. exists [], []. split; [exact Hnil|]. split; [constructor|]. split; [|done].
    right. by eexists.
  - apply touch_ok. pose proof (on_session_run _ _ _ _ _ Ho) as (_ & Hruns & _).
    apply on_session_spec in Ho as (Hst1 & He & Hids); [|by split].
    apply (replays_ok_set v v1 k w); [exact Hok|exact Hk|exact Hst1|exact He|exact Hruns|].
    intros (Hb & Hsc & played & rest' & Hs1 & Hin & Hph). rewrite Hp in Hph. cbv zeta in Hph.
    destruct Hph as (<- & -> & Hsent). split; [done|]. split; [done|].
    exists (played ++ [(r, emitted_receipt_ids o)]), rest. unfold run_shape.
    cbn [script run_id run_live run_tx got run_phase at_phase]. split; [by rewrite fmap_app, <- app_assoc|].
    split; [apply Forall_app; split; [done|by repeat constructor]|].
    split; [done|]. subst n'. rewrite next_count, length_app, frames_snoc. cbn [length fst snd]. rewrite Nat.add_1_r. split; [done|].
    by rewrite Hsent.
  - pose proof (on_session_run _ _ _ _ _ Ho) as (_ & Hruns & _).
    apply on_session_spec in Ho as (Hst1 & He & _); [|by split].
    apply (replays_ok_set v v1 k w); [exact Hok|exact Hk|exact Hst1|exact He|exact Hruns|].
    intros (Hb & Hsc & played & rest' & Hs1 & Hin & Hph). rewrite Hp in Hph. cbv zeta in Hph.
    destruct Hph as (<- & -> & Hsent). split; [done|]. split; [done|]. exists played, (r :: rest).
    split; [done|]. split; [done|]. split; [|done]. right. by eexists.
  - apply touch_ok. apply (replays_ok_set v v k w); [exact Hok|exact Hk|by split|reflexivity|reflexivity|].
    intros (Hb & Hsc & played & rest' & Hs1 & Hin & Hph). rewrite Hp in Hph. cbv zeta in Hph.
    destruct Hph as (<- & -> & Hsent). split; [done|]. split; [done|]. exists played, [].
    split; [done|]. split; [done|]. split; [|done]. left. split; [done|].
    cbn [script at_phase run_id run_window]. by rewrite Hs1, app_nil_r, length_fmap.
  - apply (replays_ok_set v v k w); [exact Hok|exact Hk|by split|reflexivity|reflexivity|].
    intros (Hb & Hsc & played & rest' & Hs1 & Hin & Hph). rewrite Hp in Hph. cbv zeta in Hph.
    destruct Hph as (<- & -> & Hsent). apply replay_chan_send in Hs as [Hb' Hc]; [|done].
    split; [done|]. split; [done|]. exists played, rest. split; [done|]. split; [done|].
    cbn [script run_id run_live run_tx got run_phase at_phase with_tx]. rewrite Hc, app_assoc. done.
  - apply (replays_ok_set v v k w); [exact Hok|exact Hk|by split|reflexivity|reflexivity|].
    intros (Hb & Hsc & played & rest' & Hs1 & Hin & Hph). rewrite Hp in Hph. cbv zeta in Hph.
    destruct Hph as (Hf & Hsent). apply replay_chan_send in Hs as [Hb' Hc]; [|done].
    split; [done|]. split; [done|]. exists played, rest'. split; [done|]. split; [done|].
    cbn [script run_id run_live run_tx got run_phase at_phase with_tx]. rewrite Hc, app_assoc, Hsent. right. by exists f.
  - apply (replays_ok_set v v k w); [exact Hok|exact Hk|by split|reflexivity|reflexivity|].
    intros (Hb & Hsc & played & rest' & Hs1 & Hin & Hph). split; [done|]. split; [done|]. exists played, rest'.
    split; [done|]. split; [done|]. left. destruct Hp as [Hp|Hp]; rewrite Hp in Hph; cbv zeta in Hph.
    + destruct Hph as (_ & _ & Hsent). exists [f]. split; [done|]. simpl. lia.
    + destruct Hph as (_ & Hsent). exists []. rewrite app_nil_r. split; [done|]. simpl. lia.
Qed.

Lemma client_step_ok v v' : client_step v v' → replays_ok v → replays_ok v'.
Proof.
  intros Hs Hok. pose proof Hok as [[Hst Hlog] Hall]. destruct Hs as [v k w f c Hk Hd Hr|v k w Hk].
  - apply (replays_ok_set v v k w); [exact Hok|exact Hk|by split|reflexivity|reflexivity|].
    intros (Hb & Hsc & played & rest & Hs1 & Hin & Hph). apply replay_chan_recv in Hr as [Hb' Hc]; [|done].
    split; [done|]. split; [done|]. exists played, rest. split; [done|]. split; [done|].
    cbn [script run_id run_live run_tx got run_phase with_got with_tx]. rewrite Hc in Hph.
    by rewrite <- app_assoc.
  - by apply (replays_ok_set v v k w); [exact Hok|exact Hk|split|reflexivity|reflexivity|].
Qed.

(** Calls extend; [RunSession] may start a run. *)
Definition waiting (w : Run (CP:=CP)) : Prop :=
  ∃ i id window, w = mkRun i id window Querying (mpsc_channel 64) false [] [].
Definition called v0 v : Prop :=
  stores_ok v ∧ extends v0 v ∧ ∃ new, runs v = runs v0 ++ new ∧ Forall waiting new.

Lemma keeps_called_plane {A} v0 (m : M State Status A) :
  (∀ held, keeps (λ s, log_holds held (receipt_store s)) m) → keeps (called v0) (on_plane m).
Proof.
  intros Hm v ([Hst Hlog] & He & Hn). unfold on_plane, zoom.
  pose proof (Hm (view (receipt_store (plane v))) (plane v)) as Hs. destruct (m (plane v)) as [r s].
  destruct Hs as [Hi Hv]; [by split|]. split; [by split|]. split; [|done]. etrans; [exact He|].
  split; [by eauto|by eauto|exact Hv].
Qed.
Lemma keeps_called_pure {A} v0 (m : M State Status A) : (∀ Q, keeps Q m) → keeps (called v0) (on_plane m).
Proof. intros Hm. by apply keeps_called_plane. Qed.
Lemma keeps_called_emit v0 label (clk : nat → Timestamp) swarm kind version ev :
  keeps (called v0) (on_plane (emit_receipt cp label clk swarm kind version ev)).
Proof.
  apply keeps_called_plane. intros held s. unfold emit_receipt. set (res := resolver s). clearbody res. revert s.
  apply (keeps_mthen (λ s : State, log_holds held (receipt_store s))); [apply keeps_lift|intros r]. walk. by eapply keeps_zoom; [apply keeps_append| |].
Qed.
(** Operations of the replay store that keep its heap, or add an empty store. *)
Lemma keeps_called_store v0 (s : MemoryReplayStore) v : called v0 v →
  (∃ more, MemoryReplayStore.heap s = MemoryReplayStore.heap (replay_store v) ++ more ∧ Forall store_inv more) →
  called v0 (set_store s v).
Proof.
  intros ([Hst Hlog] & He & Hn) (more & Hh & Hm). split; [|split; [|done]].
  - split; [|done]. cbn [replay_store set_store]. rewrite Hh. by apply Forall_app.
  - etrans; [exact He|]. split; [by eauto| |done]. intros h st Hs. cbn [replay_store set_store]. rewrite Hh.
    exists st. split; [by apply lookup_app_l_Some|done].
Qed.
Lemma keeps_called_on_store {A} v0 what (m : M MemoryReplayStore ReceiptError A) :
  (∀ s : MemoryReplayStore, ∃ more, MemoryReplayStore.heap (m s).2 = MemoryReplayStore.heap s ++ more ∧ Forall store_inv more) →
  keeps (called v0) (on_store what m).
Proof.
  intros Hm. apply keeps_m_map_err. intros v Hv. unfold zoom. specialize (Hm (replay_store v)).
  destruct (m (replay_store v)) as [r s]. by apply keeps_called_store.
Qed.
Lemma keeps_called_session_store v0 contended id :
  keeps (called v0) (session_store (P:=P) (C:=C) (R:=R) (CP:=CP) contended id).
Proof.
  intros v Hv. unfold session_store, MemoryReplayStore.session_store.
  destruct (if contended then None else _) as [slot|].
  - apply keeps_called_store; [done|]. exists []. rewrite app_nil_r. by split.
  - apply keeps_called_store; [done|]. exists [MemoryStore.new]. split; [done|]. by repeat constructor.
Qed.
Lemma same_heap (s : MemoryReplayStore) :
  ∃ more, MemoryReplayStore.heap s = MemoryReplayStore.heap s ++ more ∧ Forall (store_inv (S:=MemoryStore)) more.
Proof. exists []. by rewrite app_nil_r. Qed.
Lemma keeps_called_get v0 id : keeps (called v0) (metadata_of (P:=P) (C:=C) (R:=R) (CP:=CP) id).
Proof.
  unfold metadata_of. apply keeps_mthen; [|intros; apply keeps_lift]. apply keeps_called_on_store. apply same_heap.
Qed.

Lemma keeps_called v0 clock c : keeps (called v0) (replay_serve clock c).
Proof.
  destruct c as [co fresh r|r|co r|r|r]; cbn [ReplayService.replay_serve]; unfold answered;
    (apply keeps_mthen; [|intros; apply keeps_mret]).
  - unfold replay_create_session, open_session. cbv zeta. walk.
    all: try apply keeps_called_emit; try apply keeps_called_session_store;
      try (apply keeps_called_pure; intros ?; apply keeps_lift).
    + apply keeps_called_on_store. intros s. rewrite create_session_eq. case_bool_decide; [apply same_heap|].
      exists [MemoryStore.new]. split; [done|]. by repeat constructor.
    + by intros v Hv.
    + apply keeps_modify. intros v (Hst & He & Hn). split; [done|]. split; [|done]. etrans; [exact He|].
      split; [|by eauto|done]. intros i l Hl. exists l. split; [|done]. by apply lookup_app_l_Some.
  - unfold replay_run_session, session_id_of. walk.
    all: try apply keeps_called_get; try (apply keeps_called_pure; intros ?; apply keeps_lift).
    apply keeps_modify. intros v (Hst & He & new & Hr & Hn). split; [done|]. split; [by destruct He; split|].
    eexists (new ++ [_]). cbn [runs set_runs]. rewrite Hr, <- app_assoc. split; [done|].
    apply Forall_app. split; [done|]. repeat constructor. by eexists _, _, _.
  - unfold replay_query_receipts, session_id_of. cbv zeta. walk.
    all: try apply keeps_called_session_store; try (apply keeps_called_pure; intros ?; apply keeps_lift).
    intros v Hv. unfold zoom. unfold MemoryReplayStore.via.
    destruct (MemoryReplayStore.heap _ !! _) as [st|] eqn:Hst; [|apply keeps_called_store; [done|apply same_heap]].
    apply keeps_called_store; [done|]. exists []. cbn. rewrite app_nil_r. by rewrite list_insert_id.
  - unfold replay_close_session, session_id_of. cbv zeta. walk.
    all: try apply keeps_called_get; try apply keeps_called_emit; try (apply keeps_called_pure; intros ?; apply keeps_lift).
    + apply keeps_modify. intros v (Hst & [] & Hn). by split; [|split; [split|]].
    + apply keeps_called_on_store. apply same_heap.
  - unfold replay_list_sessions. walk.
    all: try (apply keeps_called_pure; intros ?; apply keeps_lift).
    apply keeps_called_on_store. apply same_heap.
Qed.

Lemma called_ok v v' : called v v' → replays_ok v → replays_ok v'.
Proof.
  intros (Hst & He & new & Hr & Hn) [_ Hall]. split; [done|]. intros k w. rewrite Hr, lookup_app_Some.
  intros [Hk|[_ Hk]]; [eapply run_ok_extends; [done|by eapply Hall]|].
  apply list_elem_of_lookup_2 in Hk. rewrite Forall_forall in Hn. destruct (Hn _ Hk) as (i & id & window & ->).
  destruct (mpsc_channel_spec (T:=Result ReplayProgress Status) (C:=CP) 64) as (Hc & Hcap & Ho).
  split; [split_and!; [done..|]; cbn [run_tx]; rewrite Hc; simpl; lia|].
  split; [split; [constructor|]; cbn [script]; set_solver|].
  exists [], []. unfold run_shape. cbn [script run_phase run_tx got]. rewrite Hc. by split_and!.
Qed.

(** Whatever else the control plane does, as long as the log keeps its contract
    and its receipts. *)
Definition log_kept s s' : Prop := log_holds (view (receipt_store s)) (receipt_store s').
Notation replay_moves := (replay_moves (P:=P) (C:=C) (R:=R) (CP:=CP) topology cp operator_public_key
                            canonical_schema_v1_1 set_iter graph_iter).

Lemma moves_ok v v' : replay_moves log_kept v v' → replays_ok v → replays_ok v'.
Proof.
  intros Hm Hok. destruct Hm as [clock c v|k v v' Hs|v v' Hs|v s [Hi Hsub]].
  - apply (called_ok v); [|done]. apply keeps_called. destruct Hok as [Hst _].
    split; [done|]. split; [done|]. exists []. by rewrite app_nil_r.
  - by eapply run_step_ok.
  - by eapply client_step_ok.
  - apply (called_ok v); [|done]. destruct Hok as [[Hst _] _]. split; [by split|].
    split; [by split; [by eauto|by eauto|]|]. exists []. by rewrite app_nil_r.
Qed.

Lemma frames_prefix id played sent lost :
  sent ++ lost = frames id played → sent = frames id (take (length sent) played).
Proof.
  intros Hs. assert (length sent ≤ length played) as Hl.
  { pose proof (f_equal length Hs) as Hlen. unfold frames in Hlen. rewrite length_app, length_imap in Hlen. lia. }
  rewrite <- (take_drop (length sent) played) in Hs at 1. unfold frames in Hs. rewrite imap_app in Hs.
  apply app_inj_1 in Hs as [Hs _]; [done|]. rewrite length_imap, length_take. lia.
Qed.

(** The stream of a run is its window.  Once a run has asked for them, it
    plays the receipts of the log that lie in the session's window and are of a
    listed kind, in the order of their timestamps.  What its client read and
    what waits for it is one frame for each receipt of a beginning of this list,
    numbered from one; the receipts a frame stands for are in the session's own
    store.  Only an ended stream has one frame more: the window is complete, and
    then every receipt was played, or an error.  All this holds however calls,
    closed sessions, other runs and production interleave. *)
Lemma replay_run_streams v v' k w :
  stores_ok v → runs v = [] → rtc (replay_moves log_kept) v v' → runs v' !! k = Some w →
  script_ok v' w ∧ length (contents (run_tx w)) ≤ 64 ∧
  ∃ played rest tail,
    script w = played.*1 ++ rest ∧ Forall (λ p, Forall (in_session v' (run_live w)) p.2) played ∧
    got w ++ contents (run_tx w) = frames (run_id w) played ++ tail ∧
    (tail = [] ∨ run_phase w = Finished ∧ ∃ f, tail = [f] ∧ final w rest f).
Proof.
  intros Hst Hnone Hr Hk. assert (replays_ok v') as [_ Hall].
  { assert (replays_ok v) as Hok by (split; [done|]; by rewrite Hnone). revert Hok. clear Hst Hnone Hk.
    induction Hr; eauto using moves_ok. }
  destruct (Hall _ _ Hk) as ((_ & _ & Hlen) & Hsc & played & rest & Hs & Hp & Hph). split; [done|]. split; [done|].
  assert (∀ lost, (got w ++ contents (run_tx w)) ++ lost = frames (run_id w) played →
    ∃ played' rest', script w = played'.*1 ++ rest' ∧ Forall (λ p, Forall (in_session v' (run_live w)) p.2) played' ∧
      got w ++ contents (run_tx w) = frames (run_id w) played') as Hpre.
  { intros lost Hl. set (n := length (got w ++ contents (run_tx w))).
    exists (take n played), ((drop n played).*1 ++ rest).
    rewrite app_assoc, <- fmap_app, take_drop. split; [done|]. split; [by apply Forall_take|]. by eapply frames_prefix. }
  assert (∀ lost, (got w ++ contents (run_tx w)) ++ lost = frames (run_id w) played →
    ∃ played rest tail, script w = played.*1 ++ rest ∧ Forall (λ p, Forall (in_session v' (run_live w)) p.2) played ∧
      got w ++ contents (run_tx w) = frames (run_id w) played ++ tail ∧
      (tail = [] ∨ run_phase w = Finished ∧ ∃ f, tail = [f] ∧ final w rest f)) as Hall'.
  { intros lost (pl & rs & H1' & H2' & H3')%Hpre. exists pl, rs, []. rewrite app_nil_r. by split_and!; [..|left]. }
  clear Hpre. destruct (run_phase w) as [|rest' n|f rest' n|f|] eqn:Hphase; cbv zeta in Hph.
  - destruct Hph as [Hnil Hsent]. exists [], rest, []. rewrite Hsent.
    rewrite Hnil in Hs. symmetry in Hs. apply app_eq_nil in Hs as [_ ->]. rewrite Hnil.
    split; [done|]. split; [constructor|]. split; [done|by left].
  - destruct Hph as (_ & _ & Hsent). apply (Hall' []). by rewrite app_nil_r.
  - destruct Hph as (_ & _ & Hsent). by apply (Hall' [f]).
  - destruct Hph as (_ & Hsent). apply (Hall' []). by rewrite app_nil_r.
  - destruct Hph as [(lost & Hsent & _)|(f & Hsent & Hf)]; [by apply (Hall' lost)|].
    exists played, rest, [f]. split_and!; [done..|]. right. split; [done|]. by exists f.
Qed.

(** A receipt that plays becomes a frame when there is room for it. *)
Lemma frame_sent k v w r rest n (ck : nat → Timestamp) (now : Timestamp) o v1 c :
  runs v !! k = Some w → run_phase w = Playing (r :: rest) n →
  on_session (run_live w) (play_receipt (resolver (plane v)) cp ck r) v = (Ok o, v1) → run_dropped w = false →
  try_send (Ok (progress (run_id w) r (u64_saturating_add n 1) (emitted_receipt_ids o))) (run_tx w) = (Ok tt, c) →
  ∃ v' w', rtc (run_step k) v v' ∧ runs v' !! k = Some w' ∧ got w' = got w ∧ run_tx w' = c ∧
    run_phase w' = Playing rest (u64_saturating_add n 1).
Proof.
  intros Hk Hp Ho Hd Hs. pose proof (on_session_run _ _ _ _ _ Ho) as (_ & Hr & _).
  assert (k < length (runs v1)) as Hlen by (rewrite Hr; by eapply lookup_lt_Some).
  eexists _, _. split; [|split; [|split; [|split]]].
  - eapply rtc_l; [by eapply run_play with (now := now)|]. apply rtc_once. eapply run_send.
    + cbn. by apply list_lookup_insert_eq.
    + done.
    + done.
    + exact Hs.
  - cbn. apply list_lookup_insert_eq. by rewrite length_insert.
  - done.
  - done.
  - done.
Qed.

(** ** What can go wrong *)

(** A candidate that does not load is refused after its session was entered in
    the replay store: the session is listed, but it cannot be run. *)
Lemma failed_create_leaves_session clock contended fresh (request : Request CreateRequest) v op candidate_proto window
  candidate e :
  require_operator_bearer_auth request operator_public_key (Topology.swarm_id topology) (clock 0 0) = Ok op →
  Create_candidate (into_inner request) = Some candidate_proto → Create_window (into_inner request) = Some window →
  Create_mode (into_inner request) = 0%Z → constitution_from_proto candidate_proto = Ok candidate →
  MemoryReplayStore.sessions (replay_store v) !! fresh = None →
  create_cold canonical_schema_v1_1 set_iter graph_iter fresh (OperatorAuthContext.swarm_id op) candidate tt = Err e →
  let '(r, v') := replay_create_session (P:=P) (C:=C) (R:=R) (CP:=CP) topology cp operator_public_key
                    canonical_schema_v1_1 set_iter graph_iter clock contended fresh request v in
  r = Err (Status.internal ("ReplaySession::create_cold: " +:+ ReplayError.to_string e)) ∧
  is_Some (MemoryReplayStore.sessions (replay_store v') !! fresh) ∧ replay_sessions v' = replay_sessions v.
Proof.
  intros Hop Hc Hw Hm Hd Hn He. unfold replay_create_session. cbv zeta.
  unfold mthen at 1, on_plane at 1, zoom, require_operator, lift. rewrite Hop.
  unfold mthen at 1, on_plane at 1, zoom, required, lift. rewrite Hc. cbn [ok_or].
  unfold mthen at 1, on_plane at 1, zoom, required, lift. rewrite Hw. cbn [ok_or].
  unfold mthen at 1. rewrite Hd. unfold mthen at 1, on_store, m_map_err, zoom. cbn [replay_store set_plane].
  unfold MemoryReplayStore.create_session, mthen at 1, gets. cbn [Metadata.session_id].
  rewrite bool_decide_eq_false_2 by (intros [? ?]; congruence). unfold modify. cbn [map_err].
  unfold mthen at 1, session_store. destruct (MemoryReplayStore.session_store _ _ _) as [h st] eqn:Hs.
  unfold mthen at 1, open_session. rewrite Hm. cbn [bool_decide decide_rel]. rewrite bool_decide_eq_false_2 by done.
  rewrite He. cbn [map_err]. split; [done|]. split; [|done]. cbn [replay_store set_store].
  pose proof (f_equal snd Hs) as Hst. cbn [snd] in Hst. rewrite <- Hst, sessions_handle. cbn. by rewrite lookup_insert_eq.
Qed.

(** When the lock of the replay store is taken as a session is opened, the
    session writes to a store of its own that no query reaches. *)
Lemma contended_session_detached fresh m (s : MemoryReplayStore) :
  MemoryReplayStore.sessions s !! fresh = None → Metadata.session_id m = fresh →
  let s1 := (MemoryReplayStore.create_session m s).2 in
  let '(h, s2) := MemoryReplayStore.session_store true fresh s1 in
  ∀ slot, MemoryReplayStore.sessions s2 !! fresh = Some slot → MemoryReplayStore.store slot ≠ h.
Proof.
  intros Hn Hm s1. unfold MemoryReplayStore.session_store. intros slot. subst s1. rewrite create_session_eq, Hm, Hn.
  rewrite bool_decide_eq_false_2 by (intros [? ?]; congruence). cbn. rewrite lookup_insert_eq. intros [= <-]. cbn.
  rewrite length_app. simpl. lia.
Qed.
End laws.

(** ** A session created, run and read *)

Module ReplayToy.
Import ServerToy MerkleToy QueueToy.
#[global] Instance uuid : UuidOps := {|
  uuid_parse s := map_err (λ _, "invalid character"%string) (hex_decode (without_dashes s)) |}.
Notation Previews := (Replays (P:=MemoryPassportStore) (C:=nat * list Envelope) (R:=Store)
                        (CP:=nat * list (Result ReplayProgress Status))).
Definition schema : Result (@Schema _ CedarToy.cedar) CedarPlusError := Ok tt.
Definition fresh : ReplaySessionId := ReplaySessionId.mk (replicate 16 Byte.x07).
(** The log has the receipt of an activation. *)
Definition production : State := (serve clock (ActivateConstitution (activation "cases")) empty).2.
Definition idle : Previews := mkReplays production MemoryReplayStore.new [] ∅ [].
Notation replay_serve := (replay_serve (P:=MemoryPassportStore) (C:=nat * list Envelope) (R:=Store)
  (CP:=nat * list (Result ReplayProgress Status)) topology cp operator_key schema elements map_to_list).
Notation moves := (replay_moves (P:=MemoryPassportStore) (C:=nat * list Envelope) (R:=Store)
  (CP:=nat * list (Result ReplayProgress Status)) topology cp operator_key schema elements map_to_list).
Lemma idle_stores : stores_ok idle.
Proof.
  split; [constructor|]. change (store_inv (receipt_store production)). unfold production.
  apply sound_log, (follows_sound empty), keeps_serve; [exact order_ok|]. apply follows_refl, empty_sound.
Qed.
Lemma idle_runs : runs idle = [].
Proof. reflexivity. Qed.
Definition create : ReplayCall :=
  CreateSession false fresh (bearer OperatorBearer (mkCreate (Some (constitution_of "cases" "cases"))
    (Some (mkWindow 0 1000 [])) 0 0)).
Definition run : ReplayCall := RunSession (bearer OperatorBearer (ReplaySessionId.to_string fresh)).
Definition created : Previews := (replay_serve clock create idle).2.
Definition started : Previews := (replay_serve clock run created).2.
Lemma calls : (replay_serve clock create idle).1 = Ok tt ∧ (replay_serve clock run created).1 = Ok tt.
Proof. split; vm_compute; reflexivity. Qed.
Definition w0 : Run (CP:=nat * list (Result ReplayProgress Status)) := mkRun 0 fresh (ReplaySessionWindow.mk 0 1000 []) Querying (64, []) false [] [].
Lemma has_run : runs started !! 0 = Some w0.
Proof. vm_compute. reflexivity. Qed.
Lemma ok_default {A E} (x : Result A E) d : is_ok x = true → x = Ok (default d (result_ok x)).
Proof. by destruct x. Qed.
Definition answer : Result (list Receipt) Status := window_receipts (run_window w0) (receipt_store (plane started)).
Definition window : list Receipt := default [] (result_ok answer).
Lemma window_kinds :
  is_ok answer = true ∧ Receipt.action_kind <$> window = ["constitution.activate"; "replay.session.create"]%string.
Proof. split; vm_compute; reflexivity. Qed.
Definition w1 := with_script window (at_phase (Playing window 0) w0).
Definition queried : Previews := set_run 0 w1 started.
Definition played (r : Receipt) :=
  on_session 0 (play_receipt (resolver (plane queried)) cp at_sec r) queried.
Lemma first_played : match window with r :: _ => is_ok (played r).1 | [] => false end = true.
Proof. vm_compute. reflexivity. Qed.

Lemma queried_run : runs queried !! 0 = Some w1.
Proof. cbn [runs queried set_run set_runs]. rewrite list_lookup_insert_eq; [done|]. eapply lookup_lt_Some, has_run. Qed.
Lemma reached : rtc (moves log_kept) idle queried.
Proof.
  apply rtc_l with created; [exact (moves_call _ _ _ _ _ _ _ clock create idle)|].
  apply rtc_l with started; [exact (moves_call _ _ _ _ _ _ _ clock run created)|].
  apply rtc_once. eapply moves_run, (run_query cp 0 started w0 window has_run eq_refl). apply ok_default, window_kinds.
Qed.

Lemma replay_streamed : ∃ v w, rtc (moves log_kept) idle v ∧ runs v !! 0 = Some w ∧
  length (got w ++ contents (run_tx w)) = 1.
Proof.
  pose proof first_played as Hp. pose proof reached as Hr. pose proof queried_run as Hq. unfold played in Hp.
  unfold w1 in Hq. revert Hp Hr Hq. generalize queried. intros v.
  destruct window as [|r l]; [done|]. intros Hp Hr Hq. destruct (on_session _ _ _) as [[o|e] v1] eqn:Hv; [|done].
  edestruct (frame_sent cp 0 v (with_script (r :: l) (at_phase (Playing (r :: l) 0) w0)) r l 0 at_sec (at_sec 0) o v1) as (v' & w' & Hs & Hw & Hg & Hc & _);
    [exact Hq|reflexivity|exact Hv|reflexivity|reflexivity|].
  exists v', w'. split; [|split; [done|by rewrite Hg, Hc]]. etrans; [exact Hr|].
  clear -Hs. induction Hs; [apply rtc_refl|]. eapply rtc_l; [by eapply moves_run|done].
Qed.
End ReplayToy.

Lemma preview_leaves_production_witness :
  previewed ServerToy.cp (plane ReplayToy.idle) (plane ReplayToy.started).
Proof.
  apply (preview_leaves_production ServerToy.topology ServerToy.cp ServerToy.operator_key ReplayToy.schema elements map_to_list
    ReplayToy.idle ReplayToy.started).
  - exact (proj2 ReplayToy.idle_stores).
  - apply rtc_l with ReplayToy.created; [exact (moves_call _ _ _ _ _ _ _ ServerToy.clock ReplayToy.create ReplayToy.idle)|].
    apply rtc_once. exact (moves_call _ _ _ _ _ _ _ ServerToy.clock ReplayToy.run ReplayToy.created).
Defined.

Lemma replay_run_streams_witness :
  ∃ (v : ReplayToy.Previews) (w : Run (CP:=nat * list (Result ReplayProgress Status))), length (got w ++ contents (run_tx w)) = 1 ∧ script_ok v w ∧
    ∃ played rest tail, script w = played.*1 ++ rest ∧
      Forall (λ p, Forall (in_session (P:=MemoryPassportStore) (C:=nat * list Envelope) v (run_live w)) p.2) played ∧
      got w ++ contents (run_tx w) = frames (run_id w) played ++ tail ∧
      (tail = [] ∨ run_phase w = Finished ∧ ∃ f, tail = [f] ∧ final w rest f).
Proof.
  destruct ReplayToy.replay_streamed as (v & w & Hr & Hw & Hl). exists v, w. split; [exact Hl|].
  destruct (replay_run_streams ServerToy.topology ServerToy.cp ServerToy.operator_key ReplayToy.schema elements map_to_list
    ReplayToy.idle v 0 w ReplayToy.idle_stores ReplayToy.idle_runs Hr Hw) as (Hs & _ & Hx).
  exact (conj Hs Hx).
Defined.
