(* ===== verification/RustText.v ===== *)
(** * More of Rust's [str], and durations

    The methods of [str] that only the attestors, the signers and the tools use;
    instants and durations. *)

From S2P Require Import Prelude RustStd.

(** An [Instant] and a [Duration], in nanoseconds. *)
Notation Instant := N (only parsing).
Definition from_secs (s : N) : N := s * 1000000000.
Definition as_secs (d : N) : N := d / 1000000000.

Fixpoint str_map (f : ascii → ascii) (s : string) : string :=
  match s with EmptyString => EmptyString | String c s => String (f c) (str_map f s) end.

(** [u8::to_ascii_uppercase] on the characters. *)
Definition ascii_upper (c : ascii) : ascii :=
  if (97 <=? N_of_ascii c)%N && (N_of_ascii c <=? 122)%N then ascii_of_N (N_of_ascii c - 32) else c.
Definition to_ascii_uppercase : string → string := str_map ascii_upper.
(** [a.eq_ignore_ascii_case(b)] *)
Definition eq_ignore_ascii_case (a b : string) : bool :=
  bool_decide (to_ascii_uppercase a = to_ascii_uppercase b).

(** [s.split_once(pat)] with a string pattern: the text before and after the
    first occurrence. *)
Fixpoint split_once_str (pat s : string) : option (string * string) :=
  match strip_prefix pat s with
  | Some rest => Some (""%string, rest)
  | None =>
      match s with
      | EmptyString => None
      | String c s => (λ p : string * string, (String c p.1, p.2)) <$> split_once_str pat s
      end
  end.

(** [s.trim_end_matches(c)] *)
Fixpoint trim_end_matches (c : ascii) (s : string) : string :=
  match s with
  | EmptyString => EmptyString
  | String d s =>
      match trim_end_matches c s with
      | EmptyString => if decide (d = c) then EmptyString else String d EmptyString
      | t => String d t
      end
  end.

Lemma eq_ignore_ascii_case_eq a b :
  eq_ignore_ascii_case a b = true ↔ to_ascii_uppercase a = to_ascii_uppercase b.
Proof. apply bool_decide_eq_true. Qed.
