(* ===== verification/Oidc.v ===== *)
(** * [yutha-attestor-oidc]: the attestor that checks OIDC ID tokens

    The configuration and its validation, the sources of signing keys, the cache
    of keys with its background and blocking refreshes, the checks of a token and
    the projection of its claims, the start-up of [main.rs].  The cache is shared
    by all verifications under way: they are tasks that run step by step between
    their [await]s.

    The crates [jsonwebtoken] and [jwks], the HTTP client and the JSON parser are
    parameters; the laws of [jsonwebtoken::decode] are those it documents. *)

From S2P Require Import Prelude RustStd RustText Core CedarPlus Registry.

(** ** The crates behind it *)

(** [jsonwebtoken::Algorithm] *)
Inductive Algorithm :=
  HS256 | HS384 | HS512 | ES256 | ES384 | RS256 | RS384 | RS512 | PS256 | PS384 | PS512 | EdDSA.
#[global] Instance Algorithm_eq_dec : EqDecision Algorithm.
Proof. solve_decision. Defined.
(** The fields the source reads of [jsonwebtoken::Header]. *)
Record Header := mkHeader { alg : Algorithm; typ : option string; kid : option string }.
(** [jsonwebtoken::errors::ErrorKind], which is non-exhaustive. *)
Inductive ErrorKind :=
| InvalidSignature | InvalidToken | InvalidIssuer | InvalidAudience | ExpiredSignature
| ImmatureSignature | MissingRequiredClaim (claim : string) | OtherKind.
(** [jsonwebtoken::Validation], whose [validate_exp] and [validate_aud] are on. *)
Record Validation := mkValidation {
  algorithms : list Algorithm; required_spec_claims : list string;
  val_iss : list string; val_aud : list string; leeway : N; validate_nbf : bool }.

(** [jsonwebtoken] and [jwks]: the keys, parsing a JWK set, decoding a header,
    checking and decoding a token at a time in seconds. *)
Class Jsonwebtoken `{SerdeJson} := {
  RawJwk : Type;
  Jwk : Type;
  jwk_set_from_str : string → Result (list RawJwk) string;
  from_jsonwebkey_ref : RawJwk → Result (string * Jwk) string;
  decode_header : string → Result Header ErrorKind;
  decode : Z → string → Jwk → Validation → Result JsonValue ErrorKind
}.
Arguments Jwk {_ _}.

(** [serde_json::Number::as_i64], the members of an object of [serde_json] as it
    is read, [time::OffsetDateTime]. *)
Class OidcStd `{SerdeJson} := {
  as_i64 : JsonNumber → option Z;
  from_json : string → option JsonValue;
  json_error : string → string;
  OffsetDateTime : Type;
  from_unix_timestamp : Z → Result OffsetDateTime string;
  format_rfc3339 : OffsetDateTime → Result string string
}.

(** [std::task::Poll] of what is awaited: nothing yet, or the answer; and
    [.await?] of an answer that may be an error. *)
Inductive Poll (A : Type) := Pending | Ready (a : A).
Arguments Pending {A}.
Arguments Ready {A} a.
Definition poll_map {A B} (f : A → B) (p : Poll A) : Poll B :=
  match p with Pending => Pending | Ready a => Ready (f a) end.
Definition await_ok {A B E} (p : Poll (Result A E)) (k : A → Poll (Result B E)) : Poll (Result B E) :=
  match p with Pending => Pending | Ready (Ok a) => k a | Ready (Err e) => Ready (Err e) end.
Notation "'await?' x := m 'in' k" := (await_ok m (λ x, k)) (at level 200, x name, m at level 100, k at level 200).
Lemma await_ok_Ready {A B E} (p : Poll (Result A E)) (k : A → Poll (Result B E)) b :
  await_ok p k = Ready (Ok b) → ∃ a, p = Ready (Ok a) ∧ k a = Ready (Ok b).
Proof. destruct p as [|[a|e]]; simpl; [done| |done]. by exists a. Qed.

(** What a GET has given at one moment: nothing, an error of the request, or a
    status and a body, which may still be on its way or fail to arrive.  The
    client has a [connect_timeout] but no timeout for the answer, so a request
    may stay without one for ever. *)
Record Response := mkResponse { status : N; text : Poll (Result string string) }.
Definition Web := string → Poll (Result Response string).

(** What a refresh meets: the network at its two requests, and the errors of
    building a client for them. *)
Record Env := mkEnv {
  client_1 : Result unit string; web_1 : Web; client_2 : Result unit string; web_2 : Web;
  disk : string → Result string string;
  (** the clocks of [jsonwebtoken::decode] and of [SystemTime], in seconds *)
  decode_clock : Z; system_clock : option N }.

(** [payload.get(name)] of a JSON value. *)
Fixpoint assoc {A} (name : string) (l : list (string * A)) : option A :=
  match l with [] => None | (k, x) :: l => if decide (k = name) then Some x else assoc name l end.
Definition json_get `{SerdeJson} (name : string) (v : JsonValue) : option JsonValue :=
  match v with JObject l => assoc name l | _ => None end.
Definition as_str `{SerdeJson} (v : JsonValue) : option string :=
  match v with JString s => Some s | _ => None end.
Definition json_i64 `{OidcStd} (v : JsonValue) : option Z :=
  match v with JNumber n => as_i64 n | _ => None end.

(** ** source.rs *)

Module JwksSource.
(* yutha-attestor-oidc/src/source.rs:25-70 JwksSource *)
Inductive JwksSource := Discovery (issuer_url : string) | JwksUri (url : string) | StaticFile (path : string).
(* yutha-attestor-oidc/src/source.rs:116-136 check_url *)
Definition check_url (url : string) (allow_insecure_http : bool) (field : string) : Result unit AttestorError :=
  require negb (bool_decide (url = "")) else AttestorError.Internal (field +:+ ": must not be empty") in
  let is_https := starts_with "https://" url in
  let is_http := starts_with "http://" url in
  require is_https || is_http
    else AttestorError.Internal (field +:+ ": URL must start with http:// or https://") in
  require negb is_http || allow_insecure_http
    else AttestorError.Internal (field +:+ ": HTTPS required (set allow_insecure_http for the F7 mock-OIDC server or local IdPs)") in
  Ok tt.
(* yutha-attestor-oidc/src/source.rs:84-99 JwksSource::validate *)
Definition validate (self : JwksSource) (allow_insecure_http : bool) : Result unit AttestorError :=
  match self with
  | Discovery issuer_url => check_url issuer_url allow_insecure_http "Discovery issuer_url"
  | JwksUri url => check_url url allow_insecure_http "JwksUri url"
  | StaticFile path =>
      require negb (bool_decide (path = ""))
        else AttestorError.Internal "JwksSource::StaticFile: path must not be empty" in Ok tt
  end.
(* yutha-attestor-oidc/src/source.rs:107-113 JwksSource::tag *)
Definition tag (self : JwksSource) : string :=
  match self with Discovery _ => "discovery" | JwksUri _ => "jwks-uri" | StaticFile _ => "static-file" end.
Definition is_static (self : JwksSource) : bool := match self with StaticFile _ => true | _ => false end.
End JwksSource.
Notation JwksSource := JwksSource.JwksSource.

(** ** config.rs *)

Module OidcConfig.
(* yutha-attestor-oidc/src/config.rs:27-101 OidcConfig *)
Record OidcConfig := mk {
  source : JwksSource; expected_issuer : string; expected_audience : string;
  allowed_algs : list string; project_claims : list string; cache_ttl_secs : N;
  max_staleness_secs : option N; clock_skew_tolerance_secs : N; connect_timeout_secs : N;
  allow_insecure_http : bool }.
(* yutha-attestor-oidc/src/config.rs:182-190 redact_url *)
Definition redact_url (url : string) : string :=
  match split_once_str "://" url ≫= (λ p, (λ q, p.1 +:+ "://" +:+ fst q) <$> split_once "/"%char p.2) with
  | Some scheme_and_host => scheme_and_host +:+ "/<redacted-path>"
  | None => url
  end.
(* yutha-attestor-oidc/src/config.rs:144-154 OidcConfig::validate (disallowed algorithms) *)
Definition disallowed (alg : string) : bool :=
  bool_decide (to_ascii_uppercase alg ∈ ["NONE"; "HS256"; "HS384"; "HS512"]%string).
(* yutha-attestor-oidc/src/config.rs:110-176 OidcConfig::validate *)
Definition validate (self : OidcConfig) : Result unit AttestorError :=
  require negb (bool_decide (expected_issuer self = ""))
    else AttestorError.Internal "OidcConfig: expected_issuer must not be empty" in
  require allow_insecure_http self || starts_with "https://" (expected_issuer self)
    else AttestorError.Internal ("OidcConfig: expected_issuer must be HTTPS unless allow_insecure_http is set (got: "
           +:+ redact_url (expected_issuer self)
           +:+ " — pass --attestor-oidc-allow-insecure-http for the F7 mock-OIDC server or local IdPs)") in
  require negb (bool_decide (expected_audience self = ""))
    else AttestorError.Internal "OidcConfig: expected_audience must not be empty" in
  require negb (bool_decide (allowed_algs self = []))
    else AttestorError.Internal "OidcConfig: allowed_algs must not be empty (default is RS256, RS384, RS512, ES256, ES384, EdDSA — see spec §2.1)" in
  let? _ := collect (λ alg,
    require negb (disallowed alg)
      else AttestorError.Internal ("OidcConfig: alg " +:+ debug_str alg +:+ " is architecturally disallowed (HMAC requires shared-secret distribution that breaks the OIDC trust model; `none` is never accepted). Remove from allowed_algs.") in
    Ok tt) (allowed_algs self) in
  require (60 <=? cache_ttl_secs self)%N
    else AttestorError.Internal ("OidcConfig: cache_ttl_secs must be at least 60 (got "
           +:+ show_N (cache_ttl_secs self) +:+ ")") in
  require (clock_skew_tolerance_secs self <=? 86400)%N
    else AttestorError.Internal ("OidcConfig: clock_skew_tolerance_secs=" +:+ show_N (clock_skew_tolerance_secs self)
           +:+ " is unreasonably large (>1 day). Tighten to 60–300 unless you have a specific NTP situation") in
  JwksSource.validate (source self) (allow_insecure_http self).
End OidcConfig.
Notation OidcConfig := OidcConfig.OidcConfig.

(** ** error.rs *)

(* yutha-attestor-oidc/src/error.rs:44-102 map_oidc_error *)
Definition map_oidc_error (kind : ErrorKind) : AttestorError :=
  match kind with
  | InvalidSignature => AttestorError.Rejected "signature verification failed"
  | InvalidToken => AttestorError.Malformed "not a JWS compact serialization"
  | InvalidIssuer => AttestorError.Rejected "issuer mismatch"
  | InvalidAudience => AttestorError.Rejected "audience mismatch"
  | ExpiredSignature => AttestorError.Rejected "credential expired"
  | ImmatureSignature => AttestorError.Rejected "nbf in the future"
  | MissingRequiredClaim claim => AttestorError.Malformed ("payload: missing/invalid " +:+ claim)
  | OtherKind => AttestorError.Malformed "token validation failed"
  end.

(** ** payload.rs *)

Section payload.
Context `{SerdeJson}.
(* yutha-attestor-oidc/src/payload.rs:29-34 PROJECT_MAX_ENTRIES, PROJECT_MAX_BYTES *)
Definition PROJECT_MAX_ENTRIES : nat := 64.
Definition PROJECT_MAX_BYTES : N := 4096.
(* yutha-attestor-oidc/src/payload.rs:115-130 render_claim_value *)
Definition render_claim_value (value : JsonValue) : option string :=
  match value with
  | JString s => Some s
  | JArray items => str_join "," <$> mapM as_str items
  | _ => None
  end.
(** The loop over the allow-list, with the map and the bytes used so far. *)
(* yutha-attestor-oidc/src/payload.rs:55-99 project_allowlisted_claims (loop) *)
Fixpoint project_loop (payload : JsonValue) (allowlist : list string) (out : gmap string string)
    (bytes_used : N) : gmap string string :=
  match allowlist with
  | [] => out
  | claim_name :: rest =>
      if (PROJECT_MAX_ENTRIES <=? size out)%nat then out else
      match json_get claim_name payload with
      | None => project_loop payload rest out bytes_used
      | Some raw =>
          match render_claim_value raw with
          | None => project_loop payload rest out bytes_used
          | Some rendered =>
              let entry_bytes := N.of_nat (String.length claim_name + String.length rendered) in
              if (PROJECT_MAX_BYTES <? bytes_used + entry_bytes)%N then out
              else project_loop payload rest (<[claim_name := rendered]> out) (bytes_used + entry_bytes)
          end
      end
  end.
(* yutha-attestor-oidc/src/payload.rs:48-102 project_allowlisted_claims *)
Definition project_allowlisted_claims (payload : JsonValue) (allowlist : list string) : gmap string string :=
  project_loop payload allowlist ∅ 0.
End payload.

(** ** jwks_cache.rs *)


Module CacheConfig.
(* yutha-attestor-oidc/src/jwks_cache.rs:49-55 CacheConfig *)
Record CacheConfig := mk { cache_ttl : N; max_staleness : option N; connect_timeout : N }.
End CacheConfig.
Notation CacheConfig := CacheConfig.CacheConfig.

(* yutha-attestor-oidc/src/jwks_cache.rs:58-58 JWKS_PAYLOAD_MAX_BYTES *)
Definition JWKS_PAYLOAD_MAX_BYTES : nat := 64 * 1024.

Section cache.
Context `{Jsonwebtoken} `{!OidcStd}.
Notation Keys := (gmap string Jwk).
Notation unavailable := AttestorError.TrustRootUnavailable.

(* yutha-attestor-oidc/src/jwks_cache.rs:75-89 JwksCache *)
Record JwksCache := mkCache {
  cache_source : JwksSource; keys : Keys; last_refresh_at : Instant; cache_config : CacheConfig }.

(* yutha-attestor-oidc/src/jwks_cache.rs:480-497 parse_jwks_body *)
Definition parse_jwks_body (body : string) : Result Keys AttestorError :=
  let? raw_set := map_err (λ err, unavailable ("JWKS parse: " +:+ err)) (jwk_set_from_str body) in
  let? entries := collect (λ raw,
    map_err (λ err, unavailable ("JWKS parse: key entry rejected: " +:+ err)) (from_jsonwebkey_ref raw)) raw_set in
  Ok (foldl (λ out entry, <[entry.1 := entry.2]> out) ∅ entries).

(* yutha-attestor-oidc/src/jwks_cache.rs:454-472 parse_static_file *)
Definition parse_static_file (read_to_string : string → Result string string) (path : string) : Result Keys AttestorError :=
  let? body := map_err (λ err, unavailable ("Static-file JWKS: failed to read " +:+ path +:+ ": " +:+ err))
                 (read_to_string path) in
  require (String.length body <=? JWKS_PAYLOAD_MAX_BYTES)%nat
    else unavailable ("Static-file JWKS: payload exceeds 65536 bytes cap (" +:+ show_N (N.of_nat (String.length body))
           +:+ " bytes); spec §5.3") in
  parse_jwks_body body.

Definition is_success (r : Response) : bool := (200 <=? status r)%N && (status r <? 300)%N.

(* yutha-attestor-oidc/src/jwks_cache.rs:412-451 fetch_via_jwks_url *)
Definition fetch_via_jwks_url (client : Result unit string) (web : Web) (url : string) :
    Poll (Result Keys AttestorError) :=
  await? _ := Ready (map_err (λ err, unavailable ("JWKS fetch: failed to build HTTP client: " +:+ err)) client) in
  await? resp := poll_map (map_err (λ err, unavailable ("JWKS fetch: GET failed: " +:+ err))) (web url) in
  await? _ := Ready (require is_success resp
                       else unavailable ("JWKS fetch: GET returned HTTP " +:+ show_N (status resp)) in Ok tt) in
  await? body := poll_map (map_err (λ err, unavailable ("JWKS fetch: failed to read response body: " +:+ err))) (text resp) in
  Ready (
    require (String.length body <=? JWKS_PAYLOAD_MAX_BYTES)%nat
      else unavailable ("JWKS payload exceeds 65536 bytes cap (" +:+ show_N (N.of_nat (String.length body))
             +:+ " bytes); spec §5.3") in
    parse_jwks_body body).

(** The derived [Deserialize] of the discovery document: both fields, once
    each, as strings. *)
(* yutha-attestor-oidc/src/jwks_cache.rs:504-512 DiscoveryDoc *)
Record DiscoveryDoc := mkDoc { issuer : string; jwks_uri : string }.
Definition field_of (name : string) (l : list (string * JsonValue)) : option string :=
  match filter (λ m, m.1 = name) l with [(_, JString s)] => Some s | _ => None end.
Definition discovery_doc (body : string) : option DiscoveryDoc :=
  match from_json body with
  | Some (JObject l) => i ← field_of "issuer" l; u ← field_of "jwks_uri" l; Some (mkDoc i u)
  | _ => None
  end.

(* yutha-attestor-oidc/src/jwks_cache.rs:360-363 fetch_via_discovery (well_known) *)
Definition well_known (issuer_url : string) : string :=
  trim_end_matches "/"%char issuer_url +:+ "/.well-known/openid-configuration".

(* yutha-attestor-oidc/src/jwks_cache.rs:355-408 fetch_via_discovery *)
Definition fetch_via_discovery (env : Env) (issuer_url expected_issuer : string) : Poll (Result Keys AttestorError) :=
  await? _ := Ready (map_err (λ err, unavailable ("Discovery: failed to build HTTP client: " +:+ err)) (client_1 env)) in
  await? resp := poll_map (map_err (λ err, unavailable ("Discovery: GET /.well-known/openid-configuration failed: " +:+ err)))
                   (web_1 env (well_known issuer_url)) in
  await? _ := Ready (require is_success resp
    else unavailable ("Discovery: GET /.well-known/openid-configuration returned HTTP " +:+ show_N (status resp)) in Ok tt) in
  let not_json err := unavailable ("Discovery: response body is not a valid JSON discovery document: " +:+ err) in
  await? body := poll_map (map_err not_json) (text resp) in
  await? doc := Ready (ok_or (discovery_doc body) (not_json (json_error body))) in
  await? _ := Ready (require bool_decide (expected_issuer = "") || bool_decide (issuer doc = expected_issuer)
    else unavailable "Discovery: discovery-doc `issuer` field does not exact-match operator-configured expected_issuer (per RFC 8414 §3.3 / spec §6.3). Refusing to trust the JWKS this discovery doc points at." in Ok tt) in
  fetch_via_jwks_url (client_2 env) (web_2 env) (jwks_uri doc).

(* yutha-attestor-oidc/src/jwks_cache.rs:338-350 fetch_jwks *)
Definition fetch_jwks (env : Env) (source : JwksSource) (expected_issuer : string) : Poll (Result Keys AttestorError) :=
  match source with
  | JwksSource.Discovery issuer_url => fetch_via_discovery env issuer_url expected_issuer
  | JwksSource.JwksUri url => fetch_via_jwks_url (client_1 env) (web_1 env) url
  | JwksSource.StaticFile path => Ready (parse_static_file (disk env) path)
  end.

(* yutha-attestor-oidc/src/jwks_cache.rs:122-151 JwksCache::warm *)
Definition warm (env : Env) (now : Instant) (source : JwksSource) (expected_issuer : string)
    (cache_ttl_secs : N) (max_staleness_secs : option N) (connect_timeout_secs : N) : Poll (Result JwksCache AttestorError) :=
  let config := CacheConfig.mk (from_secs cache_ttl_secs) (from_secs <$> max_staleness_secs)
                  (from_secs connect_timeout_secs) in
  await? initial := fetch_jwks env source expected_issuer in
  Ready (
    require negb (bool_decide (initial = ∅))
      else unavailable ("JWKS source (" +:+ JwksSource.tag source +:+ ") returned zero keys; refusing to start") in
    Ok (mkCache source initial now config)).

Definition elapsed (now : Instant) (c : JwksCache) : N := now - last_refresh_at c.
Definition is_static (c : JwksCache) : bool := JwksSource.is_static (cache_source c).
Definition stale (now : Instant) (c : JwksCache) : option N :=
  max ← CacheConfig.max_staleness (cache_config c); if (max <? elapsed now c)%N then Some max else None.

(** The answer, and whether a background refresh was spawned. *)
(* yutha-attestor-oidc/src/jwks_cache.rs:164-204 JwksCache::assert_fresh *)
Definition assert_fresh (now : Instant) (c : JwksCache) : Result bool AttestorError :=
  let text max := "JWKS stale: last refresh was " +:+ show_N (as_secs (elapsed now c))
                    +:+ "s ago; max staleness window is " +:+ show_N (as_secs max) +:+ "s" in
  if is_static c then
    match stale now c with
    | Some max => Err (unavailable (text max +:+
        " (static-file source — restart the control plane after rotating the file)"))
    | None => Ok false
    end
  else
    match stale now c with
    | Some max => Err (unavailable (text max))
    | None => Ok (CacheConfig.cache_ttl (cache_config c) <? elapsed now c)%N
    end.

Definition set_keys (fresh : Keys) (c : JwksCache) := mkCache (cache_source c) fresh (last_refresh_at c) (cache_config c).
Definition stamp (now : Instant) (c : JwksCache) := mkCache (cache_source c) (keys c) now (cache_config c).

(** A refresh that has the lock: about to fetch, to store the keys, to note the
    time; the guards of the two [RwLock]s live for one statement. *)
Inductive Refresh := Fetching | Storing (fresh : Keys) | Stamping.

(** One step of a refresh: on, over, or failed; or its fetch still waits for an
    answer.  The two requests of a fetch touch nothing the tasks share, so it is
    over in the poll that meets the last of their answers. *)
(* yutha-attestor-oidc/src/jwks_cache.rs:308-317 JwksCache::refresh_now *)
Definition refresh_poll (env : Env) (now : Instant) (c : JwksCache) (r : Refresh) :
    Poll (Result (option Refresh) AttestorError) * JwksCache :=
  match r with
  | Fetching =>
      (await? fresh := fetch_jwks env (cache_source c) "" in
       Ready (
         require negb (bool_decide (fresh = ∅))
           else unavailable ("JWKS refresh (" +:+ JwksSource.tag (cache_source c) +:+ "): source returned zero keys") in
         Ok (Some (Storing fresh))), c)
  | Storing fresh => (Ready (Ok (Some Stamping)), set_keys fresh c)
  | Stamping => (Ready (Ok None), stamp now c)
  end.
End cache.
Arguments JwksCache {_ _}.
Arguments Refresh {_ _}.

(** ** attestor.rs *)

(* yutha-attestor-oidc/src/attestor.rs:294-310 algorithm_name *)
Definition algorithm_name (alg : Algorithm) : string :=
  match alg with
  | HS256 => "HS256" | HS384 => "HS384" | HS512 => "HS512" | ES256 => "ES256" | ES384 => "ES384"
  | RS256 => "RS256" | RS384 => "RS384" | RS512 => "RS512" | PS256 => "PS256" | PS384 => "PS384"
  | PS512 => "PS512" | EdDSA => "EdDSA"
  end.
(** The argument: the seconds since the epoch, if the clock is past it. *)
(* yutha-attestor-oidc/src/attestor.rs:339-344 current_unix_secs *)
Definition current_unix_secs (since_epoch : option N) : Z :=
  match since_epoch with Some d => u64_as_i64 d | None => 0 end.

Section attestor.
Context `{Jsonwebtoken} `{!OidcStd} `{TimeOps}.
Notation Keys := (gmap string Jwk).

(* yutha-attestor-oidc/src/attestor.rs:320-334 unix_secs_to_timestamp *)
Definition unix_secs_to_timestamp (exp_secs : Z) : Result Timestamp AttestorError :=
  let? dt := map_err (λ err, AttestorError.Internal ("could not construct OffsetDateTime from JWT exp: " +:+ err))
               (from_unix_timestamp exp_secs) in
  let? wall_clock := map_err (λ err, AttestorError.Internal ("RFC 3339 format failed for JWT exp: " +:+ err))
                       (format_rfc3339 dt) in
  map_err (λ err, AttestorError.Internal ("could not construct Timestamp from JWT exp: " +:+ CoreError.to_string err))
    (Timestamp.new wall_clock 0).

(** Steps 0 to 2: what can be said of a credential without the keys. *)
Record Request := mkRequest { token : string; header : Header; key_id : string }.
Definition alg_allowed (config : OidcConfig) (alg : Algorithm) : bool :=
  existsb (λ a, eq_ignore_ascii_case a (algorithm_name alg)) (OidcConfig.allowed_algs config).
(* yutha-attestor-oidc/src/attestor.rs:132-185 OidcAttestor::verify (steps 0-2) *)
Definition check_header (config : OidcConfig) (credential : bytes) : Result Request AttestorError :=
  require negb (bool_decide (credential = []))
    else AttestorError.Rejected "empty credential; OIDC Attestor requires an ID token" in
  let? token := ok_or (from_utf8 credential) (AttestorError.Malformed "not a JWS compact serialization") in
  let? header := map_err map_oidc_error (decode_header token) in
  let? kid := ok_or (kid header) (AttestorError.Malformed "header: missing kid") in
  require match typ header with
          | Some typ => eq_ignore_ascii_case typ "JWT" || eq_ignore_ascii_case typ "JOSE"
          | None => true
          end else AttestorError.Malformed "header: unsupported typ" in
  require alg_allowed config (alg header) else AttestorError.Malformed "header: unsupported alg" in
  Ok (mkRequest token header kid).

(* yutha-attestor-oidc/src/attestor.rs:215-223 OidcAttestor::verify (validation) *)
Definition validation (config : OidcConfig) (alg : Algorithm) : Validation :=
  mkValidation [alg] ["exp"; "iss"; "aud"] [OidcConfig.expected_issuer config] [OidcConfig.expected_audience config]
    (OidcConfig.clock_skew_tolerance_secs config) true.

(** Steps 5 to 9: the token under the key of its [kid]. *)
(* yutha-attestor-oidc/src/attestor.rs:215-286 OidcAttestor::verify (steps 5-9) *)
Definition finish (config : OidcConfig) (env : Env) (q : Request) (jwk : Jwk) : Result AttestedIdentity AttestorError :=
  let? payload := map_err map_oidc_error
                    (decode (decode_clock env) (token q) jwk (validation config (alg (header q)))) in
  let? iat := ok_or (json_get "iat" payload ≫= json_i64) (AttestorError.Malformed "payload: missing/invalid iat") in
  let now_secs := current_unix_secs (system_clock env) in
  require (iat <=? i64_saturating_add now_secs (u64_as_i64 (OidcConfig.clock_skew_tolerance_secs config)))%Z
    else AttestorError.Rejected "iat in the future" in
  let? iss := ok_or (json_get "iss" payload ≫= as_str) (AttestorError.Malformed "payload: missing iss") in
  let? sub := ok_or (s ← json_get "sub" payload ≫= as_str; if decide (s = ""%string) then None else Some s)
                (AttestorError.Malformed "payload: sub empty or not a string") in
  let? exp := ok_or (json_get "exp" payload ≫= json_i64) (AttestorError.Malformed "payload: missing/invalid exp") in
  let? credential_expires_at := unix_secs_to_timestamp exp in
  Ok (mkAttestedIdentity ("oidc:" +:+ iss +:+ ":" +:+ sub) (Some credential_expires_at)
        (project_allowlisted_claims payload (OidcConfig.project_claims config))).

(* yutha-attestor-oidc/src/attestor.rs:64-75 OidcAttestor::connect *)
Definition connect (env : Env) (now : Instant) (config : OidcConfig) : Poll (Result JwksCache AttestorError) :=
  await? _ := Ready (OidcConfig.validate config) in
  warm env now (OidcConfig.source config) (OidcConfig.expected_issuer config) (OidcConfig.cache_ttl_secs config)
    (OidcConfig.max_staleness_secs config) (OidcConfig.connect_timeout_secs config).

(** ** Verifications and refreshes under way *)

(** A verification is about to call [assert_fresh], to look the key up, to note
    [last_refresh_at], waits for the lock of the refreshes, has it and compares,
    refreshes, looks up again.  A background refresh was spawned, or has the lock. *)
Inductive Phase :=
  Checking | Looking | Missing | Queued (before : Instant) | Comparing (before : Instant)
| Refreshing (r : Refresh) | Retrying.
Inductive Task :=
| Verifying (q : Request) (p : Phase)
| Answered (credential : bytes) (r : Result AttestedIdentity AttestorError)
| Spawned
| Background (r : Refresh)
| Gone.

(** Who has the lock [refresh_dedup]. *)
Definition holds (t : Task) : bool :=
  match t with Verifying _ (Comparing _ | Refreshing _) | Background _ => true | _ => false end.

Section poll.
Context (config : OidcConfig) (env : Env) (now : Instant) (locked : bool) (c : JwksCache).
Definition Polled : Type := option (Task * JwksCache * list Task).
(* yutha-attestor-oidc/src/attestor.rs:199-203 OidcAttestor::verify (step 4) *)
Definition answer (q : Request) (found : option Jwk) : Polled :=
  Some (Answered (as_bytes (token q)) (let? jwk := ok_or found (AttestorError.Rejected "kid not found in JWKS") in
                  finish config env q jwk), c, []).
(** The lookup up to the call of [refresh_now], and the one after it. *)
(* yutha-attestor-oidc/src/jwks_cache.rs:219-238 JwksCache::lookup *)
Definition lookup_poll (q : Request) (retry : bool) : Polled :=
  match keys c !! key_id q with
  | Some jwk => answer q (Some jwk)
  | None => if is_static c || retry then answer q None else Some (Verifying q Missing, c, [])
  end.
(* yutha-attestor-oidc/src/jwks_cache.rs:297-318 JwksCache::refresh_now *)
Definition refresh_now_poll (q : Request) (p : Phase) : Polled :=
  match p with
  | Missing => Some (Verifying q (Queued (last_refresh_at c)), c, [])
  | Queued before => if locked then None else Some (Verifying q (Comparing before), c, [])
  | Comparing before =>
      Some (Verifying q (if decide (last_refresh_at c = before) then Refreshing Fetching else Retrying), c, [])
  | Refreshing r =>
      match refresh_poll env now c r with
      | (Pending, _) => None
      | (Ready (Err e), c') => Some (Answered (as_bytes (token q)) (Err e), c', [])
      | (Ready (Ok (Some r')), c') => Some (Verifying q (Refreshing r'), c', [])
      | (Ready (Ok None), c') => Some (Verifying q Retrying, c', [])
      end
  | _ => None
  end.
(** Failures and empty sets are logged and leave the cache as it is. *)
(* yutha-attestor-oidc/src/jwks_cache.rs:244-277 JwksCache::spawn_background_refresh *)
Definition background_poll (t : Task) : Polled :=
  match t with
  | Spawned => Some (if locked then Gone else Background Fetching, c, [])
  | Background r =>
      match refresh_poll env now c r with
      | (Pending, _) => None
      | (Ready (Ok (Some r')), c') => Some (Background r', c', [])
      | (Ready _, c') => Some (Gone, c', [])
      end
  | _ => None
  end.
(** What a task does when it is polled, [None] while it has to wait: for the lock
    of the refreshes, or for the answer to its own request. *)
(* yutha-attestor-oidc/src/attestor.rs:192-203 OidcAttestor::verify (steps 3-4) *)
Definition poll (t : Task) : Polled :=
  match t with
  | Verifying q Checking =>
      match assert_fresh now c with
      | Err e => Some (Answered (as_bytes (token q)) (Err e), c, [])
      | Ok spawn => Some (Verifying q Looking, c, if spawn then [Spawned] else [])
      end
  | Verifying q Looking => lookup_poll q false
  | Verifying q Retrying => lookup_poll q true
  | Verifying q p => refresh_now_poll q p
  | t => background_poll t
  end.
End poll.

Record World := mkWorld { cache : JwksCache; now : Instant; tasks : list Task }.
Implicit Types (w : World).
Definition is_locked w : bool := existsb holds (tasks w).
(* yutha-attestor-oidc/src/attestor.rs:124-287 OidcAttestor::verify *)
Definition verify (config : OidcConfig) (credential : bytes) : Task :=
  match check_header config credential with Err e => Answered credential (Err e) | Ok q => Verifying q Checking end.

(** The [i]-th task is polled. *)
Inductive polls (config : OidcConfig) (i : nat) (env : Env) w : World → Prop :=
| polls_intro t t' c' new : tasks w !! i = Some t →
    poll config env (now w) (is_locked w) (cache w) t = Some (t', c', new) →
    polls config i env w (mkWorld c' (now w) (<[i := t']> (tasks w) ++ new)).
(** Time passes, a verification begins, the client of one goes away, a task is
    polled. *)
Inductive step (config : OidcConfig) w : World → Prop :=
| step_tick d : step config w (mkWorld (cache w) (now w + d) (tasks w))
| step_verify credential :
    step config w (mkWorld (cache w) (now w) (tasks w ++ [verify config credential]))
| step_cancel i q p : tasks w !! i = Some (Verifying q p) →
    step config w (mkWorld (cache w) (now w) (<[i := Gone]> (tasks w)))
| step_poll i env w' : polls config i env w w' → step config w w'.
Inductive serving (config : OidcConfig) : World → Prop :=
| serving_start env t c : connect env t config = Ready (Ok c) → serving config (mkWorld c t [])
| serving_step w w' : serving config w → step config w w' → serving config w'.
End attestor.
