(* ===== verification/OidcLaws.v ===== *)
(** * The OIDC attestor: what it accepts, when it ends, when it gives up

    Over any interleaving of verifications, refreshes, cancellations and the
    passing of time. *)

From S2P Require Import Prelude RustStd RustText Core CedarPlus Registry Oidc.

(** What [jsonwebtoken::decode] documents: a token is decoded only if its
    signature verifies under the key with the algorithm of the validation, the
    required claims are there, [iss] and [aud] match, and [exp] and [nbf] hold
    with the leeway. *)
Class JwtLaws `{OidcStd} `{!Jsonwebtoken} := {
  signed : string → Jwk → Algorithm → JsonValue → Prop;
  decode_signed now t k v claims : decode now t k v = Ok claims → ∃ a, a ∈ algorithms v ∧ signed t k a claims;
  decode_iss now t k v claims s : decode now t k v = Ok claims →
    json_get "iss" claims = Some (JString s) → s ∈ val_iss v;
  decode_aud now t k v claims : decode now t k v = Ok claims → "aud" ∈ required_spec_claims v →
    ∃ a, json_get "aud" claims = Some a ∧
      ((∃ s, a = JString s ∧ s ∈ val_aud v) ∨ ∃ l s, a = JArray l ∧ JString s ∈ l ∧ s ∈ val_aud v);
  decode_exp now t k v claims x e : decode now t k v = Ok claims →
    json_get "exp" claims = Some x → json_i64 x = Some e → (now ≤ e + Z.of_N (leeway v))%Z;
  decode_nbf now t k v claims x b : decode now t k v = Ok claims → validate_nbf v = true →
    json_get "nbf" claims = Some x → json_i64 x = Some b → (b ≤ now + Z.of_N (leeway v))%Z
}.

(** ** The projection of claims *)

Section payload.
Context `{SerdeJson}.
Implicit Types (m : gmap string string) (payload : JsonValue).

(** The bytes of keys and values. *)
Definition entry_size (k v : string) : N := N.of_nat (String.length k + String.length v).
Definition map_bytes m : N := map_fold (λ k v n, (entry_size k v + n)%N) 0%N m.
Lemma map_bytes_insert k v m : (map_bytes (<[k := v]> m) ≤ entry_size k v + map_bytes m)%N.
Proof.
  assert (∀ m', m' !! k = None → map_bytes (<[k := v]> m') = (entry_size k v + map_bytes m')%N) as Hnew.
  { intros m' Hm. unfold map_bytes. rewrite map_fold_insert_L; [done|intros; lia|done]. }
  destruct (m !! k) as [v'|] eqn:E; [|by rewrite Hnew].
  rewrite <-insert_delete_eq, Hnew by apply lookup_delete_eq.
  rewrite <-(insert_delete_id m k v' E) at 2.
  unfold map_bytes at 2. rewrite map_fold_insert_L by (first [intros; lia|apply lookup_delete_eq]).
  fold (map_bytes (delete k m)). lia.
Qed.

(** The entries of a projection. *)
Definition projects payload (allowlist : list string) m : Prop :=
  ∀ k v, m !! k = Some v → k ∈ allowlist ∧ ∃ raw, json_get k payload = Some raw ∧ render_claim_value raw = Some v.

Lemma project_loop_bounds payload all rest out used :
  rest ⊆ all → (size out ≤ PROJECT_MAX_ENTRIES)%nat → (map_bytes out ≤ used)%N → (used ≤ PROJECT_MAX_BYTES)%N →
  projects payload all out →
  let m := project_loop payload rest out used in
  (size m ≤ PROJECT_MAX_ENTRIES)%nat ∧ (map_bytes m ≤ PROJECT_MAX_BYTES)%N ∧ projects payload all m.
Proof.
  revert out used. induction rest as [|c rest IH]; intros out used Hsub Hsz Hb Hu Hp; cbn [project_loop]; [cbv zeta; split_and!; [exact Hsz|by transitivity used|exact Hp]|].
  assert (rest ⊆ all) by set_solver.
  destruct (PROJECT_MAX_ENTRIES <=? size out)%nat eqn:Hcap; [cbv zeta; split_and!; [exact Hsz|by transitivity used|exact Hp]|]. apply Nat.leb_gt in Hcap.
  destruct (json_get c payload) as [raw|] eqn:Hraw; [|by apply IH].
  destruct (render_claim_value raw) as [v|] eqn:Hv; [|by apply IH].
  destruct (PROJECT_MAX_BYTES <? used + _)%N eqn:Hbytes; [cbv zeta; split_and!; [exact Hsz|by transitivity used|exact Hp]|]. apply N.ltb_ge in Hbytes.
  apply IH; [done| | |done|].
  - rewrite map_size_insert. destruct (out !! c); simpl; lia.
  - pose proof (map_bytes_insert c v out). unfold entry_size in *. lia.
  - intros k w. destruct (decide (k = c)) as [->|Hne].
    + rewrite lookup_insert_eq. intros [= <-]. split; [set_solver|by eauto].
    + rewrite lookup_insert_ne by done. apply Hp.
Qed.
Lemma project_bounds payload allowlist :
  let m := project_allowlisted_claims payload allowlist in
  (size m ≤ 64)%nat ∧ (map_bytes m ≤ 4096)%N ∧ projects payload allowlist m.
Proof.
  apply project_loop_bounds; [done| | |done|].
  - rewrite map_size_empty. unfold PROJECT_MAX_ENTRIES. lia.
  - unfold map_bytes. by rewrite map_fold_empty.
  - intros k v. by rewrite lookup_empty.
Qed.
End payload.

(** ** The invariant of the shared cache *)

Section laws.
Context `{OidcStd} `{!Jsonwebtoken} `{TimeOps} (config : OidcConfig).
Implicit Types (w : World) (t : Task) (c : JwksCache).
Notation Keys := (gmap string Jwk).

(** A set of keys the source served at some moment. *)
Definition published (fresh : Keys) : Prop :=
  fresh ≠ ∅ ∧ ∃ env iss, fetch_jwks env (OidcConfig.source config) iss = Ready (Ok fresh).
Definition cache_ok (n : Instant) c : Prop :=
  cache_source c = OidcConfig.source config ∧ published (keys c) ∧
  CacheConfig.max_staleness (cache_config c) = from_secs <$> OidcConfig.max_staleness_secs config ∧
  CacheConfig.cache_ttl (cache_config c) = from_secs (OidcConfig.cache_ttl_secs config) ∧
  (last_refresh_at c ≤ n)%N.
Definition stores (t : Task) : option Keys :=
  match t with
  | Verifying _ (Refreshing (Storing fresh)) | Background (Storing fresh) => Some fresh
  | _ => None
  end.

(** What an accepted token shows: its header, the key of its [kid] in a set of
    keys the source served, its signature, its claims, and the identity made of
    them. *)
Definition shows `{!JwtLaws} (env : Env) (q : Request) (ks : Keys) (id : AttestedIdentity) : Prop :=
  ∃ jwk claims sub e iat,
    ks !! key_id q = Some jwk ∧ signed (token q) jwk (alg (header q)) claims ∧
    json_get "iss" claims = Some (JString (OidcConfig.expected_issuer config)) ∧
    json_get "sub" claims = Some (JString sub) ∧ sub ≠ ""%string ∧
    (∃ a, json_get "aud" claims = Some a ∧
      (a = JString (OidcConfig.expected_audience config) ∨
       ∃ l, a = JArray l ∧ JString (OidcConfig.expected_audience config) ∈ l)) ∧
    json_get "exp" claims ≫= json_i64 = Some e ∧
    (decode_clock env ≤ e + Z.of_N (OidcConfig.clock_skew_tolerance_secs config))%Z ∧
    json_get "iat" claims ≫= json_i64 = Some iat ∧
    (iat ≤ i64_saturating_add (current_unix_secs (system_clock env))
             (u64_as_i64 (OidcConfig.clock_skew_tolerance_secs config)))%Z ∧
    external_identity id = "oidc:" +:+ OidcConfig.expected_issuer config +:+ ":" +:+ sub ∧
    (size (attributes id) ≤ 64)%nat ∧ (map_bytes (attributes id) ≤ 4096)%N ∧
    projects claims (OidcConfig.project_claims config) (attributes id).
(** ... and of its header. *)
Definition request_ok (q : Request) : Prop :=
  decode_header (token q) = Ok (header q) ∧ kid (header q) = Some (key_id q) ∧
  alg_allowed config (alg (header q)) = true.

Lemma check_header_ok credential q : check_header config credential = Ok q →
  credential = as_bytes (token q) ∧ request_ok q.
Proof.
  unfold check_header. intros Hq. inv_ok Hq. split; [|by split].
  match goal with H : from_utf8 _ = Some _ |- _ => by apply from_utf8_Some in H as [-> _] end.
Qed.

Lemma finish_ok `{!JwtLaws} env q (ks : Keys) jwk id :
  ks !! key_id q = Some jwk → finish config env q jwk = Ok id → shows env q ks id.
Proof.
  intros Hk Hf. unfold finish in Hf. inv_ok Hf.
  match goal with H : decode _ _ _ _ = Ok _ |- _ => rename H into Hd end.
  destruct (decode_signed _ _ _ _ _ Hd) as (a & Ha & Hs). apply list_elem_of_singleton in Ha as ->.
  destruct (json_get "iss" x) as [v|] eqn:Hiss; [|done]. simpl in *. destruct v; simplify_eq/=.
  pose proof (decode_iss _ _ _ _ _ _ Hd Hiss) as Hi. apply list_elem_of_singleton in Hi as ->.
  destruct (json_get "sub" x) as [v|] eqn:Hsub; [|done]. simpl in *. destruct v; simplify_eq/=. case_decide; simplify_eq.
  destruct (decode_aud _ _ _ _ _ Hd) as (au & Hau & Hcase); [simpl; set_solver|].
  destruct (json_get "exp" x) as [v|] eqn:Hexp; [|done]. simpl in *.
  pose proof (project_bounds x (OidcConfig.project_claims config)) as (? & ? & ?).
  eexists jwk, x, _, _, _. split_and!; try done.
  - exists au. split; [done|]. destruct Hcase as [(s & -> & ->%list_elem_of_singleton)|(l & s & -> & Hl & ->%list_elem_of_singleton)]; [by left|].
    right. by exists l.
  - by rewrite Hexp.
  - by apply (decode_exp _ _ _ _ _ _ _ Hd Hexp).
  - by apply Z.leb_le.
Qed.

(** What every task of a world may be. *)
Definition task_ok `{!JwtLaws} (t : Task) : Prop :=
  match t with
  | Verifying q _ => request_ok q
  | Answered credential (Ok id) => ∃ env q ks, credential = as_bytes (token q) ∧ request_ok q ∧ published ks ∧ shows env q ks id
  | _ => True
  end ∧ ∀ fresh, stores t = Some fresh → published fresh.
(** At most one task has the lock. *)
Definition exclusive w : Prop := ∀ i j t u, tasks w !! i = Some t → tasks w !! j = Some u →
  holds t = true → holds u = true → i = j.
Definition world_ok `{!JwtLaws} w : Prop :=
  cache_ok (now w) (cache w) ∧ Forall task_ok (tasks w) ∧ exclusive w.

Lemma connect_ok env n c : connect env n config = Ready (Ok c) → cache_ok n c ∧ OidcConfig.validate config = Ok tt.
Proof.
  unfold connect, warm. intros ([] & [= Hv] & Hw)%await_ok_Ready. cbv zeta in Hw.
  apply await_ok_Ready in Hw as (fresh & Hf & [= Hc]). inv_ok Hc. split; [|done]. split_and!; try done.
  split; [|by eauto]. by apply negb_true_iff, bool_decide_eq_false in Hb.
Qed.
Lemma serving_valid w : serving config w → OidcConfig.validate config = Ok tt.
Proof. induction 1; [by eapply connect_ok|done]. Qed.

Lemma refresh_poll_ok env n c r : cache_ok n c →
  (∀ fresh, r = Storing fresh → published fresh) →
  let p := refresh_poll env n c r in
  cache_ok n p.2 ∧ ∀ fresh, p.1 = Ready (Ok (Some (Storing fresh))) → published fresh.
Proof.
  intros (Hs & Hk & Hm & Ht & Hl) Hr. destruct r as [|fresh|]; simpl.
  - split; [by split_and!|]. intros fresh (ks & Hks & [= Hf])%await_ok_Ready. inv_ok Hf. split.
    + by apply negb_true_iff, bool_decide_eq_false in Hb.
    + rewrite <-Hs. eauto.
  - split; [|done]. split_and!; try done. all: by apply Hr.
  - split; [|done]. split_and!; try done. all: simpl; lia.
Qed.

Lemma answer_ok `{!JwtLaws} env c q o t' c' new n : cache_ok n c → request_ok q →
  o = keys c !! key_id q ∨ o = None →
  answer config env c q o = Some (t', c', new) → c' = c ∧ new = [] ∧ task_ok t' ∧ holds t' = false.
Proof.
  intros (_ & Hk & _) Hq Ho [= <- <- <-]. split_and!; try done. split; [|done].
  destruct o as [jwk|]; simpl; [|done]. destruct Ho as [Ho|]; [|done].
  destruct (finish config env q jwk) as [id|e] eqn:Hf; [|done]. exists env, q, (keys c). split_and!; try done.
  by eapply finish_ok.
Qed.

(** One poll keeps the cache and the task well-formed, and the lock is taken
    only when it is free. *)
Lemma poll_ok `{!JwtLaws} env n locked c t t' c' new :
  cache_ok n c → task_ok t → poll config env n locked c t = Some (t', c', new) →
  cache_ok n c' ∧ task_ok t' ∧ (new = [] ∨ new = [Spawned]) ∧
  (holds t' = true → holds t = true ∨ locked = false).
Proof.
  intros Hc [Ht Hst] Hp. destruct t as [q p| | |r|]; try done; simpl in Hp.
  - destruct p as [| | |b|b|r|]; simpl in Hp.
    + destruct (assert_fresh n c) as [[]|e]; simplify_eq; split_and!; auto; by split.
    + unfold lookup_poll in Hp. destruct (keys c !! key_id q) eqn:Hk.
      { eapply answer_ok in Hp as (-> & -> & ? & ?); [|done|done|by left]. split_and!; auto. congruence. }
      destruct (_ || _).
      { eapply answer_ok in Hp as (-> & -> & ? & ?); [|done|done|by right]. split_and!; auto. congruence. }
      simplify_eq. split_and!; auto; by split.
    + simplify_eq. split_and!; auto; by split.
    + destruct locked; simplify_eq. split_and!; auto; by split.
    + simplify_eq. split_and!; auto. by case_decide; split.
    + pose proof (refresh_poll_ok env n c r Hc) as [Hc' Hf]; [intros fresh ->; by apply Hst|].
      destruct (refresh_poll env n c r) as [[|[[r'|]|e]] c1]; simplify_eq/=; split_and!; auto; split; try done.
      intros fresh [= Hfr]. apply Hf. destruct r'; naive_solver.
    + unfold lookup_poll in Hp. destruct (keys c !! key_id q) eqn:Hk.
      { eapply answer_ok in Hp as (-> & -> & ? & ?); [|done|done|by left]. split_and!; auto. congruence. }
      rewrite orb_true_r in Hp. eapply answer_ok in Hp as (-> & -> & ? & ?); [|done|done|by right].
      split_and!; auto. congruence.
  - simplify_eq. destruct locked; split_and!; auto; by split.
  - pose proof (refresh_poll_ok env n c r Hc) as [Hc' Hf]; [intros fresh ->; by apply Hst|].
    destruct (refresh_poll env n c r) as [[|[[r'|]|e]] c1]; simplify_eq/=; split_and!; auto; split; try done.
    intros fresh [= Hfr]. apply Hf. destruct r'; naive_solver.
Qed.

Lemma is_locked_false w i t : is_locked w = false → tasks w !! i = Some t → holds t = false.
Proof.
  unfold is_locked. intros Hl Hi. apply list_elem_of_lookup_2, list_elem_of_In in Hi.
  destruct (holds t) eqn:E; [|done]. assert (existsb holds (tasks w) = true); [|congruence].
  apply existsb_exists. eauto.
Qed.

(** Replacing a task and adding tasks without the lock. *)
Lemma exclusive_update w c n i t t' new : exclusive w → tasks w !! i = Some t →
  (holds t' = true → holds t = true ∨ is_locked w = false) → Forall (λ u, holds u = false) new →
  exclusive (mkWorld c n (<[i := t']> (tasks w) ++ new)).
Proof.
  intros Hx Hi Ht Hnew.
  assert (∀ j u, (<[i := t']> (tasks w) ++ new) !! j = Some u → holds u = true →
    (j = i ∧ u = t') ∨ (j ≠ i ∧ tasks w !! j = Some u)) as Hin.
  { intros j u Hj Hu. apply lookup_app_Some in Hj as [Hj|[_ Hj]].
    - apply list_lookup_insert_Some in Hj as [(<- & <- & _)|[Hne Hj]]; auto.
    - rewrite Forall_forall in Hnew. apply list_elem_of_lookup_2, Hnew in Hj. congruence. }
  intros a b u v Ha Hb Hu Hv. simpl in *.
  destruct (Hin _ _ Ha Hu) as [[-> ->]|[Hna Ha']], (Hin _ _ Hb Hv) as [[-> ->]|[Hnb Hb']]; try done.
  - destruct (Ht Hu) as [Htt|Hl]; [by eapply (Hx i b t v)|].
    pose proof (is_locked_false _ _ _ Hl Hb'). congruence.
  - destruct (Ht Hv) as [Htt|Hl]; [by eapply (Hx a i u t)|].
    pose proof (is_locked_false _ _ _ Hl Ha'). congruence.
  - by eapply (Hx a b u v).
Qed.

Lemma verify_ok `{!JwtLaws} credential : task_ok (verify config credential) ∧ holds (verify config credential) = false.
Proof.
  unfold verify. destruct (check_header config credential) as [q|e] eqn:E; [|by split; [split|]].
  apply check_header_ok in E as [_ ?]. by split; [split|].
Qed.

Lemma oidc_step_ok `{!JwtLaws} w w' : step config w w' → world_ok w → world_ok w'.
Proof.
  intros Hs (Hc & Ht & Hx). destruct Hs as [d|credential|i q p Hi|i env w' Hp].
  - split_and!; try done. destruct Hc as (?&?&?&?&?). split_and!; try done. simpl. lia.
  - pose proof (verify_ok credential) as [Hv Hh]. split_and!; try done.
    + apply Forall_app. split; [done|by constructor].
    + intros a b u v Ha Hb Hu Hv'. simpl in *.
      apply lookup_app_Some in Ha as [Ha|[_ Ha]];
        [|apply list_elem_of_lookup_2, list_elem_of_singleton in Ha as ->; congruence].
      apply lookup_app_Some in Hb as [Hb|[_ Hb]];
        [|apply list_elem_of_lookup_2, list_elem_of_singleton in Hb as ->; congruence].
      by eapply (Hx a b u v).
  - split_and!; try done.
    + apply Forall_insert; [done|]. by split.
    + pose proof (exclusive_update w (cache w) (now w) i _ Gone [] Hx Hi) as He.
      rewrite app_nil_r in He. apply He; [done|constructor].
  - destruct Hp as [t t' c' new Hi Hp].
    pose proof (Forall_lookup_1 _ _ _ _ Ht Hi) as Hti.
    apply poll_ok in Hp as (Hc' & Ht' & Hnew & Hh); [|done|done].
    assert (Forall task_ok new ∧ Forall (λ u, holds u = false) new) as [Hn1 Hn2].
    { destruct Hnew as [-> | ->]; split; repeat constructor; done. }
    split_and!; [done| |by eapply exclusive_update].
    apply Forall_app. split; [by apply Forall_insert|done].
Qed.
Lemma serving_ok `{!JwtLaws} w : serving config w → world_ok w.
Proof.
  induction 1 as [env n c Hc|w w' _ IH Hs]; [|by eapply oidc_step_ok].
  apply connect_ok in Hc as [Hc _]. by split_and!.
Qed.

(** ** What is accepted *)

Lemma allowed_asymmetric alg : OidcConfig.validate config = Ok tt → alg_allowed config alg = true →
  alg ∉ [HS256; HS384; HS512].
Proof.
  unfold OidcConfig.validate, alg_allowed. intros Hv (a & Ha & Heq)%existsb_exists.
  apply eq_ignore_ascii_case_eq in Heq. inv_ok Hv.
  match goal with H : collect _ _ = Ok _ |- _ => rename H into Hc end.
  assert (OidcConfig.disallowed a = false) as Hd.
  { apply collect_Ok in Hc. apply list_elem_of_In, list_elem_of_lookup in Ha as [k Ha].
    destruct (Forall2_lookup_l _ _ _ _ _ Hc Ha) as (y & _ & Hy). by inv_ok Hy; apply negb_true_iff. }
  unfold OidcConfig.disallowed in Hd. apply bool_decide_eq_false in Hd. rewrite Heq in Hd.
  intros Hin. apply Hd. clear -Hin.
  apply list_elem_of_In in Hin. simpl in Hin. destruct Hin as [<-|[<-|[<-|[]]]]; set_solver.
Qed.

(** [C30] An identity the OIDC attestor returns, whatever verifications and
    refreshes of the key cache run at the same time, comes from a token with an
    asymmetric algorithm of the operator's list, whose signature verifies under
    the key that a set of keys served by the configured source has under the
    token's [kid]; the token's issuer is the expected one, its audience has the
    expected one, it is neither expired nor issued in the future up to the clock
    skew, and the identity is made of issuer and subject, with at most 64
    attributes and 4096 bytes of them, all listed by the operator and in the
    token. *)
Theorem oidc_accepts_only `{!JwtLaws} w i credential id :
  serving config w → tasks w !! i = Some (Answered credential (Ok id)) →
  ∃ env q ks, credential = as_bytes (token q) ∧ request_ok q ∧ alg (header q) ∉ [HS256; HS384; HS512] ∧
    published ks ∧ shows env q ks id.
Proof.
  intros Hs Hi. destruct (serving_ok w Hs) as (_ & Ht & _).
  destruct (Forall_lookup_1 _ _ _ _ Ht Hi) as [(env & q & ks & Hc & Hq & Hk & Hshow) _].
  exists env, q, ks. split_and!; try done. apply allowed_asymmetric; [by eapply serving_valid|apply Hq].
Qed.

(** ** Past the window of staleness *)

(** Verifications that are at the gate, or over. *)
Definition quiet (t : Task) : bool :=
  match t with Verifying _ Checking | Answered _ _ | Gone => true | _ => false end.
Definition too_old w : Prop := is_Some (stale (now w) (cache w)) ∧ Forall (λ t, quiet t = true) (tasks w).
Definition refused (credential : bytes) (r : Result AttestedIdentity AttestorError) : Prop :=
  ∃ e, r = Err e ∧ (check_header config credential = Err e ∨ ∃ msg, e = AttestorError.TrustRootUnavailable msg).

Lemma assert_fresh_stale n c : is_Some (stale n c) →
  ∃ msg, assert_fresh n c = Err (AttestorError.TrustRootUnavailable msg).
Proof. unfold assert_fresh. intros [m ->]. destruct (is_static c); eauto. Qed.
Lemma stale_later n d c : is_Some (stale n c) → is_Some (stale (n + d) c).
Proof.
  unfold stale. destruct (CacheConfig.max_staleness (cache_config c)) as [m|]; [simpl|by intros []].
  unfold elapsed. destruct (m <? n - last_refresh_at c)%N eqn:E; [|by intros []]. intros _.
  apply N.ltb_lt in E. by replace (m <? n + d - last_refresh_at c)%N with true by (symmetry; apply N.ltb_lt; lia).
Qed.

(** One step of a stale attestor: the cache stays, nothing is refreshed, and a
    verification that ends is refused. *)
Lemma too_old_step w w' : step config w w' → too_old w →
  too_old w' ∧ cache w' = cache w ∧
  ∀ i credential r, tasks w' !! i = Some (Answered credential r) →
    tasks w !! i = Some (Answered credential r) ∨ refused credential r.
Proof.
  intros Hs [Hst Hq]. destruct Hs as [d|credential|i q p Hi|i env w' Hp].
  - split_and!; [split; [by apply stale_later|done]|done|by left].
  - assert (quiet (verify config credential) = true) as Hv by (unfold verify; by destruct (check_header _ _)).
    split_and!; [split; [done|apply Forall_app; by repeat constructor]|done|].
    intros j cred r [Hj|[_ Hj]]%lookup_app_Some; [by left|right].
    apply list_elem_of_lookup_2, list_elem_of_singleton in Hj. unfold verify in Hj.
    destruct (check_header config credential) eqn:E; simplify_eq. exists e. auto.
  - split_and!; [split; [done|by apply Forall_insert]|done|].
    intros j cred r [(_ & ? & _)|[_ Hj]]%list_lookup_insert_Some; [done|by left].
  - destruct Hp as [t t' c' new Hi Hp]. pose proof (Forall_lookup_1 _ _ _ _ Hq Hi) as Ht.
    destruct t as [q []| | | |]; try done. simpl in Hp.
    destruct (assert_fresh_stale _ _ Hst) as [msg Hf]. rewrite Hf in Hp. simplify_eq. rewrite app_nil_r.
    split_and!; [split; [done|by apply Forall_insert]|done|].
    intros j cred r [(_ & [= <- <-] & _)|[_ Hj]]%list_lookup_insert_Some; [right|by left].
    eexists. split; [done|]. right. by eexists.
Qed.

(** An OIDC attestor whose last refresh is older than the window of staleness
    while none is under way never recovers: whatever happens next and however the
    source answers, its keys stay as they are, no refresh is started, and every
    verification that ends is refused, with [TrustRootUnavailable] if its token is
    well-formed. *)
Lemma stale_for_good w w' : serving config w → too_old w → rtc (step config) w w' →
  cache w' = cache w ∧ too_old w' ∧
  ∀ i credential r, tasks w' !! i = Some (Answered credential r) →
    tasks w !! i = Some (Answered credential r) ∨ refused credential r.
Proof.
  intros _ Hold Hr. induction Hr as [w|w w1 w2 Hs _ IH]; [by split_and!; auto|].
  destruct (too_old_step _ _ Hs Hold) as (Hold1 & Hc & Ha). destruct (IH Hold1) as (Hc2 & Hold2 & Ha2).
  split_and!; [congruence|done|]. intros i cred r Hi. destruct (Ha2 _ _ _ Hi); auto.
Qed.

(** A window of zero is passed as soon as the clock has moved. *)
Lemma zero_window_rejects env n c d : OidcConfig.max_staleness_secs config = Some 0%N →
  connect env n config = Ready (Ok c) → (0 < d)%N → too_old (mkWorld c (n + d) []).
Proof.
  intros Hz Hc Hd. split; [|constructor]. unfold connect, warm in Hc.
  apply await_ok_Ready in Hc as (_ & _ & Hw). cbv zeta in Hw. apply await_ok_Ready in Hw as (fresh & _ & [= Hw]). inv_ok Hw.
  unfold stale, elapsed. simpl. rewrite Hz. simpl.
  replace (n + d - n)%N with d by lia. apply N.ltb_lt in Hd as ->. eauto.
Qed.
(** Without a window no age is too old, whatever the source. *)
Lemma no_window_accepts `{!JwtLaws} w n : serving config w → OidcConfig.max_staleness_secs config = None →
  is_ok (assert_fresh n (cache w)) = true.
Proof.
  intros Hs Hn. destruct (serving_ok w Hs) as ((_ & _ & Hm & _) & _). rewrite Hn in Hm.
  unfold assert_fresh, stale. rewrite Hm. simpl. by destruct (is_static _).
Qed.

(** ** Every verification ends *)

(** The polls a task can still take, those of the refresh it spawns included. *)
Definition refresh_weight (r : Refresh) : nat := match r with Fetching => 3 | Storing _ => 2 | Stamping => 1 end.
Definition weight (t : Task) : nat :=
  match t with
  | Verifying _ p =>
      match p with
      | Checking => 13 | Looking => 8 | Missing => 7 | Queued _ => 6 | Comparing _ => 5
      | Refreshing r => 1 + refresh_weight r | Retrying => 1
      end
  | Spawned => 4
  | Background r => refresh_weight r
  | Answered _ _ | Gone => 0
  end.
Definition total w : nat := sum_list (weight <$> tasks w).

Lemma refresh_weight_poll env n c r r' : (refresh_poll env n c r).1 = Ready (Ok (Some r')) →
  (refresh_weight r' < refresh_weight r)%nat.
Proof.
  destruct r; simpl; [intros (ks & _ & [= Hr])%await_ok_Ready; inv_ok Hr|intros [= <-]|done]; simpl; lia.
Qed.
Lemma weight_poll env n locked c t t' c' new : poll config env n locked c t = Some (t', c', new) →
  (weight t' + sum_list (weight <$> new) < weight t)%nat.
Proof.
  intros Hp. destruct t as [q p| | |r|]; try done; simpl in Hp.
  - destruct p as [| | |b|b|r|]; simpl in Hp.
    + destruct (assert_fresh n c) as [[]|]; simplify_eq; simpl; lia.
    + unfold lookup_poll, answer in Hp. repeat case_match; simplify_eq; simpl; lia.
    + simplify_eq; simpl; lia.
    + destruct locked; simplify_eq; simpl; lia.
    + simplify_eq. case_decide; simpl; lia.
    + pose proof (refresh_weight_poll env n c r) as Hw.
      destruct (refresh_poll env n c r) as [[|[[r'|]|e]] c1]; simplify_eq/=; [specialize (Hw r' eq_refl)| |]; destruct r; simpl in *; lia.
    + unfold lookup_poll, answer in Hp. rewrite orb_true_r in Hp. repeat case_match; simplify_eq; simpl; lia.
  - destruct locked; simplify_eq; simpl; lia.
  - pose proof (refresh_weight_poll env n c r) as Hw.
    destruct (refresh_poll env n c r) as [[|[[r'|]|e]] c1]; simplify_eq/=; [specialize (Hw r' eq_refl)| |]; destruct r; simpl in *; lia.
Qed.
Lemma sum_list_insert (l : list nat) i x y : l !! i = Some x → (sum_list (<[i := y]> l) + x = sum_list l + y)%nat.
Proof. revert i. induction l as [|z l IH]; intros [|i] Hi; simplify_eq/=; [lia|]. apply IH in Hi. lia. Qed.
Lemma total_polls i env w w' : polls config i env w w' → (total w' < total w)%nat.
Proof.
  intros [t t' c' new Hi Hp]. apply weight_poll in Hp. unfold total. simpl.
  rewrite fmap_app, sum_list_with_app, list_fmap_insert.
  pose proof (sum_list_insert (weight <$> tasks w) i (weight t) (weight t')) as Hs.
  rewrite list_lookup_fmap, Hi in Hs. specialize (Hs eq_refl). lia.
Qed.

(** [n] polls of tasks while time passes. *)
Inductive polled : nat → World → World → Prop :=
| polled_none w : polled 0 w w
| polled_tick n d w w' : polled n (mkWorld (cache w) (now w + d) (tasks w)) w' → polled n w w'
| polled_poll n i env w w1 w' : polls config i env w w1 → polled n w1 w' → polled (S n) w w'.
Lemma polled_total n w w' : polled n w w' → (n + total w' ≤ total w)%nat.
Proof. induction 1 as [| |n i env w w1 w' Hp _ IH]; [lia|done|]. apply total_polls in Hp. lia. Qed.
Lemma total_bound w : (total w ≤ 13 * length (tasks w))%nat.
Proof.
  unfold total. induction (tasks w) as [|t l IH]; [done|].
  change (weight t + sum_list (weight <$> l) ≤ 13 * S (length l))%nat.
  assert (weight t ≤ 13)%nat; [|lia]. destruct t as [? []| | |r|]; simpl; try lia; destruct r; simpl; lia.
Qed.

(** A refresh whose fetch is under way, and a source that does not answer it. *)
Definition fetching (t : Task) : bool :=
  match t with Verifying _ (Refreshing Fetching) | Background Fetching => true | _ => false end.
Definition silent (env : Env) : Prop := fetch_jwks env (OidcConfig.source config) "" = Pending.
(** All that is not over waits for the source: one refresh for its answer, the
    verifications behind it for the lock. *)
Definition starved (env : Env) w : Prop :=
  silent env ∧ ∃ i t, tasks w !! i = Some t ∧ fetching t = true ∧
    ∀ j u, tasks w !! j = Some u → weight u ≠ 0%nat → j = i ∨ ∃ q before, u = Verifying q (Queued before).

Lemma refresh_poll_Pending env n c r : (refresh_poll env n c r).1 = Pending →
  r = Fetching ∧ fetch_jwks env (cache_source c) "" = Pending.
Proof. destruct r; simpl; [|done..]. destruct (fetch_jwks _ _ _) as [|[]]; done. Qed.
Lemma silent_waits env n locked c t : fetch_jwks env (cache_source c) "" = Pending → fetching t = true →
  poll config env n locked c t = None.
Proof. intros He Ht. destruct t as [q []| | |[]|]; try done; try destruct r; try done; simpl; by rewrite He. Qed.

(** A task that is not over can be polled, unless it waits for the lock or for
    the answer to its own fetch. *)
Lemma poll_enabled env n locked c t : weight t ≠ 0%nat →
  (∃ p, poll config env n locked c t = Some p) ∨
  (fetching t = true ∧ fetch_jwks env (cache_source c) "" = Pending) ∨
  (locked = true ∧ ∃ q before, t = Verifying q (Queued before)).
Proof.
  intros Hw. destruct t as [q p| | |r|]; try done; simpl.
  - destruct p as [| | |b|b|r|]; simpl; eauto.
    + left. destruct (assert_fresh n c); eauto.
    + left. unfold lookup_poll, answer. repeat case_match; eauto.
    + destruct locked; eauto 10.
    + pose proof (refresh_poll_Pending env n c r) as Hp.
      destruct (refresh_poll env n c r) as [[|[[r'|]|e]] c1]; simpl in *; eauto.
      right; left. by destruct (Hp eq_refl) as [-> ?].
    + left. unfold lookup_poll, answer. rewrite orb_true_r. repeat case_match; eauto.
  - left. eauto.
  - pose proof (refresh_poll_Pending env n c r) as Hp.
    destruct (refresh_poll env n c r) as [[|[[r'|]|e]] c1]; simpl in *; eauto.
    right; left. by destruct (Hp eq_refl) as [-> ?].
Qed.

Lemma polls_lookup i env w t p : tasks w !! i = Some t →
  poll config env (now w) (is_locked w) (cache w) t = Some p → ∃ w', polls config i env w w'.
Proof. destruct p as [[t' c'] new]. intros. eexists. by econstructor. Qed.

(** What cannot be polled waits for the source. *)
Lemma progress_or_starved `{!JwtLaws} env w : serving config w → Exists (λ t, weight t ≠ 0%nat) (tasks w) →
  (∃ i w', polls config i env w w') ∨ starved env w.
Proof.
  intros Hs (t & Ht & Hw)%Exists_exists. destruct (serving_ok w Hs) as ((Hsrc & _) & _ & Hx).
  apply list_elem_of_lookup in Ht as [k Hk].
  assert (∃ i u, tasks w !! i = Some u ∧ weight u ≠ 0%nat ∧ (holds u = true ∨ is_locked w = false)) as (i & u & Hi & Hwu & Hlu).
  { destruct (is_locked w) eqn:Hl; [|by eauto 10]. apply existsb_exists in Hl as (u & Hu & Hh).
    apply list_elem_of_In, list_elem_of_lookup in Hu as [i Hi]. exists i, u. split_and!; [done| |by left].
    destruct u as [? []| | |[]|]; simpl; done || lia. }
  destruct (poll_enabled env (now w) (is_locked w) (cache w) u Hwu) as [[p Hp]|[[Hf He]|(Hl & q & b & ->)]].
  - left. destruct (polls_lookup i env w u p Hi Hp) as [w' ?]. eauto.
  - destruct (decide (Exists (λ v, is_Some (poll config env (now w) (is_locked w) (cache w) v)) (tasks w))) as [Hex|Hno].
    { left. apply Exists_exists in Hex as (v & Hv & [p Hp]). apply list_elem_of_lookup in Hv as [j Hj].
      destruct (polls_lookup j env w v p Hj Hp) as [w' ?]. eauto. }
    right. split; [by unfold silent; rewrite <-Hsrc|]. exists i, u. split_and!; [done|done|]. intros j v Hj Hv.
    destruct (poll_enabled env (now w) (is_locked w) (cache w) v Hv) as [[p Hp]|[[Hfv _]|(_ & ?)]]; [| |by right].
    + destruct Hno. apply Exists_exists. exists v. split; [by apply list_elem_of_lookup_2 in Hj|]. by exists p.
    + left. apply (Hx j i v u Hj Hi); [by destruct v as [? []| | |[]|]; try done; destruct r|].
      by destruct u as [? []| | |[]|]; try done; destruct r.
  - destruct Hlu as [|]; [done|congruence].
Qed.
Lemma starved_no_poll `{!JwtLaws} env w i w' : serving config w → starved env w → polls config i env w w' → False.
Proof.
  intros Hs (He & k & t & Hk & Hf & Hall) [u u' c' new Hi Hp]. destruct (serving_ok w Hs) as ((Hsrc & _) & _ & _).
  unfold silent in He. rewrite <-Hsrc in He.
  assert (weight u ≠ 0%nat) as Hu by (destruct u as [? []| | |[]|]; simpl; try done; lia).
  destruct (Hall i u Hi Hu) as [->|(q & b & ->)].
  - simplify_eq. by rewrite silent_waits in Hp.
  - simpl in Hp. assert (is_locked w = true) as Hl; [|by rewrite Hl in Hp].
    apply existsb_exists. exists t. split; [by apply list_elem_of_In, (list_elem_of_lookup_2 _ k)|].
    destruct t as [? []| | |[]|]; try done; by destruct r.
Qed.

(** [C37] Verifications end while the source answers: from any reachable state of
    the OIDC attestor, at most thirteen polls per task get on before all are over,
    however polls and the passing of time interleave and whatever the network
    answers.  As long as one is not over some task can be polled - the lock of the
    refreshes does not block them all - with one exception, exactly: a source that
    does not answer the fetch of the one refresh that has the lock, for which no
    timeout is set, while all other verifications that are not over are queued
    behind it; a file never does that.  At most one task holds the lock. *)
Theorem oidc_verifications_end `{!JwtLaws} w : serving config w →
  (∀ n w', polled n w w' → (n ≤ 13 * length (tasks w))%nat) ∧
  (∀ env, Exists (λ t, weight t ≠ 0%nat) (tasks w) →
    ((∃ i w', polls config i env w w') ∨ starved env w) ∧ (starved env w → ∀ i w', ¬ polls config i env w w')) ∧
  (∀ env, JwksSource.is_static (OidcConfig.source config) = true → ¬ starved env w) ∧
  exclusive w.
Proof.
  intros Hs. destruct (serving_ok w Hs) as (_ & _ & Hx). split_and!; [| | |done].
  - intros n w' Hp. apply polled_total in Hp. pose proof (total_bound w). lia.
  - intros env Hex. split; [by apply progress_or_starved|]. intros Hst i w' Hp. by eapply starved_no_poll.
  - intros env Hst [He _]. unfold silent in He. by destruct (OidcConfig.source config).
Qed.

(** One step while the source stays silent and the client of the [i]-th task
    stays. *)
Inductive silent_step (i : nat) w : World → Prop :=
| silent_tick d : silent_step i w (mkWorld (cache w) (now w + d) (tasks w))
| silent_verify credential :
    silent_step i w (mkWorld (cache w) (now w) (tasks w ++ [verify config credential]))
| silent_cancel j q p : j ≠ i → tasks w !! j = Some (Verifying q p) →
    silent_step i w (mkWorld (cache w) (now w) (<[j := Gone]> (tasks w)))
| silent_poll j env w' : silent env → polls config j env w w' → silent_step i w w'.
Lemma silent_step_step i w w' : silent_step i w w' → step config w w'.
Proof.
  intros [d|credential|j q p _ Hj|j env w1 _ Hp];
    [apply step_tick|apply step_verify|by eapply step_cancel|by eapply step_poll].
Qed.

(** A verification that has not come to the lock and whose key is not cached, or
    what becomes of it: refused as stale, or given up by its client. *)
Definition kept_waiting (c : JwksCache) (t : Task) : Prop :=
  match t with
  | Verifying q (Checking | Looking | Missing | Queued _) => keys c !! key_id q = None
  | Answered _ r => ∃ msg, r = Err (AttestorError.TrustRootUnavailable msg)
  | Gone => True
  | _ => False
  end.
Lemma kept_waiting_poll env n c t t' c' new : is_static c = false → kept_waiting c t →
  poll config env n true c t = Some (t', c', new) → kept_waiting c t'.
Proof.
  intros Hst Hk Hp. destruct t as [q []| | | |]; try done; simpl in *.
  - unfold assert_fresh in Hp. rewrite Hst in Hp. destruct (stale n c); simplify_eq/=; [by eexists|done].
  - unfold lookup_poll in Hp. rewrite Hk, Hst in Hp. simpl in Hp. by simplify_eq.
  - by simplify_eq.
Qed.
(** One silent step leaves the fetch, the cache, and whoever waits. *)
Lemma silent_step_keeps `{!JwtLaws} i w w' t : serving config w → tasks w !! i = Some t → fetching t = true →
  silent_step i w w' → tasks w' !! i = Some t ∧ cache w' = cache w ∧
  ∀ j u, tasks w !! j = Some u → kept_waiting (cache w) u →
    ∃ u', tasks w' !! j = Some u' ∧ kept_waiting (cache w) u'.
Proof.
  intros Hs Hi Hf Hstep. destruct Hstep as [d|credential|j q p Hne Hj|j env w1 He Hp].
  - split_and!; eauto.
  - simpl. split_and!; [by apply lookup_app_l_Some|done|]. intros j u Hj Hu. exists u. split; [by apply lookup_app_l_Some|done].
  - simpl. split_and!; [by rewrite list_lookup_insert_ne|done|]. intros k u Hk Hu.
    destruct (decide (j = k)) as [->|Hjk]; [|exists u; by rewrite list_lookup_insert_ne].
    exists Gone. split; [|done]. apply list_lookup_insert_eq. by eapply lookup_lt_Some.
  - destruct (serving_ok w Hs) as ((Hsrc & _) & _ & Hx). unfold silent in He. rewrite <-Hsrc in He.
    destruct Hp as [u u' c' new Hj Hp].
    assert (j ≠ i) as Hne by (intros ->; simplify_eq; by rewrite silent_waits in Hp).
    assert (holds t = true) as Ht by (destruct t as [? []| | |[]|]; try done; by destruct r).
    assert (is_locked w = true) as Hl by (apply existsb_exists; exists t; split; [by apply list_elem_of_In, (list_elem_of_lookup_2 _ i)|done]).
    assert (c' = cache w) as ->.
    { destruct (holds u) eqn:Hu; [destruct Hne; by apply (Hx j i u t)|]. rewrite Hl in Hp.
      destruct u as [q []| | | |]; try done; simpl in Hp; unfold lookup_poll, answer in Hp; repeat case_match; by simplify_eq. }
    split_and!; [simpl; apply lookup_app_l_Some; by rewrite list_lookup_insert_ne|done|].
    intros k v Hk Hv. destruct (decide (j = k)) as [->|Hjk]; simpl.
    + simplify_eq. exists u'. split; [apply lookup_app_l_Some, list_lookup_insert_eq; by eapply lookup_lt_Some|].
      rewrite Hl in Hp. eapply kept_waiting_poll; [|done|done]. unfold is_static. by destruct (cache_source (cache w)).
    + exists v. split; [|done]. apply lookup_app_l_Some. by rewrite list_lookup_insert_ne.
Qed.

(** While the source stays silent and the client of the fetching refresh, if it has
    one, stays, the refresh never ends, the cache stays as it is, and no
    verification whose key is not cached gets an answer, other than that the cache
    has become too old. *)
Lemma silence_blocks `{!JwtLaws} i w w' t : serving config w → tasks w !! i = Some t → fetching t = true →
  rtc (silent_step i) w w' → tasks w' !! i = Some t ∧ cache w' = cache w ∧
  ∀ j u, tasks w !! j = Some u → kept_waiting (cache w) u →
    ∃ u', tasks w' !! j = Some u' ∧ kept_waiting (cache w) u'.
Proof.
  intros Hs Hi Hf Hr. induction Hr as [w|w w1 w2 Hstep _ IH]; [by split_and!; eauto|].
  destruct (silent_step_keeps i w w1 t Hs Hi Hf Hstep) as (Hi1 & Hc1 & Hk1).
  destruct IH as (Hi2 & Hc2 & Hk2); [by eapply serving_step, silent_step_step|done|].
  split_and!; [done|congruence|]. intros j u Hj Hu. destruct (Hk1 j u Hj Hu) as (v & Hv & Hkv).
  rewrite <-Hc1 in *. by eapply Hk2.
Qed.
End laws.

(** ** Concrete runs

    One token, [good], signed by the key [key] that the source serves under the
    [kid] of the token. *)

Module OidcToy.
#[global] Instance json : SerdeJson := {| JsonNumber := Z; json_to_vec _ := [] |}.
#[global] Instance std : OidcStd := {|
  as_i64 n := Some n; from_json _ := None; json_error _ := "expected value"%string;
  OffsetDateTime := Z; from_unix_timestamp n := Ok n; format_rfc3339 n := Ok (show_Z n) |}.
#[global] Instance time : TimeOps := {| parse_rfc3339 _ := Some 0%Z; parse_rfc3339_error _ := ""%string |}.
Definition claims : JsonValue :=
  JObject [("iss", JString "https://i"); ("sub", JString "alice"); ("aud", JString "yutha");
           ("exp", JNumber 100%Z); ("iat", JNumber 1%Z); ("groups", JArray [JString "admin"; JString "auditor"])]%string.
Definition valid (now : Z) (v : Validation) : bool :=
  bool_decide (RS256 ∈ algorithms v) && bool_decide ("https://i"%string ∈ val_iss v) &&
  bool_decide ("yutha"%string ∈ val_aud v) && (now <=? 100 + Z.of_N (leeway v))%Z.
#[global] Instance jwt : Jsonwebtoken := {|
  RawJwk := string; Jwk := string; jwk_set_from_str body := Ok [body]; from_jsonwebkey_ref raw := Ok ("k1"%string, raw);
  decode_header t := if decide (t = "good"%string) then Ok (mkHeader RS256 None (Some "k1"%string)) else Err InvalidToken;
  decode now t k v :=
    if decide (t = "good"%string ∧ k = "key"%string) then if valid now v then Ok claims else Err OtherKind
    else Err InvalidSignature |}.
Lemma decoded now t k v c : decode now t k v = Ok c →
  t = "good"%string ∧ k = "key"%string ∧ c = claims ∧ RS256 ∈ algorithms v ∧ "https://i"%string ∈ val_iss v ∧
  "yutha"%string ∈ val_aud v ∧ (now ≤ 100 + Z.of_N (leeway v))%Z.
Proof.
  simpl. case_decide as Ht; [|done]. destruct (valid now v) eqn:Hv; [|done]. intros [= <-].
  unfold valid in Hv. rewrite !andb_true_iff, !bool_decide_eq_true, Z.leb_le in Hv. naive_solver.
Qed.
#[global] Instance laws : JwtLaws.
Proof.
  refine (Build_JwtLaws _ _ _ (λ t k a c, t = "good"%string ∧ k = "key"%string ∧ a = RS256 ∧ c = claims) _ _ _ _ _).
  - intros now t k v c Hd%decoded. exists RS256. naive_solver.
  - intros now t k v c s Hd%decoded. destruct Hd as (_ & _ & -> & _ & Hi & _). by intros [= <-].
  - intros now t k v c Hd%decoded. destruct Hd as (_ & _ & -> & _ & _ & Ha & _). intros _.
    exists (JString "yutha"%string). split; [done|]. left. by exists "yutha"%string.
  - intros now t k v c x e Hd%decoded. destruct Hd as (_ & _ & -> & _ & _ & _ & He). by intros [= <-] [= <-].
  - intros now t k v c x b Hd%decoded. destruct Hd as (_ & _ & -> & _). by intros _ [= ?].
Defined.
Definition config : OidcConfig :=
  OidcConfig.mk (JwksSource.JwksUri "https://i/jwks") "https://i" "yutha" ["RS256"] ["groups"; "email"] 60 (Some 0%N) 60 10 false.
(** The source answers; it is 130 s past the epoch, 30 s after the token's expiry. *)
Definition env : Env :=
  mkEnv (Ok tt) (λ _, Ready (Ok (mkResponse 200 (Ready (Ok "key"%string))))) (Ok tt) (λ _, Ready (Err "down"%string)) (λ _, Err "no file"%string)
    130 (Some 130%N).
Definition start : JwksCache := default (mkCache (JwksSource.StaticFile "") ∅ 0 (CacheConfig.mk 0 None 0)) (match connect env 0 config with Ready r => result_ok r | Pending => None end).
Definition q : Request := mkRequest "good" (mkHeader RS256 None (Some "k1"%string)) "k1".
Definition good : bytes := as_bytes "good".
Definition w0 : World := mkWorld start 0 [].
Definition w1 : World := mkWorld start 0 [Verifying q Checking].
Definition w2 : World := mkWorld start 0 [Verifying q Looking].
Definition alice : AttestedIdentity :=
  mkAttestedIdentity "oidc:https://i:alice" (Some (Timestamp.mk "100" 0)) {["groups"%string := "admin,auditor"%string]}.
Definition w3 : World := mkWorld start 0 [Answered good (Ok alice)].
Lemma started : serving config w0.
Proof. apply (serving_start config env 0 start). vm_compute. reflexivity. Qed.
Lemma waiting : serving config w1.
Proof. apply serving_step with w0; [exact started|]. exact (step_verify config w0 good). Qed.
Lemma accepted : serving config w3.
Proof.
  apply serving_step with w2; [apply serving_step with w1; [exact waiting|]|].
  - apply (step_poll _ _ 0 env). apply (polls_intro config 0 env w1 (Verifying q Checking) (Verifying q Looking) start []); done.
  - apply (step_poll _ _ 0 env).
    apply (polls_intro config 0 env w2 (Verifying q Looking) (Answered good (Ok alice)) start []); [done|].
    vm_compute. reflexivity.
Qed.
(** One nanosecond later nothing is accepted any more. *)
Definition late : World := mkWorld start 1 [].
Definition refusal : Task :=
  Answered good (Err (AttestorError.TrustRootUnavailable "JWKS stale: last refresh was 0s ago; max staleness window is 0s")).
Definition late1 : World := mkWorld start 1 [Verifying q Checking].
Definition late2 : World := mkWorld start 1 [refusal].
Lemma late_serving : serving config late.
Proof. apply serving_step with w0; [exact started|]. exact (step_tick config w0 1). Qed.
Lemma late_old : too_old late.
Proof. by apply (zero_window_rejects config env 0 start 1); [done|vm_compute; reflexivity|]. Qed.
Lemma late_run : rtc (step config) late late2.
Proof.
  apply rtc_l with late1; [exact (step_verify config late good)|]. apply rtc_once, (step_poll _ _ 0 env).
  apply (polls_intro config 0 env late1 (Verifying q Checking) refusal start []); [done|]. vm_compute. reflexivity.
Qed.
(** Without a window of staleness: past the time to live a refresh starts, and the
    source accepts the connection and says nothing more. *)
Definition patient : OidcConfig :=
  OidcConfig.mk (JwksSource.JwksUri "https://i/jwks") "https://i" "yutha" ["RS256"] [] 60 None 60 10 false.
Definition warmed : JwksCache :=
  mkCache (OidcConfig.source patient) {["k1"%string := "key"%string]} 0 (CacheConfig.mk (from_secs 60) None (from_secs 10)).
Definition past : Instant := from_secs 61.
Definition hung : Env := mkEnv (Ok tt) (λ _, Pending) (Ok tt) (λ _, Pending) (λ _, Err "no file"%string) 130 (Some 130%N).
Definition blocked : World := mkWorld warmed past [Verifying q Looking; Background Fetching].
Lemma blocked_serving : serving patient blocked.
Proof.
  apply serving_step with (mkWorld warmed past [Verifying q Looking; Spawned]).
  { apply serving_step with (mkWorld warmed past [Verifying q Checking]).
    { apply serving_step with (mkWorld warmed past []).
      { apply serving_step with (mkWorld warmed 0 []).
        { apply (serving_start patient env 0 warmed). vm_compute. reflexivity. }
        exact (step_tick patient (mkWorld warmed 0 []) past). }
      exact (step_verify patient (mkWorld warmed past []) good). }
    apply (step_poll _ _ 0 env).
    by apply (polls_intro patient 0 env (mkWorld warmed past [Verifying q Checking]) (Verifying q Checking) (Verifying q Looking) warmed [Spawned]). }
  apply (step_poll _ _ 1 hung).
  by apply (polls_intro patient 1 hung (mkWorld warmed past [Verifying q Looking; Spawned]) Spawned (Background Fetching) warmed []).
Qed.
(** Once that verification has its answer, all that is left waits for the source. *)
Lemma starves : ∃ w, serving patient w ∧ starved patient hung w.
Proof.
  pose (said := Answered good (Ok (mkAttestedIdentity "oidc:https://i:alice" (Some (Timestamp.mk "100" 0)) ∅))).
  exists (mkWorld warmed past [said; Background Fetching]). split.
  - apply serving_step with blocked; [exact blocked_serving|]. apply (step_poll _ _ 0 env).
    apply (polls_intro patient 0 env blocked (Verifying q Looking) said warmed []); [done|]. vm_compute. reflexivity.
  - split; [done|]. exists 1, (Background Fetching). split_and!; [done|done|].
    intros [|[|j]] u Hj Hu; simplify_eq/=. by left.
Qed.
End OidcToy.

Lemma oidc_accepts_only_witness :
  ∃ env q ks, OidcToy.good = as_bytes (token q) ∧ request_ok OidcToy.config q ∧ alg (header q) ∉ [HS256; HS384; HS512] ∧
    published OidcToy.config ks ∧ shows OidcToy.config env q ks OidcToy.alice.
Proof. exact (oidc_accepts_only OidcToy.config OidcToy.w3 0 OidcToy.good OidcToy.alice OidcToy.accepted eq_refl). Defined.

Lemma stale_for_good_witness :
  cache OidcToy.late2 = cache OidcToy.late ∧ refused OidcToy.config OidcToy.good
    (Err (AttestorError.TrustRootUnavailable "JWKS stale: last refresh was 0s ago; max staleness window is 0s")).
Proof.
  destruct (stale_for_good OidcToy.config OidcToy.late OidcToy.late2 OidcToy.late_serving OidcToy.late_old OidcToy.late_run)
    as (Hc & _ & Ha).
  split; [exact Hc|]. destruct (Ha 0 OidcToy.good _ eq_refl) as [Hf|Hf]; [discriminate Hf|exact Hf].
Defined.

Lemma oidc_verifications_end_witness :
  (∀ n w', polled OidcToy.patient n OidcToy.blocked w' → (n ≤ 26)%nat) ∧ exclusive OidcToy.blocked ∧
  ((∃ i w', polls OidcToy.patient i OidcToy.hung OidcToy.blocked w') ∨ starved OidcToy.patient OidcToy.hung OidcToy.blocked).
Proof.
  destruct (oidc_verifications_end OidcToy.patient OidcToy.blocked OidcToy.blocked_serving) as (Hn & He & _ & Hx).
  split; [exact Hn|]. split; [exact Hx|]. apply He. left. done.
Defined.

Lemma silence_blocks_witness :
  ∀ w', rtc (silent_step OidcToy.patient 1) OidcToy.blocked w' → tasks w' !! 1%nat = Some (Background Fetching).
Proof.
  intros w' Hr.
  exact (proj1 (silence_blocks OidcToy.patient 1 OidcToy.blocked w' (Background Fetching) OidcToy.blocked_serving eq_refl eq_refl Hr)).
Defined.
