(* ===== verification/Spiffe.v ===== *)
(** * [yutha-attestor-spiffe]: the attestor that checks JWT-SVIDs

    The configuration, the trust bundle from a file or from the Workload API, the
    checks of a token, the projection of its selectors, and what they admit.  The
    [spiffe] crate - parsing and validating a JWT-SVID against a source of
    bundles, the stream of the Workload API - and the JSON and base64 parsers are
    parameters. *)

From S2P Require Import Prelude RustStd RustText Core CedarPlus Registry Oidc.

(** ** The crates behind it *)

(** [spiffe::JwtSvidError], which is non-exhaustive; a payload the source does
    not read is left out. *)
Inductive JwtSvidError :=
| InvalidJwtFormat | InvalidBase64 | InvalidJson | MissingKeyId | InvalidTyp | UnsupportedAlgorithm
| BackendUnsupportedAlgorithm | InvalidSubject | InvalidAuthorityJwk | InvalidExpiration | SvidInvalidAudience
| BundleNotFound | AuthorityNotFound | SvidInvalidToken (kind : ErrorKind) | BundleSourceError (inner : string)
| JwtVerifyNotEnabled | OtherSvidError.

(** Trust domains, bundles of authorities, validated tokens with their SPIFFE id
    and expiry, and the operations on them; [parse_and_validate] asks the source
    of bundles it is given. *)
Class SpiffeOps `{OidcStd} := {
  TrustDomain : Type;
  TrustDomain_eq_dec :: EqDecision TrustDomain;
  trust_domain_try_from : string → Result TrustDomain string;
  JwtBundle : Type;
  trust_domain : JwtBundle → TrustDomain;
  from_jwt_authorities : TrustDomain → bytes → Result JwtBundle string;
  JwtSvid : Type;
  spiffe_id : JwtSvid → string;
  expiry : JwtSvid → OffsetDateTime;
  parse_and_validate : Z → string → (TrustDomain → Result (option JwtBundle) string) → list string →
    Result JwtSvid JwtSvidError;
  base64_url_decode : string → option bytes;
  json_from_slice : bytes → Result JsonValue string;
  (** [v.as_f64().map(|f| f as i64)] of a number *)
  f64_as_i64 : JsonNumber → option Z
}.

(** The Workload API at one moment: whether the source is healthy, and the
    bundles it has. *)
Record Workload `{SpiffeOps} := mkWorkload {
  is_healthy : bool; workload_bundle : TrustDomain → Result (option JwtBundle) string }.

(** ** source.rs, config.rs *)

Module TrustBundleSource.
(* yutha-attestor-spiffe/src/source.rs:59-87 TrustBundleSource *)
Inductive TrustBundleSource := StaticFile (path : string) | WorkloadApi (socket : string).
(* yutha-attestor-spiffe/src/source.rs:93-98 TrustBundleSource::tag *)
Definition tag (self : TrustBundleSource) : string :=
  match self with StaticFile _ => "static-file" | WorkloadApi _ => "workload-api" end.
End TrustBundleSource.
Notation TrustBundleSource := TrustBundleSource.TrustBundleSource.

Module SpiffeConfig.
(* yutha-attestor-spiffe/src/config.rs:21-60 SpiffeConfig *)
Record SpiffeConfig := mk {
  source : TrustBundleSource; expected_audience : string; max_staleness : option N;
  clock_skew_tolerance_secs : N; connect_timeout_secs : N }.
(* yutha-attestor-spiffe/src/config.rs:76-90 SpiffeConfig::validate *)
Definition validate (self : SpiffeConfig) : Result unit AttestorError :=
  require negb (bool_decide (expected_audience self = ""))
    else AttestorError.Internal "SpiffeConfig.expected_audience must be non-empty; pass a swarm-specific value via --attestor-spiffe-audience" in
  require negb (bool_decide (connect_timeout_secs self = 0%N))
    else AttestorError.Internal "SpiffeConfig.connect_timeout_secs must be > 0" in
  Ok tt.
End SpiffeConfig.
Notation SpiffeConfig := SpiffeConfig.SpiffeConfig.

(** ** error.rs *)

(* yutha-attestor-spiffe/src/error.rs:127-149 map_jwt_token_error *)
Definition map_jwt_token_error (kind : ErrorKind) : AttestorError :=
  match kind with
  | ExpiredSignature => AttestorError.Rejected "credential expired"
  | InvalidAudience => AttestorError.Rejected "audience mismatch"
  | ImmatureSignature => AttestorError.Rejected "nbf in the future"
  | InvalidIssuer => AttestorError.Rejected "issuer mismatch"
  | _ => AttestorError.Rejected "signature verification failed"
  end.
(* yutha-attestor-spiffe/src/error.rs:31-112 map_spiffe_error *)
Definition map_spiffe_error (err : JwtSvidError) : AttestorError :=
  match err with
  | InvalidJwtFormat => AttestorError.Malformed "not a JWS compact serialization"
  | InvalidBase64 => AttestorError.Malformed "JWT header/claims base64url decode failed"
  | InvalidJson => AttestorError.Malformed "payload not JSON"
  | MissingKeyId => AttestorError.Malformed "header: missing kid"
  | InvalidTyp => AttestorError.Malformed "header: unsupported typ"
  | UnsupportedAlgorithm | BackendUnsupportedAlgorithm => AttestorError.Malformed "header: unsupported alg"
  | InvalidSubject => AttestorError.Malformed "sub is not a SPIFFE ID"
  | InvalidAuthorityJwk => AttestorError.Malformed "authority JWK in the trust bundle could not be parsed"
  | InvalidExpiration => AttestorError.Rejected "credential expired"
  | SvidInvalidAudience => AttestorError.Rejected "audience mismatch"
  | BundleNotFound => AttestorError.Rejected "trust domain not in bundle"
  | AuthorityNotFound => AttestorError.Rejected "kid not found in trust bundle"
  | SvidInvalidToken kind => map_jwt_token_error kind
  | BundleSourceError inner => AttestorError.TrustRootUnavailable ("bundle source error: " +:+ inner)
  | JwtVerifyNotEnabled => AttestorError.Internal "offline JWT verification backend not enabled in this build — yutha-attestor-spiffe Cargo.toml should enable the `jwt-verify-rust-crypto` feature of the spiffe crate"
  | OtherSvidError => AttestorError.Internal "unexpected SPIFFE SDK error variant: non-exhaustive-fallback"
  end.

Section spiffe.
Context `{SpiffeOps} `{TimeOps}.

(** ** payload.rs *)

(* yutha-attestor-spiffe/src/payload.rs:34-45 ExtraClaims *)
Record ExtraClaims := mkExtra { iat : option Z; nbf : option Z; selectors : option (gmap string string) }.
(* yutha-attestor-spiffe/src/payload.rs:102-104 value_as_unix_seconds *)
Definition value_as_unix_seconds (v : JsonValue) : option Z :=
  match json_i64 v with
  | Some n => Some n
  | None => match v with JNumber n => f64_as_i64 n | _ => None end
  end.
(* yutha-attestor-spiffe/src/payload.rs:110-118 extract_string_map *)
Definition extract_string_map (v : JsonValue) : option (gmap string string) :=
  match v with
  | JObject obj =>
      entries ← mapM (λ m, s ← as_str m.2; Some (m.1, s)) obj;
      Some (foldl (λ out m, <[m.1 := m.2]> out) ∅ entries)
  | _ => None
  end.
(* yutha-attestor-spiffe/src/payload.rs:61-95 decode_extra_claims *)
Definition decode_extra_claims (token : string) : Result ExtraClaims AttestorError :=
  let? payload_segment := ok_or (str_split "."%char token !! 1%nat)
                            (AttestorError.Malformed "token does not contain a payload segment") in
  let? bytes := ok_or (base64_url_decode payload_segment)
                  (AttestorError.Malformed "JWT payload base64url decode failed") in
  let? value := map_err (λ _, AttestorError.Malformed "payload not JSON") (json_from_slice bytes) in
  match value with
  | JObject _ =>
      Ok (mkExtra (json_get "iat" value ≫= value_as_unix_seconds) (json_get "nbf" value ≫= value_as_unix_seconds)
            (json_get "selectors" value ≫= extract_string_map))
  | _ => Err (AttestorError.Malformed "payload is JSON but not an object")
  end.

(** ** The trust bundle *)

(** The path of a socket as an endpoint (paths are UTF-8 here). *)
(* yutha-attestor-spiffe/src/source.rs:393-403 workload_api_endpoint_str *)
Definition workload_api_endpoint_str (path : string) : string :=
  if starts_with "unix:" path || starts_with "tcp:" path then path else "unix:" +:+ path.

(** The derived [Deserialize]; [missing] is the parser's error for its failure. *)
(* yutha-attestor-spiffe/src/source.rs:386-391 StaticBundleFile *)
Definition StaticBundleFile (v : JsonValue) : option (string * list JsonValue) :=
  match v with
  | JObject l =>
      match filter (λ m, m.1 = "trust_domain"%string) l, filter (λ m, m.1 = "keys"%string) l with
      | [(_, JString trust_domain)], [(_, JArray keys)] => Some (trust_domain, keys)
      | _, _ => None
      end
  | _ => None
  end.
(* yutha-attestor-spiffe/src/source.rs:405-440 load_static_bundle *)
Definition load_static_bundle (read : string → Result bytes string) (shape_error : string) (path : string) :
    Result JwtBundle AttestorError :=
  let? bytes := map_err (λ e, AttestorError.TrustRootUnavailable
                  ("trust bundle unavailable (static-file): read failed: " +:+ e)) (read path) in
  let not_json e := AttestorError.Malformed ("static bundle file is not valid JSON: " +:+ e) in
  let? value := map_err not_json (json_from_slice bytes) in
  let? parsed := ok_or (StaticBundleFile value) (not_json shape_error) in
  let? domain := map_err (λ e, AttestorError.Malformed
                   ("static bundle trust_domain is not a valid SPIFFE trust domain: " +:+ e))
                   (trust_domain_try_from parsed.1) in
  require negb (bool_decide (length parsed.2 = 0%nat))
    else AttestorError.Malformed "static bundle keys array is empty" in
  map_err (λ e, AttestorError.Malformed ("static bundle keys did not parse as a JWKS: " +:+ e))
    (from_jwt_authorities domain (json_to_vec (JObject [("keys"%string, JArray parsed.2)]))).

(* yutha-attestor-spiffe/src/source.rs:114-139 BundleCache *)
Inductive BundleCache :=
| Static (bundle : JwtBundle) (loaded_at : Instant) (source_tag : string)
| WorkloadSource (source_tag : string).
(** [sync]: the first message of the Workload API's stream, or the error. *)
(* yutha-attestor-spiffe/src/source.rs:191-223 BundleCache::connect *)
Definition bundle_connect (read : string → Result bytes string) (shape_error : string)
    (sync : string → N → Result unit string) (now : Instant) (config : SpiffeConfig) : Result BundleCache AttestorError :=
  match SpiffeConfig.source config with
  | TrustBundleSource.StaticFile path =>
      let? bundle := load_static_bundle read shape_error path in
      Ok (Static bundle now (TrustBundleSource.tag (SpiffeConfig.source config)))
  | TrustBundleSource.WorkloadApi socket =>
      let? _ := map_err (λ e, AttestorError.TrustRootUnavailable
                  ("trust bundle unavailable (workload-api): initial sync failed: " +:+ e))
                  (sync (workload_api_endpoint_str socket) (from_secs (SpiffeConfig.connect_timeout_secs config))) in
      Ok (WorkloadSource (TrustBundleSource.tag (SpiffeConfig.source config)))
  end.
(* yutha-attestor-spiffe/src/source.rs:284-319 BundleCache::assert_fresh *)
Definition bundle_assert_fresh (api : Workload) (now : Instant) (self : BundleCache) (max_staleness : option N) :
    Result unit AttestorError :=
  match self with
  | Static _ loaded_at source_tag =>
      match max_staleness with
      | Some window =>
          require (now - loaded_at <=? window)%N
            else AttestorError.TrustRootUnavailable ("trust bundle stale (" +:+ source_tag +:+ "): last refresh was "
                   +:+ show_N (as_secs (now - loaded_at)) +:+ "s ago; max staleness window is "
                   +:+ show_N (as_secs window) +:+ "s") in
          Ok tt
      | None => Ok tt
      end
  | WorkloadSource source_tag =>
      require is_healthy api
        else AttestorError.TrustRootUnavailable ("trust bundle stale (" +:+ source_tag +:+ "): JwtSource reports unhealthy — SPIRE agent unreachable or no usable authorities") in
      Ok tt
  end.
(* yutha-attestor-spiffe/src/source.rs:357-373 BundleSource::bundle_for_trust_domain *)
Definition bundle_for_trust_domain (api : Workload) (self : BundleCache) (domain : TrustDomain) :
    Result (option JwtBundle) string :=
  match self with
  | Static bundle _ _ => Ok (if decide (trust_domain bundle = domain) then Some bundle else None)
  | WorkloadSource _ => workload_bundle api domain
  end.
(* yutha-attestor-spiffe/src/source.rs:243-272 BundleCache::lookup *)
Definition bundle_lookup (api : Workload) (now : Instant) (self : BundleCache) (domain : TrustDomain)
    (max_staleness : option N) : Result JwtBundle AttestorError :=
  let? _ := bundle_assert_fresh api now self max_staleness in
  let absent := AttestorError.Rejected "trust domain not in bundle" in
  match self with
  | Static bundle _ _ => if decide (trust_domain bundle = domain) then Ok bundle else Err absent
  | WorkloadSource source_tag =>
      let? maybe := map_err (λ e, AttestorError.TrustRootUnavailable
                      ("trust bundle unavailable (" +:+ source_tag +:+ "): bundle lookup failed: " +:+ e))
                      (workload_bundle api domain) in
      ok_or maybe absent
  end.

(** ** attestor.rs *)

(* yutha-attestor-spiffe/src/attestor.rs:42-46 MAX_SELECTOR_ENTRIES, MAX_SELECTOR_BYTES *)
Definition MAX_SELECTOR_ENTRIES : nat := 64.
Definition MAX_SELECTOR_BYTES : N := 4096.
(** The loop over the selectors in key order. *)
(* yutha-attestor-spiffe/src/attestor.rs:237-249 project_selectors (loop) *)
Fixpoint selectors_loop (selectors : list (string * string)) (out : gmap string string) (total_bytes : N) :
    gmap string string :=
  match selectors with
  | [] => out
  | (k, v) :: rest =>
      if (MAX_SELECTOR_ENTRIES <=? size out)%nat then out else
      let entry_bytes := N.of_nat (String.length k + String.length v) in
      if (MAX_SELECTOR_BYTES <? u64_saturating_add total_bytes entry_bytes)%N then out
      else selectors_loop rest (<[k := v]> out) (u64_saturating_add total_bytes entry_bytes)
  end.
(* yutha-attestor-spiffe/src/attestor.rs:232-262 project_selectors *)
Definition project_selectors (selectors : gmap string string) : gmap string string :=
  selectors_loop (btree_iter selectors) ∅ 0.
(* yutha-attestor-spiffe/src/attestor.rs:270-277 offset_datetime_to_timestamp *)
Definition offset_datetime_to_timestamp (dt : OffsetDateTime) : Result Timestamp AttestorError :=
  let? wall_clock := map_err (λ e, AttestorError.Internal ("could not format JWT exp as RFC 3339: " +:+ e))
                       (format_rfc3339 dt) in
  map_err (λ e, AttestorError.Internal ("could not construct Timestamp from JWT exp: " +:+ CoreError.to_string e))
    (Timestamp.new wall_clock 0).
(* yutha-attestor-spiffe/src/attestor.rs:213-228 build_attested_identity *)
Definition build_attested_identity (svid : JwtSvid) (selectors : option (gmap string string)) :
    Result AttestedIdentity AttestorError :=
  let? expires_at := offset_datetime_to_timestamp (expiry svid) in
  Ok (mkAttestedIdentity (spiffe_id svid) (Some expires_at)
        (match selectors with Some s => project_selectors s | None => ∅ end)).

(** [i64::try_from(n).unwrap_or(i64::MAX)] *)
Definition to_i64 (n : N) : Z := Z.min i64_max (Z.of_N n).
(* yutha-attestor-spiffe/src/attestor.rs:281-286 current_unix_secs *)
Definition spiffe_unix_secs (since_epoch : option N) : Z :=
  match since_epoch with Some d => to_i64 d | None => 0 end.

(* yutha-attestor-spiffe/src/attestor.rs:55-79 SpiffeAttestor *)
Record SpiffeAttestor := mkSpiffe {
  expected_audience : string; clock_skew_tolerance : N; max_staleness : option N; bundles : BundleCache }.
(* yutha-attestor-spiffe/src/attestor.rs:99-116 SpiffeAttestor::connect *)
Definition spiffe_connect (read : string → Result bytes string) (shape_error : string)
    (sync : string → N → Result unit string) (now : Instant) (config : SpiffeConfig) : Result SpiffeAttestor AttestorError :=
  let? _ := SpiffeConfig.validate config in
  let? cache := bundle_connect read shape_error sync now config in
  Ok (mkSpiffe (SpiffeConfig.expected_audience config) (from_secs (SpiffeConfig.clock_skew_tolerance_secs config))
        (SpiffeConfig.max_staleness config) cache).

(** No [await]: the Workload API is read at one moment; [now] is the instant of
    the gate, [clock] the time [parse_and_validate] uses, [since_epoch] the
    system's. *)
(* yutha-attestor-spiffe/src/attestor.rs:140-203 SpiffeAttestor::verify *)
Definition spiffe_verify (api : Workload) (now : Instant) (clock : Z) (since_epoch : option N)
    (self : SpiffeAttestor) (credential : bytes) : Result AttestedIdentity AttestorError :=
  require negb (bool_decide (credential = []))
    else AttestorError.Rejected "empty credential; SPIFFE Attestor requires a JWT-SVID" in
  let? token := ok_or (from_utf8 credential) (AttestorError.Malformed "credential is not valid UTF-8") in
  let? _ := bundle_assert_fresh api now (bundles self) (max_staleness self) in
  let? svid := map_err map_spiffe_error
                 (parse_and_validate clock token (bundle_for_trust_domain api (bundles self)) [expected_audience self]) in
  let? extra := decode_extra_claims token in
  let limit := i64_saturating_add (spiffe_unix_secs since_epoch) (to_i64 (as_secs (clock_skew_tolerance self))) in
  require match nbf extra with Some n => (n <=? limit)%Z | None => true end
    else AttestorError.Rejected "nbf in the future" in
  require match iat extra with Some n => (n <=? limit)%Z | None => true end
    else AttestorError.Rejected "iat in the future" in
  build_attested_identity svid (selectors extra).
End spiffe.
Arguments BundleCache {_ _ _}.
