(* ===== verification/SpiffeLaws.v ===== *)
(** * The SPIFFE attestor: what it accepts

    The selectors it keeps, the identities it returns, and the windows of
    staleness it does and does not apply. *)

From S2P Require Import Prelude RustStd RustText Core CedarPlus Registry Oidc Spiffe.

(** What [parse_and_validate] documents: the source gave a bundle for the token's
    trust domain, the token is valid under it at the time of the call, and its
    audience has one of those asked for. *)
Class SpiffeLaws `{SpiffeOps} := {
  svid_valid : Z → string → JwtBundle → JwtSvid → Prop;
  svid_domain : JwtSvid → TrustDomain;
  svid_audience : JwtSvid → list string;
  parse_valid clock token src auds svid : parse_and_validate clock token src auds = Ok svid →
    ∃ b, src (svid_domain svid) = Ok (Some b) ∧ svid_valid clock token b svid;
  parse_audience clock token src auds svid : parse_and_validate clock token src auds = Ok svid →
    ∃ a, a ∈ auds ∧ a ∈ svid_audience svid
}.

(** ** The projection of selectors *)

Definition entries_bytes (l : list (string * string)) : N :=
  foldr (λ m n, (N.of_nat (String.length m.1 + String.length m.2) + n)%N) 0%N l.
Lemma entries_bytes_app l k : entries_bytes (l ++ k) = (entries_bytes l + entries_bytes k)%N.
Proof. induction l as [|m l IH]; [done|]. simpl. rewrite IH. lia. Qed.

(** [out] has the longest prefix of [l] within both caps. *)
Definition longest_prefix (l : list (string * string)) (out : gmap string string) : Prop :=
  ∃ n, out = list_to_map (take n l) ∧ n ≤ length l ∧ n ≤ 64 ∧ (entries_bytes (take n l) ≤ 4096)%N ∧
    (n = length l ∨ n = 64 ∨ (4096 < entries_bytes (take (S n) l))%N).

Lemma selectors_loop_prefix pre rest : NoDup (pre ++ rest).*1 → length pre ≤ 64 → (entries_bytes pre ≤ 4096)%N →
  longest_prefix (pre ++ rest) (selectors_loop rest (list_to_map pre) (entries_bytes pre)).
Proof.
  revert pre. induction rest as [|[k v] rest IH]; intros pre Hnd Hlen Hb; cbn [selectors_loop].
  { rewrite app_nil_r. exists (length pre). rewrite take_ge by done. split_and!; auto. }
  assert (size (list_to_map pre : gmap string string) = length pre) as Hsz.
  { apply map_size_list_to_map. rewrite fmap_app in Hnd. by apply NoDup_app in Hnd as [? _]. }
  assert ((length pre = 64 ∨ (4096 < entries_bytes (pre ++ [(k, v)]))%N) →
    longest_prefix (pre ++ (k, v) :: rest) (list_to_map pre)) as Hstop.
  { intros Hor. exists (length pre). rewrite take_app_length. split_and!; [done| |done|done|].
    - rewrite length_app. lia.
    - right. destruct Hor as [?|Hlt]; [by left|right].
      replace (pre ++ (k, v) :: rest) with ((pre ++ [(k, v)]) ++ rest) by by rewrite <-app_assoc.
      replace (S (length pre)) with (length (pre ++ [(k, v)])) by (rewrite length_app; simpl; lia).
      by rewrite take_app_length. }
  destruct (MAX_SELECTOR_ENTRIES <=? _)%nat eqn:Hc.
  { apply Nat.leb_le in Hc. rewrite Hsz in Hc. unfold MAX_SELECTOR_ENTRIES in Hc. apply Hstop. left. lia. }
  apply Nat.leb_gt in Hc. rewrite Hsz in Hc. unfold MAX_SELECTOR_ENTRIES in Hc.
  assert (entries_bytes (pre ++ [(k, v)]) = entries_bytes pre + N.of_nat (String.length k + String.length v))%N as He.
  { rewrite entries_bytes_app. simpl. lia. }
  destruct (MAX_SELECTOR_BYTES <? u64_saturating_add _ _)%N eqn:Hm.
  { apply N.ltb_lt in Hm. unfold MAX_SELECTOR_BYTES, u64_saturating_add, u64_max in Hm. apply Hstop. right. lia. }
  apply N.ltb_ge in Hm. unfold MAX_SELECTOR_BYTES, u64_saturating_add, u64_max in *.
  specialize (IH (pre ++ [(k, v)])). rewrite <-app_assoc in IH. simpl in IH.
  rewrite He in IH. replace (N.min _ _) with (entries_bytes pre + N.of_nat (String.length k + String.length v))%N by lia.
  replace (<[k:=v]> (list_to_map pre)) with (list_to_map (pre ++ [(k, v)]) : gmap string string).
  - apply IH; [done| |lia]. rewrite length_app. simpl. lia.
  - rewrite list_to_map_snoc; [done|]. rewrite fmap_app in Hnd. apply NoDup_app in Hnd as (_ & Hd & _).
    intros Hin. apply (Hd k); [done|]. simpl. left.
Qed.
Lemma project_selectors_prefix s : longest_prefix (btree_iter s) (project_selectors s).
Proof. apply (selectors_loop_prefix []); [apply NoDup_btree_iter_keys|simpl; lia|done]. Qed.

(** ** What is accepted *)

Section laws.
Context `{SpiffeOps} `{!SpiffeLaws} `{TimeOps}.
Implicit Types (self : SpiffeAttestor).

(** A claim about time that is in the past up to the tolerance. *)
Definition not_future (since_epoch : option N) self (claim : option Z) : Prop :=
  ∀ n, claim = Some n →
    (n ≤ i64_saturating_add (spiffe_unix_secs since_epoch) (to_i64 (as_secs (clock_skew_tolerance self))))%Z.
(** The bundle may be used: the file was loaded within the window, or the
    Workload API is healthy. *)
Definition usable (api : Workload) (now : Instant) self : Prop :=
  match bundles self with
  | Static _ loaded_at _ => ∀ window, max_staleness self = Some window → (now - loaded_at ≤ window)%N
  | WorkloadSource _ => is_healthy api = true
  end.

Lemma bundle_assert_fresh_ok api now self :
  bundle_assert_fresh api now (bundles self) (max_staleness self) = Ok tt ↔ usable api now self.
Proof.
  unfold bundle_assert_fresh, usable. destruct (bundles self) as [b l tag|tag].
  - destruct (max_staleness self) as [w|]; [|naive_solver].
    destruct (now - l <=? w)%N eqn:E; [apply N.leb_le in E|apply N.leb_gt in E]; [naive_solver|].
    split; [done|]. intros Hw. specialize (Hw w eq_refl). lia.
  - destruct (is_healthy api); naive_solver.
Qed.

(** [C31] An identity the SPIFFE attestor returns is the SPIFFE id of a token that is
    valid under the bundle its source has for the token's trust domain, with the
    operator's audience among its audiences; the bundle was usable - loaded within
    the window, or the Workload API healthy -, neither iat nor nbf is in the future
    up to the skew, and the attributes are the longest prefix of the token's
    selectors, in key order, within 64 entries and 4096 bytes - none if a selector
    is not a string. *)
Theorem spiffe_accepts_only api now clock since_epoch self credential id :
  spiffe_verify api now clock since_epoch self credential = Ok id →
  ∃ token svid b extra, credential = as_bytes token ∧ usable api now self ∧
    bundle_for_trust_domain api (bundles self) (svid_domain svid) = Ok (Some b) ∧
    svid_valid clock token b svid ∧ expected_audience self ∈ svid_audience svid ∧
    decode_extra_claims token = Ok extra ∧
    not_future since_epoch self (iat extra) ∧ not_future since_epoch self (nbf extra) ∧
    external_identity id = spiffe_id svid ∧
    match selectors extra with
    | Some s => longest_prefix (btree_iter s) (attributes id)
    | None => attributes id = ∅
    end.
Proof.
  unfold spiffe_verify, build_attested_identity. intros Hv. inv_ok Hv.
  match goal with H : from_utf8 _ = Some _ |- _ => apply from_utf8_Some in H as [-> _] end.
  match goal with H : bundle_assert_fresh _ _ _ _ = Ok ?u |- _ => destruct u; apply bundle_assert_fresh_ok in H end.
  match goal with H : parse_and_validate _ _ _ _ = Ok ?s |- _ =>
    destruct (parse_valid _ _ _ _ _ H) as (b & Hsrc & Hval); destruct (parse_audience _ _ _ _ _ H) as (a & ->%list_elem_of_singleton & Ha) end.
  eexists _, _, b, _. split_and!; try done.
  - intros n Hn. rewrite Hn in *. by apply Z.leb_le.
  - intros n Hn. rewrite Hn in *. by apply Z.leb_le.
  - simpl. match goal with |- context [selectors ?e] => destruct (selectors e) end; [apply project_selectors_prefix|done].
Qed.

(** The operator's window has no effect on a Workload API source. *)
Lemma workload_window_ignored api now tag w w' :
  bundle_assert_fresh api now (WorkloadSource tag) w = bundle_assert_fresh api now (WorkloadSource tag) w'.
Proof. done. Qed.
(** A window of zero refuses everything once the clock has moved. *)
Lemma zero_window_static api now b loaded_at tag : (loaded_at < now)%N →
  is_ok (bundle_assert_fresh api now (Static b loaded_at tag) (Some 0%N)) = false.
Proof. intros Hl. simpl. by replace (now - loaded_at <=? 0)%N with false by (symmetry; apply N.leb_gt; lia). Qed.
(** [lookup], which nothing calls, agrees with the source [verify] consults. *)
Lemma bundle_lookup_agrees api now self domain b :
  bundle_lookup api now (bundles self) domain (max_staleness self) = Ok b ↔
  usable api now self ∧ bundle_for_trust_domain api (bundles self) domain = Ok (Some b).
Proof.
  rewrite <-bundle_assert_fresh_ok. unfold bundle_lookup.
  destruct (bundle_assert_fresh _ _ _ _) as [[]|e]; simpl; [|naive_solver].
  destruct (bundles self) as [b' l tag|tag]; simpl; [case_decide; naive_solver|].
  destruct (workload_bundle api domain) as [[b'|]|e]; simpl; naive_solver.
Qed.
End laws.

(** ** A concrete run: one token, one trust domain *)

Module SpiffeToy.
#[global] Instance json : SerdeJson := {| JsonNumber := Z; json_to_vec _ := [] |}.
#[global] Instance std : OidcStd := {|
  as_i64 n := Some n; from_json _ := None; json_error _ := "expected value"%string;
  OffsetDateTime := Z; from_unix_timestamp n := Ok n; format_rfc3339 n := Ok (show_Z n) |}.
#[global] Instance time : TimeOps := {| parse_rfc3339 _ := Some 0%Z; parse_rfc3339_error _ := ""%string |}.
Definition claims : JsonValue :=
  JObject [("iat", JNumber 5%Z); ("selectors", JObject [("unix_uid", JString "1000"); ("k8s_ns", JString "prod")])]%string.
#[global] Instance spiffe : SpiffeOps := {|
  TrustDomain := string; trust_domain_try_from := Ok; JwtBundle := string; trust_domain b := b;
  from_jwt_authorities d _ := Ok d; JwtSvid := unit; spiffe_id _ := "spiffe://d/a"%string; expiry _ := 100%Z;
  parse_and_validate now t src auds :=
    if decide (t = "h.p.s"%string ∧ "yutha"%string ∈ auds ∧ (now < 100)%Z) then
      match src "d"%string with
      | Ok (Some b) => Ok tt | Ok None => Err BundleNotFound | Err e => Err (BundleSourceError e)
      end
    else Err (SvidInvalidToken InvalidSignature);
  base64_url_decode s := Some (as_bytes s); json_from_slice _ := Ok claims; f64_as_i64 _ := None |}.
#[global] Instance laws : SpiffeLaws.
Proof.
  refine (Build_SpiffeLaws _ _ _ (λ now t b _, t = "h.p.s"%string ∧ (now < 100)%Z) (λ _, "d"%string)
    (λ _, ["yutha"%string]) _ _).
  - intros now t src auds [] Hp. simpl in Hp. case_decide as Hd; [|done].
    destruct (src "d"%string) as [[b|]|]; try done. exists b. naive_solver.
  - intros now t src auds [] Hp. simpl in Hp. case_decide as Hd; [|done]. exists "yutha"%string. split; [naive_solver|by left].
Defined.
Definition attestor : SpiffeAttestor := mkSpiffe "yutha" (from_secs 60) (Some 10%N) (Static ("d"%string : JwtBundle) 0 "static-file").
Definition api : Workload := mkWorkload _ _ _ false (λ _, Err "no agent"%string).
Definition token : bytes := as_bytes "h.p.s".
Definition found : AttestedIdentity :=
  mkAttestedIdentity "spiffe://d/a" (Some (Timestamp.mk "100" 0)) {["k8s_ns"%string := "prod"%string; "unix_uid"%string := "1000"%string]}.
Lemma verified : spiffe_verify api 10 50 (Some 0%N) attestor token = Ok found.
Proof. vm_compute. reflexivity. Qed.
End SpiffeToy.

Lemma spiffe_accepts_only_witness :
  ∃ token svid b extra, SpiffeToy.token = as_bytes token ∧ usable SpiffeToy.api 10 SpiffeToy.attestor ∧
    bundle_for_trust_domain SpiffeToy.api (bundles SpiffeToy.attestor) (svid_domain svid) = Ok (Some b) ∧
    svid_valid 50 token b svid ∧ expected_audience SpiffeToy.attestor ∈ svid_audience svid ∧
    decode_extra_claims token = Ok extra ∧
    not_future (Some 0%N) SpiffeToy.attestor (iat extra) ∧ not_future (Some 0%N) SpiffeToy.attestor (nbf extra) ∧
    external_identity SpiffeToy.found = spiffe_id svid ∧
    match selectors extra with
    | Some s => longest_prefix (btree_iter s) (attributes SpiffeToy.found)
    | None => attributes SpiffeToy.found = ∅
    end.
Proof. exact (spiffe_accepts_only SpiffeToy.api 10 50 (Some 0%N) SpiffeToy.attestor SpiffeToy.token SpiffeToy.found SpiffeToy.verified). Defined.
