(* ===== verification/Signers.v ===== *)
(** * [yutha-signer-vault], [-gcp-kms], [-azure-kv]: signers behind key services

    The configurations, the checks of a key at connection, the mapping of errors,
    the decoding of keys and signatures, for the three services; then the choice
    of a signer in [main.rs].  The services and their client crates are
    parameters: what a service answers at one moment is a record of functions. *)

From S2P Require Import Prelude RustStd RustText Core Crypto.

(** Standard base64, and the process's environment. *)
Class Base64Ops := { b64_encode : bytes → string; b64_decode : string → Result bytes string }.
Definition Environment := string → option string.

Notation Internal := SignerError.Internal.
Notation BackendRejected := SignerError.BackendRejected.
Notation BackendUnavailable := SignerError.BackendUnavailable.
Notation UnsupportedAlgorithm := SignerError.UnsupportedAlgorithm.

(** ** Keys in PEM *)

(** [s.lines()]: a final line break begins no line, and a carriage return before
    a line break is not part of the line. *)
Definition strip_cr (s : string) : string :=
  match str_rev s with
  | String c r => if decide (c = "013"%char) then str_rev r else s
  | EmptyString => s
  end.
Definition lines (s : string) : list string :=
  let parts := str_split "010"%char s in
  strip_cr <$> match rev parts with EmptyString :: r => rev r | _ => parts end.
(** The characters that are not white space; every step removes a byte. *)
Fixpoint without_space (fuel : nat) (s : string) : string :=
  match fuel with
  | O => s
  | S fuel =>
      match head (omap (λ w, strip_prefix w s) white_space) with
      | Some s => without_space fuel s
      | None => match s with EmptyString => EmptyString | String c s => String c (without_space fuel s) end
      end
  end.
Definition pem_body (pem : string) : string :=
  String.concat "" ((λ l, without_space (String.length l) l) <$> filter (λ l, starts_with "-----" l = false) (lines pem)).

Section signers.
Context `{CryptoOps} `{Base64Ops}.

(* yutha-signer-vault/src/signer.rs:252-268 decode_ed25519_public_key *)
Definition decode_ed25519_public_key (encoded : string) : option bytes :=
  bytes ← result_ok (b64_decode (pem_body encoded));
  if (length bytes =? 32)%nat then Some bytes
  else if (length bytes =? 44)%nat then Some (drop 12 bytes) else None.
(* yutha-signer-gcp-kms/src/signer.rs:167-185 decode_ed25519_spki_pem *)
Definition decode_ed25519_spki_pem (pem : string) : option bytes :=
  bytes ← result_ok (b64_decode (pem_body pem));
  if (length bytes =? 44)%nat then Some (drop 12 bytes)
  else if (length bytes =? 32)%nat then Some bytes else None.

Definition ed25519_key (what : string) (pk_bytes : bytes) : Result PublicKey SignerError :=
  map_err (λ e, Internal ("invalid public-key bytes from " +:+ what +:+ ": " +:+ CoreError.to_string e))
    (PublicKey.new SignatureAlgorithm.Ed25519 pk_bytes).
Definition ed25519_signature (what : string) (sig_bytes key_fingerprint : bytes) : Result Signature SignerError :=
  map_err (λ e, Internal (what +:+ " returned signature bytes that did not pass length check: " +:+ CoreError.to_string e))
    (Signature.new SignatureAlgorithm.Ed25519 sig_bytes key_fingerprint).

(** ** Vault *)

(* yutha-signer-vault/src/auth.rs:40-76 VaultAuth *)
Inductive VaultAuth :=
| Token (token : string)
| AppRole (mount role_id secret_id : string)
| Kubernetes (mount role jwt : string)
| AwsIam (mount role : string).
(* yutha-signer-vault/src/auth.rs:120-142 VaultAuth::from_env *)
Definition VaultAuth_from_env (env : Environment) : Result VaultAuth SignerError :=
  match env "YUTHA_SIGNER_VAULT_TOKEN"%string with
  | Some token => Ok (Token token)
  | None =>
      match env "YUTHA_SIGNER_VAULT_APPROLE_ROLE_ID"%string, env "YUTHA_SIGNER_VAULT_APPROLE_SECRET_ID"%string with
      | Some role_id, Some secret_id =>
          Ok (AppRole (default "approle"%string (env "YUTHA_SIGNER_VAULT_APPROLE_MOUNT"%string)) role_id secret_id)
      | _, _ => Err (Internal "no Vault auth env vars set — provide either YUTHA_SIGNER_VAULT_TOKEN, or YUTHA_SIGNER_VAULT_APPROLE_ROLE_ID + YUTHA_SIGNER_VAULT_APPROLE_SECRET_ID")
      end
  end.
(* yutha-signer-vault/src/config.rs:97-99 require_env *)
Definition require_env (env : Environment) (name : string) : Result string SignerError :=
  ok_or (env name) (Internal ("missing env var " +:+ name)).
(* yutha-signer-vault/src/config.rs:29-55 VaultConfig *)
Record VaultConfig := mkVaultConfig {
  address : string; vault_mount : string; vault_key_name : string; auth : VaultAuth; namespace : option string }.
(* yutha-signer-vault/src/config.rs:80-94 VaultConfig::from_env *)
Definition VaultConfig_from_env (env : Environment) : Result VaultConfig SignerError :=
  let? address := require_env env "YUTHA_SIGNER_VAULT_ADDR" in
  let mount := default "transit"%string (env "YUTHA_SIGNER_VAULT_MOUNT"%string) in
  let? key_name := require_env env "YUTHA_SIGNER_VAULT_KEY" in
  let? auth := VaultAuth_from_env env in
  Ok (mkVaultConfig address mount key_name auth (env "YUTHA_SIGNER_VAULT_NAMESPACE"%string)).

(** [vaultrs::error::ClientError] with its text. *)
Inductive ClientError := APIError (code : N) (text : string) | RestClientError (text : string) | OtherClientError (text : string).
(* yutha-signer-vault/src/error.rs:34-59 map_client_error *)
Definition map_client_error (err : ClientError) (context : string) : SignerError :=
  match err with
  | APIError code text =>
      let msg := context +:+ ": vault returned HTTP " +:+ show_N code +:+ ": " +:+ text in
      if bool_decide (code ∈ [401; 403; 404]%N) then BackendRejected msg
      else if (500 <=? code)%N && (code <=? 599)%N then BackendUnavailable msg else Internal msg
  | RestClientError text => BackendUnavailable (context +:+ ": vault transport error: " +:+ text)
  | OtherClientError text => Internal (context +:+ ": " +:+ text)
  end.

(** A transit key as Vault describes it; the versions in the order in which the
    map iterates over them. *)
Inductive ReadKeyData := Asymmetric (keys : list (string * string)) | Symmetric.
Record ReadKey := mkReadKey { is_ed25519 : bool; key_type_debug : string; key_data : ReadKeyData }.
(** Vault and its client at one moment; a token authenticates the calls. *)
Record VaultApi := mkVaultApi {
  build_settings : VaultConfig → Result unit string;
  new_client : VaultConfig → Result unit string;
  approle_login : string → string → string → Result string ClientError;
  key_read : option string → string → string → Result ReadKey ClientError;
  data_sign : option string → string → string → string → Result string ClientError }.

(** [iter.max_by_key(|(n, _)| *n)]: the last of the largest. *)
Fixpoint max_version {A} (l : list (N * A)) : option (N * A) :=
  match l with
  | [] => None
  | (n, a) :: l =>
      match max_version l with
      | Some (m, b) => if (n <=? m)%N then Some (m, b) else Some (n, a)
      | None => Some (n, a)
      end
  end.
Definition parse_u64 (s : string) : option N := result_ok (parse_uint u64_max s).
(* yutha-signer-vault/src/signer.rs:178-233 fetch_public_key *)
Definition fetch_public_key (api : VaultApi) (token : option string) (mount name : string) : Result PublicKey SignerError :=
  let? response := map_err (λ e, map_client_error e "transit key read") (key_read api token mount name) in
  require is_ed25519 response
    else UnsupportedAlgorithm ("vault transit key '" +:+ name +:+ "' is type " +:+ key_type_debug response
           +:+ "; only ed25519 is supported (RFC 0015 §3.1 invariant 2 pins the algorithm)") in
  match key_data response with
  | Symmetric => Err (UnsupportedAlgorithm ("vault transit key '" +:+ name +:+ "' returned symmetric-key metadata even though key_type was Ed25519; refusing to proceed"))
  | Asymmetric keys =>
      let? latest := ok_or (max_version (omap (λ k, (λ n, (n, k.2)) <$> parse_u64 k.1) keys))
                       (Internal ("vault transit key '" +:+ name +:+ "' returned no key versions")) in
      let? pk_bytes := ok_or (decode_ed25519_public_key latest.2)
                         (UnsupportedAlgorithm ("vault transit key '" +:+ name +:+ "' v" +:+ show_N latest.1
                            +:+ " returned an Ed25519 public key that did not decode to 32 bytes")) in
      ed25519_key "Vault" pk_bytes
  end.

(* yutha-signer-vault/src/signer.rs:42-55 VaultSigner *)
Record VaultSigner := mkVault {
  vault_token : option string; signer_mount : string; signer_key_name : string; vault_public_key : PublicKey }.
(* yutha-signer-vault/src/signer.rs:92-166 VaultSigner::connect *)
Definition vault_connect (api : VaultApi) (config : VaultConfig) : Result VaultSigner SignerError :=
  let? _ := map_err (λ e, Internal ("invalid Vault settings: " +:+ e)) (build_settings api config) in
  let? _ := map_err (λ e, Internal ("failed to build VaultClient: " +:+ e)) (new_client api config) in
  let? token :=
    match auth config with
    | Token token => Ok token
    | AppRole mount role_id secret_id =>
        map_err (λ e, map_client_error e "approle login") (approle_login api mount role_id secret_id)
    | Kubernetes _ _ _ | AwsIam _ _ =>
        Err (UnsupportedAlgorithm "VaultAuth::Kubernetes and VaultAuth::AwsIam are reserved variants in v1; they land in a follow-on PR with their own integration coverage. Use Token or AppRole today.")
    end in
  let? public_key := fetch_public_key api (Some token) (vault_mount config) (vault_key_name config) in
  Ok (mkVault (Some token) (vault_mount config) (vault_key_name config) public_key).
(** [s.splitn(3, ':').nth(2)]: what follows the second colon. *)
Definition third_part (s : string) : option string :=
  p ← split_once ":"%char s; q ← split_once ":"%char p.2; Some q.2.
(* yutha-signer-vault/src/signer.rs:276-311 VaultSigner::sign_message *)
Definition vault_sign (api : VaultApi) (self : VaultSigner) (message : bytes) : Result Signature SignerError :=
  let? response := map_err (λ e, map_client_error e "transit sign")
                     (data_sign api (vault_token self) (signer_mount self) (signer_key_name self) (b64_encode message)) in
  let? sig_b64 := ok_or (third_part response)
                    (Internal ("vault returned malformed signature envelope: " +:+ response)) in
  let? sig_bytes := map_err (λ e, Internal ("vault sig base64 decode: " +:+ e)) (b64_decode sig_b64) in
  ed25519_signature "vault" sig_bytes (sha256_digest (PublicKey.value (vault_public_key self))).
(* yutha-signer-vault/src/signer.rs:271-274 Signer for VaultSigner *)
Definition vault_signer (api : VaultApi) (self : VaultSigner) : Signer :=
  Signer.mk (vault_public_key self) (vault_sign api self).

(** ** GCP KMS *)

(** The error of a call: its HTTP status, if any, and its text. *)
Record KmsError := mkKmsError { http_status_code : option N; kms_text : string }.
(* yutha-signer-gcp-kms/src/error.rs:34-53 map_kms_error *)
Definition map_kms_error (err : KmsError) (context : string) : SignerError :=
  let msg := context +:+ ": " +:+ kms_text err in
  match http_status_code err with
  | Some code =>
      if bool_decide (code ∈ [401; 403; 404; 400]%N) then BackendRejected msg
      else if bool_decide (code ∈ [503; 504; 408; 429]%N) then BackendUnavailable msg
      else if (500 <=? code)%N && (code <=? 599)%N then BackendUnavailable msg else Internal msg
  | None => BackendUnavailable msg
  end.
(* yutha-signer-gcp-kms/src/config.rs:20-35 GcpKmsConfig *)
Record GcpKmsConfig := mkGcpConfig { key_version_name : string; endpoint : option string }.
Definition str_contains (pat s : string) : bool := bool_decide (is_Some (split_once_str pat s)).
(* yutha-signer-gcp-kms/src/config.rs:66-76 GcpKmsConfig::new *)
Definition GcpKmsConfig_new (key_version_name : string) (endpoint : option string) : Result GcpKmsConfig SignerError :=
  require str_contains "/cryptoKeyVersions/" key_version_name
    else Internal ("key_version_name must include /cryptoKeyVersions/<version>; got: " +:+ key_version_name) in
  Ok (mkGcpConfig key_version_name endpoint).
(* yutha-signer-gcp-kms/src/config.rs:47-53 GcpKmsConfig::from_env *)
Definition GcpKmsConfig_from_env (env : Environment) : Result GcpKmsConfig SignerError :=
  let? key_version_name := require_env env "YUTHA_SIGNER_GCP_KMS_KEY_VERSION" in
  GcpKmsConfig_new key_version_name (env "YUTHA_SIGNER_GCP_KMS_ENDPOINT"%string).
Record GcpPublicKey := mkGcpPublicKey { is_ec_sign_ed25519 : bool; algorithm_debug : string; pem : string }.
Record GcpApi := mkGcpApi {
  build_client : option string → Result unit string;
  get_public_key : string → Result GcpPublicKey KmsError;
  asymmetric_sign : string → bytes → Result bytes KmsError }.
(* yutha-signer-gcp-kms/src/signer.rs:38-57 GcpKmsSigner *)
Record GcpKmsSigner := mkGcp { gcp_key_version_name : string; gcp_public_key : PublicKey; gcp_key_fingerprint : bytes }.
(* yutha-signer-gcp-kms/src/signer.rs:96-152 GcpKmsSigner::connect *)
Definition gcp_connect (api : GcpApi) (config : GcpKmsConfig) : Result GcpKmsSigner SignerError :=
  let? _ := map_err (λ e, Internal ("GCP KMS client build failed: " +:+ e)) (build_client api (endpoint config)) in
  let name := key_version_name config in
  let? pk_response := map_err (λ e, map_kms_error e "GetPublicKey") (get_public_key api name) in
  require is_ec_sign_ed25519 pk_response
    else UnsupportedAlgorithm ("GCP KMS key version '" +:+ name +:+ "' uses algorithm " +:+ algorithm_debug pk_response
           +:+ "; only EC_SIGN_ED25519 is supported (RFC 0015 §3.1 invariant 2 pins the algorithm). Create the key with `--default-algorithm=ec-sign-ed25519`.") in
  let? pk_bytes := ok_or (decode_ed25519_spki_pem (pem pk_response))
                     (UnsupportedAlgorithm ("GCP KMS key version '" +:+ name
                        +:+ "' returned an Ed25519 PEM that did not decode to 32 raw bytes; got: "
                        +:+ show_N (N.of_nat (String.length (pem pk_response))) +:+ " bytes after base64 decode")) in
  let? public_key := ed25519_key "GCP KMS" pk_bytes in
  Ok (mkGcp name public_key (sha256_digest (PublicKey.value public_key))).
(* yutha-signer-gcp-kms/src/signer.rs:193-219 GcpKmsSigner::sign_message *)
Definition gcp_sign (api : GcpApi) (self : GcpKmsSigner) (message : bytes) : Result Signature SignerError :=
  let? sig_bytes := map_err (λ e, map_kms_error e "AsymmetricSign")
                      (asymmetric_sign api (gcp_key_version_name self) message) in
  ed25519_signature "GCP KMS" sig_bytes (gcp_key_fingerprint self).
(* yutha-signer-gcp-kms/src/signer.rs:188-191 Signer for GcpKmsSigner *)
Definition gcp_signer (api : GcpApi) (self : GcpKmsSigner) : Signer :=
  Signer.mk (gcp_public_key self) (gcp_sign api self).

(** ** Azure Managed HSM *)

(** The error of a call: the status of an HTTP response, or another kind. *)
Record AzureError := mkAzureError { azure_status : option N; azure_text : string }.
(* yutha-signer-azure-kv/src/error.rs:46-70 classify_status *)
Definition classify_status (status : N) (msg : string) : SignerError :=
  if bool_decide (status ∈ [401; 403; 404; 400]%N) then BackendRejected msg
  else if bool_decide (status ∈ [429; 503; 504; 408]%N) then BackendUnavailable msg
  else if (500 <=? status)%N && (status <=? 599)%N then BackendUnavailable msg else Internal msg.
(* yutha-signer-azure-kv/src/error.rs:32-44 map_azure_error *)
Definition map_azure_error (err : AzureError) (context : string) : SignerError :=
  let msg := context +:+ ": " +:+ azure_text err in
  match azure_status err with Some status => classify_status status msg | None => BackendUnavailable msg end.
(* yutha-signer-azure-kv/src/config.rs:30-47 AzureKvConfig *)
Record AzureKvConfig := mkAzureConfig { vault_url : string; azure_key_name : string; key_version : option string }.
(* yutha-signer-azure-kv/src/config.rs:74-92 AzureKvConfig::new *)
Definition AzureKvConfig_new (vault_url key_name : string) (key_version : option string) : Result AzureKvConfig SignerError :=
  require starts_with "https://" vault_url else Internal ("vault_url must be an HTTPS URL; got: " +:+ vault_url) in
  require negb (bool_decide (key_name = ""%string)) else Internal "key_name must not be empty" in
  Ok (mkAzureConfig vault_url key_name key_version).
(* yutha-signer-azure-kv/src/config.rs:58-67 AzureKvConfig::from_env *)
Definition AzureKvConfig_from_env (env : Environment) : Result AzureKvConfig SignerError :=
  let? vault_url := require_env env "YUTHA_SIGNER_AZURE_KV_VAULT_URL" in
  let? key_name := require_env env "YUTHA_SIGNER_AZURE_KV_KEY_NAME" in
  AzureKvConfig_new vault_url key_name (env "YUTHA_SIGNER_AZURE_KV_KEY_VERSION"%string).
(** Only for a warning. *)
(* yutha-signer-azure-kv/src/config.rs:103-105 AzureKvConfig::looks_like_managed_hsm *)
Definition looks_like_managed_hsm (config : AzureKvConfig) : bool := str_contains ".managedhsm.azure.net" (vault_url config).
(** A JWK: the type and curve if they are names the SDK does not know, their
    texts, and the coordinate. *)
Record AzureJwk := mkAzureJwk {
  kty : option string; kty_debug : string; crv : option string; crv_debug : string; jwk_x : option bytes }.
Record AzureApi := mkAzureApi {
  new_credential : Result unit string;
  new_key_client : string → Result unit string;
  get_key : string → string → Result (Result (option AzureJwk) AzureError) AzureError;
  azure_sign_call : string → string → string → bytes → Result (Result (option bytes) AzureError) AzureError }.
(* yutha-signer-azure-kv/src/signer.rs:68-78 AzureKvSigner *)
Record AzureKvSigner := mkAzure {
  signer_azure_key : string; signer_azure_version : string; azure_public_key : PublicKey; azure_key_fingerprint : bytes }.
(* yutha-signer-azure-kv/src/signer.rs:127-233 AzureKvSigner::connect_with_credential *)
Definition connect_with_credential (api : AzureApi) (config : AzureKvConfig) : Result AzureKvSigner SignerError :=
  let name := azure_key_name config in
  let? _ := map_err (λ e, Internal ("KeyClient build failed: " +:+ e)) (new_key_client api (vault_url config)) in
  let version := default ""%string (key_version config) in
  let? response := map_err (λ e, map_azure_error e "GetKey") (get_key api name version) in
  let? key_bundle := map_err (λ e, map_azure_error e "GetKey deserialise") response in
  let? jwk := ok_or key_bundle (Internal ("Azure get_key for '" +:+ name +:+ "' returned no JWK body")) in
  let kty_ok := bool_decide (kty jwk = Some "OKP"%string ∨ kty jwk = Some "OKP-HSM"%string) in
  let crv_ok := bool_decide (crv jwk = Some "Ed25519"%string) in
  require kty_ok && crv_ok
    else UnsupportedAlgorithm ("Azure key '" +:+ name +:+ "' has kty=" +:+ kty_debug jwk +:+ " crv=" +:+ crv_debug jwk
           +:+ "; expected (OKP|OKP-HSM, Ed25519). If this is a standard Key Vault, recreate the key in a Managed HSM (`.managedhsm.azure.net`) — standard Key Vault does not support Ed25519. See RFC 0015 §3.1 invariant 2.") in
  let? pk_bytes := ok_or (jwk_x jwk) (UnsupportedAlgorithm ("Azure key '" +:+ name +:+ "' returned no `x` field on the JWK")) in
  require (length pk_bytes =? 32)%nat
    else UnsupportedAlgorithm ("Azure key '" +:+ name +:+ "' returned a `x` field of " +:+ show_N (len pk_bytes)
           +:+ " bytes; Ed25519 public key must be 32 bytes") in
  let? public_key := ed25519_key "Azure" pk_bytes in
  Ok (mkAzure name version public_key (sha256_digest (PublicKey.value public_key))).
(* yutha-signer-azure-kv/src/signer.rs:106-111 AzureKvSigner::connect *)
Definition azure_connect (api : AzureApi) (config : AzureKvConfig) : Result AzureKvSigner SignerError :=
  let? _ := map_err (λ e, Internal ("DeveloperToolsCredential build failed: " +:+ e)) (new_credential api) in
  connect_with_credential api config.
(* yutha-signer-azure-kv/src/signer.rs:242-288 AzureKvSigner::sign_message *)
Definition azure_sign (api : AzureApi) (self : AzureKvSigner) (message : bytes) : Result Signature SignerError :=
  let? response := map_err (λ e, map_azure_error e "Sign")
                     (azure_sign_call api (signer_azure_key self) (signer_azure_version self) "EdDSA" message) in
  let? sign_result := map_err (λ e, map_azure_error e "Sign deserialise") response in
  let? sig_bytes := ok_or sign_result (Internal "Azure sign returned no `result` bytes") in
  ed25519_signature "Azure" sig_bytes (azure_key_fingerprint self).
(* yutha-signer-azure-kv/src/signer.rs:237-240 Signer for AzureKvSigner *)
Definition azure_signer (api : AzureApi) (self : AzureKvSigner) : Signer :=
  Signer.mk (azure_public_key self) (azure_sign api self).
End signers.
