(* ===== verification/SignersLaws.v ===== *)
(** * The remote signers agree with the in-process one

    A service that holds a key is one whose answers come from that key, in the
    formats its documentation gives.  Whatever service holds the key, what the
    control plane gets is what a signer with the key in memory would give it. *)

From S2P Require Import Prelude RustStd RustText Core Crypto Score Signers.

(** The letters, digits and signs of base64. *)
Definition b64_char (c : ascii) : bool := visible c && negb (bool_decide (c = "-"%char)) && negb (bool_decide (c = ":"%char)).
Class Base64Laws `{Base64Ops} : Prop := {
  b64_decode_encode b : b64_decode (b64_encode b) = Ok b;
  b64_encode_chars b : str_forall b64_char (b64_encode b) = true
}.

(** ** Reading a key from PEM *)

Lemma str_split_app c a b : str_forall (λ d, negb (bool_decide (d = c))) a = true →
  str_split c (a +:+ String c b) = a :: str_split c b.
Proof.
  induction a as [|d a IH]; simpl; [by rewrite decide_True|].
  intros [Hd Ha]%andb_true_iff. apply negb_true_iff, bool_decide_eq_false in Hd.
  rewrite decide_False by done. by rewrite IH.
Qed.
Lemma str_split_one c a : str_forall (λ d, negb (bool_decide (d = c))) a = true → str_split c a = [a].
Proof.
  induction a as [|d a IH]; simpl; [done|]. intros [Hd Ha]%andb_true_iff.
  apply negb_true_iff, bool_decide_eq_false in Hd. rewrite decide_False by done. by rewrite IH.
Qed.
Lemma str_forall_impl (p q : ascii → bool) s : (∀ c, p c = true → q c = true) →
  str_forall p s = true → str_forall q s = true.
Proof. intros Hpq. induction s as [|c s IH]; simpl; [done|]. rewrite !andb_true_iff. naive_solver. Qed.
Lemma b64_visible c : b64_char c = true → visible c = true.
Proof. unfold b64_char. rewrite !andb_true_iff. naive_solver. Qed.
Lemma visible_not_newline c : visible c = true → negb (bool_decide (c = "010"%char)) = true.
Proof. intros Hc. apply negb_true_iff, bool_decide_eq_false. by intros ->. Qed.
Lemma strip_cr_visible s : str_forall visible s = true → strip_cr s = s.
Proof.
  unfold strip_cr. rewrite <-str_forall_rev. intros Hr.
  destruct (str_rev s) as [|c r] eqn:E; [done|]. simpl in Hr. apply andb_true_iff in Hr as [Hc _].
  rewrite decide_False; [done|]. by intros ->.
Qed.
Lemma without_space_visible n s : str_forall visible s = true → without_space n s = s.
Proof.
  revert s. induction n as [|n IH]; intros [|c s]; cbn [without_space str_forall]; [done|done|done|]. intros [Hc Hs]%andb_true_iff.
  rewrite (proj1 (visible_not_space c s Hc)). by rewrite IH.
Qed.

Definition pem_begin : string := "-----BEGIN PUBLIC KEY-----".
Definition pem_end : string := "-----END PUBLIC KEY-----".
Definition newline : string := String "010"%char "".
Definition pem_text (body : string) : string := pem_begin +:+ newline +:+ body +:+ newline +:+ pem_end +:+ newline.
Lemma newline_app s : newline +:+ s = String "010"%char s.
Proof. done. Qed.
Lemma not_dashes s : str_forall b64_char s = true → starts_with "-----" s = false.
Proof.
  intros Hs. unfold starts_with. apply bool_decide_eq_false. destruct s as [|c s]; [by intros []|].
  simpl in Hs. apply andb_true_iff in Hs as [Hc _]. cbn [strip_prefix]. rewrite decide_False; [by intros []|].
  by intros <-.
Qed.
Lemma pem_body_text body : str_forall b64_char body = true → pem_body (pem_text body) = body.
Proof.
  intros Hb. assert (str_forall visible body = true) as Hv by (by eapply str_forall_impl, Hb; apply b64_visible).
  assert (lines (pem_text body) = [pem_begin; body; pem_end]) as Hl.
  { assert (str_split "010"%char (pem_text body) = [pem_begin; body; pem_end; ""%string]) as Hs.
    { unfold pem_text. rewrite !newline_app, !str_split_app; [done..| |done].
      by eapply str_forall_impl, Hv; apply visible_not_newline. }
    unfold lines. rewrite Hs. cbn [rev app fmap list_fmap]. by rewrite (strip_cr_visible body Hv). }
  unfold pem_body. rewrite Hl. rewrite filter_cons_False by done. rewrite filter_cons_True; [|exact (not_dashes _ Hb)].
  rewrite filter_cons_False by done. cbn [filter list_filter fmap list_fmap String.concat].
  by rewrite without_space_visible.
Qed.

Lemma pem_body_bare body : str_forall b64_char body = true → pem_body body = body.
Proof.
  intros Hb. assert (str_forall visible body = true) as Hv by (by eapply str_forall_impl, Hb; apply b64_visible).
  unfold pem_body, lines. rewrite str_split_one by (by eapply str_forall_impl, Hv; apply visible_not_newline).
  destruct body as [|c body]; [done|]. cbn [rev app fmap list_fmap]. rewrite (strip_cr_visible _ Hv).
  rewrite filter_cons_True; [|exact (not_dashes _ Hb)].
  cbn [filter list_filter fmap list_fmap String.concat]. by rewrite without_space_visible.
Qed.

(** What a service gives for a key: the bytes of the key, alone or behind the
    twelve bytes of their type, in base64, bare or in PEM. *)
Definition publishes `{Base64Ops} (pk : bytes) (text : string) : Prop :=
  ∃ prefix, (prefix = [] ∨ length prefix = 12) ∧
    (text = b64_encode (prefix ++ pk) ∨ text = pem_text (b64_encode (prefix ++ pk))).
Lemma published_decodes `{Base64Laws} pk text : length pk = 32 → publishes pk text →
  decode_ed25519_public_key text = Some pk ∧ decode_ed25519_spki_pem text = Some pk.
Proof.
  intros Hk (prefix & Hp & Ht).
  assert (pem_body text = b64_encode (prefix ++ pk)) as Hbody.
  { destruct Ht as [-> | ->]; [apply pem_body_bare|apply pem_body_text]; apply b64_encode_chars. }
  unfold decode_ed25519_public_key, decode_ed25519_spki_pem.
  rewrite Hbody, b64_decode_encode. cbn [result_ok mbind option_bind]. rewrite length_app, Hk.
  destruct Hp as [-> | Hp]; [done|]. rewrite Hp. cbn [Nat.add Nat.eqb]. by rewrite drop_app_length'.
Qed.

(** ** Services that hold a key *)

Section services.
Context `{CryptoOps} `{!CryptoLaws} `{Base64Ops} `{!Base64Laws}.
Implicit Types (sk : SigningKey).
Notation pk sk := (ed25519_public (SigningKey.secret sk)).

(** Vault: the latest version of the key has this public part, and signatures
    are made with it and named after a version. *)
Definition vault_holds (api : VaultApi) (mount name : string) sk : Prop :=
  (∀ token rk keys latest, key_read api token mount name = Ok rk → key_data rk = Asymmetric keys →
     max_version (omap (λ k, (λ n, (n, k.2)) <$> parse_u64 k.1) keys) = Some latest →
     publishes (pk sk) latest.2) ∧
  ∀ token m resp, data_sign api token mount name (b64_encode m) = Ok resp →
    ∃ n, resp = "vault:v" +:+ show_N n +:+ ":" +:+ b64_encode (ed25519_sign (SigningKey.secret sk) m).
Definition gcp_holds (api : GcpApi) (name : string) sk : Prop :=
  (∀ r, get_public_key api name = Ok r → is_ec_sign_ed25519 r = true → publishes (pk sk) (pem r)) ∧
  ∀ m sig, asymmetric_sign api name m = Ok sig → sig = ed25519_sign (SigningKey.secret sk) m.
Definition azure_holds (api : AzureApi) (name version : string) sk : Prop :=
  (∀ jwk b, get_key api name version = Ok (Ok (Some jwk)) → jwk_x jwk = Some b → b = pk sk) ∧
  ∀ m sig, azure_sign_call api name version "EdDSA" m = Ok (Ok (Some sig)) → sig = ed25519_sign (SigningKey.secret sk) m.

(** A signer that gives what the key would give, or an error. *)
Definition agrees (s : Signer) sk : Prop :=
  Signer.public_key s = SigningKey.public sk ∧
  ∀ m sig, Signer.sign_message s m = Ok sig → Signer.sign_message (in_process_signer sk) m = Ok sig.

Lemma ed25519_key_Ok what b k : ed25519_key what b = Ok k → k = PublicKey.mk SignatureAlgorithm.Ed25519 b.
Proof. unfold ed25519_key. intros Hk. inv_ok Hk. by apply PublicKey_new_Ok in Hk as [-> _]. Qed.
Lemma ed25519_signature_Ok what b f s : ed25519_signature what b f = Ok s → s = Signature.mk SignatureAlgorithm.Ed25519 b f.
Proof. unfold ed25519_signature. intros Hk. inv_ok Hk. by apply Signature_new_Ok in Hk as [-> _]. Qed.

Lemma split_once_app c a b : str_forall (λ d, negb (bool_decide (d = c))) a = true →
  split_once c (a +:+ String c b) = Some (a, b).
Proof.
  induction a as [|d a IH]; simpl; [by rewrite decide_True|].
  intros [Hd Ha]%andb_true_iff. apply negb_true_iff, bool_decide_eq_false in Hd.
  rewrite decide_False by done. by rewrite IH.
Qed.
Lemma vault_third_part n sig : third_part ("vault:v" +:+ show_N n +:+ ":" +:+ sig) = Some sig.
Proof.
  unfold third_part. change ("vault:v" +:+ ?s) with ("vault" +:+ String ":" ("v" +:+ s)).
  rewrite split_once_app by done. cbn [mbind option_bind snd].
  change ("v" +:+ show_N n +:+ ":" +:+ sig) with (String "v" (show_N n) +:+ String ":" sig).
  rewrite (split_once_app ":" (String "v" (show_N n))); [done|]. cbn [str_forall]. apply andb_true_iff. split; [done|].
  eapply str_forall_impl, show_N_digits. intros c Hc. apply negb_true_iff, bool_decide_eq_false. by intros ->.
Qed.

(** [C32] The remote signers refine the in-process signer: once connected to a
    service that holds an Ed25519 key, a signer of any of the three kinds has that
    key's public part, and every signature it returns - while the service still
    holds the key - is the one the in-process signer with the key returns, value,
    algorithm and fingerprint.  Vault and GCP KMS may publish the key as 32 bytes
    or as the 44 of its SPKI document, in base64, bare or in PEM: each of the four
    is read as the key. *)
Theorem remote_signers_agree :
  (∀ sk text, publishes (pk sk) text →
     decode_ed25519_public_key text = Some (pk sk) ∧ decode_ed25519_spki_pem text = Some (pk sk)) ∧
  (∀ api api' config s sk, vault_holds api (vault_mount config) (vault_key_name config) sk →
     vault_holds api' (vault_mount config) (vault_key_name config) sk →
     vault_connect api config = Ok s → agrees (vault_signer api' s) sk) ∧
  (∀ api api' config s sk, gcp_holds api (key_version_name config) sk → gcp_holds api' (key_version_name config) sk →
     gcp_connect api config = Ok s → agrees (gcp_signer api' s) sk) ∧
  (∀ api api' config s sk, azure_holds api (azure_key_name config) (default ""%string (key_version config)) sk →
     azure_holds api' (azure_key_name config) (default ""%string (key_version config)) sk →
     azure_connect api config = Ok s → agrees (azure_signer api' s) sk).
Proof.
  assert (∀ sk text, publishes (pk sk) text →
    decode_ed25519_public_key text = Some (pk sk) ∧ decode_ed25519_spki_pem text = Some (pk sk)) as Hdec.
  { intros sk text. apply published_decodes, ed25519_public_length. }
  split; [done|]. split_and!; intros api api' config s sk [Hkey _] [_ Hsign] Hc.
  - unfold vault_connect, fetch_public_key in Hc. inv_ok Hc.
    destruct (key_data _) as [keys|] eqn:Hkd; [|done]. match goal with H : rbind _ _ = Ok _ |- _ => inv_ok H end.
    match goal with H : key_read _ _ _ _ = Ok ?rk, H' : max_version _ = Some ?l |- _ =>
      rewrite (proj1 (Hdec sk _ (Hkey _ _ _ _ H Hkd H'))) in * end. simplify_eq.
    match goal with H : ed25519_key _ _ = Ok _ |- _ => apply ed25519_key_Ok in H as -> end.
    split; [done|]. intros m sig Hm. simpl in Hm. unfold vault_sign in Hm. inv_ok Hm.
    match goal with H : data_sign _ _ _ _ _ = Ok _ |- _ => apply Hsign in H as [n ->] end.
    rewrite vault_third_part in *. simplify_eq.
    match goal with H : b64_decode _ = Ok _ |- _ => rewrite b64_decode_encode in H; simplify_eq end.
    by apply ed25519_signature_Ok in Hm as ->.
  - unfold gcp_connect in Hc. inv_ok Hc.
    match goal with H : get_public_key _ _ = Ok ?r, H' : is_ec_sign_ed25519 ?r = true |- _ =>
      rewrite (proj2 (Hdec sk _ (Hkey _ H H'))) in * end. simplify_eq.
    match goal with H : ed25519_key _ _ = Ok _ |- _ => apply ed25519_key_Ok in H as -> end.
    split; [done|]. intros m sig Hm. simpl in Hm. unfold gcp_sign in Hm. inv_ok Hm.
    match goal with H : asymmetric_sign _ _ _ = Ok _ |- _ => apply Hsign in H as -> end.
    by apply ed25519_signature_Ok in Hm as ->.
  - unfold azure_connect, connect_with_credential in Hc. inv_ok Hc.
    match goal with H : get_key _ _ _ = Ok _, H' : jwk_x _ = Some _ |- _ => pose proof (Hkey _ _ H H') as -> end.
    match goal with H : ed25519_key _ _ = Ok _ |- _ => apply ed25519_key_Ok in H as -> end.
    split; [done|]. intros m sig Hm. simpl in Hm. unfold azure_sign in Hm. inv_ok Hm.
    match goal with H : azure_sign_call _ _ _ _ _ = Ok _ |- _ => apply Hsign in H as -> end.
    by apply ed25519_signature_Ok in Hm as ->.
Qed.
End services.

(** ** Concrete services: base64 is hexadecimal *)

Module SignersToy.
Definition nibble (c : ascii) : N := if is_digit c then digit_val c else (N_of_ascii c - 87)%N.
Fixpoint unhex (s : string) : bytes :=
  match s with String c (String d s) => byte_of (16 * nibble c + nibble d) :: unhex s | _ => [] end.
#[global] Instance b64 : Base64Ops := {| b64_encode := hex; b64_decode s := Ok (unhex s) |}.
Lemma unhex_hex b : unhex (hex b) = b.
Proof.
  induction b as [|x b IH]; [done|]. transitivity (x :: unhex (hex b)); [|by rewrite IH]. by destruct x.
Qed.
#[global] Instance b64_laws : Base64Laws.
Proof.
  split; [intros b; unfold b64_decode, b64_encode, b64; by rewrite unhex_hex|].
  induction b as [|x b IH]; [done|]. change (b64_encode (x :: b)) with (hex_byte x +:+ hex b).
  rewrite str_forall_app. apply andb_true_iff. split; [by destruct x|exact IH].
Qed.
Definition key : SigningKey := SigningKey.mk [Byte.x05].
Definition document : string := pem_text (b64_encode (replicate 12 Byte.x30 ++ ed25519_public (SigningKey.secret key))).
Definition bare : string := b64_encode (ed25519_public (SigningKey.secret key)).
Lemma document_published : publishes (ed25519_public (SigningKey.secret key)) document.
Proof. exists (replicate 12 Byte.x30). split; [by right|by right]. Qed.
Lemma bare_published : publishes (ed25519_public (SigningKey.secret key)) bare.
Proof. exists []. split; [by left|by left]. Qed.
Definition versions (latest : string) : list (string * string) := [("2", latest); ("1", "old")]%string.
Definition signed (m : bytes) : string := "vault:v" +:+ show_N 2 +:+ ":" +:+ b64_encode (ed25519_sign (SigningKey.secret key) m).
Definition vault : VaultApi :=
  mkVaultApi (λ _, Ok tt) (λ _, Ok tt) (λ _ _ _, Ok "s.token"%string)
    (λ token mount name, if decide (token = Some "s.token"%string) then
        Ok (mkReadKey true "Ed25519" (Asymmetric (versions bare)))
      else Err (APIError 403 "permission denied"))
    (λ _ _ _ m, Ok (signed (unhex m))).
Definition vault_config : VaultConfig := mkVaultConfig "https://v" "transit" "k" (AppRole "approle" "r" "s") None.
Lemma versions_latest d : max_version (omap (λ k, (λ n, (n, k.2)) <$> parse_u64 k.1) (versions d)) = Some (2%N, d).
Proof. reflexivity. Qed.
Lemma vault_key : vault_holds vault "transit" "k" key.
Proof.
  split.
  - intros token rk keys latest Hr Hk Hm. unfold vault, key_read in Hr. case_decide; [|discriminate].
    assert (rk = mkReadKey true "Ed25519" (Asymmetric (versions bare))) as -> by congruence.
    cbn [key_data] in Hk. assert (keys = versions bare) as -> by congruence.
    rewrite versions_latest in Hm. assert (latest = (2%N, bare)) as -> by congruence. exact bare_published.
  - intros token m resp Hr. unfold vault, data_sign in Hr. cbn [b64_encode b64] in Hr. rewrite unhex_hex in Hr.
    exists 2%N. assert (resp = signed m) as -> by congruence. reflexivity.
Qed.
Definition gcp : GcpApi :=
  mkGcpApi (λ _, Ok tt) (λ _, Ok (mkGcpPublicKey true "EcSignEd25519" document)) (λ _ m, Ok (ed25519_sign (SigningKey.secret key) m)).
Definition gcp_config : GcpKmsConfig := mkGcpConfig "p/cryptoKeyVersions/1" None.
Lemma gcp_key : gcp_holds gcp "p/cryptoKeyVersions/1" key.
Proof.
  split; [|by intros m sig [= <-]]. intros r [= <-] _. exact document_published.
Qed.
Definition azure : AzureApi :=
  mkAzureApi (Ok tt) (λ _, Ok tt)
    (λ _ _, Ok (Ok (Some (mkAzureJwk (Some "OKP-HSM"%string) "" (Some "Ed25519"%string) "" (Some (ed25519_public (SigningKey.secret key)))))))
    (λ _ _ _ m, Ok (Ok (Some (ed25519_sign (SigningKey.secret key) m)))).
Definition azure_config : AzureKvConfig := mkAzureConfig "https://h" "k" None.
Lemma azure_key : azure_holds azure "k" "" key.
Proof. split; [by intros jwk b [= <-] [= <-]|by intros m sig [= <-]]. Qed.
End SignersToy.

Lemma remote_signers_agree_witness :
  (∃ s, vault_connect SignersToy.vault SignersToy.vault_config = Ok s ∧ agrees (vault_signer SignersToy.vault s) SignersToy.key) ∧
  (∃ s, gcp_connect SignersToy.gcp SignersToy.gcp_config = Ok s ∧ agrees (gcp_signer SignersToy.gcp s) SignersToy.key) ∧
  (∃ s, azure_connect SignersToy.azure SignersToy.azure_config = Ok s ∧ agrees (azure_signer SignersToy.azure s) SignersToy.key).
Proof.
  destruct remote_signers_agree as (_ & Hv & Hg & Ha). split; [|split]; eexists; (split; [vm_compute; reflexivity|]).
  - eapply (Hv SignersToy.vault SignersToy.vault SignersToy.vault_config); [exact SignersToy.vault_key..|vm_compute; reflexivity].
  - eapply (Hg SignersToy.gcp SignersToy.gcp SignersToy.gcp_config); [exact SignersToy.gcp_key..|vm_compute; reflexivity].
  - eapply (Ha SignersToy.azure SignersToy.azure SignersToy.azure_config); [exact SignersToy.azure_key..|vm_compute; reflexivity].
Defined.
