(* ===== verification/Startup.v ===== *)
(** * [yutha-control-plane/src/main.rs]: from the flags to the parts

    The options of the command line and their validation: the attestor, the
    signer, the anchoring of batches, the workload extensions of the schema, the
    requirement of capabilities, the mode of TLS.  What the parts connect to -
    files, identity providers, key services, the process's randomness - is given
    at one moment by parameters; an error is the text [anyhow] shows. *)

From S2P Require Import Prelude RustStd RustText Core Crypto CedarPlus Registry Seed.
From S2P Require Import Oidc Spiffe Signers.

(* yutha-control-plane/src/main.rs:687-690 AdmissionModeArg *)
Inductive AdmissionModeArg := ModeClosed | ModeOpen.
(* yutha-control-plane/src/main.rs:698-702 AttestorArg *)
Inductive AttestorArg := NativeArg | SpiffeArg | OidcArg.
(* yutha-control-plane/src/main.rs:797-802 SignerArg *)
Inductive SignerArg := InProcessArg | VaultArg | GcpKmsArg | AzureKvArg.
(* yutha-control-plane/src/main.rs:1344-1348 RequireCapForSendArg *)
Inductive RequireCapForSendArg := CapAuto | CapTrue | CapFalse.
(* yutha-control-plane/src/main.rs:1351-1357 RequireCapForSendArg::resolve *)
Definition resolve (self : RequireCapForSendArg) (admission : AdmissionModeArg) : bool :=
  match self with
  | CapAuto => match admission with ModeClosed => true | ModeOpen => false end
  | CapTrue => true
  | CapFalse => false
  end.

(** [o.as_deref().filter(|s| !s.is_empty())] *)
Definition non_empty (o : option string) : option string :=
  s ← o; if decide (s = ""%string) then None else Some s.

(* yutha-control-plane/src/main.rs:712-719 SpiffeCliOpts *)
Record SpiffeCliOpts := mkSpiffeOpts {
  spiffe_socket : option string; spiffe_bundle_file : option string; spiffe_audience : option string;
  spiffe_max_staleness_secs : option N; spiffe_clock_skew_secs : N; spiffe_connect_timeout_secs : N }.
(* yutha-control-plane/src/main.rs:756-768 OidcCliOpts *)
Record OidcCliOpts := mkOidcOpts {
  oidc_issuer : option string; oidc_audience : option string; oidc_jwks_uri : option string;
  oidc_jwks_file : option string; oidc_project_claims : list string; oidc_allowed_algs : list string;
  oidc_cache_ttl_secs : N; oidc_max_staleness_secs : option N; oidc_clock_skew_secs : N;
  oidc_connect_timeout_secs : N; oidc_allow_insecure_http : bool }.
(* yutha-control-plane/src/main.rs:740-749 default_oidc_allowed_algs *)
Definition default_oidc_allowed_algs : list string := ["RS256"; "RS384"; "RS512"; "ES256"; "ES384"; "EdDSA"].
(* yutha-control-plane/src/main.rs:813-822 VaultSignerCliOpts *)
Record VaultSignerCliOpts := mkVaultOpts {
  vault_addr : option string; opt_mount : string; opt_key : option string; opt_namespace : option string;
  token_file : option string; approle_mount : string; approle_role_id : option string;
  approle_secret_id_file : option string }.
(* yutha-control-plane/src/main.rs:844-847 GcpKmsSignerCliOpts *)
Record GcpKmsSignerCliOpts := mkGcpOpts { gcp_key_version : option string; gcp_endpoint : option string }.
(* yutha-control-plane/src/main.rs:863-867 AzureKvSignerCliOpts *)
Record AzureKvSignerCliOpts := mkAzureOpts {
  azure_vault_url : option string; azure_opt_key_name : option string; azure_opt_key_version : option string }.

(** ** Attestors *)

Section attestors.
Context `{SerdeJson} `{!Jsonwebtoken} `{!OidcStd} `{!SpiffeOps}.

(** What connecting can ask of the process's surroundings, at [now]. *)
Record Surroundings := mkSurroundings {
  now : Instant; read_file : string → Result bytes string; bundle_shape_error : string;
  initial_sync : string → N → Result unit string; oidc_env : Env }.
(** The attestor that was configured, connected. *)
Inductive ConnectedAttestor :=
| NativeAttestor | ConnectedSpiffe (a : SpiffeAttestor) | ConnectedOidc (config : OidcConfig) (c : JwksCache).
Implicit Types (world : Surroundings).

(* yutha-control-plane/src/main.rs:912-968 build_spiffe_attestor *)
Definition build_spiffe_attestor world (opts : SpiffeCliOpts) : Result ConnectedAttestor string :=
  let? audience := ok_or (non_empty (spiffe_audience opts))
    "--attestor spiffe requires --attestor-spiffe-audience (a swarm-specific value; see /spec/identity-keys/attestor-spiffe.md §6.1)" in
  let? source :=
    match spiffe_socket opts, spiffe_bundle_file opts with
    | Some socket, None => Ok (TrustBundleSource.WorkloadApi socket)
    | None, Some path => Ok (TrustBundleSource.StaticFile path)
    | None, None => Err "--attestor spiffe requires EXACTLY ONE of --attestor-spiffe-socket (SPIRE Workload API) or --attestor-spiffe-bundle-file (static JWKS); both are unset. See /spec/identity-keys/attestor-spiffe.md §4."%string
    | Some _, Some _ => Err "--attestor spiffe requires EXACTLY ONE of --attestor-spiffe-socket and --attestor-spiffe-bundle-file; both are set. See /spec/identity-keys/attestor-spiffe.md §4.3."%string
    end in
  let config := SpiffeConfig.mk source audience (from_secs <$> spiffe_max_staleness_secs opts)
                  (spiffe_clock_skew_secs opts) (spiffe_connect_timeout_secs opts) in
  let? attestor := map_err (λ e, "SPIFFE Attestor construction failed: " +:+ AttestorError.to_string e
      +:+ ". See /spec/identity-keys/attestor-spiffe.md and docs/operator/spiffe-attestor.md for troubleshooting.")
    (spiffe_connect (read_file world) (bundle_shape_error world) (initial_sync world) (now world) config) in
  Ok (ConnectedSpiffe attestor).

(** Nothing comes of it while the identity provider does not answer. *)
(* yutha-control-plane/src/main.rs:984-1056 build_oidc_attestor *)
Definition build_oidc_attestor world (opts : OidcCliOpts) : Poll (Result ConnectedAttestor string) :=
  await? issuer := Ready (ok_or (non_empty (oidc_issuer opts))
    "--attestor oidc requires --attestor-oidc-issuer (the IdP's issuer URL; see /spec/identity-keys/attestor-oidc.md §6.1)") in
  await? audience := Ready (ok_or (non_empty (oidc_audience opts))
    "--attestor oidc requires --attestor-oidc-audience (a swarm-specific value; see /spec/identity-keys/attestor-oidc.md §6.1)") in
  await? source := Ready
    match oidc_jwks_uri opts, oidc_jwks_file opts with
    | None, None => Ok (JwksSource.Discovery issuer)
    | Some url, None => Ok (JwksSource.JwksUri url)
    | None, Some path => Ok (JwksSource.StaticFile path)
    | Some _, Some _ => Err "--attestor oidc requires AT MOST ONE of --attestor-oidc-jwks-uri or --attestor-oidc-jwks-file; both are set. See /spec/identity-keys/attestor-oidc.md §4.4."%string
    end in
  let config := OidcConfig.mk source issuer audience (oidc_allowed_algs opts) (oidc_project_claims opts)
                  (oidc_cache_ttl_secs opts) (oidc_max_staleness_secs opts) (oidc_clock_skew_secs opts)
                  (oidc_connect_timeout_secs opts) (oidc_allow_insecure_http opts) in
  await? cache := poll_map (map_err (λ e, "OIDC Attestor construction failed: " +:+ AttestorError.to_string e
      +:+ ". See /spec/identity-keys/attestor-oidc.md and docs/operator/oidc-attestor.md for troubleshooting."))
    (Oidc.connect (oidc_env world) (now world) config) in
  Ready (Ok (ConnectedOidc config cache)).

(* yutha-control-plane/src/main.rs:888-898 AttestorArg::build *)
Definition AttestorArg_build world (self : AttestorArg) (spiffe : SpiffeCliOpts) (oidc : OidcCliOpts) :
    Poll (Result ConnectedAttestor string) :=
  match self with
  | NativeArg => Ready (Ok NativeAttestor)
  | SpiffeArg => Ready (build_spiffe_attestor world spiffe)
  | OidcArg => build_oidc_attestor world oidc
  end.
End attestors.

(** ** Signers *)

Section signers.
Context `{CryptoOps} `{Base64Ops}.
(** [fs::read_to_string]; [vault_reads]: what the context of its error is
    attached to does not show. *)
Context (read_to_string : string → Result string string) (vault : VaultApi) (gcp : GcpApi) (azure : AzureApi).

(** The trimmed text of a file, which must not be empty. *)
(* yutha-control-plane/src/main.rs:1143-1152 build_vault_signer (token file) *)
Definition read_secret (what path : string) : Result string string :=
  let? text := map_err (λ _, "read Vault " +:+ what +:+ " file " +:+ path) (read_to_string path) in
  let s := trim text in
  require negb (bool_decide (s = ""%string)) else "Vault " +:+ what +:+ " file " +:+ path +:+ " is empty after trim" in
  Ok s.

(* yutha-control-plane/src/main.rs:1109-1216 build_vault_signer *)
Definition build_vault_signer (opts : VaultSignerCliOpts) : Result Signer string :=
  let? address := ok_or (non_empty (vault_addr opts))
    "--signer vault requires --signer-vault-addr (Vault HTTPS endpoint; see docs/operator/vault-signer.md)" in
  let? key_name := ok_or (non_empty (opt_key opts))
    "--signer vault requires --signer-vault-key (transit key name; see docs/operator/vault-signer.md)" in
  let? auth :=
    match token_file opts, approle_role_id opts, approle_secret_id_file opts with
    | Some token_path, None, None =>
        let? token := read_secret "token" token_path in Ok (Token token)
    | None, Some role_id, Some secret_id_path =>
        let? secret_id := read_secret "AppRole secret-id" secret_id_path in
        Ok (AppRole (approle_mount opts) role_id secret_id)
    | None, None, None => Err "--signer vault requires EXACTLY ONE auth method: --signer-vault-token-file <path>, OR --signer-vault-approle-role-id <id> + --signer-vault-approle-secret-id-file <path>. See docs/operator/vault-signer.md."%string
    | Some _, Some _, _ | Some _, _, Some _ => Err "--signer vault requires EXACTLY ONE auth method; --signer-vault-token-file is mutually exclusive with the --signer-vault-approle-* pair. See docs/operator/vault-signer.md."%string
    | None, Some _, None | None, None, Some _ => Err "--signer vault AppRole auth requires BOTH --signer-vault-approle-role-id and --signer-vault-approle-secret-id-file; only one is set. See docs/operator/vault-signer.md."%string
    end in
  let config := mkVaultConfig address (opt_mount opts) key_name auth (opt_namespace opts) in
  let? signer := map_err (λ e, "Vault Signer construction failed: " +:+ SignerError.to_string e
      +:+ ". See docs/operator/vault-signer.md for troubleshooting (mount path, key type=ed25519, auth-method credentials).")
    (vault_connect vault config) in
  Ok (vault_signer vault signer).

(* yutha-control-plane/src/main.rs:1234-1268 build_gcp_kms_signer *)
Definition build_gcp_kms_signer (opts : GcpKmsSignerCliOpts) : Result Signer string :=
  let? key_version := ok_or (non_empty (gcp_key_version opts))
    "--signer gcp-kms requires --signer-gcp-kms-key-version (full Cloud KMS resource path including /cryptoKeyVersions/<n>; see docs/operator/gcp-kms-signer.md)" in
  let? config := map_err (λ e, "--signer gcp-kms: invalid configuration: " +:+ SignerError.to_string e
      +:+ ". See docs/operator/gcp-kms-signer.md.") (GcpKmsConfig_new key_version (gcp_endpoint opts)) in
  let? signer := map_err (λ e, "GCP KMS Signer construction failed: " +:+ SignerError.to_string e
      +:+ ". See docs/operator/gcp-kms-signer.md for troubleshooting (ADC credentials, key purpose=ASYMMETRIC_SIGN, algorithm=EC_SIGN_ED25519).")
    (gcp_connect gcp config) in
  Ok (gcp_signer gcp signer).

(* yutha-control-plane/src/main.rs:1290-1338 build_azure_kv_signer *)
Definition build_azure_kv_signer (opts : AzureKvSignerCliOpts) : Result Signer string :=
  let? vault_url := ok_or (non_empty (azure_vault_url opts))
    "--signer azure-kv requires --signer-azure-kv-vault-url (Managed HSM URL, https://*.managedhsm.azure.net; see docs/operator/azure-kv-signer.md)" in
  let? key_name := ok_or (non_empty (azure_opt_key_name opts))
    "--signer azure-kv requires --signer-azure-kv-key-name (HSM key name; see docs/operator/azure-kv-signer.md)" in
  let? config := map_err (λ e, "--signer azure-kv: invalid configuration: " +:+ SignerError.to_string e
      +:+ ". See docs/operator/azure-kv-signer.md.") (AzureKvConfig_new vault_url key_name (azure_opt_key_version opts)) in
  let? signer := map_err (λ e, "Azure Managed HSM Signer construction failed: " +:+ SignerError.to_string e
      +:+ ". See docs/operator/azure-kv-signer.md for troubleshooting (Managed HSM tier required for Ed25519, DefaultAzureCredential setup, key permissions).")
    (azure_connect azure config) in
  Ok (azure_signer azure signer).

(** [generated]: the key of [InProcessSigner::generate()]. *)
(* yutha-control-plane/src/main.rs:1074-1086 SignerArg::build *)
Definition SignerArg_build (generated : SigningKey) (self : SignerArg) (vault_opts : VaultSignerCliOpts)
    (gcp_opts : GcpKmsSignerCliOpts) (azure_opts : AzureKvSignerCliOpts) : Result Signer string :=
  match self with
  | InProcessArg => Ok (in_process_signer generated)
  | VaultArg => build_vault_signer vault_opts
  | GcpKmsArg => build_gcp_kms_signer gcp_opts
  | AzureKvArg => build_azure_kv_signer azure_opts
  end.
End signers.

(** ** Anchoring, workload extensions, TLS *)

(** The flags of the Sui anchoring. *)
Record AnchorFlags := mkAnchorFlags {
  sui_rpc_url : option string; package_id : option string; swarm_anchor_id : option string;
  sealer_key_file : option string; flag_batch_count_threshold : N; flag_batch_time_threshold_secs : N;
  flag_max_batch_size : N }.
(* yutha-control-plane/src/main.rs:2212-2225 ResolvedAnchorConfig *)
Record ResolvedAnchorConfig := mkAnchorConfig {
  rpc_url : string; package_id_hex : string; swarm_anchor_id_hex : string; anchor_key_file : string;
  batch_count_threshold : N; batch_time_threshold : N; max_batch_size : N }.
(* yutha-control-plane/src/main.rs:2232-2273 resolve_anchor_config *)
Definition resolve_anchor_config (cli : AnchorFlags) : Result (option ResolvedAnchorConfig) string :=
  let endpoints := [("--anchor-sui-rpc-url", sui_rpc_url cli); ("--anchor-package-id", package_id cli);
                    ("--anchor-swarm-anchor-id", swarm_anchor_id cli);
                    ("--anchor-sealer-key-file", sealer_key_file cli)]%string in
  match length (filter (λ e, is_Some e.2) endpoints) with
  | 0 => Ok None
  | 4 =>
      Ok (c ← sui_rpc_url cli; p ← package_id cli; a ← swarm_anchor_id cli; f ← sealer_key_file cli;
          Some (mkAnchorConfig c p a f (flag_batch_count_threshold cli)
                  (from_secs (flag_batch_time_threshold_secs cli)) (flag_max_batch_size cli)))
  | _ =>
      Err ("Sui anchoring partially configured: missing "
           +:+ str_join ", " (filter (λ e, e.2 = None) endpoints).*1
           +:+ ". All four of --anchor-sui-rpc-url, --anchor-package-id, --anchor-swarm-anchor-id, --anchor-sealer-key-file are required together to enable anchoring, or all four omitted to disable it.")
  end.

(** The schema files the build embeds, and [Schema::from_cedarschema_str]. *)
Record SchemaFiles `{SerdeJson} {engine : Cedar} := mkSchemaFiles {
  base_schema : string; support_queue : string; code_review : string;
  from_cedarschema_str : string → Result Schema string }.
(* yutha-cedar-plus/src/loader.rs:281-287 workload_extension_by_name *)
Definition workload_extension_by_name `{SerdeJson} {engine : Cedar} (files : SchemaFiles) (name : string) : option string :=
  if decide (name = "support-queue"%string) then Some (support_queue files)
  else if decide (name = "code-review"%string) then Some (code_review files) else None.
(* yutha-cedar-plus/src/loader.rs:230-256 canonical_schema_v1_1_with_extensions *)
Definition canonical_schema_v1_1_with_extensions `{SerdeJson} {engine : Cedar} (files : SchemaFiles)
    (extensions : list string) : Result Schema CedarPlusError :=
  let combined := foldl (λ owned ext, owned +:+ String "010" ext) (base_schema files) extensions in
  map_err (λ e, CedarPlusError.Parse ("v1.1 canonical schema + " +:+ show_N (N.of_nat (length extensions))
                  +:+ " extension(s) failed to parse: " +:+ e)) (from_cedarschema_str files combined).
(* yutha-control-plane/src/main.rs:1399-1408 main (workload extensions) *)
Fixpoint workload_sources `{SerdeJson} {engine : Cedar} (files : SchemaFiles) (names : list string) :
    Result (list string) string :=
  match names with
  | [] => Ok []
  | name :: names =>
      let? src := ok_or (workload_extension_by_name files name)
        ("--workload " +:+ name +:+ ": unknown workload extension. Known names: support-queue, code-review (see /spec/constitution/canonical-schemas/v1.1.0/)") in
      let? rest := workload_sources files names in Ok (src :: rest)
  end.

Inductive TlsMode := Plaintext | ServerTls (cert key : bytes) (client_ca : option bytes).
Definition show_bool (b : bool) : string := if b then "true" else "false".
(* yutha-control-plane/src/main.rs:2320-2358 serve_grpc (TLS) *)
Definition tls_mode (read : string → Result bytes string) (tls_cert tls_key client_ca : option string) :
    Result TlsMode string :=
  match tls_cert, tls_key, client_ca with
  | None, None, None => Ok Plaintext
  | Some cert_path, Some key_path, client_ca =>
      let? cert_pem := map_err (λ _, "read TLS cert " +:+ debug_str cert_path) (read cert_path) in
      let? key_pem := map_err (λ _, "read TLS key " +:+ debug_str key_path) (read key_path) in
      match client_ca with
      | Some ca_path =>
          let? ca_pem := map_err (λ _, "read client CA " +:+ debug_str ca_path) (read ca_path) in
          Ok (ServerTls cert_pem key_pem (Some ca_pem))
      | None => Ok (ServerTls cert_pem key_pem None)
      end
  | cert, key, _ =>
      Err ("TLS misconfiguration: --tls-cert and --tls-key must be set together (cert = "
           +:+ show_bool (bool_decide (is_Some cert)) +:+ ", key = " +:+ show_bool (bool_decide (is_Some key)) +:+ ")")
  end.

(** ** What the flags allow *)

(** Anchoring is off, on with all four flags, or refused. *)
Lemma anchoring_all_or_nothing (cli : AnchorFlags) :
  match resolve_anchor_config cli with
  | Ok None => sui_rpc_url cli = None ∧ package_id cli = None ∧ swarm_anchor_id cli = None ∧ sealer_key_file cli = None
  | Ok (Some c) => sui_rpc_url cli = Some (rpc_url c) ∧ package_id cli = Some (package_id_hex c) ∧
      swarm_anchor_id cli = Some (swarm_anchor_id_hex c) ∧ sealer_key_file cli = Some (anchor_key_file c)
  | Err _ => ∃ given missing, given ∈ [sui_rpc_url cli; package_id cli; swarm_anchor_id cli; sealer_key_file cli] ∧
      missing ∈ [sui_rpc_url cli; package_id cli; swarm_anchor_id cli; sealer_key_file cli] ∧
      is_Some given ∧ missing = None
  end.
Proof.
  destruct cli as [[u|] [p|] [a|] [f|] x y z]; cbn; try done; [exists (Some u)..|exists (Some p)|exists (Some p)|exists (Some p)|
    exists (Some p)|exists (Some a)|exists (Some a)|exists (Some f)]; exists None; set_solver.
Qed.

Lemma non_empty_Some o s : non_empty o = Some s ↔ o = Some s ∧ s ≠ ""%string.
Proof. unfold non_empty. destruct o as [t|]; simpl; [case_decide; naive_solver|naive_solver]. Qed.

(** A SPIFFE attestor has the audience that was asked for, which is not empty, and
    exactly one source. *)
Lemma spiffe_flags `{SerdeJson} `{!Jsonwebtoken} `{!OidcStd} `{!SpiffeOps} world opts a :
  build_spiffe_attestor world opts = Ok a →
  ∃ s, a = ConnectedSpiffe s ∧ spiffe_audience opts = Some (expected_audience s) ∧ expected_audience s ≠ ""%string ∧
    (is_Some (spiffe_socket opts) ↔ spiffe_bundle_file opts = None).
Proof.
  unfold build_spiffe_attestor. intros Hb. inv_ok Hb.
  match goal with H : non_empty _ = Some _ |- _ => apply non_empty_Some in H as [Ha Hne] end.
  match goal with H : spiffe_connect _ _ _ _ _ = Ok _ |- _ => unfold spiffe_connect in H; inv_ok H end.
  eexists. split; [reflexivity|]. split; [exact Ha|]. split; [exact Hne|].
  destruct (spiffe_socket opts), (spiffe_bundle_file opts); naive_solver.
Qed.

(** An OIDC attestor is configured with the issuer and the audience that were
    given, and not with two sources. *)
Lemma oidc_flags `{SerdeJson} `{!Jsonwebtoken} `{!OidcStd} `{!SpiffeOps} world opts a :
  build_oidc_attestor world opts = Ready (Ok a) →
  ∃ config cache, a = ConnectedOidc config cache ∧
    oidc_issuer opts = Some (OidcConfig.expected_issuer config) ∧
    oidc_audience opts = Some (OidcConfig.expected_audience config) ∧
    OidcConfig.allowed_algs config = oidc_allowed_algs opts ∧
    (oidc_jwks_uri opts = None ∨ oidc_jwks_file opts = None).
Proof.
  unfold build_oidc_attestor. intros (issuer & [= Hi] & Hb)%await_ok_Ready.
  apply await_ok_Ready in Hb as (audience & [= Ha] & Hb). apply await_ok_Ready in Hb as (source & [= Hs] & Hb).
  cbv zeta in Hb. apply await_ok_Ready in Hb as (cache & _ & [= <-]). inv_ok Hi. inv_ok Ha.
  repeat match goal with H : non_empty _ = Some _ |- _ => apply non_empty_Some in H as [? _] end.
  do 2 eexists. split; [reflexivity|]. split_and!; try done.
  destruct (oidc_jwks_uri opts), (oidc_jwks_file opts); naive_solver.
Qed.
