(* ===== verification/Boot.v ===== *)
(** * [yutha-control-plane/src/main.rs]: the boot of the control plane

    [bootstrap_backends]: the stores, the identity of the control plane, the
    bootstrap agent and its registration, the evaluator; and the configured
    attestor as the registry sees it.  The identifiers and keys that are drawn at
    random are parameters; an error is the text [anyhow] shows. *)

From S2P Require Import Prelude RustStd RustText Core Crypto ReceiptTypes ReceiptProto Merkle ReceiptVerify Passport.
From S2P Require Import PassportStore Scope Capability Registry Envelope Tokio Score Enforcement CedarPlus.
From S2P Require Import Procedure Validate Evaluator Publisher ReceiptStore CapabilityStore Transport.
From S2P Require Import ControlPlane Seed Oidc Spiffe Signers Startup.

Section attestor.
Context `{SerdeJson} `{!Jsonwebtoken} `{!OidcStd} `{!SpiffeOps} `{TimeOps}.

(** The moment of a verification.  [outcome]: what the polls of an OIDC
    verification come to, if they end, once its header is accepted. *)
Record Moment := mkMoment {
  workload : Workload; instant : Instant; svid_clock : Z; since_epoch : option N;
  outcome : OidcConfig → JwksCache → Request → Result AttestedIdentity AttestorError }.
Definition as_attestor (m : Moment) (a : ConnectedAttestor) : Attestor :=
  match a with
  | NativeAttestor => native_attestor
  | ConnectedSpiffe a =>
      Attestor.mk "spiffe" (λ _ credential, spiffe_verify (workload m) (instant m) (svid_clock m) (since_epoch m) a credential)
  | ConnectedOidc config cache =>
      Attestor.mk "oidc" (λ _ credential, let? q := check_header config credential in outcome m config cache q)
  end.
End attestor.

Section boot.
Context `{TimeOps, CryptoOps, SerdeJson} {engine : Cedar}.
Context `{Encode rproto.Receipt, Encode pproto.Passport}.
Context {C V RS : Type} `{!Mpsc Envelope C, !Mpsc EnforcementReceiptView V, !ReceiptStore RS}.
Notation R := (PublishingReceiptStore RS V).
Notation P := MemoryPassportStore.
Notation Stores := (MemoryRegistry P R).

(** What the process draws: [SwarmId::new()], [AgentId::new()] twice, and the key
    of [InProcessSigner::generate()]. *)
Record Drawn := mkDrawn {
  drawn_swarm : SwarmId; drawn_control_plane : AgentId; drawn_bootstrap : AgentId; drawn_key : SigningKey }.
(** The flags the boot looks at. *)
Record BootFlags := mkFlags {
  bootstrap_identity : option BootstrapIdentity; admission_mode : AdmissionModeArg;
  require_capability_for_send : bool; operator_public_key : option PublicKey; workload_extensions : list string }.
(** A control plane that has booted: what stays fixed, and its state. *)
Record Booted := mkBooted {
  booted_topology : Topology; booted_identity : ControlPlaneIdentity; booted_operator : option PublicKey;
  booted_state : ControlPlaneState P C R }.

Definition boot_swarm (d : Drawn) (flags : BootFlags) : SwarmId :=
  match bootstrap_identity flags with Some b => boot_swarm_id b | None => drawn_swarm d end.
Definition boot_agent (d : Drawn) (flags : BootFlags) : Signer * AgentId :=
  match bootstrap_identity flags with
  | Some b => (boot_signer b, boot_agent_id b)
  | None => (in_process_signer (drawn_key d), drawn_bootstrap d)
  end.

(* yutha-control-plane/src/main.rs:1947-1955 bootstrap_backends (cp passport) *)
Definition cp_builder (v : SpecVersion) (agent : AgentId) (swarm : SwarmId) (key : PublicKey) (now : Timestamp) :
    PassportBuilder.PassportBuilder :=
  PassportBuilder.mk (Some v) (Some agent) (Some swarm) (Some key) "yutha control plane" "" "" [] "1.0.0"
    PassportTier.Minimal ResourceDeclaration.default (Some now) None "" "".
(* yutha-control-plane/src/main.rs:2000-2010 bootstrap_backends (bootstrap passport) *)
Definition bootstrap_builder (v : SpecVersion) (agent : AgentId) (swarm : SwarmId) (key : PublicKey)
    (now expires : Timestamp) : PassportBuilder.PassportBuilder :=
  PassportBuilder.mk (Some v) (Some agent) (Some swarm) (Some key) "yutha-control-plane bootstrap" "none" "n/a" []
    "1.0.0" PassportTier.Minimal ResourceDeclaration.default (Some now) (Some expires) "" "".
(* yutha-control-plane/src/main.rs:2015-2036 bootstrap_backends (admission) *)
Definition boot_admission (mode : AdmissionModeArg) (agent : AgentId) : AdmissionPolicy * Topology.TopologyMode :=
  match mode with
  | ModeClosed => (AdmissionPolicy.Closed (AdmissionPolicy.mkClosed [agent] [] false), Topology.Closed)
  | ModeOpen =>
      (AdmissionPolicy.Open
         (AdmissionPolicy.mkOpen (AdmissionPolicy.requirements AdmissionPolicy.open_default) PassportTier.Minimal
            (AdmissionPolicy.max_passport_lifetime_seconds AdmissionPolicy.open_default)), Topology.Open)
  end.
(* yutha-control-plane/src/main.rs:2048-2067 bootstrap_backends (topology) *)
Definition boot_topology (v : SpecVersion) (swarm : SwarmId) (mode : AdmissionModeArg) (agent : AgentId)
    (require_cap : bool) : Topology :=
  let '(admission, topology_mode) := boot_admission mode agent in
  Topology.mk v swarm topology_mode admission (90 * 24 * 60 * 60) 8 300 256 false require_cap "1.0.0"
    (replicate 32 Byte.x00) None.

(** [anyhow]'s context replaces the text of the error. *)
Definition contextual {A E} (text : string) (r : Result A E) : Result A string := map_err (λ _, text) r.

(** [clock]: the readings of [Timestamp::now()], by who takes them. *)
Section steps.
Context (clock : nat → nat → Timestamp) (d : Drawn) (flags : BootFlags) (files : SchemaFiles)
  (attestor : Attestor) (cp_signer : Signer).

(** The control plane's own passport is stored without the registry. *)
(* yutha-control-plane/src/main.rs:1945-1967 bootstrap_backends (identity) *)
Definition boot_identity : M Stores string ControlPlaneIdentity :=
  let! v := lift (contextual "parse spec version" (SpecVersion.parse "1.0.0")) in
  let! cp_passport := lift (map_err (λ e, "build cp passport: " +:+ PassportError.to_string e)
    (Passport_sign (cp_builder v (drawn_control_plane d) (boot_swarm d flags) (Signer.public_key cp_signer)
                      (clock 0 0)) cp_signer)) in
  do! m_map_err (λ _, "register control-plane passport"%string)
        (zoom MemoryRegistry.passports (λ p s, MemoryRegistry.mk p (MemoryRegistry.receipts s))
           (PassportStore.register cp_passport)) in
  mret (ControlPlaneIdentity.new (drawn_control_plane d) cp_signer).

(* yutha-control-plane/src/main.rs:1990-2011 bootstrap_backends (bootstrap agent) *)
Definition boot_passport : Result Passport string :=
  let '(signer, agent) := boot_agent d flags in
  let? expires := map_err (λ e, "build bootstrap expires_at: " +:+ CoreError.to_string e)
                    (Timestamp.new "2099-01-01T00:00:00Z" (u64_max / 2)) in
  let? v := contextual "parse spec version" (SpecVersion.parse "1.0.0") in
  map_err (λ e, "build bootstrap passport: " +:+ PassportError.to_string e)
    (Passport_sign (bootstrap_builder v agent (boot_swarm d flags) (Signer.public_key signer) (clock 1 0) expires) signer).

(** The stores are those of the registry; what is only logged is left out. *)
(* yutha-control-plane/src/main.rs:1887-2187 bootstrap_backends *)
Definition boot_steps : M Stores string Booted :=
  let! cp := boot_identity in
  let agent := (boot_agent d flags).2 in
  let! bootstrap_passport := lift boot_passport in
  let! v := lift (contextual "parse spec version" (SpecVersion.parse "1.0.0")) in
  let topology := boot_topology v (boot_swarm d flags) (admission_mode flags) agent (require_capability_for_send flags) in
  let! stores := gets id in
  let! _ := lift (map_err RegistryError.to_string
                    (MemoryRegistry.new topology (MemoryRegistry.passports stores) (MemoryRegistry.receipts stores))) in
  let! outcome := m_map_err RegistryError.to_string
                    (MemoryRegistry.register topology PassportResolverAdapter.adapter cp attestor (clock 2)
                       bootstrap_passport []) in
  let! schema := lift (contextual "yutha-cedar-plus canonical schema + workload extensions failed to load"
                         (canonical_schema_v1_1_with_extensions files (workload_extensions flags))) in
  let! stores := gets id in
  mret (mkBooted topology cp (operator_public_key flags)
          (mkState (MemoryRegistry.passports stores) (MemoryCapabilityStore.mk ∅ ∅ tt) (MemoryTransport.new tt)
             (MemoryRegistry.receipts stores) ∅ ∅
             (new_evaluator (with_default_bounds schema) SandboxConfig.default) Engine.fresh)).

(** On the receipt store the flags chose; also what it holds when the boot fails. *)
Definition bootstrap_backends (inner : RS) : Result Booted string * RS :=
  let '(r, s) := boot_steps (MemoryRegistry.mk MemoryPassportStore.new (PublishingReceiptStore.new inner)) in
  (r, PublishingReceiptStore.inner (MemoryRegistry.receipts s)).
End steps.
End boot.
