(* ===== verification/BootLaws.v ===== *)
(** * What boots, and what does not

    With the native attestor the boot succeeds and leaves a sound control plane;
    with any other it does not, because the bootstrap agent is registered with an
    empty credential. *)

From S2P Require Import Prelude RustStd RustText Core Crypto ReceiptTypes ReceiptProto Merkle ReceiptVerify Passport.
From S2P Require Import PassportStore Scope Capability Registry Envelope Tokio Score Enforcement CedarPlus.
From S2P Require Import Procedure Validate Evaluator Publisher ReceiptStore CapabilityStore Replay Transport.
From S2P Require Import ControlPlane ServiceLaws Server Seed Oidc OidcLaws Spiffe SpiffeLaws Signers Startup Boot.

(** ** Registering with everything in order *)

Section registry.
Context `{CryptoOps} `{Encode rproto.Receipt} `{Encode pproto.Passport}.
Context {P R : Type} `{!PassportStore P} `{!PassportStoreLaws P} `{!ReceiptStore R} `{!ReceiptStoreLaws R}.
Context (topology : Topology) (resolver : P → PassportResolver) (cp : ControlPlaneIdentity) (attestor : Attestor).
Implicit Types (s : MemoryRegistry P R) (clock : nat → Timestamp).
Notation signer := (ControlPlaneIdentity.signer cp).
Notation knows_cp s := (PassportResolver.resolve_actor (resolver (MemoryRegistry.passports s)) (ControlPlaneIdentity.agent_id cp)
                        = Ok (Some (Signer.public_key signer))).

Lemma built_receipt_appended clock kind e ev s : signer_sound signer →
  (∀ m, is_ok (Signer.sign_message signer m) = true) → knows_cp s →
  ∃ r out s', MemoryRegistry.build_signed_receipt topology cp clock kind (e :: ev) = Ok r ∧
    MemoryRegistry.append_receipt resolver r s = (Ok out, s').
Proof.
  intros Hs Hall Hk.
  assert (is_ok (MemoryRegistry.build_signed_receipt topology cp clock kind (e :: ev)) = true) as Hok.
  { unfold MemoryRegistry.build_signed_receipt. rewrite control_plane_receipt_eq. cbv zeta.
    match goal with |- context [ControlPlaneIdentity.sign cp ?m] => specialize (Hall m) end.
    unfold ControlPlaneIdentity.sign. by destruct (Signer.sign_message _ _). }
  destruct (MemoryRegistry.build_signed_receipt _ _ _ _ _) as [r|] eqn:Hb; [|done].
  destruct (MemoryRegistry.append_receipt resolver r s) as [res s'] eqn:Ha.
  destruct res as [out|err]; [by exists r, out, s'|exfalso].
  unfold MemoryRegistry.append_receipt, zoom in Ha.
  destruct (append _ _ _ _) as [res rs] eqn:E. injection Ha as -> <-. apply append_Err in E as [_ []].
  unfold MemoryRegistry.build_signed_receipt in Hb.
  eapply control_plane_receipt_admissible; [exact Hs|exact Hk|exact Hb].
Qed.

(** The answer of a registration that passes the gates, of an agent that is not
    live, when the control plane can sign and its key is known. *)
Lemma register_succeeds clock p cred identity s :
  store_inv (MemoryRegistry.receipts s) → gates topology attestor p cred identity →
  live_of s !! Passport.agent_id p = None → Passport.agent_id p ≠ ControlPlaneIdentity.agent_id cp →
  signer_sound signer → (∀ m, is_ok (Signer.sign_message signer m) = true) →
  (∀ ps, live ps !! ControlPlaneIdentity.agent_id cp = live_of s !! ControlPlaneIdentity.agent_id cp →
     PassportResolver.resolve_actor (resolver ps) (ControlPlaneIdentity.agent_id cp) = Ok (Some (Signer.public_key signer))) →
  ∃ o s', MemoryRegistry.register topology resolver cp attestor clock p cred s = (Ok o, s') ∧
    live_of s' = <[Passport.agent_id p := p]> (live_of s) ∧
    (∃ h, Registry.logged topology cp s' h "agent.register"
            (Registry.MemoryRegistry.agent_evidence "passport_agent_id" (Passport.agent_id p))) ∧ log_of s ⊆ log_of s'.
Proof.
  intros Hinv (Hself & Hsw & Had & Hver) Hl Hne Hs Hall Hk.
  assert (MemoryRegistry.register topology resolver cp attestor clock p cred s
          = admit_identity topology resolver cp attestor clock p identity s) as Heq.
  { rewrite register_unfold, (proj2 (verify_self_signature_Ok p) Hself).
    rewrite bool_decide_eq_true_2, (proj2 (check_admission_Ok _ _) Had) by done. unfold verdict. by rewrite Hver. }
  rewrite Heq. destruct (admit_identity _ _ _ _ _ _ _ _) as [r s'] eqn:Hrun.
  pose proof (register_after_gates _ _ _ _ _ _ _ _ _ _ Hself Hinv Hrun) as Hafter.
  rewrite bool_decide_eq_true_2 in Hafter by done. destruct Hafter as [Hl' Hr].
  destruct r as [o|e]; [destruct Hr as (h & -> & Hlog & Hsub); eauto 10|exfalso].
  unfold admit_identity, mthen at 1 in Hrun. rewrite on_passports_run in Hrun.
  pose proof (register_spec p (MemoryRegistry.passports s)) as Hreg.
  destruct (PassportStore.register p (MemoryRegistry.passports s)) as [rr ps].
  rewrite bool_decide_eq_true_2 in Hreg by done. destruct Hreg as [Hreg _]. destruct (Hreg Hself) as [-> Hps].
  cbn [fst snd map_err] in Hrun.
  unfold mthen, lift, m_map_err, MemoryRegistry.build_registration_receipt in Hrun.
  unfold content_address in Hrun. cbn [map_err rbind canonical_bytes Passport_canonical app] in Hrun.
  match type of Hrun with context [MemoryRegistry.build_signed_receipt _ _ _ ?k (?e :: ?ev)] =>
    destruct (built_receipt_appended clock k e ev (MemoryRegistry.mk ps (MemoryRegistry.receipts s)) Hs Hall)
      as (rc & out & s2 & Hb & Ha) end.
  - apply Hk. simpl. rewrite Hps. by rewrite lookup_insert_ne.
  - rewrite Hb, Ha in Hrun. discriminate Hrun.
Qed.
End registry.

(** ** The steps before the registration *)

Section laws.
Context `{TimeOps, CryptoOps, SerdeJson} {engine : Cedar}.
Context `{Encode rproto.Receipt, Encode pproto.Passport}.
Context {C V RS : Type} `{!Mpsc Envelope C, !MpscLaws Envelope C, !Mpsc EnforcementReceiptView V}.
Context `{!ReceiptStore RS, !ReceiptStoreLaws RS}.
Notation R := (PublishingReceiptStore RS V).
Notation P := MemoryPassportStore.
Notation Stores := (MemoryRegistry P R).
Notation resolver := PassportResolverAdapter.adapter.
Implicit Types (d : Drawn) (flags : BootFlags) (log : R).

(** A signer that answers, with signatures that verify. *)
Definition signs (s : Signer) : Prop := signer_sound s ∧ ∀ m, is_ok (Signer.sign_message s m) = true.
(** The two signers work, the two agents differ, and the expiry of the bootstrap
    passport is a time. *)
Record bootable d flags (cp_signer : Signer) : Prop := {
  cp_signs : signs cp_signer;
  agent_signs : signs (boot_agent d flags).1;
  agents_differ : drawn_control_plane d ≠ (boot_agent d flags).2;
  sentinel_parses : is_Some (parse_rfc3339 "2099-01-01T00:00:00Z") }.

Lemma Passport_sign_works b signer p : signs signer → PassportBuilder.build_unsigned b = Ok p →
  Passport.agent_public_key p = Signer.public_key signer →
  ∃ sig, Passport_sign b signer = Ok (Passport.with_signature (Some sig) p) ∧ self_signed (Passport.with_signature (Some sig) p).
Proof.
  intros [Hs Hall] Hb Hk.
  assert (∃ sig, Passport_sign b signer = Ok (Passport.with_signature (Some sig) p)) as [sig Hsig].
  { unfold Passport_sign. rewrite Hb. cbn [rbind]. rewrite bool_decide_eq_true_2 by done. cbn [negb].
    change (canonical_bytes p) with (@Ok bytes CryptoError (passport_message p)). cbn [map_err rbind].
    specialize (Hall (passport_message p)). destruct (Signer.sign_message _ _) as [sig|]; [by exists sig|done]. }
  exists sig. split; [done|]. by eapply Passport_sign_self_signed.
Qed.

Section steps.
Context (clock : nat → nat → Timestamp) (files : SchemaFiles) (cp_signer : Signer) (d : Drawn) (flags : BootFlags).
Notation cp := (ControlPlaneIdentity.new (drawn_control_plane d) cp_signer).
Notation agent := (boot_agent d flags).2.
Notation topology := (boot_topology (SpecVersion.mk "1.0.0") (boot_swarm d flags) (admission_mode flags) agent
                        (require_capability_for_send flags)).

Lemma boot_identity_run : signs cp_signer →
  ∃ p ps, (∀ log, boot_identity clock d flags cp_signer (MemoryRegistry.mk MemoryPassportStore.new log : Stores)
           = (Ok cp, MemoryRegistry.mk ps log)) ∧
    live ps = {[drawn_control_plane d := p]} ∧ passports_ok ps ∧
    Passport.agent_public_key p = Signer.public_key cp_signer.
Proof.
  intros Hs. edestruct (Passport_sign_works (cp_builder (SpecVersion.mk "1.0.0") (drawn_control_plane d)
    (boot_swarm d flags) (Signer.public_key cp_signer) (clock 0 0)) cp_signer) as (sig & Hsig & Hself);
    [exact Hs|reflexivity|reflexivity|].
  set (p := Passport.with_signature _ _) in *.
  pose proof (register_spec p MemoryPassportStore.new) as Hreg.
  pose proof (passport_step_ok MemoryPassportStore.new (PassportStore.Register p)) as Hok. cbn [passport_step] in Hok.
  destruct (PassportStore.register p MemoryPassportStore.new) as [r ps] eqn:Hr.
  rewrite bool_decide_eq_true_2 in Hreg by done. destruct (proj1 Hreg Hself) as [-> Hl].
  exists p, ps. split; [|split; [exact Hl|split; [apply Hok; by intros ? ?|done]]].
  intros log. unfold boot_identity. unfold mthen at 1, lift at 1.
  change (contextual _ _) with (@Ok SpecVersion string (SpecVersion.mk "1.0.0")). cbn iota beta.
  unfold mthen at 1, lift at 1. rewrite Hsig. cbn [map_err].
  unfold mthen, m_map_err, zoom. cbn [MemoryRegistry.passports MemoryRegistry.receipts]. by rewrite Hr.
Qed.

Lemma boot_passport_run : signs (boot_agent d flags).1 → is_Some (parse_rfc3339 "2099-01-01T00:00:00Z") →
  ∃ p, boot_passport clock d flags = Ok p ∧ self_signed p ∧ Passport.agent_id p = agent ∧
    Passport.swarm_id p = boot_swarm d flags ∧ Passport.tier p = PassportTier.Minimal ∧ is_Some (Passport.expires_at p) ∧
    Passport.agent_public_key p = Signer.public_key (boot_agent d flags).1.
Proof.
  intros Hs [t Ht]. unfold boot_passport. destruct (boot_agent d flags) as [signer a] eqn:Hb. cbn [fst snd] in *.
  unfold Timestamp.new. rewrite Ht. cbn [ok_or rbind map_err].
  change (contextual _ _) with (@Ok SpecVersion string (SpecVersion.mk "1.0.0")). cbn [rbind].
  edestruct (Passport_sign_works (bootstrap_builder (SpecVersion.mk "1.0.0") a (boot_swarm d flags)
    (Signer.public_key signer) (clock 1 0) (Timestamp.mk "2099-01-01T00:00:00Z" (u64_max / 2))) signer) as (sig & Hsig & Hself);
    [exact Hs|reflexivity|reflexivity|].
  rewrite Hsig. eexists. split; [reflexivity|]. split; [exact Hself|]. by split_and!.
Qed.

Lemma boot_admits p : Passport.agent_id p = agent → Passport.tier p = PassportTier.Minimal →
  is_Some (Passport.expires_at p) → admits_passport (Topology.admission topology) p.
Proof.
  intros Ha Ht He. unfold boot_topology. destruct (admission_mode flags); simpl.
  - left. rewrite Ha. by apply list_elem_of_singleton.
  - split; [by rewrite Ht|done].
Qed.
Lemma boot_consistent : Topology.is_consistent topology = true.
Proof. unfold boot_topology. by destruct (admission_mode flags). Qed.

(** The state a boot ends with. *)
Definition booted (schema : Schema) (s : Stores) : Booted (C:=C) :=
  mkBooted topology cp (operator_public_key flags)
    (mkState (MemoryRegistry.passports s) (MemoryCapabilityStore.mk ∅ ∅ tt) (MemoryTransport.new tt)
       (MemoryRegistry.receipts s) ∅ ∅ (new_evaluator (with_default_bounds schema) SandboxConfig.default) Engine.fresh).

(** What the registration of the bootstrap agent starts from. *)
Record ready (p bp : Passport) (ps : P) : Prop := {
  ready_live : live ps = {[drawn_control_plane d := p]};
  ready_ok : passports_ok ps;
  ready_key : Passport.agent_public_key p = Signer.public_key cp_signer;
  ready_self : self_signed bp;
  ready_agent : Passport.agent_id bp = agent;
  ready_swarm : Passport.swarm_id bp = Topology.swarm_id topology;
  ready_admitted : admits_passport (Topology.admission topology) bp;
  ready_boot_key : Passport.agent_public_key bp = Signer.public_key (boot_agent d flags).1 }.

Lemma boot_steps_eq : bootable d flags cp_signer →
  ∃ p bp ps, ready p bp ps ∧ ∀ attestor log,
    boot_steps clock d flags files attestor cp_signer (MemoryRegistry.mk MemoryPassportStore.new log) =
    match MemoryRegistry.register topology resolver cp attestor (clock 2) bp [] (MemoryRegistry.mk ps log) with
    | (Err e, s) => (Err (RegistryError.to_string e), s)
    | (Ok _, s) =>
        match canonical_schema_v1_1_with_extensions files (workload_extensions flags) with
        | Ok schema => (Ok (booted schema s), s)
        | Err _ => (Err "yutha-cedar-plus canonical schema + workload extensions failed to load"%string, s)
        end
    end.
Proof.
  intros [Hcp Hag _ Hsent]. destruct (boot_identity_run Hcp) as (p & ps & Hid & Hl & Hok & Hk).
  destruct (boot_passport_run Hag Hsent) as (bp & Hbp & Hself & Ha & Hsw & Ht & He & Hbk).
  exists p, bp, ps. split; [split; try done; [|by apply boot_admits]|intros attestor log].
  { rewrite Hsw. unfold boot_topology. by destruct (admission_mode flags). }
  unfold boot_steps. unfold mthen at 1. rewrite Hid.
  unfold mthen at 1, lift at 1. rewrite Hbp.
  unfold mthen at 1, lift at 1. change (contextual _ (SpecVersion.parse _)) with (@Ok SpecVersion string (SpecVersion.mk "1.0.0")).
  cbv zeta. unfold mthen at 1, gets at 1. cbn [id]. unfold mthen at 1, lift at 1.
  unfold MemoryRegistry.new. rewrite boot_consistent. cbn [negb map_err].
  unfold mthen at 1, m_map_err. destruct (MemoryRegistry.register _ _ _ _ _ _ _ _) as [[o|e] s]; [|done]. cbn [map_err].
  unfold mthen at 1, lift at 1. unfold contextual at 1.
  by destruct (canonical_schema_v1_1_with_extensions _ _).
Qed.
End steps.

(** ** The boot *)

Context (clock : nat → nat → Timestamp) (files : SchemaFiles) (cp_signer : Signer) (d : Drawn) (flags : BootFlags).
Notation agent := (boot_agent d flags).2.
Notation topology := (boot_topology (SpecVersion.mk "1.0.0") (boot_swarm d flags) (admission_mode flags) agent
                        (require_capability_for_send flags)).
Notation boot attestor inner := (bootstrap_backends (C:=C) clock d flags files attestor cp_signer inner).
Notation log_of b := (receipt_store (booted_state b)).

(** A receipt of this kind that the control plane of [d] wrote, with the
    bootstrap agent under [key] in its evidence. *)
Definition written (v : gmap Hash Receipt) (kind key : string) : Prop :=
  ∃ h, is_Some (v !! h) ∧ ∃ r, h = receipt_id r ∧ Receipt.action_kind r = kind ∧
    Receipt.actor r = drawn_control_plane d ∧
    Registry.MemoryRegistry.agent_evidence key agent ∈ Receipt.evidence r.

Lemma resolver_knows ps a p : live ps !! a = Some p →
  PassportResolver.resolve_actor (resolver ps) a = Ok (Some (Passport.agent_public_key p)).
Proof. intros Hl. by rewrite PassportResolverAdapter.adapter_resolves, Hl. Qed.

(** [C33] A boot with the native attestor succeeds, on any receipt store that keeps
    its contract, when the two signers work, the two agents differ, the schema loads
    and the text of the bootstrap passport's expiry, 2099-01-01T00:00:00Z, is a
    time.  The control plane it returns is sound; exactly the control plane and
    the bootstrap agent have live passports, under the keys of their signers; no
    receipt that was in the store is lost, and the registration of the bootstrap
    agent, which names it, is in the store; nobody is revoked, no constitution is active, and the
    engine is bound to none. *)
Theorem boot_starts (inner : RS) (schema : Schema) :
  store_inv inner → bootable d flags cp_signer →
  canonical_schema_v1_1_with_extensions files (workload_extensions flags) = Ok schema →
  ∃ b, (boot native_attestor inner).1 = Ok b ∧ sound (booted_state b) ∧
    dom (live (passports (booted_state b))) = {[drawn_control_plane d; agent]} ∧
    PassportResolver.resolve_actor (resolver (passports (booted_state b))) (drawn_control_plane d)
      = Ok (Some (Signer.public_key cp_signer)) ∧
    PassportResolver.resolve_actor (resolver (passports (booted_state b))) agent
      = Ok (Some (Signer.public_key (boot_agent d flags).1)) ∧
    view inner ⊆ view (log_of b) ∧ written (view (log_of b)) "agent.register" "passport_agent_id" ∧
    revoked_agents (booted_state b) = ∅ ∧ current (cedar_plus (booted_state b)) = None ∧
    Engine.active (enforcement (booted_state b)) = None.
Proof.
  intros Hinv Hb Hschema. pose proof Hb as [[Hs Hall] _ Hne _].
  destruct (boot_steps_eq clock files cp_signer d flags Hb) as (p & bp & ps & [Hl Hok Hk Hself Ha Hsw Hadm Hbk] & Heq).
  set (log := PublishingReceiptStore.new inner : R).
  edestruct (register_succeeds topology resolver (ControlPlaneIdentity.new (drawn_control_plane d) cp_signer) native_attestor
    (clock 2) bp [] (mkAttestedIdentity ("yutha:native:" +:+ hex (AgentId.as_bytes (Passport.agent_id bp))) None ∅)
    (MemoryRegistry.mk ps log)) as (o & s' & Hreg & Hl' & (h & Hlog) & Hsub);
    [exact Hinv|split; [exact Hself|split; [exact Hsw|split; [exact Hadm|reflexivity]]]|..].
  { unfold live_of. cbn [MemoryRegistry.passports]. rewrite Hl, Ha. by rewrite lookup_singleton_ne. }
  { by rewrite Ha. }
  { exact Hs. }
  { exact Hall. }
  { unfold live_of. cbn [MemoryRegistry.passports]. rewrite Hl. intros q Hq.
    rewrite lookup_singleton_eq in Hq. rewrite (resolver_knows _ _ _ Hq). by rewrite Hk. }
  unfold live_of in Hl'. cbn [MemoryRegistry.passports] in Hl'. rewrite Hl, Ha in Hl'.
  unfold bootstrap_backends. rewrite Heq. fold log. rewrite Hreg, Hschema. eexists. split; [reflexivity|].
  unfold booted. cbn [booted_state passports receipt_store revoked_agents cedar_plus enforcement].
  pose proof (keeps_registry_register topology resolver (ControlPlaneIdentity.new (drawn_control_plane d) cp_signer)
    native_attestor (view log) (clock 2) bp [] (MemoryRegistry.mk ps log)) as Hkeep.
  rewrite Hreg in Hkeep. cbn [snd] in Hkeep.
  destruct Hkeep as [Hok' [Hinv' _]]; [by split|].
  split_and!; [by apply fresh_sound| | | |exact Hsub| |done..].
  - rewrite Hl', dom_insert_L, dom_singleton_L. set_solver.
  - rewrite (resolver_knows _ _ p); [by rewrite Hk|]. rewrite Hl'. by rewrite lookup_insert_ne, lookup_singleton_eq.
  - rewrite (resolver_knows _ _ bp); [by rewrite Hbk|]. rewrite Hl'. by rewrite lookup_insert_eq.
  - destruct Hlog as (r & -> & Hin & Hkind & Hact & _ & Hev). rewrite Ha in Hev.
    exists (receipt_id r). split; [exact Hin|]. by exists r.
Qed.

(** ** With an identity provider *)

Context `{!Jsonwebtoken} `{!OidcStd} `{!SpiffeOps}.

Lemma empty_credential_rejected m a ctx : a ≠ NativeAttestor →
  ∃ msg, Attestor.verify (as_attestor m a) ctx [] = Err (AttestorError.Rejected msg).
Proof. destruct a; [done|by eexists..]. Qed.

(** Whatever the outcome, a boot that gets through registered its agent with the
    attestor's consent to the empty credential. *)
Lemma boot_attested attestor inner b : (boot attestor inner).1 = Ok b →
  ∃ ctx identity, Attestor.verify attestor ctx [] = Ok identity.
Proof.
  unfold bootstrap_backends. destruct (boot_steps _ _ _ _ _ _ _) as [r s] eqn:Hrun. cbn [fst]. intros ->.
  unfold boot_steps in Hrun.
  apply mthen_run in Hrun as [(cp & s1 & _ & Hrun)|(e & _ & [=])].
  do 4 (apply mthen_run in Hrun as [(? & ? & _ & Hrun)|(e & _ & [=])]).
  apply mthen_run in Hrun as [(o & s2 & Hreg & _)|(e & _ & [=])].
  unfold m_map_err in Hreg.
  match type of Hreg with context [MemoryRegistry.register ?t ?res ?c ?at_ ?cl ?p ?cr ?st] =>
    destruct (register_gates t res c at_ cl p cr st) as [(identity & (_ & _ & _ & Hv) & _)|(e & s3 & Heq & _)] end.
  - by do 2 eexists.
  - by rewrite Heq in Hreg.
Qed.

(** No other attestor lets the control plane boot: the SPIFFE and the OIDC
    attestor reject the empty credential with which the bootstrap agent is
    registered, whatever the flags, the signers and the time, so the boot ends in
    an error; and when it could have succeeded natively, it leaves the denial of
    its own agent in the receipt store. *)
Lemma idp_never_boots m (a : ConnectedAttestor) (inner : RS) : a ≠ NativeAttestor →
  is_ok (boot (as_attestor m a) inner).1 = false ∧
  (store_inv inner → bootable d flags cp_signer →
   written (view (boot (as_attestor m a) inner).2) "agent.register.deny" "claimed_agent_id").
Proof.
  intros Ha. split.
  { destruct (boot _ _).1 as [b|e] eqn:Hb; [|done]. apply boot_attested in Hb as (ctx & identity & Hv).
    destruct (empty_credential_rejected m a ctx Ha) as [msg Hr]. congruence. }
  intros Hinv Hb. pose proof Hb as [[Hs Hall] _ Hne _].
  destruct (boot_steps_eq clock files cp_signer d flags Hb) as (p & bp & ps & [Hl Hok Hk Hself Hag Hsw Hadm Hbk] & Heq).
  destruct (empty_credential_rejected m a (mkAttestationContext (Passport.swarm_id bp) (Passport.agent_id bp)
    (Passport.agent_public_key bp)) Ha) as [msg Hr].
  unfold bootstrap_backends. rewrite Heq.
  assert (store_inv (MemoryRegistry.receipts (MemoryRegistry.mk ps (PublishingReceiptStore.new inner : R)))) as Hinv' by exact Hinv.
  destruct (attestation_denial_logged topology resolver (ControlPlaneIdentity.new (drawn_control_plane d) cp_signer)
    (as_attestor m a) (clock 2) bp [] (MemoryRegistry.mk ps (PublishingReceiptStore.new inner : R)) _ Hinv' Hself Hsw Hadm Hr)
    as (s' & Hreg & _ & h & r & -> & Hin & Hkind & Hact & _ & Hev); [done|exact Hs|exact Hall| |].
  - cbn [MemoryRegistry.passports]. rewrite (resolver_knows ps _ p); [by rewrite Hk|].
    rewrite Hl. by rewrite lookup_singleton_eq.
  - rewrite Hreg. cbn [snd]. rewrite Hag in Hev. exists (receipt_id r). split; [exact Hin|]. by exists r.
Qed.
End laws.

(** ** Concrete boots: closed admission, identities drawn at random *)

Module BootToy.
Import MerkleToy QueueToy.
#[global] Instance json : SerdeJson := CedarToy.serde_json.
#[global] Instance engine : Cedar := CedarToy.cedar.
#[global] Instance time : TimeOps := SpiffeToy.time.
#[global] Instance std : OidcStd := SpiffeToy.std.
#[global] Instance spiffe : SpiffeOps := SpiffeToy.spiffe.
#[global] Instance jwt : Jsonwebtoken := OidcToy.jwt.
Definition clock (i n : nat) : Timestamp := Timestamp.mk "60" (N.of_nat (10 * i + n)).
Definition files : SchemaFiles := mkSchemaFiles _ _ "base" "support" "review" (λ _, Ok tt).
Definition signer : Signer := in_process_signer (SigningKey.mk [Byte.x02]).
Definition drawn : Drawn := mkDrawn swarm (agent 1) (agent 2) (SigningKey.mk [Byte.x01]).
Definition flags : BootFlags := mkFlags None ModeClosed (resolve CapAuto ModeClosed) None [].
Definition moment : Moment := mkMoment SpiffeToy.api 10 50 (Some 0%N) (λ _ _ _, Err (AttestorError.Internal "unused")).
Notation boot attestor := (bootstrap_backends (C:=nat * list Envelope) (V:=nat * list EnforcementReceiptView) (RS:=MemoryStore)
  clock drawn flags files attestor signer MemoryStore.new).
Lemma in_process_signs sk : signs (in_process_signer sk).
Proof. split; [apply in_process_signer_sound|done]. Qed.
Lemma can_boot : bootable drawn flags signer.
Proof. split; [apply in_process_signs..|done|by eexists]. Qed.
Lemma empty_log : store_inv MemoryStore.new.
Proof. exact inv_new. Qed.
End BootToy.

Lemma boot_starts_witness :
  ∃ b : Booted (C:=nat * list Envelope) (V:=nat * list EnforcementReceiptView) (RS:=MemoryStore),
    (BootToy.boot native_attestor).1 = Ok b ∧ sound (booted_state b) ∧
    written BootToy.drawn BootToy.flags (view (receipt_store (booted_state b))) "agent.register" "passport_agent_id" ∧
    current (cedar_plus (booted_state b)) = None.
Proof.
  destruct (boot_starts (C:=nat * list Envelope) (V:=nat * list EnforcementReceiptView) (RS:=MemoryStore)
    BootToy.clock BootToy.files BootToy.signer BootToy.drawn BootToy.flags MemoryStore.new tt BootToy.empty_log BootToy.can_boot eq_refl)
    as (b & Hb & Hs & _ & _ & _ & _ & Hw & _ & Hc & _).
  exists b. split; [exact Hb|]. split; [exact Hs|]. split; [exact Hw|exact Hc].
Defined.

Lemma idp_never_boots_witness :
  is_ok (BootToy.boot (as_attestor BootToy.moment (ConnectedSpiffe SpiffeToy.attestor))).1 = false ∧
  written BootToy.drawn BootToy.flags (view (BootToy.boot (as_attestor BootToy.moment (ConnectedSpiffe SpiffeToy.attestor))).2)
    "agent.register.deny" "claimed_agent_id".
Proof.
  destruct (idp_never_boots (C:=nat * list Envelope) (V:=nat * list EnforcementReceiptView) (RS:=MemoryStore)
    BootToy.clock BootToy.files BootToy.signer BootToy.drawn BootToy.flags BootToy.moment
    (ConnectedSpiffe SpiffeToy.attestor) MemoryStore.new) as [Hno Hdeny]; [discriminate|].
  split; [exact Hno|]. exact (Hdeny BootToy.empty_log BootToy.can_boot).
Defined.
