(* ===== verification/AnchorContract.v ===== *)
(** * [contracts/sui/receipt_anchor]: the contract that takes the batches

    The Move module: the shared object of a swarm, the entry points that create it
    and commit a batch, and what they maintain.  Move's integers abort on
    overflow, and an abort undoes the call, so a call is a function to the new
    object and the event it emits. *)

From S2P Require Import Prelude RustStd Core CoreProto Crypto ReceiptTypes Preimage.

(** An assertion's code; the duplicate key [vec_map] refuses; an overflow or a
    cast that loses bits. *)
Inductive Abort := AbortCode (n : N) | KeyAlreadyExists | ArithmeticError.
#[global] Instance Abort_eq_dec : EqDecision Abort.
Proof. solve_decision. Defined.

(* contracts/sui/receipt_anchor/sources/receipt_anchor.move:42-63 abort codes *)
Definition EBatchRootLength : N := 1.
Definition ESignatureLength : N := 2.
Definition EPubkeyLength : N := 3.
Definition ESwarmIdLength : N := 4.
Definition ENsRangeNotMonotonic : N := 5.
Definition ENsRangeInvalid : N := 6.
Definition EHistogramSumMismatch : N := 7.
Definition EHistogramKeyTooLong : N := 8.
Definition ESealerKeyMismatch : N := 9.
Definition EHistogramNotSorted : N := 10.
Definition EHistogramLengthMismatch : N := 11.

(* contracts/sui/receipt_anchor/sources/receipt_anchor.move:73-92 SwarmAnchor *)
Record SwarmAnchor := mkAnchor {
  anchor_swarm_id : bytes; sealer_pubkey : bytes; batch_count : N; last_ns_range_end : N; created_at_ms : N }.
(* contracts/sui/receipt_anchor/sources/receipt_anchor.move:98-109 AnchorCommitted *)
Record AnchorCommitted := mkCommitted {
  event_swarm_id : bytes; batch_index : N; event_root : bytes; event_count : N; event_start : N; event_end : N;
  event_histogram : list (bytes * N); anchored_at_ms : N }.

Definition move_assert (b : bool) (code : N) : Result unit Abort := if b then Ok tt else Err (AbortCode code).
Definition move_add (x y : N) : Result N Abort := ok_or (u64_checked_add x y) ArithmeticError.

(* contracts/sui/receipt_anchor/sources/receipt_anchor.move:120-138 create_swarm_anchor *)
Definition create_swarm_anchor (swarm_id sealer_pubkey : bytes) (clock_ms : N) : Result SwarmAnchor Abort :=
  let? _ := move_assert (len swarm_id =? 16)%N ESwarmIdLength in
  let? _ := move_assert (len sealer_pubkey =? 32)%N EPubkeyLength in
  Ok (mkAnchor swarm_id sealer_pubkey 0 0 clock_ms).

(** The loop over the shorter length, then the lengths. *)
(* contracts/sui/receipt_anchor/sources/receipt_anchor.move:427-441 vector_lt *)
Fixpoint vector_lt (a b : bytes) : bool :=
  match a, b with
  | av :: a, bv :: b =>
      if (Byte.to_N av <? Byte.to_N bv)%N then true
      else if (Byte.to_N bv <? Byte.to_N av)%N then false else vector_lt a b
  | _, _ => (length a <? length b)%nat
  end.

(* contracts/sui/receipt_anchor/sources/receipt_anchor.move:323-337 validate_histogram (loop) *)
Fixpoint validate_entries (prev : option bytes) (sum : N) (l : list (bytes * N)) : Result N Abort :=
  match l with
  | [] => Ok sum
  | (key, value) :: l =>
      let? _ := move_assert (len key <=? 255)%N EHistogramKeyTooLong in
      let? _ := match prev with Some prev => move_assert (vector_lt prev key) EHistogramNotSorted | None => Ok tt end in
      let? sum := move_add sum value in
      validate_entries (Some key) sum l
  end.
(* contracts/sui/receipt_anchor/sources/receipt_anchor.move:314-340 validate_histogram *)
Definition validate_histogram (histogram : list (bytes * N)) (count : N) : Result unit Abort :=
  let? sum := validate_entries None 0 histogram in
  move_assert (sum =? count)%N EHistogramSumMismatch.

(* contracts/sui/receipt_anchor/sources/receipt_anchor.move:392-398 build_canonical_preimage (one entry) *)
Definition move_entry (e : bytes * N) : Result bytes Abort :=
  let? _ := ok_or (if (len e.1 <=? 255)%N then Some tt else None) ArithmeticError in
  Ok ([byte_of (len e.1)] ++ e.1 ++ be_bytes 8 e.2).
(* contracts/sui/receipt_anchor/sources/receipt_anchor.move:360-402 build_canonical_preimage *)
Definition build_canonical_preimage (swarm_id batch_root : bytes) (count ns_range_start ns_range_end : N)
    (histogram : list (bytes * N)) : Result bytes Abort :=
  let n := N.of_nat (length histogram) in
  let? n := ok_or (if is_u32 n then Some n else None) ArithmeticError in
  let? entries := collect move_entry histogram in
  Ok (swarm_id ++ batch_root ++ be_bytes 8 count ++ be_bytes 8 ns_range_start ++ be_bytes 8 ns_range_end
      ++ be_bytes 4 n ++ mjoin entries).

(** [vec_map::insert] for every pair, in order. *)
Fixpoint insert_pairs (l : list (bytes * N)) (map : list (bytes * N)) : Result (list (bytes * N)) Abort :=
  match l with
  | [] => Ok map
  | e :: l => if bool_decide (e.1 ∈ map.*1) then Err KeyAlreadyExists else insert_pairs l (map ++ [e])
  end.

Section contract.
Context `{CryptoOps}.

(* contracts/sui/receipt_anchor/sources/receipt_anchor.move:153-220 commit_batch *)
Definition commit_batch (batch_root : bytes) (count ns_range_start ns_range_end : N)
    (histogram : list (bytes * N)) (sealer_signature : bytes) (clock_ms : N) (anchor : SwarmAnchor)
    : Result (SwarmAnchor * AnchorCommitted) Abort :=
  let? _ := move_assert (len batch_root =? 32)%N EBatchRootLength in
  let? _ := move_assert (len sealer_signature =? 64)%N ESignatureLength in
  let? _ := move_assert (ns_range_start <=? ns_range_end)%N ENsRangeInvalid in
  let? _ := move_assert (last_ns_range_end anchor <=? ns_range_start)%N ENsRangeNotMonotonic in
  let? _ := validate_histogram histogram count in
  let? preimage := build_canonical_preimage (anchor_swarm_id anchor) batch_root count ns_range_start ns_range_end histogram in
  let? _ := move_assert (ed25519_verify (sealer_pubkey anchor) preimage sealer_signature) ESealerKeyMismatch in
  let? next := move_add (batch_count anchor) 1 in
  Ok (mkAnchor (anchor_swarm_id anchor) (sealer_pubkey anchor) next ns_range_end (created_at_ms anchor),
      mkCommitted (anchor_swarm_id anchor) (batch_count anchor) batch_root count ns_range_start ns_range_end
        histogram clock_ms).

(* contracts/sui/receipt_anchor/sources/receipt_anchor.move:238-285 commit_batch_from_arrays *)
Definition commit_batch_from_arrays (batch_root : bytes) (count ns_range_start ns_range_end : N)
    (keys : list bytes) (values : list N) (sealer_signature : bytes) (clock_ms : N) (anchor : SwarmAnchor)
    : Result (SwarmAnchor * AnchorCommitted) Abort :=
  let? _ := move_assert (length keys =? length values)%nat EHistogramLengthMismatch in
  let? histogram := insert_pairs (zip keys values) [] in
  commit_batch batch_root count ns_range_start ns_range_end histogram sealer_signature clock_ms anchor.

(** ** What a commit does *)

Lemma move_assert_Ok b code u : move_assert b code = Ok u ↔ b = true.
Proof. destruct u, b; simpl; naive_solver. Qed.
Lemma move_add_Ok x y z : move_add x y = Ok z ↔ z = (x + y)%N ∧ (x + y <= u64_max)%N.
Proof. unfold move_add. by rewrite ok_or_Ok, u64_checked_add_Some. Qed.

Lemma commit_batch_Ok root count s e h sig ms a a' ev :
  commit_batch root count s e h sig ms a = Ok (a', ev) ↔
  len root = 32%N ∧ len sig = 64%N ∧ (s <= e)%N ∧ (last_ns_range_end a <= s)%N ∧
  validate_histogram h count = Ok tt ∧
  (∃ m, build_canonical_preimage (anchor_swarm_id a) root count s e h = Ok m ∧ ed25519_verify (sealer_pubkey a) m sig = true) ∧
  (batch_count a + 1 <= u64_max)%N ∧
  a' = mkAnchor (anchor_swarm_id a) (sealer_pubkey a) (batch_count a + 1) e (created_at_ms a) ∧
  ev = mkCommitted (anchor_swarm_id a) (batch_count a) root count s e h ms.
Proof.
  unfold commit_batch. split.
  - intros Hc. inv_ok Hc. repeat match goal with H : move_assert _ _ = Ok _ |- _ => apply move_assert_Ok in H end.
    match goal with H : move_add _ _ = Ok _ |- _ => apply move_add_Ok in H as [-> ?] end.
    repeat match goal with H : (_ =? _)%N = true |- _ => apply N.eqb_eq in H | H : (_ <=? _)%N = true |- _ => apply N.leb_le in H end.
    match goal with H : validate_histogram _ _ = Ok ?u |- _ => destruct u end. naive_solver.
  - intros (Hr & Hs & Hse & Hl & Hv & (m & Hm & Hver) & Hn & -> & ->).
    rewrite (proj2 (N.eqb_eq _ _) Hr), (proj2 (N.eqb_eq _ _) Hs), (proj2 (N.leb_le _ _) Hse), (proj2 (N.leb_le _ _) Hl).
    cbn [move_assert rbind]. rewrite Hv. cbn [rbind]. rewrite Hm. cbn [rbind]. rewrite Hver. cbn [move_assert rbind].
    by rewrite (proj2 (move_add_Ok _ _ _) (conj eq_refl Hn)).
Qed.

(** A batch of one time is taken again by the object it left. *)
Lemma twice_committed root count s h sig ms ms' a a' ev :
  commit_batch root count s s h sig ms a = Ok (a', ev) → (batch_count a' < u64_max)%N →
  ∃ a'' ev', commit_batch root count s s h sig ms' a' = Ok (a'', ev').
Proof.
  intros (Hr & Hs & Hse & _ & Hv & Hm & _ & -> & _)%commit_batch_Ok Hn. do 2 eexists.
  apply commit_batch_Ok. simpl in *. split_and!; try done. lia.
Qed.
End contract.
