(* ===== verification/Anchor.v ===== *)
(** * [backends/sui-anchor]: sealing batches on a chain

    The errors and their mapping, the client of the contract, the sealer, the
    source of candidates and the driver with its retries.  The Sui crates are
    parameters: what the network makes of one transaction is given by the
    environment of the attempt; the contract itself is [AnchorContract]. *)

From S2P Require Import Prelude RustStd RustText Core CoreProto Crypto ReceiptTypes ReceiptProto Merkle Preimage Sealer.
From S2P Require Import ReceiptVerify ReceiptStore Startup AnchorContract.

(** ** error.rs *)

Module AnchorBackendError.
(* sui-anchor/src/error.rs:17-55 AnchorBackendError *)
Inductive AnchorBackendError :=
| RpcTransient (msg : string)
| OnChainAbort (code : option N) (detail : string)
| SwarmAnchorRead (msg : string)
| SealerKey (msg : string)
| Config (msg : string)
| Preimage (msg : string)
| Crypto (e : CryptoError).
(* sui-anchor/src/error.rs:57-75 From<AnchorBackendError> for SealError *)
Definition into_seal_error (e : AnchorBackendError) : SealError :=
  match e with
  | RpcTransient msg => SealError.Transient msg
  | OnChainAbort code detail =>
      SealError.Permanent match code with
                          | Some c => "on-chain abort code " +:+ show_N c +:+ ": " +:+ detail
                          | None => "on-chain abort: " +:+ detail
                          end
  | SwarmAnchorRead msg => SealError.Permanent msg
  | SealerKey msg => SealError.Signing msg
  | Config msg => SealError.Permanent msg
  | Preimage msg => SealError.Preimage msg
  | Crypto e => SealError.Signing (CryptoError.to_string e)
  end.
End AnchorBackendError.
Notation AnchorBackendError := AnchorBackendError.AnchorBackendError.

(** ** rpc.rs *)

(** [tonic::Status]: its code, as far as it is looked at, and its text. *)
Inductive Code := NotFound | InvalidArgument | OtherCode.
Record TonicStatus := mkTonic { tonic_code : Code; tonic_text : string }.
(** [sui_rpc]'s [ExecuteAndWaitError], which is non-exhaustive. *)
Inductive ExecuteAndWaitError :=
| RpcError (status : TonicStatus) | MissingTransaction | ProtoConversionError (e : string) | CheckpointTimeout
| CheckpointStreamError (e : string) | OtherExecuteError (debug : string).
(* sui-anchor/src/rpc.rs:374-383 classify_rpc_error *)
Definition classify_rpc_error (status : TonicStatus) (op : string) : AnchorBackendError :=
  match tonic_code status with
  | NotFound => AnchorBackendError.SwarmAnchorRead (op +:+ ": not found: " +:+ tonic_text status)
  | InvalidArgument => AnchorBackendError.Config (op +:+ ": invalid argument: " +:+ tonic_text status)
  | OtherCode => AnchorBackendError.RpcTransient (op +:+ ": " +:+ tonic_text status)
  end.
(* sui-anchor/src/rpc.rs:389-413 classify_execute_error *)
Definition classify_execute_error (err : ExecuteAndWaitError) : AnchorBackendError :=
  match err with
  | RpcError status => classify_rpc_error status "execute_transaction"
  | MissingTransaction => AnchorBackendError.Config "execute: missing transaction (caller bug)"
  | ProtoConversionError e => AnchorBackendError.Config ("execute: proto conversion: " +:+ e)
  | CheckpointTimeout => AnchorBackendError.RpcTransient "execute_and_wait: checkpoint timeout — tx may still confirm"
  | CheckpointStreamError e => AnchorBackendError.RpcTransient ("execute_and_wait: checkpoint stream: " +:+ e)
  | OtherExecuteError debug =>
      AnchorBackendError.RpcTransient ("execute_and_wait: unrecognized SDK error variant: " +:+ debug)
  end.

(* sui-anchor/src/client.rs:36-53 CommitBatchArgs *)
Record CommitBatchArgs := mkArgs {
  arg_root : bytes; arg_count : N; arg_start : N; arg_end : N; arg_histogram : list (bytes * N); arg_signature : bytes }.
(* sui-anchor/src/client.rs:60-67 AnchorState *)
Record AnchorState := mkAnchorState { state_batch_count : N; state_last_ns_range_end : N }.

(** The chain: the object of the swarm, and the events so far. *)
Record Chain := mkChain { anchor : SwarmAnchor; events : list AnchorCommitted }.
(** What becomes of one transaction: it is not built, signed or encoded; it is
    refused before it runs; or it runs, under its digest, and the answer may be
    lost. *)
Inductive Network :=
| Unbuilt (e : string) | Unsigned (e : string) | Unencoded (what e : string) | Refused (e : ExecuteAndWaitError)
| Executed (digest : bytes) (lost : option ExecuteAndWaitError).
(** The moment of one attempt. *)
Record Attempt := mkAttempt { network : Network; chain_ms : N; sealed_now : Timestamp }.

(** The code an abort reports, and its text. *)
Definition abort_code (a : Abort) : option N :=
  match a with AbortCode n => Some n | KeyAlreadyExists => Some 0%N | ArithmeticError => None end.

Section anchor.
Context `{TimeOps} `{CryptoOps} `{Encode rproto.Receipt}.
(** The text of an abort; the key of the sealer, [try_sign]; the swarm. *)
Context (abort_text : Abort → string) (try_sign : bytes → Result bytes string) (swarm_id : SwarmId).

(* sui-anchor/src/rpc.rs:193-329 RpcAnchorClient::submit_commit_batch *)
Definition submit_commit_batch (a : Attempt) (args : CommitBatchArgs) : M Chain AnchorBackendError bytes := λ c,
  match network a with
  | Unbuilt e => (Err (AnchorBackendError.Config ("transaction build: " +:+ e)), c)
  | Unsigned e => (Err (AnchorBackendError.SealerKey ("sign_transaction: " +:+ e)), c)
  | Unencoded what e => (Err (AnchorBackendError.Config ("BCS encode " +:+ what +:+ ": " +:+ e)), c)
  | Refused e => (Err (classify_execute_error e), c)
  | Executed digest lost =>
      let outcome := commit_batch_from_arrays (arg_root args) (arg_count args) (arg_start args) (arg_end args)
                       (arg_histogram args).*1 (arg_histogram args).*2 (arg_signature args) (chain_ms a) (anchor c) in
      let c' := match outcome with Ok (a', ev) => mkChain a' (events c ++ [ev]) | Err _ => c end in
      match lost, outcome with
      | Some e, _ => (Err (classify_execute_error e), c')
      | None, Ok _ => (Ok digest, c')
      | None, Err abort => (Err (AnchorBackendError.OnChainAbort (abort_code abort) (abort_text abort)), c')
      end
  end.

(** ** sealer.rs *)

(* sui-anchor/src/sealer.rs:75-91 SealerSigning::sign *)
Definition sign_preimage (preimage : bytes) : Result bytes AnchorBackendError :=
  map_err (λ e, AnchorBackendError.SealerKey ("ed25519 sign preimage: " +:+ e)) (try_sign preimage).
(* sui-anchor/src/sealer.rs:169-172 SuiSealer::seal_batch (preimage error) *)
Definition preimage_error (e : ReceiptError) : SealError :=
  match e with
  | ReceiptError.BatchInvalid msg => SealError.Preimage msg
  | other => SealError.Permanent (ReceiptError.to_string other)
  end.
(* sui-anchor/src/sealer.rs:145-214 Sealer for SuiSealer *)
Definition sui_seal_batch (a : Attempt) (receipts : list Receipt) : M Chain SealError SealedBatch :=
  match receipts with
  | [] => throw SealError.EmptyBatch
  | _ =>
      let! merkle := lift (map_err SealError.from (build_merkle receipts)) in
      let root := MerkleBatch.root merkle in
      let histogram := compute_histogram receipts in
      match compute_ns_range receipts with
      | None => throw SealError.EmptyBatch (* not reached: the batch is not empty *)
      | Some (ns_start, ns_end) =>
          let count := N.of_nat (length receipts) in
          let! preimage := lift (map_err preimage_error
                                   (canonical_preimage swarm_id root count ns_start ns_end histogram)) in
          let! signature := lift (map_err AnchorBackendError.into_seal_error (sign_preimage preimage)) in
          let args := mkArgs (Hash.digest root) count ns_start ns_end
                        ((λ e : string * N, (as_bytes e.1, e.2)) <$> btree_iter histogram) signature in
          let! tx_digest := m_map_err AnchorBackendError.into_seal_error (submit_commit_batch a args) in
          mret (SealedBatch.mk root (MerkleBatch.leaves merkle) (sealed_now a) histogram (ns_start, ns_end) tx_digest)
      end
  end.

(** ** driver.rs, candidate_source.rs *)

Inductive DriverError := CandidateSource (msg : string) | Seal (e : SealError) | RecordSealedBatch (msg : string).
(* sui-anchor/src/driver.rs:38-60 AnchorDriverConfig *)
Record AnchorDriverConfig := mkDriverConfig {
  count_threshold : N; time_threshold : N; max_batch : N; retry_attempts : nat; initial_backoff : N;
  max_backoff : N; idle_poll_interval : N }.
(* sui-anchor/src/driver.rs:62-74 AnchorDriverConfig (Default) *)
Definition driver_defaults : AnchorDriverConfig :=
  mkDriverConfig 100 (from_secs 10) 1000 5 200000000 (from_secs 5) (from_secs 1).

(* sui-anchor/src/candidate_source.rs:129-135 map_receipt_error *)
Definition map_receipt_error (e : ReceiptError) : string :=
  match e with
  | ReceiptError.Backend msg => "receipt store backend: " +:+ msg
  | ReceiptError.InvalidQuery msg => "invalid query: " +:+ msg
  | other => "receipt store: " +:+ ReceiptError.to_string other
  end.
(* sui-anchor/src/candidate_source.rs:73-123 CandidateSource for ReceiptStoreCandidateSource *)
Definition fetch_candidates {RS} `{!ReceiptStore RS} (store : RS) (watermark max_batch_size : N) : Result (list Receipt) DriverError :=
  let from_ns := u64_saturating_add watermark 1 in
  if (from_ns =? u64_max)%N then Ok []
  else
    let? from := map_err (λ e, CandidateSource ("construct from-timestamp: " +:+ CoreError.to_string e))
                   (Timestamp.new "1970-01-01T00:00:00Z" from_ns) in
    let? to := map_err (λ e, CandidateSource ("construct to-timestamp: " +:+ CoreError.to_string e))
                 (Timestamp.new "9999-12-31T23:59:59Z" u64_max) in
    let? page := map_err (λ e, CandidateSource (map_receipt_error e)) (query (Query.ByTimeRange from to) None store) in
    Ok (take (N.to_nat max_batch_size) (sort_by_ns (Page.receipts page))).

(** The driver's own state; the store of receipts and seals, and the chain. *)
Record AnchorDriver := mkDriver { watermark : N; last_seal_at : Instant }.
Record World := mkWorld { store : MemoryStore; chain : Chain }.
(** One round of the loop: the instants it reads, and its attempts. *)
Record Round := mkRound { looked_at : Instant; done_at : Instant; attempts : nat → Attempt }.

(** [retries]: how many retries remain; the durations slept, in order. *)
(* sui-anchor/src/driver.rs:223-252 AnchorDriver::try_seal_with_backoff *)
Fixpoint try_seal_with_backoff (config : AnchorDriverConfig) (attempts : nat → Attempt) (receipts : list Receipt)
    (retries attempt : nat) (backoff : N) (w : World) : (Result N DriverError * World) * list N :=
  let '(sealed, c) := sui_seal_batch (attempts attempt) receipts (chain w) in
  match sealed with
  | Ok batch =>
      let '(recorded, s) := MemoryStore.record_sealed_batch batch (store w) in
      ((match recorded with
        | Ok _ => Ok (SealedBatch.ns_range batch).2
        | Err e => Err (RecordSealedBatch (ReceiptError.to_string e))
        end, mkWorld s c), [])
  | Err e =>
      let w := mkWorld (store w) c in
      match e, retries with
      | SealError.Transient _, S retries =>
          let '(r, slept) := try_seal_with_backoff config attempts receipts retries (S attempt)
                               (N.min (backoff * 2) (max_backoff config)) w in
          (r, backoff :: slept)
      | _, _ => ((Err (Seal e), w), [])
      end
  end.

(* sui-anchor/src/driver.rs:184-188 AnchorDriver::run (should_seal) *)
Definition should_seal (config : AnchorDriverConfig) (elapsed : N) (candidates : list Receipt) : bool :=
  negb (bool_decide (candidates = [])) &&
  ((count_threshold config <=? N.of_nat (length candidates))%N || (time_threshold config <=? elapsed)%N).

(** Appends by others fall between the rounds; the seals are the driver's. *)
(* sui-anchor/src/driver.rs:160-221 AnchorDriver::run *)
Definition run_round (config : AnchorDriverConfig) (t : Round) (d : AnchorDriver) (w : World) :
    (AnchorDriver * World) * list N :=
  match fetch_candidates (store w) (watermark d) (max_batch config) with
  | Err _ => ((d, w), [idle_poll_interval config])
  | Ok candidates =>
      if should_seal config (looked_at t - last_seal_at d) candidates then
        let '((outcome, w), slept) := try_seal_with_backoff config (attempts t) candidates (retry_attempts config) 0
                                        (initial_backoff config) w in
        match outcome with
        | Ok new_watermark => ((mkDriver new_watermark (done_at t), w), slept)
        | Err (Seal (SealError.Transient _)) => ((d, w), slept ++ [idle_poll_interval config])
        | Err _ => ((d, w), slept ++ [max_backoff config])
        end
      else ((d, w), [idle_poll_interval config])
  end.

(** The driver's rounds and the appends of the control plane. *)
Inductive Event := Tick (t : Round) | Appended (r : Receipt) (o : AppendOptions) (res : PassportResolver).
Definition anchor_step (config : AnchorDriverConfig) (s : AnchorDriver * World) (e : Event) : AnchorDriver * World :=
  match e with
  | Tick t => (run_round config t s.1 s.2).1
  | Appended r o res => (s.1, mkWorld (MemoryStore.append r o res (store s.2)).2 (chain s.2))
  end.
Definition anchor_run (config : AnchorDriverConfig) (es : list Event) (s : AnchorDriver * World) : AnchorDriver * World :=
  foldl (anchor_step config) s es.
End anchor.

(** ** Starting the driver: keystore.rs, rpc.rs, main.rs *)

(** The crates the start relies on: the private key [PK] of the SDK, its
    addresses, the decoded object and the answer of the ledger service. *)
Record SwarmAnchorOnChain := mkOnChain {
  chain_swarm_id : bytes; chain_sealer_pubkey : bytes; chain_batch_count : N; chain_last_ns_range_end : N;
  chain_created_at_ms : N }.
Record SuiSdk := mkSdk {
  PK : Type; Address : Type; RpcClient : Type;
  from_suiprivkey : string → Result PK string; client_new : string → Result RpcClient string;
  from_hex : string → Result Address string; to_hex : Address → string; derive_address : PK → Address;
  bcs_from_bytes : bytes → Result SwarmAnchorOnChain string;
  get_object_contents : RpcClient → string → Result bytes TonicStatus }.

Section start.
Context (sdk : SuiSdk) (read_to_string : string → Result string string).

(* sui-anchor/src/keystore.rs:50-53 parse_suiprivkey *)
Definition parse_suiprivkey (s : string) : Result (PK sdk) AnchorBackendError :=
  map_err (λ e, AnchorBackendError.SealerKey ("suiprivkey parse: " +:+ e)) (from_suiprivkey sdk s).
(* sui-anchor/src/keystore.rs:35-40 load_sealer_key_from_file *)
Definition load_sealer_key_from_file (path : string) : Result (PK sdk) AnchorBackendError :=
  let? raw := map_err (λ e, AnchorBackendError.SealerKey ("read keystore file " +:+ debug_str path +:+ ": " +:+ e))
                (read_to_string path) in
  parse_suiprivkey (trim raw).

(* sui-anchor/src/rpc.rs:78-97 RpcInner *)
Record RpcAnchorClient := mkRpc {
  rpc : RpcClient sdk; client_key : PK sdk; client_package_id : Address sdk; client_anchor_id : Address sdk;
  sender_address : Address sdk }.
(* sui-anchor/src/rpc.rs:122-152 RpcAnchorClient::connect *)
Definition connect (rpc_url : string) (sealer_key : PK sdk) (package_id_hex swarm_anchor_id_hex : string)
    : Result RpcAnchorClient AnchorBackendError :=
  let? rpc := map_err (λ e, AnchorBackendError.Config ("sui-rpc Client::new(" +:+ rpc_url +:+ "): " +:+ e))
                (client_new sdk rpc_url) in
  let? package := map_err (λ e, AnchorBackendError.Config ("package_id: " +:+ e)) (from_hex sdk package_id_hex) in
  let? anchor_id := map_err (λ e, AnchorBackendError.Config ("swarm_anchor_id: " +:+ e)) (from_hex sdk swarm_anchor_id_hex) in
  Ok (mkRpc rpc sealer_key package anchor_id (derive_address sdk sealer_key)).

(* sui-anchor/src/rpc.rs:344-368 decode_anchor_state *)
Definition decode_anchor_state (object_bcs : bytes) : Result AnchorState AnchorBackendError :=
  let? parsed := map_err (λ e, AnchorBackendError.SwarmAnchorRead
                             ("BCS decode SwarmAnchor (object content shape may have changed): " +:+ e))
                   (bcs_from_bytes sdk object_bcs) in
  Ok (mkAnchorState (chain_batch_count parsed) (chain_last_ns_range_end parsed)).
(* sui-anchor/src/rpc.rs:157-191 RpcAnchorClient::read_anchor_state *)
Definition read_anchor_state (client : RpcAnchorClient) : Result AnchorState AnchorBackendError :=
  let? contents := map_err (λ e, classify_rpc_error e "get_object(SwarmAnchor)")
                     (get_object_contents sdk (rpc client) (to_hex sdk (client_anchor_id client))) in
  match contents with
  | [] => Err (AnchorBackendError.SwarmAnchorRead
                 "object response missing Move contents (wrong object id, or fullnode doesn't expose object_contents on this version?)")
  | bcs_bytes => decode_anchor_state bcs_bytes
  end.

(** The configuration and the driver that is spawned, at [now]; a context
    replaces the text of the error. *)
(* yutha-control-plane/src/main.rs:1585-1662 spawn_anchor_driver *)
Definition spawn_anchor_driver (cfg : ResolvedAnchorConfig) (now : Instant)
    : Result (RpcAnchorClient * AnchorDriverConfig * AnchorDriver) string :=
  let? sealer_key := map_err (λ _, "load sealer key from " +:+ anchor_key_file cfg)
                       (load_sealer_key_from_file (anchor_key_file cfg)) in
  let? client := map_err (λ _, "connect Sui RPC anchor client"%string)
                   (connect (rpc_url cfg) sealer_key (package_id_hex cfg) (swarm_anchor_id_hex cfg)) in
  let? state := map_err (λ _, "read initial SwarmAnchor state"%string) (read_anchor_state client) in
  let driver_cfg := mkDriverConfig (batch_count_threshold cfg) (batch_time_threshold cfg) (max_batch_size cfg)
                      (retry_attempts driver_defaults) (initial_backoff driver_defaults) (max_backoff driver_defaults)
                      (idle_poll_interval driver_defaults) in
  Ok (client, driver_cfg, mkDriver (state_last_ns_range_end state) now).

(* yutha-control-plane/src/main.rs:1556-1573 main (Sui anchoring) *)
Definition start_anchoring (anchor_config : option ResolvedAnchorConfig) (bootstrap_swarm_id : option SwarmId) (now : Instant)
    : Result (option (SwarmId * (RpcAnchorClient * AnchorDriverConfig * AnchorDriver))) string :=
  match anchor_config with
  | None => Ok None
  | Some ac =>
      let? swarm_id := ok_or bootstrap_swarm_id
        "Sui anchoring requires --bootstrap-seed (the SwarmAnchor's on-chain swarm_id must match the seed-derived value)"%string in
      let? driver := map_err (λ _, "spawn Sui anchor driver"%string) (spawn_anchor_driver ac now) in
      Ok (Some (swarm_id, driver))
  end.

(** Anchoring starts exactly with a seed, a key, addresses and an object that
    read; the driver's watermark is the object's. *)
Lemma start_anchoring_Ok anchor_config seed now swarm client cfg d :
  start_anchoring anchor_config seed now = Ok (Some (swarm, (client, cfg, d))) ↔
  ∃ ac state, anchor_config = Some ac ∧ seed = Some swarm ∧
    load_sealer_key_from_file (anchor_key_file ac) = Ok (client_key client) ∧
    connect (rpc_url ac) (client_key client) (package_id_hex ac) (swarm_anchor_id_hex ac) = Ok client ∧
    read_anchor_state client = Ok state ∧ d = mkDriver (state_last_ns_range_end state) now ∧
    cfg = mkDriverConfig (batch_count_threshold ac) (batch_time_threshold ac) (max_batch_size ac) 5 200000000
            (from_secs 5) (from_secs 1).
Proof.
  unfold start_anchoring, spawn_anchor_driver. split.
  - intros Hs. destruct anchor_config as [ac|]; [|done]. inv_ok Hs.
    match goal with H : connect _ ?k _ _ = Ok client |- _ => assert (client_key client = k) as Hk end.
    { unfold connect in *. match goal with H : _ = Ok client |- _ => by inv_ok H end. }
    do 2 eexists. by rewrite Hk.
  - intros (ac & state & -> & -> & Hk & Hc & Hr & -> & ->). cbn [ok_or rbind]. rewrite Hk. cbn [map_err rbind].
    rewrite Hc. cbn [map_err rbind]. by rewrite Hr.
Qed.
End start.
