(* ===== verification/AnchorLaws.v ===== *)
(** * [backends/sui-anchor]: what the sealer and the driver guarantee

    The contract accepts what the sealer signs; every seal the store holds is
    on the chain; with confirmed transactions every new receipt is sealed; and
    what a lost confirmation does. *)

From S2P Require Import Prelude RustStd RustText Core CoreProto Crypto ReceiptTypes ReceiptProto Merkle Preimage Sealer.
From S2P Require Import ReceiptVerify ReceiptStore Startup AnchorContract Anchor.

#[local] Arguments be_bytes : simpl never.

(** ** The contract and the encoder agree *)

Lemma vector_lt_cmp a b : vector_lt a b = bool_decide (bytes_cmp a b = Lt).
Proof.
  revert b; induction a as [|x a IH]; intros [|y b]; simpl; try done.
  destruct (N.compare_spec (Byte.to_N x) (Byte.to_N y)) as [E|E|E].
  - rewrite E, N.ltb_irrefl. apply IH.
  - by rewrite (proj2 (N.ltb_lt _ _) E).
  - rewrite (proj2 (N.ltb_lt _ _) E). by destruct (N.ltb_spec (Byte.to_N x) (Byte.to_N y)); [lia|].
Qed.
Lemma vector_lt_of_le a b : bytes_le a b → a ≠ b → vector_lt a b = true.
Proof.
  rewrite bytes_le_cmp, vector_lt_cmp, bool_decide_eq_true. intros Hle Hne.
  destruct (bytes_cmp a b) eqn:E; [|done|done]. by apply bytes_cmp_Eq in E.
Qed.

(** A histogram as the client passes it. *)
Definition on_wire (e : string * N) : bytes * N := (as_bytes e.1, e.2).

(** The keys of the entries increase. *)
Lemma validate_entries_sorted l prev sum :
  StronglySorted kv_le l → NoDup l.*1 → Forall entry_ok l →
  (∀ p, prev = Some p → Forall (λ e, vector_lt p (as_bytes e.1) = true) l) →
  (sum + sum_counts l <= u64_max)%N →
  validate_entries prev sum (on_wire <$> l) = Ok (sum + sum_counts l)%N.
Proof.
  intros Hs. revert prev sum; induction Hs as [|[k c] l Hs IH Hall]; intros prev sum Hnd Hok Hp Hsum.
  { simpl. by rewrite N.add_0_r. }
  apply NoDup_cons in Hnd as [Hk Hnd]. apply Forall_cons in Hok as [[Hlen _] Hok]. csimpl.
  assert ((len (as_bytes k) <=? 255)%N = true) as ->.
  { apply N.leb_le. unfold len. rewrite length_as_bytes. unfold str_len, MAX_ACTION_KIND_LEN in Hlen. simpl in Hlen. lia. }
  cbn [move_assert rbind].
  assert (match prev with Some prev => move_assert (vector_lt prev (as_bytes k)) EHistogramNotSorted | None => Ok tt end = Ok tt) as ->.
  { destruct prev as [p|]; [|done]. specialize (Hp p eq_refl). apply Forall_cons in Hp as [Hp _]. simpl in Hp. by rewrite Hp. }
  cbn [rbind]. simpl in Hsum. rewrite (proj2 (move_add_Ok sum c (sum + c)) ltac:(lia)). cbn [rbind].
  rewrite IH; [f_equal; simpl; lia|done|done| |lia].
  intros p [= <-]. rewrite Forall_forall in Hall |- *. intros [k' c'] Hin. apply vector_lt_of_le; [by apply (Hall (k', c'))|].
  intros ->%as_bytes_inj. apply Hk. apply list_elem_of_fmap. by exists (k', c').
Qed.

Lemma insert_pairs_nodup l map :
  NoDup (map ++ l).*1 → insert_pairs l map = Ok (map ++ l).
Proof.
  revert map; induction l as [|e l IH]; intros map Hnd; simpl; [by rewrite app_nil_r|].
  rewrite fmap_app, fmap_cons in Hnd. rewrite bool_decide_eq_false_2.
  - rewrite IH; [by rewrite <- app_assoc|]. rewrite <- app_assoc. simpl. by rewrite fmap_app.
  - apply NoDup_app in Hnd as (_ & Hd & _). intros He. apply (Hd _ He). set_solver.
Qed.

Lemma move_entries l :
  Forall entry_ok l → collect move_entry (on_wire <$> l) = Ok (entry_bytes <$> l).
Proof.
  intros Hok. apply collect_Ok. apply Forall2_fmap. apply Forall_Forall2_diag. apply Forall_impl with (1 := Hok).
  intros [k c] [Hlen _]. unfold move_entry, entry_bytes. simpl.
  unfold str_len, MAX_ACTION_KIND_LEN in Hlen. simpl in Hlen.
  unfold len, str_len. rewrite length_as_bytes. simpl. by rewrite (proj2 (N.leb_le _ _)) by lia.
Qed.

Section contract.
Context `{CryptoOps}.
Implicit Types (histogram : gmap string N).

Definition wire_histogram histogram : list (bytes * N) := on_wire <$> btree_iter histogram.

(** The contract rebuilds the bytes the sealer signed. *)
Lemma preimages_agree sw root count s e h m :
  canonical_preimage sw root count s e h = Ok m →
  build_canonical_preimage (SwarmId.as_bytes sw) (Hash.digest root) count s e (wire_histogram h) = Ok m.
Proof.
  intros [(_ & _ & _ & Hok & _ & _ & Hsz) ->]%canonical_preimage_Ok. unfold build_canonical_preimage, wire_histogram.
  rewrite length_fmap, length_btree_iter. unfold is_u32. rewrite (proj2 (N.leb_le _ _) Hsz). cbn [ok_or rbind].
  by rewrite move_entries.
Qed.

Lemma zip_fst_snd {A B} (l : list (A * B)) : zip l.*1 l.*2 = l.
Proof. induction l as [|[] l IH]; [done|]. csimpl. by rewrite IH. Qed.

Lemma wire_keys_nodup h : NoDup (wire_histogram h).*1.
Proof.
  unfold wire_histogram. rewrite <- list_fmap_compose.
  assert (fst ∘ on_wire <$> btree_iter h = as_bytes <$> (btree_iter h).*1) as ->.
  { by rewrite <- list_fmap_compose. }
  apply NoDup_fmap_2_strong; [|apply NoDup_btree_iter_keys]. intros x y _ _. apply as_bytes_inj.
Qed.

Lemma validate_wire h count root s e sw m :
  canonical_preimage sw root count s e h = Ok m → validate_histogram (wire_histogram h) count = Ok tt.
Proof.
  intros [(_ & _ & _ & Hok & -> & Hmax & _) _]%canonical_preimage_Ok. unfold validate_histogram, wire_histogram.
  rewrite (validate_entries_sorted (btree_iter h) None 0);
    [|apply btree_iter_sorted|apply NoDup_btree_iter_keys|done|done|by rewrite N.add_0_l].
  cbn [rbind]. by rewrite N.add_0_l, N.eqb_refl.
Qed.

(** The arrays of the client become the sealer's histogram. *)
Lemma commit_arrays_wire root count s e h sig ms a :
  commit_batch_from_arrays root count s e (wire_histogram h).*1 (wire_histogram h).*2 sig ms a =
  commit_batch root count s e (wire_histogram h) sig ms a.
Proof.
  unfold commit_batch_from_arrays. rewrite !length_fmap, Nat.eqb_refl. cbn [move_assert rbind].
  rewrite zip_fst_snd, insert_pairs_nodup by apply wire_keys_nodup. done.
Qed.

(** A batch whose preimage the sealer built and signed: the contract takes it
    exactly if it starts no earlier than the last one ended. *)
Lemma signed_batch_accepted sw root count s e h m sig ms a :
  canonical_preimage sw root count s e h = Ok m → anchor_swarm_id a = SwarmId.as_bytes sw →
  len sig = 64%N → ed25519_verify (sealer_pubkey a) m sig = true → (batch_count a < u64_max)%N →
  commit_batch_from_arrays (Hash.digest root) count s e (wire_histogram h).*1 (wire_histogram h).*2 sig ms a =
  if (last_ns_range_end a <=? s)%N
  then Ok (mkAnchor (anchor_swarm_id a) (sealer_pubkey a) (batch_count a + 1) e (created_at_ms a),
           mkCommitted (anchor_swarm_id a) (batch_count a) (Hash.digest root) count s e (wire_histogram h) ms)
  else Err (AbortCode ENsRangeNotMonotonic).
Proof.
  intros Hm Hsw Hsig Hver Hn. rewrite commit_arrays_wire.
  pose proof (preimages_agree _ _ _ _ _ _ _ Hm) as Hb. pose proof (validate_wire _ _ _ _ _ _ _ Hm) as Hv.
  apply canonical_preimage_Ok in Hm as [(Hr & Hse & _) _].
  assert (len (Hash.digest root) = 32%N) as Hd by (destruct root as [[] d]; exact Hr).
  destruct (N.leb_spec (last_ns_range_end a) s).
  - apply commit_batch_Ok. rewrite Hsw. split_and!; try done; [|lia]. by exists m.
  - unfold commit_batch. rewrite Hd, Hsig. cbn [N.eqb move_assert rbind Pos.eqb].
    rewrite (proj2 (N.leb_le _ _) Hse). cbn [move_assert rbind].
    by rewrite (proj2 (N.leb_gt _ _)) by done.
Qed.
End contract.


(** ** One attempt, one batch, one round *)

Section driver.
Context `{TimeOps} `{CryptoOps} `{Encode rproto.Receipt}.
Context (abort_text : Abort → string) (try_sign : bytes → Result bytes string) (swarm_id : SwarmId).
Notation submit := (submit_commit_batch abort_text).
Notation seal_on_chain := (sui_seal_batch abort_text try_sign swarm_id).
Notation with_backoff := (try_seal_with_backoff abort_text try_sign swarm_id).
Notation round := (run_round abort_text try_sign swarm_id).
Notation step := (anchor_step abort_text try_sign swarm_id).
Notation runs := (anchor_run abort_text try_sign swarm_id).
Implicit Types (rs : list Receipt) (c : Chain) (w : World) (d : AnchorDriver) (config : AnchorDriverConfig).

(** What a batch puts on the chain: the call, and the object and event it leaves. *)
Definition commits (a : Attempt) rs c (batch : SealedBatch) (a' : SwarmAnchor) (ev : AnchorCommitted) : Prop :=
  ∃ m range preimage signature digest,
    build_merkle rs = Ok m ∧ compute_ns_range rs = Some range ∧
    canonical_preimage swarm_id (MerkleBatch.root m) (N.of_nat (length rs)) range.1 range.2 (compute_histogram rs) = Ok preimage ∧
    try_sign preimage = Ok signature ∧
    commit_batch_from_arrays (Hash.digest (MerkleBatch.root m)) (N.of_nat (length rs)) range.1 range.2
      (wire_histogram (compute_histogram rs)).*1 (wire_histogram (compute_histogram rs)).*2 signature (chain_ms a) (anchor c)
      = Ok (a', ev) ∧
    batch = SealedBatch.mk (MerkleBatch.root m) (MerkleBatch.leaves m) (sealed_now a) (compute_histogram rs) range digest.

(** A batch is refused and nothing happens, or it is on the chain, whether the
    sealer learns it or not. *)
Lemma seal_cases a rs c :
  (∃ e, seal_on_chain a rs c = (Err e, c)) ∨
  ∃ batch a' ev, commits a rs c batch a' ev ∧
    ((network a = Executed (SealedBatch.commitment_id batch) None ∧
      seal_on_chain a rs c = (Ok batch, mkChain a' (events c ++ [ev]))) ∨
     ∃ digest lost e, network a = Executed digest (Some lost) ∧
       seal_on_chain a rs c = (Err e, mkChain a' (events c ++ [ev]))).
Proof.
  destruct (seal_on_chain a rs c) as [out c'] eqn:Hx. unfold sui_seal_batch in Hx.
  destruct rs as [|r rs']; [left; injection Hx as <- <-; by eexists|]. remember (r :: rs') as rs eqn:Hrs.
  cbv [mthen m_map_err lift mret throw sign_preimage submit_commit_batch] in Hx.
  cbn [arg_root arg_count arg_start arg_end arg_histogram arg_signature] in Hx.
  destruct (build_merkle rs) as [m|e] eqn:Hm; cbn [map_err] in Hx; [|left; injection Hx as <- <-; by eexists].
  destruct (compute_ns_range rs) as [[lo hi]|] eqn:Hr; [|left; injection Hx as <- <-; by eexists].
  destruct (canonical_preimage _ _ _ _ _ _) as [p|e] eqn:Hp; cbn [map_err] in Hx; [|left; injection Hx as <- <-; by eexists].
  destruct (try_sign p) as [sig|e] eqn:Hs; cbn [map_err] in Hx; [|left; injection Hx as <- <-; by eexists].
  destruct (network a) as [| | | |digest lost] eqn:Hn; cbn [map_err] in Hx; try (left; injection Hx as <- <-; by eexists).
  change ((λ e : string * N, (as_bytes e.1, e.2)) <$> btree_iter (compute_histogram rs))
    with (wire_histogram (compute_histogram rs)) in Hx.
  destruct (commit_batch_from_arrays _ _ _ _ _ _ _ _ _) as [[a' ev]|abort] eqn:Hc.
  - right. exists (SealedBatch.mk (MerkleBatch.root m) (MerkleBatch.leaves m) (sealed_now a) (compute_histogram rs) (lo, hi) digest), a', ev.
    split; [by exists m, (lo, hi), p, sig, digest|].
    destruct lost as [e|]; cbn [map_err] in Hx; injection Hx as <- <-; [right; by do 3 eexists|by left].
  - left. destruct lost as [e|]; cbn [map_err] in Hx; injection Hx as <- <-; by eexists.
Qed.

Lemma commits_event a rs c batch a' ev :
  commits a rs c batch a' ev →
  event_root ev = Hash.digest (SealedBatch.batch_root batch) ∧ event_start ev = (SealedBatch.ns_range batch).1 ∧
  event_end ev = (SealedBatch.ns_range batch).2 ∧ (last_ns_range_end (anchor c) <= event_start ev <= event_end ev)%N ∧
  batch_index ev = batch_count (anchor c) ∧ batch_count a' = (batch_count (anchor c) + 1)%N ∧
  last_ns_range_end a' = event_end ev ∧ sealer_pubkey a' = sealer_pubkey (anchor c) ∧
  anchor_swarm_id a' = anchor_swarm_id (anchor c) ∧ event_count ev = N.of_nat (length rs) ∧
  build_merkle rs = Ok (MerkleBatch.mk (SealedBatch.batch_root batch) (SealedBatch.leaves batch)) ∧
  compute_ns_range rs = Some (SealedBatch.ns_range batch).
Proof.
  intros (m & range & p & sig & digest & Hm & Hr & _ & _ & Hc & ->).
  rewrite commit_arrays_wire in Hc. apply commit_batch_Ok in Hc as (_ & _ & ? & ? & _ & _ & _ & -> & ->).
  destruct m. simpl. split_and!; done.
Qed.

(** *** The candidates *)

Definition newer (s : MemoryStore) (wm : N) : list Receipt :=
  filter (λ r, (wm < ns_of r)%N ∧ (ns_of r <= u64_max)%N) (MemoryStore.values s).

(** The oldest of the receipts above the watermark, oldest first; none if the
    watermark is one below the largest time. *)
Lemma fetch_cases (s : MemoryStore) wm n l :
  fetch_candidates s wm n = Ok l →
  ∃ full, StronglySorted earlier full ∧ l = take (N.to_nat n) full ∧
    (∀ r, r ∈ full → r ∈ newer s wm) ∧ ((wm + 1 < u64_max)%N → full ≡ₚ newer s wm).
Proof.
  unfold fetch_candidates, u64_saturating_add. destruct (N.eqb_spec (N.min u64_max (wm + 1)) u64_max) as [Hu|Hu].
  { intros [= <-]. exists []. split_and!; [constructor|by rewrite firstn_nil|by intros r ?%elem_of_nil|lia]. }
  rewrite N.min_r by lia. unfold Timestamp.new. intros Hf. inv_ok Hf.
  exists (sort_by_ns (newer s wm)).
  assert (sort_by_ns (newer s wm) ≡ₚ newer s wm) as Hp by apply merge_sort_Permutation.
  split_and!; [apply sort_by_ns_sorted| |intros r; by rewrite Hp|done].
  do 2 f_equal. unfold newer. apply list_filter_iff. intros r. simpl. lia.
Qed.

(** Only the two fixed instants the query is built from can fail. *)
Lemma fetch_total (s : MemoryStore) wm n :
  is_Some (parse_rfc3339 "1970-01-01T00:00:00Z") → is_Some (parse_rfc3339 "9999-12-31T23:59:59Z") →
  ∃ l, fetch_candidates s wm n = Ok l.
Proof.
  intros [x Hx] [y Hy]. unfold fetch_candidates. destruct (_ =? _)%N; [by eexists|].
  unfold Timestamp.new. rewrite Hx, Hy. by eexists.
Qed.

Lemma newer_elem s wm r :
  r ∈ newer s wm ↔ (∃ id, MemoryStore.by_id s !! id = Some r) ∧ (wm < ns_of r <= u64_max)%N.
Proof. unfold newer. rewrite list_elem_of_filter, values_elem. naive_solver. Qed.

Lemma stored_receipt s r : inv s → r ∈ MemoryStore.values s → MemoryStore.by_id s !! receipt_id r = Some r.
Proof. intros [Hid _] (id & Hr)%values_elem. by rewrite <- (Hid _ _ Hr). Qed.

Lemma values_ids_nodup s : inv s → NoDup (receipt_id <$> MemoryStore.values s).
Proof.
  intros [Hid _]. unfold MemoryStore.values. rewrite <- list_fmap_compose.
  assert (receipt_id ∘ snd <$> map_to_list (MemoryStore.by_id s) = (map_to_list (MemoryStore.by_id s)).*1) as ->.
  { apply list_fmap_ext. intros i [id r] Hi. symmetry. apply (Hid id r). apply elem_of_map_to_list.
    by eapply list_elem_of_lookup_2. }
  apply NoDup_fst_map_to_list.
Qed.

Lemma candidates_ids_nodup s wm n l :
  inv s → (wm + 1 < u64_max)%N → fetch_candidates s wm n = Ok l → NoDup (receipt_id <$> l).
Proof.
  intros Hs Hwm (full & _ & -> & _ & Hp)%fetch_cases. specialize (Hp Hwm).
  pose proof (values_ids_nodup s Hs) as Hnd.
  assert (NoDup (receipt_id <$> full)) as Hf; [rewrite Hp; unfold newer|].
  2: { rewrite <- (take_drop (N.to_nat n) full), fmap_app in Hf. by apply NoDup_app in Hf as [? _]. }
  apply NoDup_fmap_2_strong.
  - intros x y [_ Hx]%list_elem_of_filter [_ Hy]%list_elem_of_filter Hxy.
    apply stored_receipt in Hx, Hy; [|done..]. rewrite Hxy in Hx. congruence.
  - apply NoDup_filter. by eapply NoDup_fmap_1.
Qed.

(** *** The attempts of a batch *)

(** Whatever the commits of a batch keep holds after its attempts; they end
    with the batch on the chain and recorded, or with the store as it was. *)
Lemma backoff_spec (I : Chain → Prop) config attempts rs retries k backoff w out w' slept :
  (∀ a c batch a' ev, I c → commits a rs c batch a' ev → I (mkChain a' (events c ++ [ev]))) → I (chain w) →
  with_backoff config attempts rs retries k backoff w = ((out, w'), slept) →
  I (chain w') ∧
  ((∃ a c batch a' ev, I c ∧ commits a rs c batch a' ev ∧ chain w' = mkChain a' (events c ++ [ev]) ∧
      store w' = (MemoryStore.record_sealed_batch batch (store w)).2 ∧
      out = match (MemoryStore.record_sealed_batch batch (store w)).1 with
            | Ok _ => Ok (SealedBatch.ns_range batch).2
            | Err e => Err (RecordSealedBatch (ReceiptError.to_string e))
            end) ∨
   store w' = store w ∧ ∃ e, out = Err (Seal e)).
Proof.
  intros Hkeep. revert k backoff w out w' slept; induction retries as [|retries IH];
    intros k backoff w out w' slept HI Hb; cbn [try_seal_with_backoff] in Hb;
    destruct (seal_cases (attempts k) rs (chain w)) as [[e Hx]|(batch & a' & ev & Hc & [[_ Hx]|(? & ? & e & _ & Hx)])];
    rewrite Hx in Hb;
    try (destruct (MemoryStore.record_sealed_batch batch (store w)) as [rec s] eqn:Hrec; injection Hb as <- <- <-;
         split; [by eapply Hkeep|left; exists (attempts k), (chain w), batch, a', ev; by rewrite Hrec]);
    destruct e; cbn beta iota zeta in Hb.
  all: try (injection Hb as <- <- <-; split; [cbn [chain]; eauto|right; eauto]; fail).
  all: destruct (with_backoff _ _ _ _ _ _ _) as [[out1 w1] slept1] eqn:Hr; injection Hb as <- <- <-;
       eapply (IH _ _ _ _ _ _ _ Hr).
  Unshelve. all: cbn [chain]; eauto.
Qed.

(** The first attempt succeeds. *)
Lemma backoff_first config attempts rs retries backoff w batch c' s' :
  seal_on_chain (attempts 0) rs (chain w) = (Ok batch, c') →
  MemoryStore.record_sealed_batch batch (store w) = (Ok tt, s') →
  with_backoff config attempts rs retries 0 backoff w = ((Ok (SealedBatch.ns_range batch).2, mkWorld s' c'), []).
Proof. intros Hx Hr. destruct retries; cbn [try_seal_with_backoff]; by rewrite Hx, Hr. Qed.

(** No attempt can put the batch on the chain: nothing happens. *)
Lemma backoff_stuck config attempts rs retries k backoff w out w' slept :
  (∀ a batch a' ev, ¬ commits a rs (chain w) batch a' ev) →
  with_backoff config attempts rs retries k backoff w = ((out, w'), slept) →
  w' = w ∧ ∃ e, out = Err (Seal e).
Proof.
  intros Hno Hb.
  destruct (backoff_spec (λ c, c = chain w) _ _ _ _ _ _ _ _ _ _ ltac:(naive_solver) eq_refl Hb)
    as [Hc [(a & c & batch & a' & ev & -> & Hcom & _)|[Hs He]]]; [by destruct (Hno a batch a' ev)|].
  split; [|done]. destruct w, w'; simpl in *; congruence.
Qed.

(** *** Rounds *)

(** A round seals a batch, or changes nothing but the chain. *)
Lemma round_cases (I : Chain → Prop) config t d w d' w' slept :
  (∀ a c batch a' ev rs, fetch_candidates (store w) (watermark d) (max_batch config) = Ok rs →
     I c → commits a rs c batch a' ev → I (mkChain a' (events c ++ [ev]))) → I (chain w) →
  round config t d w = ((d', w'), slept) →
  I (chain w') ∧
  ((∃ a c rs batch a' ev, fetch_candidates (store w) (watermark d) (max_batch config) = Ok rs ∧ rs ≠ [] ∧
      I c ∧ commits a rs c batch a' ev ∧ chain w' = mkChain a' (events c ++ [ev]) ∧
      store w' = (MemoryStore.record_sealed_batch batch (store w)).2 ∧
      is_ok (MemoryStore.record_sealed_batch batch (store w)).1 = true ∧
      d' = mkDriver (SealedBatch.ns_range batch).2 (done_at t)) ∨
   store w' = store w ∧ d' = d).
Proof.
  intros Hkeep HI Hr. unfold run_round in Hr.
  destruct (fetch_candidates _ _ _) as [rs|e] eqn:Hf; [|by injection Hr as <- <- <-; auto].
  destruct (should_seal _ _ _) eqn:Hs; [|by injection Hr as <- <- <-; auto].
  assert (rs ≠ []) as Hne by (intros ->; done).
  destruct (with_backoff _ _ _ _ _ _ _) as [[out w1] sl] eqn:Hb.
  apply (backoff_spec I) in Hb as [HI' Hb]; [|by eauto|done].
  destruct Hb as [(a & c & batch & a' & ev & Hc & Hcom & Hch & Hst & ->)|[Hst [e ->]]].
  - pose proof (record_sealed_batch_cases batch (store w)) as Hrec.
    destruct (MemoryStore.record_sealed_batch batch (store w)) as [[u|e] s1] eqn:Hr1; injection Hr as <- <- <-.
    + split; [done|]. left. exists a, c, rs, batch, a', ev. by rewrite Hr1.
    + split; [done|]. right. split; [|done]. destruct Hrec as [(? & [= _ ->])|(_ & _ & ?)]; [done|congruence].
  - destruct e; injection Hr as <- <- <-; auto.
Qed.

(** ** The log of the contract *)

Fixpoint log_from (index lo : N) (evs : list AnchorCommitted) : Prop :=
  match evs with
  | [] => True
  | ev :: evs => batch_index ev = index ∧ (lo <= event_start ev <= event_end ev)%N ∧ log_from (index + 1) (event_end ev) evs
  end.
(** The events since [a0], numbered without a gap, no range before the one that
    went before; and the object as they left it. *)
Definition log_ok (a0 : SwarmAnchor) c : Prop :=
  log_from (batch_count a0) (last_ns_range_end a0) (events c) ∧
  batch_count (anchor c) = (batch_count a0 + N.of_nat (length (events c)))%N ∧
  last_ns_range_end (anchor c) = default (last_ns_range_end a0) (event_end <$> last (events c)) ∧
  sealer_pubkey (anchor c) = sealer_pubkey a0 ∧ anchor_swarm_id (anchor c) = anchor_swarm_id a0.

Lemma log_from_snoc index lo evs ev :
  log_from index lo evs → batch_index ev = (index + N.of_nat (length evs))%N →
  (default lo (event_end <$> last evs) <= event_start ev <= event_end ev)%N → log_from index lo (evs ++ [ev]).
Proof.
  revert index lo; induction evs as [|e evs IH]; intros index lo Hl Hi Hr; simpl in *.
  { rewrite N.add_0_r in Hi. auto. }
  destruct Hl as (? & ? & Hl). split_and!; [done|lia|lia|]. apply IH; [done|lia|].
  rewrite last_cons in Hr. by destruct (last evs).
Qed.

Lemma log_commits a0 a rs c batch a' ev :
  log_ok a0 c → commits a rs c batch a' ev → log_ok a0 (mkChain a' (events c ++ [ev])).
Proof.
  intros (Hl & Hn & Hlast & Hk & Hs) (_ & _ & _ & Hr & Hi & Hn' & Hlast' & Hk' & Hs' & _)%commits_event.
  unfold log_ok. simpl. rewrite length_app, last_snoc. simpl. split_and!; [|lia|done|congruence|congruence].
  apply log_from_snoc; [done|congruence|]. by rewrite <- Hlast.
Qed.

(** ** Every seal is on the chain *)

(** A seal of the store: its receipt, and the event that committed its root. *)
Definition backed (s : MemoryStore) c (wm : N) (id : Hash) (st : SealStatus) : Prop :=
  ∃ r ev root, MemoryStore.by_id s !! id = Some r ∧ (ns_of r <= wm)%N ∧ ev ∈ events c ∧
    SealStatus.batch_root st = Some root ∧ event_root ev = Hash.digest root ∧
    (event_start ev <= ns_of r <= event_end ev)%N ∧ verify_path id (SealStatus.merkle_path st) root = true.
Definition anchored (a0 : SwarmAnchor) (s : AnchorDriver * World) : Prop :=
  inv (store s.2) ∧ log_ok a0 (chain s.2) ∧ (watermark s.1 <= last_ns_range_end (anchor (chain s.2)))%N ∧
  ∀ id st, MemoryStore.seals (store s.2) !! id = Some st → backed (store s.2) (chain s.2) (watermark s.1) id st.

Lemma backed_mono s s' c c' wm wm' id st :
  MemoryStore.by_id s ⊆ MemoryStore.by_id s' → events c `prefix_of` events c' → (wm <= wm')%N →
  backed s c wm id st → backed s' c' wm' id st.
Proof.
  intros Hs [k Hk] Hwm (r & ev & root & Hr & Hle & Hev & ?). exists r, ev, root.
  split; [by eapply lookup_weaken|]. split; [lia|]. split; [rewrite Hk; set_solver|done].
Qed.

Lemma path_verifies rs m l :
  build_merkle rs = Ok m → l ∈ MerkleBatch.leaves m →
  verify_path (LeafProof.leaf l) (LeafProof.path l) (MerkleBatch.root m) = true.
Proof.
  intros (_ & _ & _ & d & _ & Hall)%build_merkle_Ok Hl. apply bool_decide_eq_true. by apply Hall.
Qed.

Lemma leaf_receipt rs m l :
  build_merkle rs = Ok m → l ∈ MerkleBatch.leaves m → ∃ r, r ∈ rs ∧ LeafProof.leaf l = receipt_id r.
Proof.
  intros (_ & _ & Hl & _)%build_merkle_Ok Hin.
  assert (LeafProof.leaf l ∈ LeafProof.leaf <$> MerkleBatch.leaves m) as Hx by (apply list_elem_of_fmap; eauto).
  rewrite Hl, canonical_leaves_ids in Hx. apply list_elem_of_fmap in Hx as (r & ? & ?). eauto.
Qed.

(** What a batch recorded after its commit seals. *)
Lemma recorded_backed s wm n a c rs batch a' ev id st :
  inv s → fetch_candidates s wm n = Ok rs → commits a rs c batch a' ev →
  MemoryStore.seals (MemoryStore.record_sealed_batch batch s).2 !! id = Some st →
  MemoryStore.seals s !! id = Some st ∨
  backed (MemoryStore.record_sealed_batch batch s).2 (mkChain a' (events c ++ [ev])) (SealedBatch.ns_range batch).2 id st.
Proof.
  intros Hs Hf Hcom. pose proof (commits_event _ _ _ _ _ _ Hcom) as (Hroot & Hst & Hen & _ & _ & _ & _ & _ & _ & _ & Hm & Hr).
  destruct (record_sealed_batch_cases batch s) as [(e & ->)|(_ & _ & ->)]; simpl; [auto|].
  destruct (insert_leaves_lookup (MemoryStore.status_of batch) (SealedBatch.leaves batch) (MemoryStore.seals s) id)
    as [[_ ->]|(l & Hl & <- & ->)]; [auto|].
  intros [= <-]. right. destruct (leaf_receipt _ _ l Hm Hl) as (r & Hin & Hid).
  destruct (SealedBatch.ns_range batch) as [lo hi] eqn:Hlh.
  apply compute_ns_range_spec in Hr as [Hall _]. rewrite Forall_forall in Hall. specialize (Hall r Hin).
  destruct (fetch_cases _ _ _ _ Hf) as (full & _ & -> & Hfull & _).
  apply elem_of_take in Hin as (i & Hi & _). apply list_elem_of_lookup_2 in Hi.
  apply Hfull in Hi. unfold newer in Hi. apply list_elem_of_filter in Hi as [_ Hv].
  exists r, ev, (SealedBatch.batch_root batch). simpl. rewrite Hid. split_and!.
  - by apply stored_receipt.
  - lia.
  - set_solver.
  - apply status_of_root.
  - done.
  - simpl in Hst. lia.
  - simpl in Hen. lia.
  - rewrite <- Hid. unfold MemoryStore.status_of.
    pose proof (path_verifies _ _ l Hm Hl) as Hv'. by destruct (SealedBatch.commitment_id batch).
Qed.

Lemma append_keeps_seals r o res (s : MemoryStore) :
  MemoryStore.seals (MemoryStore.append r o res s).2 = MemoryStore.seals s.
Proof. destruct (append_cases r o res s) as [(e & -> & _)|[_ ->]]; [done|]. by case_decide. Qed.

Lemma record_keeps_receipts batch (s : MemoryStore) :
  MemoryStore.by_id (MemoryStore.record_sealed_batch batch s).2 = MemoryStore.by_id s.
Proof. by destruct (record_sealed_batch_cases batch s) as [(e & ->)|(_ & _ & ->)]. Qed.

Lemma record_keeps_inv batch s : inv s → inv (MemoryStore.record_sealed_batch batch s).2.
Proof. intros Hs. by apply (step_inv s (ReceiptStore.RecordSealedBatch batch)). Qed.

Lemma round_anchored a0 config t s : anchored a0 s → anchored a0 (round config t s.1 s.2).1.
Proof.
  destruct s as [d w]. intros (Hs & Hlog & Hwm & Hback).
  destruct (round config t d w) as [[d' w'] slept] eqn:Hr. cbn [fst snd] in *. rewrite Hr.
  pose (I c := log_ok a0 c ∧ events (chain w) `prefix_of` events c ∧
               (last_ns_range_end (anchor (chain w)) <= last_ns_range_end (anchor c))%N).
  assert (∀ a c batch a' ev rs, I c → commits a rs c batch a' ev → I (mkChain a' (events c ++ [ev]))) as Hkeep.
  { intros a c batch a' ev rs (Hl & Hp & Hle) Hc. split_and!; [by eapply log_commits|by apply prefix_app_r|].
    apply commits_event in Hc as (_ & _ & _ & ? & _ & _ & Hla & _). simpl. lia. }
  apply (round_cases I) in Hr; [|by eauto|done].
  destruct Hr as [(Hl & Hp & Hle) [(a & c & rs & batch & a' & ev & Hf & _ & (_ & Hpc & Hlc) & Hcom & Hch & Hst & _ & ->)|[Hst ->]]];
    unfold anchored; cbn [fst snd]; rewrite ?Hst.
  - pose proof (commits_event _ _ _ _ _ _ Hcom) as (_ & _ & Hen & Hlo & _ & _ & Hla & _).
    split_and!; [by apply record_keeps_inv|done|rewrite Hch; simpl; lia|].
    intros id st Hseal. rewrite Hch. eapply recorded_backed in Hseal as [Hseal|?]; [|done..].
    eapply backed_mono, Hback, Hseal; [by rewrite record_keeps_receipts|by apply prefix_app_r|]. simpl. lia.
  - split_and!; [done|done|lia|]. intros id st Hseal. by eapply backed_mono, Hback, Hseal.
Qed.

Lemma step_anchored a0 config s e : anchored a0 s → anchored a0 (step config s e).
Proof.
  destruct e as [t|r o res]; [apply round_anchored|]. intros (Hs & Hlog & Hwm & Hback).
  unfold anchored. cbn [anchor_step fst snd store chain]. split_and!; [by apply inv_append|done|done|].
  rewrite append_keeps_seals. intros id st Hst. eapply backed_mono, Hback, Hst; [|done..].
  by apply (step_grows _ (Append r o res)).
Qed.

Lemma run_anchored a0 config es s : anchored a0 s → anchored a0 (runs config es s).
Proof. revert s; induction es as [|e es IH]; intros s Hs; [done|]. by apply IH, step_anchored. Qed.

Lemma start_anchored a0 t0 :
  anchored a0 (mkDriver (last_ns_range_end a0) t0, mkWorld MemoryStore.new (mkChain a0 [])).
Proof.
  split_and!; [apply inv_new| |reflexivity|intros id st Hst; simpl in Hst; by apply lookup_empty_Some in Hst].
  split_and!; simpl; try done. lia.
Qed.

(** ** Below the watermark *)

(** Receipts of one time cut off by the size of a batch, appended late, or of a
    clock that started again: never sealed. *)
Definition left_behind (id : Hash) (r : Receipt) (s : AnchorDriver * World) : Prop :=
  inv (store s.2) ∧ MemoryStore.by_id (store s.2) !! id = Some r ∧ (ns_of r <= watermark s.1)%N ∧
  MemoryStore.seals (store s.2) !! id = None.

Lemma left_behind_round config t id r s : left_behind id r s → left_behind id r (round config t s.1 s.2).1.
Proof.
  destruct s as [d w]. intros (Hs & Hid & Hwm & Hun).
  destruct (round config t d w) as [[d' w'] slept] eqn:Hr. cbn [fst snd] in *. rewrite Hr.
  apply (round_cases (λ _, True)) in Hr as [_ [(a & c & rs & batch & a' & ev & Hf & Hne & _ & Hcom & _ & Hst & _ & ->)|[Hst ->]]];
    [..|done|done]; unfold left_behind; cbn [fst snd]; rewrite Hst; [|done].
  pose proof (commits_event _ _ _ _ _ _ Hcom) as (_ & _ & _ & _ & _ & _ & _ & _ & _ & _ & Hm & Hr).
  destruct (SealedBatch.ns_range batch) as [lo hi] eqn:Hlh. apply compute_ns_range_spec in Hr as [Hall _].
  assert (∀ x, x ∈ rs → MemoryStore.by_id (store w) !! receipt_id x = Some x ∧ (watermark d < ns_of x)%N) as Hnew.
  { intros x Hx. destruct (fetch_cases _ _ _ _ Hf) as (full & _ & -> & Hin & _).
    apply elem_of_take in Hx as (i & Hi & _). apply list_elem_of_lookup_2, Hin, list_elem_of_filter in Hi as [Hlt Hv].
    split; [by apply stored_receipt|lia]. }
  split_and!; [by apply record_keeps_inv|by rewrite record_keeps_receipts| |].
  - destruct rs as [|x rs]; [done|]. apply Forall_cons in Hall as [? _]. destruct (Hnew x); [set_solver|]. simpl. lia.
  - destruct (record_sealed_batch_cases batch (store w)) as [(e & ->)|(_ & _ & ->)]; [done|]. simpl.
    destruct (insert_leaves_lookup (MemoryStore.status_of batch) (SealedBatch.leaves batch) (MemoryStore.seals (store w)) id)
      as [[_ ->]|(l & Hl & <- & _)]; [done|]. exfalso.
    destruct (leaf_receipt _ _ l Hm Hl) as (x & Hx & Hxid). destruct (Hnew x Hx) as [Hst' ?].
    rewrite Hxid, Hst' in Hid. injection Hid as ->. lia.
Qed.

Lemma below_watermark_stays config es id r s : left_behind id r s → left_behind id r (runs config es s).
Proof.
  revert s; induction es as [|e es IH]; intros s Hs; [done|]. apply IH. destruct e as [t|r' o res]; [by apply left_behind_round|].
  destruct Hs as (Hinv & Hid & Hwm & Hun). unfold left_behind. cbn [anchor_step fst snd store].
  rewrite append_keeps_seals. split_and!; [by apply inv_append| |done|done].
  eapply lookup_weaken; [exact Hid|]. by apply (step_grows _ (ReceiptStore.Append r' o res)).
Qed.

(** ** A receipt below the chain's last range *)

(** A stored receipt the driver has still to seal, older than the chain's last
    range: every batch starts with it or an older one, so no batch commits. *)
Definition wedged d w : Prop :=
  inv (store w) ∧ ∃ id r, MemoryStore.by_id (store w) !! id = Some r ∧
    (watermark d < ns_of r < last_ns_range_end (anchor (chain w)))%N ∧ (ns_of r <= u64_max)%N.

Lemma oldest_first full l r n :
  StronglySorted earlier full → l = take n full → l ≠ [] → r ∈ full → ∃ x, x ∈ l ∧ (ns_of x <= ns_of r)%N.
Proof.
  intros Hs -> Hne Hin. destruct full as [|x full]; [by rewrite firstn_nil in Hne|].
  destruct n; [done|]. exists x. split; [set_solver|].
  apply StronglySorted_inv in Hs as [_ Hall]. rewrite Forall_forall in Hall.
  apply elem_of_cons in Hin as [->|Hin]; [done|by apply Hall].
Qed.

Lemma commits_no_earlier a rs c batch a' ev r :
  commits a rs c batch a' ev → r ∈ rs → (last_ns_range_end (anchor c) <= ns_of r)%N.
Proof.
  intros (_ & Hst & _ & Hle & _ & _ & _ & _ & _ & _ & _ & Hr)%commits_event Hin.
  destruct (SealedBatch.ns_range batch) as [lo hi]. apply compute_ns_range_spec in Hr as [Hall _].
  rewrite Forall_forall in Hall. specialize (Hall r Hin). simpl in Hst. lia.
Qed.

Lemma wedged_round config t d w : wedged d w → (round config t d w).1 = (d, w).
Proof.
  intros (Hs & id & r & Hr & Hlt & Hmax). unfold run_round.
  destruct (fetch_candidates _ _ _) as [rs|] eqn:Hf; [|done].
  destruct (should_seal _ _ _) eqn:Hsh; [|done].
  assert (rs ≠ []) as Hne by (intros ->; done).
  destruct (fetch_cases _ _ _ _ Hf) as (full & Hsort & Hl & Hin & Hp).
  destruct (decide (full = [])) as [->|Hfull]; [by rewrite firstn_nil in Hl|].
  assert (r ∈ full) as Hrf.
  { destruct (N.lt_ge_cases (watermark d + 1) u64_max) as [Hw|Hw].
    - rewrite (Hp Hw). apply newer_elem. eauto with lia.
    - destruct full as [|x full]; [done|]. destruct (proj1 (newer_elem _ _ _) (Hin x ltac:(set_solver))) as [_ Hx].
      exfalso. unfold fetch_candidates, u64_saturating_add in Hf.
      rewrite (proj2 (N.eqb_eq _ _)) in Hf by lia. congruence. }
  destruct (oldest_first _ _ r _ Hsort Hl Hne Hrf) as (x & Hx & Hle).
  destruct (with_backoff _ _ _ _ _ _ _) as [[out w1] sl] eqn:Hb.
  apply backoff_stuck in Hb as [-> [e ->]]; [by destruct e|].
  intros a batch a' ev Hc. pose proof (commits_no_earlier _ _ _ _ _ _ x Hc Hx). lia.
Qed.

Lemma wedged_step config s e :
  wedged s.1 s.2 →
  let s' := step config s e in
  wedged s'.1 s'.2 ∧ s'.1 = s.1 ∧ chain s'.2 = chain s.2 ∧ MemoryStore.seals (store s'.2) = MemoryStore.seals (store s.2).
Proof.
  destruct s as [d w]. intros Hw. destruct e as [t|r o res]; cbn [anchor_step fst snd].
  - by rewrite (wedged_round config t d w Hw).
  - simpl. rewrite append_keeps_seals. split; [|done]. destruct Hw as (Hs & id & r0 & Hr & ?).
    split; [by apply inv_append|]. exists id, r0. split; [|done].
    eapply lookup_weaken; [exact Hr|]. by apply (step_grows _ (Append r o res)).
Qed.

Lemma wedged_run config es s :
  wedged s.1 s.2 →
  let s' := runs config es s in
  s'.1 = s.1 ∧ chain s'.2 = chain s.2 ∧ MemoryStore.seals (store s'.2) = MemoryStore.seals (store s.2).
Proof.
  revert s; induction es as [|e es IH]; intros s Hw; [done|].
  destruct (wedged_step config s e Hw) as (Hw' & Hd & Hc & Hs).
  change (runs config (e :: es) s) with (runs config es (step config s e)).
  destruct (IH _ Hw') as (Hd' & Hc' & Hs'). cbv zeta. split_and!; [by rewrite Hd'|by rewrite Hc'|by rewrite Hs'].
Qed.

(** What is above the watermark is not sealed. *)
Lemma candidate_unsealed (s : MemoryStore) c wm n rs r :
  inv s → (∀ id st, MemoryStore.seals s !! id = Some st → backed s c wm id st) →
  fetch_candidates s wm n = Ok rs → r ∈ rs → MemoryStore.seals s !! receipt_id r = None.
Proof.
  intros Hs Hback Hf Hr. destruct (fetch_cases _ _ _ _ Hf) as (full & _ & -> & Hin & _).
  apply elem_of_take in Hr as (i & Hi & _). apply list_elem_of_lookup_2, Hin, list_elem_of_filter in Hi as [Hlt Hv].
  destruct (MemoryStore.seals s !! receipt_id r) as [st|] eqn:E; [|done].
  destruct (Hback _ _ E) as (r' & _ & _ & Hr' & Hle & _).
  rewrite (stored_receipt _ _ Hs Hv) in Hr'. injection Hr' as <-. lia.
Qed.

(** *** A lost confirmation *)

Lemma lost_round config t d w rs r1 r2 e c' :
  inv (store w) → fetch_candidates (store w) (watermark d) (max_batch config) = Ok rs →
  should_seal config (looked_at t - last_seal_at d) rs = true →
  r1 ∈ rs → r2 ∈ rs → (ns_of r1 < ns_of r2)%N →
  seal_on_chain (attempts t 0) rs (chain w) = (Err e, c') → c' ≠ chain w →
  (round config t d w).1 = (d, mkWorld (store w) c') ∧ wedged d (mkWorld (store w) c').
Proof.
  intros Hs Hf Hsh Hr1 Hr2 Hlt Hx Hne.
  destruct (seal_cases (attempts t 0) rs (chain w)) as [[? Hx']|(batch & a' & ev & Hc & [[_ Hx']|(? & ? & ? & _ & Hx')])];
    rewrite Hx in Hx'; try congruence. injection Hx' as <- ->.
  pose proof (commits_event _ _ _ _ _ _ Hc) as (_ & _ & Hen & _ & _ & _ & Hla & _ & _ & _ & _ & Hr).
  destruct (SealedBatch.ns_range batch) as [lo hi]. apply compute_ns_range_spec in Hr as [Hall _].
  rewrite Forall_forall in Hall. pose proof (Hall r1 Hr1). pose proof (Hall r2 Hr2). simpl in Hen.
  set (w' := mkWorld (store w) (mkChain a' (events (chain w) ++ [ev]))).
  assert (∀ a batch a'' ev', ¬ commits a rs (chain w') batch a'' ev') as Hno.
  { intros a b a'' ev' Hcom. pose proof (commits_no_earlier _ _ _ _ _ _ r1 Hcom Hr1) as Hle. simpl in Hle. lia. }
  split.
  - unfold run_round. rewrite Hf, Hsh.
    assert (∀ retries k backoff, ∃ e' sl, with_backoff config (attempts t) rs retries k backoff w' = ((Err (Seal e'), w'), sl)) as Hstuck.
    { intros retries k backoff. destruct (with_backoff _ _ _ _ _ _ w') as [[out w1] sl] eqn:Hb.
      apply backoff_stuck in Hb as [-> [e' ->]]; [by do 2 eexists|done]. }
    destruct (retry_attempts config) as [|retries]; cbn [try_seal_with_backoff]; rewrite Hx; fold w'.
    + by destruct e.
    + destruct e; try done. by destruct (Hstuck retries 1 (N.min (initial_backoff config * 2) (max_backoff config))) as ([] & sl & ->).
  - split; [done|]. destruct (fetch_cases _ _ _ _ Hf) as (full & _ & -> & Hin & _).
    apply elem_of_take in Hr1 as (i & Hi & _). apply list_elem_of_lookup_2, Hin, newer_elem in Hi as [(id & Hid) ?].
    exists id, r1. split; [done|]. simpl. lia.
Qed.

(** ** The sealer and the contract *)

Lemma seal_executed a rs c m range p sig digest :
  rs ≠ [] → build_merkle rs = Ok m → compute_ns_range rs = Some range →
  canonical_preimage swarm_id (MerkleBatch.root m) (N.of_nat (length rs)) range.1 range.2 (compute_histogram rs) = Ok p →
  try_sign p = Ok sig → network a = Executed digest None →
  seal_on_chain a rs c =
  match commit_batch_from_arrays (Hash.digest (MerkleBatch.root m)) (N.of_nat (length rs)) range.1 range.2
          (wire_histogram (compute_histogram rs)).*1 (wire_histogram (compute_histogram rs)).*2 sig (chain_ms a) (anchor c) with
  | Ok (a', ev) =>
      (Ok (SealedBatch.mk (MerkleBatch.root m) (MerkleBatch.leaves m) (sealed_now a) (compute_histogram rs) range digest),
       mkChain a' (events c ++ [ev]))
  | Err abort =>
      (Err (AnchorBackendError.into_seal_error (AnchorBackendError.OnChainAbort (abort_code abort) (abort_text abort))), c)
  end.
Proof.
  intros Hne Hm Hr Hp Hs Hn. destruct range as [lo hi]. unfold sui_seal_batch. destruct rs as [|r rs']; [done|].
  remember (r :: rs') as rs. cbv [mthen m_map_err lift mret throw sign_preimage submit_commit_batch].
  cbn [arg_root arg_count arg_start arg_end arg_histogram arg_signature]. rewrite Hm. cbn [map_err].
  rewrite Hr. cbn [fst snd] in Hp. rewrite Hp. cbn [map_err]. rewrite Hs. cbn [map_err]. rewrite Hn.
  change ((λ e : string * N, (as_bytes e.1, e.2)) <$> btree_iter (compute_histogram rs))
    with (wire_histogram (compute_histogram rs)).
  cbn [fst snd]. by destruct (commit_batch_from_arrays _ _ _ _ _ _ _ _ _) as [[a' ev]|abort].
Qed.

(** The sealer's key is the one of the swarm's object. *)
Definition keyed (sk : bytes) (a : SwarmAnchor) : Prop :=
  (∀ m, try_sign m = Ok (ed25519_sign sk m)) ∧ sealer_pubkey a = ed25519_public sk ∧
  anchor_swarm_id a = SwarmId.as_bytes swarm_id.
Definition sealable rs : Prop :=
  rs ≠ [] ∧ NoDup (receipt_id <$> rs) ∧ (N.of_nat (length rs) <= u32_max)%N ∧
  Forall (λ r, 0 < str_len (Receipt.action_kind r) <= MAX_ACTION_KIND_LEN)%N rs.

Lemma seal_confirmed `{!CryptoLaws} sk a rs c digest :
  keyed sk (anchor c) → sealable rs → (batch_count (anchor c) < u64_max)%N → network a = Executed digest None →
  ∃ m range, build_merkle rs = Ok m ∧ compute_ns_range rs = Some range ∧
  seal_on_chain a rs c =
    if (last_ns_range_end (anchor c) <=? range.1)%N then
      (Ok (SealedBatch.mk (MerkleBatch.root m) (MerkleBatch.leaves m) (sealed_now a) (compute_histogram rs) range digest),
       mkChain (mkAnchor (anchor_swarm_id (anchor c)) (sealer_pubkey (anchor c)) (batch_count (anchor c) + 1) range.2
                  (created_at_ms (anchor c)))
         (events c ++ [mkCommitted (anchor_swarm_id (anchor c)) (batch_count (anchor c)) (Hash.digest (MerkleBatch.root m))
                         (N.of_nat (length rs)) range.1 range.2 (wire_histogram (compute_histogram rs)) (chain_ms a)]))
    else (Err (SealError.Permanent ("on-chain abort code 5: " +:+ abort_text (AbortCode ENsRangeNotMonotonic))), c).
Proof.
  intros (Hsign & Hpk & Hsw) (Hne & Hnd & Hlen & Hk) Hn Hnet.
  destruct (proj1 (merkle_outcome rs) Hne Hnd) as [m Hm].
  assert (∃ range, compute_ns_range rs = Some range) as [range Hr] by (destruct rs; [done|by eexists]).
  exists m, range. split; [done|]. split; [done|].
  pose proof (proj2 (canonical_preimage_Ok swarm_id _ _ _ _ _ _) (conj (sealed_preimage_ok rs m range Hm Hr Hlen Hk) eq_refl)) as Hp.
  rewrite (seal_executed a rs c m range _ _ digest Hne Hm Hr Hp (Hsign _) Hnet).
  rewrite (signed_batch_accepted swarm_id _ _ _ _ _ _ _ _ _ Hp Hsw); [|unfold len; by rewrite ed25519_sign_length|rewrite Hpk; apply ed25519_sign_verify|done].
  by destruct (_ <=? _)%N.
Qed.

(** ** Progress *)

Lemma record_seals_grow batch (s : MemoryStore) id :
  is_Some (MemoryStore.seals s !! id) → is_Some (MemoryStore.seals (MemoryStore.record_sealed_batch batch s).2 !! id).
Proof.
  destruct (record_sealed_batch_cases batch s) as [(e & ->)|(_ & _ & ->)]; simpl; [done|].
  destruct (insert_leaves_lookup (MemoryStore.status_of batch) (SealedBatch.leaves batch) (MemoryStore.seals s) id)
    as [[_ ->]|(l & _ & _ & ->)]; [done|by eexists].
Qed.

(** Unsealed receipts: the batch is recorded, and seals each of them. *)
Lemma record_unsealed batch rs (s : MemoryStore) m :
  build_merkle rs = Ok m → SealedBatch.leaves batch = MerkleBatch.leaves m →
  (∀ r, r ∈ rs → MemoryStore.seals s !! receipt_id r = None) →
  ∃ s', MemoryStore.record_sealed_batch batch s = (Ok tt, s') ∧
    ∀ r, r ∈ rs → is_Some (MemoryStore.seals s' !! receipt_id r).
Proof.
  intros Hm Hl Hun. pose proof (record_sealed_batch_cases batch s) as Hrec.
  pose proof (build_merkle_Ok _ _ Hm) as (Hne & _ & Hids & _). rewrite <- Hl in Hids.
  destruct (MemoryStore.record_sealed_batch batch s) as [[[]|e] s'] eqn:Hr.
  - exists s'. split; [done|]. intros r Hin. destruct (record_status batch s s' (receipt_id r) Hr) as (l & _ & _ & ->); [|by eexists].
    rewrite Hids, canonical_leaves_ids. by apply list_elem_of_fmap_2.
  - exfalso. revert Hr. unfold MemoryStore.record_sealed_batch, mthen, gets, lift, modify.
    destruct (SealedBatch.leaves batch) as [|l0 ls] eqn:El.
    { simpl in Hids. symmetry in Hids. apply fmap_nil_inv in Hids. apply (f_equal length) in Hids.
      rewrite length_canonical_entries in Hids. by destruct rs. }
    rewrite (proj2 (check_conflicts_Ok _ _ _)); [done|]. apply Forall_forall. intros l Hin st Hst.
    assert (l ∈ MerkleBatch.leaves m) as Hin2 by (rewrite <- Hl; exact Hin). destruct (leaf_receipt _ _ l Hm Hin2) as (r & Hr & Hid). rewrite Hid, Hun in Hst; [done|done].
Qed.

(** Enough time since [last] for every round, and its transaction confirmed. *)
Fixpoint confirmed config (last : N) (ts : list Round) : Prop :=
  match ts with
  | [] => True
  | t :: ts => (last + time_threshold config <= looked_at t)%N ∧ (looked_at t <= done_at t)%N ∧
      (∃ digest, network (attempts t 0) = Executed digest None) ∧ confirmed config (done_at t) ts
  end.
(** The receipts above the watermark can be anchored, one time each. *)
Definition anchorable (s : MemoryStore) (wm : N) : Prop :=
  (∀ r, r ∈ MemoryStore.values s → (wm < ns_of r)%N →
     (ns_of r < u64_max)%N ∧ (0 < str_len (Receipt.action_kind r) <= MAX_ACTION_KIND_LEN)%N) ∧
  (∀ r1 r2, r1 ∈ MemoryStore.values s → r2 ∈ MemoryStore.values s → (wm < ns_of r1)%N → ns_of r1 = ns_of r2 → r1 = r2).

(** The oldest candidates, up to the largest batch, leave the newer ones. *)
Lemma oldest_batch (s : MemoryStore) wm n l hi :
  inv s → anchorable s wm → (0 < n)%N → fetch_candidates s wm n = Ok l → (wm + 1 < u64_max)%N →
  (∃ x, x ∈ l ∧ ns_of x = hi) → Forall (λ r, ns_of r <= hi)%N l →
  (∀ r, r ∈ MemoryStore.values s → (wm < ns_of r <= hi)%N → r ∈ l) ∧
  length (newer s hi) + N.to_nat n <= length (newer s wm) ∨ newer s hi = [] ∧
  (∀ r, r ∈ MemoryStore.values s → (wm < ns_of r <= hi)%N → r ∈ l).
Proof.
  intros Hs [Hok Hdist] Hn Hf Hwm (x & Hx & Hxhi) Hall. rewrite Forall_forall in Hall.
  destruct (fetch_cases _ _ _ _ Hf) as (full & Hsort & -> & Hin & Hp). specialize (Hp Hwm).
  assert (∀ r, r ∈ MemoryStore.values s → (wm < ns_of r <= hi)%N → r ∈ take (N.to_nat n) full) as Hsealed.
  { intros r Hr Hlt. destruct (Hok r Hr) as [Hmax _]; [lia|].
    assert (r ∈ full) as Hrf by (rewrite Hp; unfold newer; apply list_elem_of_filter; split; [lia|done]).
    rewrite <- (take_drop (N.to_nat n) full) in Hrf. apply elem_of_app in Hrf as [?|Hrd]; [done|].
    rewrite <- (take_drop (N.to_nat n) full) in Hsort.
    pose proof (StronglySorted_app_1_elem_of _ _ _ x r Hsort Hx Hrd) as Hle. unfold earlier in Hle.
    assert (x ∈ newer s wm) as Hxn by (apply Hin; rewrite <- (take_drop (N.to_nat n) full); set_solver).
    unfold newer in Hxn. apply list_elem_of_filter in Hxn as [? Hxv]. replace r with x; [done|].
    apply Hdist; [done|done|lia|lia]. }
  assert (newer s hi ⊆+ drop (N.to_nat n) full) as Hsub%submseteq_length.
  { apply NoDup_submseteq; [unfold newer; apply NoDup_filter; eapply NoDup_fmap_1, values_ids_nodup, Hs|].
    intros r Hr. unfold newer in Hr. apply list_elem_of_filter in Hr as [Hlt Hv].
    assert (wm < hi)%N as Hwh.
    { assert (x ∈ newer s wm) as Hxn by (apply Hin; rewrite <- (take_drop (N.to_nat n) full); set_solver).
      unfold newer in Hxn. apply list_elem_of_filter in Hxn as [? _]. lia. }
    assert (r ∈ full) as Hrf by (rewrite Hp; unfold newer; apply list_elem_of_filter; split; [lia|done]).
    rewrite <- (take_drop (N.to_nat n) full) in Hrf. apply elem_of_app in Hrf as [Ht|?]; [|done].
    specialize (Hall r Ht). lia. }
  rewrite length_drop in Hsub. rewrite (Permutation_length Hp) in Hsub.
  destruct (decide (N.to_nat n <= length (newer s wm))); [left|right].
  - split; [done|lia].
  - split; [|done]. destruct (newer s hi); [done|simpl in Hsub; lia].
Qed.

(** The driver in step with the chain, as it is when it starts and after each
    confirmed batch. *)
Definition live (sk : bytes) (a0 : SwarmAnchor) (last : N) d w : Prop :=
  anchored a0 (d, w) ∧ watermark d = last_ns_range_end (anchor (chain w)) ∧ keyed sk (anchor (chain w)) ∧
  (last_seal_at d <= last)%N ∧ anchorable (store w) (watermark d).

Definition sealed_in (s : MemoryStore) (r : Receipt) : Prop := is_Some (MemoryStore.seals s !! receipt_id r).

Context (Hfrom : is_Some (parse_rfc3339 "1970-01-01T00:00:00Z")) (Hto : is_Some (parse_rfc3339 "9999-12-31T23:59:59Z")).

Lemma idle_round config t d w : newer (store w) (watermark d) = [] → (round config t d w).1 = (d, w).
Proof.
  intros Hn. unfold run_round. destruct (fetch_candidates _ _ _) as [l|] eqn:Hf; [|done].
  destruct (fetch_cases _ _ _ _ Hf) as (full & _ & -> & Hin & _).
  destruct (take _ full) as [|x l] eqn:E; [done|].
  assert (x ∈ newer (store w) (watermark d)) as Hx; [|rewrite Hn in Hx; by apply elem_of_nil in Hx].
  apply Hin. rewrite <- (take_drop (N.to_nat (max_batch config)) full), E. set_solver.
Qed.

Lemma candidates_sealable config sk a0 last d w l :
  live sk a0 last d w → (max_batch config <= u32_max)%N → l ≠ [] → (watermark d + 1 < u64_max)%N →
  fetch_candidates (store w) (watermark d) (max_batch config) = Ok l →
  sealable l ∧ (∀ r, r ∈ l → r ∈ newer (store w) (watermark d) ∧ MemoryStore.seals (store w) !! receipt_id r = None).
Proof.
  intros ((Hs & _ & _ & Hback) & _ & _ & _ & Hok & _) Hmax Hne Hwm Hf.
  destruct (fetch_cases _ _ _ _ Hf) as (full & _ & Hl & Hin & _).
  assert (∀ r, r ∈ l → r ∈ newer (store w) (watermark d)) as Hnew.
  { intros r Hr. apply Hin. rewrite <- (take_drop (N.to_nat (max_batch config)) full), <- Hl. set_solver. }
  split; [split_and!; [done|by eapply candidates_ids_nodup| |]|].
  - rewrite Hl, length_take. lia.
  - apply Forall_forall. intros r [Hlt Hv]%Hnew%list_elem_of_filter. apply Hok; [done|lia].
  - intros r Hr. split; [by apply Hnew|by eapply candidate_unsealed].
Qed.

Lemma live_round `{!CryptoLaws} config sk a0 last t d w d' w' :
  live sk a0 last d w → (0 < max_batch config <= u32_max)%N → (batch_count (anchor (chain w)) < u64_max)%N →
  (last + time_threshold config <= looked_at t)%N → (looked_at t <= done_at t)%N →
  (∃ digest, network (attempts t 0) = Executed digest None) →
  (round config t d w).1 = (d', w') →
  live sk a0 (done_at t) d' w' ∧ MemoryStore.by_id (store w') = MemoryStore.by_id (store w) ∧
  (batch_count (anchor (chain w')) <= batch_count (anchor (chain w)) + 1)%N ∧
  (∀ r, sealed_in (store w) r → sealed_in (store w') r) ∧
  (∀ r, r ∈ MemoryStore.values (store w) → (watermark d < ns_of r <= watermark d')%N → sealed_in (store w') r) ∧
  length (newer (store w') (watermark d')) <= length (newer (store w) (watermark d)) - N.to_nat (max_batch config).
Proof.
  intros Hlive Hmax Hn Helapsed Hdone [digest Hnet] Hr.
  destruct (decide (newer (store w) (watermark d) = [])) as [Hnil|Hnnil].
  { rewrite idle_round in Hr by done. injection Hr as <- <-. destruct Hlive as (? & ? & ? & ? & ?).
    split_and!; try done; [split_and!; try done; lia|lia|lia|]. rewrite Hnil. simpl. lia. }
  assert (watermark d + 1 < u64_max)%N as Hwm.
  { destruct (newer _ _) as [|x ?] eqn:E; [done|]. assert (x ∈ newer (store w) (watermark d)) as Hx by (rewrite E; set_solver).
    unfold newer in Hx. apply list_elem_of_filter in Hx as [Hlt Hv]. destruct Hlive as (_ & _ & _ & _ & Hok & _).
    destruct (Hok x Hv); lia. }
  destruct (fetch_total (store w) (watermark d) (max_batch config) Hfrom Hto) as [l Hf].
  destruct (fetch_cases _ _ _ _ Hf) as (full & _ & Hl & Hin & Hp). specialize (Hp Hwm).
  assert (l ≠ []) as Hne.
  { rewrite Hl. destruct full as [|x full]; [by apply Permutation_nil_l in Hp|]. by destruct (N.to_nat _) eqn:E; [lia|]. }
  destruct (candidates_sealable config _ _ _ _ _ _ Hlive ltac:(lia) Hne Hwm Hf) as [Hsealable Hcand].
  assert (anchored a0 (d', w')) as Hanch.
  { rewrite <- Hr. apply (round_anchored a0 config t (d, w)). by destruct Hlive. }
  destruct Hlive as (Hanch0 & Hlast & Hkey & Hls & Hanchorable).
  destruct (seal_confirmed sk (attempts t 0) l (chain w) digest Hkey Hsealable Hn Hnet) as (m & [lo hi] & Hm & Hrange & Hseal).
  destruct (compute_ns_range_spec _ _ _ Hrange) as (Hall & (x0 & Hx0 & Hlo) & (x1 & Hx1 & Hhi)).
  assert (last_ns_range_end (anchor (chain w)) <= lo)%N as Hle.
  { destruct (Hcand x0 Hx0) as [[Hlt _]%list_elem_of_filter _]. lia. }
  cbn [fst snd] in Hseal. rewrite (proj2 (N.leb_le _ _) Hle) in Hseal.
  set (batch := SealedBatch.mk (MerkleBatch.root m) _ _ _ _ _) in Hseal.
  destruct (record_unsealed batch l (store w) m Hm eq_refl (λ r Hx, proj2 (Hcand r Hx))) as (s' & Hrec & Hsealed).
  unfold run_round in Hr. rewrite Hf in Hr. unfold should_seal in Hr. rewrite bool_decide_eq_false_2 in Hr by done.
  rewrite (proj2 (N.leb_le (time_threshold config) _)) in Hr by lia. rewrite orb_true_r in Hr. cbn [negb andb] in Hr.
  rewrite (backoff_first config (attempts t) l (retry_attempts config) (initial_backoff config) w _ _ _ Hseal Hrec) in Hr.
  cbn [fst snd SealedBatch.ns_range batch] in Hr. injection Hr as <- <-. cbn [watermark last_seal_at store chain anchor batch_count].
  assert (MemoryStore.by_id s' = MemoryStore.by_id (store w)) as Hby by (rewrite <- (record_keeps_receipts batch (store w)); by rewrite Hrec).
  assert (MemoryStore.values s' = MemoryStore.values (store w)) as Hv by (unfold MemoryStore.values; by rewrite Hby).
  assert (newer s' hi = newer (store w) hi) as Hnew by (unfold newer; by rewrite Hv).
  assert (watermark d < hi)%N as Hadv by (rewrite Forall_forall in Hall; specialize (Hall x0 Hx0); destruct (Hcand x0 Hx0) as [[Hlt _]%list_elem_of_filter _]; lia).
  assert (Forall (λ r, ns_of r <= hi)%N l) as Hhi' by (eapply Forall_impl; [exact Hall|]; simpl; lia).
  pose proof (oldest_batch (store w) _ _ _ hi (proj1 Hanch0) Hanchorable (proj1 Hmax) Hf Hwm (ex_intro _ x1 (conj Hx1 Hhi)) Hhi') as Hold.
  split_and!.
  - split_and!; [exact Hanch|done|done|done|]. cbn [watermark store]. destruct Hanchorable as [Ha1 Ha2].
    unfold anchorable. rewrite Hv. split; [intros; apply Ha1; [done|lia]|intros; apply Ha2; try done; lia].
  - done.
  - lia.
  - intros r Hsr. unfold sealed_in in *. pose proof (record_seals_grow batch (store w) _ Hsr) as Hg. by rewrite Hrec in Hg.
  - intros r Hrv Hrange'. apply Hsealed. destruct Hold as [[Hx _]|[_ Hx]]; by apply Hx.
  - rewrite Hnew. destruct Hold as [[_ ?]|[-> _]]; simpl; lia.
Qed.

(** Confirmed rounds, as many as it takes batches of the largest size. *)
Lemma live_runs `{!CryptoLaws} config sk a0 last ts d w r :
  live sk a0 last d w → (0 < max_batch config <= u32_max)%N →
  (batch_count (anchor (chain w)) + N.of_nat (length ts) <= u64_max)%N → confirmed config last ts →
  length (newer (store w) (watermark d)) <= length ts * N.to_nat (max_batch config) →
  r ∈ MemoryStore.values (store w) → (watermark d < ns_of r)%N ∨ sealed_in (store w) r →
  sealed_in (store (runs config (Tick <$> ts) (d, w)).2) r.
Proof.
  revert last d w; induction ts as [|t ts IH]; intros last d w Hlive Hmax Hn Hc Hlen Hv Hr.
  - destruct Hr as [Hr|?]; [|done]. simpl in Hlen.
    assert (r ∈ newer (store w) (watermark d)) as Hx.
    { unfold newer. apply list_elem_of_filter. split; [|done].
      destruct Hlive as (_ & _ & _ & _ & Hok & _). destruct (Hok r Hv Hr). lia. }
    destruct (newer _ _); [by apply elem_of_nil in Hx|simpl in Hlen; lia].
  - destruct Hc as (He & Hd & Hnet & Hc). cbn [length] in Hn, Hlen. rewrite fmap_cons.
    change (runs config (Tick t :: (Tick <$> ts)) (d, w)) with (runs config (Tick <$> ts) (round config t d w).1).
    destruct (round config t d w).1 as [d' w'] eqn:Hround.
    destruct (live_round config sk a0 last t d w d' w' Hlive Hmax ltac:(lia) He Hd Hnet Hround)
      as (Hlive' & Hby & Hn' & Hgrow & Hsealed & Hless).
    assert (MemoryStore.values (store w') = MemoryStore.values (store w)) as Hvals by (unfold MemoryStore.values; by rewrite Hby).
    eapply IH; [exact Hlive'|done|lia|done|lia|by rewrite Hvals|].
    destruct Hr as [Hr|Hr]; [|right; by apply Hgrow].
    destruct (N.le_gt_cases (ns_of r) (watermark d')); [right; apply Hsealed; [done|lia]|left; lia].
Qed.

(** ** Properties *)

(** [C15] The sealer meets the contract.  A non-empty batch of distinct receipts,
    at most [u32::MAX] of them, whose kinds are 1 to 255 bytes long, signed with
    the key of the swarm's object, is taken by the contract exactly if none of
    its receipts is older than the end of the last batch: the contract rebuilds
    the very bytes the sealer signed, and the histogram in its map's order passes
    its checks.  Refused, it is a permanent error with the code of the monotonic
    check, and the chain is as it was. *)
Theorem sealer_meets_contract `{!CryptoLaws} (sk : bytes) (a : Attempt) (rs : list Receipt) (c : Chain) (digest : bytes) :
  keyed sk (anchor c) → sealable rs → (batch_count (anchor c) < u64_max)%N → network a = Executed digest None →
  (is_ok (seal_on_chain a rs c).1 = true ↔ Forall (λ r, last_ns_range_end (anchor c) <= ns_of r)%N rs) ∧
  (is_ok (seal_on_chain a rs c).1 = false →
   seal_on_chain a rs c =
     (Err (SealError.Permanent ("on-chain abort code 5: " +:+ abort_text (AbortCode ENsRangeNotMonotonic))), c)).
Proof.
  intros Hk Hs Hn Hnet. destruct (seal_confirmed sk a rs c digest Hk Hs Hn Hnet) as (m & [lo hi] & _ & Hr & ->).
  apply compute_ns_range_spec in Hr as (Hall & (x & Hx & Hlo) & _). cbn [fst snd].
  destruct (N.leb_spec (last_ns_range_end (anchor c)) lo); (split; [|done]); cbn [fst is_ok]; split; try done.
  - intros _. eapply Forall_impl; [exact Hall|]. simpl. lia.
  - rewrite Forall_forall. intros Hf. specialize (Hf x Hx). lia.
Qed.

(** [C14] Every seal is on the chain.  From an empty store and the swarm's object
    as it is read at the start, after any rounds and appends, whatever becomes of
    the transactions: the events are numbered without a gap and no range starts
    before the last one ended; and for every seal the store holds, the receipt is
    stored, its path verifies against a root that an event committed, and its
    time lies in that event's range and not above the watermark. *)
Theorem anchored_batches (config : AnchorDriverConfig) (a0 : SwarmAnchor) (t0 : N) (es : list Event) :
  let '(d, w) := runs config es (mkDriver (last_ns_range_end a0) t0, mkWorld MemoryStore.new (mkChain a0 [])) in
  log_ok a0 (chain w) ∧
  ∀ id st, MemoryStore.seals (store w) !! id = Some st → backed (store w) (chain w) (watermark d) id st.
Proof.
  destruct (runs config es _) as [d w] eqn:E.
  destruct (run_anchored a0 config es _ (start_anchored a0 t0)) as (_ & Hl & _ & Hb). rewrite E in Hl, Hb. by split.
Qed.

(** [C16] With confirmed transactions the driver completes, from a state with the
    invariant of [anchored_batches] in which it is in step with the chain: its
    watermark is the end of the last range on the chain, so no confirmation was
    lost (after a lost one it never completes, [lost_confirmation_wedges]), the key
    and the swarm it seals with are those of the object, and its last seal is not
    in the future.  If then only rounds follow, without appends in between, in each
    of them the time threshold has passed and the transaction is confirmed, the
    receipts above the watermark have kinds of 1 to 255 bytes and times below
    [u64::MAX], each of its own, the largest batch is between 1 and [u32::MAX]
    receipts, the batch counter does not run out and the two ends of the candidate
    query, 1970-01-01T00:00:00Z and 9999-12-31T23:59:59Z, are times, then after as
    many rounds as it takes batches of the largest size, every stored receipt above
    the watermark is sealed, by an event of the chain. *)
Theorem anchoring_completes `{!CryptoLaws} (config : AnchorDriverConfig) (sk : bytes) (a0 : SwarmAnchor) (last : N)
    (ts : list Round) (d : AnchorDriver) (w : World) (id : Hash) (r : Receipt) :
  live sk a0 last d w → (0 < max_batch config <= u32_max)%N →
  (batch_count (anchor (chain w)) + N.of_nat (length ts) <= u64_max)%N → confirmed config last ts →
  length (newer (store w) (watermark d)) <= length ts * N.to_nat (max_batch config) →
  MemoryStore.by_id (store w) !! id = Some r → (watermark d < ns_of r)%N →
  let '(d', w') := runs config (Tick <$> ts) (d, w) in
  ∃ st, MemoryStore.seals (store w') !! id = Some st ∧ backed (store w') (chain w') (watermark d') id st.
Proof.
  intros Hlive Hmax Hn Hc Hlen Hid Hlt.
  assert (id = receipt_id r) as ->.
  { destruct Hlive as (((Hs & _) & _) & _). by apply (Hs id r). }
  destruct (live_runs config sk a0 last ts d w r Hlive Hmax Hn Hc Hlen) as [st Hst]; [by apply values_elem; eauto|by left|].
  pose proof (run_anchored a0 config (Tick <$> ts) (d, w) (proj1 Hlive)) as (_ & _ & _ & Hb).
  destruct (runs config (Tick <$> ts) (d, w)) as [d' w']. exists st. split; [exact Hst|]. by apply Hb.
Qed.

(** A lost confirmation stops the anchoring for good.  A batch that holds
    two different times is on the chain, but the sealer is told it failed (a
    checkpoint timeout, say): from then on, whatever the rounds, the retries and
    the appends, the watermark, the chain and the seals stay as they are, and
    none of the batch's receipts is sealed.  The driver never reads the object
    again, and every later batch starts below the range on the chain. *)
Lemma lost_confirmation_wedges (config : AnchorDriverConfig) (a0 : SwarmAnchor) (es : list Event) (t : Round)
    (d : AnchorDriver) (w : World) (rs : list Receipt) (r1 r2 : Receipt) (e : SealError) (c' : Chain) :
  anchored a0 (d, w) → fetch_candidates (store w) (watermark d) (max_batch config) = Ok rs →
  should_seal config (looked_at t - last_seal_at d) rs = true →
  r1 ∈ rs → r2 ∈ rs → (ns_of r1 < ns_of r2)%N →
  seal_on_chain (attempts t 0) rs (chain w) = (Err e, c') → c' ≠ chain w →
  let '(d', w') := runs config (Tick t :: es) (d, w) in
  d' = d ∧ chain w' = c' ∧ MemoryStore.seals (store w') = MemoryStore.seals (store w) ∧
  ∀ r, r ∈ rs → MemoryStore.seals (store w') !! receipt_id r = None.
Proof.
  intros (Hs & _ & _ & Hback) Hf Hsh Hr1 Hr2 Hlt Hx Hne.
  destruct (lost_round config t d w rs r1 r2 e c' Hs Hf Hsh Hr1 Hr2 Hlt Hx Hne) as [Hround Hw].
  change (runs config (Tick t :: es) (d, w)) with (runs config es (round config t d w).1). rewrite Hround.
  pose proof (wedged_run config es (d, mkWorld (store w) c') Hw) as (Hd & Hc & Hseals).
  destruct (runs config es _) as [d' w']. cbn [fst snd store chain] in *. split_and!; [done|done|done|].
  intros r Hr. rewrite Hseals. by eapply candidate_unsealed.
Qed.
End driver.

(** ** Witnesses *)

Module AnchorToy.
Import MerkleToy.
#[global] Instance time : TimeOps := {| parse_rfc3339 _ := Some 0%Z; parse_rfc3339_error _ := ""%string |}.
Definition abort_text (_ : Abort) : string := "abort".
Definition sk : bytes := replicate 32 "003"%byte.
Definition try_sign (m : bytes) : Result bytes string := Ok (ed25519_sign sk m).
Definition a0 : SwarmAnchor := mkAnchor (SwarmId.as_bytes swarm) (ed25519_public sk) 0 50 0.
Definition r1 : Receipt := receipt 100 1 "b".
Definition r2 : Receipt := receipt 200 2 "a".
Definition two : MemoryStore :=
  MemoryStore.mk (<[receipt_id r1 := r1]> (<[receipt_id r2 := r2]> ∅)) ∅ ∅.
Definition second : N := 1000000000.
Definition answered (lost : option ExecuteAndWaitError) (t : N) : Round :=
  mkRound (t * second) (t * second) (λ _, mkAttempt (Executed (replicate 32 "007"%byte) lost) 5 (Timestamp.mk "9" 9)).
Definition d0 : AnchorDriver := mkDriver 50 0.
Definition w0 : World := mkWorld two (mkChain a0 []).
(** What is left on the chain after an attempt on the two receipts. *)
Definition attempted (lost : option ExecuteAndWaitError) : Result SealedBatch SealError * Chain :=
  sui_seal_batch abort_text try_sign swarm (attempts (answered lost 20) 0) [r1; r2] (mkChain a0 []).

Lemma two_values r : r ∈ MemoryStore.values two → r = r1 ∨ r = r2.
Proof.
  intros (id & Hr)%values_elem. cbn [two MemoryStore.by_id] in Hr. apply lookup_insert_Some in Hr as [[_ <-]|[_ Hr]]; [by left|].
  apply lookup_insert_Some in Hr as [[_ <-]|[_ Hr]]; [by right|]. by apply lookup_empty_Some in Hr.
Qed.
Lemma two_inv : inv two.
Proof.
  split.
  - intros id r Hr. cbn [two MemoryStore.by_id] in Hr. apply lookup_insert_Some in Hr as [[<- <-]|[_ Hr]]; [done|].
    apply lookup_insert_Some in Hr as [[<- <-]|[_ Hr]]; [done|]. by apply lookup_empty_Some in Hr.
  - intros p id. cbn [two MemoryStore.by_predecessor]. rewrite lookup_empty.
    destruct (_ !! id) as [r|] eqn:E; [|done].
    assert (r = r1 ∨ r = r2) as [->| ->] by (apply two_values, values_elem; exists id; exact E); reflexivity.
Qed.
Lemma two_anchored : anchored a0 (d0, w0).
Proof.
  split_and!; [exact two_inv| |reflexivity|intros id st Hst; simpl in Hst; by apply lookup_empty_Some in Hst].
  split_and!; simpl; try done.
Qed.
Lemma two_keyed : keyed try_sign swarm sk a0.
Proof. by split_and!. Qed.
Lemma two_live : live try_sign swarm sk a0 0 d0 w0.
Proof.
  split_and!; [exact two_anchored|done|exact two_keyed|done|]. split.
  - intros r [->| ->]%two_values _; split; [done|by vm_compute|done|by vm_compute].
  - intros x y [->| ->]%two_values [->| ->]%two_values _; try done; intros Hn; by vm_compute in Hn.
Qed.
End AnchorToy.

Lemma sealer_meets_contract_witness :
  is_ok (AnchorToy.attempted None).1 = true.
Proof.
  apply (sealer_meets_contract AnchorToy.abort_text AnchorToy.try_sign MerkleToy.swarm AnchorToy.sk
           (attempts (AnchorToy.answered None 20) 0) [AnchorToy.r1; AnchorToy.r2] (mkChain AnchorToy.a0 [])
           (replicate 32 "007"%byte)).
  - exact AnchorToy.two_keyed.
  - split_and!; [done|apply (bool_decide_unpack _); vm_compute; exact I|done|].
    repeat (constructor; [split; vm_compute; [reflexivity|discriminate]|]). constructor.
  - reflexivity.
  - reflexivity.
  - repeat (constructor; [by vm_compute|]). constructor.
Defined.

Lemma anchoring_completes_witness :
  let '(d', w') := anchor_run AnchorToy.abort_text AnchorToy.try_sign MerkleToy.swarm driver_defaults
                     (Tick <$> [AnchorToy.answered None 20]) (AnchorToy.d0, AnchorToy.w0) in
  ∃ st, MemoryStore.seals (store w') !! receipt_id AnchorToy.r1 = Some st ∧
        backed (store w') (chain w') (watermark d') (receipt_id AnchorToy.r1) st.
Proof.
  apply (anchoring_completes AnchorToy.abort_text AnchorToy.try_sign MerkleToy.swarm
           ltac:(by eexists) ltac:(by eexists) driver_defaults AnchorToy.sk AnchorToy.a0 0
           [AnchorToy.answered None 20] AnchorToy.d0 AnchorToy.w0 (receipt_id AnchorToy.r1) AnchorToy.r1).
  - exact AnchorToy.two_live.
  - by vm_compute.
  - by vm_compute.
  - split_and!; [by vm_compute|by vm_compute|by eexists|exact I].
  - apply Nat.leb_le. vm_compute. reflexivity.
  - apply lookup_insert_eq.
  - by vm_compute.
Defined.

(** The two receipts are committed, the confirmation times out; then the network
    is well again, for good. *)
Lemma lost_confirmation_wedges_witness :
  let '(d', w') := anchor_run AnchorToy.abort_text AnchorToy.try_sign MerkleToy.swarm driver_defaults
                     [Tick (AnchorToy.answered (Some CheckpointTimeout) 20); Tick (AnchorToy.answered None 40);
                      Tick (AnchorToy.answered None 60)] (AnchorToy.d0, AnchorToy.w0) in
  d' = AnchorToy.d0 ∧ chain w' = (AnchorToy.attempted (Some CheckpointTimeout)).2 ∧
  MemoryStore.seals (store w') = MemoryStore.seals AnchorToy.two ∧
  ∀ r : Receipt, r ∈ [AnchorToy.r1; AnchorToy.r2] → MemoryStore.seals (store w') !! receipt_id r = None.
Proof.
  apply (lost_confirmation_wedges AnchorToy.abort_text AnchorToy.try_sign MerkleToy.swarm driver_defaults AnchorToy.a0
           [Tick (AnchorToy.answered None 40); Tick (AnchorToy.answered None 60)]
           (AnchorToy.answered (Some CheckpointTimeout) 20) AnchorToy.d0 AnchorToy.w0 [AnchorToy.r1; AnchorToy.r2]
           AnchorToy.r1 AnchorToy.r2
           (SealError.Transient "execute_and_wait: checkpoint timeout — tx may still confirm")
           (AnchorToy.attempted (Some CheckpointTimeout)).2).
  - exact AnchorToy.two_anchored.
  - vm_compute. reflexivity.
  - vm_compute. reflexivity.
  - set_solver.
  - set_solver.
  - by vm_compute.
  - vm_compute. reflexivity.
  - intros Hc. apply (f_equal (λ c, length (events c))) in Hc. vm_compute in Hc. discriminate.
Defined.
