(* ===== verification/Diff.v ===== *)
(** * [crates/yutha-diff]: what changed between two constitutions

    The items of the sections as JSON values, the lifting of policies to
    entries, the partition of a section by name, and the diff of two
    constitutions. *)

From S2P Require Import Prelude RustStd Core Crypto Enforcement CedarPlus.
Import EngineConfig.

(** ** Equality of values *)

Section json_eq.
Context {Number : Type} `{EqDecision Number}.

Lemma Json_nested_ind (P : Json Number → Prop) :
  P JNull → (∀ b, P (JBool b)) → (∀ n, P (JNumber n)) → (∀ s, P (JString s)) →
  (∀ l, Forall P l → P (JArray l)) → (∀ l, Forall (λ e, P e.2) l → P (JObject l)) → ∀ j, P j.
Proof.
  intros Hn Hb Hm Hs Ha Ho. fix IH 1. intros [|b|n|s|l|l]; [exact Hn|apply Hb|apply Hm|apply Hs|apply Ha|apply Ho].
  - induction l as [|x l IHl]; constructor; [apply IH|exact IHl].
  - induction l as [|[k x] l IHl]; constructor; [apply IH|exact IHl].
Defined.

Definition list_eqb {A} (f : A → A → bool) : list A → list A → bool :=
  fix go l k := match l, k with [], [] => true | x :: l, y :: k => f x y && go l k | _, _ => false end.
(** [serde_json::Value]'s [==], on objects whose members come in one order. *)
Fixpoint json_eqb (a b : Json Number) {struct a} : bool :=
  match a, b with
  | JNull, JNull => true
  | JBool x, JBool y => Bool.eqb x y
  | JNumber x, JNumber y => bool_decide (x = y)
  | JString x, JString y => String.eqb x y
  | JArray l, JArray k => list_eqb json_eqb l k
  | JObject l, JObject k => list_eqb (λ e e', String.eqb e.1 e'.1 && json_eqb e.2 e'.2) l k
  | _, _ => false
  end.

Lemma list_eqb_eq {A} (f : A → A → bool) l k :
  Forall (λ x, ∀ y, f x y = true ↔ x = y) l → list_eqb f l k = true ↔ l = k.
Proof.
  intros Hf. revert k. induction Hf as [|x l Hx Hf IH]; intros [|y k]; simpl; [done|done|done|].
  rewrite andb_true_iff, IH, Hx. naive_solver.
Qed.

Lemma json_eqb_eq a b : json_eqb a b = true ↔ a = b.
Proof.
  revert b. induction a as [|x|x|x|l IH|l IH] using Json_nested_ind; intros [|y|y|y|k|k]; simpl; try done.
  - rewrite Bool.eqb_true_iff. naive_solver.
  - rewrite bool_decide_eq_true. naive_solver.
  - rewrite String.eqb_eq. naive_solver.
  - rewrite (list_eqb_eq _ _ _ IH). naive_solver.
  - rewrite list_eqb_eq; [naive_solver|]. eapply Forall_impl; [exact IH|]. intros [i x] Hx [j y]. simpl in *.
    rewrite andb_true_iff, String.eqb_eq, Hx. naive_solver.
Qed.
End json_eq.

(** ** model.rs *)

(* yutha-diff/src/model.rs:121-128 NamedItemChange *)
Record NamedItemChange (T : Type) := mkChange { change_name : string; change_left : T; change_right : T }.
(* yutha-diff/src/model.rs:89-97 NamedItemsDiff *)
Record NamedItemsDiff (T : Type) := mkNamed { added : list T; removed : list T; modified : list (NamedItemChange T) }.
Arguments mkChange {T} _ _ _.
Arguments change_name {T} _.
Arguments change_left {T} _.
Arguments change_right {T} _.
Arguments mkNamed {T} _ _ _.
Arguments added {T} _.
Arguments removed {T} _.
Arguments modified {T} _.
(* yutha-diff/src/model.rs:102-104 NamedItemsDiff::is_empty *)
Definition section_is_empty {T} (d : NamedItemsDiff T) : bool :=
  match added d, removed d, modified d with [], [], [] => true | _, _, _ => false end.

Module CedarPolicyEffect.
(* yutha-diff/src/cedar.rs:42-47 CedarPolicyEffect *)
Inductive CedarPolicyEffect := Permit | Forbid.
(* yutha-diff/src/cedar.rs:49-56 CedarPolicyEffect::fmt *)
Definition to_string (e : CedarPolicyEffect) : string := match e with Permit => "permit" | Forbid => "forbid" end.
End CedarPolicyEffect.
Notation CedarPolicyEffect := CedarPolicyEffect.CedarPolicyEffect.
(* yutha-diff/src/cedar.rs:75-90 CedarPolicyEntry *)
Record CedarPolicyEntry := mkEntry {
  entry_name : string; annotated : bool; effect : CedarPolicyEffect; source : string }.

(* yutha-diff/src/behavioural.rs:54-66 ReceiptCountDelta *)
Record ReceiptCountDelta := mkDelta {
  delta_kind : string; delta_subject : string; delta_production : N; delta_candidate : N }.
(* yutha-diff/src/behavioural.rs:89-106 ChainDivergence *)
Record ChainDivergence := mkDivergence {
  div_target : string; div_rule : string; div_stage : string; div_production : N; div_candidate : N }.
(** [a as i64 - b as i64], wrapping. *)
(* yutha-diff/src/behavioural.rs:72-74 ReceiptCountDelta::delta *)
Definition count_delta (production candidate : N) : Z := i64_wrap (u64_as_i64 candidate - u64_as_i64 production).
(* yutha-diff/src/behavioural.rs:27-46 BehaviouralDiff *)
Record BehaviouralDiff := mkBehavioural {
  window_from : N; window_to : N; replay_session_id : string;
  receipt_count_deltas : list ReceiptCountDelta; chain_divergences : list ChainDivergence }.

(* yutha-diff/src/model.rs:32-68 ConstitutionDiff *)
Record ConstitutionDiff := mkDiff {
  diff_schema_version : string; left_version : string; right_version : string;
  schema_version_change : option (string * string);
  cedar_policies : NamedItemsDiff CedarPolicyEntry; named_predicates : NamedItemsDiff NamedPredicate;
  scoring_diff : NamedItemsDiff ScoringRule; procedures_diff : NamedItemsDiff Procedure;
  enforcement_diff : NamedItemsDiff EnforcementRule; behavioural : option BehaviouralDiff }.
(* yutha-diff/src/model.rs:75-82 ConstitutionDiff::is_empty_structurally *)
Definition is_empty_structurally (d : ConstitutionDiff) : bool :=
  match schema_version_change d with Some _ => false | None => true end
  && section_is_empty (cedar_policies d) && section_is_empty (named_predicates d)
  && section_is_empty (scoring_diff d) && section_is_empty (procedures_diff d) && section_is_empty (enforcement_diff d).

(* yutha-diff/src/error.rs:14-47 DiffError *)
Inductive DiffError :=
| CedarParse (side source : string) | CanonicalBytes (context source : string) | JsonRender (e : string) | Io (e : string).

(** ** Items as JSON values: [#[derive(Serialize)]] *)

(** The policies of a parsed set, as far as the diff looks at them: the debug
    texts of the three constraints of the scope, the annotations; the hasher of
    the standard library, whose algorithm is not specified. *)
Class CedarText := {
  Policy : Type;
  policies_from_str : string → Result (list Policy) string;
  policy_effect : Policy → CedarPolicyEffect;
  policy_text : Policy → string;
  policy_annotation : Policy → string → option string;
  principal_constraint : Policy → string;
  action_constraint : Policy → string;
  resource_constraint : Policy → string;
  default_hash : bytes → N
}.

(** [to_value]; [map_entries] is the order in which a [HashMap] is walked:
    [==] does not look at it, and texts are compared where the names, which
    come first, differ. *)
Class ToValue `{SerdeJson} (T : Type) := to_value : T → JsonValue.
Class SerdeItems `{SerdeJson} := {
  number_of_u64 : N → JsonNumber;
  map_entries : gmap string string → list (string * string)
}.
Class SerdeItemsLaws `{SerdeItems} : Prop := {
  number_of_u64_inj x y : number_of_u64 x = number_of_u64 y → x = y;
  map_entries_perm m : map_entries m ≡ₚ map_to_list m
}.

Section to_value.
Context `{SerdeItems}.
(** [skip_serializing_if = "Option::is_none"] *)
Definition optional {A} (key : string) (f : A → JsonValue) (o : option A) : list (string * JsonValue) :=
  match o with Some x => [(key, f x)] | None => [] end.
Definition string_map (m : gmap string string) : JsonValue :=
  JObject (map (λ e, (e.1, JString e.2)) (map_entries m)).

(* yutha-cedar-plus/src/engine_config.rs:75-81 NamedPredicate (Serialize) *)
#[global] Instance predicate_value : ToValue NamedPredicate := λ p,
  JObject [("name", JString (pred_name p)); ("expr", JString (pred_expr p))]%string.
(* yutha-cedar-plus/src/engine_config.rs:106-120 ScoringHead (Serialize) *)
Definition head_value (h : ScoringHead) : JsonValue :=
  JObject (optional "principal" JString (head_principal h) ++ optional "action" JString (head_action h)
           ++ optional "resource" JString (head_resource h)).
(* yutha-cedar-plus/src/engine_config.rs:89-103 ScoringRule (Serialize) *)
#[global] Instance scoring_value : ToValue ScoringRule := λ r,
  JObject [("name", JString (scoring_name r)); ("score", JString (score r)); ("head", head_value (head r));
           ("when", JString (scoring_when r))]%string.
(* yutha-cedar-plus/src/engine_config.rs:152-161 ProcedureTrigger (Serialize) *)
Definition trigger_value (t : ProcedureTrigger) : JsonValue :=
  JObject (("action", JString (trigger_action t))%string :: optional "when" JString (trigger_when t)).
(* yutha-cedar-plus/src/engine_config.rs:164-183 ProcedureTransition (Serialize) *)
Definition transition_value (t : ProcedureTransition) : JsonValue :=
  JObject ([("from", JString (from t)); ("to", JString (to t))]%string
           ++ optional "action" JString (transition_action t) ++ optional "actor_when" JString (actor_when t)
           ++ optional "on_timeout" JString (on_timeout t)).
(* yutha-cedar-plus/src/engine_config.rs:129-149 Procedure (Serialize) *)
#[global] Instance procedure_value : ToValue Procedure := λ p,
  JObject [("name", JString (proc_name p)); ("initial_state", JString (initial_state p));
           ("states", json_strings (states p)); ("terminal_states", json_strings (terminal_states p));
           ("trigger", trigger_value (trigger p)); ("transitions", JArray (map transition_value (transitions p)));
           ("on_timeout_escalate", string_map (on_timeout_escalate p))]%string.
(* yutha-cedar-plus/src/engine_config.rs:246-258 DetectTrigger (Serialize) *)
Definition detect_trigger_value (t : DetectTrigger) : JsonValue :=
  JObject (("receipt_kind", JString (receipt_kind t))%string :: optional "deny_reason" JString (want_deny_reason t)
           ++ optional "forbid_rule_id" JString (want_forbid_rule_id t)).
(* yutha-cedar-plus/src/engine_config.rs:220-239 DetectConfig (Serialize) *)
Definition detect_value (d : DetectConfig) : JsonValue :=
  JObject [("trigger", detect_trigger_value (detect_trigger d)); ("count_threshold", JNumber (number_of_u64 (count_threshold d)));
           ("time_window", JString (time_window d)); ("group_by", JString (group_by d)); ("historical", JBool (historical d))]%string.
(* yutha-cedar-plus/src/engine_config.rs:261-270 CoachConfig (Serialize) *)
Definition coach_value (c : CoachConfig) : JsonValue :=
  JObject [("cooldown", JString (cooldown c)); ("guidance_template", JString (guidance_template c))]%string.
(* yutha-cedar-plus/src/engine_config.rs:288-295 ComplianceCheck (Serialize) *)
Definition compliance_value (c : ComplianceCheck) : JsonValue :=
  JObject [("no_more_of", JString (no_more_of c)); ("for", JString (for_duration c))]%string.
(* yutha-cedar-plus/src/engine_config.rs:273-285 QuarantineConfig (Serialize) *)
Definition quarantine_value (q : QuarantineConfig) : JsonValue :=
  JObject (("escalate_after", JString (quarantine_after q))%string :: optional "expires_after" JString (expires_after q)
           ++ optional "compliance_check" compliance_value (compliance_check q)).
(* yutha-cedar-plus/src/engine_config.rs:298-307 EvictConfig (Serialize) *)
Definition evict_value (e : EvictConfig) : JsonValue :=
  JObject [("escalate_after", JString (evict_after e)); ("require_countersign", JBool (require_countersign e))]%string.
(* yutha-cedar-plus/src/engine_config.rs:315-320 ReverseConfig (Serialize) *)
Definition reverse_value (r : ReverseConfig) : JsonValue :=
  JObject match auto_when r with [] => [] | l => [("auto_when"%string, json_strings l)] end.
(* yutha-cedar-plus/src/engine_config.rs:191-217 EnforcementRule (Serialize) *)
#[global] Instance enforcement_value : ToValue EnforcementRule := λ r,
  JObject ([("name", JString (name r)); ("detect", detect_value (detect r))]%string
           ++ optional "coach" coach_value (coach r) ++ optional "quarantine" quarantine_value (quarantine r)
           ++ optional "evict" evict_value (evict r)
           ++ [("reputation_delta", string_map (reputation_delta r)); ("reverse", reverse_value (reverse r))]%string
           ++ optional "severity" JString (severity r)).
(* yutha-diff/src/cedar.rs:74-90 CedarPolicyEntry (Serialize) *)
#[global] Instance entry_value : ToValue CedarPolicyEntry := λ e,
  JObject [("name", JString (entry_name e)); ("annotated", JBool (annotated e));
           ("effect", JString (CedarPolicyEffect.to_string (effect e))); ("source", JString (source e))]%string.
End to_value.

(** ** cedar.rs *)

Section diff.
Context `{SerdeItems} `{EqDecision JsonNumber} `{CedarText}.

(* yutha-diff/src/cedar.rs:169-174 scope_shape *)
Definition scope_shape (p : Policy) : string :=
  principal_constraint p +:+ "|" +:+ action_constraint p +:+ "|" +:+ resource_constraint p.
(* yutha-diff/src/cedar.rs:180-186 stable_hash *)
Definition stable_hash (b : bytes) : string := hex (be_bytes 8 (default_hash b)).
(* yutha-diff/src/cedar.rs:121-149 lift_policies (one policy) *)
Definition lift_policy (p : Policy) : CedarPolicyEntry :=
  let effect := policy_effect p in
  let source_text := policy_text p in
  match policy_annotation p "id" with
  | Some id => mkEntry id true effect source_text
  | None =>
      mkEntry (CedarPolicyEffect.to_string effect +:+ ":" +:+ scope_shape p +:+ ":" +:+ stable_hash (as_bytes source_text))
        false effect source_text
  end.
(** Sorted by name; the sort is stable. *)
Definition by_entry_name (a b : CedarPolicyEntry) : Prop := str_le (entry_name a) (entry_name b).
#[global] Instance by_entry_name_dec : RelDecision by_entry_name.
Proof. intros a b. unfold by_entry_name. apply _. Defined.
(* yutha-diff/src/cedar.rs:116-153 lift_policies *)
Definition lift_policies (side cedar_source : string) : Result (list CedarPolicyEntry) DiffError :=
  let? policies := map_err (CedarParse side) (policies_from_str cedar_source) in
  Ok (merge_sort by_entry_name (lift_policy <$> policies)).
(* yutha-diff/src/cedar.rs:157-159 has_unannotated_policies *)
Definition has_unannotated_policies (entries : list CedarPolicyEntry) : bool := existsb (λ e, negb (annotated e)) entries.

(** ** diff.rs *)

(* yutha-diff/src/diff.rs:23-23 DIFF_SCHEMA_VERSION *)
Definition DIFF_SCHEMA_VERSION : string := "yutha-diff/v1".

Section items.
Context {T : Type} {value : ToValue T} (key_of : T → string).

(** [into_iter().map(|v| (key_of(&v), v)).collect::<BTreeMap<_, _>>()]: of two
    items with one name the later stays. *)
Definition by_name (l : list T) : gmap string T := foldl (λ m v, <[key_of v := v]> m) ∅ l.

(** The walk over the names of the right side: the items added, the changes, and
    what is left of the left side. *)
(* yutha-diff/src/diff.rs:114-145 diff_named_items (the right side) *)
Fixpoint walk_right (rights : list (string * T)) (left_map : gmap string T) :
    list T * list (NamedItemChange T) * gmap string T :=
  match rights with
  | [] => ([], [], left_map)
  | (key, right_value) :: rights =>
      let '(added, modified, left_map') := walk_right rights (delete key left_map) in
      match left_map !! key with
      | None => (right_value :: added, modified, left_map')
      | Some left_value =>
          if json_eqb (to_value left_value) (to_value right_value) then (added, modified, left_map')
          else (added, mkChange key left_value right_value :: modified, left_map')
      end
  end.

(** Compared as the texts of their JSON values; by name. *)
Definition by_text (a b : T) : Prop := bytes_le (json_to_vec (to_value a)) (json_to_vec (to_value b)).
#[global] Instance by_text_dec : RelDecision by_text.
Proof. intros a b. unfold by_text. apply _. Defined.
Definition by_change_name (a b : NamedItemChange T) : Prop := str_le (change_name a) (change_name b).
#[global] Instance by_change_name_dec : RelDecision by_change_name.
Proof. intros a b. unfold by_change_name. apply _. Defined.

(* yutha-diff/src/diff.rs:100-163 diff_named_items *)
Definition diff_named_items (left right : list T) : NamedItemsDiff T :=
  let '(added, modified, left_map) := walk_right (btree_iter (by_name right)) (by_name left) in
  mkNamed (merge_sort by_text added) (merge_sort by_text (btree_iter left_map).*2) (merge_sort by_change_name modified).
End items.

(* yutha-diff/src/diff.rs:39-90 diff_constitutions *)
Definition diff_constitutions (left right : Constitution) : Result ConstitutionDiff DiffError :=
  let schema_version_change :=
    if negb (bool_decide (Constitution.schema_version left = Constitution.schema_version right))
    then Some (Constitution.schema_version left, Constitution.schema_version right) else None in
  let? left_policies := lift_policies "left" (Constitution.cedar_source left) in
  let? right_policies := lift_policies "right" (Constitution.cedar_source right) in
  let l := Constitution.engine_config left in
  let r := Constitution.engine_config right in
  Ok (mkDiff DIFF_SCHEMA_VERSION (Constitution.constitution_version left) (Constitution.constitution_version right)
        schema_version_change (diff_named_items entry_name left_policies right_policies)
        (diff_named_items pred_name (predicates l) (predicates r))
        (diff_named_items scoring_name (scoring_rules l) (scoring_rules r))
        (diff_named_items proc_name (procedures l) (procedures r))
        (diff_named_items name (enforcement_rules l) (enforcement_rules r)) None).
End diff.
