(* ===== verification/DiffLaws.v ===== *)
(** * [crates/yutha-diff]: what a diff says

    Each section of a diff is exact, and applying it to the left side, by name,
    gives the right side. *)

From S2P Require Import Prelude RustStd Core Crypto Enforcement CedarPlus Diff.
Import EngineConfig.

(** ** Values determine items *)

Section values.
Context `{SerdeItemsLaws}.

Lemma string_map_inj m m' : string_map m = string_map m' → m = m'.
Proof.
  intros [= He]. apply map_to_list_inj. rewrite <- !map_entries_perm.
  assert (map_entries m = map_entries m') as ->; [|done].
  revert He. apply map_inj. intros [k v] [k' v']. simpl. congruence.
Qed.
Lemma json_strings_inj l l' : json_strings l = json_strings l' → l = l'.
Proof. intros [= He]. revert He. apply map_inj. congruence. Qed.

Lemma object_cons (e e' : string * JsonValue) l l' :
  JObject (e :: l) = JObject (e' :: l') → e.1 = e'.1 ∧ e.2 = e'.2 ∧ JObject l = JObject l'.
Proof. by intros [= -> ->]. Qed.
(** The members of two equal objects, one by one. *)
#[local] Ltac members Hv :=
  repeat (apply object_cons in Hv as (?Hk & ?Hx & Hv); cbn [fst snd] in *; try discriminate);
  try discriminate; repeat match goal with H : JString _ = JString _ |- _ => injection H as -> end;
  repeat match goal with H : JBool _ = JBool _ |- _ => injection H as -> end; try done.
#[local] Ltac by_options Hv :=
  repeat match goal with o : option _ |- _ => destruct o end; cbn [optional app] in Hv; members Hv.

Lemma predicate_value_inj p p' : predicate_value p = predicate_value p' → p = p'.
Proof. destruct p, p'. intros Hv. unfold predicate_value in Hv. members Hv. Qed.
Lemma head_value_inj h h' : head_value h = head_value h' → h = h'.
Proof. destruct h, h'. intros Hv. unfold head_value in Hv. simpl in Hv. by_options Hv. Qed.
Lemma scoring_value_inj r r' : scoring_value r = scoring_value r' → r = r'.
Proof.
  destruct r, r'. intros Hv. unfold scoring_value in Hv. members Hv. simpl in *.
  by match goal with H : head_value _ = head_value _ |- _ => apply head_value_inj in H as -> end.
Qed.
Lemma trigger_value_inj t t' : trigger_value t = trigger_value t' → t = t'.
Proof. destruct t, t'. intros Hv. unfold trigger_value in Hv. simpl in Hv. by_options Hv. Qed.
Lemma transition_value_inj t t' : transition_value t = transition_value t' → t = t'.
Proof. destruct t, t'. intros Hv. unfold transition_value in Hv. simpl in Hv. by_options Hv. Qed.
Lemma procedure_value_inj p p' : procedure_value p = procedure_value p' → p = p'.
Proof.
  destruct p, p'. intros Hv. unfold procedure_value in Hv. members Hv. simpl in *.
  repeat match goal with
  | H : json_strings _ = json_strings _ |- _ => apply json_strings_inj in H as ->
  | H : trigger_value _ = trigger_value _ |- _ => apply trigger_value_inj in H as ->
  | H : string_map _ = string_map _ |- _ => apply string_map_inj in H as ->
  | H : JArray _ = JArray _ |- _ => injection H as H; apply map_inj in H as ->; [|apply transition_value_inj]
  end. done.
Qed.
Lemma detect_trigger_value_inj t t' : detect_trigger_value t = detect_trigger_value t' → t = t'.
Proof. destruct t, t'. intros Hv. unfold detect_trigger_value in Hv. simpl in Hv. by_options Hv. Qed.
Lemma detect_value_inj d d' : detect_value d = detect_value d' → d = d'.
Proof.
  destruct d, d'. intros Hv. unfold detect_value in Hv. members Hv. simpl in *.
  repeat match goal with
  | H : detect_trigger_value _ = detect_trigger_value _ |- _ => apply detect_trigger_value_inj in H as ->
  | H : JNumber _ = JNumber _ |- _ => injection H as H; apply number_of_u64_inj in H as ->
  end. done.
Qed.
Lemma coach_value_inj c c' : coach_value c = coach_value c' → c = c'.
Proof. destruct c, c'. intros Hv. unfold coach_value in Hv. members Hv. Qed.
Lemma compliance_value_inj c c' : compliance_value c = compliance_value c' → c = c'.
Proof. destruct c, c'. intros Hv. unfold compliance_value in Hv. members Hv. Qed.
Lemma quarantine_value_inj q q' : quarantine_value q = quarantine_value q' → q = q'.
Proof.
  destruct q, q'. intros Hv. unfold quarantine_value in Hv. simpl in Hv. by_options Hv;
    by match goal with H : compliance_value _ = compliance_value _ |- _ => apply compliance_value_inj in H as -> end.
Qed.
Lemma evict_value_inj e e' : evict_value e = evict_value e' → e = e'.
Proof. destruct e, e'. intros Hv. unfold evict_value in Hv. members Hv. Qed.
Lemma reverse_value_inj r r' : reverse_value r = reverse_value r' → r = r'.
Proof.
  destruct r as [l], r' as [l']. unfold reverse_value. simpl. intros Hv.
  destruct l as [|x l], l' as [|x' l']; try done. apply object_cons in Hv as (_ & Hv & _).
  cbn [snd] in Hv. by apply json_strings_inj in Hv as [= -> ->].
Qed.
Lemma enforcement_value_inj r r' : enforcement_value r = enforcement_value r' → r = r'.
Proof.
  destruct r, r'. intros Hv. unfold enforcement_value in Hv. simpl in Hv. by_options Hv;
  repeat match goal with
  | H : detect_value _ = detect_value _ |- _ => apply detect_value_inj in H as ->
  | H : coach_value _ = coach_value _ |- _ => apply coach_value_inj in H as ->
  | H : quarantine_value _ = quarantine_value _ |- _ => apply quarantine_value_inj in H as ->
  | H : evict_value _ = evict_value _ |- _ => apply evict_value_inj in H as ->
  | H : string_map _ = string_map _ |- _ => apply string_map_inj in H as ->
  | H : reverse_value _ = reverse_value _ |- _ => apply reverse_value_inj in H as ->
  end; done.
Qed.
Lemma entry_value_inj e e' : entry_value e = entry_value e' → e = e'.
Proof. destruct e as [? ? [] ?], e' as [? ? [] ?]; intros Hv; unfold entry_value in Hv; members Hv. Qed.
End values.

(** ** One section *)

Section items.
Context `{SerdeItems} `{EqDecision JsonNumber} {T : Type} {value : ToValue T} (key_of : T → string).
Implicit Types (m : gmap string T) (l : list T).
Notation by_name := (by_name key_of).

Lemma by_name_snoc l v : by_name (l ++ [v]) = <[key_of v := v]> (by_name l).
Proof. unfold Diff.by_name. by rewrite foldl_app. Qed.

(** An item sits under its name, and comes from the list; the last of a name. *)
Lemma by_name_key l k v : by_name l !! k = Some v → key_of v = k ∧ v ∈ l.
Proof.
  induction l as [|x l IH] using rev_ind; [change (by_name []) with (∅ : gmap string T); by intros ?%lookup_empty_Some|].
  rewrite by_name_snoc, lookup_insert_Some. intros [[<- <-]|[_ Hv]]; [set_solver|]. apply IH in Hv. set_solver.
Qed.
Lemma by_name_is_Some l k : is_Some (by_name l !! k) ↔ k ∈ key_of <$> l.
Proof.
  induction l as [|x l IH] using rev_ind.
  { change (by_name []) with (∅ : gmap string T). split; [by intros [? ?%lookup_empty_Some]|by intros ?%elem_of_nil]. }
  rewrite by_name_snoc, lookup_insert_is_Some, fmap_app, elem_of_app, IH. simpl. rewrite list_elem_of_singleton.
  destruct (decide (key_of x = k)); naive_solver.
Qed.

Lemma walk_right_spec rights m :
  NoDup rights.*1 →
  let '(a, c, m') := walk_right rights m in
  (∀ v, v ∈ a ↔ ∃ k, (k, v) ∈ rights ∧ m !! k = None) ∧
  (∀ x, x ∈ c ↔ (change_name x, change_right x) ∈ rights ∧ m !! change_name x = Some (change_left x) ∧
     to_value (change_left x) ≠ to_value (change_right x)) ∧
  (∀ k, m' !! k = if decide (k ∈ rights.*1) then None else m !! k).
Proof.
  revert m. induction rights as [|[k v] rights IH]; intros m Hnd; simpl.
  { split_and!; [set_solver|set_solver|done]. }
  apply NoDup_cons in Hnd as [Hk Hnd]. specialize (IH (delete k m) Hnd).
  destruct (walk_right rights (delete k m)) as [[a c] m'] eqn:Hw. destruct IH as (Ha & Hc & Hm).
  assert (∀ k' v', (k', v') ∈ rights → k' ≠ k) as Hne.
  { intros k' v' Hin ->. apply Hk. apply list_elem_of_fmap. by exists (k, v'). }
  assert (∀ v', v' ∈ a ↔ ∃ k', (k', v') ∈ rights ∧ m !! k' = None) as Ha'.
  { intros v'. rewrite Ha. split; intros (k' & Hin & Hl); exists k'; (split; [done|]);
      pose proof (Hne _ _ Hin); rewrite ?lookup_delete_ne in * by done; done. }
  assert (∀ x, x ∈ c ↔ (change_name x, change_right x) ∈ rights ∧ m !! change_name x = Some (change_left x) ∧
     to_value (change_left x) ≠ to_value (change_right x)) as Hc'.
  { intros x. rewrite Hc. split; intros (Hin & Hl & Hv); (split_and!; [done| |done]);
      pose proof (Hne _ _ Hin); rewrite ?lookup_delete_ne in * by done; done. }
  assert (∀ k', m' !! k' = if decide (k' ∈ k :: rights.*1) then None else m !! k') as Hm'.
  { intros k'. rewrite Hm. destruct (decide (k' = k)) as [->|].
    - rewrite lookup_delete_eq. rewrite (decide_True (P:=k ∈ k :: _)) by set_solver. by case_decide.
    - rewrite lookup_delete_ne by done. repeat case_decide; set_solver. }
  destruct (m !! k) as [w|] eqn:E; [destruct (json_eqb (to_value w) (to_value v)) eqn:Hj|].
  - apply json_eqb_eq in Hj. split_and!; [intros v'; rewrite Ha'|intros x; rewrite Hc'|done].
    + split; [set_solver|]. intros (k' & [Heq|?]%elem_of_cons & ?); [simplify_eq|eauto].
    + split; [set_solver|]. intros ([Heq|?]%elem_of_cons & Hl & Hv); [|done].
      injection Heq as Hn Hr. rewrite Hn, E in Hl. congruence.
  - assert (to_value w ≠ to_value v) as Hne' by (intros Heq; apply json_eqb_eq in Heq; congruence).
    split_and!; [intros v'; rewrite Ha'|intros x; rewrite elem_of_cons, Hc'|done].
    + split; [set_solver|]. intros (k' & [Heq|?]%elem_of_cons & ?); [simplify_eq|eauto].
    + split.
      * intros [->|(Hin & Hl & Hv)]; simpl; [|set_solver]. split_and!; [set_solver|done|done].
      * intros ([Heq|?]%elem_of_cons & Hl & Hv); [left|by right].
        injection Heq as Hn Hr. rewrite Hn, E in Hl. destruct x; simpl in *. congruence.
  - split_and!; [intros v'; rewrite elem_of_cons, Ha'|intros x; rewrite Hc'|done].
    + split; [intros [->|?]; [exists k; set_solver|set_solver]|].
      intros (k' & [Heq|?]%elem_of_cons & ?); [left; congruence|eauto].
    + split; [set_solver|]. intros ([Heq|?]%elem_of_cons & Hl & Hv); [|done].
      injection Heq as Hn Hr. rewrite Hn, E in Hl. congruence.
Qed.

(** A section lists exactly the names of one side, and the names of both whose
    values differ. *)
Lemma items_exact left right :
  let d := diff_named_items key_of left right in
  (∀ v, v ∈ added d ↔ ∃ k, by_name right !! k = Some v ∧ by_name left !! k = None) ∧
  (∀ v, v ∈ removed d ↔ ∃ k, by_name left !! k = Some v ∧ by_name right !! k = None) ∧
  (∀ x, x ∈ modified d ↔ by_name left !! change_name x = Some (change_left x) ∧
     by_name right !! change_name x = Some (change_right x) ∧ to_value (change_left x) ≠ to_value (change_right x)).
Proof.
  unfold diff_named_items. pose proof (walk_right_spec (btree_iter (by_name right)) (by_name left) (NoDup_btree_iter_keys _)) as Hw.
  destruct (walk_right _ _) as [[a c] m]. destruct Hw as (Ha & Hc & Hm). cbn [added removed modified]. split_and!.
  - intros v. rewrite merge_sort_Permutation, Ha. by setoid_rewrite elem_of_btree_iter.
  - intros v. rewrite merge_sort_Permutation, list_elem_of_fmap. split.
    + intros ([k v'] & -> & Hin%elem_of_btree_iter). exists k. rewrite Hm in Hin. case_decide as Hk; [done|].
      split; [done|]. destruct (by_name right !! k) as [w|] eqn:E; [|done]. destruct Hk.
      apply list_elem_of_fmap. exists (k, w). by rewrite elem_of_btree_iter.
    + intros (k & Hl & Hr). exists (k, v). split; [done|]. apply elem_of_btree_iter. rewrite Hm.
      case_decide as Hk; [|done]. apply list_elem_of_fmap in Hk as ([k' w] & -> & Hin%elem_of_btree_iter).
      cbn [fst] in Hr. congruence.
  - intros x. rewrite merge_sort_Permutation, Hc, elem_of_btree_iter. naive_solver.
Qed.

(** The left side with the removed items taken out and the others put in. *)
Definition apply_section (d : NamedItemsDiff T) m : gmap string T :=
  foldl (λ m v, <[key_of v := v]> m)
    (foldl (λ m x, <[change_name x := change_right x]> m) (foldl (λ m v, delete (key_of v) m) m (removed d)) (modified d))
    (added d).

Lemma inserts_lookup {A} (key : A → string) (val : A → T) (l : list A) m k :
  (foldl (λ m x, <[key x := val x]> m) m l !! k = m !! k ∧ k ∉ key <$> l) ∨
  ∃ x, x ∈ l ∧ key x = k ∧ foldl (λ m x, <[key x := val x]> m) m l !! k = Some (val x).
Proof.
  induction l as [|x l IH] using rev_ind; [left; set_solver|]. rewrite foldl_app. simpl.
  destruct (decide (key x = k)) as [<-|Hne].
  - right. exists x. rewrite lookup_insert_eq. set_solver.
  - rewrite lookup_insert_ne by done. destruct IH as [[-> ?]|(y & ? & ? & ->)]; [left|right; set_solver].
    split; [done|]. rewrite fmap_app. set_solver.
Qed.
Lemma deletes_lookup l m k :
  foldl (λ m v, delete (key_of v) m) m l !! k = if decide (k ∈ key_of <$> l) then None else m !! k.
Proof.
  induction l as [|x l IH] using rev_ind; [done|]. rewrite foldl_app, fmap_app. simpl.
  destruct (decide (key_of x = k)) as [<-|Hne].
  - rewrite lookup_delete_eq, decide_True by set_solver. done.
  - rewrite lookup_delete_ne, IH by done. repeat case_decide; set_solver.
Qed.

Context (value_inj : ∀ a b : T, to_value a = to_value b → a = b).

(** Applied to the left side a section gives the right side. *)
Lemma section_applies left right :
  apply_section (diff_named_items key_of left right) (by_name left) = by_name right.
Proof.
  pose proof (items_exact left right) as (Ha & Hr & Hm). set (d := diff_named_items _ _ _) in *.
  apply map_eq. intros k. unfold apply_section.
  pose proof (inserts_lookup key_of (λ v, v) (added d) (foldl (λ m x, <[change_name x := change_right x]> m)
    (foldl (λ m v, delete (key_of v) m) (by_name left) (removed d)) (modified d)) k) as Hadd.
  cbn beta in Hadd. destruct Hadd as [[-> Hna]|(v & Hv & <- & ->)].
  2: { apply Ha in Hv as (k & Hv & _). destruct (by_name_key _ _ _ Hv) as [-> _]. done. }
  destruct (inserts_lookup change_name change_right (modified d) (foldl (λ m v, delete (key_of v) m) (by_name left) (removed d)) k)
    as [[-> Hnm]|(x & Hx & <- & ->)].
  2: { apply Hm in Hx as (_ & Hx & _). done. }
  rewrite deletes_lookup. case_decide as Hd.
  - apply list_elem_of_fmap in Hd as (v & -> & (k & Hv & Hn)%Hr). destruct (by_name_key _ _ _ Hv) as [-> _]. done.
  - destruct (by_name left !! k) as [v|] eqn:El, (by_name right !! k) as [w|] eqn:Er; [| | |done].
    + destruct (json_eqb (to_value v) (to_value w)) eqn:Hj; [apply json_eqb_eq, value_inj in Hj; congruence|]. destruct Hnm. apply list_elem_of_fmap.
      exists (mkChange k v w). split; [done|]. apply Hm. simpl. split_and!; [done|done|]. intros Hvw%json_eqb_eq. congruence.
    + destruct Hd. apply list_elem_of_fmap. exists v. destruct (by_name_key _ _ _ El) as [-> _]. split; [done|].
      apply Hr. eauto.
    + destruct Hna. apply list_elem_of_fmap. exists w. destruct (by_name_key _ _ _ Er) as [-> _]. split; [done|].
      apply Ha. eauto.
Qed.

Lemma section_empty left right :
  section_is_empty (diff_named_items key_of left right) = true ↔ by_name left = by_name right.
Proof.
  split.
  - intros He. rewrite <- (section_applies left right). unfold section_is_empty in He. unfold apply_section.
    by destruct (added _), (removed _), (modified _).
  - intros He. pose proof (items_exact left right) as (Ha & Hr & Hm). rewrite He in Ha, Hr, Hm.
    unfold section_is_empty.
    destruct (added _) as [|v l]; [|destruct (proj1 (Ha v) ltac:(set_solver)) as (? & ? & ?); congruence].
    destruct (removed _) as [|v l]; [|destruct (proj1 (Hr v) ltac:(set_solver)) as (? & ? & ?); congruence].
    destruct (modified _) as [|x l]; [done|]. destruct (proj1 (Hm x) ltac:(set_solver)) as (H1 & H2 & H3).
    destruct H3. congruence.
Qed.

(** Of two items with one name the diff sees the later only. *)
Lemma shadowed_item_invisible x left right :
  key_of x ∈ key_of <$> left → diff_named_items key_of (x :: left) right = diff_named_items key_of left right.
Proof.
  intros Hx. assert (by_name (x :: left) = by_name left) as He; [|unfold diff_named_items; by rewrite He].
  assert (∀ m, key_of x ∈ key_of <$> left → foldl (λ m v, <[key_of v := v]> m) (<[key_of x := x]> m) left =
                foldl (λ m v, <[key_of v := v]> m) m left) as Hf; [|by apply Hf].
  clear Hx. induction left as [|y left IH]; intros m Hin; [by apply elem_of_nil in Hin|]. simpl.
  destruct (decide (key_of y = key_of x)) as [->|Hne]; [by rewrite insert_insert_eq|].
  rewrite insert_insert_ne by done. apply IH. set_solver.
Qed.
End items.

(** ** Two constitutions *)

Section constitutions.
Context `{SerdeItemsLaws} `{EqDecision JsonNumber} `{CedarText}.
Implicit Types (c left right : Constitution).

(** The sections of a constitution by name, over the policies lifted from it. *)
Definition same_by_name {T} (key_of : T → string) (l r : list T) : Prop := by_name key_of l = by_name key_of r.

(** [C34] A diff is complete.  There is one exactly if both Cedar sources parse.
    Each of its five sections, applied to the left side's items by name, gives
    the right side's; and it is empty exactly if the schema versions and all the
    sections agree, so that an empty diff hides no difference by name. *)
Theorem diff_applies left right :
  (is_ok (diff_constitutions left right) = true ↔
     is_ok (policies_from_str (Constitution.cedar_source left)) = true ∧
     is_ok (policies_from_str (Constitution.cedar_source right)) = true) ∧
  ∀ d, diff_constitutions left right = Ok d →
  ∃ lp rp, lift_policies "left" (Constitution.cedar_source left) = Ok lp ∧
    lift_policies "right" (Constitution.cedar_source right) = Ok rp ∧
    let l := Constitution.engine_config left in let r := Constitution.engine_config right in
    apply_section entry_name (cedar_policies d) (by_name entry_name lp) = by_name entry_name rp ∧
    apply_section pred_name (named_predicates d) (by_name pred_name (predicates l)) = by_name pred_name (predicates r) ∧
    apply_section scoring_name (scoring_diff d) (by_name scoring_name (scoring_rules l)) = by_name scoring_name (scoring_rules r) ∧
    apply_section proc_name (procedures_diff d) (by_name proc_name (procedures l)) = by_name proc_name (procedures r) ∧
    apply_section name (enforcement_diff d) (by_name name (enforcement_rules l)) = by_name name (enforcement_rules r) ∧
    (is_empty_structurally d = true ↔
       Constitution.schema_version left = Constitution.schema_version right ∧ same_by_name entry_name lp rp ∧
       same_by_name pred_name (predicates l) (predicates r) ∧ same_by_name scoring_name (scoring_rules l) (scoring_rules r) ∧
       same_by_name proc_name (procedures l) (procedures r) ∧
       same_by_name name (enforcement_rules l) (enforcement_rules r)).
Proof.
  unfold diff_constitutions, lift_policies, same_by_name.
  destruct (policies_from_str (Constitution.cedar_source left)) as [lp|e]; cbn [map_err rbind is_ok]; [|split; [naive_solver|done]].
  destruct (policies_from_str (Constitution.cedar_source right)) as [rp|e]; cbn [map_err rbind is_ok]; [|split; [naive_solver|done]].
  split; [done|]. intros d [= <-]. do 2 eexists. split; [done|]. split; [done|].
  cbn [cedar_policies named_predicates scoring_diff procedures_diff enforcement_diff].
  split_and!; [apply section_applies, entry_value_inj|apply section_applies, predicate_value_inj
    |apply section_applies, scoring_value_inj|apply section_applies, procedure_value_inj
    |apply section_applies, enforcement_value_inj|].
  unfold is_empty_structurally. cbn [schema_version_change cedar_policies named_predicates scoring_diff procedures_diff enforcement_diff].
  rewrite !andb_true_iff, (section_empty entry_name entry_value_inj), (section_empty pred_name predicate_value_inj),
    (section_empty scoring_name scoring_value_inj), (section_empty proc_name procedure_value_inj),
    (section_empty name enforcement_value_inj).
  case_bool_decide; simpl; naive_solver.
Qed.
End constitutions.

(** ** A concrete diff *)

Module DiffToy.
#[global] Instance json : SerdeJson := {| JsonNumber := N; json_to_vec _ := [] |}.
#[global] Instance number_eq : EqDecision JsonNumber := N.eq_dec.
#[global] Instance items : SerdeItems := {| number_of_u64 := (id : N → JsonNumber); map_entries := map_to_list |}.
#[global] Instance items_laws : SerdeItemsLaws.
Proof. split; [done|done]. Qed.
(** One policy a line: its [@id] and its text. *)
Definition parse (s : string) : Result (list (option string * string)) string :=
  if bool_decide (s = "?")%string then Err "syntax"%string
  else Ok ((λ line, match split_once ":" line with
                    | Some (id, text) => (Some id, text) | None => (None, line) end) <$> str_split "010" s).
#[global] Instance cedar : CedarText := {|
  Policy := option string * string; policies_from_str := parse;
  policy_effect p := if bool_decide (p.2 = "forbid")%string then CedarPolicyEffect.Forbid else CedarPolicyEffect.Permit;
  policy_text p := p.2; policy_annotation p key := p.1;
  principal_constraint _ := "Any"%string; action_constraint _ := "Any"%string; resource_constraint _ := "Any"%string;
  default_hash _ := 7%N |}.
Definition rule (threshold : N) : EnforcementRule :=
  mkRule "r" (mkDetect (mkDetectTrigger "k" None None) threshold "10m" "principal" false) None None None ∅ (mkReverse []) None.
Definition made (cedar : string) (predicates : list NamedPredicate) (threshold : N) : Constitution :=
  Constitution.mk (Hash.mk HashAlgorithm.Sha256 []) (SpecVersion.mk "1.0.0") "1.1.0" "1" None (SwarmId.mk []) cedar
    (EngineConfig.mk "1.1.0" predicates [] [] [rule threshold]) (Timestamp.mk "t" 0).
Definition nl : string := String "010" EmptyString.
Definition left : Constitution := made ("a:permit" +:+ nl +:+ "permit") [mkPredicate "p" "true"; mkPredicate "q" "true"] 3.
Definition right : Constitution := made ("a:forbid" +:+ nl +:+ "permit") [mkPredicate "q" "false"; mkPredicate "s" "true"] 3.
Definition d : ConstitutionDiff :=
  match diff_constitutions left right with Ok d => d | Err _ => mkDiff "" "" "" None (mkNamed [] [] []) (mkNamed [] [] []) (mkNamed [] [] []) (mkNamed [] [] []) (mkNamed [] [] []) None end.

Example sections_computed :
  (change_name <$> modified (cedar_policies d), pred_name <$> added (named_predicates d),
   pred_name <$> removed (named_predicates d), change_name <$> modified (named_predicates d),
   section_is_empty (enforcement_diff d)) = (["a"], ["s"], ["p"], ["q"], true)%string.
Proof. vm_compute. reflexivity. Qed.

(** Two policies of one [@id]: that the forbidding one is gone does not show. *)
Example duplicate_id_hidden :
  match diff_constitutions (made ("a:forbid" +:+ nl +:+ "a:permit") [] 3) (made "a:permit" [] 3) with
  | Ok d => is_empty_structurally d
  | Err _ => false
  end = true.
Proof. vm_compute. reflexivity. Qed.
End DiffToy.

Lemma diff_applies_witness :
  is_ok (diff_constitutions DiffToy.left DiffToy.right) = true ∧
  ∀ d : ConstitutionDiff, diff_constitutions DiffToy.left DiffToy.right = Ok d →
    apply_section pred_name (named_predicates d) (by_name pred_name [mkPredicate "p" "true"; mkPredicate "q" "true"]%string)
    = by_name pred_name [mkPredicate "q" "false"; mkPredicate "s" "true"]%string.
Proof.
  destruct (diff_applies DiffToy.left DiffToy.right) as [Hok Hd]. split.
  - apply Hok. split; vm_compute; reflexivity.
  - intros d Hdiff. destruct (Hd d Hdiff) as (lp & rp & _ & _ & _ & Hp & _). exact Hp.
Defined.
