(* ===== verification/DiffRender.v ===== *)
(** * [crates/yutha-diff/src/render]: a diff as JSON, Markdown and HTML

    The renderers write to a buffer that takes everything, as [render_to_string]
    gives them; an error of the JSON printer ends them early.  In the texts of
    this file a single quote stands for the double quote of the source ([dq]). *)

From S2P Require Import Prelude RustStd Core Crypto Enforcement CedarPlus Diff.
Import EngineConfig.

Definition nl : string := String "010" EmptyString.
(** Double quotes for single ones. *)
Fixpoint dq (s : string) : string :=
  match s with
  | EmptyString => EmptyString
  | String c s => String (if decide (c = "'"%char) then "034"%char else c) (dq s)
  end.

(** The buffer. *)
Notation Writer := (M string DiffError unit).
Definition put (s : string) : Writer := modify (λ out, out +:+ s).
Definition putln (s : string) : Writer := put (s +:+ nl).
Fixpoint each {A} (f : A → Writer) (l : list A) : Writer :=
  match l with [] => mret tt | x :: l => do! f x in each f l end.
Definition count {A} (l : list A) : string := show_N (N.of_nat (length l)).
Definition none_of {A} (l : list A) : bool := match l with [] => true | _ => false end.

(* yutha-diff/src/render.rs:24-33 OutputFormat *)
Inductive OutputFormat := JsonFormat | MarkdownFormat | HtmlFormat.
(* yutha-diff/src/render.rs:39-46 OutputFormat::parse_flag *)
Definition parse_flag (s : string) : option OutputFormat :=
  if decide (s = "json"%string) then Some JsonFormat
  else if decide (s = "markdown"%string ∨ s = "md"%string) then Some MarkdownFormat
  else if decide (s = "html"%string) then Some HtmlFormat else None.
(* yutha-diff/src/render.rs:49-55 OutputFormat::name *)
Definition format_name (f : OutputFormat) : string :=
  match f with JsonFormat => "json" | MarkdownFormat => "markdown" | HtmlFormat => "html" end.

(* yutha-diff/src/render/markdown.rs:131-141 summarise_counts *)
Definition summarise_counts {T} (section : NamedItemsDiff T) : string :=
  if section_is_empty section then "(no changes)"
  else count (added section) +:+ " added, " +:+ count (removed section) +:+ " removed, "
       +:+ count (modified section) +:+ " modified".
(* yutha-diff/src/render/markdown.rs:422-428 format_signed_delta *)
Definition format_signed_delta (d : Z) : string := if (0 <=? d)%Z then "+" +:+ show_Z d else show_Z d.
(** The hint both renderers give. *)
(* yutha-diff/src/render/markdown.rs:161-166 write_cedar_policies_section (any_unannotated) *)
Definition any_unannotated (section : NamedItemsDiff CedarPolicyEntry) : bool :=
  has_unannotated_policies (added section) || has_unannotated_policies (removed section)
  || existsb (λ m, negb (annotated (change_left m)) || negb (annotated (change_right m))) (modified section).
Definition no_behaviour (diff : ConstitutionDiff) : bool :=
  is_empty_structurally diff && match behavioural diff with None => true | Some _ => false end.

Section render.
Context `{SerdeItems} (to_string_pretty : JsonValue → Result string string).
Definition pretty_value (v : JsonValue) : M string DiffError string := lift (map_err JsonRender (to_string_pretty v)).

(** ** json.rs *)

Section values.
Context {T : Type} {value : ToValue T}.
(* yutha-diff/src/model.rs:120-128 NamedItemChange (Serialize) *)
Definition change_value (c : NamedItemChange T) : JsonValue :=
  JObject [("name", JString (change_name c)); ("left", to_value (change_left c)); ("right", to_value (change_right c))]%string.
(* yutha-diff/src/model.rs:88-97 NamedItemsDiff (Serialize) *)
Definition section_value (d : NamedItemsDiff T) : JsonValue :=
  JObject [("added", JArray (map to_value (added d))); ("removed", JArray (map to_value (removed d)));
           ("modified", JArray (map change_value (modified d)))]%string.
End values.
Definition json_u64 (n : N) : JsonValue := JNumber (number_of_u64 n).
(* yutha-diff/src/behavioural.rs:53-66 ReceiptCountDelta (Serialize) *)
Definition delta_value (d : ReceiptCountDelta) : JsonValue :=
  JObject [("action_kind", JString (delta_kind d)); ("subject_agent_id", JString (delta_subject d));
           ("production_count", json_u64 (delta_production d)); ("candidate_count", json_u64 (delta_candidate d))]%string.
(* yutha-diff/src/behavioural.rs:88-106 ChainDivergence (Serialize) *)
Definition divergence_value (c : ChainDivergence) : JsonValue :=
  JObject [("target_agent_id", JString (div_target c)); ("enforcement_rule_id", JString (div_rule c));
           ("stage", JString (div_stage c)); ("production_count", json_u64 (div_production c));
           ("candidate_count", json_u64 (div_candidate c))]%string.
(* yutha-diff/src/behavioural.rs:26-46 BehaviouralDiff (Serialize) *)
Definition behavioural_value (b : BehaviouralDiff) : JsonValue :=
  JObject [("window_from_unix_ns", json_u64 (window_from b)); ("window_to_unix_ns", json_u64 (window_to b));
           ("replay_session_id", JString (replay_session_id b));
           ("receipt_count_deltas", JArray (map delta_value (receipt_count_deltas b)));
           ("chain_divergences", JArray (map divergence_value (chain_divergences b)))]%string.
Definition nullable {A} (f : A → JsonValue) (o : option A) : JsonValue := match o with Some x => f x | None => JNull end.
(* yutha-diff/src/model.rs:31-68 ConstitutionDiff (Serialize) *)
Definition diff_value (d : ConstitutionDiff) : JsonValue :=
  JObject [("diff_schema_version", JString (diff_schema_version d));
           ("left_constitution_version", JString (left_version d));
           ("right_constitution_version", JString (right_version d));
           ("schema_version_change", nullable (λ p, JArray [JString p.1; JString p.2]) (schema_version_change d));
           ("cedar_policies", section_value (cedar_policies d)); ("named_predicates", section_value (named_predicates d));
           ("scoring_rules", section_value (scoring_diff d)); ("procedures", section_value (procedures_diff d));
           ("enforcement_rules", section_value (enforcement_diff d)); ("behavioural", nullable behavioural_value (behavioural d))]%string.
(* yutha-diff/src/render/json.rs:45-49 render *)
Definition render_json (diff : ConstitutionDiff) : Writer :=
  let! text := pretty_value (diff_value diff) in put (text +:+ nl).
End render.

(** ** markdown.rs *)

Module Markdown.
Section render.
Context `{SerdeItems} (to_string_pretty : JsonValue → Result string string).
#[local] Notation shown := (pretty_value to_string_pretty).

(* yutha-diff/src/render/markdown.rs:66-80 write_title *)
Definition write_title (diff : ConstitutionDiff) : Writer :=
  do! putln ("# Constitution diff (" +:+ left_version diff +:+ " → " +:+ right_version diff +:+ ")") in
  do! putln "" in
  do! putln ("_Generated by yutha-diff (schema " +:+ diff_schema_version diff
             +:+ "). Empty sections render as `(no changes)`._") in
  putln "".
(* yutha-diff/src/render/markdown.rs:82-129 write_summary *)
Definition write_summary (diff : ConstitutionDiff) : Writer :=
  do! putln "## Summary" in
  do! putln "" in
  if no_behaviour diff then do! putln "_(no changes)_" in putln ""
  else
    do! match schema_version_change diff with
        | Some (from, to) => putln ("- Schema version: `" +:+ from +:+ "` → `" +:+ to +:+ "`")
        | None => mret tt
        end in
    do! putln ("- Cedar policies: " +:+ summarise_counts (cedar_policies diff)) in
    do! putln ("- Named predicates: " +:+ summarise_counts (named_predicates diff)) in
    do! putln ("- Scoring rules: " +:+ summarise_counts (scoring_diff diff)) in
    do! putln ("- Procedures: " +:+ summarise_counts (procedures_diff diff)) in
    do! putln ("- Enforcement rules: " +:+ summarise_counts (enforcement_diff diff)) in
    do! match behavioural diff with
        | Some b =>
            putln ("- Behavioural: " +:+ count (receipt_count_deltas b) +:+ " receipt-count deltas, "
                   +:+ count (chain_divergences b) +:+ " chain divergences (window " +:+ show_N (window_from b)
                   +:+ " → " +:+ show_N (window_to b) +:+ ")")
        | None => mret tt
        end in
    putln "".
(* yutha-diff/src/render/markdown.rs:143-152 write_schema_version_change *)
Definition write_schema_version_change (diff : ConstitutionDiff) : Writer :=
  do! putln "## Schema version" in
  do! putln "" in
  do! match schema_version_change diff with
      | Some (from, to) => putln ("Pin changed: `" +:+ from +:+ "` → `" +:+ to +:+ "`.")
      | None => putln "_(no changes)_"
      end in
  putln "".
(** A fenced block of Cedar: a newline is added where the text has none. *)
Definition cedar_block (source : string) : Writer :=
  do! putln "```cedar" in
  do! put source in
  do! if starts_with nl (str_rev source) then mret tt else putln "" in
  do! putln "```" in
  putln "".
(** The heading of a subsection, which ends it when there is nothing. *)
Definition subsection {A} (label : string) (entries : list A) (body : Writer) : Writer :=
  do! putln ("### " +:+ label +:+ " (" +:+ count entries +:+ ")") in
  do! putln "" in
  if none_of entries then do! putln "_(none)_" in putln "" else body.
Definition before (body : Writer) : Writer := do! putln "**Before:**" in do! putln "" in body.
Definition after (body : Writer) : Writer := do! putln "**After:**" in do! putln "" in body.
(* yutha-diff/src/render/markdown.rs:183-216 write_cedar_subsection *)
Definition write_cedar_subsection (label : string) (entries : list CedarPolicyEntry) : Writer :=
  subsection label entries
    (each (λ entry,
       let annotation := if annotated entry then "annotated"%string else "un-annotated"%string in
       do! putln ("#### `" +:+ entry_name entry +:+ "` (" +:+ CedarPolicyEffect.to_string (effect entry) +:+ ", "
                  +:+ annotation +:+ ")") in
       do! putln "" in
       cedar_block (source entry)) entries).
(* yutha-diff/src/render/markdown.rs:218-256 write_cedar_modified *)
Definition write_cedar_modified (entries : list (NamedItemChange CedarPolicyEntry)) : Writer :=
  subsection "Modified" entries
    (each (λ change,
       do! putln ("#### `" +:+ change_name change +:+ "` ("
                  +:+ CedarPolicyEffect.to_string (effect (change_right change)) +:+ ", was "
                  +:+ CedarPolicyEffect.to_string (effect (change_left change)) +:+ ")") in
       do! putln "" in
       do! before (cedar_block (source (change_left change))) in
       after (cedar_block (source (change_right change)))) entries).
(* yutha-diff/src/render/markdown.rs:154-181 write_cedar_policies_section *)
Definition write_cedar_policies_section (section : NamedItemsDiff CedarPolicyEntry) : Writer :=
  do! putln "## Cedar policies" in
  do! putln "" in
  do! if any_unannotated section then
        do! putln (dq "> **Note:** un-annotated Cedar policies were encountered. Consider adding `@id('...')` annotations so diffs key on the operator-supplied name rather than a structural fingerprint.") in
        putln ""
      else mret tt in
  do! write_cedar_subsection "Added" (added section) in
  do! write_cedar_subsection "Removed" (removed section) in
  write_cedar_modified (modified section).

Section named.
Context {T : Type} {value : ToValue T}.
Definition json_block (v : T) : Writer :=
  do! putln "```json" in
  let! text := shown (to_value v) in
  do! putln text in
  do! putln "```" in
  putln "".
(* yutha-diff/src/render/markdown.rs:282-310 write_named_subsection *)
Definition write_named_subsection (label : string) (entries : list T) (name_of : T → string) : Writer :=
  subsection label entries
    (each (λ entry, do! putln ("#### `" +:+ name_of entry +:+ "`") in do! putln "" in json_block entry) entries).
(* yutha-diff/src/render/markdown.rs:312-342 write_named_modified *)
Definition write_named_modified (entries : list (NamedItemChange T)) : Writer :=
  subsection "Modified" entries
    (each (λ change,
       do! putln ("#### `" +:+ change_name change +:+ "`") in
       do! putln "" in
       do! before (json_block (change_left change)) in
       after (json_block (change_right change))) entries).
(* yutha-diff/src/render/markdown.rs:258-280 write_named_section *)
Definition write_named_section (title : string) (section : NamedItemsDiff T) (name_of : T → string) : Writer :=
  do! putln ("## " +:+ title) in
  do! putln "" in
  if section_is_empty section then do! putln "_(no changes)_" in putln ""
  else
    do! write_named_subsection "Added" (added section) name_of in
    do! write_named_subsection "Removed" (removed section) name_of in
    write_named_modified (modified section).
End named.

(* yutha-diff/src/render/markdown.rs:344-420 write_behavioural_section *)
Definition write_behavioural_section (b : BehaviouralDiff) : Writer :=
  do! putln ("## Behavioural diff (window " +:+ show_N (window_from b) +:+ " → " +:+ show_N (window_to b) +:+ ")") in
  do! putln "" in
  do! putln ("_Replay session id: `" +:+ replay_session_id b
             +:+ "`. Counts compare the production receipt store against the candidate's session-scoped store over the same window._") in
  do! putln "" in
  do! putln "### Receipt count deltas" in
  do! putln "" in
  do! if none_of (receipt_count_deltas b) then do! putln "_(none)_" in putln ""
      else
        do! putln "| action_kind | subject_agent_id | production | candidate | delta |" in
        do! putln "|-------------|------------------|-----------:|----------:|------:|" in
        do! each (λ d,
              putln ("| `" +:+ delta_kind d +:+ "` | `"
                     +:+ (if decide (delta_subject d = ""%string) then "(none)" else delta_subject d) +:+ "` | "
                     +:+ show_N (delta_production d) +:+ " | " +:+ show_N (delta_candidate d) +:+ " | "
                     +:+ format_signed_delta (count_delta (delta_production d) (delta_candidate d)) +:+ " |"))
              (receipt_count_deltas b) in
        putln "" in
  do! putln "### Enforcement chain divergences" in
  do! putln "" in
  if none_of (chain_divergences b) then do! putln "_(none)_" in putln ""
  else
    do! putln "| target_agent_id | enforcement_rule_id | stage | production | candidate | delta |" in
    do! putln "|-----------------|---------------------|-------|-----------:|----------:|------:|" in
    do! each (λ c,
          putln ("| `" +:+ div_target c +:+ "` | `" +:+ div_rule c +:+ "` | `" +:+ div_stage c +:+ "` | "
                 +:+ show_N (div_production c) +:+ " | " +:+ show_N (div_candidate c) +:+ " | "
                 +:+ format_signed_delta (count_delta (div_production c) (div_candidate c)) +:+ " |"))
          (chain_divergences b) in
    putln "".
(* yutha-diff/src/render/markdown.rs:32-60 render *)
Definition render (diff : ConstitutionDiff) : Writer :=
  do! write_title diff in
  do! write_summary diff in
  do! write_schema_version_change diff in
  do! write_cedar_policies_section (cedar_policies diff) in
  do! write_named_section "Named predicates" (named_predicates diff) pred_name in
  do! write_named_section "Scoring rules" (scoring_diff diff) scoring_name in
  do! write_named_section "Procedures" (procedures_diff diff) proc_name in
  do! write_named_section "Enforcement rules" (enforcement_diff diff) name in
  match behavioural diff with Some b => write_behavioural_section b | None => mret tt end.
End render.
End Markdown.

(** ** html.rs *)

Module Html.
Section render.
Context `{SerdeItems} (to_string_pretty : JsonValue → Result string string).
#[local] Notation shown := (pretty_value to_string_pretty).

(* yutha-diff/src/render/html.rs:33-72 STYLESHEET *)
Definition STYLESHEET : string := dq "
  body {
    font-family: -apple-system, BlinkMacSystemFont, 'Segoe UI', Helvetica, Arial, sans-serif;
    line-height: 1.5;
    color: #24292e;
    max-width: 960px;
    margin: 2rem auto;
    padding: 0 1rem;
  }
  h1 { border-bottom: 1px solid #eaecef; padding-bottom: 0.3em; }
  h2 { border-bottom: 1px solid #eaecef; padding-bottom: 0.3em; margin-top: 2rem; }
  h3 { margin-top: 1.5rem; }
  h4 { margin-top: 1rem; }
  code { font-family: SFMono-Regular, Consolas, 'Liberation Mono', Menlo, monospace;
         background: #f6f8fa; padding: 0.1em 0.3em; border-radius: 3px; font-size: 0.9em; }
  pre { background: #f6f8fa; padding: 0.75rem 1rem; border-radius: 6px; overflow-x: auto; }
  pre code { background: transparent; padding: 0; font-size: 0.875em; }
  details { margin: 0.5rem 0; }
  summary { cursor: pointer; color: #0366d6; font-weight: 500; }
  table { border-collapse: collapse; width: 100%; margin: 0.75rem 0; }
  th, td { border: 1px solid #eaecef; padding: 0.4rem 0.75rem; text-align: left; }
  th { background: #f6f8fa; }
  td.num { text-align: right; font-variant-numeric: tabular-nums; }
  .meta { color: #586069; font-size: 0.9em; }
  .none { color: #586069; font-style: italic; }
  .hint { background: #fff8c5; border-left: 4px solid #b08800; padding: 0.75rem 1rem;
          border-radius: 0 6px 6px 0; }
  article.added { border-left: 4px solid #22863a; padding-left: 0.75rem; margin: 0.5rem 0; }
  article.removed { border-left: 4px solid #cb2431; padding-left: 0.75rem; margin: 0.5rem 0; }
  article.modified { border-left: 4px solid #b08800; padding-left: 0.75rem; margin: 0.5rem 0; }
  .badge { display: inline-block; padding: 0.1em 0.5em; border-radius: 3px;
           font-size: 0.75em; font-weight: 600; margin-left: 0.5em; }
  .badge.permit { background: #22863a; color: white; }
  .badge.forbid { background: #cb2431; color: white; }
  .badge.annotated { background: #0366d6; color: white; }
  .badge.unannotated { background: #b08800; color: white; }
  .delta-pos { color: #22863a; font-weight: 600; }
  .delta-neg { color: #cb2431; font-weight: 600; }
  .delta-zero { color: #586069; }
".
(* yutha-diff/src/render/html.rs:537-550 escape_html *)
Fixpoint escape_html (s : string) : string :=
  match s with
  | EmptyString => EmptyString
  | String ch s =>
      (if decide (ch = "&"%char) then "&amp;"
       else if decide (ch = "<"%char) then "&lt;"
       else if decide (ch = ">"%char) then "&gt;"
       else if decide (ch = "034"%char) then "&quot;"
       else if decide (ch = "'"%char) then "&#39;"
       else String ch EmptyString)%string +:+ escape_html s
  end.
(* yutha-diff/src/render/html.rs:481-487 effect_badge *)
Definition effect_badge (effect : CedarPolicyEffect) : string :=
  let class := CedarPolicyEffect.to_string effect in
  dq " <span class='badge " +:+ class +:+ dq "'>" +:+ class +:+ "</span>".
(* yutha-diff/src/render/html.rs:489-495 annotation_badge *)
Definition annotation_badge (annotated : bool) : string :=
  if annotated then dq " <span class='badge annotated'>annotated</span>"
  else dq " <span class='badge unannotated'>un-annotated</span>".
(* yutha-diff/src/render/html.rs:497-503 delta_class *)
Definition delta_class (d : Z) : string :=
  match (d ?= 0)%Z with Gt => "delta-pos" | Lt => "delta-neg" | Eq => "delta-zero" end.
(* yutha-diff/src/render/html.rs:517-532 write_collapsible_source *)
Definition write_collapsible_source (language source : string) : Writer :=
  do! putln "  <details>" in
  do! putln ("    <summary>" +:+ escape_html language +:+ " source</summary>") in
  do! putln (dq "    <pre><code class='language-" +:+ escape_html language +:+ dq "'>" +:+ escape_html source
             +:+ "</code></pre>") in
  putln "  </details>".
(* yutha-diff/src/render/html.rs:109-142 write_prelude *)
Definition write_prelude (diff : ConstitutionDiff) : Writer :=
  let versions := "Constitution diff (" +:+ escape_html (left_version diff) +:+ " &rarr; "
                  +:+ escape_html (right_version diff) +:+ ")" in
  do! putln "<!doctype html>" in
  do! putln (dq "<html lang='en'>") in
  do! putln "<head>" in
  do! putln (dq "  <meta charset='utf-8'>") in
  do! putln (dq "  <meta name='viewport' content='width=device-width, initial-scale=1'>") in
  do! putln ("  <title>" +:+ versions +:+ "</title>") in
  do! putln ("  <style>" +:+ STYLESHEET +:+ "</style>") in
  do! putln "</head>" in
  do! putln "<body>" in
  do! putln "<header>" in
  do! putln ("  <h1>" +:+ versions +:+ "</h1>") in
  do! putln (dq "  <p class='meta'>Generated by yutha-diff (schema " +:+ escape_html (diff_schema_version diff)
             +:+ "). Empty sections render as <em>(no changes)</em>.</p>") in
  putln "</header>".
(* yutha-diff/src/render/html.rs:144-148 write_postlude *)
Definition write_postlude : Writer := do! putln "</body>" in putln "</html>".
Definition no_changes : Writer := putln (dq "<p class='none'>(no changes)</p>").
(* yutha-diff/src/render/html.rs:150-207 write_summary *)
Definition write_summary (diff : ConstitutionDiff) : Writer :=
  do! putln (dq "<section class='summary'>") in
  do! putln "<h2>Summary</h2>" in
  if no_behaviour diff then do! no_changes in putln "</section>"
  else
    do! putln "<ul>" in
    do! match schema_version_change diff with
        | Some (from, to) =>
            putln ("  <li>Schema version: <code>" +:+ escape_html from +:+ "</code> &rarr; <code>"
                   +:+ escape_html to +:+ "</code></li>")
        | None => mret tt
        end in
    do! putln ("  <li>Cedar policies: " +:+ escape_html (summarise_counts (cedar_policies diff)) +:+ "</li>") in
    do! putln ("  <li>Named predicates: " +:+ escape_html (summarise_counts (named_predicates diff)) +:+ "</li>") in
    do! putln ("  <li>Scoring rules: " +:+ escape_html (summarise_counts (scoring_diff diff)) +:+ "</li>") in
    do! putln ("  <li>Procedures: " +:+ escape_html (summarise_counts (procedures_diff diff)) +:+ "</li>") in
    do! putln ("  <li>Enforcement rules: " +:+ escape_html (summarise_counts (enforcement_diff diff)) +:+ "</li>") in
    do! match behavioural diff with
        | Some b =>
            putln ("  <li>Behavioural: " +:+ count (receipt_count_deltas b) +:+ " receipt-count deltas, "
                   +:+ count (chain_divergences b) +:+ " chain divergences (window " +:+ show_N (window_from b)
                   +:+ " &rarr; " +:+ show_N (window_to b) +:+ ")</li>")
        | None => mret tt
        end in
    do! putln "</ul>" in
    putln "</section>".
(* yutha-diff/src/render/html.rs:221-235 write_schema_version_change *)
Definition write_schema_version_change (diff : ConstitutionDiff) : Writer :=
  do! putln (dq "<section class='schema-version'>") in
  do! putln "<h2>Schema version</h2>" in
  do! match schema_version_change diff with
      | Some (from, to) =>
          putln ("<p>Pin changed: <code>" +:+ escape_html from +:+ "</code> &rarr; <code>" +:+ escape_html to +:+ "</code>.</p>")
      | None => no_changes
      end in
  putln "</section>".
(** The heading of a subsection, which ends it when there is nothing. *)
Definition subsection {A} (label : string) (entries : list A) (body : Writer) : Writer :=
  do! putln ("<h3>" +:+ escape_html label +:+ " (" +:+ count entries +:+ ")</h3>") in
  if none_of entries then putln (dq "<p class='none'>(none)</p>") else body.
Definition before_after (language left right : string) : Writer :=
  do! putln "  <p><strong>Before:</strong></p>" in
  do! write_collapsible_source language left in
  do! putln "  <p><strong>After:</strong></p>" in
  write_collapsible_source language right.
Definition article (class : string) : Writer := putln (dq "<article class='" +:+ class +:+ dq "'>").
(* yutha-diff/src/render/html.rs:267-291 write_cedar_subsection *)
Definition write_cedar_subsection (label article_class : string) (entries : list CedarPolicyEntry) : Writer :=
  subsection label entries
    (each (λ entry,
       do! article article_class in
       do! putln ("  <h4><code>" +:+ escape_html (entry_name entry) +:+ "</code>" +:+ effect_badge (effect entry)
                  +:+ annotation_badge (annotated entry) +:+ "</h4>") in
       do! write_collapsible_source "cedar" (source entry) in
       putln "</article>") entries).
(* yutha-diff/src/render/html.rs:293-317 write_cedar_modified *)
Definition write_cedar_modified (entries : list (NamedItemChange CedarPolicyEntry)) : Writer :=
  subsection "Modified" entries
    (each (λ change,
       do! article "modified" in
       do! putln ("  <h4><code>" +:+ escape_html (change_name change) +:+ "</code>"
                  +:+ effect_badge (effect (change_right change)) +:+ "</h4>") in
       do! before_after "cedar" (source (change_left change)) (source (change_right change)) in
       putln "</article>") entries).
(* yutha-diff/src/render/html.rs:237-265 write_cedar_policies_section *)
Definition write_cedar_policies_section (section : NamedItemsDiff CedarPolicyEntry) : Writer :=
  do! putln (dq "<section class='cedar-policies'>") in
  do! putln "<h2>Cedar policies</h2>" in
  do! if any_unannotated section then
        putln (dq "<p class='hint'><strong>Note:</strong> un-annotated Cedar policies were encountered. Consider adding <code>@id('...')</code> annotations so diffs key on the operator-supplied name rather than a structural fingerprint.</p>")
      else mret tt in
  do! write_cedar_subsection "Added" "added" (added section) in
  do! write_cedar_subsection "Removed" "removed" (removed section) in
  do! write_cedar_modified (modified section) in
  putln "</section>".

Section named.
Context {T : Type} {value : ToValue T}.
(* yutha-diff/src/render/html.rs:344-369 write_named_subsection *)
Definition write_named_subsection (label article_class : string) (entries : list T) (name_of : T → string) : Writer :=
  subsection label entries
    (each (λ entry,
       let! text := shown (to_value entry) in
       do! article article_class in
       do! putln ("  <h4><code>" +:+ escape_html (name_of entry) +:+ "</code></h4>") in
       do! write_collapsible_source "json" text in
       putln "</article>") entries).
(* yutha-diff/src/render/html.rs:371-392 write_named_modified *)
Definition write_named_modified (entries : list (NamedItemChange T)) : Writer :=
  subsection "Modified" entries
    (each (λ change,
       let! pretty_left := shown (to_value (change_left change)) in
       let! pretty_right := shown (to_value (change_right change)) in
       do! article "modified" in
       do! putln ("  <h4><code>" +:+ escape_html (change_name change) +:+ "</code></h4>") in
       do! before_after "json" pretty_left pretty_right in
       putln "</article>") entries).
(* yutha-diff/src/render/html.rs:319-342 write_named_section *)
Definition write_named_section (title : string) (section : NamedItemsDiff T) (name_of : T → string) : Writer :=
  do! putln "<section>" in
  do! putln ("<h2>" +:+ escape_html title +:+ "</h2>") in
  if section_is_empty section then do! no_changes in putln "</section>"
  else
    do! write_named_subsection "Added" "added" (added section) name_of in
    do! write_named_subsection "Removed" "removed" (removed section) name_of in
    do! write_named_modified (modified section) in
    putln "</section>".
End named.

Definition cell (text : string) : string := "<td><code>" +:+ escape_html text +:+ "</code></td>".
Definition number_cells (production candidate : N) : string :=
  let d := count_delta production candidate in
  dq "<td class='num'>" +:+ show_N production +:+ dq "</td><td class='num'>" +:+ show_N candidate
  +:+ dq "</td><td class='num " +:+ delta_class d +:+ dq "'>" +:+ format_signed_delta d +:+ "</td></tr>".
Definition table {A} (rows : list A) (head : string) (row : A → string) : Writer :=
  if none_of rows then putln (dq "<p class='none'>(none)</p>")
  else
    do! putln "<table>" in
    do! putln head in
    do! putln "  <tbody>" in
    do! each (λ r, putln (row r)) rows in
    do! putln "  </tbody>" in
    putln "</table>".
(* yutha-diff/src/render/html.rs:394-475 write_behavioural_section *)
Definition write_behavioural_section (b : BehaviouralDiff) : Writer :=
  do! putln (dq "<section class='behavioural'>") in
  do! putln ("<h2>Behavioural diff (window " +:+ show_N (window_from b) +:+ " &rarr; " +:+ show_N (window_to b) +:+ ")</h2>") in
  do! putln (dq "<p class='meta'>Replay session id: <code>" +:+ escape_html (replay_session_id b)
             +:+ "</code>. Counts compare the production receipt store against the candidate's session-scoped store over the same window.</p>") in
  do! putln "<h3>Receipt count deltas</h3>" in
  do! table (receipt_count_deltas b)
        "  <thead><tr><th>action_kind</th><th>subject_agent_id</th><th>production</th><th>candidate</th><th>delta</th></tr></thead>"
        (λ d, let subject := if decide (delta_subject d = ""%string) then "(none)"%string else delta_subject d in
              "  <tr>" +:+ cell (delta_kind d) +:+ cell subject +:+ number_cells (delta_production d) (delta_candidate d)) in
  do! putln "<h3>Enforcement chain divergences</h3>" in
  do! table (chain_divergences b)
        "  <thead><tr><th>target_agent_id</th><th>enforcement_rule_id</th><th>stage</th><th>production</th><th>candidate</th><th>delta</th></tr></thead>"
        (λ c, "  <tr>" +:+ cell (div_target c) +:+ cell (div_rule c) +:+ cell (div_stage c)
              +:+ number_cells (div_production c) (div_candidate c)) in
  putln "</section>".
(* yutha-diff/src/render/html.rs:74-103 render *)
Definition render (diff : ConstitutionDiff) : Writer :=
  do! write_prelude diff in
  do! write_summary diff in
  do! write_schema_version_change diff in
  do! write_cedar_policies_section (cedar_policies diff) in
  do! write_named_section "Named predicates" (named_predicates diff) pred_name in
  do! write_named_section "Scoring rules" (scoring_diff diff) scoring_name in
  do! write_named_section "Procedures" (procedures_diff diff) proc_name in
  do! write_named_section "Enforcement rules" (enforcement_diff diff) name in
  do! match behavioural diff with Some b => write_behavioural_section b | None => mret tt end in
  write_postlude.
End render.
End Html.

(** ** render.rs *)

Section render_to.
Context `{SerdeItems} (to_string_pretty : JsonValue → Result string string).

(* yutha-diff/src/render.rs:70-80 render_to *)
Definition render_to (diff : ConstitutionDiff) (format : OutputFormat) : Writer :=
  match format with
  | JsonFormat => render_json to_string_pretty diff
  | MarkdownFormat => Markdown.render to_string_pretty diff
  | HtmlFormat => Html.render to_string_pretty diff
  end.
(* yutha-diff/src/render.rs:60-67 render_to_string *)
Definition render_to_string (diff : ConstitutionDiff) (format : OutputFormat) : Result string DiffError :=
  let '(r, out) := render_to diff format "" in
  let? _ := r in Ok out.
End render_to.
