(* ===== verification/DiffRenderLaws.v ===== *)
(** * [crates/yutha-diff/src/render]: what an operator's text can do to a page

    The characters that make up the markup of the HTML page are a function of
    the shape of the diff; what the buffer held before is kept. *)

From S2P Require Import Prelude RustStd Core Crypto Enforcement CedarPlus Diff DiffRender DiffLaws.
Import EngineConfig Html.

(** ** Markup *)

Definition special (c : ascii) : bool :=
  bool_decide (c = "<"%char ∨ c = ">"%char ∨ c = "034"%char ∨ c = "'"%char).
(** The angle brackets and the quotes of a text, in order. *)
Fixpoint markup (s : string) : string :=
  match s with
  | EmptyString => EmptyString
  | String c s => if special c then String c (markup s) else markup s
  end.

Lemma markup_app s t : markup (s +:+ t) = markup s +:+ markup t.
Proof. induction s as [|c s IH]; [done|]. simpl. rewrite IH. by destruct (special c). Qed.

Lemma markup_escape s : markup (escape_html s) = "".
Proof.
  induction s as [|c s IH]; [done|]. cbn [escape_html]. rewrite markup_app, IH.
  repeat (case_decide; [by vm_compute|]). simpl.
  assert (special c = false) as ->; [|done]. apply bool_decide_eq_false. intros [|[|[]]]; done.
Qed.

Lemma markup_show_N n : markup (show_N n) = "".
Proof.
  assert (∀ c, markup (String (pretty_N_char c) "") = "") as Hd.
  { intros c. unfold pretty_N_char. repeat case_match; by vm_compute. }
  assert (∀ c s, markup (String (pretty_N_char c) s) = markup s) as Hc.
  { intros c s. change (String (pretty_N_char c) s) with (String (pretty_N_char c) "" +:+ s). by rewrite markup_app, Hd. }
  assert (∀ s, markup s = "" → markup (pretty_N_go n s) = "") as Hg.
  { induction (N.lt_wf_0 n) as [n _ IH]. intros s Hs. destruct (decide (n = 0)%N) as [->|]; [by rewrite pretty_N_go_0|].
    rewrite pretty_N_go_step by lia. apply IH; [apply N.div_lt; lia|]. by rewrite Hc. }
  unfold show_N, pretty, pretty_N. case_decide; [by vm_compute|]. by apply Hg.
Qed.
Lemma markup_show_Z z : markup (show_Z z) = "".
Proof.
  unfold show_Z, pretty, pretty_Z. destruct z as [|p|p]; [by vm_compute|apply (markup_show_N (Npos p))|].
  change (markup ("-" +:+ show_N (Npos p)) = ""). by rewrite markup_app, markup_show_N.
Qed.
Lemma markup_count {A} (l : list A) : markup (count l) = "".
Proof. apply markup_show_N. Qed.
Lemma markup_delta d : markup (format_signed_delta d) = "".
Proof. unfold format_signed_delta. case_match; rewrite ?markup_app, markup_show_Z; done. Qed.
Lemma markup_class d : markup (delta_class d) = "".
Proof. unfold delta_class. by case_match. Qed.

(** ** Writers of one markup *)

Definition same_markup (m1 m2 : Writer) : Prop :=
  ∀ o1 o2 u1 u2 o1' o2', markup o1 = markup o2 → m1 o1 = (Ok u1, o1') → m2 o2 = (Ok u2, o2') → markup o1' = markup o2'.

Lemma same_done : same_markup (mret tt) (mret tt).
Proof. by intros o1 o2 u1 u2 o1' o2' Ho [= _ <-] [= _ <-]. Qed.
Lemma same_put s1 s2 : markup s1 = markup s2 → same_markup (putln s1) (putln s2).
Proof.
  intros Hs o1 o2 u1 u2 o1' o2' Ho [= _ <-] [= _ <-]. by rewrite !markup_app, Ho, Hs.
Qed.
Lemma same_seq m1 m2 (k1 k2 : Writer) :
  same_markup m1 m2 → same_markup k1 k2 → same_markup (do! m1 in k1) (do! m2 in k2).
Proof.
  intros Hm Hk o1 o2 u1 u2 o1' o2' Ho (x1 & t1 & H1 & K1)%mthen_Ok (x2 & t2 & H2 & K2)%mthen_Ok.
  eapply Hk; [|exact K1|exact K2]. by eapply Hm.
Qed.
Lemma same_each {A} (f g : A → Writer) l k :
  Forall2 (λ x y, same_markup (f x) (g y)) l k → same_markup (each f l) (each g k).
Proof. induction 1; [apply same_done|]. by apply same_seq. Qed.
Lemma same_rows {A} (f : A → Writer) l k :
  (∀ x y, same_markup (f x) (f y)) → length l = length k → same_markup (each f l) (each f k).
Proof. intros Hf Hl. apply same_each. apply Forall2_same_length_lookup_2; [done|]. intros. apply Hf. Qed.

Section html.
Context `{SerdeItems} (to_string_pretty : JsonValue → Result string string).
Lemma same_shown v1 v2 k1 k2 :
  (∀ t1 t2, same_markup (k1 t1) (k2 t2)) →
  same_markup (mthen (pretty_value to_string_pretty v1) k1) (mthen (pretty_value to_string_pretty v2) k2).
Proof.
  intros Hk o1 o2 u1 u2 o1' o2' Ho (x1 & t1 & [= H1 <-] & K1)%mthen_Ok (x2 & t2 & [= H2 <-] & K2)%mthen_Ok.
  by eapply Hk.
Qed.

(** The texts put in are escaped, or numbers, or one of a few fixed ones. *)
#[local] Ltac texts :=
  rewrite ?markup_app, ?markup_escape, ?markup_show_N, ?markup_count, ?markup_delta, ?markup_class; reflexivity.
#[local] Ltac writes_with lemma :=
  repeat lazymatch goal with
  | |- same_markup (mthen _ _) (mthen _ _) => apply same_seq
  | |- same_markup (putln _) (putln _) => apply same_put; texts
  | |- same_markup (mret tt) (mret tt) => apply same_done
  | |- same_markup no_changes no_changes => apply same_put; reflexivity
  | |- same_markup (article _) (article _) => apply same_put; reflexivity
  | |- same_markup _ _ => apply lemma
  end.
#[local] Ltac writes := writes_with same_done.

Lemma same_source lang s1 s2 : same_markup (write_collapsible_source lang s1) (write_collapsible_source lang s2).
Proof. unfold write_collapsible_source. writes. Qed.
Lemma same_before_after lang s1 s2 t1 t2 : same_markup (before_after lang s1 t1) (before_after lang s2 t2).
Proof. unfold before_after. writes_with same_source. Qed.
Lemma same_subsection {A} label (l k : list A) b1 b2 :
  length l = length k → same_markup b1 b2 → same_markup (subsection label l b1) (subsection label k b2).
Proof.
  intros Hl Hb. unfold subsection. apply same_seq; [apply same_put; texts|].
  destruct l, k; try done; cbn [none_of]. apply same_put. texts.
Qed.

(** One shape: as many items; of policies also the effects and annotations. *)
Definition same_lengths {T} (d1 d2 : NamedItemsDiff T) : Prop :=
  length (added d1) = length (added d2) ∧ length (removed d1) = length (removed d2) ∧
  length (modified d1) = length (modified d2).
Definition same_badges (e1 e2 : CedarPolicyEntry) : Prop := effect e1 = effect e2 ∧ annotated e1 = annotated e2.
Definition same_policies (d1 d2 : NamedItemsDiff CedarPolicyEntry) : Prop :=
  Forall2 same_badges (added d1) (added d2) ∧ Forall2 same_badges (removed d1) (removed d2) ∧
  Forall2 (λ c1 c2, same_badges (change_left c1) (change_left c2) ∧ same_badges (change_right c1) (change_right c2))
    (modified d1) (modified d2).
Definition same_shape (d1 d2 : ConstitutionDiff) : Prop :=
  (is_Some (schema_version_change d1) ↔ is_Some (schema_version_change d2)) ∧
  same_policies (cedar_policies d1) (cedar_policies d2) ∧ same_lengths (named_predicates d1) (named_predicates d2) ∧
  same_lengths (scoring_diff d1) (scoring_diff d2) ∧ same_lengths (procedures_diff d1) (procedures_diff d2) ∧
  same_lengths (enforcement_diff d1) (enforcement_diff d2) ∧
  match behavioural d1, behavioural d2 with
  | Some b1, Some b2 =>
      length (receipt_count_deltas b1) = length (receipt_count_deltas b2) ∧
      length (chain_divergences b1) = length (chain_divergences b2)
  | None, None => True
  | _, _ => False
  end.

Lemma same_policies_lengths d1 d2 : same_policies d1 d2 → same_lengths d1 d2.
Proof. intros (? & ? & ?). split_and!; by eapply Forall2_length. Qed.
Lemma same_lengths_empty {T} (d1 d2 : NamedItemsDiff T) :
  same_lengths d1 d2 → section_is_empty d1 = section_is_empty d2.
Proof.
  intros (Ha & Hr & Hm). unfold section_is_empty.
  destruct (added d1), (added d2); try done. destruct (removed d1), (removed d2); try done. by destruct (modified d1), (modified d2).
Qed.
Lemma same_unannotated l k :
  Forall2 same_badges l k → has_unannotated_policies l = has_unannotated_policies k.
Proof. induction 1 as [|x y l k [_ Ha] Hl IH]; [done|]. simpl. by rewrite Ha, IH. Qed.

Lemma same_cedar_section d1 d2 :
  same_policies d1 d2 → same_markup (write_cedar_policies_section d1) (write_cedar_policies_section d2).
Proof.
  intros (Ha & Hr & Hm). unfold write_cedar_policies_section.
  assert (any_unannotated d1 = any_unannotated d2) as ->.
  { unfold any_unannotated. rewrite (same_unannotated _ _ Ha), (same_unannotated _ _ Hr). f_equal.
    induction Hm as [|x y l k [[_ H1] [_ H2]] Hl IH]; [done|]. simpl. by rewrite H1, H2, IH. }
  assert (∀ label class l k, Forall2 same_badges l k →
    same_markup (write_cedar_subsection label class l) (write_cedar_subsection label class k)) as Hsub.
  { intros label class l k Hlk. unfold write_cedar_subsection. apply same_subsection; [exact (Forall2_length _ _ _ Hlk)|].
    apply same_each. eapply Forall2_impl; [exact Hlk|]. intros x y [He Ha']. rewrite He, Ha'.
    writes_with same_source. }
  apply same_seq; [apply same_put; texts|]. apply same_seq; [apply same_put; texts|].
  apply same_seq; [destruct (any_unannotated d2); writes|].
  apply same_seq; [by apply Hsub|]. apply same_seq; [by apply Hsub|].
  apply same_seq; [|apply same_put; texts].
  unfold write_cedar_modified. apply same_subsection; [exact (Forall2_length _ _ _ Hm)|]. apply same_each. eapply Forall2_impl; [exact Hm|].
  intros x y [_ [He _]]. rewrite He. writes_with same_before_after.
Qed.

Lemma same_named_section {T} `{!ToValue T} title (d1 d2 : NamedItemsDiff T) name_of :
  same_lengths d1 d2 →
  same_markup (write_named_section to_string_pretty title d1 name_of) (write_named_section to_string_pretty title d2 name_of).
Proof.
  intros Hl. unfold write_named_section. rewrite (same_lengths_empty _ _ Hl). destruct Hl as (Ha & Hr & Hm).
  apply same_seq; [apply same_put; texts|]. apply same_seq; [apply same_put; texts|].
  destruct (section_is_empty d2); [writes|].
  assert (∀ label class l k, length l = length k →
    same_markup (write_named_subsection to_string_pretty label class l name_of)
      (write_named_subsection to_string_pretty label class k name_of)) as Hsub.
  { intros label class l k Hlk. unfold write_named_subsection. apply same_subsection; [exact Hlk|].
    apply same_rows; [|exact Hlk]. intros x y. apply same_shown. intros. writes_with same_source. }
  apply same_seq; [by apply Hsub|]. apply same_seq; [by apply Hsub|]. apply same_seq; [|apply same_put; texts].
  unfold write_named_modified. apply same_subsection; [exact Hm|]. apply same_rows; [|exact Hm]. intros x y.
  apply same_shown; intros. apply same_shown; intros.
  writes_with same_before_after.
Qed.

Lemma same_table {A} (l k : list A) head row :
  length l = length k → (∀ x y, markup (row x) = markup (row y)) → same_markup (table l head row) (table k head row).
Proof.
  intros Hl Hrow. unfold table. destruct l as [|x l], k as [|y k]; try done; cbn [none_of]; [writes|].
  do 3 (apply same_seq; [apply same_put; texts|]). apply same_seq; [|writes].
  apply same_rows; [|exact Hl]. intros. apply same_put, Hrow.
Qed.
(** A row is a fixed opening, cells of text and the cells of the counts. *)
Lemma markup_cells p1 c1 p2 c2 : markup (number_cells p1 c1) = markup (number_cells p2 c2).
Proof. unfold number_cells. texts. Qed.
Lemma markup_cell t1 t2 : markup (cell t1) = markup (cell t2).
Proof. unfold cell. texts. Qed.
Lemma markup_congr s s' t t' : markup s = markup s' → markup t = markup t' → markup (s +:+ t) = markup (s' +:+ t').
Proof. intros Hs Ht. by rewrite !markup_app, Hs, Ht. Qed.

Lemma same_behavioural b1 b2 :
  length (receipt_count_deltas b1) = length (receipt_count_deltas b2) →
  length (chain_divergences b1) = length (chain_divergences b2) →
  same_markup (write_behavioural_section b1) (write_behavioural_section b2).
Proof.
  intros Hr Hc. unfold write_behavioural_section.
  do 4 (apply same_seq; [apply same_put; texts|]). apply same_seq.
  { apply same_table; [exact Hr|]. intros x y. cbv zeta. apply markup_congr; [reflexivity|].
    do 2 (apply markup_congr; [apply markup_cell|]). apply markup_cells. }
  apply same_seq; [apply same_put; texts|]. apply same_seq; [|writes].
  apply same_table; [exact Hc|]. intros x y. apply markup_congr; [reflexivity|].
  do 3 (apply markup_congr; [apply markup_cell|]). apply markup_cells.
Qed.

(** *** The page *)

Lemma same_prelude d1 d2 : same_markup (write_prelude d1) (write_prelude d2).
Proof. unfold write_prelude. writes. Qed.
Lemma same_no_behaviour d1 d2 : same_shape d1 d2 → no_behaviour d1 = no_behaviour d2.
Proof.
  intros (Hs & Hc%same_policies_lengths%same_lengths_empty & Hp%same_lengths_empty & Hr%same_lengths_empty
    & Ho%same_lengths_empty & He%same_lengths_empty & Hb).
  unfold no_behaviour, is_empty_structurally. rewrite Hc, Hp, Hr, Ho, He.
  assert (match schema_version_change d1 with Some _ => false | None => true end =
    match schema_version_change d2 with Some _ => false | None => true end) as ->.
  { destruct (schema_version_change d1), (schema_version_change d2); try done;
      [destruct (is_Some_None (proj1 Hs ltac:(eauto)))|destruct (is_Some_None (proj2 Hs ltac:(eauto)))]. }
  by destruct (behavioural d1), (behavioural d2).
Qed.
Lemma same_option {A} (o1 o2 : option A) (f g : A → Writer) m :
  (is_Some o1 ↔ is_Some o2) → (∀ x y, same_markup (f x) (g y)) → same_markup m m →
  same_markup match o1 with Some x => f x | None => m end match o2 with Some y => g y | None => m end.
Proof.
  intros Ho Hf Hm. destruct o1, o2; [apply Hf| | |done];
    [destruct (is_Some_None (proj1 Ho ltac:(eauto)))|destruct (is_Some_None (proj2 Ho ltac:(eauto)))].
Qed.
Lemma same_summary d1 d2 : same_shape d1 d2 → same_markup (write_summary d1) (write_summary d2).
Proof.
  intros Hd. unfold write_summary. rewrite (same_no_behaviour _ _ Hd). destruct Hd as (Hs & _ & _ & _ & _ & _ & Hb).
  do 2 (apply same_seq; [apply same_put; texts|]). destruct (no_behaviour d2); [writes|].
  apply same_seq; [apply same_put; texts|]. apply same_seq.
  { apply same_option; [done| |apply same_done]. intros [] []. apply same_put. texts. }
  do 5 (apply same_seq; [apply same_put; texts|]). apply same_seq; [|writes].
  destruct (behavioural d1), (behavioural d2); try done; [apply same_put; texts|apply same_done].
Qed.
Lemma same_schema_version d1 d2 :
  same_shape d1 d2 → same_markup (write_schema_version_change d1) (write_schema_version_change d2).
Proof.
  intros [Hs _]. unfold write_schema_version_change. do 2 (apply same_seq; [apply same_put; texts|]).
  apply same_seq; [|writes]. apply same_option; [done| |writes]. intros [] []. apply same_put. texts.
Qed.

(** [C35] What the constitutions say cannot touch the markup of the page.  Two
    diffs of one shape (as many items in each part of each section, policies with
    the same effects and annotations, as many rows of counts) give pages with the
    same angle brackets and quotes in the same order, whatever the names, texts,
    versions and counts are. *)
Theorem html_markup_fixed d1 d2 page1 page2 :
  same_shape d1 d2 →
  render_to_string to_string_pretty d1 HtmlFormat = Ok page1 →
  render_to_string to_string_pretty d2 HtmlFormat = Ok page2 →
  markup page1 = markup page2.
Proof.
  intros Hd. unfold render_to_string, render_to. destruct (render _ d1 _) as [[[]|] o1] eqn:E1; [|done].
  destruct (render _ d2 _) as [[[]|] o2] eqn:E2; [|done]. intros [= <-] [= <-]. revert E1 E2.
  assert (same_markup (render to_string_pretty d1) (render to_string_pretty d2)) as Hm; [|by apply Hm].
  pose proof Hd as (_ & Hc & Hp & Hr & Ho & He & Hb). unfold render.
  apply same_seq; [apply same_prelude|]. apply same_seq; [by apply same_summary|].
  apply same_seq; [by apply same_schema_version|]. apply same_seq; [by apply same_cedar_section|].
  do 4 (apply same_seq; [by apply same_named_section|]). apply same_seq; [|unfold write_postlude; writes].
  destruct (behavioural d1), (behavioural d2); try done; [destruct Hb; by apply same_behavioural|apply same_done].
Qed.
End html.

(** ** Two pages *)

Module RenderToy.
Definition pretty (v : JsonValue) : Result string string := Ok (dq "{ 'n': 1 }").
(** Every name and text of the second carries a script. *)
Definition script : string := "</code><script>alert(1)</script>".
Definition said (name text : string) : ConstitutionDiff :=
  mkDiff DIFF_SCHEMA_VERSION name "2" (Some (text, name))
    (mkNamed [mkEntry name true CedarPolicyEffect.Permit text] [] [mkChange name
       (mkEntry name true CedarPolicyEffect.Permit text) (mkEntry name true CedarPolicyEffect.Forbid name)])
    (mkNamed [] [mkPredicate name text] []) (mkNamed [] [] []) (mkNamed [] [] []) (mkNamed [] [] [])
    (Some (mkBehavioural 1 2 name [mkDelta name text 3 1] [mkDivergence name text name 0 9])).
Definition page (d : ConstitutionDiff) : string :=
  match render_to_string pretty d HtmlFormat with Ok p => p | Err _ => "" end.

Lemma said_same_shape n1 t1 n2 t2 : same_shape (said n1 t1) (said n2 t2).
Proof. unfold same_shape, same_policies, same_lengths, said. simpl. split_and!; repeat constructor; eauto. Qed.
End RenderToy.

Lemma html_markup_fixed_witness :
  same_shape (RenderToy.said "rule" "true") (RenderToy.said RenderToy.script RenderToy.script) ∧
  markup (RenderToy.page (RenderToy.said "rule" "true")) = markup (RenderToy.page (RenderToy.said RenderToy.script RenderToy.script)).
Proof.
  split; [apply RenderToy.said_same_shape|].
  apply (html_markup_fixed RenderToy.pretty (RenderToy.said "rule" "true")
    (RenderToy.said RenderToy.script RenderToy.script)); [apply RenderToy.said_same_shape| |];
    vm_compute; reflexivity.
Defined.
