(* ===== verification/OpsDiff.v ===== *)
(** * [yutha-ops diff]: the operator's command

    The static path reads two constitutions from files and renders what changed.
    The behavioural path also has the control plane replay a window of the log
    under the right side, and counts the receipts of the log and of the session
    by kind and subject.  The services answer as [Services] says. *)

From S2P Require Import Prelude RustStd Core CoreProto Crypto ReceiptTypes ReceiptProto Enforcement CedarPlus.
From S2P Require Import Status Auth ControlPlane ConstitutionService ReplayService Seed Diff DiffRender.
Import replay_proto.

(** ** Counting *)

(* yutha-ops/src/main.rs:857-866 DEFAULT_BEHAVIOURAL_ACTION_KINDS *)
Definition DEFAULT_BEHAVIOURAL_ACTION_KINDS : list string :=
  ["envelope.send"; "constitution.evaluate.pass"; "constitution.evaluate.deny"; "enforcement.detect";
   "enforcement.coach"; "enforcement.quarantine"; "enforcement.evict"; "enforcement.reverse"]%string.
(* yutha-ops/src/main.rs:1195-1200 receipt_in_window *)
Definition receipt_in_window (r : rproto.Receipt) (from_ns to_ns : N) : bool :=
  match rproto.Receipt_occurred_at r with
  | None => false
  | Some ts => (from_ns <=? proto.Timestamp_monotonic_ns ts)%N && (proto.Timestamp_monotonic_ns ts <=? to_ns)%N
  end.
(* yutha-ops/src/main.rs:1205-1210 evidence_str *)
Definition evidence_str (r : rproto.Receipt) (key : string) : option string :=
  e ← List.find (λ e, String.eqb (rproto.Evidence_key e) key) (rproto.Receipt_evidence r);
  from_utf8 (rproto.Evidence_value e).
(* yutha-ops/src/main.rs:1215-1224 enforcement_stage *)
Definition enforcement_stage (action_kind : string) : option string :=
  if decide (action_kind = "enforcement.detect"%string) then Some "detect"%string
  else if decide (action_kind = "enforcement.coach"%string) then Some "coach"%string
  else if decide (action_kind = "enforcement.quarantine"%string) then Some "quarantine"%string
  else if decide (action_kind = "enforcement.evict"%string) then Some "evict"%string
  else if decide (action_kind = "enforcement.reverse"%string) then Some "reverse"%string
  else None.

(** A [BTreeMap] of a production count and a candidate count by key; one more
    receipt of either store. *)
Notation Counts K := (gmap K (N * N)).
Definition bump {K} `{Countable K} (production : bool) (k : K) (m : Counts K) : Counts K :=
  let '(p, c) := default (0, 0)%N (m !! k) in
  <[k := if production then (u64_saturating_add p 1, c) else (p, u64_saturating_add c 1)]> m.
Definition bump_all {K} `{Countable K} (production : bool) (keys : list K) (m : Counts K) : Counts K :=
  foldl (λ m k, bump production k m) m keys.

(** Tuples are ordered by their first component, then by the rest. *)
Definition lex_le {A B} (leA : relation A) (leB : relation B) : relation (A * B) := λ p q,
  leA p.1 q.1 ∧ (p.1 = q.1 → leB p.2 q.2).
#[global] Instance lex_le_dec {A B} `{EqDecision A} (leA : relation A) (leB : relation B)
  `{!RelDecision leA, !RelDecision leB} : RelDecision (lex_le leA leB).
Proof. intros p q. unfold lex_le. apply _. Defined.
Definition count_le : relation (string * string) := lex_le str_le str_le.
Definition chain_le : relation (string * string * string) := lex_le count_le str_le.
Definition key_le {K} (le : relation K) : relation (K * (N * N)) := λ a b, le a.1 b.1.
#[global] Instance key_le_dec {K} (le : relation K) `{!RelDecision le} : RelDecision (key_le le).
Proof. intros a b. unfold key_le. apply _. Defined.
Definition iter_counts {K} `{Countable K} (le : relation K) `{!RelDecision le} (m : Counts K) : list (K * (N * N)) :=
  merge_sort (key_le le) (map_to_list m).

Definition subject_key (kind : string) (r : rproto.Receipt) : string * string :=
  (kind, default ""%string (evidence_str r "subject_agent_id")).
Definition chain_key (stage : string) (r : rproto.Receipt) : string * string * string :=
  (default ""%string (evidence_str r "target_agent_id"), default ""%string (evidence_str r "enforcement_rule_id"), stage).
Record Tally := mkTally { counts : Counts (string * string); chain : Counts (string * string * string) }.
Definition no_tally : Tally := mkTally ∅ ∅.
(** The receipts of one kind from both stores. *)
(* yutha-ops/src/main.rs:1023-1054 cmd_diff_behavioural (one action kind) *)
Definition tally_kind (kind : string) (prod_receipts session_receipts : list rproto.Receipt) (t : Tally) : Tally :=
  let counts := bump_all false (subject_key kind <$> session_receipts)
                  (bump_all true (subject_key kind <$> prod_receipts) (counts t)) in
  match enforcement_stage kind with
  | Some stage =>
      mkTally counts (bump_all false (chain_key stage <$> session_receipts)
                        (bump_all true (chain_key stage <$> prod_receipts) (chain t)))
  | None => mkTally counts (chain t)
  end.

(* yutha-ops/src/main.rs:1058-1070 cmd_diff_behavioural (receipt_count_deltas) *)
Definition count_deltas (t : Tally) : list ReceiptCountDelta :=
  map (λ '((action_kind, subject_agent_id), (production, candidate)),
         mkDelta action_kind subject_agent_id production candidate) (iter_counts count_le (counts t)).
(* yutha-ops/src/main.rs:1071-1088 cmd_diff_behavioural (chain_divergences) *)
Definition divergences (t : Tally) : list ChainDivergence :=
  omap (λ '((target, rule, stage), (p, c)),
          if (p =? c)%N then None else Some (mkDivergence target rule stage p c)) (iter_counts chain_le (chain t)).

(** ** The command *)

(** What an [anyhow] error was made of. *)
Inductive OpsError :=
| Usage (message : string) | Io (message : string) | EngineConfigYaml (e : CedarPlusError) | Token
| Structural (e : DiffError) | Rpc (e : Status).

(** The services, called in turn.  [run_session] gives the frames of the stream
    up to its end: a frame, or the error that ends it. *)
Class Services (V : Type) := {
  svc_create_session : Request CreateRequest → M V Status CreateResponse;
  svc_run_session : Request string → M V Status (list (Result ReplayProgress Status));
  svc_query : Request (option rproto.QueryRequest) → M V Status rpc.QueryResponse;
  svc_query_replay_receipts : Request QueryReplayRequest → M V Status rpc.QueryResponse;
  svc_close_session : Request string → M V Status CloseResponse
}.
(* yutha-ops/src/main.rs:980-991 cmd_diff_behavioural (the stream) *)
Fixpoint drain (frames : list (Result ReplayProgress Status)) (total_replayed last_progress_ns : N) : Result (N * N) Status :=
  match frames with
  | [] => Ok (total_replayed, last_progress_ns)
  | Err e :: _ => Err e
  | Ok p :: frames =>
      if Progress_window_complete p then Ok (Progress_receipts_replayed p, Progress_unix_ns p)
      else drain frames (Progress_receipts_replayed p) (Progress_unix_ns p)
  end.

(** The flags of the command that both paths take. *)
Record DiffFlags := mkFlags {
  left_cedar : string; left_engine_config : string; right_cedar : string; right_engine_config : string;
  flag_left_version : string; flag_right_version : string; format : string; output_file : option string }.

Section command.
Context `{SerdeItems} `{EqDecision JsonNumber} `{CedarText} (to_string_pretty : JsonValue → Result string string).
Context `{TimeOps, OffsetDateTimeOps, CryptoOps, SerdeYaml}.
Context `{Encode cp_proto.AgentBearerToken, Encode cp_proto.OperatorBearerToken}.
(** The files; readings of the clock, and of the system's nanoseconds. *)
Context (read_to_string : string → Result string string) (clock : nat → Timestamp) (now_ns : nat → N).

Definition read_file (path : string) : Result string OpsError := map_err Io (read_to_string path).
Definition schema_or_default (s : string) : string := if decide (s = ""%string) then "1.1.0"%string else s.

(** The hash and the swarm are placeholders. *)
(* yutha-ops/src/main.rs:818-850 load_constitution_for_diff *)
Definition load_constitution_for_diff (cedar_path engine_config_path version_label : string) (now : Timestamp)
    : Result Constitution OpsError :=
  let? cedar_source := read_file cedar_path in
  let? engine_yaml := read_file engine_config_path in
  let? engine_config := map_err EngineConfigYaml (parse_engine_config_yaml engine_yaml) in
  Ok (Constitution.mk (Hash.mk HashAlgorithm.Sha256 (replicate 32 Byte.x00)) (SpecVersion.mk "1.0.0")
        (schema_or_default (EngineConfig.schema_version engine_config)) version_label None
        (SwarmId.mk (replicate 16 Byte.x00)) cedar_source engine_config now).

Definition structural (f : DiffFlags) (now now' : Timestamp) : Result (Constitution * ConstitutionDiff) OpsError :=
  let? baseline := load_constitution_for_diff (left_cedar f) (left_engine_config f) (flag_left_version f) now in
  let? candidate := load_constitution_for_diff (right_cedar f) (right_engine_config f) (flag_right_version f) now' in
  let? diff := map_err Structural (diff_constitutions baseline candidate) in
  Ok (candidate, diff).

(** Answers with what is written to [output_file], or printed. *)
(* yutha-ops/src/main.rs:764-807 cmd_diff_static *)
Definition cmd_diff_static (f : DiffFlags) : Result (option string * string) OpsError :=
  let? fmt := ok_or (parse_flag (format f))
                (Usage ("--format must be one of `json` / `markdown` / `md` / `html` (got `" +:+ format f +:+ "`)")) in
  let? diff := structural f (clock 0) (clock 1) in
  let? rendered := map_err Structural (render_to_string to_string_pretty diff.2 fmt) in
  Ok (output_file f, rendered).

(** ** With a window *)

Context {V : Type} `{!Services V} (identity : SeedIdentity).
Notation Cmd A := (M V OpsError A).
Definition rpc {A} (m : M V Status A) : Cmd A := m_map_err Rpc m.
Definition by_kind (action_kind : string) : rproto.QueryRequest :=
  rproto.mkQueryRequest (Some (rproto.ByActionKind action_kind)) 10000 [].

(* yutha-ops/src/main.rs:1131-1160 fetch_production_by_action_kind *)
Definition fetch_production_by_action_kind (agent_token action_kind : string) (from_ns to_ns : N) : Cmd (list rproto.Receipt) :=
  let! resp := rpc (svc_query (sent AgentBearer agent_token (Some (by_kind action_kind)))) in
  mret (List.filter (λ r, receipt_in_window r from_ns to_ns) (rpc.Queried_receipts resp)).
(* yutha-ops/src/main.rs:1165-1190 fetch_session_by_action_kind *)
Definition fetch_session_by_action_kind (operator_token session_id action_kind : string) : Cmd (list rproto.Receipt) :=
  let! resp := rpc (svc_query_replay_receipts
                      (sent OperatorBearer operator_token (mkQueryReplay session_id (Some (by_kind action_kind))))) in
  mret (rpc.Queried_receipts resp).

(* yutha-ops/src/main.rs:994-1055 cmd_diff_behavioural (the loop over the kinds) *)
Fixpoint tally_kinds (agent_token operator_token session_id : string) (window_from window_to : N) (kinds : list string)
    (t : Tally) : Cmd Tally :=
  match kinds with
  | [] => mret t
  | kind :: kinds =>
      let! prod_receipts := fetch_production_by_action_kind agent_token kind window_from window_to in
      let! session_receipts := fetch_session_by_action_kind operator_token session_id kind in
      tally_kinds agent_token operator_token session_id window_from window_to kinds
        (tally_kind kind prod_receipts session_receipts t)
  end.
Definition action_kinds (filter : list string) : list string :=
  match filter with [] => DEFAULT_BEHAVIOURAL_ACTION_KINDS | _ => filter end.
Definition candidate_proto (f : DiffFlags) (right : Constitution) (cedar yaml : string) (now : Timestamp) : ConstitutionProto :=
  mkConstitutionProto (Some (to_proto (SpecVersion.mk "1.0.0"))) (schema_or_default (Constitution.schema_version right))
    (flag_right_version f) None (Some (to_proto (Seed.swarm_id identity))) cedar yaml (Some (to_proto now)).
Definition with_behavioural (b : BehaviouralDiff) (d : ConstitutionDiff) : ConstitutionDiff :=
  mkDiff (diff_schema_version d) (left_version d) (right_version d) (schema_version_change d) (cedar_policies d)
    (named_predicates d) (scoring_diff d) (procedures_diff d) (enforcement_diff d) (Some b).

(* yutha-ops/src/main.rs:874-1125 cmd_diff_behavioural *)
Definition cmd_diff_behavioural (f : DiffFlags) (window_from window_to : option N) (filter : list string)
    : Cmd (option string * string) :=
  let! fmt := lift (ok_or (parse_flag (format f)) (Usage "--format must be one of `json` / `markdown` / `md` / `html`")) in
  match window_from, window_to with
  | Some window_from, Some window_to =>
      if (window_to <? window_from)%N then
        throw (Usage ("--window-to (" +:+ show_N window_to +:+ ") must be >= --window-from (" +:+ show_N window_from +:+ ")"))
      else
        let! right_diff := lift (structural f (clock 0) (clock 1)) in
        let! right_engine_yaml := lift (read_file (right_engine_config f)) in
        let! right_cedar_source := lift (read_file (right_cedar f)) in
        let candidate := candidate_proto f right_diff.1 right_cedar_source right_engine_yaml (clock 2) in
        let! operator_token := lift (ok_or (fst <$> mint_operator_token identity (clock 3) (now_ns 0)) Token) in
        let! agent_token := lift (ok_or (fst <$> mint_agent_token identity (clock 4) (now_ns 1)) Token) in
        let! created := rpc (svc_create_session (sent OperatorBearer operator_token
                          (mkCreate (Some candidate) (Some (mkWindow window_from window_to filter)) 0 0))) in
        let session := Created_replay_session_id created in
        let! frames := rpc (svc_run_session (sent OperatorBearer operator_token session)) in
        let! _totals := lift (map_err Rpc (drain frames 0 0)) in
        let! t := tally_kinds agent_token operator_token session window_from window_to (action_kinds filter) no_tally in
        let diff := with_behavioural (mkBehavioural window_from window_to session (count_deltas t) (divergences t)) right_diff.2 in
        let! _closed := rpc (svc_close_session (sent OperatorBearer operator_token session)) in
        let! rendered := lift (map_err Structural (render_to_string to_string_pretty diff fmt)) in
        mret (output_file f, rendered)
  | _, _ =>
      throw (Usage "behavioural diff requires BOTH --window-from and --window-to (monotonic_ns); omit BOTH for the static-only diff")
  end.
End command.
