(* ===== verification/OpsDiffLaws.v ===== *)
(** * [yutha-ops diff]: what the counts say

    The rows are exact counts of what the services answered.  What a session can
    answer is narrower than the rows suggest: it only ever holds [enforcement.*]
    receipts, and a filter on kinds starves the replay of its input. *)

From S2P Require Import Prelude RustStd Core CoreProto Crypto ReceiptTypes ReceiptProto Enforcement CedarPlus.
From S2P Require Import ReceiptStore PassportStore LoopLaws ReplayStore ReplaySession ReplayLaws.
From S2P Require Import Status Auth ControlPlane ConstitutionService ReplayService Seed Diff DiffLaws DiffRender OpsDiff.
Import replay_proto.

(** ** Counts *)

Section counts.
Context {K : Type} `{Countable K}.
Implicit Types (m : Counts K) (k x : K) (es : list (bool * K)).

Definition times {A} `{EqDecision A} (x : A) (l : list A) : N := N.of_nat (length (List.filter (λ y, bool_decide (y = x)) l)).
Lemma times_app {A} `{EqDecision A} (x : A) l l' : times x (l ++ l') = (times x l + times x l')%N.
Proof. unfold times. rewrite List.filter_app, length_app. lia. Qed.
Lemma times_one {A} `{EqDecision A} (x y : A) : times x [y] = if decide (y = x) then 1%N else 0%N.
Proof. unfold times. simpl. case_bool_decide; by case_decide. Qed.

(** The cell of a key after [p] and [c] receipts. *)
Definition cell (p c : N) : option (N * N) :=
  if (p =? 0)%N && (c =? 0)%N then None else Some (N.min u64_max p, N.min u64_max c).
Definition bumped es m : Counts K := foldl (λ m e, bump e.1 e.2 m) m es.

Lemma bumped_lookup es k : bumped es ∅ !! k = cell (times (true, k) es) (times (false, k) es).
Proof.
  induction es as [|[b x] es IH] using rev_ind; [done|].
  unfold bumped. rewrite foldl_app. fold (bumped es (∅ : Counts K)). simpl. rewrite !times_app, !times_one.
  unfold bump. destruct (decide (x = k)) as [->|Hne].
  - rewrite IH. unfold cell at 1, u64_saturating_add.
    set (p := times (true, k) es). set (c := times (false, k) es).
    assert (default (0, 0)%N (if (p =? 0)%N && (c =? 0)%N then None else Some (N.min u64_max p, N.min u64_max c))
            = (N.min u64_max p, N.min u64_max c)) as ->.
    { destruct (N.eqb_spec p 0) as [->|], (N.eqb_spec c 0) as [->|]; done. }
    rewrite lookup_insert_eq. unfold cell.
    destruct b; [rewrite (decide_True (P:=(true, k) = (true, k))), (decide_False (P:=(true, k) = (false, k))) by done
                |rewrite (decide_False (P:=(false, k) = (true, k))), (decide_True (P:=(false, k) = (false, k))) by done];
      rewrite N.add_0_r; [rewrite (proj2 (N.eqb_neq (p + 1) 0)) by lia
                         |rewrite (proj2 (N.eqb_neq (c + 1) 0)), andb_false_r by lia]; simpl;
      do 2 f_equal; unfold u64_max; lia.
  - destruct (default _ _) as [p c]. rewrite lookup_insert_ne by done. rewrite IH.
    repeat case_decide; simplify_eq; by rewrite !N.add_0_r.
Qed.
Lemma bump_all_bumped b keys m : bump_all b keys m = bumped ((λ k, (b, k)) <$> keys) m.
Proof. revert m. induction keys as [|k keys IH]; intros m; [done|]. apply IH. Qed.
Lemma bumped_app es es' m : bumped (es ++ es') m = bumped es' (bumped es m).
Proof. apply foldl_app. Qed.
End counts.

(** ** The tally *)

Definition Fetched : Type := list (string * (list rproto.Receipt * list rproto.Receipt)).
Implicit Types (fetched : Fetched) (prod sess : list rproto.Receipt).
Definition tally_all fetched : Tally := foldl (λ t f, tally_kind f.1 f.2.1 f.2.2 t) no_tally fetched.

Definition both {K} (key : rproto.Receipt → K) prod sess : list (bool * K) :=
  ((λ k, (true, k)) <$> (key <$> prod)) ++ ((λ k, (false, k)) <$> (key <$> sess)).
Definition count_events fetched : list (bool * (string * string)) :=
  fetched ≫= λ f, both (subject_key f.1) f.2.1 f.2.2.
Definition chain_events fetched : list (bool * (string * string * string)) :=
  fetched ≫= λ f, match enforcement_stage f.1 with Some stage => both (chain_key stage) f.2.1 f.2.2 | None => [] end.

Lemma tally_events fetched :
  counts (tally_all fetched) = bumped (count_events fetched) ∅ ∧ chain (tally_all fetched) = bumped (chain_events fetched) ∅.
Proof.
  induction fetched as [|[kind [prod sess]] fetched [IH1 IH2]] using rev_ind; [done|].
  unfold tally_all, count_events, chain_events. rewrite foldl_app, !bind_app, !bumped_app. fold (tally_all fetched).
  fold (count_events fetched) (chain_events fetched). rewrite <- IH1, <- IH2. simpl. rewrite !app_nil_r.
  unfold tally_kind, both. destruct (enforcement_stage kind); simpl; rewrite ?bumped_app, <- ?bump_all_bumped; done.
Qed.

(** How many receipts have a key. *)
Definition having {K} `{EqDecision K} (key : rproto.Receipt → K) (k : K) (rs : list rproto.Receipt) : N :=
  N.of_nat (length (List.filter (λ r, bool_decide (key r = k)) rs)).
Lemma times_map {A B} `{EqDecision B} (f : A → B) x l :
  times x (f <$> l) = N.of_nat (length (List.filter (λ y, bool_decide (f y = x)) l)).
Proof. unfold times. f_equal. induction l as [|y l IH]; [done|]. cbn. destruct (bool_decide (f y = x)); simpl; [f_equal|]; exact IH. Qed.
Lemma filter_none {A} (f : A → bool) l : (∀ x, x ∈ l → f x = false) → List.filter f l = [].
Proof.
  induction l as [|x l IH]; intros Hf; [done|]. simpl. rewrite Hf by set_solver. apply IH. set_solver.
Qed.
Lemma times_both {K} `{EqDecision K} (key : rproto.Receipt → K) k prod sess :
  times (true, k) (both key prod sess) = having key k prod ∧ times (false, k) (both key prod sess) = having key k sess.
Proof.
  unfold both. rewrite !times_app, <- !list_fmap_compose, !times_map. unfold having. split.
  - rewrite (filter_none _ sess) by (intros; by apply bool_decide_eq_false). rewrite N.add_0_r. do 2 f_equal.
    apply List.filter_ext. intros r. apply bool_decide_ext. simpl. naive_solver.
  - rewrite (filter_none _ prod) by (intros; by apply bool_decide_eq_false). rewrite N.add_0_l. do 2 f_equal.
    apply List.filter_ext. intros r. apply bool_decide_ext. simpl. naive_solver.
Qed.

Lemma times_bind_none {A B} `{EqDecision B} (f : A → list B) x l :
  (∀ a, a ∈ l → times x (f a) = 0%N) → times x (l ≫= f) = 0%N.
Proof.
  induction l as [|a l IH]; intros Hf; [done|]. cbn. rewrite times_app, Hf, IH; set_solver.
Qed.
Lemma times_bind_one {A B} `{EqDecision B} (f : A → list B) x l a :
  NoDup l → a ∈ l → (∀ a', a' ∈ l → a' ≠ a → times x (f a') = 0%N) → times x (l ≫= f) = times x (f a).
Proof.
  induction 1 as [|b l Hb Hl IH]; intros Ha Hf; [by apply elem_of_nil in Ha|]. cbn. rewrite times_app.
  apply elem_of_cons in Ha as [->|Ha].
  - rewrite times_bind_none; [lia|]. intros a' Ha'. apply Hf; [set_solver|]. intros ->. done.
  - rewrite (Hf b), IH; [done|done|set_solver|set_solver|]. intros ->. done.
Qed.
Lemma times_zero {A} `{EqDecision A} (x : A) l : x ∉ l → times x l = 0%N.
Proof.
  intros Hx. unfold times. rewrite filter_none; [done|]. intros y Hy. apply bool_decide_eq_false. by intros ->.
Qed.
Lemma elem_of_both {K} (key : rproto.Receipt → K) b k prod sess : (b, k) ∈ both key prod sess → ∃ r, k = key r.
Proof. unfold both. rewrite elem_of_app, !list_elem_of_fmap. setoid_rewrite list_elem_of_fmap. naive_solver. Qed.
Lemma enforcement_stage_inj kind kind' stage :
  enforcement_stage kind = Some stage → enforcement_stage kind' = Some stage → kind = kind'.
Proof. unfold enforcement_stage. repeat case_decide; naive_solver. Qed.

Definition subject_of (r : rproto.Receipt) : string := default ""%string (evidence_str r "subject_agent_id").
Definition chain_of (r : rproto.Receipt) : string * string :=
  (default ""%string (evidence_str r "target_agent_id"), default ""%string (evidence_str r "enforcement_rule_id")).
Lemma having_ext {K L} `{EqDecision K, EqDecision L} (key : rproto.Receipt → K) (key' : rproto.Receipt → L) k l rs :
  (∀ r, key r = k ↔ key' r = l) → having key k rs = having key' l rs.
Proof. intros He. unfold having. do 2 f_equal. apply List.filter_ext. intros r. by apply bool_decide_ext. Qed.

Section exact.
Context fetched (Hkinds : NoDup fetched.*1).

Lemma fetched_nodup : NoDup fetched.
Proof using Hkinds. eapply NoDup_fmap_1, Hkinds. Qed.
Lemma fetched_kind kind x y : (kind, x) ∈ fetched → (kind, y) ∈ fetched → x = y.
Proof using Hkinds.
  intros Hx Hy. apply (elem_of_list_to_map_1 (M:=gmap string)) in Hx, Hy; [|done|done]. congruence.
Qed.

Lemma counted kind subject prod sess : (kind, (prod, sess)) ∈ fetched →
  counts (tally_all fetched) !! (kind, subject) = cell (having subject_of subject prod) (having subject_of subject sess).
Proof using Hkinds.
  intros Hin. rewrite (proj1 (tally_events fetched)), bumped_lookup. unfold count_events.
  assert (∀ b, times (b, (kind, subject)) (fetched ≫= λ f, both (subject_key f.1) f.2.1 f.2.2)
    = times (b, (kind, subject)) (both (subject_key kind) prod sess)) as Ht.
  { intros b. rewrite (times_bind_one _ _ _ (kind, (prod, sess))); [done|apply fetched_nodup|done|].
    intros [kind' x] Hf Hne. apply times_zero. intros (r & [= <- _])%elem_of_both. destruct Hne. f_equal. by eapply fetched_kind. }
  rewrite !Ht. destruct (times_both (subject_key kind) (kind, subject) prod sess) as [-> ->].
  f_equal; apply having_ext; intros r; unfold subject_key, subject_of; naive_solver.
Qed.
Lemma counted_kind kind subject n : counts (tally_all fetched) !! (kind, subject) = Some n → kind ∈ fetched.*1.
Proof using Hkinds.
  rewrite (proj1 (tally_events fetched)), bumped_lookup. intros Hc. destruct (decide (kind ∈ fetched.*1)) as [|Hk]; [done|].
  unfold count_events in Hc. rewrite !times_bind_none in Hc; [done| |]; intros [kind' x] Hf; apply times_zero;
    intros (r & [= -> _])%elem_of_both; destruct Hk; apply list_elem_of_fmap; by exists (kind', x).
Qed.

Lemma chained kind stage target rule prod sess : (kind, (prod, sess)) ∈ fetched → enforcement_stage kind = Some stage →
  chain (tally_all fetched) !! (target, rule, stage) = cell (having chain_of (target, rule) prod) (having chain_of (target, rule) sess).
Proof using Hkinds.
  intros Hin Hs. rewrite (proj2 (tally_events fetched)), bumped_lookup. unfold chain_events.
  match goal with |- cell (times _ (fetched ≫= ?f)) _ = _ =>
    assert (∀ b, times (b, (target, rule, stage)) (fetched ≫= f) = times (b, (target, rule, stage)) (both (chain_key stage) prod sess)) as Ht end.
  { intros b. rewrite (times_bind_one _ _ _ (kind, (prod, sess))); [simpl; by rewrite Hs|apply fetched_nodup|done|].
    intros [kind' x] Hf Hne. simpl. destruct (enforcement_stage kind') as [stage'|] eqn:Hs'; [|done].
    apply times_zero. intros (r & [= _ _ <-])%elem_of_both. destruct Hne.
    rewrite (enforcement_stage_inj _ _ _ Hs Hs') in *. f_equal. by eapply fetched_kind. }
  rewrite !Ht. destruct (times_both (chain_key stage) (target, rule, stage) prod sess) as [-> ->].
  f_equal; apply having_ext; intros r; unfold chain_key, chain_of; naive_solver.
Qed.
Lemma chained_kind target rule stage n : chain (tally_all fetched) !! (target, rule, stage) = Some n →
  ∃ kind x, (kind, x) ∈ fetched ∧ enforcement_stage kind = Some stage.
Proof using Hkinds.
  rewrite (proj2 (tally_events fetched)), bumped_lookup. intros Hc.
  destruct (decide (Exists (λ f, enforcement_stage f.1 = Some stage) fetched)) as [([k x] & Hf & Hs)%Exists_exists|Hn]; [by eexists _, _|].
  rewrite <- Forall_Exists_neg in Hn. rewrite Forall_forall in Hn.
  unfold chain_events in Hc. rewrite !times_bind_none in Hc; [done| |]; intros [kind' x] Hf; specialize (Hn _ Hf); simpl in *;
    (destruct (enforcement_stage kind') as [stage'|]; [|done]); apply times_zero; intros (r & [= _ _ <-])%elem_of_both; done.
Qed.
End exact.

(** ** The order of the rows *)

Section lex.
Context {A B : Type} (leA : relation A) (leB : relation B).
#[global] Instance lex_le_trans `{!Transitive leA, !Transitive leB, !AntiSymm (=) leA} : Transitive (lex_le leA leB).
Proof.
  intros [a1 b1] [a2 b2] [a3 b3] [H1 H2] [H3 H4]. unfold lex_le in *. simpl in *. split; [by trans a2|].
  intros ->. assert (a2 = a3) as -> by by apply (anti_symm leA). trans b2; auto.
Qed.
#[global] Instance lex_le_total `{EqDecision A, !Total leA, !Total leB} : Total (lex_le leA leB).
Proof.
  intros [a1 b1] [a2 b2]. unfold lex_le. simpl. destruct (decide (a1 = a2)) as [->|Hne].
  - destruct (total leB b1 b2); [left|right]; split; try done; by destruct (total leA a2 a2).
  - destruct (total leA a1 a2); [left|right]; split; try done; intros; congruence.
Qed.
#[global] Instance lex_le_antisymm `{!AntiSymm (=) leA, !AntiSymm (=) leB} : AntiSymm (=) (lex_le leA leB).
Proof.
  intros [a1 b1] [a2 b2] [H1 H2] [H3 H4]. simpl in *. assert (a1 = a2) as -> by by apply (anti_symm leA).
  f_equal. apply (anti_symm leB); auto.
Qed.
End lex.
#[global] Instance key_le_trans {K} (le : relation K) `{!Transitive le} : Transitive (key_le le).
Proof. intros a b c. unfold key_le. apply transitivity. Qed.
#[global] Instance key_le_total {K} (le : relation K) `{!Total le} : Total (key_le le).
Proof. intros a b. apply (total le). Qed.

Lemma elem_of_iter_counts {K} `{Countable K} (le : relation K) `{!RelDecision le} (m : Counts K) k n :
  (k, n) ∈ iter_counts le m ↔ m !! k = Some n.
Proof. unfold iter_counts. rewrite merge_sort_Permutation. apply elem_of_map_to_list. Qed.
Lemma iter_counts_nodup {K} `{Countable K} (le : relation K) `{!RelDecision le} (m : Counts K) :
  NoDup (iter_counts le m).*1.
Proof. unfold iter_counts. rewrite merge_sort_Permutation. apply NoDup_fst_map_to_list. Qed.

Lemma elem_of_count_deltas x t :
  x ∈ count_deltas t ↔ counts t !! (delta_kind x, delta_subject x) = Some (delta_production x, delta_candidate x).
Proof.
  unfold count_deltas. rewrite list_elem_of_In, in_map_iff. split.
  - intros ([[k s] [p c]] & <- & Hin%list_elem_of_In). by apply elem_of_iter_counts in Hin.
  - intros Hl. exists ((delta_kind x, delta_subject x), (delta_production x, delta_candidate x)).
    split; [by destruct x|]. by apply list_elem_of_In, elem_of_iter_counts.
Qed.
Lemma elem_of_divergences x t :
  x ∈ divergences t ↔ chain t !! (div_target x, div_rule x, div_stage x) = Some (div_production x, div_candidate x) ∧
    div_production x ≠ div_candidate x.
Proof.
  unfold divergences. rewrite list_elem_of_omap. split.
  - intros ([[[g r] s] [p c]] & Hin%elem_of_iter_counts & Hx). destruct (N.eqb_spec p c); [done|]. by simplify_eq.
  - intros [Hl Hne]. eexists. split; [apply elem_of_iter_counts, Hl|]. simpl.
    rewrite (proj2 (N.eqb_neq _ _) Hne). by destruct x.
Qed.
Lemma deltas_nodup t : NoDup ((λ x, (delta_kind x, delta_subject x)) <$> count_deltas t).
Proof.
  unfold count_deltas. change (@map ?A ?B ?f) with (@fmap list list_fmap A B f). rewrite <- list_fmap_compose.
  erewrite list_fmap_ext; [apply (iter_counts_nodup count_le)|]. by intros _ [[] []] _.
Qed.
Lemma sorted_fmap {A B} (R : relation A) (S : relation B) (f : A → B) l :
  (∀ x y, R x y → S (f x) (f y)) → StronglySorted R l → StronglySorted S (f <$> l).
Proof.
  intros Hf. induction 1 as [|x l Hl IH Hall]; [constructor|]. cbn. constructor; [done|].
  rewrite Forall_fmap. eapply Forall_impl; [exact Hall|]. intros y. apply Hf.
Qed.
Lemma deltas_sorted t : StronglySorted count_le ((λ x, (delta_kind x, delta_subject x)) <$> count_deltas t).
Proof.
  unfold count_deltas. change (@map ?A ?B ?f) with (@fmap list list_fmap A B f). rewrite <- list_fmap_compose.
  eapply sorted_fmap; [|unfold iter_counts; apply StronglySorted_merge_sort; [apply _|apply key_le_total; apply _]].
  by intros [[] []] [[] []].
Qed.

(** ** The rows are exact *)

(** A row for each kind and subject with a receipt in either store, with how
    many there are, in the order of kinds and subjects. *)
Definition counts_exact fetched (rows : list ReceiptCountDelta) : Prop :=
  StronglySorted count_le ((λ x, (delta_kind x, delta_subject x)) <$> rows) ∧
  NoDup ((λ x, (delta_kind x, delta_subject x)) <$> rows) ∧
  ∀ x, x ∈ rows ↔ ∃ prod sess, (delta_kind x, (prod, sess)) ∈ fetched ∧
    (0 < having subject_of (delta_subject x) prod + having subject_of (delta_subject x) sess)%N ∧
    delta_production x = N.min u64_max (having subject_of (delta_subject x) prod) ∧
    delta_candidate x = N.min u64_max (having subject_of (delta_subject x) sess).
(** A row for each target, rule and stage the stores disagree on. *)
Definition divergences_exact fetched (rows : list ChainDivergence) : Prop :=
  ∀ x, x ∈ rows ↔ ∃ kind prod sess, (kind, (prod, sess)) ∈ fetched ∧ enforcement_stage kind = Some (div_stage x) ∧
    div_production x ≠ div_candidate x ∧
    div_production x = N.min u64_max (having chain_of (div_target x, div_rule x) prod) ∧
    div_candidate x = N.min u64_max (having chain_of (div_target x, div_rule x) sess).

Lemma cell_Some p c p' c' :
  cell p c = Some (p', c') ↔ (0 < p + c)%N ∧ p' = N.min u64_max p ∧ c' = N.min u64_max c.
Proof.
  unfold cell. destruct (N.eqb_spec p 0), (N.eqb_spec c 0); simpl; split; intros Hc; simplify_eq; try lia;
    try (split_and!; [lia|done|done]); destruct Hc as (? & -> & ->); done.
Qed.

Lemma tally_exact fetched : NoDup fetched.*1 →
  counts_exact fetched (count_deltas (tally_all fetched)) ∧ divergences_exact fetched (divergences (tally_all fetched)).
Proof.
  intros Hk. split; [split_and!; [apply deltas_sorted|apply deltas_nodup|]|].
  - intros x. rewrite elem_of_count_deltas. split.
    + intros Hx. pose proof (counted_kind _ Hk _ _ _ Hx) as Hin. apply list_elem_of_fmap in Hin as ([kind [prod sess]] & He & Hin).
      cbn [fst] in He. rewrite He in *. exists prod, sess. split; [done|]. rewrite (counted _ Hk _ _ _ _ Hin) in Hx.
      by apply cell_Some in Hx.
    + intros (prod & sess & Hin & Hx). rewrite (counted _ Hk _ _ _ _ Hin). by apply cell_Some.
  - intros x. rewrite elem_of_divergences. split.
    + intros [Hx Hne]. destruct (chained_kind _ Hk _ _ _ _ Hx) as (kind & [prod sess] & Hin & Hs).
      rewrite (chained _ Hk _ _ _ _ _ _ Hin Hs) in Hx. apply cell_Some in Hx as (_ & ? & ?). by exists kind, prod, sess.
    + intros (kind & prod & sess & Hin & Hs & Hne & Hp & Hc). split; [|done].
      rewrite (chained _ Hk _ _ _ _ _ _ Hin Hs). apply cell_Some. split; [|done]. rewrite Hp, Hc in Hne. unfold u64_max in *. lia.
Qed.

(** ** The command *)

Section command.
Context `{SerdeItems} `{EqDecision JsonNumber} `{CedarText} (to_string_pretty : JsonValue → Result string string).
Context `{TimeOps, OffsetDateTimeOps, CryptoOps, SerdeYaml}.
Context `{Encode cp_proto.AgentBearerToken, Encode cp_proto.OperatorBearerToken}.
Context (read_to_string : string → Result string string) (clock : nat → Timestamp) (now_ns : nat → N).
Context {V : Type} `{!Services V} (identity : SeedIdentity).
Implicit Types (v : V) (f : DiffFlags) (kinds : list string).
Notation run := (cmd_diff_behavioural to_string_pretty read_to_string clock now_ns identity).
Notation structural := (structural read_to_string).

(** What the services answer, kind by kind: the window's receipts of the log and
    the session's. *)
Fixpoint fetch_kinds (agent_token operator_token session : string) (from to : N) kinds : M V OpsError Fetched :=
  match kinds with
  | [] => mret []
  | kind :: kinds =>
      let! prod := fetch_production_by_action_kind agent_token kind from to in
      let! sess := fetch_session_by_action_kind operator_token session kind in
      let! fetched := fetch_kinds agent_token operator_token session from to kinds in
      mret ((kind, (prod, sess)) :: fetched)
  end.

Lemma rpc_Ok {A} (m : M V Status A) v a v' : OpsDiff.rpc m v = (Ok a, v') → m v = (Ok a, v').
Proof. unfold OpsDiff.rpc, m_map_err. destruct (m v) as [[|] ?]; naive_solver. Qed.
Lemma tally_kinds_Ok at_ ot session from to kinds t v t' v' :
  tally_kinds at_ ot session from to kinds t v = (Ok t', v') →
  ∃ fetched, fetch_kinds at_ ot session from to kinds v = (Ok fetched, v') ∧ fetched.*1 = kinds ∧
    t' = foldl (λ t e, tally_kind e.1 e.2.1 e.2.2 t) t fetched.
Proof.
  revert t v. induction kinds as [|kind kinds IH]; intros t v Hm; [injection Hm as <- <-; by exists []|].
  cbn [tally_kinds] in Hm. apply mthen_Ok in Hm as (prod & v1 & Hp & Hm). apply mthen_Ok in Hm as (sess & v2 & Hs & Hm).
  apply IH in Hm as (fetched & Hf & <- & ->). exists ((kind, (prod, sess)) :: fetched). split; [|done].
  cbn [fetch_kinds]. unfold mthen. by rewrite Hp, Hs, Hf.
Qed.

(** The session the services replay the window in, of the candidate on the right
    side, up to the end of its stream. *)
Definition replayed f (from to : N) filter (right : Constitution) (operator_token : string) v session v1 : Prop :=
  ∃ yaml cedar created frames totals v0,
    read_file read_to_string (right_engine_config f) = Ok yaml ∧ read_file read_to_string (right_cedar f) = Ok cedar ∧
    svc_create_session (sent OperatorBearer operator_token
      (mkCreate (Some (candidate_proto identity f right cedar yaml (clock 2))) (Some (mkWindow from to filter)) 0 0)) v
      = (Ok created, v0) ∧
    session = Created_replay_session_id created ∧
    svc_run_session (sent OperatorBearer operator_token session) v0 = (Ok frames, v1) ∧ drain frames 0 0 = Ok totals.

(** [C36] The behavioural diff is exact for what the services answered.  When the
    command succeeds its output is the structural diff of the two files with a
    behavioural part: for the kinds of the filter, none of them named twice, a
    row per kind and subject that has a receipt in the window of the log or in
    the session, with both counts, in the order of kinds and subjects, no pair
    twice; and a row per target, rule and stage of the enforcement kinds on which
    the two stores disagree, and no other. *)
Theorem behavioural_counts_exact f from to filter v out v' :
  NoDup (action_kinds filter) → run f from to filter v = (Ok out, v') →
  ∃ from_ns to_ns format right diff session agent_token operator_token fetched closed v1 v2 b,
    from = Some from_ns ∧ to = Some to_ns ∧ (from_ns <= to_ns)%N ∧ parse_flag (OpsDiff.format f) = Some format ∧
    structural f (clock 0) (clock 1) = Ok (right, diff) ∧
    fst <$> mint_operator_token identity (clock 3) (now_ns 0) = Some operator_token ∧
    fst <$> mint_agent_token identity (clock 4) (now_ns 1) = Some agent_token ∧
    replayed f from_ns to_ns filter right operator_token v session v1 ∧
    fetch_kinds agent_token operator_token session from_ns to_ns (action_kinds filter) v1 = (Ok fetched, v2) ∧
    fetched.*1 = action_kinds filter ∧
    svc_close_session (sent OperatorBearer operator_token session) v2 = (Ok closed, v') ∧
    window_from b = from_ns ∧ window_to b = to_ns ∧ replay_session_id b = session ∧
    counts_exact fetched (receipt_count_deltas b) ∧ divergences_exact fetched (chain_divergences b) ∧
    out.1 = output_file f ∧ render_to_string to_string_pretty (with_behavioural b diff) format = Ok out.2.
Proof.
  intros Hnd Hm. unfold cmd_diff_behavioural in Hm.
  apply mthen_Ok in Hm as (format & ? & [= Hf%ok_or_Ok <-] & Hm).
  destruct from as [from|], to as [to|]; try done. destruct (N.ltb_spec to from) as [|Hle]; [done|].
  apply mthen_Ok in Hm as ([right diff] & ? & [= Hd <-] & Hm). cbv beta zeta in Hm.
  apply mthen_Ok in Hm as (yaml & ? & [= Hy <-] & Hm). apply mthen_Ok in Hm as (cedar & ? & [= Hce <-] & Hm).
  apply mthen_Ok in Hm as (ot & ? & [= Hot%ok_or_Ok <-] & Hm). apply mthen_Ok in Hm as (at_ & ? & [= Hat%ok_or_Ok <-] & Hm).
  apply mthen_Ok in Hm as (created & v1 & Hcr%rpc_Ok & Hm). apply mthen_Ok in Hm as (frames & v2 & Hfr%rpc_Ok & Hm).
  apply mthen_Ok in Hm as (totals & ? & [= Hto%map_err_Ok <-] & Hm). apply mthen_Ok in Hm as (t & v3 & Ht & Hm).
  apply mthen_Ok in Hm as (closed & v4 & Hcl%rpc_Ok & Hm).
  apply mthen_Ok in Hm as (rendered & ? & [= Hr%map_err_Ok <-] & [= <- <-]).
  apply tally_kinds_Ok in Ht as (fetched & Hfe & Hk & ->). fold (tally_all fetched) in *.
  rewrite <- Hk in Hnd. destruct (tally_exact fetched Hnd) as [Hc Hv].
  do 13 eexists. split_and!; [done|done|exact Hle|exact Hf|exact Hd|exact Hot|exact Hat| |exact Hfe|exact Hk|exact Hcl|..|exact Hr].
  { unfold replayed. by do 6 eexists. }
  all: cbn [window_from window_to replay_session_id receipt_count_deltas chain_divergences fst]; done.
Qed.

(** A control plane that refuses to open the session ends the command with
    an error: the structural diff, though computed before, is not rendered. *)
Lemma failed_replay_hides_structural_diff f from to filter v :
  (∀ request, is_ok (svc_create_session request v).1 = false) → is_ok (run f from to filter v).1 = false.
Proof.
  intros He. destruct (run f from to filter v) as [[out|e] v'] eqn:Hm; [|done]. unfold cmd_diff_behavioural in Hm.
  apply mthen_Ok in Hm as (format & ? & [= _ <-] & Hm). destruct from as [from|], to as [to|]; try done.
  destruct (to <? from)%N; [done|]. apply mthen_Ok in Hm as (d & ? & [= _ <-] & Hm). cbv beta zeta in Hm.
  do 4 (apply mthen_Ok in Hm as (? & ? & [= _ <-] & Hm)). apply mthen_Ok in Hm as (created & v1 & Hc & _).
  unfold rpc, m_map_err in Hc.
  match type of Hc with context [svc_create_session ?r v] => specialize (He r); destruct (svc_create_session r v) as [[|] ?] end; done.
Qed.
End command.

(** ** What a session can answer *)

Section session.
Context `{TimeOps} `{OffsetDateTimeOps} `{SerdeJson} {engine_api : Cedar} `{CryptoOps} `{Encode rproto.Receipt}.
Context {S Src : Type} `{!ReceiptStore S} `{!ReceiptStoreLaws S} `{!ReceiptStore Src} `{!ReceiptStoreLaws Src}.
Context (resolver : PassportResolver) (cp : ControlPlaneIdentity).
Implicit Types (s : ReplaySession (S:=S)).

Definition enforcement_only (m : gmap Hash Receipt) : Prop :=
  ∀ id r, m !! id = Some r → starts_with "enforcement." (Receipt.action_kind r) = true.

Lemma engine_run_effects ops e : Forall engine_effect (engine_run ops e).1.
Proof.
  revert e. induction ops as [|op ops IH]; intros e; [constructor|]. cbn [engine_run].
  assert (Forall engine_effect (engine_step op e).1) as Hs.
  { destruct op; [constructor|apply on_receipt_effects|apply poll_effects]. }
  destruct (engine_step op e) as [es e1]. specialize (IH e1). destruct (engine_run ops e1) as [es' e2]. by apply Forall_app.
Qed.

(** The store of a session is lawful and holds receipts of enforcement only. *)
Definition session_inv s : Prop := store_inv (ReplaySession.receipt_store s) ∧ enforcement_only (view (ReplaySession.receipt_store s)).

Lemma append_enforcement r o (st : S) : starts_with "enforcement." (Receipt.action_kind r) = true →
  store_inv st → enforcement_only (view st) → enforcement_only (view (append r o resolver st).2).
Proof.
  intros Hr Hst He. destruct (append r o resolver st) as [[out|e] st'] eqn:Ha; cbn [snd].
  - apply append_Ok in Ha as (_ & _ & Hk); [|done].
    destruct (AppendOutcome.kind out); destruct Hk as [_ ->]; [|done]. intros id r'.
    rewrite lookup_insert_Some. intros [[_ <-]|[_ Hl]]; [done|by eapply He].
  - apply append_Err in Ha as [-> _]. done.
Qed.
Lemma keeps_emit_one clock e preds : engine_effect e →
  keeps session_inv (emit_session_enforcement_receipt resolver cp clock e preds).
Proof.
  intros [Hk _] s [Hst He]. unfold emit_session_enforcement_receipt, mthen.
  destruct (session_receipt cp clock e preds s) as [r|err] eqn:Hr; [|done]. apply session_receipt_Ok in Hr as [Hr _].
  rewrite <- Hr in Hk. unfold m_map_err, zoom.
  pose proof (append_inv r AppendOptions.default resolver _ Hst) as Hi.
  pose proof (append_enforcement r AppendOptions.default _ Hk Hst He) as Hv.
  destruct (append r _ _ _) as [[out|err] st]; done.
Qed.
Lemma keeps_emit_each clock es preds : Forall engine_effect es → keeps session_inv (emit_each resolver cp clock es preds).
Proof.
  intros Hes. revert clock. induction Hes as [|e es He _ IH]; intros clock; [apply keeps_mret|]. cbn [emit_each].
  apply keeps_mthen; [by apply keeps_emit_one|]. intros id. apply keeps_mthen; [apply IH|]. intros ids. apply keeps_mret.
Qed.
Lemma keeps_play_receipt clock r : keeps session_inv (play_receipt resolver cp clock r).
Proof.
  unfold play_receipt. apply keeps_mthen; [apply keeps_lift|]. intros id s Hs. unfold mthen at 1.
  pose proof (feed_run r (ReplaySession.engine s)) as Hf. pose proof (engine_run_effects (feed_ops r) (ReplaySession.engine s)) as He. rewrite <- Hf in He.
  destruct (feed r (ReplaySession.engine s)) as [es e]. cbn [fst] in He.
  assert (session_inv (ReplaySession.set_engine e s)) as Hs' by exact Hs. revert Hs'. generalize (ReplaySession.set_engine e s). clear s Hs Hf e.
  apply keeps_mthen; [apply keeps_gets|]. intros preds. apply keeps_mthen; [by apply keeps_emit_each|]. intros ids.
  apply keeps_mthen; [by apply keeps_modify|]. intros _. apply keeps_mret.
Qed.
Lemma keeps_play_all (clock : nat → nat → Timestamp) rs totals : keeps session_inv (play_all resolver cp clock rs totals).
Proof.
  revert clock totals. induction rs as [|r rs IH]; intros clock totals; [apply keeps_mret|].
  apply keeps_mthen; [apply keeps_play_receipt|]. intros o. apply IH.
Qed.

(** Asked for a kind outside enforcement a session has nothing to answer: the
    candidate's count of envelopes and evaluations is zero whatever the
    candidate is. *)
Lemma candidate_never_evaluates (clock : nat → nat → Timestamp) (source : Src) window s r s' kind page :
  session_inv s → ReplaySession.run_window resolver cp clock source window s = (r, s') → starts_with "enforcement." kind = false →
  query (Query.ByActionKind kind) None (ReplaySession.receipt_store s') = Ok page → Page.receipts page = [].
Proof.
  intros Hs Hrun Hk Hq.
  assert (keeps session_inv (ReplaySession.run_window resolver cp clock source window)) as Hkeep.
  { apply keeps_mthen; [apply keeps_lift|]. intros rs. apply keeps_play_all. }
  destruct (keeps_run _ _ _ _ _ Hkeep Hrun Hs) as [Hst He].
  destruct (Page.receipts page) as [|r0 l] eqn:Hp; [done|].
  destruct (query_spec (Query.ByActionKind kind) None (ReplaySession.receipt_store s') r0 Hst) as (page' & Hq' & Hin).
  rewrite Hq in Hq'. injection Hq' as <-. rewrite Hp in Hin.
  destruct (proj1 Hin) as (id & Hl & Hr); [set_solver|]. apply He in Hl. congruence.
Qed.

(** ** What a filter does to a session *)

Lemma cold_unscheduled canonical set_iter graph_iter id swarm candidate (st : S) s :
  create_cold canonical set_iter graph_iter id swarm candidate st = Ok s → Engine.scheduled (ReplaySession.engine s) = [].
Proof.
  unfold create_cold. intros (schema & _ & Hs)%rbind_Ok. apply rbind_Ok in Hs as (activated & _ & [= <-]). done.
Qed.
Lemma feed_quiet r e : starts_with "enforcement." (Receipt.action_kind r) = true → Engine.scheduled e = [] →
  (feed r e).1 = [] ∧ Engine.scheduled (feed r e).2 = [].
Proof.
  intros Hr He. unfold feed. pose proof (on_receipt_enforcement (replay_view r) e Hr) as Hq.
  assert (Engine.scheduled (Engine.on_receipt (replay_view r) e).2 = []) as Hs.
  { unfold Engine.on_receipt. change (ReceiptView.action_kind (replay_view r)) with (Receipt.action_kind r). rewrite Hr.
    cbn [snd]. repeat case_match; done. }
  destruct (Engine.on_receipt _ _) as [es e1]. cbn [fst snd] in *. subst es. rewrite poll_eq, Hs. cbn. by rewrite Hs.
Qed.
Lemma play_quiet rs e : Forall (λ r, starts_with "enforcement." (Receipt.action_kind r) = true) rs →
  Engine.scheduled e = [] → (engine_run (play_ops rs) e).1 = [].
Proof.
  intros Hrs. revert e. induction Hrs as [|r rs Hr _ IH]; intros e He; [done|]. rewrite play_ops_cons.
  pose proof (feed_quiet r e Hr He) as [Hq Hs]. destruct (feed r e) as [es e1]. cbn [fst snd] in *. subst es.
  specialize (IH e1 Hs). destruct (engine_run (play_ops rs) e1) as [es e2]. exact IH.
Qed.

(** The kinds of the filter select what the session is played, not what is
    counted.  Asked about enforcement only, a cold session is played the log's
    enforcement receipts, which move no rule: whatever the candidate would have
    detected in the window, it writes nothing. *)
Lemma enforcement_filter_silences_candidate (clock : nat → nat → Timestamp) (source : Src) window s totals s' :
  store_inv (ReplaySession.receipt_store s) → store_inv source → Engine.scheduled (ReplaySession.engine s) = [] →
  ReplaySessionWindow.action_kind_filter window ≠ [] →
  Forall (λ kind, starts_with "enforcement." kind = true) (ReplaySessionWindow.action_kind_filter window) →
  ReplaySession.run_window resolver cp clock source window s = (Ok totals, s') →
  view (ReplaySession.receipt_store s') = view (ReplaySession.receipt_store s).
Proof.
  intros Hs Hsrc He Hne Hf Hrun. destruct (replay_window_exact resolver cp _ _ _ _ _ _ Hs Hsrc Hrun)
    as (rs & es & ids & _ & Hin & Hes & [Hsub Hg] & Hw & _).
  assert (es = []) as ->.
  { change es with (es, ReplaySession.engine s').1. rewrite <- Hes. apply play_quiet; [|done]. apply Forall_forall.
    intros r (_ & _ & [?|Hr])%Hin; [done|]. rewrite Forall_forall in Hf. auto. }
  apply Forall2_nil_inv_l in Hw as ->. apply map_eq. intros id.
  destruct (view (ReplaySession.receipt_store s) !! id) as [r|] eqn:E; [by eapply lookup_weaken|].
  destruct (view (ReplaySession.receipt_store s') !! id) as [r|] eqn:E'; [|done].
  destruct (Hg id) as [[? ?]|?]; [by eexists|congruence|set_solver].
Qed.
End session.

(** ** A concrete command *)

Module OpsToy.
Export SeedToy.
Export DiffToy.
#[global] Instance yaml : SerdeYaml := {|
  yaml_from_str s := if bool_decide (s = "?")%string then Err "syntax"%string
                     else Ok (EngineConfig.mk "1.1.0" [EngineConfig.mkPredicate "p" s] [] [] []);
  yaml_to_string _ := Err "unused"%string |}.
Definition files (path : string) : Result string string :=
  if bool_decide (path = "missing")%string then Err "No such file"%string else Ok path.
Definition receipt (kind : string) (ns : N) (evidence : list (string * string)) : rproto.Receipt :=
  rproto.mkReceipt None None None kind None
    ((λ e, rproto.mkEvidence e.1 "type.yutha.dev/v1/String" (as_bytes e.2) false) <$> evidence) "1" None
    (Some (proto.mkTimestamp "t" ns)) None None [].
Definition detected (ns : N) : rproto.Receipt :=
  receipt "enforcement.detect" ns [("target_agent_id", "a"); ("enforcement_rule_id", "r")]%string.
(** The log has three detections, the last after the window, and two
    envelopes; the session has one detection. *)
Definition log : list rproto.Receipt :=
  [detected 1; detected 5; detected 11; receipt "envelope.send" 3 [("subject_agent_id", "a")]%string;
   receipt "envelope.send" 4 [("subject_agent_id", "b")]%string].
Definition of_kind (q : option rproto.QueryRequest) (l : list rproto.Receipt) : list rproto.Receipt :=
  match q with
  | Some (rproto.mkQueryRequest (Some (rproto.ByActionKind k)) _ _) =>
      List.filter (λ r, String.eqb (rproto.Receipt_action_kind r) k) l
  | _ => []
  end.
#[global] Instance services : Services bool := {|
  svc_create_session _ := λ up, if up : bool then (Ok (mkCreated "s" None), up) else (Err (Status.unavailable "down"), up);
  svc_run_session _ := mret [Ok (mkProgress "s" 1 1 None false); Ok (mkProgress "s" 10 4 None true)];
  svc_query request := mret (rpc.mkQueried (of_kind (into_inner request) log) []);
  svc_query_replay_receipts request := mret (rpc.mkQueried (of_kind (QueryReplay_query (into_inner request)) [detected 1]) []);
  svc_close_session _ := mret (mkClosed None 4) |}.
Definition flags : DiffFlags := mkFlags "permit" "true" "forbid" "false" "1" "2" "md" None.
Definition at_ns (n : nat) : Timestamp := Timestamp.mk "50" (N.of_nat n).
Definition ran (up : bool) :=
  cmd_diff_behavioural (λ _, Ok "{}"%string) files at_ns N.of_nat identity flags (Some 1%N) (Some 10%N) [] up.
(** Detections of an agent, by the subject they do not name; with the session
    refused there is no output. *)
Example counted_rows :
  match (tally_kinds "a" "o" "s" 1 10 (action_kinds []) no_tally true).1 with
  | Ok t => (map (λ x, (delta_kind x, delta_subject x, delta_production x, delta_candidate x)) (count_deltas t),
             map (λ x, (div_target x, div_production x, div_candidate x)) (divergences t))
  | Err _ => ([], [])
  end = ([("enforcement.detect", "", 2, 1); ("envelope.send", "a", 1, 0); ("envelope.send", "b", 1, 0)], [("a", 2, 1)])%string%N.
Proof. vm_compute. reflexivity. Qed.
Example refused_without_output : is_ok (ran false).1 = false.
Proof. vm_compute. reflexivity. Qed.
Definition out : option string * string := default (None, ""%string) (result_ok (ran true).1).
End OpsToy.

Lemma behavioural_counts_exact_witness :
  NoDup (action_kinds []) ∧
  ∃ (fetched : Fetched) (b : BehaviouralDiff) (diff : ConstitutionDiff),
    counts_exact fetched (receipt_count_deltas b) ∧ divergences_exact fetched (chain_divergences b) ∧
    render_to_string (λ _, Ok "{}"%string) (with_behavioural b diff) MarkdownFormat = Ok OpsToy.out.2.
Proof.
  assert (NoDup (action_kinds [])) as Hnd by (apply (bool_decide_unpack _); vm_compute; reflexivity).
  assert (OpsToy.ran true = (Ok OpsToy.out, true)) as Hrun by (vm_compute; reflexivity).
  split; [exact Hnd|].
  destruct (behavioural_counts_exact (λ _, Ok "{}"%string) OpsToy.files OpsToy.at_ns N.of_nat SeedToy.identity OpsToy.flags
    (Some 1%N) (Some 10%N) [] true OpsToy.out true Hnd Hrun)
    as (? & ? & format & right & diff & ? & ? & ? & fetched & ? & ? & ? & b & _ & _ & _ & Hf & _ & _ & _ & _ & _ & _ & _ & _ & _ & _ & Hc & Hd & _ & Hr).
  exists fetched, b, diff. split; [exact Hc|]. split; [exact Hd|]. vm_compute in Hf. injection Hf as <-. exact Hr.
Defined.
